(* ===== verification/_CoqProject ===== *)
-Q . S2P
Prelude.v
ByteMem.v
Maths.v
BitSet.v
Array.v
LibC.v
Strings.v
Printf.v
Qsort.v
Allocator.v
Ir.v
Reader.v
Lex.v
Stream.v
Asm.v
Encodings.v
RegAlloc.v
AsmGen.v
AsmSem.v
AsmGenSound.v
AsmGenFrame.v
AsmGenCalls.v
Elf.v
ElfSound.v
ElfLink.v
ElfExec.v
Ast.v
Parse.v
ParseSound.v
ParseExpr.v
Preprocess.v
PreprocessSpec.v
PreprocessSound.v
CType.v
Context.v
Convert.v
Calls.v
Initializer.v
Decl.v
Expr.v
Statement.v
IrGen.v
GenLogic.v
ExprSound.v
DeclSound.v
GenSound.v
UnitSound.v
Driver.v
Archive.v
