(* ===== verification/Prelude.v ===== *)
(** * A verification library for the naive C toolchain: header and shared prelude

    The program is a C compiler for x86-64 ([ncc]) with its assembler ([nas]),
    its archiver ([nar]) and a small C library, all written in C. A source file
    passes through these parts, each of which has a file here where it is
    modelled:

    - [src/src/syntax]: the preprocessor ([Preprocess.v]) rewrites the text and
      records adjustments of the source positions; the reader ([Reader.v]) is the cursor
      over that text; the lexer ([Lex.v]) turns it into tokens; the parser ([Parse.v]),
      which is generated from a grammar, builds the tree ([Ast.v]);
    - [src/src/ir_gen]: types are checked and the tree becomes intermediate
      representation ([CType.v], [Context.v], [Convert.v], [Calls.v],
      [Initializer.v], [Decl.v], [Expr.v], [Statement.v], [IrGen.v]), through the
      builders of [src/src/ir.c] ([Ir.v]);
    - [src/src/backend]: [asm_gen.c] ([AsmGen.v]) selects instructions over virtual
      registers, [reg_alloc.c] ([RegAlloc.v]) assigns machine registers, [asm.c]
      ([Asm.v]) encodes the instructions by the table [x64.enc] ([Encodings.v]) and
      resolves jumps, [elf.c] ([Elf.v]) writes
      and links object files, on files ([file.c], [Stream.v]);
    - [src/src/bin]: the compiler driver [ncc.c] ([Driver.v]) calls these parts in order;
      the archiver [nar.c] ([Archive.v]) puts object files into one file;
    - the containers all of them use: bit arithmetic ([Maths.v]), bit sets
      ([BitSet.v]), growable arrays ([Array.v]), counted strings ([Strings.v]);
    - [src/libc], the C library the tools are linked with when they compile
      themselves: memory and strings ([LibC.v]), formatted output ([Printf.v]),
      [qsort] ([Qsort.v]), the heap ([Allocator.v]).

    ** How the code is modelled

    Definitions keep the names of the C functions. A function that can end the
    program returns a [res]: [Ok] with its result, or [Stop] with the reason (an
    exit code, [abort], undefined behaviour, or fuel). [ASSERT] and its relatives
    stop with the internal error code as [assertions.h] does. A function that
    works on a struct its callers pass by pointer is a computation [st S A] on
    that struct, or takes and returns it. Pointers into arrays are indices; the
    heap model and the array model use addresses and byte blocks. Accesses
    outside an object are [Stop Undef], never a default value.

    A w-bit unsigned integer is a [Z] below 2^w, with [wrap w] (u8, u16, u32,
    u64) where the code converts or overflows; signed types use [sgn w] (i8, i32,
    i64), so signed overflow is taken as two's complement, which is what the
    compilers used here produce. A [char] is signed.

    Loops are [loop] with a body and fuel, or a [Fixpoint] on the data they walk.
    Where fuel appears, a theorem says that the fuel given is enough: [loop_total]
    asks for an invariant and a variant below the fuel. [rewrite_fuel], the length
    in [qsort], the number of instructions in the liveness loops and the text
    length in the lexer are such bounds. Loops that do not end in the C code are
    shown to run out of every fuel ([loop_diverges]).

    ** The files

    - [Prelude.v]: the result and state monads, machine integers, loops and folds
      with their rules, the tactics [bsplit] (boolean hypotheses), [zcases]
      (comparisons in the goal), [mstep] (chains of binds), the hint databases
      [naive], [keeps] (invariants of stateful code) and [zbits] (bits of
      integers).
    - [Maths.v] ([maths.h]): the bit scans against the set of bits of a word,
      [align_to] as the least multiple.
    - [BitSet.v] ([bit_set.h], [bit_set.c]): refinement of finite sets.
    - [Array.v] ([array.h], [array.c]): refinement of lists by byte blocks.
    - [LibC.v], [Strings.v], [Printf.v], [Qsort.v]: functional correctness of
      [memmove], [strcmp], [string_eq], [string_concat], [qsort]; printing and
      parsing of numbers are inverse; the bounds of [snprintf].
    - [Allocator.v] ([allocator.c]): the relation [reach] lists the steps of a
      client; in every reachable state the blocks it owns are disjoint. [mmap] is
      a parameter with the hypothesis [mmap_spec] (fresh, aligned regions).
    - [Ir.v] ([ir.h], [ir.c]): type equality, sizes, module operations, constant
      folding, builders in [st IrBuilder]. The relation [build_step] drives the
      builder in every way; instruction ids stay consecutive. Doubles are the
      Standard Library's [SpecFloat].
    - [Reader.v] ([reader.h], [reader.c], error reporting of [diagnostics.c]): a
      reading delivers the text without line splices.
    - [Lex.v] ([lex.h], [lex.c]): lexing inverts printing; joining of string
      literals.
    - [Asm.v] ([asm.h], [asm.c]): a decoder of ModR/M, SIB and displacement, and
      the proof that the encoder's bytes decode to the operands; resolution of
      fixups. The selection of an encoding row is a parameter of [assemble].
    - [Encodings.v] ([x64.enc], [enc.py]): the rows of the table and the selection
      generated from it; a check of every row, evaluated once, shows that a selected row
      fits its operands, so that its bytes decode to them.
    - [RegAlloc.v] ([reg_alloc.c], [asm_gen.h]): liveness terminates, covers all
      uses and is sound against paths of the program; linear scan and the pass
      around calls keep simultaneously live registers apart, by an invariant
      ([scan_inv], [calls_inv]) that every step keeps; rewriting equals a
      reference expansion.

    - [AsmGen.v] ([asm_gen.c]): instruction selection, a computation on the state of the
      generator. [AsmSem.v]: what IR and machine instructions on integers do.
      [AsmGenSound.v]: the code of a block runs to the values and the jump of the IR.
      [ByteMem.v], [AsmGenFrame.v]: byte memories, and the prologue and epilogue on a
      processor with a stack. [AsmGenCalls.v]: places of arguments.
    - [Stream.v] ([file.h], [file.c]): files in memory. [Elf.v] ([elf.c]): the object
      writer, the linker's reader and the writer of executables. [ElfSound.v]: the bytes
      of an object file. [ElfLink.v]: the linker on those bytes does what a specification
      on modules says. [ElfExec.v]: several inputs, the bytes of an executable, relocated
      places.

    - [Ast.v] ([ast.h]): the syntax tree; [expr_size] and its companions count
      nodes.
    - [Parse.v] ([parse.peg], [peg.py], [parse.c]): the combinators that the generator
      emits (ordered choice, sequence, option, list, fold) on a state of the parser, a
      definition per rule of the grammar over the record of rules that re-enter it, and
      the actions. [grammar_at n] has [n] levels of rules left. [ParseSound.v]: a rule that
      succeeds consumes a token, so the levels that [grammar] takes from the number
      of tokens are enough. [ParseExpr.v]: printing with the fewest parentheses, and
      parsing what was printed.
    - [Preprocess.v] ([preprocess.c]): the preprocessor, a computation on its
      state; fuel bounds the nesting of includes and expansions. Opening files and
      parsing conditions are parameters. [PreprocessSpec.v]: the semantics of
      preprocessing by rules on texts ([run]) and of nested conditionals.
      [PreprocessSound.v]: the character loop implements the rules; one level of
      fuel per level of nesting is enough; a macro that mentions itself has none.
    - [CType.v] ([c_type.h], [c_type.c]): the store of C types, in which a pointer
      to a type is an index; comparison, literals, named specifiers, arrays.
      Comparison takes the number of types as fuel, which suffices because types
      refer to older types.
    - [Context.v], [Calls.v]: the state of IR generation, and the record [calls]
      of the functions that re-enter each other; every C function is a definition
      over that record. [Convert.v], [Initializer.v], [Decl.v], [Expr.v],
      [Statement.v] follow the C files of the same names. [IrGen.v] ties the knot:
      [calls_at n] has [n] levels of calls left, [ir_gen] takes one more than the
      nodes of the unit. The operands of the code's calls are taken from left to
      right where C leaves their order open.
    - [GenLogic.v]: a program logic for IR generation. [ok s m Q] says that [m]
      ends, keeps the state well formed ([wf]), leaves scopes and jump targets
      ([frame]) and gives a result with [Q]; facts about a state that survive its
      extension are instances of [Persist]. [ExprSound.v], [DeclSound.v],
      [GenSound.v], [UnitSound.v] use it: values have the IR types of their C
      types, statements restore scopes and targets, generation ends.

    - [Driver.v] ([ncc.c], [file.c]): [compile_file] composes the parts above, [main]
      reads the arguments, compiles to temporary files, links and cleans up, on files in
      a finite map. The numbers drawn for temporary names are an argument. Its examples
      run the whole compiler on texts.
    - [Archive.v] ([nar.c]): the archiver; [archive_bytes] says what it writes, and the
      linker reads it as it reads the files.

    Theorems numbered C1 to C40 are the properties of the development; the
    lemma named [..._witness] after a theorem applies it to concrete data. Some
    of them, and the theorems without a number that evaluate an example, record
    behaviour the code does not intend: a heap block issued twice after a failed
    mapping, constant folding that ignores operand widths, literals that never
    end, spilled registers that share a register, a struct that contains itself,
    macros that are expanded forever.

    ** What is not modelled

    Output (the [dump_] functions, the rendering of diagnostics, the messages of the
    drivers), system calls, and the assembler [nas], whose table of mnemonics is generated.
    The readers of the two generators, which scan [x64.enc] and
    [parse.peg], have no counterpart: the rows and the rules are written as definitions.
    The pool gives out memory that is never given back, which values
    do not show. Of preprocessing, the reference semantics leaves out [#if] with
    an expression, the operators [#] and [##] and variadic macros, which the model
    has. Of IR generation it is not proved that jumps and phis refer to blocks of
    their function, nor what the generated code computes. The semantics of blocks in
    [AsmSem.v] has the integer instructions; memory, calls, floats and phis are in the
    model of the generator only. *)

From Stdlib Require Export ZArith Lia Bool.
From stdpp Require Export base tactics numbers strings option gmap list.

Local Open Scope Z_scope.

(** ** How a run of the C code ends *)

(** Exit codes of the tools ([assertions.h]). *)
Inductive ExitCode :=
| EXIT_CODE_SUCCESS
| EXIT_CODE_BAD_CLI
| EXIT_CODE_IO_ERROR
| EXIT_CODE_INVALID_SOURCE
| EXIT_CODE_LINKER_ERROR
| EXIT_CODE_UNIMPLEMENTED
| EXIT_CODE_INTERNAL_COMPILER_ERROR.

#[export] Instance ExitCode_eq_dec : EqDecision ExitCode.
Proof. solve_decision. Defined.

(** A call that does not return normally: the process exits with a code, the C
    code has undefined behaviour (an access outside an object, a read of an
    uninitialised object, a shift by at least the width, a division by zero),
    the process is killed by [abort], or the model ran out of fuel. *)
Inductive stop :=
| Exit (code : ExitCode)
| Aborted
| Undef
| NoFuel.

#[export] Instance stop_eq_dec : EqDecision stop.
Proof. solve_decision. Defined.

Inductive res (A : Type) :=
| Ok (a : A)
| Stop (s : stop).
Arguments Ok {A} a.
Arguments Stop {A} s.

#[export] Instance res_ret : MRet res := fun A a => Ok a.
#[export] Instance res_bind : MBind res := fun A B f m =>
  match m with Ok a => f a | Stop s => Stop s end.
#[export] Instance res_fmap : FMap res := fun A B f m =>
  match m with Ok a => Ok (f a) | Stop s => Stop s end.

#[export] Instance res_eq_dec {A} `{EqDecision A} : EqDecision (res A).
Proof. solve_decision. Defined.

Lemma res_bind_assoc {A B C} (m : res A) (f : A -> res B) (g : B -> res C) :
  (m ≫= f) ≫= g = m ≫= (fun a => f a ≫= g).
Proof. by destruct m. Qed.

Lemma res_bind_Ok {A B} (m : res A) (f : A -> res B) b :
  m ≫= f = Ok b -> exists a, m = Ok a /\ f a = Ok b.
Proof. destruct m as [a|s]; [by exists a | done]. Qed.

(** [ASSERT], [PRECONDITION] and [UNREACHABLE] end in
    [exit_internal_compiler_error], [UNIMPLEMENTED] in [exit_unimplemented]. *)
Definition ICE {A} : res A := Stop (Exit EXIT_CODE_INTERNAL_COMPILER_ERROR).
Definition UNREACHABLE {A} : res A := ICE.
Definition UNIMPLEMENTED {A} : res A := Stop (Exit EXIT_CODE_UNIMPLEMENTED).
Definition ASSERT (b : bool) : res unit := if b then Ok tt else ICE.
Definition PRECONDITION (b : bool) : res unit := ASSERT b.

(** An access that is undefined when it misses the object. *)
Definition of_opt {A} (o : option A) : res A :=
  match o with Some a => Ok a | None => Stop Undef end.

Definition ref {A} (l : list A) (i : Z) : res A :=
  if i <? 0 then Stop Undef else of_opt (l !! Z.to_nat i).

Definition store {A} (l : list A) (i : Z) (x : A) : res (list A) :=
  if (0 <=? i) && (i <? Z.of_nat (length l))
  then Ok (<[Z.to_nat i := x]> l) else Stop Undef.

(** State threaded through calls that may stop the program. *)
Definition st (S A : Type) : Type := S -> res (A * S).
#[export] Instance st_ret {S} : MRet (st S) := fun A a s => Ok (a, s).
#[export] Instance st_bind {S} : MBind (st S) := fun A B f m s =>
  match m s with Ok (a, s') => f a s' | Stop e => Stop e end.

Definition get {S} : st S S := fun s => Ok (s, s).
Definition put {S} (s : S) : st S unit := fun _ => Ok (tt, s).
Definition modify {S} (f : S -> S) : st S unit := fun s => Ok (tt, f s).
Definition lift {S A} (m : res A) : st S A := fun s =>
  match m with Ok a => Ok (a, s) | Stop e => Stop e end.
(** A call on a part of the state. *)
Definition zoom {S T A} (proj : S -> T) (inj : T -> S -> S) (m : st T A) : st S A := fun s =>
  match m (proj s) with Ok (a, t) => Ok (a, inj t s) | Stop e => Stop e end.

Lemma st_bind_Ok {S A B} (m : st S A) (f : A -> st S B) s b s2 :
  (m ≫= f) s = Ok (b, s2) -> exists a s1, m s = Ok (a, s1) /\ f a s1 = Ok (b, s2).
Proof. unfold mbind, st_bind. destruct (m s) as [[a s1]|]; [eauto | done]. Qed.

(** A computation keeps an invariant of its state whenever it returns. *)
Definition keeps {S A} (I : S -> Prop) (m : st S A) : Prop :=
  forall s a s', I s -> m s = Ok (a, s') -> I s'.

Lemma keeps_ret {S A} (I : S -> Prop) (a : A) : keeps I (mret a).
Proof. intros s b s' HI E. injection E as <- <-. done. Qed.
Lemma keeps_lift {S A} (I : S -> Prop) (m : res A) : keeps I (lift m).
Proof. intros s b s' HI E. unfold lift in E. destruct m; [injection E as <- <- | ]; done. Qed.
Lemma keeps_get {S} (I : S -> Prop) : keeps I get.
Proof. intros s b s' HI E. injection E as <- <-. done. Qed.
Lemma keeps_bind {S A B} (I : S -> Prop) (m : st S A) (f : A -> st S B) :
  keeps I m -> (forall a, keeps I (f a)) -> keeps I (m ≫= f).
Proof. intros Hm Hf s b s2 HI (a & s1 & E1 & E2)%st_bind_Ok. eapply Hf, E2. by eapply Hm, E1. Qed.

(** ** Machine integers *)

(** An unsigned w-bit integer is a [Z] in [0, 2^w); [wrap w] is the conversion
    to it and [sgn w] the conversion to the signed type of the same width. *)
Definition wrap (w x : Z) : Z := x mod 2 ^ w.
Definition sgn (w x : Z) : Z :=
  let y := wrap w x in if y <? 2 ^ (w - 1) then y else y - 2 ^ w.

Abbreviation u8 := (wrap 8).
Abbreviation u16 := (wrap 16).
Abbreviation u32 := (wrap 32).
Abbreviation u64 := (wrap 64).
Abbreviation i8 := (sgn 8).
Abbreviation i32 := (sgn 32).
Abbreviation i64 := (sgn 64).

Definition is_u (w x : Z) : Prop := 0 <= x < 2 ^ w.

(** [~x] at width w. *)
Definition bnot (w x : Z) : Z := wrap w (Z.lnot x).

(** [x << n] and [x >> n] on a w-bit unsigned operand: undefined unless n < w. *)
Definition shl (w x n : Z) : res Z :=
  if (0 <=? n) && (n <? w) then Ok (wrap w (Z.shiftl x n)) else Stop Undef.
Definition shr (w x n : Z) : res Z :=
  if (0 <=? n) && (n <? w) then Ok (Z.shiftr x n) else Stop Undef.

Lemma pow2_pos w : 0 <= w -> 0 < 2 ^ w.
Proof. intros; apply Z.pow_pos_nonneg; lia. Qed.

Lemma wrap_bound w x : 0 <= w -> 0 <= wrap w x < 2 ^ w.
Proof. intros; apply Z.mod_pos_bound, pow2_pos; lia. Qed.

Lemma wrap_is_u w x : 0 <= w -> is_u w (wrap w x).
Proof. apply wrap_bound. Qed.

Lemma wrap_small w x : 0 <= x < 2 ^ w -> wrap w x = x.
Proof. apply Z.mod_small. Qed.

Lemma wrap_wrap w x : 0 <= w -> wrap w (wrap w x) = wrap w x.
Proof. intros; apply wrap_small, wrap_bound; done. Qed.

Lemma sgn_bound w x : 0 < w -> - 2 ^ (w - 1) <= sgn w x < 2 ^ (w - 1).
Proof.
  intros Hw. unfold sgn. pose proof (wrap_bound w x ltac:(lia)) as B.
  replace (2 ^ w) with (2 * 2 ^ (w - 1)) in * by (rewrite <- Z.pow_succ_r by lia; f_equal; lia).
  destruct (Z.ltb_spec (wrap w x) (2 ^ (w - 1))); lia.
Qed.

Lemma sgn_small w x : 0 < w -> - 2 ^ (w - 1) <= x < 2 ^ (w - 1) -> sgn w x = x.
Proof.
  intros Hw Hx. unfold sgn, wrap.
  assert (E : 2 ^ w = 2 * 2 ^ (w - 1)) by (rewrite <- Z.pow_succ_r by lia; f_equal; lia).
  destruct (Z.ltb_spec x 0).
  - rewrite <- (Z.mod_add x 1), Z.mod_small by lia.
    destruct (Z.ltb_spec (x + 1 * 2 ^ w) (2 ^ (w - 1))); lia.
  - rewrite Z.mod_small by lia. destruct (Z.ltb_spec x (2 ^ (w - 1))); lia.
Qed.

Lemma i8_small x : - 2 ^ 7 <= x < 2 ^ 7 -> i8 x = x.
Proof. by apply (sgn_small 8). Qed.
Lemma i32_small x : - 2 ^ 31 <= x < 2 ^ 31 -> i32 x = x.
Proof. by apply (sgn_small 32). Qed.
Lemma i64_small x : - 2 ^ 63 <= x < 2 ^ 63 -> i64 x = x.
Proof. by apply (sgn_small 64). Qed.

Lemma wrap_sgn w x : 0 < w -> wrap w (sgn w x) = wrap w x.
Proof.
  intros Hw. unfold sgn. destruct (_ <? _).
  - apply wrap_wrap; lia.
  - unfold wrap. replace (x mod 2 ^ w - 2 ^ w) with (x mod 2 ^ w + (-1) * 2 ^ w) by lia.
    rewrite Z.mod_add, Z.mod_mod by (pose proof (pow2_pos w); lia). done.
Qed.

(** Bits of wrapped integers. *)
Lemma wrap_testbit w x i : 0 <= w ->
  Z.testbit (wrap w x) i = (i <? w) && Z.testbit x i.
Proof.
  intros Hw. unfold wrap. destruct (Z.ltb_spec i w).
  - destruct (Z.neg_nonneg_cases i); [by rewrite !Z.testbit_neg_r |].
    by rewrite Z.mod_pow2_bits_low.
  - by rewrite Z.mod_pow2_bits_high by lia.
Qed.

Lemma is_u_testbit_high w x i : is_u w x -> w <= i -> Z.testbit x i = false.
Proof.
  intros [H0 H1] Hi. destruct (Z.neg_nonneg_cases w).
  - rewrite Z.pow_neg_r in H1 by lia; lia.
  - rewrite <- (wrap_small w x) by lia. rewrite wrap_testbit by lia.
    by destruct (Z.ltb_spec i w); [lia |].
Qed.

Lemma testbit_is_u w x : 0 <= w -> (forall i, w <= i -> Z.testbit x i = false) -> 0 <= x -> is_u w x.
Proof.
  intros Hw H Hx. assert (x = wrap w x) as ->; [| by apply wrap_bound].
  apply Z.bits_inj'. intros i Hi. rewrite wrap_testbit by lia.
  destruct (Z.ltb_spec i w); [done | by rewrite H].
Qed.

Lemma testbit_ext x y : (forall i, 0 <= i -> Z.testbit x i = Z.testbit y i) -> x = y.
Proof. apply Z.bits_inj'. Qed.

Lemma wrap_ones w x : 0 <= w -> wrap w x = Z.land x (Z.ones w).
Proof. intros; symmetry; by apply Z.land_ones. Qed.

(** ** Loops *)

(** A C loop: the body either goes round again with a new state ([inl]) or
    leaves the loop with a result ([inr]). *)
Fixpoint loop {St R : Type} (fuel : nat) (body : St -> res (St + R)) (s : St) : res R :=
  match fuel with
  | O => Stop NoFuel
  | S n =>
      match body s with
      | Ok (inl s') => loop n body s'
      | Ok (inr x) => Ok x
      | Stop e => Stop e
      end
  end.

(** Total correctness: an invariant, a variant below the fuel, a postcondition. *)
Lemma loop_total {St R} (Inv : St -> Prop) (mu : St -> nat) (Post : R -> Prop)
    (body : St -> res (St + R)) :
  (forall s, Inv s -> exists r, body s = Ok r /\
     match r with inl s' => Inv s' /\ (mu s' < mu s)%nat | inr x => Post x end) ->
  forall fuel s, Inv s -> (mu s < fuel)%nat -> exists x, loop fuel body s = Ok x /\ Post x.
Proof.
  intros Hstep fuel. induction fuel as [|n IH]; intros s Hs Hmu; [lia |].
  destruct (Hstep s Hs) as ([s' | x] & E & H); cbn; rewrite E.
  - apply IH; [tauto | lia].
  - by exists x.
Qed.

(** Partial correctness, for loops whose body may stop the program. *)
Lemma loop_partial {St R} (Inv : St -> Prop) (Post : R -> Prop) (body : St -> res (St + R)) :
  (forall s, Inv s -> match body s with
     | Ok (inl s') => Inv s' | Ok (inr x) => Post x | Stop _ => True end) ->
  forall fuel s x, Inv s -> loop fuel body s = Ok x -> Post x.
Proof.
  intros Hstep fuel. induction fuel as [|n IH]; intros s x Hs E; [done |].
  cbn in E. specialize (Hstep s Hs). destruct (body s) as [[s'|y]|]; simplify_eq; eauto.
Qed.

(** A loop whose body never leaves it from states of an invariant diverges. *)
Lemma loop_diverges {St R} (Inv : St -> Prop) (body : St -> res (St + R)) :
  (forall s, Inv s -> exists s', body s = Ok (inl s') /\ Inv s') ->
  forall fuel s, Inv s -> loop fuel body s = Stop NoFuel.
Proof.
  intros Hstep fuel. induction fuel as [|n IH]; intros s Hs; [done |].
  destruct (Hstep s Hs) as (s' & E & H). cbn. rewrite E. auto.
Qed.

(** More fuel never changes a result. *)
Lemma loop_mono {St R} (body : St -> res (St + R)) n m s x :
  (n <= m)%nat -> loop n body s = Ok x -> loop m body s = Ok x.
Proof.
  revert m s. induction n as [|n IH]; intros [|m] s Hle E; try done; [lia |].
  cbn in *. destruct (body s) as [[s'|y]|]; try done. apply IH; [lia | done].
Qed.

(** A loop in a computation on a state. *)
Definition loop_st {S A R} (fuel : nat) (body : A -> st S (A + R)) (a : A) : st S R := fun s =>
  loop fuel (fun '(a, s) => match body a s with
    | Ok (inl a', s') => Ok (inl (a', s'))
    | Ok (inr r, s') => Ok (inr (r, s'))
    | Stop e => Stop e end) (a, s).

Lemma loop_st_next {S A R} n (body : A -> st S (A + R)) a s a' s' :
  body a s = Ok (inl a', s') -> loop_st (Datatypes.S n) body a s = loop_st n body a' s'.
Proof. intros E. unfold loop_st. cbn. by rewrite E. Qed.

Lemma loop_st_done {S A R} n (body : A -> st S (A + R)) a s r s' :
  body a s = Ok (inr r, s') -> loop_st (Datatypes.S n) body a s = Ok (r, s').
Proof. intros E. unfold loop_st. cbn. by rewrite E. Qed.

Lemma loop_st_stop {S A R} n (body : A -> st S (A + R)) a s e :
  body a s = Stop e -> loop_st (Datatypes.S n) body a s = Stop e.
Proof. intros E. unfold loop_st. cbn. by rewrite E. Qed.

Lemma st_bind_run {S A B} (m : st S A) (f : A -> st S B) s a s1 :
  m s = Ok (a, s1) -> (m ≫= f) s = f a s1.
Proof. intros E. unfold mbind, st_bind. by rewrite E. Qed.

Lemma st_bind_stop {S A B} (m : st S A) (f : A -> st S B) s e :
  m s = Stop e -> (m ≫= f) s = Stop e.
Proof. intros E. unfold mbind, st_bind. by rewrite E. Qed.

(** Monadic folds and maps over lists: [for] loops over an array. *)
Fixpoint foldM {A S : Type} (f : S -> A -> res S) (s : S) (l : list A) : res S :=
  match l with
  | [] => Ok s
  | a :: l => s' ← f s a; foldM f s' l
  end.

Lemma foldM_app {A S} (f : S -> A -> res S) s l1 l2 :
  foldM f s (l1 ++ l2) = s' ← foldM f s l1; foldM f s' l2.
Proof.
  revert s. induction l1 as [|a l1 IH]; intros s; [done |].
  cbn. destruct (f s a); [apply IH | done].
Qed.

(** Total correctness of a [for] loop over the indices below [n]. *)
Lemma foldM_seq {S} (I : nat -> S -> Prop) (f : S -> nat -> res S) n s :
  I 0%nat s -> (forall k s, (k < n)%nat -> I k s -> exists s', f s k = Ok s' /\ I (Datatypes.S k) s') ->
  exists s', foldM f s (seq 0 n) = Ok s' /\ I n s'.
Proof.
  intros H0 Hstep. induction n as [|n IH]; [by exists s |].
  destruct IH as (s1 & E1 & H1); [intros; apply Hstep; [lia | done] |].
  destruct (Hstep n s1 ltac:(lia) H1) as (s2 & E2 & H2). exists s2. split; [| done].
  rewrite seq_S, foldM_app, E1. cbn. by rewrite E2.
Qed.

(** The same over the elements of a list, with the prefix already handled. *)
Lemma foldM_prefix {A S} (I : list A -> S -> Prop) (f : S -> A -> res S) l s :
  I [] s -> (forall l1 a l2 s, l = l1 ++ a :: l2 -> I l1 s -> exists s', f s a = Ok s' /\ I (l1 ++ [a]) s') ->
  exists s', foldM f s l = Ok s' /\ I l s'.
Proof.
  intros H0 Hstep. enough (G : forall l2 l1 s, l = l1 ++ l2 -> I l1 s ->
    exists s', foldM f s l2 = Ok s' /\ I l s') by (by apply (G l [] s)).
  induction l2 as [|a l2 IH]; intros l1 s1 El H1; [exists s1; rewrite El, app_nil_r; done |].
  destruct (Hstep l1 a l2 s1 El H1) as (s2 & E2 & H2). cbn. rewrite E2. cbn.
  apply (IH (l1 ++ [a])); [by rewrite <- app_assoc | done].
Qed.

(** ** Tactics *)

(** Split a boolean conjunction or comparison found in the goal or a hypothesis. *)
Ltac bsplit :=
  repeat match goal with
  | H : (_ && _) = true |- _ => apply andb_true_iff in H as [? ?]
  | H : (_ || _) = false |- _ => apply orb_false_iff in H as [? ?]
  | H : (_ <? _) = true |- _ => apply Z.ltb_lt in H
  | H : (_ <? _) = false |- _ => apply Z.ltb_ge in H
  | H : (_ <=? _) = true |- _ => apply Z.leb_le in H
  | H : (_ <=? _) = false |- _ => apply Z.leb_gt in H
  | H : (_ =? _) = true |- _ => apply Z.eqb_eq in H
  | H : (_ =? _) = false |- _ => apply Z.eqb_neq in H
  | H : negb _ = true |- _ => apply negb_true_iff in H
  | H : negb _ = false |- _ => apply negb_false_iff in H
  end.

(** Case analysis on the comparisons of the goal, closed by [lia]. *)
Ltac zcases :=
  repeat match goal with
  | |- context [?a <? ?b] => destruct (Z.ltb_spec a b)
  | |- context [?a <=? ?b] => destruct (Z.leb_spec a b)
  | |- context [?a =? ?b] => destruct (Z.eqb_spec a b)
  end; try lia.

(** Read a chain of binds that ended in [Ok]. *)
Ltac mstep :=
  repeat match goal with
  | H : (_ ≫= _) _ = Ok (_, _) |- _ =>
      let a := fresh "a" in let s := fresh "s" in let E := fresh "E" in
      apply st_bind_Ok in H as (a & s & E & H)
  | H : (_ ≫= _) = Ok _ |- _ =>
      let a := fresh "a" in let E := fresh "E" in
      apply res_bind_Ok in H as (a & E & H)
  | H : Ok _ = Ok _ |- _ => injection H as H; subst
  | H : ASSERT ?b = Ok _ |- _ => destruct b eqn:?; [clear H | done]
  end.

(** ** Generic lemmas *)

Lemma ref_Ok {A} (l : list A) i x : ref l i = Ok x <-> 0 <= i /\ l !! Z.to_nat i = Some x.
Proof.
  unfold ref. destruct (Z.ltb_spec i 0).
  - split; [done | lia].
  - destruct (l !! Z.to_nat i); cbn; naive_solver.
Qed.

Lemma ref_lt {A} (l : list A) i : 0 <= i < Z.of_nat (length l) -> exists x, ref l i = Ok x.
Proof.
  intros Hi. destruct (lookup_lt_is_Some_2 l (Z.to_nat i)) as [x E]; [lia |].
  exists x. apply ref_Ok. split; [lia | done].
Qed.

Lemma ref_in_bounds {A} (l : list A) i x : ref l i = Ok x -> 0 <= i < Z.of_nat (length l).
Proof. intros [? E]%ref_Ok. apply lookup_lt_Some in E. lia. Qed.

Lemma store_Ok {A} (l : list A) i x : 0 <= i < Z.of_nat (length l) ->
  store l i x = Ok (<[Z.to_nat i := x]> l).
Proof. intros. unfold store. by zcases. Qed.

Lemma store_inv {A} (l l' : list A) i x : store l i x = Ok l' ->
  0 <= i < Z.of_nat (length l) /\ l' = <[Z.to_nat i := x]> l.
Proof. unfold store. intros H. case_match; [| done]. bsplit. mstep. split; [lia | done]. Qed.

Lemma ref_insert {A} (l : list A) i j x : 0 <= i < Z.of_nat (length l) ->
  ref (<[Z.to_nat i := x]> l) j = if i =? j then Ok x else ref l j.
Proof.
  intros Hi. unfold ref. destruct (Z.ltb_spec j 0), (Z.eqb_spec i j); try done; try lia.
  - subst. rewrite list_lookup_insert_eq by lia. done.
  - rewrite list_lookup_insert_ne by lia. done.
Qed.

Create HintDb naive.
Create HintDb keeps.
#[export] Hint Resolve keeps_ret keeps_lift keeps_get : keeps.
#[export] Hint Extern 1 (keeps _ (_ ≫= _)) => apply keeps_bind; [| intros ?] : keeps.
Create Rewrite HintDb zbits.
#[export] Hint Resolve pow2_pos wrap_bound wrap_is_u : naive.
#[export] Hint Rewrite wrap_testbit Z.land_spec Z.lor_spec Z.lxor_spec Z.lnot_spec
  Z.shiftr_spec Z.shiftl_spec using lia : zbits.
