(* ===== verification/ByteMem.v ===== *)
(** * Byte memory

    A memory is a function from addresses to bytes; [load_bytes] and [store_bytes]
    move little-endian numbers, as the machine semantics of the back end do. *)

From S2P Require Import Prelude.

Local Open Scope Z_scope.

Definition mem : Type := Z -> Z.

Fixpoint load_bytes (n : nat) (m : mem) (a : Z) : Z :=
  match n with
  | O => 0
  | S n => wrap 8 (m a) + 256 * load_bytes n m (a + 1)
  end.

Definition store_bytes (n : nat) (m : mem) (a x : Z) : mem :=
  fun k => if (a <=? k) && (k <? a + Z.of_nat n) then wrap 8 (Z.shiftr x (8 * (k - a))) else m k.

Lemma load_ext n m m' a : (forall k, a <= k < a + Z.of_nat n -> m k = m' k) -> load_bytes n m a = load_bytes n m' a.
Proof.
  revert a. induction n as [|n IH]; intros a H; [done |]. cbn [load_bytes].
  rewrite (H a) by lia. f_equal. f_equal. apply IH. intros k Hk. apply H. lia.
Qed.

(** The bytes of a number, put together again. *)
Lemma wrap_byte_split n y : 0 <= n -> wrap 8 y + 256 * wrap (8 * n) (Z.shiftr y 8) = wrap (8 * (n + 1)) y.
Proof.
  intros Hn. rewrite Z.shiftr_div_pow2 by lia. unfold wrap.
  replace (2 ^ (8 * (n + 1))) with (2 ^ 8 * 2 ^ (8 * n)) by (rewrite <- Z.pow_add_r by lia; f_equal; lia).
  rewrite Z.rem_mul_r by (apply Z.pow_nonzero || apply Z.pow_pos_nonneg; lia). done.
Qed.

Lemma load_inside n N m a x j : 0 <= j -> j + Z.of_nat n <= Z.of_nat N ->
  load_bytes n (store_bytes N m a x) (a + j) = wrap (8 * Z.of_nat n) (Z.shiftr x (8 * j)).
Proof.
  revert j. induction n as [|n IH]; intros j Hj Hn.
  { cbn. unfold wrap. cbn. by rewrite Z.mod_1_r. }
  cbn [load_bytes]. replace (a + j + 1) with (a + (j + 1)) by lia. rewrite IH by lia.
  unfold store_bytes at 1. rewrite (proj2 (Z.leb_le a (a + j))) by lia.
  rewrite (proj2 (Z.ltb_lt (a + j) (a + Z.of_nat N))) by lia. cbn [andb].
  replace (8 * (a + j - a)) with (8 * j) by lia.
  replace (8 * (j + 1)) with (8 * j + 8) by lia. rewrite <- Z.shiftr_shiftr by lia.
  rewrite (wrap_wrap 8) by lia. rewrite wrap_byte_split by lia. f_equal. lia.
Qed.

Lemma load_store_same n m a x : load_bytes n (store_bytes n m a x) a = wrap (8 * Z.of_nat n) x.
Proof.
  pose proof (load_inside n n m a x 0 (Z.le_refl 0) (Z.le_refl _)) as H. rewrite Z.add_0_r in H. rewrite H.
  by rewrite Z.mul_0_r, Z.shiftr_0_r.
Qed.

Lemma load_store_other n N m a b x : b + Z.of_nat n <= a \/ a + Z.of_nat N <= b ->
  load_bytes n (store_bytes N m a x) b = load_bytes n m b.
Proof.
  intros H. apply load_ext. intros k Hk. unfold store_bytes. zcases; done || lia.
Qed.

Lemma load_bound n m a : 0 <= load_bytes n m a < 2 ^ (8 * Z.of_nat n).
Proof.
  revert a. induction n as [|n IH]; intros a; [cbn; lia |]. cbn [load_bytes].
  pose proof (wrap_bound 8 (m a) ltac:(lia)). specialize (IH (a + 1)).
  replace (2 ^ (8 * Z.of_nat (S n))) with (256 * 2 ^ (8 * Z.of_nat n)); [lia |].
  replace (8 * Z.of_nat (S n)) with (8 + 8 * Z.of_nat n) by lia. rewrite Z.pow_add_r by lia. done.
Qed.
