(* ===== verification/Maths.v ===== *)
(** * Miscellaneous mathematical functions ([src/src/maths.h])

    One definition per inline function, on machine integers. [highest_set_bit]
    is compiled in one of two ways, with the compiler's [__builtin_clzl] or with
    a portable loop; both are modelled and shown equal. *)

From S2P Require Import Prelude.

Local Open Scope Z_scope.

(** ** Definitions *)

Definition max (a b : Z) : Z := if a <? b then b else a.

(** [while ((x & 1UL) != 1) { x >>= 1; i++; }]; a u64 has at most 64 steps. *)
Definition lowest_set_bit_body (s : Z * Z) : res (Z * Z + Z) :=
  let '(x, i) := s in
  if negb (Z.land x 1 =? 1) then Ok (inl (Z.shiftr x 1, u32 (i + 1))) else Ok (inr i).

Definition lowest_set_bit (x : Z) : res Z :=
  PRECONDITION (negb (x =? 0)) ;; loop 65 lowest_set_bit_body (x, 0).

(** The compiler's count of leading zeros of a nonzero u64. *)
Definition builtin_clzl (x : Z) : Z := 63 - Z.log2 x.

Definition highest_set_bit (x : Z) : res Z :=
  PRECONDITION (negb (x =? 0)) ;; Ok (63 - builtin_clzl x).

(** The [#else] branch: the tables [b] and [s], walked from index 5 down to 0. *)
Definition hsb_b : list Z := [0x2; 0xC; 0xF0; 0xFF00; 0xFFFF0000; 0xFFFFFFFF00000000].
Definition hsb_s : list Z := [1; 2; 4; 8; 16; 32].

Definition hsb_step (st : Z * Z) (bs : Z * Z) : Z * Z :=
  let '(x, r) := st in
  let '(b, s) := bs in
  if negb (Z.land x b =? 0) then (Z.shiftr x s, Z.lor r s) else (x, r).

Definition highest_set_bit_portable (x : Z) : res Z :=
  PRECONDITION (negb (x =? 0)) ;;
  Ok (foldl hsb_step (x, 0) (rev (zip hsb_b hsb_s))).2.

(** [for (; x != 0; n++) x &= x - 1;] *)
Definition bit_count_body (s : Z * Z) : res (Z * Z + Z) :=
  let '(x, n) := s in
  if negb (x =? 0) then Ok (inl (Z.land x (u32 (x - 1)), u32 (n + 1))) else Ok (inr n).

Definition bit_count (x : Z) : res Z := loop 33 bit_count_body (x, 0).

Definition align_to (n align : Z) : Z :=
  let x := u32 (align - 1) in
  Z.land (u32 (n + x)) (bnot 32 x).

(** ** Lemmas *)

(** The set bits of [x] below [w], in increasing order. *)
Definition set_bits (w : nat) (x : Z) : list Z :=
  filter (fun i => Z.testbit x i = true) (Z.of_nat <$> seq 0 w).

Lemma land_1_odd x : (Z.land x 1 =? 1) = Z.odd x.
Proof.
  change 1 with (Z.ones 1) at 1. rewrite Z.land_ones by lia. rewrite Zmod_odd.
  by destruct (Z.odd x).
Qed.

Lemma odd_testbit x : Z.odd x = Z.testbit x 0.
Proof. symmetry. apply Z.bit0_odd. Qed.

Lemma log2_u64 x : 0 < x < 2 ^ 64 -> 0 <= Z.log2 x < 64.
Proof. intros. split; [apply Z.log2_nonneg | apply Z.log2_lt_pow2; lia]. Qed.

Lemma lowest_set_bit_correct x : 0 < x < 2 ^ 64 ->
  exists i, lowest_set_bit x = Ok i /\ 0 <= i < 64 /\
    Z.testbit x i = true /\ (forall j, 0 <= j < i -> Z.testbit x j = false).
Proof.
  intros Hx. unfold lowest_set_bit.
  destruct (Z.eqb_spec x 0); [lia |]. cbn [negb PRECONDITION ASSERT mbind res_bind].
  destruct (loop_total
    (fun s => 0 <= s.2 < 64 /\ s.1 = Z.shiftr x s.2 /\ 0 < s.1
              /\ forall j, 0 <= j < s.2 -> Z.testbit x j = false)
    (fun s => Z.to_nat (64 - s.2))
    (fun i => 0 <= i < 64 /\ Z.testbit x i = true /\ forall j, 0 <= j < i -> Z.testbit x j = false)
    lowest_set_bit_body) with (fuel := 65%nat) (s := (x, 0)) as (i & E & H).
  - intros [y i] (Hi & Hy & Hpos & Hlow); cbn [fst snd] in *. unfold lowest_set_bit_body.
    rewrite land_1_odd, odd_testbit.
    assert (Hb : Z.testbit y 0 = Z.testbit x i) by (subst y; rewrite Z.shiftr_spec; f_equal; lia).
    rewrite Hb. destruct (Z.testbit x i) eqn:Hxi; cbn [negb].
    { eexists. split; [done |]. cbn. eauto. }
    assert (Hsh : Z.shiftr y 1 = Z.shiftr x (i + 1)) by (subst y; rewrite Z.shiftr_shiftr; [done | lia]).
    assert (0 < Z.shiftr y 1).
    { rewrite Z.shiftr_div_pow2 by lia. change (2 ^ 1) with 2.
      assert (Z.odd y = false) by (rewrite odd_testbit; congruence).
      assert (y <> 1) by (intros ->; done).
      apply Z.div_str_pos. lia. }
    assert (i + 1 < 64).
    { destruct (Z.lt_ge_cases (i + 1) 64); [done |]. exfalso.
      rewrite Hsh, Z.shiftr_div_pow2, Z.div_small in H; [lia | | lia].
      split; [lia |]. pose proof (Z.pow_le_mono_r 2 64 (i + 1)). lia. }
    rewrite (wrap_small 32) by lia.
    eexists. split; [done |]. cbn. split; [| lia].
    split; [lia |]. split; [done |]. split; [done |].
    intros j Hj. destruct (decide (j = i)); [by subst | apply Hlow; lia].
  - cbn. rewrite Z.shiftr_0_r. split; [lia |]. split; [done |]. split; [lia |]. intros; lia.
  - cbn. lia.
  - exists i. tauto.
Qed.

Lemma highest_set_bit_correct x : 0 < x < 2 ^ 64 -> highest_set_bit x = Ok (Z.log2 x).
Proof.
  intros Hx. unfold highest_set_bit, builtin_clzl.
  destruct (Z.eqb_spec x 0); [lia |]. cbn. f_equal. lia.
Qed.

Lemma log2_testbit x : 0 < x -> Z.testbit x (Z.log2 x) = true.
Proof. apply Z.bit_log2. Qed.

(** One step of the portable search: if [x < 2^(2s)] and [b] masks the bits
    [s..2s-1], the step leaves a number below [2^s] and keeps [r + log2 x]. *)
Lemma land_hi_mask x s : 0 < s -> 0 < x < 2 ^ (2 * s) ->
  Z.land x (Z.shiftl (Z.ones s) s) = 0 <-> x < 2 ^ s.
Proof.
  intros Hs Hx. split; intros H.
  - destruct (Z.lt_ge_cases x (2 ^ s)) as [|Hge]; [done | exfalso].
    assert (Hl : s <= Z.log2 x) by (apply Z.log2_le_pow2; lia).
    assert (Hl2 : Z.log2 x < 2 * s) by (apply Z.log2_lt_pow2; lia).
    apply (f_equal (fun z => Z.testbit z (Z.log2 x))) in H.
    rewrite Z.land_spec, Z.shiftl_spec, Z.ones_spec_low, log2_testbit, Z.bits_0 in H by lia. done.
  - apply testbit_ext. intros i Hi. rewrite Z.land_spec, Z.shiftl_spec, Z.bits_0 by lia.
    destruct (Z.lt_ge_cases i s).
    + rewrite (Z.testbit_neg_r _ (i - s)) by lia. apply andb_false_r.
    + rewrite (is_u_testbit_high s x i); [done | | lia]. split; lia.
Qed.

Lemma hsb_step_spec x r b s m : 0 < s -> b = Z.shiftl (Z.ones s) s ->
  0 < x < 2 ^ (2 * s) -> 0 <= r -> (forall i, 0 <= i < m -> Z.testbit r i = false) ->
  s = 2 ^ (m - 1) -> 0 < m ->
  let '(x', r') := hsb_step (x, r) (b, s) in
  0 < x' < 2 ^ s /\ 0 <= r' /\ (forall i, 0 <= i < m - 1 -> Z.testbit r' i = false) /\
  r' + Z.log2 x' = r + Z.log2 x.
Proof.
  intros Hs -> Hx Hr Hrb Hm Hm0. unfold hsb_step.
  destruct (Z.eqb_spec (Z.land x (Z.shiftl (Z.ones s) s)) 0) as [E|E]; cbn [negb];
    rewrite (land_hi_mask x s Hs Hx) in E.
  - split; [lia |]. split; [lia |]. split; [| lia]. intros; apply Hrb; lia.
  - assert (Hl : s <= Z.log2 x) by (apply Z.log2_le_pow2; lia).
    assert (Hor : Z.lor r s = r + s).
    { symmetry. apply Z.add_nocarry_lor, testbit_ext. intros i Hi.
      rewrite Z.land_spec, Z.bits_0, Hm, Z.pow2_bits_eqb by lia.
      destruct (Z.eqb_spec (m - 1) i); [| apply andb_false_r].
      rewrite Hrb by lia. done. }
    rewrite Z.log2_shiftr, Hor by lia.
    split; [split |].
    + rewrite Z.shiftr_div_pow2 by lia. apply Z.div_str_pos. pose proof (pow2_pos s). lia.
    + rewrite Z.shiftr_div_pow2 by lia. apply Z.div_lt_upper_bound; [pose proof (pow2_pos s); lia |].
      rewrite <- Z.pow_add_r by lia. replace (s + s) with (2 * s) by lia. lia.
    + split; [lia |]. split; [| lia].
      intros i Hi. rewrite <- Hor, Z.lor_spec, Hrb, Hm, Z.pow2_bits_false by lia. done.
Qed.

(** Popcount of a positive, used to bound and count the steps of [bit_count]. *)
Fixpoint pos_ones (p : positive) : nat :=
  match p with xH => 1 | xO p => pos_ones p | xI p => S (pos_ones p) end.
Definition ones_of (x : Z) : nat := match x with Zpos p => pos_ones p | _ => 0%nat end.

Lemma ones_of_double x : 0 <= x -> ones_of (2 * x) = ones_of x.
Proof. by destruct x. Qed.
Lemma ones_of_succ_double x : 0 <= x -> ones_of (2 * x + 1) = S (ones_of x).
Proof. by destruct x. Qed.

Lemma land_pred_odd m : 0 <= m -> Z.land (2 * m + 1) (2 * m + 1 - 1) = 2 * m.
Proof.
  intros Hm. replace (2 * m + 1 - 1) with (2 * m) by lia. apply testbit_ext. intros i Hi.
  rewrite Z.land_spec. destruct (decide (i = 0)) as [->|].
  - rewrite Z.testbit_even_0. apply andb_false_r.
  - replace i with (Z.succ (i - 1)) by lia.
    rewrite Z.testbit_odd_succ, Z.testbit_even_succ by lia. apply andb_diag.
Qed.

Lemma land_pred_even m : 0 < m -> Z.land (2 * m) (2 * m - 1) = 2 * Z.land m (m - 1).
Proof.
  intros Hm. replace (2 * m - 1) with (2 * (m - 1) + 1) by lia. apply testbit_ext. intros i Hi.
  rewrite Z.land_spec. destruct (decide (i = 0)) as [->|].
  - by rewrite !Z.testbit_even_0.
  - replace i with (Z.succ (i - 1)) by lia.
    rewrite Z.testbit_odd_succ, !Z.testbit_even_succ, Z.land_spec by lia. done.
Qed.

Lemma ones_of_clear_lowest x : 0 < x -> S (ones_of (Z.land x (x - 1))) = ones_of x.
Proof.
  destruct x as [|p|]; [done | | done]. intros _.
  induction p as [p IH | p IH |]; [| | done].
  - change (Zpos p~1) with (2 * Zpos p + 1).
    rewrite land_pred_odd, ones_of_double, ones_of_succ_double by lia. done.
  - change (Zpos p~0) with (2 * Zpos p).
    rewrite land_pred_even, !ones_of_double by (try apply Z.land_nonneg; lia). done.
Qed.

Lemma testbit_half x i : 0 <= i -> Z.testbit (x / 2) i = Z.testbit x (Z.succ i).
Proof.
  intros Hi. change 2 with (2 ^ 1). rewrite <- Z.shiftr_div_pow2, Z.shiftr_spec by lia. done.
Qed.

Lemma set_bits_cons w x : 0 <= x ->
  set_bits (S w) x = (if Z.odd x then [0] else []) ++ (Z.succ <$> set_bits w (x / 2)).
Proof.
  intros Hx. unfold set_bits. cbn [seq fmap list_fmap].
  rewrite filter_cons, odd_testbit. change (Z.of_nat 0) with 0.
  assert (E : filter (fun i => Z.testbit x i = true) (Z.of_nat <$> seq 1 w)
    = Z.succ <$> filter (fun i => Z.testbit (x / 2) i = true) (Z.of_nat <$> seq 0 w)).
  { rewrite <- fmap_S_seq. induction (seq 0 w) as [|n l IH]; [done |].
    rewrite !fmap_cons, !filter_cons, testbit_half, <- Nat2Z.inj_succ, IH by lia.
    destruct (decide (Z.testbit x (Z.of_nat (S n)) = true)); [| done].
    rewrite fmap_cons. f_equal. lia. }
  change (list_fmap nat Z Z.of_nat (seq 1 w)) with (Z.of_nat <$> seq 1 w).
  rewrite E. destruct (Z.testbit x 0) eqn:B; destruct (decide _); done.
Qed.

Lemma ones_of_set_bits w x : 0 <= x < 2 ^ Z.of_nat w -> ones_of x = length (set_bits w x).
Proof.
  revert x. induction w as [|w IH]; intros x Hx.
  { cbn in Hx. by replace x with 0 by lia. }
  rewrite set_bits_cons, length_app, length_fmap by lia.
  rewrite Nat2Z.inj_succ, Z.pow_succ_r in Hx by lia.
  rewrite <- IH by (split; [apply Z.div_pos; lia | apply Z.div_lt_upper_bound; lia]).
  pose proof (Z.div_mod x 2 ltac:(lia)) as D. rewrite Zmod_odd in D.
  assert (0 <= x / 2) by (apply Z.div_pos; lia).
  rewrite D at 1. destruct (Z.odd x); cbn [length].
  - rewrite ones_of_succ_double by done. lia.
  - rewrite Z.add_0_r, ones_of_double by done. lia.
Qed.

Lemma elem_of_set_bits w x i : i ∈ set_bits w x <-> 0 <= i < Z.of_nat w /\ Z.testbit x i = true.
Proof.
  unfold set_bits. rewrite list_elem_of_filter, list_elem_of_fmap. split.
  - intros (Hb & n & -> & Hn%elem_of_seq). split; [lia | done].
  - intros (Hi & Hb). split; [done |]. exists (Z.to_nat i).
    rewrite elem_of_seq. split; lia.
Qed.

Lemma highest_set_bit_portable_correct x :
  0 < x < 2 ^ 64 -> highest_set_bit_portable x = Ok (Z.log2 x).
Proof.
  intros Hx. unfold highest_set_bit_portable. destruct (Z.eqb_spec x 0); [lia |].
  cbn [negb PRECONDITION ASSERT mbind res_bind]. f_equal.
  change (rev (zip hsb_b hsb_s)) with
    [(0xFFFFFFFF00000000, 32); (0xFFFF0000, 16); (0xFF00, 8); (0xF0, 4); (0xC, 2); (0x2, 1)].
  cbn [foldl].
  assert (Step : forall y r b s m, 0 < s -> b = Z.shiftl (Z.ones s) s ->
    (0 < y < 2 ^ (2 * s) /\ 0 <= r /\ (forall i, 0 <= i < m -> Z.testbit r i = false) /\
     r + Z.log2 y = Z.log2 x) -> s = 2 ^ (m - 1) -> 0 < m ->
    let st := hsb_step (y, r) (b, s) in
    0 < st.1 < 2 ^ s /\ 0 <= st.2 /\ (forall i, 0 <= i < m - 1 -> Z.testbit st.2 i = false) /\
    st.2 + Z.log2 st.1 = Z.log2 x).
  { intros y r b s m Hs Hb (Hy & Hr & Hrb & Hl) Hm Hm0.
    pose proof (hsb_step_spec y r b s m Hs Hb Hy Hr Hrb Hm Hm0) as K.
    destruct (hsb_step (y, r) (b, s)) as [y' r']. cbn. intuition lia. }
  assert (I : 0 < x < 2 ^ (2 * 32) /\ 0 <= 0 /\ (forall i, 0 <= i < 6 -> Z.testbit 0 i = false)
    /\ 0 + Z.log2 x = Z.log2 x).
  { split; [lia |]. split; [done |]. split; [intros; apply Z.bits_0 | lia]. }
  apply (Step _ _ _ 32 6 ltac:(lia) eq_refl) in I; [| reflexivity | lia].
  destruct (hsb_step (x, 0) _) as [x1 r1]; cbn [fst snd] in I.
  apply (Step _ _ 0xFFFF0000 16 5 ltac:(lia) eq_refl) in I; [| reflexivity | lia].
  destruct (hsb_step (x1, r1) _) as [x2 r2]; cbn [fst snd] in I.
  apply (Step _ _ 0xFF00 8 4 ltac:(lia) eq_refl) in I; [| reflexivity | lia].
  destruct (hsb_step (x2, r2) _) as [x3 r3]; cbn [fst snd] in I.
  apply (Step _ _ 0xF0 4 3 ltac:(lia) eq_refl) in I; [| reflexivity | lia].
  destruct (hsb_step (x3, r3) _) as [x4 r4]; cbn [fst snd] in I.
  apply (Step _ _ 0xC 2 2 ltac:(lia) eq_refl) in I; [| reflexivity | lia].
  destruct (hsb_step (x4, r4) _) as [x5 r5]; cbn [fst snd] in I.
  apply (Step _ _ 0x2 1 1 ltac:(lia) eq_refl) in I; [| reflexivity | lia].
  destruct (hsb_step (x5, r5) _) as [x6 r6]; cbn [fst snd] in *.
  destruct I as (H6 & _ & _ & E). assert (x6 = 1) as -> by lia. cbn in E. lia.
Qed.

Lemma bit_count_correct x : 0 <= x < 2 ^ 32 -> bit_count x = Ok (Z.of_nat (ones_of x)).
Proof.
  intros Hx. unfold bit_count.
  assert (Hlen : forall y, 0 <= y < 2 ^ 32 -> (ones_of y <= 32)%nat).
  { intros y Hy. rewrite (ones_of_set_bits 32 y) by (change (Z.of_nat 32) with 32; lia).
    unfold set_bits. etransitivity; [apply length_filter |]. by rewrite length_fmap, length_seq. }
  destruct (loop_total
    (fun s => 0 <= s.1 < 2 ^ 32 /\ 0 <= s.2 /\ s.2 + Z.of_nat (ones_of s.1) = Z.of_nat (ones_of x))
    (fun s => ones_of s.1) (fun n => n = Z.of_nat (ones_of x)) bit_count_body)
    with (fuel := 33%nat) (s := (x, 0)) as (n & E & ->).
  - intros [y n] (Hy & Hn & He); cbn [fst snd] in *. unfold bit_count_body.
    destruct (Z.eqb_spec y 0) as [->|Hy0]; cbn [negb].
    { exists (inr n). split; [done |]. cbn in He. lia. }
    rewrite (wrap_small 32 (y - 1)) by lia.
    pose proof (ones_of_clear_lowest y ltac:(lia)) as Hc. pose proof (Hlen x Hx).
    rewrite (wrap_small 32 (n + 1)) by lia.
    exists (inl (Z.land y (y - 1), n + 1)). split; [done |]. cbn.
    assert (0 <= Z.land y (y - 1) < 2 ^ 32).
    { apply (testbit_is_u 32); [lia | | apply Z.land_nonneg; lia].
      intros i Hi. rewrite Z.land_spec, (is_u_testbit_high 32 y i); [done | split; lia | done]. }
    lia.
  - cbn. lia.
  - cbn. pose proof (Hlen x Hx). lia.
  - done.
Qed.

(** Clearing the low [k] bits of a w-bit word rounds it down to a multiple of 2^k. *)
Lemma land_bnot_mask w y k : 0 <= k < w -> is_u w y ->
  Z.land y (bnot w (2 ^ k - 1)) = y / 2 ^ k * 2 ^ k.
Proof.
  intros Hk Hy. apply testbit_ext. intros i Hi.
  rewrite <- Z.shiftr_div_pow2, <- Z.shiftl_mul_pow2 by lia.
  unfold bnot. rewrite Z.land_spec, wrap_testbit, Z.lnot_spec, Z.shiftl_spec by lia.
  rewrite Z.sub_1_r, <- Z.ones_equiv.
  destruct (Z.lt_ge_cases i k).
  - rewrite Z.ones_spec_low, (Z.testbit_neg_r _ (i - k)) by lia. rewrite !andb_false_r. done.
  - rewrite Z.ones_spec_high, Z.shiftr_spec by lia. replace (i - k + k) with i by lia.
    destruct (Z.ltb_spec i w); [by rewrite andb_true_r |].
    rewrite (is_u_testbit_high w y i); [done | done | lia].
Qed.

Lemma align_to_pow2 n k : 0 <= k < 32 -> 0 <= n -> n + 2 ^ k - 1 < 2 ^ 32 ->
  align_to n (2 ^ k) = (n + 2 ^ k - 1) / 2 ^ k * 2 ^ k.
Proof.
  intros Hk Hn Hb. unfold align_to. pose proof (pow2_pos k).
  rewrite (wrap_small 32 (2 ^ k - 1)), wrap_small by lia.
  replace (n + (2 ^ k - 1)) with (n + 2 ^ k - 1) by lia.
  apply land_bnot_mask; [done | split; lia].
Qed.

(** The least multiple of the alignment that is not below [n]. *)
Lemma align_to_least (n k : Z) (Hk : 0 <= k < 32) (Hn : 0 <= n) (Hb : n + 2 ^ k - 1 < 2 ^ 32) :
  (2 ^ k | align_to n (2 ^ k)) /\ n <= align_to n (2 ^ k) < n + 2 ^ k /\
  (forall m, (2 ^ k | m) -> n <= m -> align_to n (2 ^ k) <= m).
Proof.
  rewrite align_to_pow2 by done. pose proof (pow2_pos k ltac:(lia)) as P.
  pose proof (Z.div_mod (n + 2 ^ k - 1) (2 ^ k) ltac:(lia)) as D.
  pose proof (Z.mod_pos_bound (n + 2 ^ k - 1) (2 ^ k) P) as M.
  split; [by apply Z.divide_factor_r |]. split; [lia |].
  intros m [q ->] Hm. apply Z.mul_le_mono_nonneg_r; [lia |].
  apply Z.lt_succ_r, Z.div_lt_upper_bound; [done |]. lia.
Qed.

(** ** Properties *)

(** the bit scans agree with the set of bits of the word. On every nonzero
    u64 [lowest_set_bit] terminates within the width and returns the least set
    bit, and both compilations of [highest_set_bit] (the [clzl] builtin and the
    portable table search) return the same bit, the greatest set one. *)
Theorem set_bit_scans (x : Z) (Hx : 0 < x < 2 ^ 64) :
  exists lo hi,
    lowest_set_bit x = Ok lo /\ highest_set_bit x = Ok hi /\ highest_set_bit_portable x = Ok hi /\
    lo ∈ set_bits 64 x /\ hi ∈ set_bits 64 x /\
    (forall i, i ∈ set_bits 64 x -> lo <= i <= hi).
Proof.
  destruct (lowest_set_bit_correct x Hx) as (lo & E & Hlo & Hb & Hlow).
  exists lo, (Z.log2 x). rewrite highest_set_bit_correct, highest_set_bit_portable_correct by done.
  pose proof (log2_u64 x Hx). rewrite !elem_of_set_bits, log2_testbit by lia.
  repeat (split; [done || lia |]). intros i (Hi & Hbi)%elem_of_set_bits. split.
  - destruct (Z.lt_ge_cases i lo); [| done]. rewrite Hlow in Hbi; [done | lia].
  - destruct (Z.lt_ge_cases (Z.log2 x) i) as [Hgt|]; [| done].
    by rewrite (Z.bits_above_log2 x i ltac:(lia) Hgt) in Hbi.
Qed.

Lemma set_bit_scans_witness : 0 < 0x8000000000000010 < 2 ^ 64 /\
  exists lo hi, lowest_set_bit 0x8000000000000010 = Ok lo /\
    highest_set_bit 0x8000000000000010 = Ok hi /\
    highest_set_bit_portable 0x8000000000000010 = Ok hi /\
    lo ∈ set_bits 64 0x8000000000000010 /\ hi ∈ set_bits 64 0x8000000000000010 /\
    (forall i, i ∈ set_bits 64 0x8000000000000010 -> lo <= i <= hi).
Proof. split; [lia |]. apply (set_bit_scans 0x8000000000000010). lia. Defined.

(** [bit_count] terminates on every u32 and returns the number of its set
    bits (the trick of clearing the lowest set bit loses exactly one bit a turn). *)
Theorem bit_count_is_popcount (x : Z) (Hx : 0 <= x < 2 ^ 32) :
  bit_count x = Ok (Z.of_nat (length (set_bits 32 x))).
Proof. rewrite bit_count_correct, (ones_of_set_bits 32) by done. done. Qed.

Lemma bit_count_is_popcount_witness : 0 <= 0xF0F00001 < 2 ^ 32 /\
  bit_count 0xF0F00001 = Ok (Z.of_nat (length (set_bits 32 0xF0F00001))).
Proof. split; [lia |]. apply (bit_count_is_popcount 0xF0F00001). lia. Defined.

(** [align_to] rounds up: for a power-of-two alignment, when the rounded
    value fits in 32 bits, the result is the least multiple of the alignment
    that is at least [n]. *)
Theorem align_to_least_multiple (n k : Z) (Hk : 0 <= k < 32) (Hn : 0 <= n)
    (Hb : n + 2 ^ k - 1 < 2 ^ 32) :
  (2 ^ k | align_to n (2 ^ k)) /\ n <= align_to n (2 ^ k) < n + 2 ^ k /\
  (forall m, (2 ^ k | m) -> n <= m -> align_to n (2 ^ k) <= m).
Proof.
  by apply align_to_least.
Qed.

Lemma align_to_least_multiple_witness :
  (0 <= 4 < 32 /\ 0 <= 37 /\ 37 + 2 ^ 4 - 1 < 2 ^ 32) /\
  (2 ^ 4 | align_to 37 (2 ^ 4)) /\ 37 <= align_to 37 (2 ^ 4) < 37 + 2 ^ 4 /\
  (forall m, (2 ^ 4 | m) -> 37 <= m -> align_to 37 (2 ^ 4) <= m).
Proof. split; [lia |]. apply (align_to_least_multiple 37 4); lia. Defined.
