(* ===== verification/BitSet.v ===== *)
(** * Bit sets ([src/src/bit_set.h], [src/src/bit_set.c])

    The words behind the [bits] pointer are a list of u64; [is_inline] records
    whether the pointer designates [inline_bits] or a block from [malloc]. The
    contents [bit_set_init] leaves in the words are whatever the memory held, an
    argument of the model. The abstract specification is a predicate on bit
    indices: [bs_mem]. *)

From S2P Require Import Prelude Maths.

Local Open Scope Z_scope.

(** ** Definitions *)

Record BitSet := mkBitSet {
  bits : list Z;
  is_inline : bool;
  size_in_bits : Z
}.

Definition with_bits (b : BitSet) (l : list Z) : BitSet :=
  mkBitSet l (is_inline b) (size_in_bits b).

(** The macro [SIZE_IN_U64S]: u32 arithmetic, so it wraps for huge sizes. *)
Definition SIZE_IN_U64S (b : BitSet) : Z := u32 (size_in_bits b + 63) / 64.

(** [garbage] is the previous contents of the memory the words are put in. *)
Definition bit_set_init (garbage : list Z) (size : Z) : BitSet :=
  let b := mkBitSet [] true size in
  if size <=? 64 then mkBitSet (take 1 garbage) true size
  else mkBitSet (take (Z.to_nat (SIZE_IN_U64S b)) garbage) false size.

(** [bit_set_free] only releases a block that is not inline. *)
Definition bit_set_free (b : BitSet) : bool := negb (is_inline b).

Definition bit_set_get_bit (b : BitSet) (index : Z) : res bool :=
  w ← ref (bits b) (index / 64);
  Ok (Z.testbit (Z.land (Z.shiftr w (index mod 64)) 1) 0).

Definition bit_set_set_bit (b : BitSet) (index : Z) (value : bool) : res BitSet :=
  w ← ref (bits b) (index / 64);
  m ← shl 64 1 (index mod 64);
  l ← store (bits b) (index / 64)
        (if value then Z.lor w m else Z.land w (bnot 64 m));
  Ok (with_bits b l).

(** [for (u32 i = 0; i < SIZE_IN_U64S(bit_set); i++) if (bits[i] != 0) return ...] *)
Fixpoint scan_up (l : list Z) (n : nat) (i : Z) : res (option (Z * Z)) :=
  match n with
  | O => Ok None
  | S n =>
      w ← ref l i;
      if negb (w =? 0) then Ok (Some (i, w)) else scan_up l n (i + 1)
  end.

(** [for (i32 i = SIZE_IN_U64S(bit_set) - 1; i >= 0; i--)]: [n] is [i + 1]. *)
Fixpoint scan_down (l : list Z) (n : nat) : res (option (Z * Z)) :=
  match n with
  | O => Ok None
  | S n =>
      w ← ref l (Z.of_nat n);
      if negb (w =? 0) then Ok (Some (Z.of_nat n, w)) else scan_down l n
  end.

Definition bit_set_lowest_set_bit (b : BitSet) : res Z :=
  o ← scan_up (bits b) (Z.to_nat (SIZE_IN_U64S b)) 0;
  match o with
  | Some (i, w) => k ← lowest_set_bit w; Ok (i32 (u32 (64 * i) + k))
  | None => Ok (-1)
  end.

Definition bit_set_highest_set_bit (b : BitSet) : res Z :=
  o ← scan_down (bits b) (Z.to_nat (SIZE_IN_U64S b));
  match o with
  | Some (i, w) => k ← highest_set_bit w; Ok (i32 (u32 (64 * i) + k))
  | None => Ok (-1)
  end.

Definition bit_set_is_empty (b : BitSet) : res bool :=
  o ← scan_up (bits b) (Z.to_nat (SIZE_IN_U64S b)) 0;
  Ok (match o with Some _ => false | None => true end).

(** One pass of the loop of [bit_set_set_all] at index [i]. *)
Definition set_all_word (b : BitSet) (i : Z) : res Z :=
  if i =? SIZE_IN_U64S b - 1 then
    let top_bits := size_in_bits b mod 64 in
    if negb (top_bits =? 0) then m ← shl 64 1 top_bits; Ok (u64 (m - 1))
    else Ok 0xFFFFFFFFFFFFFFFF
  else Ok 0xFFFFFFFFFFFFFFFF.

Definition bit_set_set_all (b : BitSet) : res BitSet :=
  l ← foldM (fun l i => w ← set_all_word b (Z.of_nat i); store l (Z.of_nat i) w)
        (bits b) (seq 0 (Z.to_nat (SIZE_IN_U64S b)));
  Ok (with_bits b l).

Definition bit_set_clear_all (b : BitSet) : res BitSet :=
  l ← foldM (fun l i => store l (Z.of_nat i) 0)
        (bits b) (seq 0 (Z.to_nat (SIZE_IN_U64S b)));
  Ok (with_bits b l).

(** ** Specification *)

(** The set a bit set stands for. *)
Definition bs_mem (b : BitSet) (i : Z) : Prop :=
  0 <= i /\ exists w, bits b !! Z.to_nat (i / 64) = Some w /\ Z.testbit w (i mod 64) = true.

(** Well-formed: as many u64 words as the size needs, small enough for i32
    results. *)
Record bs_wf (b : BitSet) : Prop := {
  bs_size : 0 < size_in_bits b < 2 ^ 31;
  bs_len : Z.of_nat (length (bits b)) = (size_in_bits b + 63) / 64;
  bs_words : Forall (is_u 64) (bits b)
}.

(** ** Lemmas *)

Lemma SIZE_IN_U64S_wf b : bs_wf b -> SIZE_IN_U64S b = Z.of_nat (length (bits b)).
Proof.
  intros [Hs Hl _]. unfold SIZE_IN_U64S. rewrite wrap_small by lia. done.
Qed.

Lemma bs_word b n w : bs_wf b -> bits b !! n = Some w -> is_u 64 w.
Proof. intros [_ _ Hw] H. by eapply Forall_lookup_1 in Hw. Qed.

Lemma bs_length b : bs_wf b -> Z.of_nat (length (bits b)) <= 2 ^ 25.
Proof.
  intros [Hs Hl _]. rewrite Hl. apply Z.lt_succ_r, Z.div_lt_upper_bound; lia.
Qed.

Lemma bs_index b i : bs_wf b -> 0 <= i < size_in_bits b ->
  0 <= i / 64 < Z.of_nat (length (bits b)) /\ 0 <= i mod 64 < 64.
Proof.
  intros [Hs Hl _] Hi. rewrite Hl. pose proof (Z.mod_pos_bound i 64 ltac:(lia)).
  split; [| done]. split; [apply Z.div_pos; lia |].
  pose proof (Z.div_mod i 64 ltac:(lia)). pose proof (Z.div_mod (size_in_bits b + 63) 64 ltac:(lia)).
  pose proof (Z.mod_pos_bound (size_in_bits b + 63) 64 ltac:(lia)). lia.
Qed.

Lemma get_bit_testbit b i w : ref (bits b) (i / 64) = Ok w ->
  bit_set_get_bit b i = Ok (Z.testbit w (i mod 64)).
Proof.
  intros E. unfold bit_set_get_bit. rewrite E. cbn [mbind res_bind].
  pose proof (Z.mod_pos_bound i 64 ltac:(lia)).
  rewrite Z.land_spec, Z.shiftr_spec, andb_true_r by lia. done.
Qed.

Lemma get_bit_mem b i : bs_wf b -> 0 <= i < size_in_bits b ->
  exists v, bit_set_get_bit b i = Ok v /\ (v = true <-> bs_mem b i).
Proof.
  intros Hwf Hi. destruct (bs_index b i Hwf Hi) as [Hd Hm].
  destruct (ref_lt (bits b) (i / 64) Hd) as [w E]. exists (Z.testbit w (i mod 64)).
  split; [by apply get_bit_testbit |]. apply ref_Ok in E as [_ E]. unfold bs_mem.
  split; [intros; split; [lia | eauto] | intros (_ & w' & E' & B); congruence].
Qed.

Lemma testbit_shl1 k i : 0 <= k < 64 -> 0 <= i < 64 ->
  Z.testbit (wrap 64 (Z.shiftl 1 k)) i = (i =? k).
Proof.
  intros Hk Hi. rewrite wrap_testbit, Z.shiftl_1_l, Z.pow2_bits_eqb by lia.
  rewrite (Z.eqb_sym k i). by destruct (Z.ltb_spec i 64); [| lia].
Qed.

Lemma updated_word w k v : is_u 64 w -> 0 <= k < 64 ->
  let m := wrap 64 (Z.shiftl 1 k) in
  let w' := if (v : bool) then Z.lor w m else Z.land w (bnot 64 m) in
  is_u 64 w' /\ forall i, 0 <= i < 64 -> Z.testbit w' i = if i =? k then v else Z.testbit w i.
Proof.
  intros Hw Hk m w'. assert (Hm : is_u 64 m) by (apply wrap_is_u; lia). split.
  - destruct v; subst w'; (apply testbit_is_u; [lia | |]).
    + intros i Hi. rewrite Z.lor_spec, !(is_u_testbit_high 64) by done. done.
    + apply Z.lor_nonneg; destruct Hw, Hm; lia.
    + intros i Hi. rewrite Z.land_spec, (is_u_testbit_high 64 w) by done. done.
    + apply Z.land_nonneg; left; destruct Hw; lia.
  - intros i Hi. destruct v; subst w' m.
    + rewrite Z.lor_spec, testbit_shl1 by lia. destruct (i =? k); [apply orb_true_r | apply orb_false_r].
    + unfold bnot. rewrite Z.land_spec, (wrap_testbit 64 (Z.lnot _)), Z.lnot_spec, testbit_shl1 by lia.
      destruct (Z.ltb_spec i 64); [| lia]. destruct (i =? k); [apply andb_false_r | apply andb_true_r].
Qed.

Lemma set_bit_spec b i v : bs_wf b -> 0 <= i < size_in_bits b ->
  exists b', bit_set_set_bit b i v = Ok b' /\ bs_wf b' /\ size_in_bits b' = size_in_bits b /\
    forall j, 0 <= j -> bs_mem b' j <-> (if j =? i then v = true else bs_mem b j).
Proof.
  intros Hwf Hi. destruct (bs_index b i Hwf Hi) as [Hd Hm].
  destruct (ref_lt (bits b) (i / 64) Hd) as [w E].
  unfold bit_set_set_bit, shl. rewrite E. cbn [mbind res_bind].
  apply ref_Ok in E as [_ E]. pose proof (bs_word b _ w Hwf E) as Hw.
  destruct (updated_word w (i mod 64) v Hw Hm) as [Hw' Hbits].
  destruct (Z.leb_spec 0 (i mod 64)), (Z.ltb_spec (i mod 64) 64); try lia. cbn [andb].
  cbn [mbind res_bind]. rewrite store_Ok by done. cbn [mbind res_bind].
  set (w' := if v then _ else _) in *. eexists. split; [reflexivity |]. split.
  { destruct Hwf as [Hs Hl Hws]. constructor; cbn; [done | by rewrite length_insert |].
    by apply Forall_insert. }
  split; [done |]. intros j Hj. unfold bs_mem. cbn.
  destruct (decide (j / 64 = i / 64)) as [He|Hne].
  - rewrite He, list_lookup_insert_eq by lia. rewrite E.
    pose proof (Z.mod_pos_bound j 64 ltac:(lia)) as Hmj.
    assert (Hji : (j mod 64 =? i mod 64) = (j =? i)).
    { pose proof (Z.div_mod j 64 ltac:(lia)). pose proof (Z.div_mod i 64 ltac:(lia)).
      destruct (Z.eqb_spec (j mod 64) (i mod 64)), (Z.eqb_spec j i); try done; [lia | by subst]. }
    specialize (Hbits _ Hmj). rewrite Hji in Hbits. split.
    + intros (_ & ? & [= <-] & B). rewrite Hbits in B. destruct (j =? i); [done |]. eauto.
    + intros B. split; [done |]. exists w'. split; [done |]. rewrite Hbits.
      destruct (j =? i); [done |]. destruct B as (_ & ? & [= <-] & B). done.
  - rewrite list_lookup_insert_ne by (pose proof (Z.div_pos j 64); lia).
    destruct (Z.eqb_spec j i); [by subst |]. done.
Qed.

(** The two scans return the first, resp. last, nonzero word. *)
Lemma scan_up_spec l n i : 0 <= i -> i + Z.of_nat n = Z.of_nat (length l) ->
  (scan_up l n i = Ok None /\ forall k w, i <= k -> l !! Z.to_nat k = Some w -> w = 0) \/
  (exists k w, scan_up l n i = Ok (Some (k, w)) /\ i <= k < Z.of_nat (length l) /\
     l !! Z.to_nat k = Some w /\ w <> 0 /\
     forall j w', i <= j < k -> l !! Z.to_nat j = Some w' -> w' = 0).
Proof.
  revert i. induction n as [|n IH]; intros i Hi Hn.
  - left. split; [done |]. intros k w Hk E%lookup_lt_Some. lia.
  - cbn [scan_up]. destruct (ref_lt l i ltac:(lia)) as [w E]. rewrite E. cbn [mbind res_bind].
    apply ref_Ok in E as [_ E]. destruct (Z.eqb_spec w 0) as [->|Hw]; cbn [negb].
    + destruct (IH (i + 1) ltac:(lia) ltac:(lia)) as [[Hs Hz] | (k & w & Hs & Hk & Hl & Hw & Hz)].
      * left. split; [done |]. intros k w Hk Hl.
        destruct (decide (k = i)); [subst; congruence | apply (Hz k); [lia | done]].
      * right. exists k, w. repeat (split; [done || lia |]). intros j w' Hj Hl'.
        destruct (decide (j = i)); [subst; congruence | apply (Hz j); [lia | done]].
    + right. exists i, w. repeat (split; [done || lia |]). intros; lia.
Qed.

Lemma scan_down_spec l n : (n <= length l)%nat ->
  (scan_down l n = Ok None /\ forall k w, 0 <= k < Z.of_nat n -> l !! Z.to_nat k = Some w -> w = 0) \/
  (exists k w, scan_down l n = Ok (Some (k, w)) /\ 0 <= k < Z.of_nat n /\
     l !! Z.to_nat k = Some w /\ w <> 0 /\
     forall j w', k < j < Z.of_nat n -> l !! Z.to_nat j = Some w' -> w' = 0).
Proof.
  induction n as [|n IH]; intros Hn; [left; split; [done | intros; lia] |].
  cbn [scan_down]. destruct (ref_lt l (Z.of_nat n) ltac:(lia)) as [w E]. rewrite E.
  cbn [mbind res_bind]. apply ref_Ok in E as [_ E].
  destruct (Z.eqb_spec w 0) as [->|Hw]; cbn [negb].
  - destruct (IH ltac:(lia)) as [[Hs Hz] | (k & w & Hs & Hk & Hl & Hw & Hz)].
    + left. split; [done |]. intros k w Hk Hl.
      destruct (decide (k = Z.of_nat n)); [subst; congruence | apply (Hz k); [lia | done]].
    + right. exists k, w. repeat (split; [done || lia |]). intros j w' Hj Hl'.
      destruct (decide (j = Z.of_nat n)); [subst; congruence | apply (Hz j); [lia | done]].
  - right. exists (Z.of_nat n), w. repeat (split; [done || lia |]). intros; lia.
Qed.

Lemma bs_mem_split b i : bs_wf b -> bs_mem b i ->
  exists k w j, i = 64 * k + j /\ 0 <= k < Z.of_nat (length (bits b)) /\
    bits b !! Z.to_nat k = Some w /\ 0 <= j < 64 /\ Z.testbit w j = true /\ is_u 64 w.
Proof.
  intros Hwf (Hi & w & E & B). exists (i / 64), w, (i mod 64).
  pose proof (Z.div_mod i 64 ltac:(lia)). pose proof (Z.mod_pos_bound i 64 ltac:(lia)).
  pose proof (Z.div_pos i 64 ltac:(lia) ltac:(lia)). pose proof (lookup_lt_Some _ _ _ E).
  repeat (split; [done || lia |]). eapply bs_word; eauto.
Qed.

Lemma bs_mem_intro b k w j : 0 <= k -> 0 <= j < 64 ->
  bits b !! Z.to_nat k = Some w -> Z.testbit w j = true -> bs_mem b (64 * k + j).
Proof.
  intros Hk Hj E B. split; [lia |]. exists w.
  rewrite (Z.mul_comm 64 k), Z.div_add_l, Z.div_small, Z.add_0_r by lia.
  rewrite Z.add_comm, Z.mod_add, Z.mod_small by lia. done.
Qed.

Lemma i32_index k j n : 0 <= k < Z.of_nat n -> Z.of_nat n <= 2 ^ 25 -> 0 <= j < 64 ->
  i32 (u32 (64 * k) + j) = 64 * k + j.
Proof. intros. rewrite (wrap_small 32) by lia. apply i32_small; lia. Qed.

Lemma nonzero_word w : is_u 64 w -> w <> 0 -> 0 < w < 2 ^ 64.
Proof. unfold is_u. lia. Qed.

Lemma lowest_set_bit_set b : bs_wf b ->
  exists r, bit_set_lowest_set_bit b = Ok r /\
    ((r = -1 /\ forall i, ~ bs_mem b i) \/
     (bs_mem b r /\ 0 <= r /\ forall i, bs_mem b i -> r <= i)).
Proof.
  intros Hwf. unfold bit_set_lowest_set_bit. rewrite SIZE_IN_U64S_wf, Nat2Z.id by done.
  destruct (scan_up_spec (bits b) (length (bits b)) 0 ltac:(lia) ltac:(lia))
    as [[-> Hz] | (k & w & -> & Hk & E & Hw & Hz)]; cbn [mbind res_bind].
  - exists (-1). split; [done |]. left. split; [done |]. intros i Hi.
    destruct (bs_mem_split b i Hwf Hi) as (k & w & j & -> & Hk & E & Hj & B & _).
    rewrite (Hz k w ltac:(lia) E), Z.bits_0 in B. done.
  - pose proof (bs_word b _ w Hwf E) as Hu.
    destruct (lowest_set_bit_correct w (nonzero_word w Hu Hw)) as (j & -> & Hj & B & Hlow).
    cbn [mbind res_bind]. rewrite (i32_index k j (length (bits b))) by (done || by apply bs_length).
    eexists. split; [done |]. right.
    split; [eapply bs_mem_intro; eauto; lia |]. split; [lia |]. intros i Hi.
    destruct (bs_mem_split b i Hwf Hi) as (k' & w' & j' & -> & Hk' & E' & Hj' & B' & _).
    destruct (Z.lt_ge_cases k' k).
    { rewrite (Hz k' w' ltac:(lia) E'), Z.bits_0 in B'. done. }
    destruct (decide (k' = k)) as [->|]; [| lia].
    assert (w' = w) as -> by congruence. destruct (Z.lt_ge_cases j' j); [| lia].
    rewrite Hlow in B'; [done | lia].
Qed.

Lemma highest_set_bit_set b : bs_wf b ->
  exists r, bit_set_highest_set_bit b = Ok r /\
    ((r = -1 /\ forall i, ~ bs_mem b i) \/
     (bs_mem b r /\ 0 <= r /\ forall i, bs_mem b i -> i <= r)).
Proof.
  intros Hwf. unfold bit_set_highest_set_bit. rewrite SIZE_IN_U64S_wf, Nat2Z.id by done.
  destruct (scan_down_spec (bits b) (length (bits b)) ltac:(lia))
    as [[-> Hz] | (k & w & -> & Hk & E & Hw & Hz)]; cbn [mbind res_bind].
  - exists (-1). split; [done |]. left. split; [done |]. intros i Hi.
    destruct (bs_mem_split b i Hwf Hi) as (k & w & j & -> & Hk & E & Hj & B & _).
    rewrite (Hz k w ltac:(lia) E), Z.bits_0 in B. done.
  - pose proof (bs_word b _ w Hwf E) as Hu. pose proof (nonzero_word w Hu Hw) as Hr.
    rewrite highest_set_bit_correct by done. pose proof (log2_u64 w Hr).
    cbn [mbind res_bind]. rewrite (i32_index k (Z.log2 w) (length (bits b))) by (done || by apply bs_length).
    eexists. split; [done |]. right.
    split; [eapply bs_mem_intro; eauto; [lia | apply log2_testbit; lia] |]. split; [lia |]. intros i Hi.
    destruct (bs_mem_split b i Hwf Hi) as (k' & w' & j' & -> & Hk' & E' & Hj' & B' & _).
    destruct (Z.lt_ge_cases k k').
    { rewrite (Hz k' w' ltac:(lia) E'), Z.bits_0 in B'. done. }
    destruct (decide (k' = k)) as [->|]; [| lia].
    assert (w' = w) as -> by congruence. destruct (Z.lt_ge_cases (Z.log2 w) j'); [| lia].
    rewrite Z.bits_above_log2 in B' by lia. done.
Qed.

Lemma is_empty_set b : bs_wf b ->
  exists r, bit_set_is_empty b = Ok r /\ (r = true <-> forall i, ~ bs_mem b i).
Proof.
  intros Hwf. unfold bit_set_is_empty. rewrite SIZE_IN_U64S_wf, Nat2Z.id by done.
  destruct (scan_up_spec (bits b) (length (bits b)) 0 ltac:(lia) ltac:(lia))
    as [[-> Hz] | (k & w & -> & Hk & E & Hw & Hz)]; cbn [mbind res_bind].
  - exists true. split; [done |]. split; [| done]. intros _ i Hi.
    destruct (bs_mem_split b i Hwf Hi) as (k & w & j & -> & Hk & E & Hj & B & _).
    rewrite (Hz k w ltac:(lia) E), Z.bits_0 in B. done.
  - exists false. split; [done |]. split; [done |]. intros Hno. exfalso.
    pose proof (nonzero_word w (bs_word b _ w Hwf E) Hw) as Hr.
    apply (Hno (64 * k + Z.log2 w)). pose proof (log2_u64 w Hr).
    eapply bs_mem_intro; eauto; [lia | apply log2_testbit; lia].
Qed.

(** A pass that stores [f i] in every word gives exactly the list of the [f i]. *)
Lemma fill_words (f : Z -> res Z) (g : Z -> Z) (l : list Z) :
  (forall i, 0 <= i < Z.of_nat (length l) -> f i = Ok (g i)) ->
  foldM (fun l i => w ← f (Z.of_nat i); store l (Z.of_nat i) w) l (seq 0 (length l))
  = Ok ((fun i => g (Z.of_nat i)) <$> seq 0 (length l)).
Proof.
  intros Hf.
  assert (Gen : forall n, (n <= length l)%nat ->
    foldM (fun l i => w ← f (Z.of_nat i); store l (Z.of_nat i) w) l (seq 0 n)
    = Ok (((fun i => g (Z.of_nat i)) <$> seq 0 n) ++ drop n l)).
  { induction n as [|n IH]; intros Hn; [done |].
    rewrite seq_S, foldM_app, IH by lia. cbn [mbind res_bind foldM Nat.add].
    rewrite Hf by lia. cbn [mbind res_bind].
    rewrite store_Ok by (rewrite length_app, length_fmap, length_seq, length_drop; lia).
    cbn [mbind res_bind]. rewrite Nat2Z.id, fmap_app.
    rewrite insert_app_r_alt by (rewrite length_fmap, length_seq; lia).
    rewrite length_fmap, length_seq, Nat.sub_diag, <- app_assoc. do 2 f_equal.
    destruct (lookup_lt_is_Some_2 l n ltac:(lia)) as [x Hx].
    rewrite (drop_S _ x) by done. done. }
  rewrite Gen by lia. by rewrite drop_all, app_nil_r.
Qed.

Lemma set_all_spec b : bs_wf b ->
  exists b', bit_set_set_all b = Ok b' /\ bs_wf b' /\ size_in_bits b' = size_in_bits b /\
    forall i, bs_mem b' i <-> 0 <= i < size_in_bits b.
Proof.
  intros Hwf. pose proof (SIZE_IN_U64S_wf b Hwf) as HS. destruct Hwf as [Hs Hl Hw].
  remember (size_in_bits b mod 64) as top eqn:Htop.
  pose (g := fun i => if i =? Z.of_nat (length (bits b)) - 1
                      then if top =? 0 then Z.ones 64 else Z.ones top else Z.ones 64).
  pose proof (Z.mod_pos_bound (size_in_bits b) 64 ltac:(lia)) as Ht. rewrite <- Htop in Ht.
  assert (Hg : forall i, set_all_word b i = Ok (g i)).
  { intros i. unfold set_all_word, g. rewrite HS, <- Htop. case_match; [| done].
    destruct (Z.eqb_spec top 0); cbn [negb]; [done |]. unfold shl.
    destruct (Z.leb_spec 0 top), (Z.ltb_spec top 64); try lia. cbn [andb mbind res_bind].
    pose proof (Z.pow_lt_mono_r 2 top 64 ltac:(lia) ltac:(lia) ltac:(lia)).
    pose proof (pow2_pos top ltac:(lia)).
    rewrite Z.shiftl_1_l, (wrap_small 64 (2 ^ top)), wrap_small, Z.ones_equiv by lia. done. }
  unfold bit_set_set_all. rewrite HS, Nat2Z.id, (fill_words (set_all_word b) g) by auto.
  cbn [mbind res_bind]. eexists. split; [done |]. split.
  { constructor; cbn; [done | by rewrite length_fmap, length_seq |].
    apply Forall_fmap, Forall_forall. intros n _. unfold g. cbn.
    repeat case_match; bsplit; split; try lia; try done;
      rewrite Z.ones_equiv; pose proof (pow2_pos top ltac:(lia));
      pose proof (Z.pow_lt_mono_r 2 top 64 ltac:(lia) ltac:(lia) ltac:(lia)); lia. }
  split; [done |]. intros i. unfold bs_mem. cbn.
  assert (D : size_in_bits b = 64 * (size_in_bits b / 64) + top) by (subst top; apply Z.div_mod; lia).
  assert (HL : Z.of_nat (length (bits b)) = size_in_bits b / 64 + (if top =? 0 then 0 else 1)).
  { rewrite Hl, D at 1. replace (64 * (size_in_bits b / 64) + top + 63)
      with (size_in_bits b / 64 * 64 + (top + 63)) by lia. rewrite Z.div_add_l by lia. f_equal.
    destruct (Z.eqb_spec top 0) as [->|]; [done |].
    symmetry; apply (Z.div_unique _ _ _ (top - 1)); lia. }
  assert (Hi64 : 0 <= i -> i = 64 * (i / 64) + i mod 64 /\ 0 <= i mod 64 < 64 /\ 0 <= i / 64).
  { intros. split; [apply Z.div_mod; lia |]. split; [apply Z.mod_pos_bound; lia | apply Z.div_pos; lia]. }
  split.
  - intros (H0 & w & E & B). destruct (Hi64 H0) as (Di & Hm & Hd). split; [done |].
    apply list_lookup_fmap_Some in E as (n & -> & [-> Hn]%lookup_seq). cbn in B.
    rewrite Z2Nat.id in B by done. unfold g in B.
    destruct (Z.eqb_spec (i / 64) (Z.of_nat (length (bits b)) - 1)), (Z.eqb_spec top 0); try lia.
    destruct (Z.lt_ge_cases (i mod 64) top); [lia |]. rewrite Z.ones_spec_high in B by lia. done.
  - intros Hi. destruct (Hi64 ltac:(lia)) as (Di & Hm & Hd). split; [lia |].
    assert (i / 64 < Z.of_nat (length (bits b))) by (destruct (Z.eqb_spec top 0); lia).
    exists (g (i / 64)). split.
    + apply list_lookup_fmap_Some. exists (Z.to_nat (i / 64)).
      split; [by rewrite Z2Nat.id |]. apply lookup_seq. lia.
    + unfold g. destruct (Z.eqb_spec (i / 64) (Z.of_nat (length (bits b)) - 1)),
        (Z.eqb_spec top 0); apply Z.ones_spec_low; lia.
Qed.

Lemma clear_all_spec b : bs_wf b ->
  exists b', bit_set_clear_all b = Ok b' /\ bs_wf b' /\ size_in_bits b' = size_in_bits b /\
    forall i, ~ bs_mem b' i.
Proof.
  intros Hwf. pose proof (SIZE_IN_U64S_wf b Hwf) as HS. destruct Hwf as [Hs Hl Hw].
  unfold bit_set_clear_all. rewrite HS, Nat2Z.id.
  pose proof (fill_words (fun _ => Ok 0) (fun _ => 0) (bits b) ltac:(done)) as F.
  cbn [mbind res_bind] in F. rewrite F. cbn [mbind res_bind].
  eexists. split; [done |]. split.
  { constructor; cbn; [done | by rewrite length_fmap, length_seq |].
    apply Forall_fmap, Forall_forall. intros n _. cbn. split; lia. }
  split; [done |]. intros i (_ & w & E & B). cbn in E.
  apply list_lookup_fmap_Some in E as (n & -> & _). by rewrite Z.bits_0 in B.
Qed.

(** [bit_set_init] followed by a clearing pass gives the empty set, whatever the
    memory held. *)
Lemma bit_set_init_wf garbage n : 0 < n < 2 ^ 31 ->
  (Z.to_nat ((n + 63) / 64) <= length garbage)%nat -> Forall (is_u 64) garbage ->
  bs_wf (bit_set_init garbage n) /\ size_in_bits (bit_set_init garbage n) = n.
Proof.
  intros Hn Hg Hu. unfold bit_set_init, SIZE_IN_U64S. cbn [size_in_bits].
  rewrite (wrap_small 32) by lia.
  assert (1 <= (n + 63) / 64) by (apply Z.div_le_lower_bound; lia).
  destruct (Z.leb_spec n 64); (split; [constructor |]; [done | | by apply Forall_take | done]);
    cbn; rewrite length_take; [| lia].
  assert ((n + 63) / 64 = 1) as E by (symmetry; apply (Z.div_unique _ _ _ (n - 1)); lia).
  rewrite E in *. lia.
Qed.

(** ** Properties *)

(** C35: a bit set refines a finite set of indices. On well-formed sets,
    [bit_set_get_bit] decides membership, [bit_set_set_bit] adds or removes
    exactly one index and keeps the set well-formed, [bit_set_set_all] gives
    exactly the indices below the size (the top bits of the last word stay
    clear) and [bit_set_clear_all] gives the empty set. *)
Theorem bit_set_refines_set (b : BitSet) (i : Z) (v : bool)
    (Hwf : bs_wf b) (Hi : 0 <= i < size_in_bits b) :
  (exists g, bit_set_get_bit b i = Ok g /\ (g = true <-> bs_mem b i)) /\
  (exists b', bit_set_set_bit b i v = Ok b' /\ bs_wf b' /\ size_in_bits b' = size_in_bits b /\
     forall j, 0 <= j -> bs_mem b' j <-> (if j =? i then v = true else bs_mem b j)) /\
  (exists b', bit_set_set_all b = Ok b' /\ bs_wf b' /\ size_in_bits b' = size_in_bits b /\
     forall j, bs_mem b' j <-> 0 <= j < size_in_bits b) /\
  (exists b', bit_set_clear_all b = Ok b' /\ bs_wf b' /\ size_in_bits b' = size_in_bits b /\
     forall j, ~ bs_mem b' j).
Proof.
  split; [by apply get_bit_mem |]. split; [by apply set_bit_spec |].
  split; [by apply set_all_spec | by apply clear_all_spec].
Qed.

(** A set of 70 indices over two words, holding 3 and 69. *)
Definition sample_set : BitSet := mkBitSet [8; 32] false 70.

Lemma sample_set_wf : bs_wf sample_set.
Proof. constructor; cbn; [lia | done |]. repeat constructor; cbn; lia. Defined.

Lemma bit_set_refines_set_witness :
  (bs_wf sample_set /\ 0 <= 69 < size_in_bits sample_set) /\
  exists b', bit_set_set_bit sample_set 69 false = Ok b' /\ bits b' = [8; 0] /\
    forall j, 0 <= j -> bs_mem b' j <-> (if j =? 69 then false = true else bs_mem sample_set j).
Proof.
  split; [split; [apply sample_set_wf | cbn; lia] |].
  destruct (bit_set_refines_set sample_set 69 false sample_set_wf ltac:(cbn; lia))
    as (_ & (b' & E & _ & _ & H) & _).
  exists b'. split; [exact E |]. split; [| exact H].
  vm_compute in E. injection E as <-. reflexivity.
Defined.

(** the scans of a bit set return the extremes of the set it stands for:
    -1 on the empty set, otherwise a member below (resp. above) every other
    member, and [bit_set_is_empty] decides emptiness. *)
Theorem bit_set_scans (b : BitSet) (Hwf : bs_wf b) :
  exists lo hi e,
    bit_set_lowest_set_bit b = Ok lo /\ bit_set_highest_set_bit b = Ok hi /\
    bit_set_is_empty b = Ok e /\
    if e then lo = -1 /\ hi = -1 /\ (forall i, ~ bs_mem b i)
    else bs_mem b lo /\ bs_mem b hi /\ (forall i, bs_mem b i -> lo <= i <= hi).
Proof.
  destruct (lowest_set_bit_set b Hwf) as (lo & E1 & H1).
  destruct (highest_set_bit_set b Hwf) as (hi & E2 & H2).
  destruct (is_empty_set b Hwf) as (e & E3 & H3).
  exists lo, hi, e. repeat (split; [done |]). destruct e.
  - assert (forall i, ~ bs_mem b i) as Hno by tauto.
    destruct H1 as [[-> _]|[? _]], H2 as [[-> _]|[? _]]; naive_solver.
  - destruct H1 as [[-> Hno]|[? [? ?]]], H2 as [[-> Hno']|[? [? ?]]]; naive_solver.
Qed.

Lemma bit_set_scans_witness : bs_wf sample_set /\
  exists lo hi e, bit_set_lowest_set_bit sample_set = Ok lo /\
    bit_set_highest_set_bit sample_set = Ok hi /\ bit_set_is_empty sample_set = Ok e /\
    lo = 3 /\ hi = 69.
Proof.
  split; [apply sample_set_wf |].
  destruct (bit_set_scans sample_set sample_set_wf) as (lo & hi & e & E1 & E2 & E3 & _).
  exists lo, hi, e. repeat (split; [assumption |]).
  vm_compute in E1, E2. injection E1 as <-. injection E2 as <-. split; reflexivity.
Defined.
