(* ===== verification/Array.v ===== *)
(** * Dynamic arrays ([src/src/array.h], [src/src/array.c])

    An [Array_] is modelled at the level of bytes: the block behind [elements],
    the number of elements and the capacity, with the u32 arithmetic of the code
    ([realloc] sizes, byte offsets). [malloc] and [realloc] are assumed to
    succeed, as the code does; the bytes they leave indeterminate are given by
    an arbitrary function [junk]. The specification is the list of elements
    ([arr_rep]). *)

From S2P Require Import Prelude.

Local Open Scope Z_scope.

(** ** Definitions *)

Record Array_ := mkArray {
  elements : option (list Z);   (* None is the NULL pointer *)
  size : Z;
  capacity : Z
}.

Definition EMPTY_ARRAY : Array_ := mkArray None 0 0.
Definition ARRAY_IS_VALID (a : Array_) : bool :=
  match elements a with Some _ => true | None => false end.

Definition with_size (a : Array_) (n : Z) : Array_ := mkArray (elements a) n (capacity a).

(** The bytes behind the pointer. *)
Definition block (a : Array_) : list Z := default [] (elements a).

(** [memcpy]/[memmove] into a block at a byte offset: undefined out of bounds. *)
Definition blit (b : list Z) (off : nat) (d : list Z) : list Z :=
  take off b ++ d ++ drop (off + length d) b.

Definition write_block (b : list Z) (off : Z) (d : list Z) : res (list Z) :=
  if (0 <=? off) && (off + Z.of_nat (length d) <=? Z.of_nat (length b))
  then Ok (blit b (Z.to_nat off) d) else Stop Undef.

Definition read_block (b : list Z) (off n : Z) : res (list Z) :=
  if (0 <=? off) && (0 <=? n) && (off + n <=? Z.of_nat (length b))
  then Ok (take (Z.to_nat n) (drop (Z.to_nat off) b)) else Stop Undef.

(** [while (new_size > array->capacity) array->capacity *= 2;] *)
Definition grow_body (new_size : Z) (cap : Z) : res (Z + Z) :=
  if cap <? new_size then Ok (inl (u32 (cap * 2))) else Ok (inr cap).

Section Heap.
Context (junk : nat -> Z).

Definition malloc_block (n : Z) : list Z := junk <$> seq 0 (Z.to_nat n).
Definition realloc_block (b : list Z) (n : Z) : list Z :=
  take (Z.to_nat n) b ++ (junk <$> seq (length b) (Z.to_nat n - length b)).

Definition _array_init (element_size initial_capacity : Z) : Array_ :=
  mkArray (if initial_capacity =? 0 then None
           else Some (malloc_block (u32 (element_size * initial_capacity))))
          0 initial_capacity.

Definition _array_ensure_room (a : Array_) (element_size count : Z) : res Array_ :=
  let new_size := u32 (size a + count) in
  if capacity a <? new_size then
    cap ← loop 33 (grow_body new_size) (if capacity a =? 0 then new_size else capacity a);
    Ok (mkArray (Some (realloc_block (block a) (u32 (cap * element_size)))) (size a) cap)
  else Ok a.

(** [ARRAY_REF(array, T, i)] read and written: [elements[i * sizeof(T)]]. *)
Definition ARRAY_REF (a : Array_) (element_size i : Z) : res (list Z) :=
  read_block (block a) (i * element_size) element_size.

Definition ARRAY_SET (a : Array_) (element_size i : Z) (e : list Z) : res Array_ :=
  b ← write_block (block a) (i * element_size) e;
  Ok (mkArray (Some b) (size a) (capacity a)).

Definition ARRAY_LAST (a : Array_) (element_size : Z) : res (list Z) :=
  ARRAY_REF a element_size (u32 (size a - 1)).

(** [*ARRAY_APPEND(array, T) = e]. *)
Definition ARRAY_APPEND (a : Array_) (element_size : Z) (e : list Z) : res Array_ :=
  a ← _array_ensure_room a element_size 1;
  ARRAY_SET (with_size a (u32 (size a + 1))) element_size (size a) e.

(** [ARRAY_POP]: the element read through [--size]. *)
Definition ARRAY_POP (a : Array_) (element_size : Z) : res (Array_ * list Z) :=
  let a := with_size a (u32 (size a - 1)) in
  e ← ARRAY_REF a element_size (size a);
  Ok (a, e).

Definition array_delete_last (a : Array_) : Array_ := with_size a (u32 (size a - 1)).
Definition array_clear (a : Array_) : Array_ := with_size a 0.

(** The destination is [elements + size], a byte offset. *)
Definition _array_append_elems (a : Array_) (element_size n : Z) (elems : list Z) : res Array_ :=
  a ← _array_ensure_room a element_size n;
  src ← read_block elems 0 (u32 (n * element_size));
  b ← write_block (block a) (size a) src;
  Ok (mkArray (Some b) (u32 (size a + n)) (capacity a)).

(** [ARRAY_INSERT] followed by the store through the returned pointer is
    [array_insert]; [_array_insert] returns the array and the byte offset. *)
Definition _array_insert (a : Array_) (element_size insertion_point : Z) : res (Array_ * Z) :=
  a ← _array_ensure_room a element_size 1;
  d ← read_block (block a) (u32 (insertion_point * element_size))
        (u32 (u32 (size a - insertion_point) * element_size));
  b ← write_block (block a) (u32 (u32 (insertion_point + 1) * element_size)) d;
  Ok (mkArray (Some b) (u32 (size a + 1)) (capacity a), u32 (insertion_point * element_size)).

Definition ARRAY_INSERT (a : Array_) (element_size insertion_point : Z) (e : list Z) : res Array_ :=
  '(a, off) ← _array_insert a element_size insertion_point;
  b ← write_block (block a) off e;
  Ok (mkArray (Some b) (size a) (capacity a)).

Definition _array_remove (a : Array_) (element_size removal_point : Z) : res Array_ :=
  b ← (if negb (removal_point =? u32 (size a - 1)) then
         d ← read_block (block a) (u32 (u32 (removal_point + 1) * element_size))
               (u32 (u32 (size a - removal_point - 1) * element_size));
         b ← write_block (block a) (u32 (removal_point * element_size)) d;
         Ok (Some b)
       else Ok (elements a));
  Ok (mkArray b (u32 (size a - 1)) (capacity a)).

(** ** Specification *)

(** [arr_rep es a l]: [a] holds the elements [l], each [es] bytes long. *)
Record arr_rep (es : Z) (a : Array_) (l : list (list Z)) : Prop := {
  rep_es : 0 < es;
  rep_size : size a = Z.of_nat (length l);
  rep_elems : Forall (fun e => Z.of_nat (length e) = es) l;
  rep_cap : size a <= capacity a;
  rep_bytes : capacity a * es < 2 ^ 32;
  rep_len : Z.of_nat (length (block a)) = capacity a * es;
  rep_block : exists slack, block a = concat l ++ slack
}.

(** ** Lemmas *)

Lemma concat_length es (l : list (list Z)) : Forall (fun e => Z.of_nat (length e) = es) l ->
  Z.of_nat (length (concat l)) = Z.of_nat (length l) * es.
Proof. induction 1; cbn; rewrite ?length_app; lia. Qed.

Lemma take_concat es (l : list (list Z)) k rest : 0 < es -> Forall (fun e => Z.of_nat (length e) = es) l ->
  (k <= length l)%nat -> take (Z.to_nat (Z.of_nat k * es)) (concat l ++ rest) = concat (take k l).
Proof.
  intros Hes Hl Hk. rewrite <- (take_drop k l) at 1. rewrite concat_app, <- app_assoc.
  apply take_app_length'. apply Nat2Z.inj.
  rewrite (concat_length es) by (by apply Forall_take). rewrite length_take, Nat.min_l by lia. nia.
Qed.

Lemma drop_concat es (l : list (list Z)) k rest : 0 < es -> Forall (fun e => Z.of_nat (length e) = es) l ->
  (k <= length l)%nat -> drop (Z.to_nat (Z.of_nat k * es)) (concat l ++ rest) = concat (drop k l) ++ rest.
Proof.
  intros Hes Hl Hk. rewrite <- (take_drop k l) at 1. rewrite concat_app, <- app_assoc.
  apply drop_app_length'. apply Nat2Z.inj.
  rewrite (concat_length es) by (by apply Forall_take). rewrite length_take, Nat.min_l by lia. nia.
Qed.

Lemma block_mk b n c : block (mkArray (Some b) n c) = b.
Proof. done. Qed.

Lemma write_block_Ok b off d : 0 <= off -> off + Z.of_nat (length d) <= Z.of_nat (length b) ->
  write_block b off d = Ok (blit b (Z.to_nat off) d).
Proof. intros. unfold write_block. by zcases. Qed.

Lemma read_block_Ok b off n : 0 <= off -> 0 <= n -> off + n <= Z.of_nat (length b) ->
  read_block b off n = Ok (take (Z.to_nat n) (drop (Z.to_nat off) b)).
Proof. intros. unfold read_block. by zcases. Qed.

Lemma length_blit b off d : (off + length d <= length b)%nat -> length (blit b off d) = length b.
Proof. intros. unfold blit. rewrite !length_app, length_take, length_drop. lia. Qed.

(** Writing whole elements [es] over the elements and the slack of a block, from
    element [k] on. *)
Lemma blit_concat es l k d rest : 0 < es -> Forall (fun e => Z.of_nat (length e) = es) l ->
  (k <= length l)%nat ->
  exists rest', blit (concat l ++ rest) (Z.to_nat (Z.of_nat k * es)) d = concat (take k l) ++ d ++ rest'.
Proof.
  intros Hes Hl Hk. unfold blit. rewrite (take_concat es) by done. eauto.
Qed.

Lemma length_realloc b n : length (realloc_block b n) = Z.to_nat n.
Proof. unfold realloc_block. rewrite length_app, length_take, length_fmap, length_seq. lia. Qed.

Lemma realloc_keeps b n pre rest : b = pre ++ rest -> Z.of_nat (length b) <= n ->
  exists rest', realloc_block b n = pre ++ rest'.
Proof.
  intros -> Hn. unfold realloc_block. rewrite take_ge by lia.
  rewrite <- app_assoc. eauto.
Qed.

Lemma grow_spec new cap : 0 < cap -> cap < 2 * new -> new < 2 ^ 31 ->
  exists c, loop 33 (grow_body new) cap = Ok c /\ new <= c /\ cap <= c < 2 * new.
Proof.
  intros H0 H1 H2.
  destruct (loop_total (fun c => cap <= c < 2 * new) (fun c => Z.to_nat (32 - Z.log2 c))
    (fun c => new <= c /\ cap <= c < 2 * new) (grow_body new)) with (fuel := 33%nat) (s := cap)
    as (c & E & H); [| lia | | by exists c].
  - intros c Hc. unfold grow_body. destruct (Z.ltb_spec c new).
    + rewrite wrap_small by lia. eexists. split; [done |]. cbn. split; [lia |].
      rewrite Z.mul_comm, Z.log2_double by lia.
      pose proof (Z.log2_nonneg c). assert (Z.log2 c < 31) by (apply Z.log2_lt_pow2; lia). lia.
    + eexists. split; [done |]. cbn. lia.
  - pose proof (Z.log2_nonneg cap). lia.
Qed.

Lemma init_rep es cap : 0 < es -> 0 <= cap -> cap * es < 2 ^ 32 -> arr_rep es (_array_init es cap) [].
Proof.
  intros Hes Hc Hb. unfold _array_init. constructor; cbn; try done.
  - destruct (Z.eqb_spec cap 0); cbn; [lia |].
    unfold malloc_block. rewrite length_fmap, length_seq, wrap_small by nia. nia.
  - eauto.
Qed.

Lemma ensure_room_rep es a l count : arr_rep es a l -> 0 <= count ->
  2 * (Z.of_nat (length l) + count) * es < 2 ^ 32 ->
  exists a', _array_ensure_room a es count = Ok a' /\ arr_rep es a' l /\
    Z.of_nat (length l) + count <= capacity a'.
Proof.
  intros R Hc Hb. pose proof R as [Hes Hs Hl Hcap Hby Hlen [slack Hblk]].
  assert (Hn : Z.of_nat (length l) + count < 2 ^ 31) by nia.
  unfold _array_ensure_room. rewrite Hs, wrap_small by lia.
  destruct (Z.ltb_spec (capacity a) (Z.of_nat (length l) + count)); [| by exists a].
  set (new := Z.of_nat (length l) + count) in *.
  destruct (grow_spec new (if capacity a =? 0 then new else capacity a)) as (c & -> & Hnc & Hc2);
    [destruct (Z.eqb_spec (capacity a) 0); lia.. |].
  cbn [mbind res_bind]. assert (c * es < 2 ^ 32) by nia. rewrite wrap_small by nia.
  eexists. split; [done |]. assert (capacity a <= c) by (destruct (Z.eqb_spec (capacity a) 0); lia).
  split; [| done]. constructor; cbn; try done; [lia | |].
  - rewrite length_realloc. nia.
  - eapply realloc_keeps; [done | nia].
Qed.

Lemma ref_rep es a l i e : arr_rep es a l -> l !! Z.to_nat i = Some e -> 0 <= i ->
  ARRAY_REF a es i = Ok e.
Proof.
  intros [Hes Hs Hl Hcap Hby Hlen [slack Hblk]] He Hi. unfold ARRAY_REF.
  pose proof (lookup_lt_Some _ _ _ He) as Hlt.
  assert (HL : Z.of_nat (length e) = es) by (eapply Forall_lookup_1 in Hl; done).
  rewrite read_block_Ok by nia. f_equal. rewrite Hblk.
  rewrite <- (Z2Nat.id i) by done.
  rewrite (drop_concat es) by (done || lia). rewrite (drop_S _ e) by done. cbn.
  rewrite <- app_assoc. apply take_app_length'. lia.
Qed.

Lemma Forall_len_insert es (l : list (list Z)) k e : Forall (fun e => Z.of_nat (length e) = es) l ->
  Z.of_nat (length e) = es ->
  Forall (fun e => Z.of_nat (length e) = es) (take k l ++ e :: drop k l).
Proof. intros. apply Forall_app. split; [by apply Forall_take | constructor; [done | by apply Forall_drop]]. Qed.

(** Shift [post] right by [n] bytes over the slack, then fill the gap. *)
Lemma gap_write (pre post slack e : list Z) n : length e = n -> (n <= length slack)%nat ->
  blit (blit (pre ++ post ++ slack) (length pre + n) post) (length pre) e
  = pre ++ e ++ post ++ drop n slack.
Proof.
  intros He Hn.
  assert (Inner : blit (pre ++ post ++ slack) (length pre + n) post
                  = pre ++ take n (post ++ slack) ++ post ++ drop n slack).
  { unfold blit. rewrite take_app_add, <- app_assoc. do 3 f_equal.
    rewrite <- Nat.add_assoc, drop_app_add, Nat.add_comm, drop_app_add. done. }
  rewrite Inner. unfold blit. rewrite take_app_length. do 2 f_equal.
  rewrite drop_app_add, He. apply drop_app_length'.
  rewrite length_take, length_app. lia.
Qed.

Lemma insert_rep es a l p e : arr_rep es a l -> 0 <= p <= Z.of_nat (length l) ->
  Z.of_nat (length e) = es -> 2 * (Z.of_nat (length l) + 1) * es < 2 ^ 32 ->
  exists a', ARRAY_INSERT a es p e = Ok a' /\
    arr_rep es a' (take (Z.to_nat p) l ++ e :: drop (Z.to_nat p) l).
Proof.
  intros R Hp He Hb. unfold ARRAY_INSERT, _array_insert.
  destruct (ensure_room_rep es a l 1 R ltac:(lia) ltac:(nia)) as (a1 & -> & R1 & Hc1).
  cbn [mbind res_bind]. destruct R1 as [Hes Hs Hl Hcap Hby Hlen [slack Hblk]].
  assert (Hes1 : 1 <= es) by lia.
  assert (Hn1 : Z.of_nat (length l) + 1 < 2 ^ 31) by nia.
  assert (Hp1 : 0 <= (p + 1) * es <= (Z.of_nat (length l) + 1) * es) by nia.
  assert (Hd : 0 <= (Z.of_nat (length l) - p) * es <= (Z.of_nat (length l) + 1) * es) by nia.
  rewrite Hs, (wrap_small 32 (Z.of_nat (length l) - p)), (wrap_small 32 (p + 1)) by lia.
  rewrite (wrap_small 32 (Z.of_nat (length l) + 1)),
    (wrap_small 32 ((Z.of_nat (length l) - p) * es)), (wrap_small 32 ((p + 1) * es)), (wrap_small 32 (p * es)) by nia.
  rewrite read_block_Ok by nia. cbn [mbind res_bind].
  set (moved := take _ (drop _ (block a1))).
  assert (Hmoved : moved = concat (drop (Z.to_nat p) l)).
  { subst moved. rewrite Hblk. rewrite <- (Z2Nat.id p) at 2 by lia.
    rewrite (drop_concat es) by (done || lia). apply take_app_length'. apply Nat2Z.inj.
    rewrite (concat_length es) by (by apply Forall_drop). rewrite length_drop. nia. }
  clearbody moved. subst moved.
  assert (HML : Z.of_nat (length (concat (drop (Z.to_nat p) l))) = (Z.of_nat (length l) - p) * es).
  { rewrite (concat_length es) by (by apply Forall_drop). rewrite length_drop. nia. }
  assert (Hsum : (p + 1) * es + (Z.of_nat (length l) - p) * es <= capacity a1 * es) by nia.
  rewrite write_block_Ok by lia. cbn [mbind res_bind]. rewrite block_mk.
  assert (HB : length (blit (block a1) (Z.to_nat ((p + 1) * es)) (concat (drop (Z.to_nat p) l)))
               = length (block a1)) by (apply length_blit; lia).
  assert (Hp0 : 0 <= p * es) by nia.
  rewrite write_block_Ok by lia. cbn [mbind res_bind].
  eexists. split; [done |]. constructor; rewrite ?block_mk; cbn [size capacity].
  - done.
  - rewrite length_app, length_take. cbn. rewrite length_drop. lia.
  - by apply Forall_len_insert.
  - lia.
  - done.
  - rewrite length_blit by lia. lia.
  - assert (HF : Forall (fun e => Z.of_nat (length e) = es) (take (Z.to_nat p) l)) by (by apply Forall_take).
    assert (HLt : Z.of_nat (length (concat (take (Z.to_nat p) l))) = p * es).
    { rewrite (concat_length es) by done. rewrite length_take, Nat.min_l by lia. nia. }
    assert (Hsl : (length (concat (drop (Z.to_nat p) l)) + Z.to_nat es <= length (concat (drop (Z.to_nat p) l)) + length slack)%nat).
    { apply (f_equal length) in Hblk. rewrite length_app in Hblk.
      pose proof (concat_length es l Hl). nia. }
    exists (drop (Z.to_nat es) slack). rewrite concat_app. cbn [concat]. rewrite <- !app_assoc.
    assert (Hsplit : block a1 = concat (take (Z.to_nat p) l) ++ concat (drop (Z.to_nat p) l) ++ slack)
      by (rewrite app_assoc, <- concat_app, take_drop; done).
    rewrite Hsplit.
    replace (Z.to_nat (p * es)) with (length (concat (take (Z.to_nat p) l))) by lia.
    replace (Z.to_nat ((p + 1) * es))
      with (length (concat (take (Z.to_nat p) l)) + Z.to_nat es)%nat by lia.
    rewrite gap_write by lia. done.
Qed.

(** Writing [d] right after the first [k] elements of the block. *)
Lemma write_after es a l k d : arr_rep es a l -> (k <= length l)%nat ->
  Z.of_nat k * es + Z.of_nat (length d) <= capacity a * es ->
  exists b rest, write_block (block a) (Z.of_nat k * es) d = Ok b /\
    b = concat (take k l) ++ d ++ rest /\ Z.of_nat (length b) = capacity a * es.
Proof.
  intros [Hes Hs Hl Hcap Hby Hlen [slack Hblk]] Hk Hd.
  rewrite write_block_Ok by nia.
  destruct (blit_concat es l k d slack Hes Hl Hk) as [rest E].
  exists (blit (block a) (Z.to_nat (Z.of_nat k * es)) d), rest.
  split; [done |]. split; [by rewrite Hblk, E |]. rewrite length_blit by nia. done.
Qed.

Lemma append_rep es a l e : arr_rep es a l -> Z.of_nat (length e) = es ->
  2 * (Z.of_nat (length l) + 1) * es < 2 ^ 32 ->
  exists a', ARRAY_APPEND a es e = Ok a' /\ arr_rep es a' (l ++ [e]).
Proof.
  intros R He Hb. unfold ARRAY_APPEND.
  destruct (ensure_room_rep es a l 1 R ltac:(lia) ltac:(nia)) as (a1 & -> & R1 & Hc1).
  cbn [mbind res_bind]. pose proof R1 as [Hes Hs Hl Hcap Hby Hlen _].
  destruct (write_after es a1 l (length l) e R1 ltac:(lia) ltac:(nia)) as (b & rest & E & Hb' & Hlb).
  unfold ARRAY_SET. change (block (with_size a1 _)) with (block a1). rewrite Hs, E.
  cbn [mbind res_bind]. eexists. split; [done |].
  constructor; rewrite ?block_mk; cbn [size capacity with_size]; try done.
  - rewrite wrap_small by nia. rewrite length_app. cbn. lia.
  - apply Forall_app. by repeat constructor.
  - rewrite wrap_small by nia. lia.
  - exists rest. rewrite Hb', take_ge, concat_app by lia. cbn. by rewrite app_nil_r, <- app_assoc.
Qed.

Lemma remove_rep es a l p : arr_rep es a l -> 0 <= p < Z.of_nat (length l) ->
  exists a', _array_remove a es p = Ok a' /\ arr_rep es a' (delete (Z.to_nat p) l).
Proof.
  intros R Hp. pose proof R as [Hes Hs Hl Hcap Hby Hlen [slack Hblk]].
  assert (Hcb : Z.of_nat (length l) * es <= capacity a * es) by nia.
  assert (Hn : Z.of_nat (length l) < 2 ^ 32) by nia.
  assert (HD : Forall (fun e => Z.of_nat (length e) = es) (delete (Z.to_nat p) l)).
  { rewrite delete_take_drop. apply Forall_app. split; [by apply Forall_take | by apply Forall_drop]. }
  assert (HLD : Z.of_nat (length (delete (Z.to_nat p) l)) = Z.of_nat (length l) - 1).
  { rewrite length_delete by (apply lookup_lt_is_Some_2; lia). lia. }
  unfold _array_remove. rewrite Hs, (wrap_small 32 (_ - 1)) by lia.
  assert (Fin : forall b, Z.of_nat (length (default [] b)) = capacity a * es ->
    (exists rest, default [] b = concat (delete (Z.to_nat p) l) ++ rest) ->
    arr_rep es (mkArray b (Z.of_nat (length l) - 1) (capacity a)) (delete (Z.to_nat p) l)).
  { intros b Hb1 Hb2. constructor; unfold block; cbn; try done; lia. }
  destruct (Z.eqb_spec p (Z.of_nat (length l) - 1)); cbn [negb].
  - cbn [mbind res_bind]. eexists. split; [done |]. apply Fin; [done |].
    change (default [] (elements a)) with (block a). rewrite Hblk, delete_take_drop.
    rewrite (drop_ge l (S _)) by lia. rewrite app_nil_r.
    exists (concat (drop (Z.to_nat p) l) ++ slack). by rewrite app_assoc, <- concat_app, take_drop.
  - assert (Hp1 : 0 <= (p + 1) * es <= Z.of_nat (length l) * es) by nia.
    assert (Hd : 0 <= (Z.of_nat (length l) - p - 1) * es <= Z.of_nat (length l) * es) by nia.
    rewrite (wrap_small 32 (p + 1)), (wrap_small 32 (_ - p - 1)) by lia.
    rewrite (wrap_small 32 (p * es)), (wrap_small 32 ((p + 1) * es)), (wrap_small 32 (_ * es)) by nia.
    rewrite read_block_Ok by lia. cbn [mbind res_bind].
    assert (Hmoved : take (Z.to_nat ((Z.of_nat (length l) - p - 1) * es))
        (drop (Z.to_nat ((p + 1) * es)) (block a)) = concat (drop (S (Z.to_nat p)) l)).
    { rewrite Hblk. replace (p + 1) with (Z.of_nat (S (Z.to_nat p))) by lia.
      rewrite (drop_concat es) by (done || lia). apply take_app_length'. apply Nat2Z.inj.
      rewrite (concat_length es) by (by apply Forall_drop). rewrite length_drop. nia. }
    rewrite Hmoved.
    assert (HML : Z.of_nat (length (concat (drop (S (Z.to_nat p)) l))) = (Z.of_nat (length l) - p - 1) * es).
    { rewrite (concat_length es) by (by apply Forall_drop). rewrite length_drop. nia. }
    destruct (write_after es a l (Z.to_nat p) (concat (drop (S (Z.to_nat p)) l)) R ltac:(lia))
      as (b & rest & E & Hb' & Hlb); [rewrite Z2Nat.id by lia; lia |].
    rewrite Z2Nat.id in E by lia. rewrite E. cbn [mbind res_bind].
    eexists. split; [done |]. apply Fin; [done |].
    exists rest. cbn. by rewrite Hb', delete_take_drop, concat_app, <- app_assoc.
Qed.

Lemma pop_rep es a l e : arr_rep es a (l ++ [e]) ->
  exists a', ARRAY_POP a es = Ok (a', e) /\ arr_rep es a' l.
Proof.
  intros R. pose proof R as [Hes Hs Hl Hcap Hby Hlen [slack Hblk]].
  rewrite length_app in Hs; cbn in Hs. assert (Z.of_nat (length l) < 2 ^ 32) by nia.
  unfold ARRAY_POP. rewrite Hs, wrap_small by lia.
  replace (Z.of_nat (length l + 1) - 1) with (Z.of_nat (length l)) by lia. cbn [size with_size].
  change (ARRAY_REF (with_size a (Z.of_nat (length l))) es) with (ARRAY_REF a es).
  rewrite (ref_rep es a (l ++ [e]) (Z.of_nat (length l)) e R).
  - eexists. split; [done |]. apply Forall_app in Hl as [Hl _].
    constructor; cbn [size capacity with_size]; try done; [lia |].
    change (block (with_size a _)) with (block a). rewrite Hblk, concat_app, <- app_assoc. eauto.
  - by rewrite Nat2Z.id, lookup_app_r, Nat.sub_diag.
  - lia.
Qed.

Lemma append_elems_bytes_rep a (l : list (list Z)) (d : list Z) : arr_rep 1 a l ->
  2 * (Z.of_nat (length l) + Z.of_nat (length d)) < 2 ^ 32 ->
  exists a', _array_append_elems a 1 (Z.of_nat (length d)) d = Ok a' /\
    arr_rep 1 a' (l ++ ((fun x => [x]) <$> d)).
Proof.
  intros R Hb. unfold _array_append_elems.
  destruct (ensure_room_rep 1 a l (Z.of_nat (length d)) R ltac:(lia) ltac:(lia)) as (a1 & -> & R1 & Hc1).
  cbn [mbind res_bind]. pose proof R1 as [Hes Hs Hl Hcap Hby Hlen _].
  rewrite (wrap_small 32 (_ * 1)) by lia. rewrite read_block_Ok by lia. cbn [mbind res_bind].
  rewrite drop_0, take_ge by lia.
  destruct (write_after 1 a1 l (length l) d R1 ltac:(lia) ltac:(lia)) as (b & rest & E & Hb' & Hlb).
  rewrite Z.mul_1_r in E. rewrite Hs, E. cbn [mbind res_bind]. eexists. split; [done |].
  rewrite wrap_small by lia.
  constructor; rewrite ?block_mk; cbn [size capacity]; try done.
  - rewrite length_app, length_fmap. lia.
  - apply Forall_app. split; [done |]. apply Forall_fmap, Forall_true. done.
  - exists rest. rewrite Hb', take_ge, concat_app, <- app_assoc by lia. do 2 f_equal.
    clear. induction d as [|x d IH]; [done |]. cbn. by f_equal.
Qed.

End Heap.

(** ** Properties *)


Definition sample_array : Array_ := mkArray (Some [1; 0; 2; 0; 3; 0]) 2 3.

Lemma sample_array_rep : arr_rep 2 sample_array [[1; 0]; [2; 0]].
Proof.
  constructor; cbn; try lia; try done; [by repeat constructor |].
  exists [3; 0]. reflexivity.
Defined.


(** [ARRAY_APPEND_ELEMS] appends the bytes of its argument to a byte array
    (the only element size it is called with). *)
Theorem append_elems_appends_bytes (junk : nat -> Z) (a : Array_) (l : list (list Z)) (d : list Z)
    (R : arr_rep 1 a l) (Hb : 2 * (Z.of_nat (length l) + Z.of_nat (length d)) < 2 ^ 32) :
  exists a', _array_append_elems junk a 1 (Z.of_nat (length d)) d = Ok a' /\
    arr_rep 1 a' (l ++ ((fun x => [x]) <$> d)).
Proof. by apply append_elems_bytes_rep. Qed.

Lemma append_elems_appends_bytes_witness :
  arr_rep 1 (_array_init (fun _ => 7) 1 2) [] /\
  exists a', _array_append_elems (fun _ => 7) (_array_init (fun _ => 7) 1 2) 1 3 [4; 5; 6] = Ok a' /\
    arr_rep 1 a' [[4]; [5]; [6]].
Proof.
  assert (R : arr_rep 1 (_array_init (fun _ => 7) 1 2) []) by (apply init_rep; cbn; lia).
  split; [exact R |].
  exact (append_elems_appends_bytes (fun _ => 7) _ [] [4; 5; 6] R ltac:(cbn; lia)).
Defined.

(** for elements wider than a byte [_array_append_elems] copies to byte
    offset [size] instead of [size * element_size] and overwrites live elements:
    appending one 4-byte element to an array that holds one destroys both. *)
Theorem append_elems_wide_overwrites (junk : nat -> Z) :
  exists a a' : Array_,
    ARRAY_APPEND junk (_array_init junk 4 4) 4 [1; 2; 3; 4] = Ok a /\
    _array_append_elems junk a 4 1 [5; 6; 7; 8] = Ok a' /\
    size a' = 2 /\ ARRAY_REF a' 4 0 = Ok [1; 5; 6; 7].
Proof. eexists _, _. repeat split; reflexivity. Qed.

(** past 2^31 elements the growth loop of [_array_ensure_room] cannot
    terminate from a power-of-two capacity: the capacity doubles to 2^31, wraps
    to 0 and stays there. *)
Theorem ensure_room_diverges (new_size k : Z) (Hk : 0 <= k < 32)
    (Hn : 2 ^ 31 < new_size < 2 ^ 32) (fuel : nat) :
  loop fuel (grow_body new_size) (2 ^ k) = Stop NoFuel.
Proof.
  apply (loop_diverges (fun c => c = 0 \/ exists j, 0 <= j < 32 /\ c = 2 ^ j)).
  - intros c Hc. unfold grow_body.
    assert (c <= 2 ^ 31).
    { destruct Hc as [-> | (j & Hj & ->)]; [lia | apply Z.pow_le_mono_r; lia]. }
    destruct (Z.ltb_spec c new_size); [| lia]. eexists. split; [done |].
    destruct Hc as [-> | (j & Hj & ->)]; [by left |].
    replace (2 ^ j * 2) with (2 ^ (j + 1)) by (rewrite Z.pow_add_r by lia; lia).
    destruct (decide (j = 31)) as [->|]; [by left |]. right. exists (j + 1). split; [lia |].
    apply wrap_small. split; [apply Z.pow_nonneg; lia | apply Z.pow_lt_mono_r; lia].
  - right. by exists k.
Qed.

Lemma ensure_room_diverges_witness : (0 <= 4 < 32 /\ 2 ^ 31 < 2 ^ 31 + 1 < 2 ^ 32) /\
  loop 1000 (grow_body (2 ^ 31 + 1)) (2 ^ 4) = Stop NoFuel.
Proof. split; [lia |]. apply (ensure_room_diverges (2 ^ 31 + 1) 4); lia. Defined.
