(* ===== verification/LibC.v ===== *)
(** * Memory and string functions of the C library
      ([src/libc/mem*.c], [src/libc/str*.c], [src/libc/atol.c], ...)

    The memory functions work on one flat byte memory, a list indexed by
    address, so that overlapping source and destination alias as in C. The
    string functions only read; their arguments are the bytes from the pointer
    to the end of the object it points into. [char] is signed, as the x86-64
    System V ABI has it. *)

From S2P Require Import Prelude.

Local Open Scope Z_scope.

(** ** Definitions *)

(** [dest[i] = src[i]] for each index of a list, in the order of the list. *)
Definition copy_at (dest src : Z) (mem : list Z) (i : nat) : res (list Z) :=
  x ← ref mem (src + Z.of_nat i);
  store mem (dest + Z.of_nat i) x.

Definition memcpy (mem : list Z) (dest src n : Z) : res (list Z * Z) :=
  mem ← foldM (copy_at dest src) mem (seq 0 (Z.to_nat n));
  Ok (mem, dest).

Definition memset (mem : list Z) (s c n : Z) : res (list Z * Z) :=
  mem ← foldM (fun mem i => store mem (s + Z.of_nat i) (u8 c)) mem (seq 0 (Z.to_nat n));
  Ok (mem, s).

(** The backward loop counts [ssize_t i] from [n - 1] down to 0. *)
Definition memmove (mem : list Z) (dest src n : Z) : res (list Z * Z) :=
  let dest_end := u64 (dest + n) in
  let src_end := u64 (src + n) in
  mem ← (if (src <? dest_end) && (dest_end <? src_end) then
           foldM (copy_at dest src) mem (seq 0 (Z.to_nat n))
         else if (dest <? src_end) && (src_end <? dest_end) then
           foldM (copy_at dest src) mem (rev (seq 0 (Z.to_nat (i64 (u64 (n - 1)) + 1))))
         else if negb (dest =? src) then
           '(mem, _) ← memcpy mem dest src n; Ok mem
         else Ok mem);
  Ok (mem, dest).

(** [while (s[i] != '\0') i++;] *)
Definition strlen (s : list Z) : res Z :=
  loop (S (length s))
    (fun i => c ← ref s i; if negb (c =? 0) then Ok (inl (u64 (i + 1))) else Ok (inr i)) 0.

(** One comparison of the loops of [strcmp] and [strncmp]: the bytes are
    compared as (signed) [char]s. *)
Definition cmp_char (s1 s2 : list Z) (i : Z) : res (Z + Z) :=
  c1 ← ref s1 i;
  c2 ← ref s2 i;
  if i8 c1 <? i8 c2 then Ok (inr (-1))
  else if i8 c2 <? i8 c1 then Ok (inr 1)
  else if c1 =? 0 then Ok (inr 0)
  else Ok (inl (u64 (i + 1))).

Definition strcmp (s1 s2 : list Z) : res Z :=
  loop (S (length s1)) (cmp_char s1 s2) 0.

Definition strncmp (s1 s2 : list Z) (n : Z) : res Z :=
  loop (S (Z.to_nat n))
    (fun i => if i <? n then cmp_char s1 s2 i else Ok (inr 0)) 0.

(** First loop of [strncpy]: copy while [i < count && src[i] != '\0']. *)
Definition strncpy_copy (src : list Z) (count : Z) (s : list Z * Z) : res (list Z * Z + list Z * Z) :=
  let '(dest, i) := s in
  if i <? count then
    c ← ref src i;
    if negb (c =? 0) then dest ← store dest i c; Ok (inl (dest, u64 (i + 1)))
    else Ok (inr (dest, i))
  else Ok (inr (dest, i)).

(** Second loop: pad with zeros. *)
Definition strncpy_pad (count : Z) (s : list Z * Z) : res (list Z * Z + list Z) :=
  let '(dest, i) := s in
  if i <? count then dest ← store dest i 0; Ok (inl (dest, u64 (i + 1)))
  else Ok (inr dest).

Definition strncpy (dest src : list Z) (count : Z) : res (list Z) :=
  s ← loop (S (Z.to_nat count)) (strncpy_copy src count) (dest, 0);
  loop (S (Z.to_nat count)) (strncpy_pad count) s.

(** [strndup]: [n] bytes of [s] and a terminator. *)
Definition strndup (s : list Z) (n : Z) : res (list Z) :=
  if (0 <=? n) && (n <=? Z.of_nat (length s)) then Ok (take (Z.to_nat n) s ++ [0]) else Stop Undef.
Definition strdup (s : list Z) : res (list Z) := n ← strlen s; strndup s n.

Definition isdigit (c : Z) : bool := (48 <=? c) && (c <=? 57).
Definition tolower (c : Z) : Z := if (65 <=? c) && (c <=? 90) then c + (97 - 65) else c.
Definition abs (n : Z) : Z := if n <? 0 then i32 (- n) else n.

Definition atol (nptr : list Z) : res Z :=
  loop (S (length nptr))
    (fun '(i, x) =>
       c ← ref nptr i;
       if (48 <=? i8 c) && (i8 c <=? 57)
       then Ok (inl (u64 (i + 1), i64 (i64 (x * 10) + (i8 c - 48)))) else Ok (inr x)) (0, 0).

(** The xorshift generator behind [rand]: the new seed and the returned int. *)
Definition rand (seed : Z) : Z * Z :=
  let seed := Z.lxor seed (u64 (Z.shiftl seed 21)) in
  let seed := Z.lxor seed (Z.shiftr seed 35) in
  let seed := Z.lxor seed (u64 (Z.shiftl seed 4)) in
  (seed, i32 seed).
Definition srand (seed : Z) : Z := u32 seed.

(** ** Specification *)

(** [mem'] is [mem] with [n] bytes from [src] copied to [dest]; everything else
    is unchanged and the copied bytes are those of [mem]. *)
Definition moved (mem mem' : list Z) (dest src n : Z) : Prop :=
  length mem' = length mem /\
  forall j, 0 <= j -> mem' !! Z.to_nat j =
    if (dest <=? j) && (j <? dest + n) then mem !! Z.to_nat (src + (j - dest)) else mem !! Z.to_nat j.

Definition in_mem (mem : list Z) (p n : Z) : Prop :=
  0 <= p /\ 0 <= n /\ p + n <= Z.of_nat (length mem).

(** [s] is the NUL-terminated string of the nonzero bytes [l]. *)
Definition cstr (s l : list Z) : Prop :=
  Forall (fun c => 0 < c < 256) l /\ exists rest, s = l ++ 0 :: rest.

(** ** Lemmas *)

(** Copying the indices of [ks] in an order that never reads a byte already
    overwritten. *)
Lemma copy_list_spec mem dest src n (ks : list nat) : in_mem mem dest n -> in_mem mem src n ->
  NoDup ks -> (forall i, i ∈ ks -> Z.of_nat i < n) ->
  (forall pre i rest, ks = pre ++ i :: rest ->
     forall d, d ∈ pre -> dest + Z.of_nat d <> src + Z.of_nat i) ->
  exists mem', foldM (copy_at dest src) mem ks = Ok mem' /\ length mem' = length mem /\
    forall j, 0 <= j -> mem' !! Z.to_nat j =
      if decide (dest <= j /\ Z.to_nat (j - dest) ∈ ks)
      then mem !! Z.to_nat (src + (j - dest)) else mem !! Z.to_nat j.
Proof.
  intros (Hd & Hn & Hde) (Hs & _ & Hse). induction ks as [|i ks IH] using rev_ind; intros Hnd Hin Hsafe.
  - exists mem. split; [done |]. split; [done |]. intros j Hj.
    destruct (decide _) as [[_ H]|]; [by apply not_elem_of_nil in H | done].
  - apply list.NoDup_app in Hnd as (Hnd & Hdisj & _).
    destruct IH as (mem1 & E1 & L1 & H1).
    + done.
    + intros k Hk. apply Hin, elem_of_app. by left.
    + intros pre k rest -> d Hdd. apply (Hsafe pre k (rest ++ [i])); [by rewrite <- app_assoc | done].
    + assert (Hi : Z.of_nat i < n) by (apply Hin, elem_of_app; right; by apply list_elem_of_singleton).
      rewrite foldM_app, E1. cbn [mbind res_bind foldM]. unfold copy_at.
      destruct (ref_lt mem1 (src + Z.of_nat i) ltac:(lia)) as [x Ex]. rewrite Ex. cbn [mbind res_bind].
      rewrite store_Ok by lia. cbn [mbind res_bind].
      eexists. split; [done |]. split; [by rewrite length_insert |]. intros j Hj.
      apply ref_Ok in Ex as [_ Ex]. rewrite H1 in Ex by lia.
      destruct (decide (_ /\ _)) as [[Hle Hm]|_] in Ex.
      { exfalso. apply (Hsafe ks i [] eq_refl _ Hm). lia. }
      destruct (decide (j = dest + Z.of_nat i)) as [->|Hne].
      * rewrite list_lookup_insert_eq by lia. destruct (decide _) as [_|Hno].
        { rewrite <- Ex. f_equal. lia. }
        exfalso. apply Hno. split; [lia |]. apply elem_of_app. right.
        apply list_elem_of_singleton. lia.
      * rewrite list_lookup_insert_ne, H1 by lia.
        assert (Hiff : (dest <= j /\ Z.to_nat (j - dest) ∈ ks ++ [i]) <->
                       (dest <= j /\ Z.to_nat (j - dest) ∈ ks)).
        { rewrite elem_of_app, list_elem_of_singleton.
          split; intros [Hle Hm]; (split; [lia |]); [destruct Hm; [done | lia] | by left]. }
        destruct (decide (_ /\ _)), (decide (_ /\ _)); tauto.
Qed.

Lemma seq_range_elem dest n j : 0 <= n -> 0 <= j ->
  (dest <= j /\ Z.to_nat (j - dest) ∈ seq 0 (Z.to_nat n)) <-> (dest <=? j) && (j <? dest + n) = true.
Proof. intros. rewrite elem_of_seq, andb_true_iff, Z.leb_le, Z.ltb_lt. lia. Qed.

(** A loop over all indices below [n], in a safe order, moves the bytes. *)
Lemma copy_moved mem dest src n ks : in_mem mem dest n -> in_mem mem src n ->
  ks ≡ₚ seq 0 (Z.to_nat n) ->
  (forall pre i rest, ks = pre ++ i :: rest ->
     forall d, d ∈ pre -> dest + Z.of_nat d <> src + Z.of_nat i) ->
  exists mem', foldM (copy_at dest src) mem ks = Ok mem' /\ moved mem mem' dest src n.
Proof.
  intros Hd Hs Hp Hsafe.
  destruct (copy_list_spec mem dest src n ks Hd Hs) as (mem' & E & L & H).
  - rewrite Hp. apply NoDup_seq.
  - intros i. rewrite Hp, elem_of_seq. destruct Hd. lia.
  - done.
  - exists mem'. split; [done |]. split; [done |]. intros j Hj. rewrite H by done.
    assert (Hiff : (dest <= j /\ Z.to_nat (j - dest) ∈ ks) <-> (dest <=? j) && (j <? dest + n) = true).
    { rewrite Hp. apply seq_range_elem; [destruct Hd; lia | done]. }
    destruct (decide _) as [Hy|Hno].
    + by apply Hiff in Hy as ->.
    + destruct ((dest <=? j) && (j <? dest + n)); [| done]. exfalso. tauto.
Qed.

Lemma seq_order pre i rest n : seq 0 n = pre ++ i :: rest -> (forall d, d ∈ pre -> (d < i)%nat) /\ (i < n)%nat.
Proof.
  intros E.
  assert (Hi : seq 0 n !! length pre = Some i) by (rewrite E; apply list_lookup_middle; done).
  apply lookup_seq in Hi as [-> Hi]. cbn. split; [| done].
  intros d [k Hk]%list_elem_of_lookup. pose proof (lookup_lt_Some _ _ _ Hk).
  assert (Hs : seq 0 n !! k = Some d) by (rewrite E, lookup_app_l; done).
  apply lookup_seq in Hs as [-> _]. cbn. done.
Qed.

Lemma forward_moved mem dest src n : in_mem mem dest n -> in_mem mem src n ->
  dest <= src \/ src + n <= dest ->
  exists mem', foldM (copy_at dest src) mem (seq 0 (Z.to_nat n)) = Ok mem' /\ moved mem mem' dest src n.
Proof.
  intros Hd Hs Ho. apply copy_moved; [done | done | done |].
  intros pre i rest E d Hdp. destruct (seq_order pre i rest _ E) as [Hlt Hi].
  specialize (Hlt d Hdp). lia.
Qed.

Lemma backward_moved mem dest src n : in_mem mem dest n -> in_mem mem src n -> src <= dest ->
  exists mem', foldM (copy_at dest src) mem (rev (seq 0 (Z.to_nat n))) = Ok mem' /\
    moved mem mem' dest src n.
Proof.
  intros Hd Hs Ho. apply copy_moved; [done | done | symmetry; apply Permutation_rev |].
  intros pre i rest E d Hdp. apply (f_equal (@rev nat)) in E.
  rewrite rev_involutive, rev_app_distr in E. cbn in E. rewrite <- app_assoc in E.
  destruct (seq_order (rev rest) i (rev pre) _ E) as [_ Hi].
  assert (Hd' : d ∈ rev pre) by (by rewrite list_elem_of_In, <- in_rev, <- list_elem_of_In).
  assert (i < d)%nat; [| lia].
  apply list_elem_of_lookup in Hd' as [k Hk].
  assert (E1 : seq 0 (Z.to_nat n) !! (length (rev rest)) = Some i) by (rewrite E; by apply list_lookup_middle).
  assert (E2 : seq 0 (Z.to_nat n) !! (length (rev rest) + S k)%nat = Some d).
  { rewrite E, lookup_app_r by lia.
    by replace (length (rev rest) + S k - length (rev rest))%nat with (S k) by lia. }
  apply lookup_seq in E1 as [-> _]. apply lookup_seq in E2 as [-> _]. lia.
Qed.

Lemma memmove_moved mem dest src n : in_mem mem dest n -> in_mem mem src n ->
  Z.of_nat (length mem) < 2 ^ 63 ->
  exists mem', memmove mem dest src n = Ok (mem', dest) /\ moved mem mem' dest src n.
Proof.
  intros Hd Hs Hm. unfold memmove, memcpy.
  pose proof Hd as (Hd0 & Hn & Hd1). pose proof Hs as (Hs0 & _ & Hs1).
  rewrite !(wrap_small 64) by lia.
  destruct (Z.ltb_spec src (dest + n)), (Z.ltb_spec (dest + n) (src + n)); cbn [andb].
  1: { destruct (forward_moved mem dest src n Hd Hs ltac:(lia)) as (m & -> & H'). by exists m. }
  all: destruct (Z.ltb_spec dest (src + n)), (Z.ltb_spec (src + n) (dest + n)); cbn [andb].
  all: try (rewrite (wrap_small 64 (n - 1)), i64_small by lia;
    replace (n - 1 + 1) with n by lia;
    destruct (backward_moved mem dest src n Hd Hs ltac:(lia)) as (m & -> & H'); by exists m).
  all: destruct (Z.eqb_spec dest src) as [->|]; cbn [negb mbind res_bind].
  all: try (exists mem; split; [done |]; split; [done |]; intros j Hj;
    by destruct (_ && _); [f_equal; lia |]).
  all: destruct (forward_moved mem dest src n Hd Hs ltac:(lia)) as (m & -> & H'); by exists m.
Qed.

Lemma cstr_nth s l i : cstr s l -> 0 <= i < Z.of_nat (length l) ->
  exists c, ref s i = Ok c /\ l !! Z.to_nat i = Some c /\ 0 < c < 256.
Proof.
  intros [Hl [rest ->]] Hi.
  destruct (lookup_lt_is_Some_2 l (Z.to_nat i) ltac:(lia)) as [c Hc]. exists c.
  split; [| split; [done | by eapply Forall_lookup_1 in Hl]].
  apply ref_Ok. split; [lia |]. by apply lookup_app_l_Some.
Qed.

Lemma cstr_end s l : cstr s l -> ref s (Z.of_nat (length l)) = Ok 0.
Proof. intros [_ [rest ->]]. apply ref_Ok. split; [lia |]. rewrite Nat2Z.id. by apply list_lookup_middle. Qed.

Lemma cstr_length s l : cstr s l -> (length l < length s)%nat.
Proof. intros [_ [rest ->]]. rewrite length_app. cbn. lia. Qed.

Lemma strlen_cstr s l : cstr s l -> Z.of_nat (length l) < 2 ^ 64 -> strlen s = Ok (Z.of_nat (length l)).
Proof.
  intros Hs Hl. unfold strlen.
  destruct (loop_total (fun i => 0 <= i <= Z.of_nat (length l)) (fun i => Z.to_nat (Z.of_nat (length l) - i))
    (fun r => r = Z.of_nat (length l))
    (fun i => c ← ref s i; if negb (c =? 0) then Ok (inl (u64 (i + 1))) else Ok (inr i)))
    with (fuel := S (length s)) (s := 0) as (r & E & ->).
  - intros i Hi. destruct (decide (i = Z.of_nat (length l))) as [->|].
    + rewrite (cstr_end s l Hs). exists (inr (Z.of_nat (length l))). done.
    + destruct (cstr_nth s l i Hs ltac:(lia)) as (c & -> & _ & Hc). cbn [mbind res_bind].
      destruct (Z.eqb_spec c 0); [lia |]. cbn [negb]. rewrite wrap_small by lia.
      eexists. split; [done |]. cbn. lia.
  - lia.
  - pose proof (cstr_length s l Hs). lia.
  - done.
Qed.

(** The byte at index [i] of a string, its terminator included. *)
Definition byte_at (l : list Z) (i : Z) : Z := default 0 (l !! Z.to_nat i).

Lemma cstr_ref s l i : cstr s l -> 0 <= i <= Z.of_nat (length l) ->
  ref s i = Ok (byte_at l i) /\ 0 <= byte_at l i < 256 /\
  (byte_at l i = 0 <-> i = Z.of_nat (length l)).
Proof.
  intros Hs Hi. unfold byte_at. destruct (decide (i = Z.of_nat (length l))) as [->|].
  - rewrite (cstr_end s l Hs), Nat2Z.id, lookup_ge_None_2 by done. cbn. done.
  - destruct (cstr_nth s l i Hs ltac:(lia)) as (c & -> & -> & Hc). cbn. split; [done |]. lia.
Qed.

Lemma i8_byte_inj a b : 0 <= a < 256 -> 0 <= b < 256 -> i8 a = i8 b -> a = b.
Proof.
  intros Ha Hb E. rewrite <- (wrap_small 8 a), <- (wrap_small 8 b) by lia.
  rewrite <- (wrap_sgn 8 a), <- (wrap_sgn 8 b), E by lia. done.
Qed.

(** The result of comparing two strings at their first difference (or at the
    bound [n]). *)
Definition first_diff (l1 l2 : list Z) (n r : Z) : Prop :=
  (r = 0 /\ exists k, 0 <= k <= n /\ (forall j, 0 <= j < k -> byte_at l1 j = byte_at l2 j) /\
     (k = n \/ (byte_at l1 k = 0 /\ byte_at l2 k = 0))) \/
  (exists k, 0 <= k < n /\ (forall j, 0 <= j < k -> byte_at l1 j = byte_at l2 j) /\
     byte_at l1 k <> byte_at l2 k /\ r = if i8 (byte_at l1 k) <? i8 (byte_at l2 k) then -1 else 1).

(** State of the comparison loops: everything before [i] is equal and nonzero. *)
Definition cmp_inv (l1 l2 : list Z) (i : Z) : Prop :=
  0 <= i <= Z.of_nat (length l1) /\ i <= Z.of_nat (length l2) /\
  forall j, 0 <= j < i -> byte_at l1 j = byte_at l2 j.

Lemma cmp_char_step s1 s2 l1 l2 i n : cstr s1 l1 -> cstr s2 l2 ->
  Z.of_nat (length s1) < 2 ^ 64 -> cmp_inv l1 l2 i -> i < n ->
  exists r, cmp_char s1 s2 i = Ok r /\
    match r with
    | inl i' => i' = i + 1 /\ cmp_inv l1 l2 i' /\ i < Z.of_nat (length l1)
    | inr x => first_diff l1 l2 n x
    end.
Proof.
  intros H1 H2 Hlen (Hi1 & Hi2 & Heq) Hin. unfold cmp_char.
  destruct (cstr_ref s1 l1 i H1 ltac:(lia)) as (-> & Hb1 & Hz1).
  destruct (cstr_ref s2 l2 i H2 ltac:(lia)) as (-> & Hb2 & Hz2). cbn [mbind res_bind].
  pose proof (cstr_length s1 l1 H1).
  destruct (Z.ltb_spec (i8 (byte_at l1 i)) (i8 (byte_at l2 i))) as [Hlt|Hge].
  { eexists. split; [done |]. right. exists i. repeat (split; [done || lia |]). cbn.
    split; [intros E; rewrite E in Hlt; lia |]. by destruct (Z.ltb_spec (i8 (byte_at l1 i)) (i8 (byte_at l2 i))); [| lia]. }
  destruct (Z.ltb_spec (i8 (byte_at l2 i)) (i8 (byte_at l1 i))) as [Hlt|Hge'].
  { eexists. split; [done |]. right. exists i. repeat (split; [done || lia |]). cbn.
    split; [intros E; rewrite E in Hlt; lia |]. by destruct (Z.ltb_spec (i8 (byte_at l1 i)) (i8 (byte_at l2 i))); [lia |]. }
  assert (E : byte_at l1 i = byte_at l2 i) by (apply i8_byte_inj; lia).
  destruct (Z.eqb_spec (byte_at l1 i) 0) as [Hz|Hnz].
  { eexists. split; [done |]. left. split; [done |]. exists i. repeat (split; [done || lia |]).
    right. split; lia. }
  rewrite wrap_small by lia. eexists. split; [done |]. cbn.
  assert (i <> Z.of_nat (length l1)) by tauto.
  assert (i <> Z.of_nat (length l2)) by (rewrite <- Hz2; congruence).
  split; [done |]. split; [| lia]. split; [lia |]. split; [lia |].
  intros j Hj. destruct (decide (j = i)) as [->|]; [done | apply Heq; lia].
Qed.

Lemma strcmp_cstr s1 s2 l1 l2 : cstr s1 l1 -> cstr s2 l2 -> Z.of_nat (length s1) < 2 ^ 64 ->
  exists r, strcmp s1 s2 = Ok r /\ first_diff l1 l2 (Z.of_nat (length s1)) r.
Proof.
  intros H1 H2 Hlen. unfold strcmp. pose proof (cstr_length s1 l1 H1).
  apply (loop_total (cmp_inv l1 l2) (fun i => Z.to_nat (Z.of_nat (length l1) - i))).
  - intros i Hi. destruct (cmp_char_step s1 s2 l1 l2 i (Z.of_nat (length s1)) H1 H2 Hlen Hi)
      as (r & E & Hr); [destruct Hi; lia |].
    exists r. split; [done |]. destruct r as [i'|x]; [| done].
    destruct Hr as (-> & Hi' & Hlt). split; [done |]. destruct Hi; lia.
  - split; [lia |]. split; [lia |]. intros; lia.
  - lia.
Qed.

Lemma strncmp_cstr s1 s2 l1 l2 n : cstr s1 l1 -> cstr s2 l2 -> Z.of_nat (length s1) < 2 ^ 64 ->
  0 <= n -> exists r, strncmp s1 s2 n = Ok r /\ first_diff l1 l2 n r.
Proof.
  intros H1 H2 Hlen Hn. unfold strncmp.
  apply (loop_total (fun i => cmp_inv l1 l2 i /\ i <= n) (fun i => Z.to_nat (n - i))).
  - intros i [Hi Hin]. destruct (Z.ltb_spec i n).
    + destruct (cmp_char_step s1 s2 l1 l2 i n H1 H2 Hlen Hi ltac:(lia)) as (r & E & Hr).
      exists r. split; [done |]. destruct r as [i'|x]; [| done].
      destruct Hr as (-> & Hi' & Hlt). split; [split; [done | lia] |]. destruct Hi; lia.
    + assert (i = n) as -> by lia. exists (inr 0). split; [done |]. left. split; [done |].
      exists n. destruct Hi as (? & ? & ?). repeat (split; [done || lia |]). by left.
  - split; [| lia]. split; [lia |]. split; [lia |]. intros; lia.
  - lia.
Qed.

Lemma byte_at_ext l1 l2 : Forall (fun c => 0 < c < 256) l1 -> Forall (fun c => 0 < c < 256) l2 ->
  (forall j, 0 <= j -> byte_at l1 j = byte_at l2 j) -> l1 = l2.
Proof.
  intros H1 H2 E. apply list_eq. intros i. specialize (E (Z.of_nat i) ltac:(lia)).
  unfold byte_at in E. rewrite Nat2Z.id in E.
  destruct (l1 !! i) eqn:E1, (l2 !! i) eqn:E2; cbn in E; try done; subst; try done; exfalso.
  - eapply Forall_lookup_1 in E1; [| exact H1]. cbn in E1. lia.
  - eapply Forall_lookup_1 in E2; [| exact H2]. cbn in E2. lia.
Qed.

(** A zero result on NUL-free strings of which the first is shorter than the
    bound means equality. *)
Lemma first_diff_zero l1 l2 n r : Forall (fun c => 0 < c < 256) l1 -> Forall (fun c => 0 < c < 256) l2 ->
  first_diff l1 l2 n r -> Z.of_nat (length l1) < n -> (r = 0 <-> l1 = l2).
Proof.
  intros F1 F2 H Hn1.
  assert (Hzero : forall l k, Forall (fun c => 0 < c < 256) l -> 0 <= k -> byte_at l k = 0 ->
            forall j, k <= j -> byte_at l j = 0).
  { intros l k F Hk Hz j Hj. unfold byte_at in *. destruct (l !! Z.to_nat k) eqn:E; cbn in Hz.
    - eapply Forall_lookup_1 in E; [| done]. cbn in E. lia.
    - apply lookup_ge_None_1 in E. rewrite lookup_ge_None_2; [done | lia]. }
  split; intros Hr.
  - destruct H as [(_ & k & Hk & Heq & Hend) | (k & _ & _ & _ & ->)]; [| by destruct (_ <? _)].
    apply byte_at_ext; [done | done |]. intros j Hj.
    destruct (Z.lt_ge_cases j k); [apply Heq; lia |].
    destruct Hend as [-> | [Hz1 Hz2]].
    + assert (Z0 : byte_at l1 (Z.of_nat (length l1)) = 0)
        by (unfold byte_at; rewrite lookup_ge_None_2; [done | lia]).
      rewrite (Hzero l1 (Z.of_nat (length l1))), (Hzero l2 (Z.of_nat (length l1)));
        try done; try lia. rewrite <- Heq; [done | lia].
    + rewrite (Hzero l1 k), (Hzero l2 k); done || lia.
  - destruct H as [[-> _]|(k & _ & _ & Hne & _)]; [done |]. by subst.
Qed.

(** ** Properties *)

(** C37: [memmove] is correct for every overlap. For source and destination
    ranges inside the memory, in any relative position, it terminates, returns
    the destination, and the new memory holds the old source bytes at the
    destination and is unchanged elsewhere. *)
Theorem memmove_correct (mem : list Z) (dest src n : Z)
    (Hd : in_mem mem dest n) (Hs : in_mem mem src n) (Hm : Z.of_nat (length mem) < 2 ^ 63) :
  exists mem', memmove mem dest src n = Ok (mem', dest) /\ moved mem mem' dest src n.
Proof. by apply memmove_moved. Qed.

Lemma memmove_correct_witness :
  (in_mem [1; 2; 3; 4; 5] 1 3 /\ in_mem [1; 2; 3; 4; 5] 0 3) /\
  exists mem', memmove [1; 2; 3; 4; 5] 1 0 3 = Ok (mem', 1) /\ mem' = [1; 1; 2; 3; 5].
Proof.
  assert (H1 : in_mem [1; 2; 3; 4; 5] 1 3) by (unfold in_mem; cbn; lia).
  assert (H2 : in_mem [1; 2; 3; 4; 5] 0 3) by (unfold in_mem; cbn; lia).
  split; [done |].
  destruct (memmove_correct [1; 2; 3; 4; 5] 1 0 3 H1 H2 ltac:(cbn; lia)) as (mem' & E & _).
  exists mem'. split; [exact E |]. vm_compute in E. injection E as <-. reflexivity.
Defined.

(** [strcmp] on two NUL-terminated strings terminates without reading past
    either terminator; the result is zero exactly for equal strings, and
    otherwise is decided by the first differing bytes, compared as signed chars. *)
Theorem strcmp_correct (s1 s2 l1 l2 : list Z) (H1 : cstr s1 l1) (H2 : cstr s2 l2)
    (Hlen : Z.of_nat (length s1) < 2 ^ 64) :
  exists r, strcmp s1 s2 = Ok r /\
    (r = 0 <-> l1 = l2) /\ first_diff l1 l2 (Z.of_nat (length s1)) r.
Proof.
  destruct (strcmp_cstr s1 s2 l1 l2 H1 H2 Hlen) as (r & E & Hr). exists r.
  split; [done |]. split; [| done]. pose proof (cstr_length s1 l1 H1).
  apply (first_diff_zero l1 l2 (Z.of_nat (length s1)));
    [apply H1 | apply H2 | done | lia].
Qed.

Lemma strcmp_correct_witness :
  (cstr [97; 98; 0] [97; 98] /\ cstr [97; 99; 0] [97; 99]) /\
  exists r, strcmp [97; 98; 0] [97; 99; 0] = Ok r /\ (r = 0 <-> [97; 98] = [97; 99]).
Proof.
  assert (H1 : cstr [97; 98; 0] [97; 98]) by (split; [repeat constructor; lia | by exists []]).
  assert (H2 : cstr [97; 99; 0] [97; 99]) by (split; [repeat constructor; lia | by exists []]).
  split; [done |].
  destruct (strcmp_correct _ _ _ _ H1 H2 ltac:(cbn; lia)) as (r & E & Hr & _).
  exists r. split; [exact E | exact Hr].
Defined.

(** comparing as signed chars orders bytes from 0x80 up before ASCII: C99
    7.21.4 asks for the bytes to be compared as unsigned chars, under which
    "\x80" is greater than "a". *)
Theorem strcmp_high_bytes_below_ascii : strcmp [0x80; 0] [97; 0] = Ok (-1).
Proof. reflexivity. Qed.
