(* ===== verification/Strings.v ===== *)
(** * Strings with a length ([src/src/strings.h], [src/src/strings.c])

    A [String] is a pointer into some object and a length; names throughout the
    compiler are such strings. [chars] is the object from the pointer on. *)

From S2P Require Import Prelude Array LibC.

Local Open Scope Z_scope.

(** ** Definitions *)

(** [None] is the NULL pointer. *)
Record String := mkString { chars : option (list Z); len : Z }.

Definition INVALID_STRING : String := mkString None (u32 (-1)).
Definition EMPTY_STRING : String := mkString None 0.

Definition is_valid (str : String) : bool :=
  negb (match chars str with None => len str =? u32 (-1) | Some _ => false end).

Definition streq (a b : list Z) : res bool := r ← strcmp a b; Ok (r =? 0).
Definition strneq (a b : list Z) (length : Z) : res bool := r ← strncmp a b length; Ok (r =? 0).

(** The bytes behind [chars]; dereferencing NULL is undefined, which [ref] on no
    bytes gives. *)
Definition char_bytes (s : String) : list Z := default [] (chars s).

Definition string_eq (a b : String) : res bool :=
  if negb (len a =? len b) then Ok false else strneq (char_bytes a) (char_bytes b) (len a).

(** [memcpy(result, str.chars, str.len)] reads [len] bytes. *)
Definition string_bytes (str : String) : res (list Z) :=
  read_block (char_bytes str) 0 (len str).

Definition string_dup (str : String) : res String :=
  l ← string_bytes str; Ok (mkString (Some l) (len str)).

Section Heap.
Context (junk : nat -> Z).

(** [malloc(str.len + 1)] is a u32 sum. *)
Definition string_to_c_string (str : String) : res (list Z) :=
  let result := malloc_block junk (u32 (len str + 1)) in
  l ← string_bytes str;
  result ← write_block result 0 l;
  store result (len str) 0.

Definition string_concat (str_a str_b : String) : res String :=
  let result_length := u32 (len str_a + len str_b) in
  let result := malloc_block junk (u32 (result_length + 1)) in
  a ← string_bytes str_a;
  result ← write_block result 0 a;
  b ← string_bytes str_b;
  result ← write_block result (len str_a) b;
  result ← store result result_length 0;
  Ok (mkString (Some result) result_length).

End Heap.

(** ** Specification *)

(** [str] holds exactly the NUL-free bytes [l]. *)
Definition string_is (str : String) (l : list Z) : Prop :=
  len str = Z.of_nat (length l) /\ Forall (fun c => 0 < c < 256) l /\
  exists rest, char_bytes str = l ++ rest.

(** ** Lemmas *)

Lemma string_is_ref s l i : string_is s l -> 0 <= i < len s ->
  exists c, ref (char_bytes s) i = Ok c /\ l !! Z.to_nat i = Some c /\ 0 < c < 256.
Proof.
  intros (Hlen & HF & rest & Hc) Hi.
  destruct (lookup_lt_is_Some_2 l (Z.to_nat i) ltac:(lia)) as [c E]. exists c.
  split; [| split; [done | by eapply Forall_lookup_1 in HF]].
  apply ref_Ok. split; [lia |]. rewrite Hc. by apply lookup_app_l_Some.
Qed.

Lemma string_eq_correct a b la lb : string_is a la -> string_is b lb -> len a < 2 ^ 32 ->
  string_eq a b = Ok (bool_decide (la = lb)).
Proof.
  intros Ha Hb Hsz. pose proof Ha as (Hla & Fa & _). pose proof Hb as (Hlb & Fb & _).
  unfold string_eq. destruct (Z.eqb_spec (len a) (len b)) as [E|Hne]; cbn [negb].
  2: { rewrite bool_decide_eq_false_2; [done |]. intros ->. lia. }
  unfold strneq, strncmp.
  destruct (loop_total
    (fun i => 0 <= i <= len a /\ forall j, 0 <= j < i -> la !! Z.to_nat j = lb !! Z.to_nat j)
    (fun i => Z.to_nat (len a - i)) (fun r => r = 0 <-> la = lb)
    (fun i => if i <? len a then cmp_char (char_bytes a) (char_bytes b) i else Ok (inr 0)))
    with (fuel := S (Z.to_nat (len a))) (s := 0) as (r & -> & Hr).
  - intros i [Hi Heq]. destruct (Z.ltb_spec i (len a)).
    + unfold cmp_char.
      destruct (string_is_ref a la i Ha ltac:(lia)) as (c1 & -> & E1 & B1).
      destruct (string_is_ref b lb i Hb ltac:(lia)) as (c2 & -> & E2 & B2). cbn [mbind res_bind].
      assert (Hdiff : forall x, i8 c1 <> i8 c2 -> x <> 0 -> (x = 0 <-> la = lb)).
      { intros x Hc Hx. split; [done |]. intros ->. congruence. }
      destruct (Z.ltb_spec (i8 c1) (i8 c2)); [eexists; split; [done |]; apply Hdiff; lia |].
      destruct (Z.ltb_spec (i8 c2) (i8 c1)); [eexists; split; [done |]; apply Hdiff; lia |].
      assert (c1 = c2) as -> by (apply i8_byte_inj; lia).
      destruct (Z.eqb_spec c2 0); [lia |]. rewrite wrap_small by lia.
      eexists. split; [done |]. cbn. split; [split; [lia |] | lia].
      intros j Hj. destruct (decide (j = i)) as [->|]; [congruence | apply Heq; lia].
    + exists (inr 0). split; [done |]. split; [intros _ | done].
      apply list_eq. intros k. destruct (decide (k < length la)%nat).
      * specialize (Heq (Z.of_nat k) ltac:(lia)). by rewrite Nat2Z.id in Heq.
      * rewrite !lookup_ge_None_2 by lia. done.
  - split; [lia |]. intros; lia.
  - lia.
  - cbn. f_equal. destruct (Z.eqb_spec r 0); symmetry;
      [apply bool_decide_eq_true_2 | apply bool_decide_eq_false_2]; tauto.
Qed.

Lemma string_bytes_is s l : string_is s l -> string_bytes s = Ok l.
Proof.
  intros (Hl & _ & rest & Hc). unfold string_bytes.
  rewrite read_block_Ok by (rewrite ?Hc, ?length_app; lia).
  by rewrite Hc, drop_0, take_app_length' by lia.
Qed.

Lemma write_block_app (pre d old rest : list Z) : length old = length d ->
  write_block (pre ++ old ++ rest) (Z.of_nat (length pre)) d = Ok (pre ++ d ++ rest).
Proof.
  intros E. rewrite write_block_Ok by (rewrite ?length_app; lia). f_equal. unfold blit.
  rewrite Nat2Z.id, take_app_length, drop_app_add, <- E, drop_app_length. done.
Qed.

Lemma split_block (b : list Z) n m : length b = (n + m + 1)%nat ->
  exists x y z, b = x ++ y ++ [z] /\ length x = n /\ length y = m.
Proof.
  intros E. destruct b as [|z b' _] using rev_ind; [cbn in E; lia |].
  rewrite length_app in E. cbn in E. exists (take n b'), (drop n b'), z.
  rewrite app_assoc, take_drop, length_take, length_drop. split; [done |]. lia.
Qed.

(** ** Properties *)

(** on NUL-free strings [string_eq] decides equality of the contents (it
    terminates and stays inside both objects, which need not be terminated). *)
Theorem string_eq_decides (a b : String) (la lb : list Z)
    (Ha : string_is a la) (Hb : string_is b lb) (Hsz : len a < 2 ^ 32) :
  string_eq a b = Ok (bool_decide (la = lb)).
Proof. by apply string_eq_correct. Qed.

Lemma string_eq_decides_witness :
  (string_is (mkString (Some [97; 98; 99]) 2) [97; 98] /\
   string_is (mkString (Some [97; 98]) 2) [97; 98]) /\
  string_eq (mkString (Some [97; 98; 99]) 2) (mkString (Some [97; 98]) 2) = Ok true.
Proof.
  assert (H1 : string_is (mkString (Some [97; 98; 99]) 2) [97; 98]).
  { split; [done |]. split; [repeat constructor; lia | by exists [99]]. }
  assert (H2 : string_is (mkString (Some [97; 98]) 2) [97; 98]).
  { split; [done |]. split; [repeat constructor; lia | by exists []]. }
  split; [done |].
  exact (string_eq_decides _ _ _ _ H1 H2 ltac:(cbn; lia)).
Defined.

(** [string_concat] returns the concatenation of the two contents, NUL
    terminated, when the sum of the lengths fits in 32 bits. *)
Theorem string_concat_correct (junk : nat -> Z) (a b : String) (la lb : list Z)
    (Ha : string_is a la) (Hb : string_is b lb) (Hsz : len a + len b + 1 < 2 ^ 32) :
  exists r, string_concat junk a b = Ok r /\ string_is r (la ++ lb) /\
    char_bytes r = la ++ lb ++ [0].
Proof.
  pose proof Ha as (Hla & Fa & _). pose proof Hb as (Hlb & Fb & _).
  unfold string_concat. rewrite (string_bytes_is a la Ha), (string_bytes_is b lb Hb).
  rewrite (wrap_small 32 (len a + len b)), wrap_small by lia. cbn [mbind res_bind].
  destruct (split_block (malloc_block junk (len a + len b + 1)) (length la) (length lb))
    as (x & y & z & -> & Hx & Hy).
  { unfold malloc_block. rewrite length_fmap, length_seq. lia. }
  pose proof (write_block_app [] la x (y ++ [z]) Hx) as W1. cbn in W1. change (Z.of_nat 0) with 0 in W1. rewrite W1. cbn [mbind res_bind].
  rewrite Hla, (write_block_app la lb y [z] Hy). cbn [mbind res_bind].
  rewrite app_assoc, store_Ok by (rewrite !length_app; cbn; lia). cbn [mbind res_bind].
  rewrite insert_app_r_alt by (rewrite length_app; lia).
  replace (Z.to_nat (Z.of_nat (length la) + len b) - length (la ++ lb))%nat with 0%nat
    by (rewrite length_app; lia).
  eexists. split; [done |]. cbn. split; [| by rewrite app_assoc].
  split; [cbn; rewrite length_app; lia |]. split; [by apply Forall_app |].
  exists [0]. done.
Qed.

Lemma string_concat_correct_witness :
  (string_is (mkString (Some [97; 98]) 2) [97; 98] /\ string_is (mkString (Some [99; 7]) 1) [99]) /\
  exists r, string_concat (fun _ => 5) (mkString (Some [97; 98]) 2) (mkString (Some [99; 7]) 1) = Ok r /\
    char_bytes r = [97; 98; 99; 0].
Proof.
  assert (H1 : string_is (mkString (Some [97; 98]) 2) [97; 98]).
  { split; [done |]. split; [repeat constructor; lia | by exists []]. }
  assert (H2 : string_is (mkString (Some [99; 7]) 1) [99]).
  { split; [done |]. split; [repeat constructor; lia | by exists [7]]. }
  split; [done |].
  destruct (string_concat_correct (fun _ => 5) _ _ _ _ H1 H2 ltac:(cbn; lia)) as (r & E & _ & Hr).
  exists r. split; [exact E | exact Hr].
Defined.
