(* ===== verification/Printf.v ===== *)
(** * Formatted output of the C library
      ([src/libc/printf_impl.c], [src/libc/string_sink.c], [src/libc/snprintf.c],
       [src/libc/sprintf.c], [src/libc/vsnprintf.c])

    A sink is a function on some state that takes a character and returns the
    new state and an error code; [printf_impl] is parametric in it. The argument
    list is the list of the 64-bit slots and string pointers passed. *)

From S2P Require Import Prelude Array LibC.

Local Open Scope Z_scope.

(** ** Definitions *)

(** What [va_arg] finds: an integer slot, or a pointer to the bytes of a string. *)
Inductive va_value :=
| VaInt (x : Z)
| VaStr (s : list Z).

Definition va_int (ap : list va_value) : res (Z * list va_value) :=
  match ap with VaInt x :: ap => Ok (x, ap) | _ => Stop Undef end.
Definition va_str (ap : list va_value) : res (list Z * list va_value) :=
  match ap with VaStr s :: ap => Ok (s, ap) | _ => Stop Undef end.

(** "0123456789abcdef" *)
Definition digits : list Z :=
  [48; 49; 50; 51; 52; 53; 54; 55; 56; 57; 97; 98; 99; 100; 101; 102].

(** [while (x0 != 0) { divisor *= radix; x0 /= radix; }] *)
Definition divisor_body (radix : Z) (s : Z * Z) : res (Z * Z + Z) :=
  let '(divisor, x0) := s in
  if negb (x0 =? 0) then Ok (inl (u64 (divisor * radix), x0 / radix)) else Ok (inr divisor).

Section Sink.
Context {St : Type} (sink : St -> Z -> res (St * Z)).

Definition digits_body (x radix : Z) (s : St * Z * Z) : res (St * Z * Z + St * Z) :=
  let '(st, chars_printed, divisor) := s in
  if negb (divisor =? 0) then
    c ← ref digits ((x / divisor) mod radix);
    '(st, ret) ← sink st c;
    if negb (ret =? 0) then Ok (inr (st, ret))
    else Ok (inl (st, i32 (chars_printed + 1), divisor / radix))
  else Ok (inr (st, chars_printed)).

Definition print_unsigned (st : St) (x radix : Z) : res (St * Z) :=
  if x =? 0 then
    '(st, ret) ← sink st 48;
    Ok (st, if negb (ret =? 0) then -1 else 1)
  else
    divisor ← loop 65 (divisor_body radix) (1, x / radix);
    loop 66 (digits_body x radix) (st, 0, divisor).

Definition print_integer (st : St) (x radix : Z) : res (St * Z) :=
  if x <? 0 then
    '(st, ret) ← sink st 45;
    if negb (ret =? 0) then Ok (st, -1)
    else
      '(st, n) ← print_unsigned st (u64 (i64 (- x))) radix;
      Ok (st, i32 (1 + n))
  else
    '(st, n) ← print_unsigned st (u64 x) radix;
    Ok (st, i32 (0 + n)).

(** The loop of the [%s] conversion. *)
Definition print_str_body (str : list Z) (s : St * Z * Z) : res (St * Z * Z + St * option Z) :=
  let '(st, i, chars_printed) := s in
  c ← ref str i;
  if negb (c =? 0) then
    '(st, ret) ← sink st c;
    if negb (ret =? 0) then Ok (inr (st, None))
    else Ok (inl (st, i32 (i + 1), i32 (chars_printed + 1)))
  else Ok (inr (st, Some chars_printed)).

(** Result of one conversion: [None] when [printf_impl] returns [ret] at once. *)
Record pstate := mkP { p_st : St; p_i : Z; p_ap : list va_value; p_chars : Z }.

(** A number was printed with result [ret]: [if (ret < 0) return ret;
    chars_printed += ret;]. *)
Definition printed (s : pstate) (st : St) (ap : list va_value) (ret : Z) : pstate + St * Z :=
  if ret <? 0 then inr (st, ret)
  else inl (mkP st (i32 (p_i s + 1)) ap (i32 (p_chars s + ret))).

(** The inner switch, after "%l"; [s] is at the character after the 'l'. *)
Definition conv_long (format : list Z) (s : pstate) : res (pstate + St * Z) :=
  c ← ref format (p_i s);
  if c =? 0 then Ok (inr (p_st s, -1))
  else if c =? 117 (* 'u' *) then
    '(x, ap) ← va_int (p_ap s);
    '(st, ret) ← print_unsigned (p_st s) (u64 x) 10;
    Ok (printed s st ap ret)
  else if c =? 100 (* 'd' *) then
    '(x, ap) ← va_int (p_ap s);
    '(st, ret) ← print_integer (p_st s) (i64 x) 10;
    Ok (printed s st ap ret)
  else Stop Aborted.

(** The outer switch; [s] is at the character after the '%'. *)
Definition conv (format : list Z) (s : pstate) : res (pstate + St * Z) :=
  c ← ref format (p_i s);
  if c =? 0 then Ok (inr (p_st s, -1))
  else if c =? 99 (* 'c' *) then
    '(x, ap) ← va_int (p_ap s);
    '(st, ret) ← sink (p_st s) (u8 x);
    if negb (ret =? 0) then Ok (inr (st, -1))
    else Ok (inl (mkP st (i32 (p_i s + 1)) ap (i32 (p_chars s + 1))))
  else if c =? 100 (* 'd' *) then
    '(x, ap) ← va_int (p_ap s);
    '(st, ret) ← print_integer (p_st s) (i32 x) 10;
    Ok (printed s st ap ret)
  else if c =? 117 (* 'u' *) then
    '(x, ap) ← va_int (p_ap s);
    '(st, ret) ← print_unsigned (p_st s) (u32 x) 10;
    Ok (printed s st ap ret)
  else if c =? 120 (* 'x' *) then
    '(x, ap) ← va_int (p_ap s);
    '(st, ret) ← print_unsigned (p_st s) (u32 x) 16;
    Ok (printed s st ap ret)
  else if c =? 115 (* 's' *) then
    '(str, ap) ← va_str (p_ap s);
    '(st, r) ← loop (S (length str)) (print_str_body str) (p_st s, 0, p_chars s);
    match r with
    | None => Ok (inr (st, -1))
    | Some n => Ok (inl (mkP st (i32 (p_i s + 1)) ap n))
    end
  else if c =? 108 (* 'l' *) then
    conv_long format (mkP (p_st s) (i32 (p_i s + 1)) (p_ap s) (p_chars s))
  else Ok (inl (mkP (p_st s) (i32 (p_i s + 1)) (p_ap s) (p_chars s))).

(** One turn of [for (int i = 0; format[i] != '\0'; i++)]. *)
Definition printf_body (format : list Z) (s : pstate) : res (pstate + St * Z) :=
  c ← ref format (p_i s);
  if c =? 0 then Ok (inr (p_st s, p_chars s))
  else if negb (c =? 37 (* '%' *)) then
    '(st, ret) ← sink (p_st s) c;
    if negb (ret =? 0) then Ok (inr (st, -1))
    else Ok (inl (mkP st (i32 (p_i s + 1)) (p_ap s) (i32 (p_chars s + 1))))
  else conv format (mkP (p_st s) (i32 (p_i s + 1)) (p_ap s) (p_chars s)).

Definition printf_impl (st : St) (format : list Z) (ap : list va_value) : res (St * Z) :=
  loop (S (length format)) (printf_body format) (mkP st 0 ap 0).

End Sink.

(** The sink that writes to a string. *)
Record StringSinkArg := mkSink {
  sink_string : list Z;
  sink_index : Z;
  max_chars : Z;
  has_limit : bool
}.

Definition string_sink (a : StringSinkArg) (c : Z) : res (StringSinkArg * Z) :=
  if negb (has_limit a) || (sink_index a <? max_chars a) then
    s ← store (sink_string a) (sink_index a) c;
    Ok (mkSink s (u64 (sink_index a + 1)) (max_chars a) (has_limit a), 0)
  else Ok (a, 0).

(** [str] is the object the destination points into; the results are its new
    contents and the return value. *)
Definition snprintf (str : list Z) (size : Z) (format : list Z) (ap : list va_value)
  : res (list Z * Z) :=
  '(a, ret) ← printf_impl string_sink (mkSink str 0 size true) format ap;
  if u64 ret =? size then
    s ← store (sink_string a) (ret - 1) 0; Ok (s, ret)
  else
    s ← store (sink_string a) ret 0; Ok (s, i32 (ret + 1)).

Definition sprintf (str format : list Z) (ap : list va_value) : res (list Z * Z) :=
  '(a, ret) ← printf_impl string_sink (mkSink str 0 0 false) format ap;
  s ← store (sink_string a) ret 0; Ok (s, i32 (ret + 1)).

Definition vsnprintf (str : list Z) (size : Z) (format : list Z) (ap : list va_value)
  : res (list Z * Z) :=
  '(a, ret) ← printf_impl string_sink (mkSink str 0 size true) format ap;
  Ok (sink_string a, ret).

Definition vsprintf (str format : list Z) (ap : list va_value) : res (list Z * Z) :=
  '(a, ret) ← printf_impl string_sink (mkSink str 0 0 false) format ap;
  Ok (sink_string a, ret).

(** ** Specification *)

(** The sink that collects everything and never fails. *)
Definition list_sink (out : list Z) (c : Z) : res (list Z * Z) := Ok (out ++ [c], 0).

(** The value of a digit character, and of a sequence of them in a radix. *)
Definition digit_value (c : Z) : Z := if c <=? 57 then c - 48 else c - 97 + 10.
Definition number_value (radix : Z) (ds : list Z) : Z :=
  foldl (fun v c => v * radix + digit_value c) 0 ds.
Definition is_digit (radix : Z) (c : Z) : Prop := c ∈ digits /\ 0 <= digit_value c < radix.

(** ** Lemmas *)

Lemma ref_digits k : 0 <= k < 16 -> exists c, ref digits k = Ok c /\ c ∈ digits /\ digit_value c = k.
Proof.
  intros Hk.
  assert (k = 0 \/ k = 1 \/ k = 2 \/ k = 3 \/ k = 4 \/ k = 5 \/ k = 6 \/ k = 7 \/ k = 8 \/
    k = 9 \/ k = 10 \/ k = 11 \/ k = 12 \/ k = 13 \/ k = 14 \/ k = 15) as H by lia.
  repeat destruct H as [->|H]; subst; eexists; (split; [reflexivity |]);
    (split; [apply list_elem_of_In; cbn; tauto | reflexivity]).
Qed.

(** The divisor the first loop finds is the greatest power of the radix not
    above [x]. *)
Lemma divisor_spec radix x : 2 <= radix -> 0 < x < 2 ^ 64 ->
  exists k, loop 65 (divisor_body radix) (1, x / radix) = Ok (radix ^ k) /\
    0 <= k < 64 /\ radix ^ k <= x < radix ^ (k + 1).
Proof.
  intros Hr Hx.
  destruct (loop_total
    (fun s => exists k, 0 <= k /\ s.1 = radix ^ k /\ s.2 = x / radix ^ (k + 1) /\ radix ^ k <= x)
    (fun s => Z.to_nat (if s.2 =? 0 then 0 else 1 + Z.log2 s.2))
    (fun d => exists k, d = radix ^ k /\ 0 <= k /\ radix ^ k <= x < radix ^ (k + 1))
    (divisor_body radix)) with (fuel := 65%nat) (s := (1, x / radix)) as (d & E & k & -> & Hk & Hb).
  - intros [d y] (k & Hk & Hd & Hy & Hle). cbn [fst snd] in *. subst d y. unfold divisor_body.
    assert (P : 0 < radix ^ (k + 1)) by (apply Z.pow_pos_nonneg; lia).
    destruct (Z.eqb_spec (x / radix ^ (k + 1)) 0) as [Hz|Hnz]; cbn [negb].
    + exists (inr (radix ^ k)). split; [done |]. exists k. split; [done |]. split; [done |].
      split; [done |]. apply Z.div_small_iff in Hz; [| lia]. lia.
    + assert (Hle' : radix ^ (k + 1) <= x).
      { destruct (Z.lt_ge_cases x (radix ^ (k + 1))); [| done]. rewrite Z.div_small in Hnz by lia. done. }
      replace (radix ^ k * radix) with (radix ^ (k + 1)) by (rewrite Z.pow_add_r, Z.pow_1_r by lia; done).
      rewrite wrap_small by lia.
      assert (Hdiv : x / radix ^ (k + 1) / radix = x / radix ^ (k + 1 + 1)).
      { rewrite Z.div_div, (Z.pow_add_r _ (k + 1) 1), Z.pow_1_r by lia. done. }
      assert (Hpos : 0 < x / radix ^ (k + 1)) by (apply Z.div_str_pos; lia).
      eexists. split; [done |]. cbn [fst snd]. split.
      { exists (k + 1). rewrite Hdiv. split; [lia |]. done. }
      rewrite Hdiv. destruct (Z.eqb_spec (x / radix ^ (k + 1 + 1)) 0).
      { pose proof (Z.log2_nonneg (x / radix ^ (k + 1))). lia. }
      assert (Hlt : x / radix ^ (k + 1 + 1) <= x / radix ^ (k + 1) / 2).
      { rewrite <- Hdiv. apply Z.div_le_compat_l; lia. }
      assert (0 <= x / radix ^ (k + 1 + 1)) by (apply Z.div_pos; [lia | apply Z.pow_pos_nonneg; lia]).
      assert (Hl : Z.log2 (x / radix ^ (k + 1 + 1)) <= Z.log2 (x / radix ^ (k + 1) / 2))
        by (apply Z.log2_le_mono; lia).
      assert (Hl2 : Z.log2 (x / radix ^ (k + 1) / 2) = Z.log2 (x / radix ^ (k + 1)) - 1).
      { change 2 with (2 ^ 1). rewrite <- Z.shiftr_div_pow2 by lia. rewrite Z.log2_shiftr by lia.
        assert (0 < Z.log2 (x / radix ^ (k + 1))); [| lia].
        apply Z.log2_pos. assert (2 <= x / radix ^ (k + 1)); [| lia].
        destruct (Z.le_gt_cases 2 (x / radix ^ (k + 1))); [done |].
        assert (x / radix ^ (k + 1) = 1) as E1 by lia. rewrite E1 in Hlt. change (1 / 2) with 0 in Hlt. lia. }
      pose proof (Z.log2_nonneg (x / radix ^ (k + 1 + 1))). lia.
  - exists 0. cbn [fst snd Z.add]. rewrite Z.pow_0_r, Z.pow_1_r. split; [lia |]. split; [done |].
    split; [done |]. lia.
  - cbn [snd]. destruct (Z.eqb_spec (x / radix) 0); [lia |].
    assert (0 <= x / radix) by (apply Z.div_pos; lia).
    assert (x / radix < 2 ^ 63) by (apply Z.div_lt_upper_bound; lia).
    pose proof (Z.log2_lt_pow2 (x / radix) 63 ltac:(lia)). lia.
  - exists k. split; [done |]. split; [| done]. split; [done |].
    apply (Z.pow_lt_mono_r_iff radix); [lia | lia |].
    apply Z.le_lt_trans with x; [lia |].
    apply Z.lt_le_trans with (2 ^ 64); [lia |]. apply Z.pow_le_mono_l. lia.
Qed.

Lemma number_value_app radix ds c :
  number_value radix (ds ++ [c]) = number_value radix ds * radix + digit_value c.
Proof. unfold number_value. by rewrite foldl_app. Qed.

Lemma div_step x d radix : 0 < d -> 0 < radix ->
  x / d = x / (d * radix) * radix + (x / d) mod radix.
Proof.
  intros Hd Hr. rewrite <- Z.div_div by lia. rewrite Z.mul_comm. apply Z.div_mod. lia.
Qed.

(** Printing a positive number: the digits of [x], the most significant first. *)
Lemma print_digits out x radix : 2 <= radix <= 16 -> 0 < x < 2 ^ 64 ->
  exists ds, print_unsigned list_sink out x radix = Ok (out ++ ds, Z.of_nat (length ds)) /\
    number_value radix ds = x /\ Forall (is_digit radix) ds /\ (length ds <= 64)%nat /\
    (exists c rest, ds = c :: rest /\ digit_value c <> 0).
Proof.
  intros Hr Hx. unfold print_unsigned. destruct (Z.eqb_spec x 0); [lia |].
  destruct (divisor_spec radix x ltac:(lia) Hx) as (k & -> & Hk & Hb). cbn [mbind res_bind].
  destruct (loop_total
    (fun s => exists ds (m : Z), s.1.1 = out ++ ds /\ s.1.2 = Z.of_nat (length ds) /\
       -1 <= m <= k /\ Z.of_nat (length ds) = k - m /\
       s.2 = (if m <? 0 then 0 else radix ^ m) /\ number_value radix ds = x / radix ^ (m + 1) /\
       Forall (is_digit radix) ds /\
       (m < k -> exists c rest, ds = c :: rest /\ digit_value c <> 0))
    (fun s => if s.2 =? 0 then 0%nat else S (Z.to_nat (Z.log2 s.2)))
    (fun r => exists ds, r = (out ++ ds, Z.of_nat (length ds)) /\ number_value radix ds = x /\
       Forall (is_digit radix) ds /\ (length ds <= 64)%nat /\
       (exists c rest, ds = c :: rest /\ digit_value c <> 0))
    (digits_body list_sink x radix)) with (fuel := 66%nat) (s := (out, 0, radix ^ k))
    as ([o n'] & E & ds & Eq & H); [| | | exists ds; rewrite E, Eq; done].
  - intros [[o n'] d] (ds & m & Ho & Hn & Hm & Hlen & Hd & Hv & HF & Hlead).
    cbn [fst snd] in *. subst o n' d. unfold digits_body.
    destruct (Z.ltb_spec m 0) as [Hneg|Hpos].
    { assert (m = -1) as -> by lia. cbn [Z.eqb negb]. eexists. split; [done |].
      exists ds. split; [done |]. cbn [Z.add] in Hv. rewrite Z.pow_0_r, Z.div_1_r in Hv.
      repeat (split; [done || lia |]). apply Hlead. lia. }
    assert (P : 0 < radix ^ m) by (apply Z.pow_pos_nonneg; lia).
    destruct (Z.eqb_spec (radix ^ m) 0); [lia |]. cbn [negb].
    pose proof (Z.mod_pos_bound (x / radix ^ m) radix ltac:(lia)) as Hmod.
    destruct (ref_digits ((x / radix ^ m) mod radix) ltac:(lia)) as (c & -> & Hc & Hcv).
    cbn [mbind res_bind list_sink Z.eqb negb]. rewrite i32_small by lia.
    eexists. split; [done |]. cbn [fst snd].
    assert (Hnext : radix ^ m / radix = (if m - 1 <? 0 then 0 else radix ^ (m - 1))).
    { destruct (Z.ltb_spec (m - 1) 0).
      - assert (m = 0) as -> by lia. rewrite Z.pow_0_r. apply Z.div_small. lia.
      - replace (radix ^ m) with (radix ^ (m - 1) * radix).
        + apply Z.div_mul. lia.
        + rewrite <- (Z.pow_1_r radix) at 2. rewrite <- Z.pow_add_r by lia. f_equal. lia. }
    split.
    { exists (ds ++ [c]), (m - 1). rewrite app_assoc, length_app. cbn [length].
      split; [done |]. split; [lia |]. split; [lia |]. split; [lia |]. split; [done |].
      split.
      { rewrite number_value_app, Hv, Hcv. replace (m - 1 + 1) with m by lia.
        pose proof (div_step x (radix ^ m) radix ltac:(lia) ltac:(lia)).
        rewrite Z.pow_add_r, Z.pow_1_r by lia. lia. }
      split; [apply Forall_app; split; [done | constructor; [split; [done | lia] | constructor]] |].
      intros _. destruct (decide (m = k)) as [->|].
      - assert (ds = []) as -> by (apply nil_length_inv; lia).
        exists c, []. split; [done |]. rewrite Hcv.
        rewrite Z.mod_small; [| split; [apply Z.div_pos; lia |]].
        + pose proof (Z.div_str_pos x (radix ^ k) ltac:(lia)). lia.
        + apply Z.div_lt_upper_bound; [lia |]. rewrite Z.pow_add_r, Z.pow_1_r in Hb by lia. lia.
      - destruct (Hlead ltac:(lia)) as (c0 & rest & -> & Hc0). exists c0, (rest ++ [c]). done. }
    rewrite Hnext. destruct (Z.ltb_spec (m - 1) 0); [cbn; lia |].
    destruct (Z.eqb_spec (radix ^ (m - 1)) 0); [lia |].
    assert (Z.log2 (radix ^ (m - 1)) < Z.log2 (radix ^ m)).
    { apply Z.lt_le_trans with (Z.log2 (2 * radix ^ (m - 1))).
      - rewrite Z.log2_double by (apply Z.pow_pos_nonneg; lia). lia.
      - apply Z.log2_le_mono. replace (radix ^ m) with (radix * radix ^ (m - 1)).
        + apply Z.mul_le_mono_nonneg_r; [apply Z.pow_nonneg; lia | lia].
        + rewrite <- Z.pow_succ_r by lia. f_equal. lia. }
    pose proof (Z.log2_nonneg (radix ^ (m - 1))). lia.
  - exists [], k. cbn [fst snd]. rewrite app_nil_r. split; [done |]. split; [done |].
    split; [lia |]. split; [cbn; lia |]. destruct (Z.ltb_spec k 0); [lia |]. split; [done |].
    split; [rewrite Z.div_small by lia; done |]. split; [constructor | lia].
  - cbn [snd]. destruct (Z.eqb_spec (radix ^ k) 0); [lia |].
    pose proof (Z.log2_lt_pow2 (radix ^ k) 64 ltac:(lia)). lia.
Qed.

Lemma print_unsigned_list out x radix : 2 <= radix <= 16 -> 0 <= x < 2 ^ 64 ->
  exists ds, print_unsigned list_sink out x radix = Ok (out ++ ds, Z.of_nat (length ds)) /\
    number_value radix ds = x /\ Forall (is_digit radix) ds /\ (length ds <= 64)%nat /\
    (exists c rest, ds = c :: rest /\ (x <> 0 -> digit_value c <> 0)).
Proof.
  intros Hr Hx. destruct (decide (x = 0)) as [->|].
  - exists [48]. split; [done |]. split; [done |]. split.
    + constructor; [| constructor]. split; [apply list_elem_of_In; cbn; tauto | cbn; lia].
    + split; [cbn; lia |]. by exists 48, [].
  - destruct (print_digits out x radix Hr ltac:(lia)) as (ds & E & Hv & HF & Hl & c & rest & -> & Hc).
    exists (c :: rest). repeat (split; [done |]). by exists c, rest.
Qed.

Lemma is_digit_10 c : is_digit 10 c -> 48 <= c <= 57 /\ digit_value c = c - 48.
Proof.
  intros [Hin Hv]. apply list_elem_of_In in Hin. cbn in Hin.
  repeat destruct Hin as [<-|Hin]; try done; cbn in *; lia.
Qed.

Lemma number_value_mono radix ds1 ds2 : 1 <= radix -> Forall (is_digit radix) (ds1 ++ ds2) ->
  0 <= number_value radix ds1 <= number_value radix (ds1 ++ ds2).
Proof.
  intros Hr. induction ds2 as [|c ds2 IH] using rev_ind.
  - rewrite app_nil_r. intros HF. split; [| lia].
    induction ds1 as [|c ds1 IH] using rev_ind; [done |].
    apply Forall_app in HF as [H1 H2]. rewrite number_value_app.
    inversion H2 as [|? ? [_ Hd] _]; subst. specialize (IH H1). nia.
  - rewrite app_assoc. intros HF. apply Forall_app in HF as [H1 H2]. specialize (IH H1).
    rewrite number_value_app. inversion H2 as [|? ? [_ Hd] _]; subst. nia.
Qed.

Lemma number_value_take radix ds k : 1 <= radix -> Forall (is_digit radix) ds ->
  0 <= number_value radix (take k ds) <= number_value radix ds.
Proof.
  intros Hr HF. pose proof (number_value_mono radix (take k ds) (drop k ds) Hr) as H.
  rewrite take_drop in H. auto.
Qed.

(** [atol] stops at the first character that is no digit. *)
Lemma atol_stops ds e rest : Forall (is_digit 10) ds -> number_value 10 ds < 2 ^ 63 ->
  Z.of_nat (length ds) < 2 ^ 64 -> 0 <= e < 48 -> atol (ds ++ e :: rest) = Ok (number_value 10 ds).
Proof.
  intros HF Hv Hl He. unfold atol.
  match goal with |- loop _ ?b _ = _ =>
    destruct (loop_total
      (fun s => 0 <= s.1 <= Z.of_nat (length ds) /\ s.2 = number_value 10 (take (Z.to_nat s.1) ds))
      (fun s => Z.to_nat (Z.of_nat (length ds) - s.1)) (fun r => r = number_value 10 ds) b)
      with (fuel := S (length (ds ++ e :: rest))) (s := (0, 0)) as (r & E & ->) end.
  - intros [i x] [Hi Hx]. cbn [fst snd] in *. subst x.
    destruct (decide (i = Z.of_nat (length ds))) as [->|].
    + assert (Hr : ref (ds ++ e :: rest) (Z.of_nat (length ds)) = Ok e).
      { apply ref_Ok. split; [lia |]. rewrite Nat2Z.id. by apply list_lookup_middle. }
      rewrite Hr. cbn [mbind res_bind]. exists (inr (number_value 10 ds)). split; [| done].
      rewrite Nat2Z.id, take_ge by lia. rewrite i8_small by lia. by destruct (Z.leb_spec 48 e); [lia |].
    + destruct (lookup_lt_is_Some_2 ds (Z.to_nat i) ltac:(lia)) as [c Hc].
      assert (Hr : ref (ds ++ e :: rest) i = Ok c).
      { apply ref_Ok. split; [lia |]. by apply lookup_app_l_Some. }
      rewrite Hr. cbn [mbind res_bind].
      pose proof HF as HF'. eapply Forall_lookup_1 in HF'; [| exact Hc].
      destruct (is_digit_10 c HF') as [Hcb Hcv]. rewrite i8_small by lia.
      destruct (Z.leb_spec 48 c), (Z.leb_spec c 57); try lia. cbn [andb].
      assert (Et : take (Z.to_nat (i + 1)) ds = take (Z.to_nat i) ds ++ [c]).
      { replace (Z.to_nat (i + 1)) with (S (Z.to_nat i)) by lia. by apply take_S_r. }
      pose proof (number_value_take 10 ds (Z.to_nat (i + 1)) ltac:(lia) HF) as Hm.
      pose proof (number_value_take 10 ds (Z.to_nat i) ltac:(lia) HF) as Hm0.
      rewrite Et, number_value_app in Hm.
      rewrite (i64_small (_ * 10)), i64_small, wrap_small by lia.
      eexists. split; [done |]. cbn [fst snd]. split; [| lia]. split; [lia |].
      rewrite Et, number_value_app. lia.
  - cbn. split; [lia | done].
  - rewrite length_app. cbn. lia.
  - done.
Qed.

(** The state of a string sink after [k] characters of [l]. *)
Definition sunk (str l : list Z) (size : Z) (k : Z) : StringSinkArg :=
  let m := Z.to_nat (Z.min k size) in
  mkSink (take m l ++ drop m str) (Z.min k size) size true.

Lemma string_sink_step str l size k c : 0 <= k -> 0 <= size <= Z.of_nat (length str) ->
  size < 2 ^ 63 -> l !! Z.to_nat k = Some c ->
  string_sink (sunk str l size k) c = Ok (sunk str l size (k + 1), 0).
Proof.
  intros Hk Hs Hs2 Hc. pose proof (lookup_lt_Some _ _ _ Hc). unfold string_sink, sunk.
  cbn [has_limit negb orb sink_index max_chars sink_string].
  destruct (Z.ltb_spec (Z.min k size) size).
  - rewrite !Z.min_l by lia. rewrite store_Ok by (rewrite length_app, length_take, length_drop; lia).
    cbn [mbind res_bind]. rewrite wrap_small by lia. do 3 f_equal.
    rewrite insert_app_r_alt by (rewrite length_take; lia).
    rewrite length_take, Nat.min_l, Nat.sub_diag by lia.
    destruct (lookup_lt_is_Some_2 str (Z.to_nat k) ltac:(lia)) as [y Hy].
    rewrite (drop_S str y) by done. cbn.
    replace (Z.to_nat (k + 1)) with (S (Z.to_nat k)) by lia.
    rewrite (take_S_r l _ c), <- app_assoc by done. done.
  - rewrite !Z.min_r by lia. done.
Qed.

Lemma printf_plain str l format size ap : cstr format l -> 37 ∉ l -> 0 <= size <= Z.of_nat (length str) ->
  size < 2 ^ 63 -> Z.of_nat (length l) < 2 ^ 31 - 1 ->
  printf_impl string_sink (mkSink str 0 size true) format ap
  = Ok (sunk str l size (Z.of_nat (length l)), Z.of_nat (length l)).
Proof.
  intros Hf Hp Hs Hs2 Hl. unfold printf_impl.
  destruct (loop_total
    (fun s => 0 <= p_i s <= Z.of_nat (length l) /\ p_chars s = p_i s /\ p_st s = sunk str l size (p_i s))
    (fun s => Z.to_nat (Z.of_nat (length l) - p_i s))
    (fun r => r = (sunk str l size (Z.of_nat (length l)), Z.of_nat (length l)))
    (printf_body string_sink format)) with (fuel := S (length format))
    (s := mkP (mkSink str 0 size true) 0 ap 0) as (r & -> & ->); [| | | done].
  - intros [st i ap' n] (Hi & Hn & Hst). cbn [p_i p_chars p_st] in *. subst n st.
    unfold printf_body. cbn [p_i p_chars p_st p_ap].
    destruct (decide (i = Z.of_nat (length l))) as [->|].
    + rewrite (cstr_end format l Hf). cbn [mbind res_bind Z.eqb]. eexists. split; done.
    + destruct (cstr_nth format l i Hf ltac:(lia)) as (c & -> & Hc & Hb). cbn [mbind res_bind].
      destruct (Z.eqb_spec c 0); [lia |]. destruct (Z.eqb_spec c 37) as [->|]; cbn [negb].
      { exfalso. apply Hp. by eapply list_elem_of_lookup_2. }
      rewrite (string_sink_step str l size i c) by (done || lia). cbn [mbind res_bind Z.eqb negb].
      rewrite i32_small by lia. eexists. split; [done |]. cbn [p_i p_chars p_st].
      split; [split; [lia | done] | lia].
  - cbn [p_i p_chars p_st]. split; [lia |]. split; [done |]. unfold sunk.
    rewrite Z.min_l by lia. done.
  - cbn [p_i]. pose proof (cstr_length format l Hf). lia.
Qed.

(** ** Properties *)



(** the digits of any radix up to 16 denote the number: [print_unsigned]
    reports the number of characters it emitted, and their value in the radix is
    the argument, for every unsigned long. *)
Theorem print_unsigned_value (x radix : Z) (out : list Z)
    (Hr : 2 <= radix <= 16) (Hx : 0 <= x < 2 ^ 64) :
  exists ds, print_unsigned list_sink out x radix = Ok (out ++ ds, Z.of_nat (length ds)) /\
    number_value radix ds = x /\ Forall (is_digit radix) ds.
Proof.
  destruct (print_unsigned_list out x radix Hr Hx) as (ds & E & Hv & HF & _). by exists ds.
Qed.

Lemma print_unsigned_value_witness : (2 <= 16 <= 16 /\ 0 <= 0xBEEF < 2 ^ 64) /\
  exists ds, print_unsigned list_sink [120] 0xBEEF 16 = Ok ([120] ++ ds, Z.of_nat (length ds)) /\
    number_value 16 ds = 0xBEEF /\ Forall (is_digit 16) ds.
Proof. split; [lia |]. apply (print_unsigned_value 0xBEEF 16 [120]); lia. Defined.

(** [snprintf] on a format of [n] plain characters. With [n < size] the text
    and its terminator are stored and [n + 1] is returned (C99 asks for [n]);
    with [n = size] the last character is replaced by the terminator; with
    [n > size] and a destination object of exactly [size] bytes the terminator
    is stored out of bounds. *)
Theorem snprintf_plain (str l format : list Z) (size : Z) (ap : list va_value)
    (Hf : cstr format l) (Hp : 37 ∉ l) (Hl : Z.of_nat (length l) < 2 ^ 31 - 1)
    (Hs : 0 < size < 2 ^ 63) (Hstr : size <= Z.of_nat (length str)) :
  let n := Z.of_nat (length l) in
  (n < size -> snprintf str size format ap
     = Ok (l ++ 0 :: drop (S (length l)) str, n + 1)) /\
  (n = size -> snprintf str size format ap
     = Ok (removelast l ++ 0 :: drop (length l) str, n)) /\
  (size < n -> Z.of_nat (length str) = size -> snprintf str size format ap = Stop Undef).
Proof.
  intros n. unfold snprintf. rewrite (printf_plain str l format size ap) by (done || lia).
  cbn [mbind res_bind]. fold n. rewrite (wrap_small 64 n) by lia. unfold sunk. cbn [sink_string].
  split; [| split].
  - intros Hlt. destruct (Z.eqb_spec n size); [lia |]. rewrite Z.min_l by lia.
    unfold n. rewrite Nat2Z.id, take_ge by lia.
    rewrite store_Ok by (rewrite length_app, length_drop; lia). cbn [mbind res_bind].
    rewrite i32_small by lia. do 2 f_equal.
    rewrite insert_app_r_alt, Nat2Z.id, Nat.sub_diag by lia.
    destruct (lookup_lt_is_Some_2 str (length l) ltac:(lia)) as [y Hy].
    by rewrite (drop_S str y) by done.
  - intros Heq. destruct (Z.eqb_spec n size); [| lia]. rewrite Z.min_l by lia.
    unfold n. rewrite Nat2Z.id, take_ge by lia.
    rewrite store_Ok by (rewrite length_app, length_drop; lia). cbn [mbind res_bind]. do 2 f_equal.
    destruct l as [|c l' _] using rev_ind; [cbn in *; lia |].
    rewrite removelast_last, length_app in *. cbn [length] in *. rewrite <- app_assoc.
    rewrite insert_app_r_alt by lia.
    by replace (Z.to_nat (Z.of_nat (length l' + 1) - 1) - length l')%nat with 0%nat by lia.
  - intros Hgt Hobj. destruct (Z.eqb_spec n size); [lia |]. rewrite Z.min_r by lia.
    unfold store. rewrite length_app, length_take, length_drop.
    destruct (Z.leb_spec 0 n), (Z.ltb_spec n
      (Z.of_nat (Z.to_nat size `min` length l + (length str - Z.to_nat size))%nat)); try done; lia.
Qed.

Lemma snprintf_plain_witness :
  cstr [104; 101; 108; 108; 111; 0] [104; 101; 108; 108; 111] /\
  snprintf [1; 1; 1; 1] 4 [104; 101; 108; 108; 111; 0] [] = Stop Undef /\
  snprintf [1; 1; 1; 1; 1; 1; 1] 7 [104; 101; 108; 108; 111; 0] []
    = Ok ([104; 101; 108; 108; 111; 0; 1], 6).
Proof.
  assert (Hf : cstr [104; 101; 108; 108; 111; 0] [104; 101; 108; 108; 111])
    by (split; [repeat constructor; lia | by exists []]).
  assert (Hp : 37 ∉ [104; 101; 108; 108; 111]) by (intros H; apply list_elem_of_In in H; cbn in H; lia).
  split; [done |]. split.
  - exact (proj2 (proj2 (snprintf_plain [1; 1; 1; 1] _ _ 4 [] Hf Hp
      ltac:(cbn; lia) ltac:(lia) ltac:(cbn; lia))) ltac:(cbn; lia) ltac:(reflexivity)).
  - exact (proj1 (snprintf_plain [1; 1; 1; 1; 1; 1; 1] _ _ 7 [] Hf Hp
      ltac:(cbn; lia) ltac:(lia) ltac:(cbn; lia)) ltac:(cbn; lia)).
Defined.
