(* ===== verification/Qsort.v ===== *)
(** * [qsort] of the C library ([src/libc/qsort.c])

    The array is the list of its elements; pointers into it are indices, as the
    code only forms element addresses. [compar] is the caller's comparison
    function, a pure function of the two elements. *)

From Stdlib Require Import Sorted.
From S2P Require Import Prelude.

Local Open Scope Z_scope.

Section Qsort.
Context {A : Type} (compar : A -> A -> Z).

(** ** Definitions *)

(** The exchange goes through [swap_space]; equal addresses are left alone. *)
Definition swap_elems (l : list A) (a b : Z) : res (list A) :=
  if negb (a =? b) then
    swap_space ← ref l a;
    y ← ref l b;
    l ← store l a y;
    store l b swap_space
  else Ok l.

(** [while (higher_end != nmemb - 1) { ... }] *)
Definition partition_body (base nmemb : Z) (s : list A * Z * Z) : res (list A * Z * Z + list A * Z) :=
  let '(l, lower_end, higher_end) := s in
  if negb (higher_end =? nmemb - 1) then
    curr_elem ← ref l (base + higher_end);
    pivot ← ref l (base + (nmemb - 1));
    if compar curr_elem pivot <? 0 then
      l ← swap_elems l (base + higher_end) (base + lower_end);
      Ok (inl (l, lower_end + 1, higher_end + 1))
    else Ok (inl (l, lower_end, higher_end + 1))
  else Ok (inr (l, lower_end)).

Fixpoint qsort_aux (fuel : nat) (l : list A) (base nmemb : Z) : res (list A) :=
  match fuel with
  | O => Stop NoFuel
  | S fuel =>
      if nmemb <=? 1 then Ok l
      else
        '(l, lower_end) ← loop (S (Z.to_nat nmemb)) (partition_body base nmemb) (l, 0, 0);
        l ← swap_elems l (base + (nmemb - 1)) (base + lower_end);
        let num_lower := lower_end in
        let num_higher := nmemb - num_lower - 1 in
        l ← qsort_aux fuel l base num_lower;
        qsort_aux fuel l (base + (lower_end + 1)) num_higher
  end.

(** Each level of recursion removes the pivot, so [nmemb] levels suffice. *)
Definition qsort (l : list A) : res (list A) :=
  qsort_aux (S (length l)) l 0 (Z.of_nat (length l)).

(** ** Specification *)

(** [a] may come before [b]: [b] does not compare below [a]. *)
Definition le_by (a b : A) : Prop := ~ compar b a < 0.

(** ** Lemmas *)

Lemma ref_middle (a : list A) x b i : i = Z.of_nat (length a) -> ref (a ++ x :: b) i = Ok x.
Proof. intros ->. apply ref_Ok. split; [lia |]. rewrite Nat2Z.id. by apply list_lookup_middle. Qed.

Lemma store_middle (a : list A) x y b i : i = Z.of_nat (length a) ->
  store (a ++ x :: b) i y = Ok (a ++ y :: b).
Proof.
  intros ->. rewrite store_Ok by (rewrite length_app; cbn; lia).
  rewrite insert_app_r_alt, Nat2Z.id, Nat.sub_diag by lia. done.
Qed.

(** Exchanging two positions, whichever is named first. *)
Lemma swap_elems_spec a x b y c i j :
  i = Z.of_nat (length a) -> j = Z.of_nat (length a + 1 + length b) ->
  swap_elems (a ++ x :: b ++ y :: c) j i = Ok (a ++ y :: b ++ x :: c).
Proof.
  intros Hi Hj. unfold swap_elems. destruct (Z.eqb_spec j i); [lia |]. cbn [negb].
  assert (E : forall z, a ++ z :: b ++ y :: c = (a ++ z :: b) ++ y :: c) by (intros; by rewrite <- app_assoc).
  rewrite E at 1. rewrite (ref_middle (a ++ x :: b) y c) by (rewrite length_app; cbn; lia).
  cbn [mbind res_bind]. rewrite (ref_middle a x) by done. cbn [mbind res_bind].
  rewrite E, (store_middle (a ++ x :: b)) by (rewrite length_app; cbn; lia). cbn [mbind res_bind].
  rewrite <- app_assoc. cbn [app]. rewrite (store_middle a) by done. done.
Qed.

Lemma swap_same l i : swap_elems l i i = Ok l.
Proof. unfold swap_elems. by rewrite Z.eqb_refl. Qed.

(** Rotating the first element of [h] past its end makes room for one more
    small element. *)
Definition rotate1 (h : list A) : list A := match h with [] => [] | x :: t => t ++ [x] end.

Lemma rotate1_perm h : rotate1 h ≡ₚ h.
Proof. destruct h; cbn; [done |]. by rewrite Permutation_app_comm. Qed.
Lemma rotate1_length h : length (rotate1 h) = length h.
Proof. by rewrite rotate1_perm. Qed.

(** Moving element [c] from just after [h] to just before it, by one exchange. *)
Lemma swap_rotate pre h c post i j : i = Z.of_nat (length pre) -> j = Z.of_nat (length pre + length h) ->
  swap_elems (pre ++ h ++ c :: post) j i = Ok (pre ++ c :: rotate1 h ++ post).
Proof.
  intros Hi Hj. destruct h as [|x h]; cbn [rotate1].
  - cbn in Hj. replace j with i by lia. rewrite swap_same. done.
  - cbn [app]. rewrite (swap_elems_spec pre x h c post) by (cbn in Hj; lia).
    by rewrite <- app_assoc.
Qed.

Definition small (p c : A) : Prop := compar c p < 0.
Definition large (p c : A) : Prop := ~ compar c p < 0.

Lemma partition_spec pre seg p post :
  exists lows highs,
    loop (S (length seg + 1)) (partition_body (Z.of_nat (length pre)) (Z.of_nat (length seg + 1)))
      (pre ++ (seg ++ [p]) ++ post, 0, 0)
    = Ok (pre ++ lows ++ highs ++ p :: post, Z.of_nat (length lows)) /\
    seg ≡ₚ lows ++ highs /\ Forall (small p) lows /\ Forall (large p) highs.
Proof.
  destruct (loop_total
    (fun s => exists lows highs rest, s.1.1 = pre ++ lows ++ highs ++ rest ++ p :: post /\
       s.1.2 = Z.of_nat (length lows) /\ s.2 = Z.of_nat (length lows + length highs) /\
       seg ≡ₚ lows ++ highs ++ rest /\ Forall (small p) lows /\ Forall (large p) highs)
    (fun s => Z.to_nat (Z.of_nat (length seg) - s.2))
    (fun r => exists lows highs, r = (pre ++ lows ++ highs ++ p :: post, Z.of_nat (length lows)) /\
       seg ≡ₚ lows ++ highs /\ Forall (small p) lows /\ Forall (large p) highs)
    (partition_body (Z.of_nat (length pre)) (Z.of_nat (length seg + 1))))
    with (fuel := S (length seg + 1)) (s := (pre ++ (seg ++ [p]) ++ post, 0, 0))
    as (r & E & lows & highs & -> & H); [| | cbn; lia | by exists lows, highs].
  - intros [[l lo] hi] (lows & highs & rest & Hl & Hlo & Hhi & Hp & HS & HL).
    cbn [fst snd] in *. subst l lo hi. unfold partition_body.
    pose proof (Permutation_length Hp) as Hlen. rewrite !length_app in Hlen.
    destruct rest as [|c rest]; cbn [length] in Hlen.
    + destruct (Z.eqb_spec (Z.of_nat (length lows + length highs)) (Z.of_nat (length seg + 1) - 1)); [| lia].
      cbn [negb]. eexists. split; [done |]. exists lows, highs. rewrite app_nil_r in Hp. done.
    + destruct (Z.eqb_spec (Z.of_nat (length lows + length highs)) (Z.of_nat (length seg + 1) - 1)); [lia |].
      cbn [negb app].
      rewrite (app_assoc lows), (app_assoc pre).
      rewrite (ref_middle (pre ++ lows ++ highs) c _
        (Z.of_nat (length pre) + Z.of_nat (length lows + length highs))) by (rewrite !length_app; lia).
      cbn [mbind res_bind].
      assert (Hpiv : ref ((pre ++ lows ++ highs) ++ c :: rest ++ p :: post)
                (Z.of_nat (length pre) + (Z.of_nat (length seg + 1) - 1)) = Ok p).
      { rewrite app_comm_cons, app_assoc. apply ref_middle. rewrite !length_app. cbn. lia. }
      rewrite Hpiv. cbn [mbind res_bind].
      destruct (Z.ltb_spec (compar c p) 0).
      * rewrite (app_assoc pre lows), <- (app_assoc (pre ++ lows)).
        rewrite (swap_rotate (pre ++ lows) highs c) by (rewrite length_app; lia). cbn [mbind res_bind].
        eexists. split; [done |]. cbn [fst snd]. split; [| lia].
        exists (lows ++ [c]), (rotate1 highs), rest.
        rewrite !length_app, rotate1_length, <- !app_assoc. cbn. split; [done |].
        split; [lia |]. split; [lia |]. split.
        { rewrite Hp, rotate1_perm. rewrite (Permutation_middle highs). done. }
        split; [apply Forall_app; split; [done | constructor; [done | constructor]] |].
        rewrite rotate1_perm. done.
      * eexists. split; [done |]. cbn [fst snd]. split; [| lia].
        exists lows, (highs ++ [c]), rest. rewrite !length_app, <- !app_assoc. cbn.
        split; [done |]. split; [done |]. split; [lia |]. split; [done |]. split; [done |].
        apply Forall_app. split; [done | constructor; [unfold large; lia | constructor]].
  - exists [], [], seg. cbn. rewrite <- app_assoc. done.
Qed.

Hypothesis compar_asym : forall a b, compar a b < 0 -> ~ compar b a < 0.
Hypothesis compar_trans : forall a b c, le_by a b -> le_by b c -> le_by a c.

Lemma sorted_join p lows highs : Forall (small p) lows -> Forall (large p) highs ->
  StronglySorted le_by lows -> StronglySorted le_by highs ->
  StronglySorted le_by (lows ++ p :: highs).
Proof.
  intros HS HL Hlo Hhi. induction Hlo as [|x lows Hlo IH Hx]; cbn.
  - constructor; [done |]. eapply List.Forall_impl; [| exact HL]. done.
  - inversion HS as [|? ? Hsx HS']; subst. constructor; [by apply IH |].
    assert (Hxp : le_by x p) by (by apply compar_asym).
    apply Forall_app. split; [done |]. constructor; [done |].
    eapply List.Forall_impl; [| exact HL]. intros y Hy. by eapply compar_trans.
Qed.

Lemma qsort_aux_spec fuel : forall pre seg post, (length seg < fuel)%nat ->
  exists seg', qsort_aux fuel (pre ++ seg ++ post) (Z.of_nat (length pre)) (Z.of_nat (length seg))
      = Ok (pre ++ seg' ++ post) /\ seg' ≡ₚ seg /\ StronglySorted le_by seg'.
Proof.
  induction fuel as [|fuel IH]; intros pre seg post Hf; [lia |]. cbn [qsort_aux].
  destruct (Z.leb_spec (Z.of_nat (length seg)) 1).
  { exists seg. split; [done |]. split; [done |].
    destruct seg as [|x [|]]; [constructor | by repeat constructor | cbn in *; lia]. }
  destruct seg as [|p seg _] using rev_ind; [cbn in *; lia |].
  rewrite length_app in *. cbn [length] in *. rewrite Nat2Z.id.
  destruct (partition_spec pre seg p post) as (lows & highs & -> & Hp & HS & HL).
  cbn [mbind res_bind]. pose proof (Permutation_length Hp) as Hlen. rewrite length_app in Hlen.
  rewrite (app_assoc pre lows), (swap_rotate (pre ++ lows) highs p) by (rewrite length_app; lia).
  cbn [mbind res_bind]. rewrite <- app_assoc.
  destruct (IH pre lows (p :: rotate1 highs ++ post) ltac:(lia)) as (lows' & -> & Hlp & Hls).
  cbn [mbind res_bind].
  destruct (IH (pre ++ lows' ++ [p]) (rotate1 highs) post) as (highs' & E & Hhp & Hhs).
  { rewrite rotate1_length. lia. }
  pose proof (Permutation_length Hlp) as Hll.
  assert (Hbase : Z.of_nat (length pre) + (Z.of_nat (length lows) + 1)
                  = Z.of_nat (length (pre ++ lows' ++ [p]))) by (rewrite !length_app; cbn; lia).
  assert (Hnum : Z.of_nat (length seg + 1) - Z.of_nat (length lows) - 1
                 = Z.of_nat (length (rotate1 highs))) by (rewrite rotate1_length; lia).
  rewrite Hbase, Hnum. rewrite <- !app_assoc in E. cbn [app] in E. rewrite E.
  exists (lows' ++ p :: highs'). rewrite <- !app_assoc. split; [done |].
  rewrite rotate1_perm in Hhp. split.
  - rewrite Hlp, Hhp, Hp. rewrite <- Permutation_middle, Permutation_cons_append. done.
  - apply sorted_join; [by rewrite Hlp | by rewrite Hhp | done | done].
Qed.

(** ** Properties *)

(** C33: [qsort] sorts. For every comparison function that is asymmetric and
    whose "not greater" relation is transitive, [qsort] terminates without an
    access outside the array and leaves a permutation of the elements in which
    no later element compares below an earlier one. *)
Theorem qsort_sorts (l : list A) :
  exists l', qsort l = Ok l' /\ l' ≡ₚ l /\ StronglySorted le_by l'.
Proof.
  destruct (qsort_aux_spec (S (length l)) [] l [] ltac:(lia)) as (l' & E & H).
  cbn in E. rewrite !app_nil_r in E. by exists l'.
Qed.

End Qsort.

(** The comparison the register allocator sorts with: by an i32 key. *)
Definition compare_int (x y : Z) : Z := if x <? y then -1 else if x =? y then 0 else 1.

Lemma compare_int_neg x y : compare_int x y < 0 <-> x < y.
Proof. unfold compare_int. zcases. Qed.

Lemma qsort_sorts_witness :
  exists l', qsort compare_int [5; -3; 8; 0; 8; -3] = Ok l' /\ l' = [-3; -3; 0; 5; 8; 8] /\
    StronglySorted (le_by compare_int) l'.
Proof.
  destruct (qsort_sorts compare_int
    ltac:(intros a b; rewrite !compare_int_neg; lia)
    ltac:(unfold le_by; intros a b c; rewrite !compare_int_neg; lia)
    [5; -3; 8; 0; 8; -3]) as (l' & E & _ & Hs).
  exists l'. split; [exact E |]. split; [| exact Hs].
  vm_compute in E. injection E as <-. reflexivity.
Defined.
