(* ===== verification/Allocator.v ===== *)
(** * The heap of the C library ([src/libc/allocator.c])

    Addresses are integers, 0 is NULL. The [HeapEntryHeader]s in memory are a
    finite map from their addresses; the bytes of the blocks are a function of
    the address. [mmap] is the kernel's: a parameter that chooses an address for
    a new region given the regions mapped so far, or fails. *)

From S2P Require Import Prelude Maths.

Local Open Scope Z_scope.

(** ** Definitions *)

Definition align_to (n align : Z) : Z :=
  let x := u64 (align - 1) in
  Z.land (u64 (n + x)) (bnot 64 x).

Record HeapEntryHeader := mkHeader { h_size : Z; h_next : Z }.

Record heap := mkHeap {
  headers : gmap Z HeapEntryHeader;
  heap_free_list : Z;
  heap_block : Z;
  heap_block_used : Z;
  heap_block_size : Z;
  maps : list (Z * Z);          (* regions returned by mmap: address, size *)
  data : Z -> Z                 (* contents of the allocated blocks *)
}.

Definition empty_heap (bytes : Z -> Z) : heap := mkHeap ∅ 0 0 0 0 [] bytes.

(** [sizeof(HeapEntryHeader)]. *)
Definition HEADER_SIZE : Z := 16.
Definition ptr_for_header (header : Z) : Z := header + HEADER_SIZE.
Definition header_for_ptr (ptr : Z) : Z := ptr - HEADER_SIZE.

Definition set_header (st : heap) (a : Z) (h : HeapEntryHeader) : heap :=
  mkHeap (<[a := h]> (headers st)) (heap_free_list st) (heap_block st) (heap_block_used st)
    (heap_block_size st) (maps st) (data st).
Definition set_free_list (st : heap) (a : Z) : heap :=
  mkHeap (headers st) a (heap_block st) (heap_block_used st) (heap_block_size st) (maps st) (data st).
Definition set_block (st : heap) (block used size : Z) (m : list (Z * Z)) : heap :=
  mkHeap (headers st) (heap_free_list st) block used size m (data st).
Definition set_data (st : heap) (d : Z -> Z) : heap :=
  mkHeap (headers st) (heap_free_list st) (heap_block st) (heap_block_used st)
    (heap_block_size st) (maps st) d.

(** The search loop of [malloc]: the first free entry of at least [size] bytes,
    with its predecessor ([NULL] for the head). *)
Definition search_body (hs : gmap Z HeapEntryHeader) (size : Z) (s : Z * Z)
  : res (Z * Z + option (Z * Z)) :=
  let '(curr_entry, prev_entry) := s in
  if curr_entry =? 0 then Ok (inr None)
  else
    h ← of_opt (hs !! curr_entry);
    if size <=? h_size h then Ok (inr (Some (curr_entry, prev_entry)))
    else Ok (inl (h_next h, curr_entry)).

(** [while (extra > heap_block_size) heap_block_size *= 2;] *)
Definition double_body (extra : Z) (n : Z) : res (Z + Z) :=
  if n <? extra then Ok (inl (u64 (n * 2))) else Ok (inr n).

Section Mmap.
Context (mmap : list (Z * Z) -> Z -> option Z).

Definition malloc (st : heap) (size : Z) : res (heap * Z) :=
  if size =? 0 then Ok (st, 0)
  else
    found ← loop (S (S (base.size (headers st)))) (search_body (headers st) size) (heap_free_list st, 0);
    match found with
    | Some (curr_entry, prev_entry) =>
        curr ← of_opt (headers st !! curr_entry);
        if prev_entry =? 0 then Ok (set_free_list st (h_next curr), ptr_for_header curr_entry)
        else
          prev ← of_opt (headers st !! prev_entry);
          Ok (set_header st prev_entry (mkHeader (h_size prev) (h_next curr)), ptr_for_header curr_entry)
    | None =>
        let extra := align_to (u64 (HEADER_SIZE + size)) 8 in
        '(st, ok) ←
          (if heap_block_size st <? u64 (heap_block_used st + extra) then
             let n := if heap_block_size st =? 0 then 32768 else heap_block_size st in
             n ← loop 65 (double_body extra) n;
             match mmap (maps st) n with
             | None => Ok (set_block st (heap_block st) 0 n (maps st), false)
             | Some a => Ok (set_block st a 0 n ((a, n) :: maps st), true)
             end
           else Ok (st, true));
        if ok : bool then
          let new_header := heap_block st + heap_block_used st in
          let st := set_block st (heap_block st) (u64 (heap_block_used st + extra))
                      (heap_block_size st) (maps st) in
          Ok (set_header st new_header (mkHeader size 0), ptr_for_header new_header)
        else Ok (st, 0)
    end.

Definition free (st : heap) (ptr : Z) : res heap :=
  if ptr =? 0 then Ok st
  else
    let header := header_for_ptr ptr in
    h ← of_opt (headers st !! header);
    Ok (set_free_list (set_header st header (mkHeader (h_size h) (heap_free_list st))) header).

(** [memcpy(dest, src, n)] and [memset] on the bytes of the blocks. *)
Definition copy_data (d : Z -> Z) (dest src n : Z) : Z -> Z :=
  fun a => if (dest <=? a) && (a <? dest + n) then d (src + (a - dest)) else d a.
Definition fill_data (d : Z -> Z) (dest c n : Z) : Z -> Z :=
  fun a => if (dest <=? a) && (a <? dest + n) then c else d a.

Definition realloc (st : heap) (ptr size : Z) : res (heap * Z) :=
  if ptr =? 0 then malloc st size
  else if size =? 0 then Ok (st, 0)
  else
    h ← of_opt (headers st !! header_for_ptr ptr);
    let old_size := h_size h in
    if size <=? old_size then Ok (st, ptr)
    else
      '(st, new_ptr) ← malloc st size;
      if new_ptr =? 0 then Ok (st, 0)
      else
        st ← free (set_data st (copy_data (data st) new_ptr ptr old_size)) ptr;
        Ok (st, new_ptr).

(** [memset] through a NULL result is undefined, unless it writes no byte. *)
Definition calloc (st : heap) (nmemb size : Z) : res (heap * Z) :=
  if (nmemb =? 0) || (size =? 0) then Ok (st, 0)
  else
    '(st, ptr) ← malloc st (u64 (nmemb * size));
    if ptr =? 0 then if u64 (nmemb * size) =? 0 then Ok (st, ptr) else Stop Undef
    else Ok (set_data st (fill_data (data st) ptr 0 (u64 (nmemb * size))), ptr).

End Mmap.

(** ** Specification *)

(** Bytes an allocation of [size] occupies, header included. *)
Definition extent (size : Z) : Z := (HEADER_SIZE + size + 7) / 8 * 8.

(** The free list from [a] goes through exactly the headers [l]. *)
Fixpoint chain (hs : gmap Z HeapEntryHeader) (a : Z) (l : list Z) : Prop :=
  match l with
  | [] => a = 0
  | h :: l => a = h /\ h <> 0 /\ (exists hd, hs !! h = Some hd /\ chain hs (h_next hd) l)
  end.

Definition apart (a n b m : Z) : Prop := (a + n <= b) \/ (b + m <= a).

(** The heap invariant: the free list is a chain of distinct headers [fl];
    extents of headers are disjoint from each other and from the unused tail of
    the current block, and lie in mapped regions. *)
Record heap_inv (st : heap) (fl : list Z) : Prop := {
  inv_chain : chain (headers st) (heap_free_list st) fl;
  inv_nodup : NoDup fl;
  inv_hdr : forall h hd, headers st !! h = Some hd ->
    0 < h /\ h mod 8 = 0 /\ 0 < h_size hd /\
    (exists a n, (a, n) ∈ maps st /\ a <= h /\ h + extent (h_size hd) <= a + n);
  inv_apart : forall h1 h2 hd1 hd2, headers st !! h1 = Some hd1 -> headers st !! h2 = Some hd2 ->
    h1 <> h2 -> apart h1 (extent (h_size hd1)) h2 (extent (h_size hd2));
  inv_tail : forall h hd, headers st !! h = Some hd ->
    apart h (extent (h_size hd)) (heap_block st + heap_block_used st)
      (heap_block_size st - heap_block_used st);
  inv_block : 0 <= heap_block_used st <= heap_block_size st /\ heap_block_size st <= 2 ^ 62 /\
    heap_block_used st mod 8 = 0 /\
    (heap_block_size st = 0 \/
     (0 < heap_block st /\ heap_block st mod 8 = 0 /\ (heap_block st, heap_block_size st) ∈ maps st))
}.

(** What [mmap] guarantees: a new region of the asked size, page aligned and
    apart from all regions mapped before. *)
Definition mmap_spec (mmap : list (Z * Z) -> Z -> option Z) : Prop := forall m n a, mmap m n = Some a ->
  0 < a /\ a mod 4096 = 0 /\ forall b k, (b, k) ∈ m -> apart a n b k.

(** Header [h] is a live allocation: not on the free list [fl]. *)
Definition live (st : heap) (fl : list Z) (h : Z) (size : Z) : Prop :=
  (h ∉ fl) /\ (exists nx, headers st !! h = Some (mkHeader size nx)).

(** ** Lemmas *)

Lemma align_to_8 n : 0 <= n -> n + 7 < 2 ^ 64 -> align_to n 8 = (n + 7) / 8 * 8.
Proof.
  intros Hn Hb. unfold align_to. rewrite (wrap_small 64 (8 - 1)), wrap_small by lia.
  change (8 - 1) with (2 ^ 3 - 1). rewrite land_bnot_mask by (done || split; lia).
  do 2 f_equal.
Qed.

Lemma extent_bounds size : 0 <= size -> HEADER_SIZE + size <= extent size < HEADER_SIZE + size + 8 /\
  extent size mod 8 = 0.
Proof.
  intros Hs. unfold extent. split; [| by rewrite Z.mod_mul].
  pose proof (Z.div_mod (HEADER_SIZE + size + 7) 8 ltac:(lia)).
  pose proof (Z.mod_pos_bound (HEADER_SIZE + size + 7) 8 ltac:(lia)). lia.
Qed.

Lemma chain_lookup hs a l h : chain hs a l -> h ∈ l -> is_Some (hs !! h) /\ h <> 0.
Proof.
  revert a. induction l as [|x l IH]; intros a Hc Hin; [by apply not_elem_of_nil in Hin |].
  cbn in Hc. destruct Hc as (-> & Hx & hd & E & Hc).
  apply elem_of_cons in Hin as [->|Hin]; [by rewrite E | eauto].
Qed.

Lemma chain_update hs a l q x : q ∉ l -> chain hs a l -> chain (<[q := x]> hs) a l.
Proof.
  revert a. induction l as [|h l IH]; intros a Hq Hc; [done |].
  apply not_elem_of_cons in Hq as [Hne Hq]. cbn in *. destruct Hc as (-> & Hh & hd & E & Hc).
  repeat (split; [done |]). exists hd. rewrite lookup_insert_ne by done. split; [done |]. by apply IH.
Qed.

(** Unlinking [h], the successor of [q]. *)
Lemma chain_unlink hs a l1 q h l2 hq hh : NoDup (l1 ++ q :: h :: l2) ->
  hs !! q = Some hq -> hs !! h = Some hh -> chain hs a (l1 ++ q :: h :: l2) ->
  chain (<[q := mkHeader (h_size hq) (h_next hh)]> hs) a (l1 ++ q :: l2).
Proof.
  intros Hnd Eq Eh. revert a. induction l1 as [|x l1 IH]; intros a Hc.
  - cbn in *. destruct Hc as (-> & Hq & hq' & Eq' & Hh & Hh0 & hh' & Eh' & Hc).
    assert (hh' = hh) as -> by congruence.
    repeat (split; [done |]). eexists. rewrite lookup_insert_eq. split; [done |]. cbn.
    apply chain_update; [| done]. apply NoDup_cons in Hnd as [Hn _]. set_solver.
  - cbn in *. destruct Hc as (-> & Hx & hd & Ex & Hc). apply NoDup_cons in Hnd as [Hn Hnd].
    repeat (split; [done |]). exists hd. rewrite lookup_insert_ne by set_solver.
    split; [done |]. by apply IH.
Qed.

Lemma chain_length hs a l : chain hs a l -> NoDup l -> (length l <= base.size hs)%nat.
Proof.
  intros Hc Hnd. rewrite <- size_dom, <- (size_list_to_set (C := gset Z)) by done.
  apply subseteq_size. intros h Hh. apply elem_of_list_to_set in Hh.
  apply elem_of_dom. by eapply chain_lookup.
Qed.

Lemma last_shift (l : list Z) x d : List.last (x :: l) d = List.last l x.
Proof. revert x. induction l as [|y l IH]; intros x; [done |]. cbn in *. destruct l; [done | apply IH]. Qed.

(** The search returns the first entry that is large enough, and its predecessor. *)
Lemma search_spec hs size : forall l a prev fuel, chain hs a l -> (length l < fuel)%nat ->
  loop fuel (search_body hs size) (a, prev) = Ok None \/
  exists l1 h l2 hd, l = l1 ++ h :: l2 /\ hs !! h = Some hd /\ size <= h_size hd /\
    loop fuel (search_body hs size) (a, prev) = Ok (Some (h, List.last l1 prev)).
Proof.
  induction l as [|x l IH]; intros a prev [|fuel] Hc Hf; cbn in Hf; try lia.
  - cbn in Hc. subst a. by left.
  - cbn in Hc. destruct Hc as (-> & Hx & hd & E & Hc). cbn [loop search_body].
    destruct (Z.eqb_spec x 0); [done |]. rewrite E. cbn [of_opt mbind res_bind].
    destruct (Z.leb_spec size (h_size hd)).
    + right. by exists [], x, l, hd.
    + destruct (IH (h_next hd) x fuel Hc ltac:(lia)) as [->|(l1 & h & l2 & hd' & -> & Eh & Hs & ->)];
        [by left |].
      right. exists (x :: l1), h, l2, hd'. repeat (split; [done |]). by rewrite last_shift.
Qed.

(** An operation that keeps the block, the regions and every header's size keeps
    the parts of the invariant that do not mention the free list. *)
Lemma heap_inv_same_sizes st st' fl fl' : heap_inv st fl ->
  (forall h hd', headers st' !! h = Some hd' ->
     exists hd, headers st !! h = Some hd /\ h_size hd = h_size hd') ->
  heap_block st' = heap_block st -> heap_block_used st' = heap_block_used st ->
  heap_block_size st' = heap_block_size st -> maps st' = maps st ->
  chain (headers st') (heap_free_list st') fl' -> NoDup fl' -> heap_inv st' fl'.
Proof.
  intros [Ic In Ih Ia It Ib] Hsz E1 E2 E3 E4 Hc Hn. constructor; [done | done | | | |].
  - intros h hd' E. rewrite E4. destruct (Hsz h hd' E) as (hd & E' & <-). eauto.
  - intros h1 h2 hd1 hd2 H1 H2 Hne.
    destruct (Hsz h1 hd1 H1) as (? & ? & <-), (Hsz h2 hd2 H2) as (? & ? & <-). eauto.
  - intros h hd' E. rewrite E1, E2, E3. destruct (Hsz h hd' E) as (hd & E' & <-). eauto.
  - rewrite E1, E2, E3, E4. done.
Qed.

Lemma insert_same_size (hs : gmap Z HeapEntryHeader) q hq x h hd' : hs !! q = Some hq ->
  h_size x = h_size hq -> <[q := x]> hs !! h = Some hd' ->
  exists hd, hs !! h = Some hd /\ h_size hd = h_size hd'.
Proof.
  intros Hq Hs E. destruct (decide (q = h)) as [->|].
  - rewrite lookup_insert_eq in E. simplify_eq. eauto.
  - rewrite lookup_insert_ne in E by done. eauto.
Qed.

Lemma list_snoc_last (l : list Z) d : l <> [] -> exists l', l = l' ++ [List.last l d].
Proof. intros Hl. exists (removelast l). by apply app_removelast_last. Qed.

Section Correct.
Context (mmap : list (Z * Z) -> Z -> option Z) (Hmmap : mmap_spec mmap).

(** The result of a successful [malloc]: a header that was not live, now live
    with at least the asked size, all other live headers kept. *)
Definition malloc_post (st : heap) (fl : list Z) (size : Z) (st' : heap) (p : Z) : Prop :=
  exists fl' sz, heap_inv st' fl' /\ live st' fl' (header_for_ptr p) sz /\ size <= sz /\
    (forall s, ~ live st fl (header_for_ptr p) s) /\
    (forall h s, live st fl h s -> live st' fl' h s) /\ data st' = data st.

(** Reuse of the entry found by the search. *)
Lemma malloc_reuse st fl l1 h l2 hd size : heap_inv st fl -> fl = l1 ++ h :: l2 ->
  headers st !! h = Some hd -> size <= h_size hd ->
  exists st', (if List.last l1 0 =? 0 then Ok (set_free_list st (h_next hd), ptr_for_header h)
     else prev ← of_opt (headers st !! List.last l1 0);
          Ok (set_header st (List.last l1 0) (mkHeader (h_size prev) (h_next hd)), ptr_for_header h))
    = Ok (st', ptr_for_header h) /\ malloc_post st fl size st' (ptr_for_header h).
Proof.
  intros Hinv -> Eh Hs. pose proof Hinv as [Ic In Ih Ia It Ib].
  assert (Hhp : header_for_ptr (ptr_for_header h) = h) by (unfold header_for_ptr, ptr_for_header; lia).
  assert (Hnl : forall s, ~ live st (l1 ++ h :: l2) h s) by (intros s [Hn _]; set_solver).
  destruct hd as [sz nx]. cbn [h_size h_next] in *.
  destruct (decide (l1 = [])) as [->|Hl1].
  - cbn [List.last Z.eqb]. eexists. split; [done |]. exists l2, sz. rewrite Hhp.
    cbn in In. apply NoDup_cons in In as [Hn In]. split.
    { eapply heap_inv_same_sizes; [exact Hinv | eauto | done.. | | done].
      cbn in Ic |- *. destruct Ic as (_ & _ & hd' & E' & Hc). congruence || (by rewrite Eh in E'; injection E' as <-). }
    split; [split; [done | by exists nx] |]. split; [done |]. split; [done |]. split; [| done].
    intros h' s [Hn' E']. split; [set_solver | done].
  - destruct (list_snoc_last l1 0 Hl1) as [l1' El1]. set (q := List.last l1 0) in *. clearbody q. subst l1.
    rewrite <- app_assoc in *. cbn [app] in *.
    destruct (chain_lookup _ _ _ q Ic ltac:(set_solver)) as [[hq Eq] Hq0].
    destruct (Z.eqb_spec q 0); [done |]. rewrite Eq. cbn [of_opt mbind res_bind].
    eexists. split; [done |]. exists (l1' ++ q :: l2), sz. rewrite Hhp.
    assert (Hnd' : NoDup (l1' ++ q :: l2)).
    { apply list.NoDup_app in In as (N1 & N2 & N3). apply NoDup_cons in N3 as [N3 N4].
      apply NoDup_cons in N4 as [N4 N5]. apply list.NoDup_app. split; [done |].
      split; [set_solver |]. apply NoDup_cons. split; [set_solver | done]. }
    assert (Hhn : (h ∉ l1' ++ q :: l2) /\ q <> h).
    { apply list.NoDup_app in In as (N1 & N2 & N3). apply NoDup_cons in N3 as [N3 N4].
      apply NoDup_cons in N4 as [N4 N5]. set_solver. }
    split.
    { eapply heap_inv_same_sizes; [exact Hinv | | done.. | | done].
      - cbn. intros h0 hd0. by apply (insert_same_size _ q hq).
      - cbn. apply (chain_unlink _ _ l1' q h l2 hq (mkHeader sz nx)); done. }
    split. { split; [tauto |]. exists nx. cbn. by rewrite lookup_insert_ne by tauto. }
    split; [done |]. split; [done |]. split; [| done].
    intros h' s [Hn' [nx' E']]. split; [set_solver |]. cbn. exists nx'.
    rewrite lookup_insert_ne; [done | set_solver].
Qed.

Lemma double_spec extra n : 0 < n <= 2 ^ 62 -> extra <= 2 ^ 61 ->
  exists m, loop 65 (double_body extra) n = Ok m /\ extra <= m /\ n <= m <= 2 ^ 62.
Proof.
  intros Hn He.
  destruct (loop_total (fun m => n <= m <= 2 ^ 62) (fun m => Z.to_nat (64 - Z.log2 m))
    (fun m => extra <= m /\ n <= m <= 2 ^ 62) (double_body extra)) with (fuel := 65%nat) (s := n)
    as (m & E & H); [| lia | pose proof (Z.log2_nonneg n); lia | by exists m].
  intros m Hm. unfold double_body. destruct (Z.ltb_spec m extra).
  - rewrite wrap_small by lia. eexists. split; [done |]. cbn. split; [lia |].
    rewrite Z.mul_comm, Z.log2_double by lia. pose proof (Z.log2_nonneg m).
    assert (Z.log2 m < 63) by (apply Z.log2_lt_pow2; lia). lia.
  - eexists. split; [done |]. cbn. lia.
Qed.

(** A successful [mmap] starts an empty block apart from everything. *)
Lemma fresh_block_inv st fl n a : heap_inv st fl -> 0 < n <= 2 ^ 62 -> mmap (maps st) n = Some a ->
  heap_inv (set_block st a 0 n ((a, n) :: maps st)) fl.
Proof.
  intros [Ic In Ih Ia It Ib] Hn Hm. destruct (Hmmap _ _ _ Hm) as (Ha & Hal & Hap).
  constructor; cbn; [done | done | | done | |].
  - intros h hd E. destruct (Ih h hd E) as (H1 & H2 & H3 & b & k & Hin & Hb).
    repeat (split; [done |]). exists b, k. split; [set_solver | done].
  - intros h hd E. destruct (Ih h hd E) as (H1 & H2 & H3 & b & k & Hin & Hb).
    specialize (Hap b k Hin). unfold apart in *. lia.
  - split; [lia |]. split; [lia |]. split; [done |]. right. split; [done |]. split; [| set_solver].
    pose proof (Z.div_mod a 4096 ltac:(lia)) as D. rewrite Hal, Z.add_0_r in D. rewrite D.
    replace (4096 * (a / 4096)) with (512 * (a / 4096) * 8) by lia. apply Z.mod_mul. lia.
Qed.

(** Carving a new header out of the tail of the current block. *)
Lemma carve st fl size : heap_inv st fl -> 0 < size -> 0 < heap_block_size st ->
  heap_block_used st + extent size <= heap_block_size st ->
  let h := heap_block st + heap_block_used st in
  malloc_post st fl size
    (set_header (set_block st (heap_block st) (heap_block_used st + extent size)
       (heap_block_size st) (maps st)) h (mkHeader size 0)) (ptr_for_header h).
Proof.
  intros Hinv Hs Hbs Hfit h. pose proof Hinv as [Ic In Ih Ia It Ib].
  destruct Ib as (Hu & Hb62 & Hu8 & [?|(Hb0 & Hb8 & Hbm)]); [lia |].
  destruct (extent_bounds size ltac:(lia)) as [He He8]. unfold HEADER_SIZE in He.
  assert (Hpos : forall s, 0 < s -> 0 < extent s) by (intros s Hs'; pose proof (extent_bounds s); unfold HEADER_SIZE in *; lia).
  assert (Hnone : headers st !! h = None).
  { destruct (headers st !! h) as [hd|] eqn:E; [exfalso | done].
    destruct (Ih h hd E) as (_ & _ & Hsz & _). pose proof (Hpos _ Hsz).
    specialize (It h hd E). unfold apart, h in *. lia. }
  assert (Hfl : h ∉ fl).
  { intros Hin. destruct (chain_lookup _ _ _ _ Ic Hin) as [[? E] _]. congruence. }
  unfold malloc_post, header_for_ptr, ptr_for_header. replace (h + HEADER_SIZE - HEADER_SIZE) with h by lia.
  exists fl, size. split.
  { constructor; cbn.
    - by apply chain_update.
    - done.
    - intros h' hd E. apply lookup_insert_Some in E as [[<- <-]|[Hne E]]; [| by apply Ih].
      cbn. split; [unfold h; lia |]. split.
      { unfold h. rewrite Z.add_mod, Hb8, Hu8 by lia. done. }
      split; [done |]. exists (heap_block st), (heap_block_size st). split; [done |]. unfold h. lia.
    - intros h1 h2 hd1 hd2 E1 E2 Hne.
      apply lookup_insert_Some in E1 as [[<- <-]|[Hn1 E1]];
        apply lookup_insert_Some in E2 as [[<- <-]|[Hn2 E2]]; [done | | |].
      + cbn. specialize (It h2 hd2 E2). unfold apart, h in *. lia.
      + cbn. specialize (It h1 hd1 E1). unfold apart, h in *. lia.
      + by apply Ia.
    - intros h' hd E. apply lookup_insert_Some in E as [[<- <-]|[Hne E]].
      + cbn. unfold apart, h. lia.
      + specialize (It h' hd E). unfold apart in *. lia.
    - split; [lia |]. split; [done |]. split; [rewrite Z.add_mod, Hu8, He8 by lia; done |]. right. done. }
  split; [split; [done | exists 0; cbn; by rewrite lookup_insert_eq] |].
  split; [lia |]. split; [intros s [_ [nx E]]; congruence |]. split; [| done].
  intros h' s [Hn [nx E]]. split; [done |]. exists nx. cbn.
  rewrite lookup_insert_ne; [done | congruence].
Qed.

Lemma malloc_spec st fl size : heap_inv st fl -> 0 < size <= 2 ^ 60 ->
  (exists st', malloc mmap st size = Ok (st', 0) /\ heap_block_used st' = 0 /\
     mmap (maps st) (heap_block_size st') = None) \/
  (exists st' p, malloc mmap st size = Ok (st', p) /\ p <> 0 /\ malloc_post st fl size st' p).
Proof.
  intros Hinv Hs. pose proof Hinv as [Ic In Ih Ia It Ib]. unfold malloc.
  destruct (Z.eqb_spec size 0); [lia |]. pose proof (chain_length _ _ _ Ic In) as Hlen.
  destruct (search_spec (headers st) size fl (heap_free_list st) 0 (S (S (base.size (headers st)))) Ic ltac:(lia))
    as [->|(l1 & h & l2 & hd & Efl & Eh & Hsz & ->)]; cbn [mbind res_bind].
  2: { right. rewrite Eh. cbn [of_opt mbind res_bind].
       destruct (malloc_reuse st fl l1 h l2 hd size Hinv Efl Eh Hsz) as (st' & -> & Hp).
       exists st', (ptr_for_header h). split; [done |]. split; [| done].
       destruct (Ih h hd Eh) as [? _]. unfold ptr_for_header, HEADER_SIZE. lia. }
  destruct (extent_bounds size ltac:(lia)) as [He He8]. unfold HEADER_SIZE in He.
  assert (Eex : align_to (u64 (HEADER_SIZE + size)) 8 = extent size).
  { unfold extent, HEADER_SIZE. rewrite (wrap_small 64 (16 + size)), align_to_8 by lia. done. }
  rewrite Eex. destruct Ib as (Hu & Hb62 & Hu8 & Hb). rewrite (wrap_small 64 (_ + _)) by lia.
  destruct (Z.ltb_spec (heap_block_size st) (heap_block_used st + extent size)) as [Hlt|Hge].
  - destruct (double_spec (extent size)
      (if heap_block_size st =? 0 then 32768 else heap_block_size st)) as (k & -> & Hn & Hn2);
      [destruct (Z.eqb_spec (heap_block_size st) 0); lia | lia |].
    cbn [mbind res_bind]. destruct (mmap (maps st) k) as [a|] eqn:Em; cbn [mbind res_bind].
    + right. pose proof (fresh_block_inv st fl k a Hinv ltac:(lia) Em) as Hinv1.
      set (st1 := set_block st a 0 k ((a, k) :: maps st)) in *.
      cbn [heap_block heap_block_used heap_block_size maps set_block st1].
      rewrite Z.add_0_l, (wrap_small 64 (extent size)) by lia.
      pose proof (carve st1 fl size Hinv1 ltac:(lia) ltac:(cbn; lia) ltac:(cbn; lia)) as Hp.
      eexists _, _. split; [done |]. destruct (Hmmap _ _ _ Em) as [Ha _].
      split; [unfold ptr_for_header, HEADER_SIZE; lia |].
      cbn [heap_block heap_block_used heap_block_size maps st1 set_block] in Hp.
      rewrite Z.add_0_l, Z.add_0_r in Hp. rewrite Z.add_0_r. exact Hp.
    + left. eexists. split; [done |]. done.
  - right. cbn [mbind res_bind]. rewrite (wrap_small 64 (_ + _)) by lia.
    eexists _, _. split; [done |].
    destruct Hb as [?|(Hb0 & _)]; [lia |].
    split; [unfold ptr_for_header, HEADER_SIZE; lia |].
    by apply carve; [| lia | lia |].
Qed.

Lemma free_spec st fl ptr size : heap_inv st fl -> live st fl (header_for_ptr ptr) size -> ptr <> 0 ->
  exists st', free st ptr = Ok st' /\ heap_inv st' (header_for_ptr ptr :: fl) /\ data st' = data st /\
    forall h s, h <> header_for_ptr ptr ->
      live st fl h s <-> live st' (header_for_ptr ptr :: fl) h s.
Proof.
  intros Hinv [Hnf [nx E]] Hp. pose proof Hinv as [Ic In Ih Ia It Ib]. unfold free.
  destruct (Z.eqb_spec ptr 0); [done |]. rewrite E. cbn [of_opt mbind res_bind h_size].
  set (h := header_for_ptr ptr) in *. destruct (Ih h _ E) as (Hh0 & _).
  eexists. split; [done |]. split.
  { eapply heap_inv_same_sizes; [exact Hinv | | done.. | |].
    - cbn. intros h' hd'. by apply (insert_same_size _ h (mkHeader size nx)).
    - cbn. split; [done |]. split; [lia |]. eexists. rewrite lookup_insert_eq. split; [done |]. cbn.
      by apply chain_update.
    - by apply NoDup_cons. }
  split; [done |]. intros h' s Hne. unfold live. cbn. rewrite lookup_insert_ne by done.
  rewrite not_elem_of_cons. tauto.
Qed.

End Correct.

(** A client of the heap: the blocks it owns (pointer to size asked for), and
    the calls it may make. A call whose [mmap] fails ends the run. *)
Inductive reach (mmap : list (Z * Z) -> Z -> option Z) : heap -> gmap Z Z -> Prop :=
| reach_init d : reach mmap (empty_heap d) ∅
| reach_malloc st bs size st' p : reach mmap st bs -> 0 < size <= 2 ^ 60 ->
    malloc mmap st size = Ok (st', p) -> p <> 0 -> reach mmap st' (<[p := size]> bs)
| reach_free st bs p size st' : reach mmap st bs -> bs !! p = Some size ->
    free st p = Ok st' -> reach mmap st' (delete p bs)
| reach_realloc st bs p old size st' q : reach mmap st bs -> bs !! p = Some old ->
    0 < size <= 2 ^ 60 -> realloc mmap st p size = Ok (st', q) -> q <> 0 ->
    reach mmap st' (<[q := size]> (delete p bs)).

(** The blocks of a client are live headers of at least the sizes it asked for. *)
Definition owns (st : heap) (bs : gmap Z Z) : Prop :=
  exists fl, heap_inv st fl /\ forall p n, bs !! p = Some n ->
    p <> 0 /\ 0 < n /\ exists s, n <= s /\ live st fl (header_for_ptr p) s.

Section Client.
Context (mmap : list (Z * Z) -> Z -> option Z) (Hmmap : mmap_spec mmap).

Lemma empty_inv d : heap_inv (empty_heap d) [].
Proof.
  constructor; cbn; try (intros *; by rewrite lookup_empty); [done | by apply NoDup_nil |].
  split; [lia |]. split; [lia |]. split; [done | by left].
Qed.

Lemma owns_apart st bs p n q m : owns st bs -> bs !! p = Some n -> bs !! q = Some m -> p <> q ->
  apart p n q m.
Proof.
  intros (fl & Hinv & Ho) Hp Hq Hne.
  destruct (Ho p n Hp) as (_ & Hn & s & Hs & _ & nx & E).
  destruct (Ho q m Hq) as (_ & Hm & t & Ht & _ & ny & F).
  pose proof (inv_apart _ _ Hinv _ _ _ _ E F ltac:(unfold header_for_ptr; lia)) as Ha. cbn in Ha.
  pose proof (extent_bounds s ltac:(lia)). pose proof (extent_bounds t ltac:(lia)).
  unfold apart, header_for_ptr, HEADER_SIZE in *. lia.
Qed.

Lemma owns_malloc st bs size st' p : owns st bs -> 0 < size <= 2 ^ 60 ->
  malloc mmap st size = Ok (st', p) -> p <> 0 ->
  bs !! p = None /\ data st' = data st /\ owns st' (<[p := size]> bs).
Proof.
  intros (fl & Hinv & Ho) Hs E Hp.
  destruct (malloc_spec mmap Hmmap st fl size Hinv Hs) as [(st1 & E' & _)|(st1 & p1 & E' & _ & Hpost)];
    rewrite E in E'; [by injection E' as _ -> | injection E' as <- <-].
  destruct Hpost as (fl' & sz & Hinv' & Hl & Hsz & Hnew & Hold & Hd).
  split; [| split; [done |]].
  - destruct (bs !! p) as [n|] eqn:F; [| done]. destruct (Ho p n F) as (_ & _ & s & _ & Hls).
    by destruct (Hnew s).
  - exists fl'. split; [done |]. intros q n [[<- <-]|[Hne F]]%lookup_insert_Some.
    + repeat (split; [lia |]). eauto.
    + destruct (Ho q n F) as (? & ? & s & ? & ?). naive_solver.
Qed.

Lemma owns_free st bs p size : owns st bs -> bs !! p = Some size ->
  exists st', free st p = Ok st' /\ data st' = data st /\ owns st' (delete p bs).
Proof.
  intros (fl & Hinv & Ho) E. destruct (Ho p size E) as (Hp & Hn & s & Hs & Hl).
  destruct (free_spec st fl p s Hinv Hl Hp) as (st' & -> & Hinv' & Hd & Hiff).
  exists st'. split; [done |]. split; [done |]. exists (header_for_ptr p :: fl). split; [done |].
  intros q n [Hne F]%lookup_delete_Some. destruct (Ho q n F) as (? & ? & t & ? & ?).
  repeat (split; [done |]). exists t. split; [done |]. apply Hiff; [| done].
  unfold header_for_ptr. lia.
Qed.

Lemma owns_data st bs d : owns st bs -> owns (set_data st d) bs.
Proof. intros (fl & [? ? ? ? ? ?] & Ho). exists fl. split; [by constructor | done]. Qed.

Lemma owns_realloc st bs p old size st' q : owns st bs -> bs !! p = Some old -> 0 < size <= 2 ^ 60 ->
  realloc mmap st p size = Ok (st', q) -> q <> 0 ->
  owns st' (<[q := size]> (delete p bs)) /\
  forall i, 0 <= i < Z.min old size -> data st' (q + i) = data st (p + i).
Proof.
  intros Ho Ep Hs E Hq. pose proof Ho as (fl & Hinv & Hl).
  destruct (Hl p old Ep) as (Hp & Hn & s & Hs' & Hnf & nx & Eh). unfold realloc in E.
  destruct (Z.eqb_spec p 0); [done |]. destruct (Z.eqb_spec size 0); [lia |].
  rewrite Eh in E. cbn [of_opt mbind res_bind h_size] in E.
  destruct (Z.leb_spec size s).
  - injection E as <- <-. split; [| done]. rewrite insert_delete_eq. exists fl. split; [done |].
    intros r k [[<- <-]|[Hne F]]%lookup_insert_Some; [| by apply Hl].
    split; [done |]. split; [lia |]. exists s. split; [lia |]. split; [done |]. by exists nx.
  - apply res_bind_Ok in E as ([st1 r] & E1 & E). destruct (Z.eqb_spec r 0) as [|Hr]; [congruence |].
    destruct (owns_malloc st bs size st1 r Ho Hs E1 Hr) as (Hnew & Hd & Ho1).
    set (d := copy_data (data st1) r p s) in *. apply res_bind_Ok in E as (st2 & E2 & E).
    injection E as <- <-. assert (Hne : r <> p) by congruence.
    destruct (owns_free (set_data st1 d) (<[r := size]> bs) p old) as (st3 & E3 & Hd3 & Ho3);
      [by apply owns_data | by rewrite lookup_insert_ne |].
    rewrite E3 in E2. injection E2 as <-. rewrite delete_insert_ne in Ho3 by done.
    split; [done |]. intros i Hi. rewrite Hd3. cbn. unfold d, copy_data. zcases; cbn. rewrite Hd. f_equal. lia.
Qed.

(** [realloc] of an owned block returns; NULL only when [mmap] refused. *)
Lemma realloc_returns st bs p old size : owns st bs -> bs !! p = Some old -> 0 < size <= 2 ^ 60 ->
  exists st' q, realloc mmap st p size = Ok (st', q) /\ (q = 0 -> exists n, mmap (maps st) n = None).
Proof.
  intros Ho Ep Hs. pose proof Ho as (fl & Hinv & Hl).
  destruct (Hl p old Ep) as (Hp & Hn & s & Hs' & Hnf & nx & Eh). unfold realloc.
  destruct (Z.eqb_spec p 0); [done |]. destruct (Z.eqb_spec size 0); [lia |].
  rewrite Eh. cbn [of_opt mbind res_bind h_size]. destruct (Z.leb_spec size s); [exists st, p; split; [done | lia] |].
  destruct (malloc_spec mmap Hmmap st fl size Hinv Hs) as [(st1 & E1 & _ & E)|(st1 & r & E1 & Hr & _)];
    rewrite E1; cbn [mbind res_bind].
  - exists st1, 0. split; [done |]. eauto.
  - destruct (Z.eqb_spec r 0); [done |].
    destruct (owns_malloc st bs size st1 r Ho Hs E1 Hr) as (Hnew & _ & Ho1).
    destruct (owns_free (set_data st1 (copy_data (data st1) r p s)) (<[r := size]> bs) p old) as (st3 & -> & _);
      [by apply owns_data | rewrite lookup_insert_ne; congruence |]. by exists st3, r.
Qed.

Lemma reach_owns st bs : reach mmap st bs -> owns st bs.
Proof.
  induction 1 as [d|st bs size st' p _ IH Hs E Hp|st bs p size st' _ IH Hb E|st bs p old size st' q _ IH Hb Hs E Hq].
  - exists []. split; [apply empty_inv |]. intros p n. by rewrite lookup_empty.
  - by apply (owns_malloc st bs size st' p).
  - destruct (owns_free st bs p size IH Hb) as (st1 & E1 & _ & Ho). congruence.
  - by apply (owns_realloc st bs p old size st' q).
Qed.

End Client.

(** An [mmap] that always succeeds, above every region mapped before. *)
Definition mmap_above (m : list (Z * Z)) (n : Z) : option Z :=
  Some (4096 * (1 + foldr (fun bk acc => Z.max acc ((bk.1 + bk.2) / 4096 + 1)) 0 m)).
(** The same, failing for every region but the first. *)
Definition mmap_once (m : list (Z * Z)) (n : Z) : option Z :=
  match m with [] => mmap_above m n | _ => None end.

Lemma mmap_above_spec : mmap_spec mmap_above.
Proof.
  intros m n a E. unfold mmap_above in E.
  set (f := foldr _ 0 m) in E. injection E as <-.
  assert (Hf : 0 <= f /\ forall b k, (b, k) ∈ m -> b + k <= 4096 * f).
  { subst f. induction m as [|[b k] m [IH1 IH2]]; cbn.
    - split; [lia |]. intros b k H. by apply not_elem_of_nil in H.
    - split; [lia |]. intros b' k' [E|H]%elem_of_cons; [injection E as -> -> | specialize (IH2 _ _ H); lia].
      pose proof (Z.div_mod (b + k) 4096 ltac:(lia)). pose proof (Z.mod_pos_bound (b + k) 4096 ltac:(lia)). lia. }
  destruct Hf as [Hf Hb]. split; [lia |]. split; [rewrite Z.mul_comm; by apply Z.mod_mul |].
  intros b k H. specialize (Hb b k H). unfold apart. lia.
Qed.

Lemma mmap_once_spec : mmap_spec mmap_once.
Proof. intros [|r m] n a E; [exact (mmap_above_spec [] n a E) | done]. Qed.

(** ** Properties *)


Definition heap_of {A} (x : res (heap * A)) : heap :=
  match x with Ok (st, _) => st | _ => empty_heap (fun _ => 0) end.


(** [malloc] of a positive size on a reachable heap returns: either NULL,
    only after [mmap] failed, or a block that is apart from every block the
    client owns, leaving the contents of memory alone. *)
Theorem malloc_fresh_block mmap st bs size (Hmmap : mmap_spec mmap) (Hr : reach mmap st bs)
    (Hs : 0 < size <= 2 ^ 60) :
  exists st' p, malloc mmap st size = Ok (st', p) /\
    ((p = 0 /\ mmap (maps st) (heap_block_size st') = None) \/
     (p <> 0 /\ data st' = data st /\ forall q n, bs !! q = Some n -> apart p size q n)).
Proof.
  pose proof (reach_owns mmap Hmmap st bs Hr) as Ho. pose proof Ho as (fl & Hinv & _).
  destruct (malloc_spec mmap Hmmap st fl size Hinv Hs) as [(st' & E & _ & Hn)|(st' & p & E & Hp & _)].
  - eauto 10.
  - exists st', p. split; [done |]. right. split; [done |].
    destruct (owns_malloc mmap Hmmap st bs size st' p Ho Hs E Hp) as (Hnew & Hd & Ho').
    split; [done |]. intros q n F. assert (p <> q) by congruence.
    apply (owns_apart st' (<[p := size]> bs)); [done | by rewrite lookup_insert_eq | | done].
    by rewrite lookup_insert_ne.
Qed.

Lemma malloc_fresh_block_witness : exists st' p,
  malloc mmap_above (empty_heap (fun _ => 0)) 100 = Ok (st', p) /\
    ((p = 0 /\ mmap_above [] (heap_block_size st') = None) \/
     (p <> 0 /\ data st' = (fun _ => 0) /\ forall q n, (∅ : gmap Z Z) !! q = Some n -> apart p 100 q n)).
Proof.
  apply (malloc_fresh_block mmap_above (empty_heap (fun _ => 0)) ∅ 100 mmap_above_spec); [apply reach_init | lia].
Defined.



