(* ===== verification/Ir.v ===== *)
(** * The intermediate representation and its builder ([src/src/ir.h], [src/src/ir.c])

    Pointers to pool objects are indices into the pool of their kind: a module
    keeps its globals, struct types, constants, blocks and instructions in lists
    that only grow. Names are strings; [double]s are the IEEE numbers of
    [SpecFloat]. The fields that only [asm_gen.c] writes (the labels and call
    sequences of blocks and globals) are left out. *)

From Stdlib Require Import SpecFloat.
From S2P Require Import Prelude.
From stdpp Require Import pretty.

Local Open Scope Z_scope.

(** ** Data *)

Inductive IrType :=
| IR_VOID
| IR_INT (bit_width : Z)
| IR_FLOAT (float_bits : Z)
| IR_POINTER
| IR_ARRAY (elem_type : IrType) (size : Z)
| IR_FUNCTION (return_type : IrType) (variable_arity : bool) (arg_types : list IrType)
  (* [alignment] is uninitialised in an incomplete struct; [fields] is a pointer *)
| IR_STRUCT (name : string) (fields : nat) (total_size num_fields : Z) (alignment : option Z).

Record IrStructField := mkField { field_type : IrType; field_offset : Z }.

Abbreviation double := spec_float (only parsing).

Inductive IrOp :=
| OP_INVALID | OP_BIT_XOR | OP_BIT_OR | OP_BIT_AND | OP_BIT_NOT
| OP_NEG | OP_SHL | OP_SHR | OP_MUL | OP_DIV | OP_MOD
| OP_ADD | OP_SUB | OP_CMP | OP_ADDF | OP_CMPF | OP_CALL
| OP_CAST | OP_ZEXT | OP_SEXT | OP_TRUNC | OP_EXTF
| OP_TRUNCF | OP_SINT_TO_FLOAT | OP_UINT_TO_FLOAT
| OP_FLOAT_TO_SINT | OP_FIELD | OP_LOAD | OP_STORE | OP_LOCAL
| OP_RET | OP_RET_VOID | OP_JUMP | OP_COND | OP_PHI
| OP_BUILTIN_VA_START.

Inductive IrCmp :=
| CMP_EQ | CMP_NEQ | CMP_SGT | CMP_SGTE | CMP_SLT | CMP_SLTE
| CMP_UGT | CMP_UGTE | CMP_ULT | CMP_ULTE.

#[export] Instance IrOp_eq_dec : EqDecision IrOp.
Proof. solve_decision. Defined.
#[export] Instance IrCmp_eq_dec : EqDecision IrCmp.
Proof. solve_decision. Defined.

Inductive IrValueU :=
| IR_VALUE_CONST_INT (const_int : Z)
| IR_VALUE_CONST_FLOAT (const_float : double)
| IR_VALUE_ARG (arg_index : Z)
| IR_VALUE_INSTR (instr : nat)
| IR_VALUE_GLOBAL (global : nat).

Record IrValue := mkValue { val_u : IrValueU; val_type : IrType }.

Record IrPhiParam := mkPhiParam { phi_block : nat; phi_value : IrValue }.

(** The union of [IrInstr]; [U_none] is the union before it is written. *)
Inductive IrInstrU :=
| U_none
| U_arg (arg : IrValue)
| U_binary_op (arg1 arg2 : IrValue)
| U_cmp (arg1 arg2 : IrValue) (cmp : IrCmp)
| U_field (ptr : IrValue) (type : IrType) (field_number : Z)
| U_load (pointer : IrValue) (type : IrType)
| U_call (callee : IrValue) (arg_array : list IrValue) (return_type : IrType)
| U_cond (condition : IrValue) (then_block else_block : nat)
| U_target_block (target_block : nat)
| U_local (type : IrType) (stack_offset : Z)
| U_phi (params : list (option IrPhiParam)).

Record IrInstr := mkInstr {
  instr_id : Z;
  instr_type : IrType;
  instr_op : IrOp;
  vreg_number : Z;
  instr_u : IrInstrU
}.

Record IrBlock := mkBlock { block_id : Z; block_name : string; block_instrs : list nat }.

Record IrFunction := mkFunction { fun_blocks : list nat; curr_instr_id : Z }.

(** The union of [IrConst]; arrays of constants are pointers into [const_arrays]. *)
Inductive IrConstU :=
| K_integer (x : Z)
| K_floatt (x : double)
| K_global_pointer (global : option nat)
| K_array_elems (elems : nat)
| K_struct_fields (fields : nat)
| K_function (f : IrFunction).

Record IrConst := mkConst { const_type : IrType; const_u : IrConstU }.

Inductive IrLinkage := IR_GLOBAL_LINKAGE | IR_LOCAL_LINKAGE.

Record IrGlobal := mkGlobal {
  global_name : string;
  global_type : IrType;
  linkage : IrLinkage;
  initializer : option nat
}.

Record IrModule := mkModule {
  globals : list IrGlobal;
  types : list IrType;
  struct_fields : list (list (option IrStructField));
  consts : list IrConst;
  const_arrays : list (list (option IrConst));
  blocks : list IrBlock;
  instrs : list IrInstr
}.

(** [current_function] points to the function inside a constant. *)
Record IrBuilder := mkBuilder {
  module : IrModule;
  current_function : option nat;
  current_block : option nat
}.

Definition set_globals (m : IrModule) x :=
  mkModule x (types m) (struct_fields m) (consts m) (const_arrays m) (blocks m) (instrs m).
Definition set_types (m : IrModule) x :=
  mkModule (globals m) x (struct_fields m) (consts m) (const_arrays m) (blocks m) (instrs m).
Definition set_struct_fields (m : IrModule) x :=
  mkModule (globals m) (types m) x (consts m) (const_arrays m) (blocks m) (instrs m).
Definition set_consts (m : IrModule) x :=
  mkModule (globals m) (types m) (struct_fields m) x (const_arrays m) (blocks m) (instrs m).
Definition set_const_arrays (m : IrModule) x :=
  mkModule (globals m) (types m) (struct_fields m) (consts m) x (blocks m) (instrs m).
Definition set_blocks (m : IrModule) x :=
  mkModule (globals m) (types m) (struct_fields m) (consts m) (const_arrays m) x (instrs m).
Definition set_instrs (m : IrModule) x :=
  mkModule (globals m) (types m) (struct_fields m) (consts m) (const_arrays m) (blocks m) x.

(** ** Types *)

Fixpoint ir_type_eq (a b : IrType) : bool :=
  match a, b with
  | IR_INT w1, IR_INT w2 => w1 =? w2
  | IR_FLOAT w1, IR_FLOAT w2 => w1 =? w2
  | IR_VOID, IR_VOID | IR_POINTER, IR_POINTER | IR_FUNCTION _ _ _, IR_FUNCTION _ _ _ => true
  | IR_STRUCT n1 _ _ _ _, IR_STRUCT n2 _ _ _ _ => String.eqb n1 n2
  | IR_ARRAY e1 s1, IR_ARRAY e2 s2 => ir_type_eq e1 e2 && (s1 =? s2)
  | _, _ => false
  end.

Fixpoint size_of_ir_type (type : IrType) : res Z :=
  match type with
  | IR_INT bit_width => Ok (bit_width / 8)
  | IR_FLOAT float_bits => Ok (if float_bits =? 80 then 16 else float_bits / 8)
  | IR_POINTER | IR_FUNCTION _ _ _ => Ok 8
  | IR_STRUCT _ _ total_size _ _ => Ok total_size
  | IR_ARRAY elem_type size =>
      ASSERT (negb (size =? 0));;
      s ← size_of_ir_type elem_type;
      Ok (u32 (u64 (size * s)))
  | IR_VOID => UNREACHABLE
  end.

Fixpoint align_of_ir_type (type : IrType) : res Z :=
  match type with
  | IR_STRUCT _ _ _ _ alignment => of_opt alignment
  | IR_ARRAY elem_type _ => align_of_ir_type elem_type
  | _ => size_of_ir_type type
  end.

(** ** Modules *)

Definition block_init (name : string) (id : Z) : IrBlock := mkBlock id name [].

Definition ir_module_init : IrModule := mkModule [] [] [] [] [] [] [].

(** The function inside the constant [k]. *)
Definition function_at (k : nat) : st IrModule IrFunction :=
  m ← get;
  c ← lift (of_opt (consts m !! k));
  match const_u c with K_function f => mret f | _ => lift (Stop Undef) end.
Definition set_function (k : nat) (f : IrFunction) : st IrModule unit :=
  modify (fun m => set_consts m (alter (fun c => mkConst (const_type c) (K_function f)) k (consts m))).

Definition add_block_to_function (function : nat) (name : string) : st IrModule nat :=
  f ← function_at function;
  m ← get;
  let block := length (blocks m) in
  set_function function (mkFunction (fun_blocks f ++ [block]) (curr_instr_id f));;
  modify (fun m => set_blocks m (blocks m ++ [block_init name (u32 (Z.of_nat (length (fun_blocks f))))]));;
  mret block.

Definition add_global (g : IrGlobal) : st IrModule nat :=
  m ← get;
  put (set_globals m (globals m ++ [g]));;
  mret (length (globals m)).

Definition ir_module_add_function (name : string) (return_type : IrType)
    (variable_arity : bool) (arg_types : list IrType) : st IrModule nat :=
  add_global (mkGlobal name (IR_FUNCTION return_type variable_arity arg_types) IR_GLOBAL_LINKAGE None).

Definition add_const (c : IrConst) : st IrModule nat :=
  m ← get;
  put (set_consts m (consts m ++ [c]));;
  mret (length (consts m)).

Definition add_init_to_function (global : nat) : st IrModule nat :=
  m ← get;
  g ← lift (of_opt (globals m !! global));
  k ← add_const (mkConst (global_type g) (K_function (mkFunction [] 0)));
  modify (fun m => set_globals m (alter (fun g =>
    mkGlobal (global_name g) (global_type g) (linkage g) (Some k)) global (globals m)));;
  add_block_to_function k "entry";;
  mret k.

Definition ir_module_add_var (name : string) (type : IrType) : st IrModule nat :=
  add_global (mkGlobal name type IR_GLOBAL_LINKAGE None).

(** "%x" of a u32. *)
Fixpoint hex_aux (fuel : nat) (x : Z) (s : string) : string :=
  match fuel with
  | O => s
  | S n =>
      let d := x mod 16 in
      let c := Ascii.ascii_of_nat (Z.to_nat (if d <? 10 then 48 + d else 87 + d)) in
      if x / 16 =? 0 then String c s else hex_aux n (x / 16) (String c s)
  end.
Definition hex (x : Z) : string := hex_aux 8 x "".

(** [None] is INVALID_STRING: the struct is named after its position. *)
Definition ir_module_add_struct (name : option string) (num_fields : Z) : st IrModule nat :=
  m ← get;
  let types_size := Z.of_nat (length (types m)) + 1 in
  let name := default ("__anon_struct_" +:+ hex (u32 types_size)) name in
  let fields := length (struct_fields m) in
  put (set_types (set_struct_fields m
         (struct_fields m ++ [replicate (Z.to_nat num_fields) None]))
       (types m ++ [IR_STRUCT name fields 0 (u16 num_fields) None]));;
  mret (length (types m)).

Fixpoint find_global_aux (l : list IrGlobal) (name : string) (i : nat) : option nat :=
  match l with
  | [] => None
  | g :: l => if String.eqb (global_name g) name then Some i else find_global_aux l name (S i)
  end.
Definition find_global_by_name (m : IrModule) (name : string) : option nat :=
  find_global_aux (globals m) name 0.

(** ** Constant folding *)

Definition constant_foldable (op : IrOp) : bool :=
  match op with
  | OP_LOCAL | OP_FIELD | OP_LOAD | OP_STORE | OP_CAST | OP_RET | OP_JUMP
  | OP_COND | OP_CALL | OP_ZEXT | OP_SEXT | OP_RET_VOID => false
  | _ => true
  end.

Definition constant_fold_unary_op (op : IrOp) (arg : Z) : res Z :=
  PRECONDITION (constant_foldable op);;
  match op with
  | OP_BIT_XOR | OP_BIT_AND | OP_BIT_OR | OP_MUL | OP_DIV | OP_ADD | OP_SUB => UNREACHABLE
  | OP_BIT_NOT => Ok (bnot 64 arg)
  | OP_NEG => Ok (u64 (- arg))
  | _ => UNIMPLEMENTED
  end.

(** Division by zero is undefined, and so is [INT64_MIN % -1]. *)
Definition constant_fold_binary_op (op : IrOp) (arg1 arg2 : Z) : res Z :=
  PRECONDITION (constant_foldable op);;
  match op with
  | OP_BIT_NOT => UNREACHABLE
  | OP_BIT_XOR => Ok (Z.lxor arg1 arg2)
  | OP_BIT_AND => Ok (Z.land arg1 arg2)
  | OP_BIT_OR => Ok (Z.lor arg1 arg2)
  | OP_SHL => shl 64 arg1 arg2
  | OP_SHR => shr 64 arg1 arg2
  | OP_MUL => Ok (u64 (arg1 * arg2))
  | OP_DIV => if arg2 =? 0 then Stop Undef else Ok (arg1 / arg2)
  | OP_MOD =>
      if (arg2 =? 0) || ((i64 arg1 =? - 2 ^ 63) && (i64 arg2 =? -1)) then Stop Undef
      else Ok (u64 (Z.rem (i64 arg1) (i64 arg2)))
  | OP_ADD => Ok (u64 (arg1 + arg2))
  | OP_SUB => Ok (u64 (arg1 - arg2))
  | _ => UNIMPLEMENTED
  end.

Definition constant_fold_cmp (cmp : IrCmp) (arg1 arg2 : Z) : Z :=
  Z.b2z match cmp with
  | CMP_EQ => arg1 =? arg2
  | CMP_NEQ => negb (arg1 =? arg2)
  | CMP_SGT => i64 arg2 <? i64 arg1
  | CMP_SGTE => i64 arg2 <=? i64 arg1
  | CMP_SLT => i64 arg1 <? i64 arg2
  | CMP_SLTE => i64 arg1 <=? i64 arg2
  | CMP_UGT => arg2 <? arg1
  | CMP_UGTE => arg2 <=? arg1
  | CMP_ULT => arg1 <? arg2
  | CMP_ULTE => arg1 <=? arg2
  end.

Definition constant_fold_cmpf (cmp : IrCmp) (arg1 arg2 : double) : res Z :=
  match cmp with
  | CMP_EQ => Ok (Z.b2z (SFeqb arg1 arg2))
  | CMP_NEQ => Ok (Z.b2z (negb (SFeqb arg1 arg2)))
  | CMP_SGT => Ok (Z.b2z (SFltb arg2 arg1))
  | CMP_SGTE => Ok (Z.b2z (SFleb arg2 arg1))
  | CMP_SLT => Ok (Z.b2z (SFltb arg1 arg2))
  | CMP_SLTE => Ok (Z.b2z (SFleb arg1 arg2))
  | CMP_UGT | CMP_UGTE | CMP_ULT | CMP_ULTE => UNREACHABLE
  end.

(** ** The builder *)

Definition builder_init (m : IrModule) : IrBuilder := mkBuilder m None None.

Definition on_module {A} (c : st IrModule A) : st IrBuilder A :=
  zoom module (fun m b => mkBuilder m (current_function b) (current_block b)) c.

Definition value_const_int (type : IrType) (constant : Z) : IrValue :=
  mkValue (IR_VALUE_CONST_INT constant) type.
Definition value_const_float (type : IrType) (constant : double) : IrValue :=
  mkValue (IR_VALUE_CONST_FLOAT constant) type.
Definition value_arg (arg_index : Z) (type : IrType) : IrValue :=
  mkValue (IR_VALUE_ARG arg_index) type.
Definition value_global (global : nat) : IrValue := mkValue (IR_VALUE_GLOBAL global) IR_POINTER.

(** [add_block]: the builder's function must be set. *)
Definition add_block (name : string) : st IrBuilder nat :=
  b ← get;
  f ← lift (of_opt (current_function b));
  on_module (add_block_to_function f name).

(** The op, type and union of the new instruction are uninitialised until the
    caller writes them with [set_instr]. *)
Definition append_instr : st IrBuilder nat :=
  b ← get;
  block ← lift (of_opt (current_block b));
  fk ← lift (of_opt (current_function b));
  on_module (
    f ← function_at fk;
    set_function fk (mkFunction (fun_blocks f) (u32 (curr_instr_id f + 1)));;
    m ← get;
    blk ← lift (of_opt (blocks m !! block));
    let instr := length (instrs m) in
    put (set_blocks (set_instrs m
           (instrs m ++ [mkInstr (curr_instr_id f) IR_VOID OP_INVALID (-1) U_none]))
           (<[block := mkBlock (block_id blk) (block_name blk) (block_instrs blk ++ [instr])]> (blocks m)));;
    mret instr).

Definition set_instr (i : nat) (op : IrOp) (type : IrType) (u : IrInstrU) : st IrBuilder unit :=
  on_module (modify (fun m => set_instrs m
    (alter (fun x => mkInstr (instr_id x) type op (vreg_number x) u) i (instrs m)))).

Definition emit (op : IrOp) (type : IrType) (u : IrInstrU) : st IrBuilder nat :=
  instr ← append_instr;
  set_instr instr op type u;;
  mret instr.

Definition value_instr (instr : nat) : st IrBuilder IrValue :=
  b ← get;
  x ← lift (of_opt (instrs (module b) !! instr));
  mret (mkValue (IR_VALUE_INSTR instr) (instr_type x)).

Definition build_jump (block : nat) : st IrBuilder nat := emit OP_JUMP IR_VOID (U_target_block block).

Definition build_cond (condition : IrValue) (then_block else_block : nat) : st IrBuilder nat :=
  emit OP_COND IR_VOID (U_cond condition then_block else_block).

Definition build_local (type : IrType) : st IrBuilder IrValue :=
  instr ← emit OP_LOCAL IR_POINTER (U_local type 0);
  value_instr instr.

Definition is_struct_or_array (type : IrType) : bool :=
  match type with IR_STRUCT _ _ _ _ _ | IR_ARRAY _ _ => true | _ => false end.

Definition build_field (ptr : IrValue) (type : IrType) (field_number : Z) : st IrBuilder IrValue :=
  lift (PRECONDITION (is_struct_or_array type));;
  instr ← emit OP_FIELD IR_POINTER (U_field ptr type field_number);
  value_instr instr.

Definition build_load (pointer : IrValue) (type : IrType) : st IrBuilder IrValue :=
  instr ← emit OP_LOAD type (U_load pointer type);
  value_instr instr.

Definition build_store (pointer value : IrValue) : st IrBuilder IrValue :=
  instr ← emit OP_STORE IR_VOID (U_binary_op pointer value);
  value_instr instr.

Definition build_nullary_instr (op : IrOp) (type : IrType) : st IrBuilder IrValue :=
  instr ← emit op type U_none;
  value_instr instr.

Definition build_unary_instr (op : IrOp) (arg : IrValue) : st IrBuilder IrValue :=
  let instr := 
    (instr ← emit op (if decide (op = OP_RET) then IR_VOID else val_type arg) (U_arg arg);
     value_instr instr) in
  match val_u arg with
  | IR_VALUE_CONST_INT c =>
      if constant_foldable op then
        x ← lift (constant_fold_unary_op op c);
        mret (value_const_int (val_type arg) x)
      else instr
  | _ => instr
  end.

Definition build_binary_instr (op : IrOp) (arg1 arg2 : IrValue) : st IrBuilder IrValue :=
  lift (PRECONDITION (ir_type_eq (val_type arg1) (val_type arg2)));;
  let type := val_type arg1 in
  let instr := (instr ← emit op type (U_binary_op arg1 arg2); value_instr instr) in
  match val_u arg1, val_u arg2 with
  | IR_VALUE_CONST_INT c1, IR_VALUE_CONST_INT c2 =>
      if constant_foldable op then
        x ← lift (constant_fold_binary_op op c1 c2);
        mret (value_const_int type x)
      else instr
  | _, _ => instr
  end.

Definition build_cmp (cmp : IrCmp) (arg1 arg2 : IrValue) : st IrBuilder IrValue :=
  lift (PRECONDITION (ir_type_eq (val_type arg1) (val_type arg2)));;
  let type := IR_INT 32 in
  match val_u arg1, val_u arg2 with
  | IR_VALUE_CONST_INT c1, IR_VALUE_CONST_INT c2 =>
      mret (value_const_int type (constant_fold_cmp cmp c1 c2))
  | _, _ => instr ← emit OP_CMP type (U_cmp arg1 arg2 cmp); value_instr instr
  end.

Definition build_cmpf (cmp : IrCmp) (arg1 arg2 : IrValue) : st IrBuilder IrValue :=
  lift (PRECONDITION (ir_type_eq (val_type arg1) (val_type arg2)));;
  let type := IR_INT 32 in
  match val_u arg1, val_u arg2 with
  | IR_VALUE_CONST_FLOAT c1, IR_VALUE_CONST_FLOAT c2 =>
      x ← lift (constant_fold_cmpf cmp c1 c2);
      mret (value_const_int type x)
  | _, _ => instr ← emit OP_CMPF type (U_cmp arg1 arg2 cmp); value_instr instr
  end.

Definition build_call (callee : IrValue) (return_type : IrType) (arg_array : list IrValue)
  : st IrBuilder IrValue :=
  instr ← emit OP_CALL return_type (U_call callee arg_array return_type);
  value_instr instr.

(** [(double)x] for a u64, rounded to nearest. *)
Definition double_of_u64 (x : Z) : double := binary_normalize 53 1024 x 0 false.

Definition build_type_instr (op : IrOp) (value : IrValue) (result_type : IrType) : st IrBuilder IrValue :=
  if ir_type_eq (val_type value) result_type then mret value
  else
    match val_u value with
    | IR_VALUE_CONST_INT c =>
        match result_type with
        | IR_INT _ | IR_POINTER => mret (value_const_int result_type c)
        | IR_FLOAT _ => mret (value_const_float result_type (double_of_u64 c))
        | _ => lift UNREACHABLE
        end
    | _ => instr ← emit op result_type (U_arg value); value_instr instr
    end.

Definition build_phi (type : IrType) (arity : Z) : st IrBuilder IrValue :=
  instr ← emit OP_PHI type (U_phi (replicate (Z.to_nat arity) None));
  value_instr instr.

Definition phi_set_param (phi : IrValue) (index : Z) (source_block : nat) (value : IrValue)
  : st IrBuilder unit :=
  lift (PRECONDITION (ir_type_eq (val_type value) (val_type phi)));;
  match val_u phi with
  | IR_VALUE_INSTR i =>
      b ← get;
      x ← lift (of_opt (instrs (module b) !! i));
      match instr_u x with
      | U_phi params =>
          params ← lift (store params index (Some (mkPhiParam source_block value)));
          set_instr i (instr_op x) (instr_type x) (U_phi params)
      | _ => lift (Stop Undef)
      end
  | _ => lift ICE
  end.

Definition add_int_const (int_type : IrType) (value : Z) : st IrBuilder nat :=
  on_module (add_const (mkConst int_type (K_integer value))).
Definition add_float_const (float_type : IrType) (value : double) : st IrBuilder nat :=
  on_module (add_const (mkConst float_type (K_floatt value))).
Definition add_global_const (global : option nat) : st IrBuilder nat :=
  on_module (add_const (mkConst IR_POINTER (K_global_pointer global))).

(** An array of [n] uninitialised constants. *)
Definition new_const_array (n : Z) : st IrModule nat :=
  m ← get;
  put (set_const_arrays m (const_arrays m ++ [replicate (Z.to_nat n) None]));;
  mret (length (const_arrays m)).

Definition add_array_const (type : IrType) : st IrBuilder nat :=
  match type with
  | IR_ARRAY _ size => on_module (elems ← new_const_array size; add_const (mkConst type (K_array_elems elems)))
  | _ => lift (Stop Undef)
  end.

Definition add_struct_const (type : IrType) : st IrBuilder nat :=
  match type with
  | IR_STRUCT _ _ _ num_fields _ =>
      on_module (fields ← new_const_array num_fields; add_const (mkConst type (K_struct_fields fields)))
  | _ => lift (Stop Undef)
  end.

Definition builtin_function (name : string) (return_type : IrType) (arg_types : list IrType)
  : st IrBuilder IrValue :=
  b ← get;
  match find_global_by_name (module b) name with
  | Some existing_global => mret (value_global existing_global)
  | None =>
      g ← on_module (ir_module_add_function name return_type false arg_types);
      mret (value_global g)
  end.

Definition builtin_memcpy : st IrBuilder IrValue :=
  builtin_function "memcpy" IR_POINTER [IR_POINTER; IR_POINTER; IR_INT 64].
Definition builtin_memset : st IrBuilder IrValue :=
  builtin_function "memset" IR_POINTER [IR_POINTER; IR_INT 32; IR_INT 64].

Definition build_builtin_va_start (va_list_ptr : IrValue) : st IrBuilder IrValue :=
  instr ← emit OP_BUILTIN_VA_START IR_VOID (U_arg va_list_ptr);
  value_instr instr.

(** ** Specification *)

(** Two types are told apart by their shape, widths and struct names; function
    types all look alike and struct bodies are not compared. *)
Fixpoint erase (t : IrType) : IrType :=
  match t with
  | IR_ARRAY e n => IR_ARRAY (erase e) n
  | IR_FUNCTION _ _ _ => IR_FUNCTION IR_VOID false []
  | IR_STRUCT n _ _ _ _ => IR_STRUCT n 0 0 0 None
  | t => t
  end.

(** Complete types: positive sizes, aligned to a power of two that divides them. *)
Fixpoint type_wf (t : IrType) : Prop :=
  match t with
  | IR_VOID => False
  | IR_INT w => w = 8 \/ w = 16 \/ w = 32 \/ w = 64
  | IR_FLOAT w => w = 32 \/ w = 64 \/ w = 80
  | IR_POINTER | IR_FUNCTION _ _ _ => True
  | IR_ARRAY e n => type_wf e /\ 0 < n /\ forall s, size_of_ir_type e = Ok s -> n * s < 2 ^ 32
  | IR_STRUCT _ _ s _ a =>
      0 < s < 2 ^ 32 /\ exists k, 0 <= k < 8 /\ a = Some (2 ^ k) /\ s mod 2 ^ k = 0
  end.

(** The instructions of a function, and their ids, in block order. *)
Definition fn_instrs (m : IrModule) (f : IrFunction) : list nat :=
  b ← fun_blocks f; match blocks m !! b with Some blk => block_instrs blk | None => [] end.
Definition ids_of (xs : list IrInstr) (l : list nat) : list Z :=
  i ← l; match xs !! i with Some x => [instr_id x] | None => [] end.

Record fn_wf (m : IrModule) (f : IrFunction) : Prop := {
  wf_nodup : NoDup (fun_blocks f);
  wf_blocks : forall b, b ∈ fun_blocks f -> (b < length (blocks m))%nat;
  wf_instrs : forall i, i ∈ fn_instrs m f -> (i < length (instrs m))%nat;
  wf_ids : ids_of (instrs m) (fn_instrs m f) ≡ₚ seqZ 0 (curr_instr_id f);
  wf_curr : 0 <= curr_instr_id f <= Z.of_nat (length (instrs m))
}.

(** The builder is at work on a block of the function in constant [k]. *)
Definition building (k : nat) (b : IrBuilder) : Prop :=
  Z.of_nat (length (instrs (module b))) < 2 ^ 32 ->
  exists t f, current_function b = Some k /\
    consts (module b) !! k = Some (mkConst t (K_function f)) /\ fn_wf (module b) f /\
    forall blk, current_block b = Some blk -> blk ∈ fun_blocks f.

(** The calls a client makes between choosing a function and leaving it. *)
Inductive build_step : IrBuilder -> IrBuilder -> Prop :=
| step_block b name x b' : add_block name b = Ok (x, b') -> build_step b b'
| step_seek b k t f x : current_function b = Some k ->
    consts (module b) !! k = Some (mkConst t (K_function f)) -> x ∈ fun_blocks f ->
    build_step b (mkBuilder (module b) (current_function b) (Some x))
| step_jump b x i b' : build_jump x b = Ok (i, b') -> build_step b b'
| step_cond b c x y i b' : build_cond c x y b = Ok (i, b') -> build_step b b'
| step_local b t v b' : build_local t b = Ok (v, b') -> build_step b b'
| step_field b p t n v b' : build_field p t n b = Ok (v, b') -> build_step b b'
| step_load b p t v b' : build_load p t b = Ok (v, b') -> build_step b b'
| step_store b p x v b' : build_store p x b = Ok (v, b') -> build_step b b'
| step_nullary b op t v b' : build_nullary_instr op t b = Ok (v, b') -> build_step b b'
| step_unary b op x v b' : build_unary_instr op x b = Ok (v, b') -> build_step b b'
| step_binary b op x y v b' : build_binary_instr op x y b = Ok (v, b') -> build_step b b'
| step_cmp b c x y v b' : build_cmp c x y b = Ok (v, b') -> build_step b b'
| step_cmpf b c x y v b' : build_cmpf c x y b = Ok (v, b') -> build_step b b'
| step_call b c t l v b' : build_call c t l b = Ok (v, b') -> build_step b b'
| step_type b op x t v b' : build_type_instr op x t b = Ok (v, b') -> build_step b b'
| step_phi b t n v b' : build_phi t n b = Ok (v, b') -> build_step b b'
| step_phi_param b p n x y b' : phi_set_param p n x y b = Ok (tt, b') -> build_step b b'
| step_memcpy b v b' : builtin_memcpy b = Ok (v, b') -> build_step b b'
| step_memset b v b' : builtin_memset b = Ok (v, b') -> build_step b b'
| step_va_start b p v b' : build_builtin_va_start p b = Ok (v, b') -> build_step b b'.

(** ** Lemmas *)

Lemma ir_type_eq_erase a b : ir_type_eq a b = true <-> erase a = erase b.
Proof.
  revert b. induction a as [| | | |a IH n| |]; intros [| | | |b m| |]; cbn; try done;
    rewrite ?andb_true_iff, ?Z.eqb_eq, ?String.eqb_eq; try (split; intros; congruence).
  rewrite IH. split; [intros [-> ->] | intros [= -> ->]]; done.
Qed.

Lemma fn_instrs_same m m' f : blocks m' = blocks m -> fn_instrs m' f = fn_instrs m f.
Proof. intros E. unfold fn_instrs. by rewrite E. Qed.

Lemma ids_of_app xs l1 l2 : ids_of xs (l1 ++ l2) = ids_of xs l1 ++ ids_of xs l2.
Proof. apply bind_app. Qed.

Lemma ids_of_grow xs ys l : (forall i, i ∈ l -> (i < length xs)%nat) -> ids_of (xs ++ ys) l = ids_of xs l.
Proof.
  intros H. unfold ids_of. induction l as [|i l IH]; [done |]. cbn.
  rewrite lookup_app_l by (apply H; set_solver). f_equal. apply IH. set_solver.
Qed.

Lemma ids_of_alter xs g j l : (forall x, instr_id (g x) = instr_id x) ->
  ids_of (alter g j xs) l = ids_of xs l.
Proof.
  intros H. unfold ids_of. induction l as [|i l IH]; [done |]. cbn. f_equal; [| done].
  destruct (decide (i = j)) as [->|].
  - rewrite list_lookup_alter_eq. destruct (xs !! j); cbn; by rewrite ?H.
  - by rewrite list_lookup_alter_ne.
Qed.

(** A change of the module that leaves blocks alone and keeps instruction ids. *)
Lemma fn_wf_same m m' f : blocks m' = blocks m -> length (instrs m') = length (instrs m) ->
  (forall l, ids_of (instrs m') l = ids_of (instrs m) l) -> fn_wf m f -> fn_wf m' f.
Proof.
  intros Hb Hl Hi [H1 H2 H3 H4 H5].
  constructor; rewrite ?(fn_instrs_same m m' f Hb), ?Hb, ?Hl, ?Hi; done.
Qed.

(** Appending instruction [i] to block [b] of the function. *)
Lemma fn_instrs_append m f b blk i xs : NoDup (fun_blocks f) -> b ∈ fun_blocks f ->
  blocks m !! b = Some blk ->
  fn_instrs (set_blocks (set_instrs m xs)
    (<[b := mkBlock (block_id blk) (block_name blk) (block_instrs blk ++ [i])]> (blocks m))) f
  ≡ₚ i :: fn_instrs m f.
Proof.
  intros Hnd Hin Hb. unfold fn_instrs. cbn [blocks set_blocks set_instrs].
  apply list_elem_of_split in Hin as (l1 & l2 & E). rewrite E in *.
  apply list.NoDup_app in Hnd as (_ & Hn1 & Hn2). apply NoDup_cons in Hn2 as [Hn2 _].
  assert (Hout : forall l, b ∉ l -> (b' ← l; match <[b := mkBlock (block_id blk) (block_name blk)
    (block_instrs blk ++ [i])]> (blocks m) !! b' with Some k => block_instrs k | None => [] end)
    = b' ← l; match blocks m !! b' with Some k => block_instrs k | None => [] end).
  { induction l as [|x l IH]; [done |]. intros [Hx Hl]%not_elem_of_cons. cbn.
    by rewrite list_lookup_insert_ne, IH. }
  rewrite !bind_app. cbn. rewrite !Hout by set_solver.
  rewrite list_lookup_insert_eq, Hb by (by eapply lookup_lt_Some). cbn.
  rewrite <- !app_assoc. cbn. rewrite (Permutation_app_comm (block_instrs blk) (i :: _)). cbn.
  rewrite <- Permutation_middle. by rewrite (Permutation_app_comm _ (block_instrs blk)).
Qed.

Definition set_fun (f : IrFunction) (c : IrConst) : IrConst := mkConst (const_type c) (K_function f).

Lemma append_instr_inv b i b' : append_instr b = Ok (i, b') ->
  exists blk k t f bk, current_block b = Some blk /\ current_function b = Some k /\
    consts (module b) !! k = Some (mkConst t (K_function f)) /\ blocks (module b) !! blk = Some bk /\
    i = length (instrs (module b)) /\
    b' = mkBuilder
      (set_blocks (set_instrs (set_consts (module b)
          (alter (set_fun (mkFunction (fun_blocks f) (u32 (curr_instr_id f + 1)))) k (consts (module b))))
        (instrs (module b) ++ [mkInstr (curr_instr_id f) IR_VOID OP_INVALID (-1) U_none]))
        (<[blk := mkBlock (block_id bk) (block_name bk) (block_instrs bk ++ [i])]> (blocks (module b))))
      (current_function b) (current_block b).
Proof.
  intros E. unfold append_instr, on_module, zoom, function_at, set_function, modify, get, put, lift,
    mbind, st_bind, mret, st_ret in E.
  destruct (current_block b) as [blk|] eqn:Eb; cbn in E; [| done].
  destruct (current_function b) as [k|] eqn:Ek; cbn in E; [| done].
  destruct (consts (module b) !! k) as [[t u]|] eqn:Ec; cbn in E; [| done].
  destruct u as [| | | | |f]; cbn in E; try done.
  destruct (blocks (module b) !! blk) as [bk|] eqn:Ebk; cbn in E; [| done].
  injection E as <- <-. exists blk, k, t, f, bk. rewrite Eb, Ek. done.
Qed.

Lemma append_instr_building k : keeps (building k) append_instr.
Proof.
  intros b i b' Hb E Hlt.
  destruct (append_instr_inv b i b' E) as (blk & k' & t & f & bk & Eb & Ek & Ec & Ebk & Ei & ->).
  cbn in Hlt |- *. rewrite length_app in Hlt. cbn in Hlt.
  destruct (Hb ltac:(lia)) as (t' & f' & Ek' & Ec' & [W1 W2 W3 W4 W5] & Hcur).
  assert (k' = k) as -> by congruence. rewrite Ec in Ec'. injection Ec' as <- <-.
  exists t, (mkFunction (fun_blocks f) (curr_instr_id f + 1)). split; [done |].
  rewrite (wrap_small 32) by lia. split; [by rewrite list_lookup_alter_eq, Ec |].
  split; [| intros x Ex; cbn; by apply Hcur].
  pose proof (fn_instrs_append (set_consts (module b) (alter (set_fun (mkFunction (fun_blocks f) (curr_instr_id f + 1))) k (consts (module b))))
    f blk bk i (instrs (module b) ++ [mkInstr (curr_instr_id f) IR_VOID OP_INVALID (-1) U_none])
    W1 (Hcur blk Eb) Ebk) as HP.
  constructor; cbn [fun_blocks curr_instr_id].
  - done.
  - intros x Hx. cbn. rewrite length_insert. by apply W2.
  - intros x Hx. cbn. rewrite length_app. cbn. apply (elem_of_Permutation_proper x) in HP.
    apply HP, elem_of_cons in Hx as [->|Hx]; [lia | specialize (W3 x Hx); lia].
  - etransitivity; [apply bind_Permutation, HP |]. cbn [instrs set_blocks set_instrs].
    cbn [mbind list_bind]. rewrite Ei, lookup_app_r, Nat.sub_diag by lia. cbn.
    change (curr_instr_id f :: ids_of (instrs (module b) ++ [mkInstr (curr_instr_id f) IR_VOID OP_INVALID (-1) U_none])
      (fn_instrs (module b) f) ≡ₚ seqZ 0 (curr_instr_id f + 1)).
    rewrite ids_of_grow by done. rewrite W4, seqZ_app by lia. rewrite Permutation_cons_append.
    by rewrite Z.add_0_l.
  - cbn. rewrite length_app. cbn. lia.
Qed.

(** Changes of the module that the invariant does not see. *)
Lemma on_module_building k A (c : st IrModule A) :
  (forall m x m', c m = Ok (x, m') -> blocks m' = blocks m /\ length (instrs m') = length (instrs m) /\
     (forall l, ids_of (instrs m') l = ids_of (instrs m) l) /\
     forall j x, consts m !! j = Some x -> consts m' !! j = Some x) ->
  keeps (building k) (on_module c).
Proof.
  intros H b x b' Hb E Hlt. unfold on_module, zoom in E.
  destruct (c (module b)) as [[y m']|] eqn:Ec; [| done]. injection E as -> <-. cbn in *.
  destruct (H _ _ _ Ec) as (H1 & H2 & H3 & H4). rewrite H2 in Hlt.
  destruct (Hb Hlt) as (t & f & Ek & Ef & Hwf & Hcur). exists t, f.
  split; [done |]. split; [by apply H4 |]. split; [| done]. by apply (fn_wf_same (module b)).
Qed.

Lemma set_instr_building k i op t u : keeps (building k) (set_instr i op t u).
Proof.
  apply on_module_building. intros m x m' E. injection E as _ <-. cbn.
  split; [done |]. split; [apply length_alter |]. split; [| done]. intros l. by apply ids_of_alter.
Qed.

Lemma add_block_building k name : keeps (building k) (add_block name).
Proof.
  intros b x b' Hb E Hlt. unfold add_block, add_block_to_function, on_module, zoom, function_at,
    set_function, modify, get, lift, mbind, st_bind, mret, st_ret in E.
  destruct (current_function b) as [k'|] eqn:Ek; cbn in E; [| done].
  destruct (consts (module b) !! k') as [[t u]|] eqn:Ec; cbn in E; [| done].
  destruct u as [| | | | |f]; cbn in E; try done. injection E as <- <-. cbn in Hlt |- *.
  destruct (Hb Hlt) as (t' & f' & Ek' & Ec' & [W1 W2 W3 W4 W5] & Hcur).
  assert (k' = k) as -> by congruence. rewrite Ec in Ec'. injection Ec' as <- <-.
  set (nb := length (blocks (module b))) in *.
  exists t, (mkFunction (fun_blocks f ++ [nb]) (curr_instr_id f)). split; [done |].
  split; [by rewrite list_lookup_alter_eq, Ec |].
  split; [| intros y Ey; cbn; apply elem_of_app; left; by apply Hcur].
  set (m' := set_blocks _ _).
  assert (HI : fn_instrs m' (mkFunction (fun_blocks f ++ [nb]) (curr_instr_id f)) = fn_instrs (module b) f).
  { unfold fn_instrs. cbn. rewrite bind_app. cbn. unfold nb at 1.
    rewrite (lookup_app_r _ _ (length (blocks (module b)))), Nat.sub_diag by lia. cbn. rewrite !app_nil_r.
    generalize (block_init name (u32 (Z.of_nat (length (fun_blocks f))))) as nbk. intros nbk.
    clear - W2. induction (fun_blocks f) as [|y l IH]; [done |]. cbn.
    rewrite lookup_app_l by (apply W2; set_solver). f_equal. apply IH. set_solver. }
  constructor; rewrite ?HI; cbn [fun_blocks curr_instr_id]; try done.
  - apply list.NoDup_app. split; [done |]. split; [| apply NoDup_singleton].
    intros y Hy ->%list_elem_of_singleton. specialize (W2 _ Hy). unfold nb in W2. lia.
  - intros y [Hy| ->%list_elem_of_singleton]%elem_of_app; cbn; rewrite length_app; cbn;
      [specialize (W2 y Hy) |]; unfold nb in *; lia.
Qed.

Lemma value_instr_keeps I i : keeps I (value_instr i).
Proof. unfold value_instr. auto with keeps. Qed.

Lemma emit_building k op t u : keeps (building k) (emit op t u).
Proof.
  unfold emit. apply keeps_bind; [apply append_instr_building | intros i].
  apply keeps_bind; [apply set_instr_building |]. auto with keeps.
Qed.
#[export] Hint Resolve value_instr_keeps emit_building set_instr_building add_block_building : keeps.

Lemma builtin_function_building k name t l : keeps (building k) (builtin_function name t l).
Proof.
  unfold builtin_function. apply keeps_bind; [apply keeps_get | intros b].
  destruct (find_global_by_name (module b) name); [auto with keeps |].
  apply keeps_bind; [| auto with keeps]. apply on_module_building. intros m x m' E. injection E as _ <-. done.
Qed.
#[export] Hint Resolve builtin_function_building : keeps.

(** Every call of the builder keeps the invariant. *)
Lemma build_step_building k b b' : build_step b b' -> building k b -> building k b'.
Proof.
  intros Hs Hb. destruct Hs as [b name x b' E|b k' t f x Ek Ec Hx|b x i b' E|b c x y i b' E|b t v b' E
    |b p t n v b' E|b p t v b' E|b p x v b' E|b op t v b' E|b op x v b' E|b op x y v b' E|b c x y v b' E
    |b c x y v b' E|b c t l v b' E|b op x t v b' E|b t n v b' E|b p n x y b' E|b v b' E|b v b' E|b p v b' E];
    try (eapply (_ : keeps (building k) _); [exact Hb | exact E]).
  Unshelve. all: try (unfold build_jump, build_cond, build_local, build_field, build_load, build_store,
    build_nullary_instr, build_unary_instr, build_binary_instr, build_cmp, build_cmpf, build_call,
    build_type_instr, build_phi, phi_set_param, builtin_memcpy, builtin_memset, build_builtin_va_start;
    repeat (auto with keeps; match goal with
      | |- keeps _ (_ ≫= _) => apply keeps_bind; [| intros ?]
      | |- keeps _ (match ?x with _ => _ end) => destruct x end); auto with keeps).
  intros Hlt. cbn in Hlt. destruct (Hb Hlt) as (t' & f' & Ek' & Ec' & Hwf & Hcur). exists t', f'.
  cbn. repeat (split; [done |]). intros y [= <-]. congruence.
Qed.

Lemma build_steps_building k b b' : rtc build_step b b' -> building k b -> building k b'.
Proof. induction 1; eauto using build_step_building. Qed.

(** A function just given its entry block. *)
Lemma add_init_building g m k m' : add_init_to_function g m = Ok (k, m') ->
  building k (mkBuilder m' (Some k) None).
Proof.
  intros E _. unfold add_init_to_function, add_const, add_block_to_function, function_at, set_function,
    modify, get, put, lift, mbind, st_bind, mret, st_ret in E.
  destruct (globals m !! g) as [gl|]; cbn in E; [| done].
  rewrite lookup_app_r, Nat.sub_diag in E by lia. cbn in E. injection E as <- <-. cbn.
  exists (global_type gl), (mkFunction [length (blocks m)] 0). split; [done |].
  rewrite list_lookup_alter_eq, lookup_app_r, Nat.sub_diag by lia. cbn. split; [done |].
  split; [| done]. constructor; cbn.
  - apply NoDup_singleton.
  - intros b ->%list_elem_of_singleton. rewrite length_app. cbn. lia.
  - unfold fn_instrs. cbn. rewrite lookup_app_r, Nat.sub_diag by lia. cbn. set_solver.
  - unfold fn_instrs. cbn. rewrite lookup_app_r, Nat.sub_diag by lia. done.
  - lia.
Qed.

(** [emit] on a builder with a current block. *)
Lemma emit_total b blk k t f bk op ty u : current_block b = Some blk -> current_function b = Some k ->
  consts (module b) !! k = Some (mkConst t (K_function f)) -> blocks (module b) !! blk = Some bk ->
  let i := length (instrs (module b)) in
  exists b', emit op ty u b = Ok (i, b') /\
    instrs (module b') = instrs (module b) ++ [mkInstr (curr_instr_id f) ty op (-1) u] /\
    blocks (module b') = <[blk := mkBlock (block_id bk) (block_name bk) (block_instrs bk ++ [i])]> (blocks (module b)) /\
    globals (module b') = globals (module b) /\ current_block b' = current_block b.
Proof.
  intros Eb Ek Ec Ebk i. eexists. split.
  - unfold emit, append_instr, set_instr, on_module, zoom, function_at, set_function, modify, get, put,
      lift, mbind, st_bind, mret, st_ret. rewrite Eb, Ek. cbn. rewrite Ec. cbn. rewrite Ebk. cbn. done.
  - cbn. split; [| done]. rewrite alter_app_r_alt, Nat.sub_diag by lia. done.
Qed.

Lemma value_instr_last b x xs : instrs (module b) = xs ++ [x] ->
  value_instr (length xs) b = Ok (mkValue (IR_VALUE_INSTR (length xs)) (instr_type x), b).
Proof.
  intros E. unfold value_instr, get, lift, mbind, st_bind, mret, st_ret. rewrite E.
  by rewrite lookup_app_r, Nat.sub_diag by lia.
Qed.

(** The operations of the folder that commute with truncation. *)
Definition ring_op (op : IrOp) : option (Z -> Z -> Z) :=
  match op with
  | OP_BIT_XOR => Some Z.lxor | OP_BIT_AND => Some Z.land | OP_BIT_OR => Some Z.lor
  | OP_MUL => Some Z.mul | OP_ADD => Some Z.add | OP_SUB => Some Z.sub
  | _ => None
  end.

Lemma wrap_wrap_le w v x : 0 <= w <= v -> wrap w (wrap v x) = wrap w x.
Proof.
  intros H. unfold wrap. replace (2 ^ v) with (2 ^ w * 2 ^ (v - w)) by (rewrite <- Z.pow_add_r by lia; f_equal; lia).
  pose proof (pow2_pos w ltac:(lia)). pose proof (pow2_pos (v - w) ltac:(lia)).
  rewrite Z.rem_mul_r by lia. rewrite Z.mul_comm, Z.mod_add, Z.mod_mod by lia. done.
Qed.

Lemma ring_op_wrap op g w a b : ring_op op = Some g -> 0 <= w ->
  wrap w (g (wrap w a) (wrap w b)) = wrap w (g a b).
Proof.
  intros E Hw. pose proof (pow2_pos w Hw).
  destruct op; cbn in E; try done; injection E as <-;
    try (apply testbit_ext; intros i Hi; autorewrite with zbits; by destruct (i <? w)); unfold wrap.
  - by rewrite <- Z.mul_mod by lia.
  - by rewrite <- Z.add_mod by lia.
  - by rewrite <- Zminus_mod by lia.
Qed.

Lemma log_bit_bound op g a b : ring_op op = Some g -> op ∈ [OP_BIT_XOR; OP_BIT_AND; OP_BIT_OR] ->
  is_u 64 a -> is_u 64 b -> is_u 64 (g a b).
Proof.
  intros E Hop Ha Hb. pose proof (proj1 Ha). pose proof (proj1 Hb).
  destruct op; cbn in E; try done; injection E as <-; try (exfalso; set_solver);
    apply testbit_is_u; try lia; try (intros i Hi; autorewrite with zbits;
      by rewrite (is_u_testbit_high 64 a), (is_u_testbit_high 64 b) by (done || lia)).
  - by apply Z.lxor_nonneg.
  - by apply Z.lor_nonneg.
  - apply Z.land_nonneg. by left.
Qed.

(** ** Properties *)

(** C31: However a client drives the builder from a fresh function (any sequence
    of block and instruction builders, moving between the function's blocks),
    the ids of the function's instructions are exactly 0, ..., n-1, each once,
    where n is its instruction counter, and every block of the function exists. *)
Theorem instr_ids_consecutive g m k m' b (Hinit : add_init_to_function g m = Ok (k, m'))
    (Hsteps : rtc build_step (mkBuilder m' (Some k) None) b)
    (Hsmall : Z.of_nat (length (instrs (module b))) < 2 ^ 32) :
  exists t f, consts (module b) !! k = Some (mkConst t (K_function f)) /\
    ids_of (instrs (module b)) (fn_instrs (module b) f) ≡ₚ seqZ 0 (curr_instr_id f) /\
    NoDup (fun_blocks f) /\ forall x, x ∈ fun_blocks f -> (x < length (blocks (module b)))%nat.
Proof.
  destruct (build_steps_building k _ b Hsteps (add_init_building g m k m' Hinit) Hsmall)
    as (t & f & _ & Ec & [W1 W2 W3 W4 W5] & _).
  exists t, f. done.
Qed.

Definition st_of {S A} (x : res (A * S)) (d : S) : S := match x with Ok (_, s) => s | _ => d end.

Lemma instr_ids_consecutive_witness :
  let m := mkModule [mkGlobal "f" (IR_FUNCTION IR_VOID false []) IR_GLOBAL_LINKAGE None] [] [] [] [] [] [] in
  let m' := st_of (add_init_to_function 0 m) m in
  exists b, length (instrs (module b)) = 2%nat /\
  exists t f, consts (module b) !! 0%nat = Some (mkConst t (K_function f)) /\
    ids_of (instrs (module b)) (fn_instrs (module b) f) ≡ₚ seqZ 0 (curr_instr_id f) /\
    NoDup (fun_blocks f) /\ forall x, x ∈ fun_blocks f -> (x < length (blocks (module b)))%nat.
Proof.
  intros m m'. set (b0 := mkBuilder m' (Some 0%nat) None). set (b1 := mkBuilder m' (Some 0%nat) (Some 0%nat)).
  set (b2 := st_of (build_local (IR_INT 32) b1) b1). set (b3 := st_of (build_jump 0 b2) b2).
  exists b3. split; [by vm_compute |]. apply (instr_ids_consecutive 0 m 0 m' b3); [by vm_compute | | by vm_compute].
  apply (rtc_l _ _ b1); [apply (step_seek b0 0 (IR_FUNCTION IR_VOID false []) (mkFunction [0%nat] 0)); [done.. | set_solver] |].
  apply (rtc_l _ _ b2); [eapply (step_local b1 (IR_INT 32)); by vm_compute |].
  apply (rtc_l _ _ b3); [| apply rtc_refl]. eapply (step_jump b2 0). by vm_compute.
Defined.

(** [build_binary_instr] stops the compiler when the operand types differ; on
    two integer constants and a foldable operation it returns the folded constant
    of the operands' type and appends nothing; otherwise it appends one
    instruction, numbered by the function's counter, at the end of the current
    block, and returns it with the operands' type. *)
Theorem build_binary_instr_cases b op x y blk k t f bk (Eb : current_block b = Some blk)
    (Ek : current_function b = Some k) (Ec : consts (module b) !! k = Some (mkConst t (K_function f)))
    (Ebk : blocks (module b) !! blk = Some bk) :
  let i := length (instrs (module b)) in
  (ir_type_eq (val_type x) (val_type y) = false -> build_binary_instr op x y b = ICE) /\
  (ir_type_eq (val_type x) (val_type y) = true ->
   (forall c d, val_u x = IR_VALUE_CONST_INT c -> val_u y = IR_VALUE_CONST_INT d ->
      constant_foldable op = true ->
      build_binary_instr op x y b
      = r ← constant_fold_binary_op op c d; Ok (value_const_int (val_type x) r, b)) /\
   ((forall c d, val_u x = IR_VALUE_CONST_INT c -> val_u y = IR_VALUE_CONST_INT d ->
      constant_foldable op = false) ->
    exists b', build_binary_instr op x y b = Ok (mkValue (IR_VALUE_INSTR i) (val_type x), b') /\
      instrs (module b') = instrs (module b)
        ++ [mkInstr (curr_instr_id f) (val_type x) op (-1) (U_binary_op x y)] /\
      blocks (module b') = <[blk := mkBlock (block_id bk) (block_name bk) (block_instrs bk ++ [i])]> (blocks (module b)))).
Proof.
  intros i. unfold build_binary_instr. split.
  { intros ->. done. }
  intros ->. cbn [PRECONDITION ASSERT]. split.
  - intros c d -> -> ->. unfold mbind, st_bind, lift, res_bind.
    by destruct (constant_fold_binary_op op c d).
  - intros Hno. destruct (emit_total b blk k t f bk op (val_type x) (U_binary_op x y) Eb Ek Ec Ebk)
      as (b' & E & Ei & Ebl & _).
    assert (Hgo : (instr ← emit op (val_type x) (U_binary_op x y); value_instr instr) b
      = Ok (mkValue (IR_VALUE_INSTR i) (val_type x), b')).
    { unfold mbind, st_bind. rewrite E. by apply (value_instr_last b' _ _ Ei). }
    exists b'. split; [| done]. unfold mbind at 1, st_bind at 1, lift. cbn.
    destruct (val_u x) as [c| | | |]; try exact Hgo. destruct (val_u y) as [d| | | |]; try exact Hgo.
    by rewrite (Hno c d).
Qed.

Lemma build_binary_instr_cases_witness :
  let m := mkModule [] [] [] [mkConst IR_VOID (K_function (mkFunction [0%nat] 5))] [] [mkBlock 0 "entry" []] [] in
  let b := mkBuilder m (Some 0%nat) (Some 0%nat) in
  exists b', build_binary_instr OP_ADD (value_arg 0 (IR_INT 32)) (value_const_int (IR_INT 32) 1) b
      = Ok (mkValue (IR_VALUE_INSTR 0) (IR_INT 32), b') /\
    instrs (module b') = [mkInstr 5 (IR_INT 32) OP_ADD (-1)
      (U_binary_op (value_arg 0 (IR_INT 32)) (value_const_int (IR_INT 32) 1))] /\
    blocks (module b') = [mkBlock 0 "entry" [0%nat]].
Proof.
  intros m b. refine (proj2 (proj2 (build_binary_instr_cases b OP_ADD (value_arg 0 (IR_INT 32))
    (value_const_int (IR_INT 32) 1) 0 0 IR_VOID (mkFunction [0%nat] 5) (mkBlock 0 "entry" [])
    eq_refl eq_refl eq_refl eq_refl) eq_refl) _).
  intros c d [=].
Defined.



(** Folded constants keep bits above their type's width and comparisons read
    all 64: [~0u == 0xFFFFFFFFu] at type i32 folds to 0, although at 32 bits the
    two sides are equal. *)
Theorem cmp_fold_reads_high_bits b :
  (x ← build_unary_instr OP_BIT_NOT (value_const_int (IR_INT 32) 0);
   build_cmp CMP_EQ x (value_const_int (IR_INT 32) 4294967295)) b
  = Ok (value_const_int (IR_INT 32) 0, b) /\
  bnot 32 0 = 4294967295.
Proof. split; by vm_compute. Qed.

(** Division folds as unsigned 64-bit division, while [OP_DIV] on a
    non-constant is the signed division: [-4 / 3] at type i32 folds to a constant
    whose 32-bit value is 1431655764, not -1. *)
Theorem div_fold_is_unsigned b :
  exists c, (x ← build_unary_instr OP_NEG (value_const_int (IR_INT 32) 4);
   build_binary_instr OP_DIV x (value_const_int (IR_INT 32) 3)) b
  = Ok (value_const_int (IR_INT 32) c, b) /\
  i32 c = 1431655764 /\ Z.quot (i32 (2 ^ 64 - 4)) 3 = -1.
Proof. eexists. split; [vm_compute; reflexivity |]. by vm_compute. Qed.

(** [ir_type_eq] is the equivalence "same type up to function signatures and
    struct bodies": integers and floats by width, structs by name, arrays by
    length and element type. *)
Theorem ir_type_eq_equivalence a b c :
  (ir_type_eq a b = true <-> erase a = erase b) /\ ir_type_eq a a = true /\
  ir_type_eq a b = ir_type_eq b a /\
  (ir_type_eq a b && ir_type_eq b c = true -> ir_type_eq a c = true).
Proof.
  split; [apply ir_type_eq_erase |]. split; [by apply ir_type_eq_erase |]. split.
  - apply eq_true_iff_eq. rewrite !ir_type_eq_erase. split; congruence.
  - rewrite andb_true_iff, !ir_type_eq_erase. intros [-> ->]. done.
Qed.

Lemma type_size_bounds t (Hwf : type_wf t) :
  exists s k, size_of_ir_type t = Ok s /\ align_of_ir_type t = Ok (2 ^ k) /\
    0 < s < 2 ^ 32 /\ 0 <= k < 8 /\ s mod 2 ^ k = 0.
Proof.
  induction t as [|w|w| |e IH n| |nm fl s nf al]; cbn in Hwf |- *; [done | | | | | |].
  - destruct Hwf as [->|[->|[->| ->]]]; [exists 1, 0 | exists 2, 1 | exists 4, 2 | exists 8, 3];
      repeat split; lia.
  - destruct Hwf as [->|[->| ->]]; [exists 4, 2 | exists 8, 3 | exists 16, 4]; repeat split; lia.
  - exists 8, 3. repeat split; lia.
  - destruct Hwf as (He & Hn & Hs). destruct (IH He) as (s & k & Es & Ea & Hs1 & Hk & Hm).
    specialize (Hs s Es). rewrite Es, Ea. destruct (Z.eqb_spec n 0); [lia |]. cbn.
    assert (0 < n * s) by nia. rewrite (wrap_small 64), (wrap_small 32) by lia.
    exists (n * s), k. repeat split; try lia. rewrite Z.mul_mod, Hm, Z.mul_0_r by (pose proof (pow2_pos k); lia).
    apply Z.mod_0_l. pose proof (pow2_pos k). lia.
  - exists 8, 3. repeat split; lia.
  - destruct Hwf as (Hs & k & Hk & -> & Hm). exists s, k. done.
Qed.



Lemma find_global_aux_spec l name i : match find_global_aux l name i with
  | Some j => exists g, (i <= j)%nat /\ l !! (j - i)%nat = Some g /\ global_name g = name
  | None => forall g, g ∈ l -> global_name g <> name end.
Proof.
  revert i. induction l as [|g l IH]; intros i; cbn; [set_solver |].
  destruct (String.eqb_spec (global_name g) name) as [E|E].
  - exists g. rewrite Nat.sub_diag. done.
  - specialize (IH (S i)). destruct (find_global_aux l name (S i)) as [j|].
    + destruct IH as (g' & Hj & El & En). exists g'. split; [lia |].
      replace (j - i)%nat with (S (j - S i)) by lia. done.
    + intros g' [->|Hg]%elem_of_cons; [done | by apply IH].
Qed.

Lemma find_global_aux_app l g name i : (forall x, x ∈ l -> global_name x <> name) ->
  global_name g = name -> find_global_aux (l ++ [g]) name i = Some (i + length l)%nat.
Proof.
  revert i. induction l as [|x l IH]; intros i Hl Hg; cbn.
  - rewrite Hg, String.eqb_refl. f_equal. lia.
  - destruct (String.eqb_spec (global_name x) name) as [E|_].
    + exfalso. apply (Hl x); [set_solver | done].
    + rewrite IH by (done || (intros y Hy; apply Hl; set_solver)). f_equal. lia.
Qed.

(** Asking for a builtin function (memcpy, memset) always succeeds and yields
    a global of that name: the one declared already, or else a new one added
    after the others; asking again yields the same global and adds nothing. *)
Theorem builtin_function_idempotent name ret args b :
  exists g b', builtin_function name ret args b = Ok (value_global g, b') /\
    builtin_function name ret args b' = Ok (value_global g, b') /\
    (exists gl, globals (module b') !! g = Some gl /\ global_name gl = name) /\
    (exists new, globals (module b') = globals (module b) ++ new /\
       (new = [] <-> exists x, x ∈ globals (module b) /\ global_name x = name)).
Proof.
  pose proof (find_global_aux_spec (globals (module b)) name 0) as Hf.
  unfold builtin_function, find_global_by_name.
  destruct (find_global_aux (globals (module b)) name 0) as [g|] eqn:E.
  - destruct Hf as (gl & _ & El & En). rewrite Nat.sub_0_r in El. exists g, b.
    cbn. unfold mbind, st_bind, get. rewrite E. split; [done |]. split; [done |]. split; [by eauto |].
    exists []. rewrite app_nil_r. split; [done |]. split; [| done]. intros _. exists gl.
    split; [by eapply list_elem_of_lookup_2 | done].
  - exists (length (globals (module b))). eexists.
    split; [unfold mbind, st_bind, get; rewrite E; reflexivity |]. cbn.
    split; [unfold mbind, st_bind, get; cbn; rewrite find_global_aux_app by done; done |].
    split; [rewrite lookup_app_r, Nat.sub_diag by lia; cbn; by eauto |].
    eexists. split; [done |]. split; [done |]. intros (x & Hx & Hn). by destruct (Hf x Hx).
Qed.
