(* ===== verification/Reader.v ===== *)
(** * The character reader ([src/src/syntax/reader.h], [src/src/syntax/reader.c])

    A cursor in a source buffer that splices lines (backslash-newline pairs are
    skipped by [advance]) and tracks the position in the original file through
    the preprocessor's adjustments. Bytes are integers in [0, 256); a [char] is
    signed. The log [stderr] stands for what [emit_error] prints. *)

From S2P Require Import Prelude.

Local Open Scope Z_scope.

(** ** Data *)

(** [None] is INVALID_STRING. *)
Record SourceLoc := mkLoc { filename : option string; offset : Z }.
Record SourceRange := mkRange { range_start : SourceLoc; range_end : SourceLoc }.

Inductive AdjustmentType := NORMAL_ADJUSTMENT | BEGIN_MACRO_ADJUSTMENT | END_MACRO_ADJUSTMENT.

#[export] Instance AdjustmentType_eq_dec : EqDecision AdjustmentType.
Proof. solve_decision. Defined.

Record Adjustment := mkAdjustment {
  adj_type : AdjustmentType;
  location : Z;
  new_source_loc : SourceLoc
}.

Record Reader := mkReader {
  reader_filename : option string;
  buffer : list Z;
  position : Z;
  adjusted_position : Z;
  adjustments : list Adjustment;
  next_adjustment : Z;
  at_start_of_line : bool;
  stderr : list (SourceRange * string)
}.

Definition set_position (r : Reader) (p : Z) : Reader :=
  mkReader (reader_filename r) (buffer r) p (adjusted_position r) (adjustments r)
    (next_adjustment r) (at_start_of_line r) (stderr r).
Definition set_adjusted (r : Reader) (p n : Z) : Reader :=
  mkReader (reader_filename r) (buffer r) (position r) p (adjustments r) n (at_start_of_line r) (stderr r).
Definition set_at_start (r : Reader) (b : bool) : Reader :=
  mkReader (reader_filename r) (buffer r) (position r) (adjusted_position r) (adjustments r)
    (next_adjustment r) b (stderr r).
Definition set_stderr (r : Reader) (l : list (SourceRange * string)) : Reader :=
  mkReader (reader_filename r) (buffer r) (position r) (adjusted_position r) (adjustments r)
    (next_adjustment r) (at_start_of_line r) l.

(** ** Operations *)

Definition EOF : Z := -1.

Definition reader_init (text : list Z) (adjs : list Adjustment) (start_of_line : bool)
    (source_filename : option string) : Reader :=
  mkReader source_filename text 0 0 adjs 0 start_of_line [].

Definition reader_source_loc (r : Reader) : SourceLoc := mkLoc (reader_filename r) (adjusted_position r).
Definition reader_prev_source_loc (r : Reader) : SourceLoc :=
  mkLoc (reader_filename r) (u32 (adjusted_position r - 1)).
Definition range_from (r : Reader) (start_loc : SourceLoc) : SourceRange :=
  mkRange start_loc (reader_prev_source_loc r).
Definition point_range (l : SourceLoc) : SourceRange := mkRange l l.

Definition at_end (r : Reader) : bool := Z.of_nat (length (buffer r)) <=? position r.

Definition peek_char (r : Reader) : Z :=
  if at_end r then EOF else i8 (nth (Z.to_nat (position r)) (buffer r) 0).

(** [ARRAY_REF] before the first element is only an address. *)
Definition back_up (r : Reader) : Reader :=
  let r := match adjustments r !! Z.to_nat (next_adjustment r - 1) with
           | Some prev_adjustment =>
               if (1 <=? next_adjustment r) && (location prev_adjustment =? position r)
               then set_adjusted r (adjusted_position r) (next_adjustment r - 1) else r
           | None => r
           end in
  set_position (set_adjusted r (u32 (adjusted_position r - 1)) (next_adjustment r))
    (u32 (position r - 1)).

(** One turn of the [for (;;)] that skips backslash-newlines. *)
Definition advance_body (r : Reader) : res (Reader + Reader) :=
  let r := set_position r (u32 (position r + 1)) in
  if at_end r then Ok (inr r)
  else if negb (peek_char r =? 92) then Ok (inr r)
  else
    let r' := set_position r (u32 (position r + 1)) in
    if peek_char r' =? 10 then Ok (inl r') else Ok (inr (set_position r' (u32 (position r' - 1)))).

(** How [advance] maps the new position to the original file. *)
Definition adjust (r : Reader) (position_diff : Z) : Reader :=
  let size := Z.of_nat (length (adjustments r)) in
  let prev_adjustment :=
    if (1 <=? next_adjustment r) && (next_adjustment r <=? size)
    then adjustments r !! Z.to_nat (next_adjustment r - 1) else None in
  let next_adj :=
    if next_adjustment r <? size then adjustments r !! Z.to_nat (next_adjustment r) else None in
  let otherwise :=
    match prev_adjustment with
    | Some (mkAdjustment BEGIN_MACRO_ADJUSTMENT _ l) => set_adjusted r (offset l) (next_adjustment r)
    | _ => set_adjusted r (u32 (adjusted_position r + position_diff)) (next_adjustment r)
    end in
  match next_adj with
  | Some a =>
      if location a =? position r
      then set_adjusted r (offset (new_source_loc a)) (u32 (next_adjustment r + 1)) else otherwise
  | None => otherwise
  end.

Definition advance_reader (r : Reader) : res Reader :=
  let r := set_at_start r (peek_char r =? 10) in
  let start := position r in
  r ← loop (S (length (buffer r))) advance_body r;
  Ok (adjust r (u32 (position r - start))).

Definition advance : st Reader unit := fun r => r' ← advance_reader r; Ok (tt, r').

Definition peek : st Reader Z := fun r => Ok (peek_char r, r).

Definition read_char : st Reader Z :=
  c ← peek; advance;; mret c.

Definition expect_char (c : Z) : st Reader bool :=
  d ← peek;
  if d =? c then advance;; mret true else mret false.

Definition initial_ident_char (c : Z) : bool :=
  ((97 <=? c) && (c <=? 122)) || ((65 <=? c) && (c <=? 90)) || (c =? 95).
Definition ident_char (c : Z) : bool := initial_ident_char c || ((48 <=? c) && (c <=? 57)).

(** The loop of [read_symbol]. *)
Definition symbol_body (_ : unit) : st Reader (unit + unit) :=
  r ← get;
  if at_end r then mret (inr tt)
  else if negb (ident_char (peek_char r)) then mret (inr tt)
  else advance;; mret (inl tt).

(** The bytes of the symbol; [None] is INVALID_STRING. *)
Definition read_symbol : st Reader (option (list Z)) :=
  r ← get;
  if negb (initial_ident_char (peek_char r)) then mret None
  else
    loop_st (S (length (buffer r))) symbol_body tt;;
    r' ← get;
    mret (Some (take (Z.to_nat (u32 (position r' - position r)))
                  (drop (Z.to_nat (position r)) (buffer r)))).

Definition reader_current_line (r : Reader) : Z :=
  u32 (1 + Z.of_nat (count_occ Z.eq_dec (take (Z.to_nat (position r)) (buffer r)) 10)).

(** [emit_error]; [v_emit_diagnostic] asserts that the range is not reversed. *)
Definition emit_error (context : SourceRange) (msg : string) : st Reader unit :=
  lift (ASSERT (offset (range_start context) <=? offset (range_end context)));;
  modify (fun r => set_stderr r (stderr r ++ [(context, msg)])).

(** ** Specification *)

(** Translation phase 2 of the C standard: backslash-newline pairs vanish. *)
Fixpoint splice (l : list Z) : list Z :=
  match l with
  | 92 :: (10 :: l') => splice l'
  | c :: l => c :: splice l
  | [] => []
  end.

(** The reader stands between [pre] and [suf]. *)
Record at_ (r : Reader) (pre suf : list Z) : Prop := {
  at_buffer : buffer r = pre ++ suf;
  at_position : position r = Z.of_nat (length pre);
  at_small : Z.of_nat (length (buffer r)) < 2 ^ 31;
  at_bytes : Forall (is_u 8) (buffer r)
}.

(** No splice at the head. *)
Definition no_splice (l : list Z) : Prop := forall l', l <> 92 :: 10 :: l'.

(** Everything but the cursor is the same. *)
Definition same_text (r r' : Reader) : Prop :=
  buffer r' = buffer r /\ adjustments r' = adjustments r /\ reader_filename r' = reader_filename r /\
  stderr r' = stderr r.

(** Reads to the end of the buffer. *)
Fixpoint read_all (fuel : nat) (r : Reader) : res (list Z) :=
  match fuel with
  | O => Stop NoFuel
  | S n =>
      if at_end r then Ok []
      else '(c, r) ← read_char r; l ← read_all n r; Ok (c :: l)
  end.

(** ** Lemmas *)

#[export] Instance same_text_refl : Reflexive same_text.
Proof. intros r. done. Qed.
#[export] Instance same_text_trans : Transitive same_text.
Proof. intros r1 r2 r3. unfold same_text. intuition congruence. Qed.

Lemma at_end_nil r pre : at_ r pre [] -> at_end r = true.
Proof. intros [E P _ _]. unfold at_end. rewrite E, P, app_nil_r. apply Z.leb_refl. Qed.

Lemma at_end_cons r pre c suf : at_ r pre (c :: suf) -> at_end r = false.
Proof. intros [E P _ _]. unfold at_end. rewrite E, P, length_app. cbn. zcases. Qed.

Lemma peek_nil r pre : at_ r pre [] -> peek_char r = -1.
Proof. intros H. unfold peek_char. by rewrite (at_end_nil _ _ H). Qed.

Lemma peek_cons r pre c suf : at_ r pre (c :: suf) -> peek_char r = i8 c.
Proof.
  intros H. unfold peek_char. rewrite (at_end_cons _ _ _ _ H). destruct H as [E P _ _].
  rewrite E, P, Nat2Z.id, app_nth2, Nat.sub_diag by lia. done.
Qed.

Lemma at_move r pre mid suf : at_ r pre (mid ++ suf) ->
  at_ (set_position r (Z.of_nat (length (pre ++ mid)))) (pre ++ mid) suf.
Proof. intros [E P L B]. constructor; cbn; [by rewrite E, app_assoc | done | done | done]. Qed.

(** ASCII characters are themselves as a signed [char]. *)
Lemma i8_ascii c : 0 <= c < 128 -> i8 c = c.
Proof. intros H. apply i8_small. lia. Qed.

Lemma i8_eqb_ascii c d : is_u 8 c -> 0 <= d < 128 -> (i8 c =? d) = (c =? d).
Proof.
  intros Hc Hd. unfold sgn. rewrite wrap_small by (unfold is_u in Hc; lia). unfold is_u in Hc.
  destruct (Z.ltb_spec c (2 ^ (8 - 1))); cbn in *; [done |]. zcases.
Qed.

Lemma at_head_byte r pre c suf : at_ r pre (c :: suf) -> is_u 8 c.
Proof. intros [E _ _ B]. rewrite E in B. apply Forall_app in B as [_ B]. by inversion B. Qed.

Lemma at_bound r pre suf : at_ r pre suf -> Z.of_nat (length pre) + Z.of_nat (length suf) < 2 ^ 31.
Proof. intros [E _ L _]. rewrite E, length_app in L. lia. Qed.

(** The skipping loop: over any number of splices, to the next character. *)
Lemma advance_loop r pre c n suf fuel : at_ r pre (c :: Nat.iter n (fun l => 92 :: 10 :: l) suf) ->
  no_splice suf -> (n < fuel)%nat ->
  exists r', loop fuel advance_body r = Ok r' /\
    r' = set_position r (position r') /\
    exists sp, pre ++ c :: Nat.iter n (fun l => 92 :: 10 :: l) suf = (pre ++ c :: sp) ++ suf /\
      at_ r' (pre ++ c :: sp) suf.
Proof.
  revert r pre c fuel. induction n as [|n IH]; intros r pre c [|fuel] Hat Hns Hf; try lia; cbn [Nat.iter] in *.
  - pose proof (at_bound _ _ _ Hat) as Hb. cbn in Hb.
    assert (Hat1 : at_ (set_position r (Z.of_nat (length (pre ++ [c])))) (pre ++ [c]) suf)
      by (by apply (at_move r pre [c] suf)).
    cbn [loop]. unfold advance_body. destruct (Hat) as [_ P _ _]. rewrite P.
    rewrite (wrap_small 32) by lia.
    replace (Z.of_nat (length pre) + 1) with (Z.of_nat (length (pre ++ [c]))) by (rewrite length_app; cbn; lia).
    set (r1 := set_position r (Z.of_nat (length (pre ++ [c])))) in *.
    assert (Hgoal : forall r2, r2 = r1 -> exists r', Ok r2 = Ok r' /\ r' = set_position r (position r') /\
      exists sp, pre ++ c :: suf = (pre ++ c :: sp) ++ suf /\ at_ r' (pre ++ c :: sp) suf).
    { intros r2 ->. exists r1. split; [done |]. split; [done |]. exists []. by rewrite <- app_assoc. }
    destruct suf as [|d suf]; [rewrite (at_end_nil _ _ Hat1); by apply Hgoal |].
    rewrite (at_end_cons _ _ _ _ Hat1), (peek_cons _ _ _ _ Hat1).
    rewrite (i8_eqb_ascii d 92 (at_head_byte _ _ _ _ Hat1)) by lia.
    destruct (Z.eqb_spec d 92) as [->|]; cbn [negb]; [| by apply Hgoal].
    assert (Hat2 : at_ (set_position r1 (Z.of_nat (length ((pre ++ [c]) ++ [92])))) ((pre ++ [c]) ++ [92]) suf)
      by (by apply (at_move r1 (pre ++ [c]) [92] suf)).
    assert (Eu : u32 (position r1 + 1) = Z.of_nat (length ((pre ++ [c]) ++ [92]))).
    { cbn. rewrite !length_app in *. cbn in *. rewrite wrap_small by lia. lia. }
    rewrite Eu. assert (Hpk : (peek_char (set_position r1 (Z.of_nat (length ((pre ++ [c]) ++ [92])))) =? 10) = false).
    { destruct suf as [|e suf]; [by rewrite (peek_nil _ _ Hat2) |].
      rewrite (peek_cons _ _ _ _ Hat2), (i8_eqb_ascii e 10 (at_head_byte _ _ _ _ Hat2)) by lia.
      destruct (Z.eqb_spec e 10) as [->|]; [| done]. by destruct (Hns suf). }
    rewrite Hpk. apply Hgoal. subst r1. cbn. rewrite !length_app in *. cbn in *.
    rewrite wrap_small by lia. unfold set_position. cbn. f_equal. lia.
  - pose proof (at_bound _ _ _ Hat) as Hb. cbn in Hb. set (rest := Nat.iter n _ suf) in *.
    assert (Hat1 : at_ (set_position r (Z.of_nat (length (pre ++ [c])))) (pre ++ [c]) (92 :: 10 :: rest))
      by (by apply (at_move r pre [c])).
    cbn [loop]. unfold advance_body at 1. destruct (Hat) as [_ P _ _]. rewrite P.
    rewrite (wrap_small 32) by lia.
    replace (Z.of_nat (length pre) + 1) with (Z.of_nat (length (pre ++ [c]))) by (rewrite length_app; cbn; lia).
    set (r1 := set_position r (Z.of_nat (length (pre ++ [c])))) in *.
    rewrite (at_end_cons _ _ _ _ Hat1), (peek_cons _ _ _ _ Hat1). cbn [negb]. change (i8 92 =? 92) with true. cbn [negb].
    assert (Hat2 : at_ (set_position r1 (Z.of_nat (length ((pre ++ [c]) ++ [92])))) ((pre ++ [c]) ++ [92]) (10 :: rest))
      by (by apply (at_move r1 (pre ++ [c]) [92])).
    assert (Eu : u32 (position r1 + 1) = Z.of_nat (length ((pre ++ [c]) ++ [92]))).
    { cbn. rewrite !length_app in *. cbn in *. rewrite wrap_small by lia. lia. }
    rewrite Eu, (peek_cons _ _ _ _ Hat2). change (i8 10 =? 10) with true. cbn [negb].
    destruct (IH _ _ _ fuel Hat2 Hns ltac:(lia)) as (r' & -> & Er' & sp & Esp & Hat').
    exists r'. split; [done |]. split; [by rewrite Er' |].
    exists (92 :: 10 :: sp). rewrite <- !app_assoc in Esp. cbn in Esp.
    rewrite <- !app_assoc in Hat'. cbn in Hat'. rewrite <- !app_assoc. by cbn.
Qed.

Lemma split_splices l : exists n suf, l = Nat.iter n (fun l => 92 :: 10 :: l) suf /\ no_splice suf /\
  splice suf = splice l /\ (n <= length l)%nat /\ (no_splice l -> n = 0%nat).
Proof.
  induction l as [l IH] using (well_founded_induction (Wf_nat.well_founded_ltof _ length)).
  assert (Hd : (exists l', l = 92 :: 10 :: l') \/ ~ exists l', l = 92 :: 10 :: l').
  { destruct l as [|c [|d l]]; [right; naive_solver.. |].
    destruct (decide (c = 92)) as [->|], (decide (d = 10)) as [->|]; [by left; exists l | right; naive_solver..]. }
  destruct Hd as [(l' & ->)|Hns].
  - destruct (IH l') as (n & suf & -> & H1 & H2 & H3 & _); [unfold Wf_nat.ltof; cbn; lia |].
    exists (S n), suf. split; [done |]. split; [done |]. split; [done |]. split; [cbn in *; lia |].
    intros Hn. by destruct (Hn (Nat.iter n (fun l => 92 :: 10 :: l) suf)).
  - exists 0%nat, l. split; [done |]. split; [intros l' ->; by apply Hns; exists l' |]. split; [done |].
    split; [lia | done].
Qed.

Lemma adjust_same r d : buffer (adjust r d) = buffer r /\ position (adjust r d) = position r /\
  same_text r (adjust r d).
Proof. unfold adjust. repeat case_match; done. Qed.

(** One [advance]: past the character and the splices after it. *)
Lemma advance_spec r pre c suf : at_ r pre (c :: suf) ->
  exists r' sp suf', advance_reader r = Ok r' /\ suf = sp ++ suf' /\ no_splice suf' /\
    splice suf' = splice suf /\ at_ r' (pre ++ c :: sp) suf' /\ same_text r r' /\
    (no_splice suf -> sp = []).
Proof.
  intros Hat. destruct (split_splices suf) as (n & suf' & Esuf & Hns & Hspl & Hn & Hn0). rewrite Esuf in Hat.
  assert (Hat1 : at_ (set_at_start r (peek_char r =? 10)) pre (c :: Nat.iter n (fun l => 92 :: 10 :: l) suf'))
    by (destruct Hat; by constructor).
  destruct (advance_loop _ _ _ _ _ (S (length (buffer r))) Hat1 Hns) as (r1 & E & Er1 & sp & Esp & Hat2).
  { destruct Hat as [Eb _ _ _]. rewrite Eb, <- Esuf, length_app. cbn. lia. }
  assert (Es : suf = sp ++ suf').
  { rewrite <- Esuf in Esp. rewrite <- app_assoc in Esp. apply app_inv_head in Esp. by injection Esp. }
  unfold advance_reader. cbn [buffer set_at_start]. rewrite E. cbn [mbind res_bind].
  eexists _, sp, suf'. split; [done |]. split; [done |]. split; [done |]. split; [done |].
  set (d := u32 _). destruct (adjust_same r1 d) as (E1 & E2 & E3). split.
  - destruct Hat2 as [H1 H2 H3 H4]. constructor; congruence.
  - split; [transitivity r1; [by rewrite Er1 | done] |]. intros Hs. apply Hn0 in Hs. subst n. cbn in Esuf.
    rewrite Esuf in Es. apply (f_equal length) in Es. rewrite length_app in Es. destruct sp; [done |]. cbn in Es. lia.
Qed.

(** Reading on from a character with no splice behind it. *)
Lemma advance_plain r pre c suf : at_ r pre (c :: suf) -> no_splice suf ->
  exists r', advance_reader r = Ok r' /\ at_ r' (pre ++ [c]) suf /\ same_text r r'.
Proof.
  intros Hat Hns. destruct (advance_spec _ _ _ _ Hat) as (r' & sp & suf' & E & Es & _ & _ & Hat' & Hst & Hsp).
  rewrite (Hsp Hns) in *. cbn in Es. subst suf'. by exists r'.
Qed.

Lemma no_splice_cons c l : c <> 92 -> no_splice (c :: l).
Proof. intros H l' [=]. done. Qed.
Lemma no_splice_nil : no_splice [].
Proof. done. Qed.

(** [read_char] and [expect_char] at a known character. *)
Lemma read_char_plain r pre c suf : at_ r pre (c :: suf) -> no_splice suf ->
  exists r', read_char r = Ok (i8 c, r') /\ at_ r' (pre ++ [c]) suf /\ same_text r r'.
Proof.
  intros Hat Hns. destruct (advance_plain _ _ _ _ Hat Hns) as (r' & E & H). exists r'. split; [| done].
  unfold read_char, peek, advance, mbind, st_bind, res_bind. rewrite E, (peek_cons _ _ _ _ Hat). done.
Qed.

Lemma expect_char_yes r pre c suf : at_ r pre (c :: suf) -> 0 <= c < 128 -> no_splice suf ->
  exists r', expect_char c r = Ok (true, r') /\ at_ r' (pre ++ [c]) suf /\ same_text r r'.
Proof.
  intros Hat Hc Hns. destruct (advance_plain _ _ _ _ Hat Hns) as (r' & E & H). exists r'. split; [| done].
  unfold expect_char, peek, advance, mbind, st_bind, res_bind.
  rewrite (peek_cons _ _ _ _ Hat), i8_ascii, Z.eqb_refl, E by lia. done.
Qed.

Lemma expect_char_no r pre c d suf : at_ r pre (d :: suf) -> 0 <= c < 128 -> d <> c ->
  expect_char c r = Ok (false, r).
Proof.
  intros Hat Hc Hd. unfold expect_char, peek, mbind, st_bind.
  rewrite (peek_cons _ _ _ _ Hat), (i8_eqb_ascii d c (at_head_byte _ _ _ _ Hat)) by lia.
  by destruct (Z.eqb_spec d c).
Qed.

(** [back_up] undoes a plain [advance]. *)
Lemma back_up_at r pre c suf : at_ r (pre ++ [c]) suf -> at_ (back_up r) pre (c :: suf).
Proof.
  intros [E P L B]. rewrite <- app_assoc in E.
  assert (H : forall r0, buffer r0 = buffer r -> position r0 = position r ->
    at_ (set_position (set_adjusted r0 (u32 (adjusted_position r0 - 1)) (next_adjustment r0))
      (u32 (position r0 - 1))) pre (c :: suf)).
  { intros r0 E0 P0. rewrite P0, P. constructor; cbn; rewrite ?E0; [done | | done | done].
    rewrite E, length_app in L. rewrite length_app. cbn in *. rewrite wrap_small by lia. lia. }
  unfold back_up. destruct (adjustments r !! Z.to_nat (next_adjustment r - 1)); [| by apply H].
  destruct (_ && _); by apply H.
Qed.

Lemma back_up_same r : same_text r (back_up r).
Proof. unfold back_up. repeat case_match; done. Qed.

Lemma initial_ident_char_i8 c : is_u 8 c -> initial_ident_char (i8 c) = initial_ident_char c.
Proof.
  intros Hc. unfold sgn. rewrite wrap_small by (unfold is_u in Hc; lia). unfold is_u in Hc.
  destruct (Z.ltb_spec c (2 ^ (8 - 1))); [done |]. unfold initial_ident_char.
  zcases; cbn; lia.
Qed.
Lemma ident_char_i8 c : is_u 8 c -> ident_char (i8 c) = ident_char c.
Proof.
  intros Hc. unfold ident_char. rewrite initial_ident_char_i8 by done. f_equal.
  unfold sgn. rewrite wrap_small by (unfold is_u in Hc; lia). unfold is_u in Hc.
  destruct (Z.ltb_spec c (2 ^ (8 - 1))); [done |]. zcases.
Qed.

Lemma ident_char_not_bs c : ident_char c = true -> c <> 92.
Proof. intros H ->. done. Qed.

(** A loop that consumes one character per turn, over a run of characters. *)
Lemma scan_loop {A R} (body : A -> st Reader (A + R)) (f : A -> Z -> A) (g : A -> R) (P : Z -> Prop) rest :
  (forall r pre c suf a, at_ r pre (c :: suf) -> P c -> no_splice suf ->
     exists r', body a r = Ok (inl (f a c), r') /\ at_ r' (pre ++ [c]) suf /\ same_text r r') ->
  (forall r pre a, at_ r pre rest -> body a r = Ok (inr (g a), r)) ->
  (forall c, P c -> c <> 92) -> no_splice rest ->
  forall s r pre a fuel, at_ r pre (s ++ rest) -> Forall P s -> (length s < fuel)%nat ->
  exists r', loop_st fuel body a r = Ok (g (fold_left f s a), r') /\ at_ r' (pre ++ s) rest /\ same_text r r'.
Proof.
  intros Hstep Hend HP Hns. induction s as [|c s IH]; intros r pre a [|fuel] Hat Hs Hf; cbn in Hf; try lia.
  - exists r. rewrite app_nil_r. split; [| done]. apply loop_st_done. by apply (Hend r pre).
  - apply Forall_cons in Hs as [Hc Hs]. cbn in Hat.
    assert (Hns' : no_splice (s ++ rest)).
    { destruct s as [|d s]; [done |]. apply no_splice_cons, HP. by inversion Hs. }
    destruct (Hstep _ _ _ _ a Hat Hc Hns') as (r1 & E & Hat1 & Hst).
    destruct (IH r1 (pre ++ [c]) (f a c) fuel Hat1 Hs ltac:(lia)) as (r' & E' & Hat' & Hst').
    exists r'. rewrite <- app_assoc in Hat'. split; [| split; [done | by transitivity r1]].
    cbn [fold_left]. rewrite <- E'. by apply loop_st_next.
Qed.

(** The loop of [read_symbol] stops at the first other character. *)
Lemma symbol_loop s r pre rest fuel : at_ r pre (s ++ rest) -> Forall (fun c => ident_char c = true) s ->
  (match rest with c :: _ => ident_char c = false | [] => True end) -> no_splice rest -> (length s < fuel)%nat ->
  exists r', loop_st fuel symbol_body tt r = Ok (tt, r') /\ at_ r' (pre ++ s) rest /\ same_text r r'.
Proof.
  intros Hat Hs Hr Hns Hf.
  eapply (scan_loop symbol_body (fun a _ => a) (fun _ => tt)); [| | | done | done | exact Hs | done].
  - clear. intros r pre c suf [] Hat Hc Hns. destruct (advance_plain _ _ _ _ Hat Hns) as (r1 & E & H).
    exists r1. split; [| done]. unfold symbol_body, mbind, st_bind, get, advance, res_bind.
    rewrite (at_end_cons _ _ _ _ Hat), (peek_cons _ _ _ _ Hat).
    rewrite (ident_char_i8 c (at_head_byte _ _ _ _ Hat)), Hc. cbn [negb]. by rewrite E.
  - clear - Hr. intros r pre [] Hat. unfold symbol_body, mbind, st_bind, get. destruct rest as [|d rest].
    + by rewrite (at_end_nil _ _ Hat).
    + rewrite (at_end_cons _ _ _ _ Hat), (peek_cons _ _ _ _ Hat).
      by rewrite (ident_char_i8 d (at_head_byte _ _ _ _ Hat)), Hr.
  - intros c. apply ident_char_not_bs.
Qed.

Lemma read_symbol_at r pre c s rest : at_ r pre (c :: s ++ rest) -> initial_ident_char c = true ->
  Forall (fun c => ident_char c = true) s ->
  (match rest with c :: _ => ident_char c = false | [] => True end) -> no_splice rest ->
  exists r', read_symbol r = Ok (Some (c :: s), r') /\ at_ r' (pre ++ c :: s) rest /\ same_text r r'.
Proof.
  intros Hat Hc Hs Hr Hns.
  destruct (symbol_loop (c :: s) r pre rest (S (length (buffer r))) Hat) as (r' & E & Hat' & Hst);
    [| done | done | |].
  { apply Forall_cons. split; [| done]. unfold ident_char. by rewrite Hc. }
  { destruct Hat as [-> _ _ _]. rewrite length_app. cbn. rewrite length_app. lia. }
  exists r'. split; [| done]. unfold read_symbol, mbind, st_bind, get. rewrite (peek_cons _ _ _ _ Hat).
  rewrite (initial_ident_char_i8 c (at_head_byte _ _ _ _ Hat)), Hc. cbn [negb]. rewrite E. cbn. do 3 f_equal.
  pose proof (at_bound _ _ _ Hat') as Hb. destruct Hat as [Eb P _ _], Hat' as [Eb' P' _ _].
  rewrite P, P', Eb, Nat2Z.id, drop_app_length by done. rewrite length_app in *. cbn [length] in *.
  rewrite wrap_small by lia.
  replace (Z.to_nat (Z.of_nat (length pre + S (length s)) - Z.of_nat (length pre))) with (length (c :: s)) by (cbn; lia).
  cbn. by rewrite take_app_length.
Qed.

Lemma read_all_splice l : forall r pre fuel, at_ r pre l -> no_splice l -> (length l < fuel)%nat ->
  read_all fuel r = Ok (map i8 (splice l)).
Proof.
  induction l as [l IH] using (well_founded_induction (Wf_nat.well_founded_ltof _ length)).
  intros r pre [|fuel] Hat Hns Hf; [lia |]. cbn [read_all]. destruct l as [|c l].
  - by rewrite (at_end_nil _ _ Hat).
  - rewrite (at_end_cons _ _ _ _ Hat).
    destruct (advance_spec _ _ _ _ Hat) as (r' & sp & suf' & E & Es & Hns' & Hspl & Hat' & _).
    unfold read_char, peek, advance, mbind, st_bind, res_bind. rewrite E, (peek_cons _ _ _ _ Hat). cbn [mret st_ret].
    cbn in Hf. assert (Hlen : (length suf' <= length l)%nat) by (rewrite Es, length_app; lia).
    rewrite (IH suf') with (pre := pre ++ c :: sp); [| unfold Wf_nat.ltof; cbn; lia | done | done | lia].
    rewrite Hspl. f_equal. destruct (decide (c = 92)) as [->|Hc].
    + destruct l as [|d l]; [done |]. destruct (decide (d = 10)) as [->|]; [by destruct (Hns l) |].
      cbn. by repeat case_match; simplify_eq.
    + cbn. by repeat case_match; simplify_eq.
Qed.

(** ** Properties *)

(** C17: Reading a source text to its end with [read_char] performs translation
    phase 2 of the C standard: the characters read are those of the text with
    every backslash-newline pair removed (for a text that does not start with
    one: [reader_init] does not skip it). *)
Theorem read_all_splices_lines text adjs sol name (Hlen : Z.of_nat (length text) < 2 ^ 31)
    (Hbytes : Forall (is_u 8) text) (Hstart : no_splice text) :
  read_all (S (length text)) (reader_init text adjs sol name) = Ok (map i8 (splice text)).
Proof. apply (read_all_splice text _ []); [by constructor | done | lia]. Qed.

(** a, backslash, newline, backslash, newline, b, newline *)
Lemma read_all_splices_lines_witness :
  read_all 8 (reader_init [97; 92; 10; 92; 10; 98; 10] [] false None) = Ok (map i8 [97; 98; 10]).
Proof.
  apply (read_all_splices_lines [97; 92; 10; 92; 10; 98; 10] [] false None); [done | | done].
  repeat (apply Forall_cons; split; [done |]). apply Forall_nil. done.
Defined.

(** [read_symbol] returns the longest identifier at the cursor and leaves the
    cursor behind it. *)
Theorem read_symbol_longest r pre c s rest (Hat : at_ r pre (c :: s ++ rest))
    (Hc : initial_ident_char c = true) (Hs : Forall (fun c => ident_char c = true) s)
    (Hr : match rest with c :: _ => ident_char c = false | [] => True end) (Hns : no_splice rest) :
  exists r', read_symbol r = Ok (Some (c :: s), r') /\ buffer r' = buffer r /\
    position r' = position r + Z.of_nat (length (c :: s)).
Proof.
  destruct (read_symbol_at r pre c s rest Hat Hc Hs Hr Hns) as (r' & E & [_ P' _ _] & Hst).
  exists r'. split; [done |]. split; [apply Hst |]. destruct Hat as [_ -> _ _].
  rewrite P', length_app. lia.
Qed.

(** The name x1 in "+x1;". *)
Lemma read_symbol_longest_witness :
  let r := set_position (reader_init [43; 120; 49; 59] [] false None) 1 in
  exists r', read_symbol r = Ok (Some [120; 49], r') /\ buffer r' = [43; 120; 49; 59] /\ position r' = 1 + 2.
Proof.
  intros r. apply (read_symbol_longest r [43] 120 [49] [59]); try done.
  - constructor; [done | done | done |]. repeat (apply Forall_cons; split; [done |]). by apply Forall_nil.
  - apply Forall_cons. by split; [| apply Forall_nil].
Defined.

(** [back_up] does not undo an [advance] that skipped a line splice: after
    reading the 1 of "1\<newline>2", backing up lands on the newline inside the
    splice, which then reads as a character. *)
Theorem back_up_lands_in_splice :
  match (c ← read_char; modify back_up;; d ← read_char; mret (c, d))
    (reader_init [49; 92; 10; 50] [] false None) with
  | Ok (cd, _) => cd = (49, 10)
  | Stop _ => False
  end.
Proof. by vm_compute. Qed.
