(* ===== verification/Lex.v ===== *)
(** * The lexer ([src/src/syntax/lex.h], [src/src/syntax/lex.c])

    [lex] turns a preprocessed text into tokens and joins adjacent string
    literals. Loops over the text take a fuel argument; more turns than the text
    has characters are only needed by a literal that is not closed. Doubles are
    the IEEE numbers of [SpecFloat]. *)

From Stdlib Require Import SpecFloat.
From S2P Require Import Prelude LibC Reader.

Local Open Scope Z_scope.

(** ** Data *)

Inductive TokenType :=
| TOK_INVALID
| TOK_INT_LITERAL | TOK_FLOAT_LITERAL | TOK_STRING_LITERAL | TOK_SYMBOL
| TOK_PLUS | TOK_INCREMENT | TOK_PLUS_ASSIGN
| TOK_MINUS | TOK_DECREMENT | TOK_MINUS_ASSIGN | TOK_ARROW
| TOK_ASTERISK | TOK_MULTIPLY_ASSIGN
| TOK_DIVIDE | TOK_DIVIDE_ASSIGN
| TOK_MODULO | TOK_MODULO_ASSIGN
| TOK_AMPERSAND | TOK_LOGICAL_AND | TOK_BIT_AND_ASSIGN
| TOK_BIT_OR | TOK_LOGICAL_OR | TOK_BIT_OR_ASSIGN
| TOK_BIT_XOR | TOK_BIT_XOR_ASSIGN
| TOK_ASSIGN | TOK_EQUAL
| TOK_LOGICAL_NOT | TOK_NOT_EQUAL
| TOK_LESS_THAN | TOK_LESS_THAN_OR_EQUAL | TOK_LEFT_SHIFT | TOK_LEFT_SHIFT_ASSIGN
| TOK_GREATER_THAN | TOK_GREATER_THAN_OR_EQUAL | TOK_RIGHT_SHIFT | TOK_RIGHT_SHIFT_ASSIGN
| TOK_DOUBLE_HASH
| TOK_DOT | TOK_ELLIPSIS
| TOK_BIT_NOT | TOK_QUESTION_MARK | TOK_COLON | TOK_SEMICOLON | TOK_COMMA
| TOK_LCURLY | TOK_RCURLY | TOK_LROUND | TOK_RROUND | TOK_LSQUARE | TOK_RSQUARE.

#[export] Instance TokenType_eq_dec : EqDecision TokenType.
Proof. solve_decision. Defined.

(** A set of bits. *)
Definition NO_SUFFIX : Z := 0.
Definition UNSIGNED_SUFFIX : Z := 1.
Definition LONG_SUFFIX : Z := 2.
Definition LONG_LONG_SUFFIX : Z := 4.
Definition FLOAT_SUFFIX : Z := 8.

(** [U_string_literal owned s]: the characters [s] (NULL for [None]) without the
    terminator; [owned] tells whether they are in a heap block of the token's
    own, as opposed to the reader's file name. *)
Inductive TokenU :=
| U_none
| U_int_literal (value : Z) (suffix : Z)
| U_float_literal (value : spec_float) (suffix : Z)
| U_symbol (s : list Z)
| U_string_literal (owned : bool) (s : option (list Z)).

Record Token := mkToken { tok_t : TokenType; tok_u : TokenU }.
Record SourceToken := mkSourceToken { token : Token; source_range : SourceRange }.

Record Lexer := mkLexer { reader : Reader; tokens : list SourceToken }.

Definition on_reader {A} (m : st Reader A) : st Lexer A :=
  zoom reader (fun r l => mkLexer r (tokens l)) m.

(** ** Numbers *)

Definition append_token (range : SourceRange) (tok : Token) : st Lexer unit :=
  modify (fun l => mkLexer (reader l) (tokens l ++ [mkSourceToken tok range])).

Definition char_to_digit (c radix : Z) : Z :=
  if (radix =? 16) && (97 <=? c) && (c <=? 102) then c - 97 + 10
  else if (radix =? 16) && (65 <=? c) && (c <=? 70) then c - 65 + 10
  else if (10 <=? radix) && (56 <=? c) && (c <=? 57) then c - 48
  else if (48 <=? c) && (c <=? 55) then c - 48
  else -1.

(** u U l L f F *)
Definition is_numeric_suffix_char (c : Z) : bool :=
  (c =? 117) || (c =? 85) || (c =? 108) || (c =? 76) || (c =? 102) || (c =? 70).

Section Fuel.
Context (fuel : nat).

Definition suffix_body (start_loc : SourceLoc) (suffix : Z) : st Reader (Z + Z) :=
  r ← get;
  if at_end r then mret (inr suffix)
  else
    let loc := reader_source_loc r in
    c ← read_char;
    if (c =? 117) || (c =? 85) then
      (if negb (Z.land suffix UNSIGNED_SUFFIX =? 0) then
         emit_error (mkRange start_loc loc) "Multiple 'u' suffixes on numeric literal"
       else mret tt);;
      mret (inl (Z.lor suffix UNSIGNED_SUFFIX))
    else if (c =? 108) || (c =? 76) then
      (if negb (Z.land suffix (Z.lor LONG_SUFFIX LONG_LONG_SUFFIX) =? 0) then
         emit_error (mkRange start_loc loc) "Multiple 'l'/'ll' suffixes on numeric literal"
       else mret tt);;
      b ← expect_char c;
      if b : bool then mret (inl (Z.lor suffix LONG_LONG_SUFFIX))
      else mret (inl (Z.lor suffix LONG_SUFFIX))
    else if (c =? 102) || (c =? 70) then
      (if negb (Z.land suffix FLOAT_SUFFIX =? 0) then
         emit_error (mkRange start_loc loc) "Multiple 'f' suffixes on numeric literal"
       else mret tt);;
      mret (inl (Z.lor suffix FLOAT_SUFFIX))
    else modify back_up;; mret (inr suffix).

Definition read_numeric_suffix : st Reader Z :=
  r ← get;
  loop_st fuel (suffix_body (reader_source_loc r)) NO_SUFFIX.

Definition opt_suffix : st Reader Z :=
  c ← peek;
  if is_numeric_suffix_char c then read_numeric_suffix else mret NO_SUFFIX.

(** [None] when the number is invalid. *)
Definition octal_body (x : Z) : st Reader (Z + option Z) :=
  c ← peek;
  if (48 <=? c) && (c <=? 57) then
    if (c =? 56) || (c =? 57) then
      r ← get;
      emit_error (point_range (reader_source_loc r)) "Invalid digit in octal literal";;
      mret (inr None)
    else advance;; mret (inl (u64 (u64 (x * 8) + (c - 48))))
  else mret (inr (Some x)).
Definition read_octal_number : st Reader (option Z) := loop_st fuel octal_body 0.

Definition hex_body (s : Z * bool) : st Reader (Z * bool + Z * bool) :=
  let '(x, at_least_one_digit) := s in
  c ← peek;
  if (97 <=? c) && (c <=? 102) then advance;; mret (inl (u64 (x * 16 + c - 97 + 10), true))
  else if (65 <=? c) && (c <=? 70) then advance;; mret (inl (u64 (x * 16 + c - 65 + 10), true))
  else if (48 <=? c) && (c <=? 57) then advance;; mret (inl (u64 (x * 16 + c - 48), true))
  else mret (inr (x, at_least_one_digit)).
Definition read_hex_number : st Reader (option Z) :=
  r ← get;
  let start_loc := reader_source_loc r in
  let start_loc := mkLoc (filename start_loc) (u32 (offset start_loc - 2)) in
  '(x, at_least_one_digit) ← loop_st fuel hex_body (0, false);
  if at_least_one_digit : bool then mret (Some x)
  else
    r ← get;
    emit_error (mkRange start_loc (reader_source_loc r))
      "Hexadecimal literal must have at least one digit";;
    mret None.

(** The escapes of one character: backslash, quotes, a b f n r t v. *)
Definition simple_escape (c : Z) : option Z :=
  if c =? 92 then Some 92 else if c =? 39 then Some 39 else if c =? 34 then Some 34
  else if c =? 97 then Some 7 else if c =? 98 then Some 8 else if c =? 102 then Some 12
  else if c =? 110 then Some 10 else if c =? 114 then Some 13 else if c =? 116 then Some 9
  else if c =? 118 then Some 11 else None.

(** A byte, or -1. *)
Definition read_char_in_literal (start_loc : SourceLoc) : st Reader Z :=
  c ← read_char;
  value ←
    (if c =? 92 then
       r ← get;
       let loc := reader_source_loc r in
       e ← read_char;
       match simple_escape e with
       | Some v => mret (Some v)
       | None =>
           if e =? 48 then read_octal_number
           else if e =? 120 then read_hex_number
           else emit_error (mkRange start_loc loc) "Invalid escape character";; mret None
       end
     else mret (Some (u8 c)));
  match value with
  | None => mret (-1)
  | Some value =>
      if 255 <? value then
        r ← get;
        emit_error (range_from r start_loc) "Character constant larger than a character";;
        mret (-1)
      else mret value
  end.

Definition skip_body (radix : Z) (_ : unit) : st Reader (unit + unit) :=
  c ← peek;
  if negb (char_to_digit c radix =? -1) then advance;; mret (inl tt) else mret (inr tt).
Definition skip_digits (radix : Z) : st Reader unit := loop_st fuel (skip_body radix) tt.

(** The token type and the radix. *)
Definition classify_numeric_literal : st Reader (TokenType * Z) :=
  z ← expect_char 48;
  radix ←
    (if z : bool then
       r ← get;
       if at_end r then mret 10
       else
         x ← expect_char 120;
         if x : bool then mret 16
         else c ← peek; mret (if isdigit c then 8 else 10)
     else mret 10);
  skip_digits radix;;
  if radix =? 8 then mret (TOK_INT_LITERAL, radix)
  else
    dot ← expect_char 46;
    if dot : bool then mret (TOK_FLOAT_LITERAL, radix)
    else
      e ← (if radix =? 10 then e ← expect_char 101; if e : bool then mret true else expect_char 69
           else mret false);
      if e : bool then mret (TOK_FLOAT_LITERAL, radix)
      else
        p ← (if radix =? 16 then p ← expect_char 112; if p : bool then mret true else expect_char 80
             else mret false);
        if p : bool then mret (TOK_FLOAT_LITERAL, radix) else mret (TOK_INT_LITERAL, radix).

Definition int_body (radix value : Z) : st Reader (Z + Z) :=
  c ← peek;
  let digit := char_to_digit c radix in
  if digit =? -1 then mret (inr value)
  else advance;; mret (inl (u64 (value * radix + digit))).

Definition read_int_literal (radix : Z) : st Reader Token :=
  value ← loop_st fuel (int_body radix) 0;
  suffix ← opt_suffix;
  mret (mkToken TOK_INT_LITERAL (U_int_literal value suffix)).

(** [(double)x] of a u64, and [x * y] on doubles. *)
Definition double_of_u64 (x : Z) : spec_float := binary_normalize 53 1024 x 0 false.
Definition dmul (x y : spec_float) : spec_float := SFmul 53 1024 x y.
(** [ldexp] of <math.h>. *)
Definition ldexp (x : spec_float) (e : Z) : spec_float := SFldexp 53 1024 x e.

(** The constants 1e0 ... 1e22 and 1e-0 ... 1e-22, rounded to nearest. *)
Definition positive_power_of_ten (e : Z) : spec_float := double_of_u64 (10 ^ e).
Definition negative_power_of_ten (e : Z) : spec_float :=
  SFdiv 53 1024 (double_of_u64 1) (double_of_u64 (10 ^ e)).

Definition double_from_decimal_exponent (significand exponent : Z) : res spec_float :=
  if Z.abs exponent <=? 22 then
    let x := double_of_u64 significand in
    let y := if exponent <? 0 then negative_power_of_ten (Z.abs exponent)
             else positive_power_of_ten (Z.abs exponent) in
    Ok (dmul x y)
  else UNIMPLEMENTED.

(** extra_exponent, significand, significand_digit_count, decimal_point_position *)
Definition significand_body (radix exponent_per_digit : Z) (s : Z * Z * Z * Z)
  : st Reader (Z * Z * Z * Z + Z * Z * Z * Z) :=
  let '(extra_exponent, significand, digit_count, point) := s in
  c ← peek;
  if c =? 46 then advance;; mret (inl (extra_exponent, significand, digit_count, digit_count))
  else
    let digit := char_to_digit c radix in
    if digit =? -1 then mret (inr s)
    else
      advance;;
      if significand <? 2 ^ 52 then
        mret (inl (extra_exponent, u64 (significand * radix + digit), i32 (digit_count + 1), point))
      else mret (inl (u32 (extra_exponent + exponent_per_digit), significand, i32 (digit_count + 1), point)).

Definition exponent_body (exponent : Z) : st Reader (Z + Z) :=
  c ← peek;
  let digit := char_to_digit c 10 in
  if digit =? -1 then mret (inr exponent)
  else advance;; mret (inl (i32 (exponent * 10 + digit))).

Definition read_float_literal (radix : Z) : st Reader Token :=
  let exponent_per_digit := if radix =? 10 then 1 else 4 in
  '(extra_exponent, significand, digit_count, point)
    ← loop_st fuel (significand_body radix exponent_per_digit) (0, 0, 0, -1);
  c ← peek;
  exponent ←
    (if ((radix =? 10) && ((c =? 101) || (c =? 69))) || ((radix =? 16) && ((c =? 112) || (c =? 80))) then
       advance;;
       plus ← expect_char 43;
       negative ← (if plus : bool then mret false else expect_char 45);
       e ← loop_st fuel exponent_body 0;
       mret (if negative : bool then i32 (- e) else e)
     else mret 0);
  suffix ← opt_suffix;
  let exponent := i32 (exponent + extra_exponent) in
  let exponent :=
    if negb (point =? -1)
    then i32 (exponent - u32 (exponent_per_digit * u32 (digit_count - point)))
    else exponent in
  value ← lift (if radix =? 16 then Ok (ldexp (double_of_u64 significand) exponent)
                else double_from_decimal_exponent significand exponent);
  mret (mkToken TOK_FLOAT_LITERAL (U_float_literal value suffix)).

(** The cursor is put back after the look ahead, but not [next_adjustment]. *)
Definition read_numeric_literal : st Reader Token :=
  r ← get;
  '(type, radix) ← classify_numeric_literal;
  modify (fun r' => set_position (set_adjusted r' (adjusted_position r) (next_adjustment r')) (position r));;
  (if radix =? 16 then advance;; advance else mret tt);;
  if decide (type = TOK_INT_LITERAL) then read_int_literal radix
  else lift (ASSERT (bool_decide (type = TOK_FLOAT_LITERAL)));; read_float_literal radix.

End Fuel.

(** ** Tokens *)

Section Fuel.
Context (fuel : nat).

(** [reader->filename] as characters. *)
Definition chars_of (s : option string) : option (list Z) :=
  (fun s => map (fun c => Z.of_nat (Ascii.nat_of_ascii c)) (String.list_ascii_of_string s)) <$> s.
Definition bytes_of (s : string) : list Z := default [] (chars_of (Some s)).

Definition add_tok (start_loc : SourceLoc) (tok : Token) : st Lexer unit :=
  l ← get;
  append_token (range_from (reader l) start_loc) tok.

Definition expect (c : Z) : st Lexer bool := on_reader (expect_char c).

(** The characters of a string literal, after the opening quote. *)
Definition string_body (start_loc : SourceLoc) (chars : list Z) : st Reader (list Z + option (list Z)) :=
  c ← peek;
  if c =? 34 then mret (inr (Some chars))
  else
    c ← read_char_in_literal fuel start_loc;
    if c =? -1 then mret (inr None) else mret (inl (chars ++ [u8 c])).

Definition lex_string (start_loc : SourceLoc) : st Lexer bool :=
  chars ← on_reader (loop_st fuel (string_body start_loc) []);
  match chars with
  | None => mret false
  | Some chars =>
      on_reader read_char;;
      add_tok start_loc (mkToken TOK_STRING_LITERAL (U_string_literal true (Some chars)));;
      mret true
  end.

Definition lex_char (start_loc : SourceLoc) : st Lexer bool :=
  value ← on_reader (read_char_in_literal fuel start_loc);
  if value =? -1 then mret false
  else
    c ← on_reader read_char;
    if negb (c =? 39) then
      l ← get;
      on_reader (emit_error (range_from (reader l) start_loc) "Unterminated character literal");;
      mret false
    else
      add_tok start_loc (mkToken TOK_INT_LITERAL (U_int_literal (u64 value) NO_SUFFIX));;
      mret true.

(** The operators: the token after the first character [c]; [None] when [c]
    starts no operator. *)
Definition operator (c : Z) : option (st Lexer TokenType) :=
  let opt c yes no := b ← expect c; if b : bool then yes else no in
  if c =? 43 (* + *) then Some (opt 43 (mret TOK_INCREMENT) (opt 61 (mret TOK_PLUS_ASSIGN) (mret TOK_PLUS)))
  else if c =? 45 (* - *) then
    Some (opt 45 (mret TOK_DECREMENT) (opt 61 (mret TOK_MINUS_ASSIGN)
           (opt 62 (mret TOK_ARROW) (mret TOK_MINUS))))
  else if c =? 42 (* * *) then Some (opt 61 (mret TOK_MULTIPLY_ASSIGN) (mret TOK_ASTERISK))
  else if c =? 47 (* / *) then Some (opt 61 (mret TOK_DIVIDE_ASSIGN) (mret TOK_DIVIDE))
  else if c =? 37 (* % *) then Some (opt 61 (mret TOK_MODULO_ASSIGN) (mret TOK_MODULO))
  else if c =? 38 (* & *) then
    Some (opt 38 (mret TOK_LOGICAL_AND) (opt 61 (mret TOK_BIT_AND_ASSIGN) (mret TOK_AMPERSAND)))
  else if c =? 124 (* | *) then
    Some (opt 124 (mret TOK_LOGICAL_OR) (opt 61 (mret TOK_BIT_OR_ASSIGN) (mret TOK_BIT_OR)))
  else if c =? 94 (* ^ *) then Some (opt 61 (mret TOK_BIT_XOR_ASSIGN) (mret TOK_BIT_XOR))
  else if c =? 61 (* = *) then Some (opt 61 (mret TOK_EQUAL) (mret TOK_ASSIGN))
  else if c =? 33 (* ! *) then Some (opt 61 (mret TOK_NOT_EQUAL) (mret TOK_LOGICAL_NOT))
  else if c =? 60 (* < *) then
    Some (opt 61 (mret TOK_LESS_THAN_OR_EQUAL)
           (opt 60 (opt 61 (mret TOK_LEFT_SHIFT_ASSIGN) (mret TOK_LEFT_SHIFT)) (mret TOK_LESS_THAN)))
  else if c =? 62 (* > *) then
    Some (opt 61 (mret TOK_GREATER_THAN_OR_EQUAL)
           (opt 62 (opt 61 (mret TOK_RIGHT_SHIFT_ASSIGN) (mret TOK_RIGHT_SHIFT)) (mret TOK_GREATER_THAN)))
  else if c =? 126 (* ~ *) then Some (mret TOK_BIT_NOT)
  else if c =? 63 (* ? *) then Some (mret TOK_QUESTION_MARK)
  else if c =? 58 (* : *) then Some (mret TOK_COLON)
  else if c =? 59 (* ; *) then Some (mret TOK_SEMICOLON)
  else if c =? 44 (* , *) then Some (mret TOK_COMMA)
  else if c =? 123 (* { *) then Some (mret TOK_LCURLY)
  else if c =? 125 (* } *) then Some (mret TOK_RCURLY)
  else if c =? 40 (* ( *) then Some (mret TOK_LROUND)
  else if c =? 41 (* ) *) then Some (mret TOK_RROUND)
  else if c =? 91 (* [ *) then Some (mret TOK_LSQUARE)
  else if c =? 93 (* ] *) then Some (mret TOK_RSQUARE)
  else None.

(** "." "..." or a number; the float's token replaces the one appended for it. *)
Definition lex_dot (start_loc : SourceLoc) : st Lexer unit :=
  two ← expect 46;
  if two : bool then
    three ← expect 46;
    if three : bool then add_tok start_loc (mkToken TOK_ELLIPSIS U_none)
    else on_reader (modify back_up);; add_tok start_loc (mkToken TOK_DOT U_none)
  else
    c ← on_reader peek;
    if isdigit c then
      on_reader (modify back_up);;
      l ← get;
      let range := range_from (reader l) start_loc in
      tok ← on_reader (read_float_literal fuel 10);
      append_token range tok
    else add_tok start_loc (mkToken TOK_DOT U_none).

Definition lex_symbol (start_loc : SourceLoc) : st Lexer unit :=
  on_reader (modify back_up);;
  s ← on_reader read_symbol;
  match s with
  | None => lift ICE
  | Some symbol =>
      l ← get;
      if bool_decide (symbol = bytes_of "__LINE__") then
        add_tok start_loc (mkToken TOK_INT_LITERAL
          (U_int_literal (reader_current_line (reader l)) NO_SUFFIX))
      else if bool_decide (symbol = bytes_of "__FILE__") then
        add_tok start_loc (mkToken TOK_STRING_LITERAL
          (U_string_literal false (chars_of (reader_filename (reader l)))))
      else add_tok start_loc (mkToken TOK_SYMBOL (U_symbol symbol))
  end.

(** One turn of the loop of [lex_aux]; [inr] is its return value. *)
Definition lex_body (_ : unit) : st Lexer (unit + bool) :=
  l ← get;
  if at_end (reader l) then mret (inr true)
  else
    let start_loc := reader_source_loc (reader l) in
    c ← on_reader read_char;
    if (48 <=? c) && (c <=? 57) then
      on_reader (modify back_up);;
      tok ← on_reader (read_numeric_literal fuel);
      add_tok start_loc tok;;
      mret (inl tt)
    else if c =? 34 then
      b ← lex_string start_loc; mret (if b : bool then inl tt else inr false)
    else if c =? 39 then
      b ← lex_char start_loc; mret (if b : bool then inl tt else inr false)
    else if c =? 46 then lex_dot start_loc;; mret (inl tt)
    else if (c =? 32) || (c =? 10) then mret (inl tt)
    else
      match operator c with
      | Some op => ty ← op; add_tok start_loc (mkToken ty U_none);; mret (inl tt)
      | None => lex_symbol start_loc;; mret (inl tt)
      end.

Definition lex_aux : st Lexer bool := loop_st fuel lex_body tt.

End Fuel.

(** ** Joining string literals *)

Definition is_string (tok : SourceToken) : bool :=
  bool_decide (tok_t (token tok) = TOK_STRING_LITERAL).

Definition string_literal (tok : SourceToken) : res (bool * option (list Z)) :=
  match tok_u (token tok) with U_string_literal o s => Ok (o, s) | _ => Stop Undef end.

(** The inner loop: append the literals from [j] on. [realloc] of characters that
    are not a heap block is undefined. *)
Definition join_body (toks : list SourceToken) (s : Z * (bool * option (list Z)))
  : res (Z * (bool * option (list Z)) + Z * (bool * option (list Z))) :=
  let '(j, str) := s in
  if Z.of_nat (length toks) <=? j then Ok (inr s)
  else
    next ← ref toks j;
    if negb (is_string next) then Ok (inr s)
    else
      '(_, next_str) ← string_literal next;
      match str, next_str with
      | (true, Some l), Some l' => Ok (inl (u32 (j + 1), (true, Some (l ++ l'))))
      | _, _ => Stop Undef
      end.

(** One turn of the outer loop, on the tokens, [dest] and [i]. *)
Definition concat_body (s : list SourceToken * Z * Z)
  : res (list SourceToken * Z * Z + list SourceToken) :=
  let '(toks, dest, i) := s in
  if Z.of_nat (length toks) <=? i then Ok (inr (take (Z.to_nat dest) toks))
  else
    tok ← ref toks i;
    '(toks, j, tok) ←
      (if is_string tok then
         str ← string_literal tok;
         '(j, str) ← loop (S (length toks)) (join_body toks) (u32 (i + 1), str);
         let tok := mkSourceToken (mkToken (tok_t (token tok)) (U_string_literal str.1 str.2)) (source_range tok) in
         toks ← store toks i tok;
         Ok (toks, j, tok)
       else Ok (toks, u32 (i + 1), tok));
    toks ← (if negb (i =? dest) then store toks dest tok else Ok toks);
    Ok (inl (toks, u32 (dest + 1), j)).

Definition concat_strings (toks : list SourceToken) : res (list SourceToken) :=
  loop (S (length toks)) concat_body (toks, 0, 0).

(** [lex]: the result of [lex_aux], the tokens, and the errors printed. *)
Definition lex (fuel : nat) (text : list Z) (adjs : list Adjustment)
  : res (bool * list SourceToken * list (SourceRange * string)) :=
  let name := match adjs with [] => None | first :: _ => filename (new_source_loc first) end in
  let r := reader_init text adjs false name in
  match adjs with
  | [] => ICE
  | first :: _ =>
      ASSERT (location first =? 0);;
      ASSERT (bool_decide (adj_type first = NORMAL_ADJUSTMENT));;
      let r := set_adjusted r (adjusted_position r) (u32 (next_adjustment r + 1)) in
      '(ret, l) ← lex_aux fuel (mkLexer r []);
      toks ← concat_strings (tokens l);
      Ok (ret, toks, stderr (reader l))
  end.

(** ** Specification *)

(** Literal text of the operators and punctuators the lexer knows. *)
Definition op_text (ty : TokenType) : option (list Z) :=
  match ty with
  | TOK_PLUS => Some [43] | TOK_INCREMENT => Some [43; 43] | TOK_PLUS_ASSIGN => Some [43; 61]
  | TOK_MINUS => Some [45] | TOK_DECREMENT => Some [45; 45] | TOK_MINUS_ASSIGN => Some [45; 61]
  | TOK_ARROW => Some [45; 62]
  | TOK_ASTERISK => Some [42] | TOK_MULTIPLY_ASSIGN => Some [42; 61]
  | TOK_DIVIDE => Some [47] | TOK_DIVIDE_ASSIGN => Some [47; 61]
  | TOK_MODULO => Some [37] | TOK_MODULO_ASSIGN => Some [37; 61]
  | TOK_AMPERSAND => Some [38] | TOK_LOGICAL_AND => Some [38; 38] | TOK_BIT_AND_ASSIGN => Some [38; 61]
  | TOK_BIT_OR => Some [124] | TOK_LOGICAL_OR => Some [124; 124] | TOK_BIT_OR_ASSIGN => Some [124; 61]
  | TOK_BIT_XOR => Some [94] | TOK_BIT_XOR_ASSIGN => Some [94; 61]
  | TOK_ASSIGN => Some [61] | TOK_EQUAL => Some [61; 61]
  | TOK_LOGICAL_NOT => Some [33] | TOK_NOT_EQUAL => Some [33; 61]
  | TOK_LESS_THAN => Some [60] | TOK_LESS_THAN_OR_EQUAL => Some [60; 61]
  | TOK_LEFT_SHIFT => Some [60; 60] | TOK_LEFT_SHIFT_ASSIGN => Some [60; 60; 61]
  | TOK_GREATER_THAN => Some [62] | TOK_GREATER_THAN_OR_EQUAL => Some [62; 61]
  | TOK_RIGHT_SHIFT => Some [62; 62] | TOK_RIGHT_SHIFT_ASSIGN => Some [62; 62; 61]
  | TOK_BIT_NOT => Some [126] | TOK_QUESTION_MARK => Some [63] | TOK_COLON => Some [58]
  | TOK_SEMICOLON => Some [59] | TOK_COMMA => Some [44]
  | TOK_LCURLY => Some [123] | TOK_RCURLY => Some [125] | TOK_LROUND => Some [40] | TOK_RROUND => Some [41]
  | TOK_LSQUARE => Some [91] | TOK_RSQUARE => Some [93]
  | _ => None
  end.

(** The words of a program text. *)
Inductive word :=
| WOp (ty : TokenType)
| WDot
| WEllipsis
| WIdent (c : Z) (s : list Z)
| WInt (c : Z) (ds : list Z)
| WStr (s : list Z).

Definition is_digit_char (c : Z) : bool := (48 <=? c) && (c <=? 57).

(** Plain characters of a string literal: bytes but the quote and the backslash. *)
Definition plain_char (c : Z) : bool := (0 <=? c) && (c <? 256) && negb (c =? 34) && negb (c =? 92).

Definition word_text (w : word) : list Z :=
  match w with
  | WOp ty => default [] (op_text ty)
  | WDot => [46]
  | WEllipsis => [46; 46; 46]
  | WIdent c s => c :: s
  | WInt c ds => c :: ds
  | WStr s => 34 :: s ++ [34]
  end.

Definition word_wf (w : word) : Prop :=
  match w with
  | WOp ty => is_Some (op_text ty)
  | WDot | WEllipsis => True
  | WIdent c s => initial_ident_char c = true /\ Forall (fun c => ident_char c = true) s /\
      c :: s <> bytes_of "__LINE__" /\ c :: s <> bytes_of "__FILE__"
  | WInt c ds => is_digit_char c = true /\ Forall (fun c => is_digit_char c = true) ds /\ (c = 48 -> ds = [])
  | WStr s => Forall (fun c => plain_char c = true) s
  end.

(** The number a string of decimal digits denotes. *)
Definition dec_value (ds : list Z) : Z := fold_left (fun v d => v * 10 + (d - 48)) ds 0.

Definition word_token (w : word) : Token :=
  match w with
  | WOp ty => mkToken ty U_none
  | WDot => mkToken TOK_DOT U_none
  | WEllipsis => mkToken TOK_ELLIPSIS U_none
  | WIdent c s => mkToken TOK_SYMBOL (U_symbol (c :: s))
  | WInt c ds => mkToken TOK_INT_LITERAL (U_int_literal (u64 (dec_value (c :: ds))) NO_SUFFIX)
  | WStr s => mkToken TOK_STRING_LITERAL (U_string_literal true (Some s))
  end.

(** A text: the words, each followed by a space. *)
Definition print (ws : list word) : list Z := ws ≫= fun w => word_text w ++ [32].

(** Adjacent string literals become one. *)
Definition literal_chars (tok : Token) : option (list Z) :=
  match tok with mkToken TOK_STRING_LITERAL (U_string_literal true (Some s)) => Some s | _ => None end.
Fixpoint merge_strings (l : list Token) : list Token :=
  match l with
  | [] => []
  | a :: l =>
      match literal_chars a, merge_strings l with
      | Some s, b :: l' =>
          match literal_chars b with
          | Some s' => mkToken TOK_STRING_LITERAL (U_string_literal true (Some (s ++ s'))) :: l'
          | None => a :: b :: l'
          end
      | _, l' => a :: l'
      end
  end.

(** ** Lemmas *)

Lemma expect_yes l pre c suf : at_ (reader l) pre (c :: suf) -> 0 <= c < 128 -> no_splice suf ->
  exists r', expect c l = Ok (true, mkLexer r' (tokens l)) /\ at_ r' (pre ++ [c]) suf /\ same_text (reader l) r'.
Proof.
  intros Hat Hc Hns. destruct (expect_char_yes _ _ _ _ Hat Hc Hns) as (r' & E & H).
  exists r'. split; [| done]. unfold expect, on_reader, zoom. by rewrite E.
Qed.

Lemma expect_no l pre c d suf : at_ (reader l) pre (d :: suf) -> 0 <= c < 128 -> d <> c ->
  expect c l = Ok (false, l).
Proof.
  intros Hat Hc Hd. unfold expect, on_reader, zoom. rewrite (expect_char_no _ _ _ _ _ Hat Hc Hd).
  by destruct l.
Qed.

(** One [expect] of [operator], decided by the character at the cursor. *)
Ltac op_step :=
  match goal with
  | H : at_ (reader ?l) ?pre (?c :: ?suf) |- context [mbind _ (expect ?c) ?l] =>
      let r := fresh "r" in let E := fresh "E" in let H' := fresh "Hat" in let Hst := fresh "Hst" in
      destruct (expect_yes l pre c suf H ltac:(lia) ltac:(apply no_splice_cons; lia)) as (r & E & H' & Hst);
      rewrite (st_bind_run (expect c) _ l _ _ E); clear E;
      change r with (reader (mkLexer r (tokens l))) in H';
      change (tokens l) with (tokens (mkLexer r (tokens l))) at 2
  | H : at_ (reader ?l) ?pre (?d :: ?suf) |- context [mbind _ (expect ?c) ?l] =>
      rewrite (st_bind_run (expect c) _ l _ _ (expect_no l pre c d suf H ltac:(lia) ltac:(lia)))
  end.

Lemma operator_text ty c s l pre rest : op_text ty = Some (c :: s) ->
  at_ (reader l) pre (s ++ 32 :: rest) -> no_splice rest ->
  0 < c < 128 /\ exists op, operator c = Some op /\ exists r', op l = Ok (ty, mkLexer r' (tokens l)) /\
    at_ r' (pre ++ s) (32 :: rest) /\ same_text (reader l) r'.
Proof.
  intros E Hat Hns. destruct ty; cbn in E; try done; injection E as <- <-; (split; [lia |]);
    (eexists; split; [reflexivity |]); cbn in Hat;
    repeat op_step; rewrite ?app_nil_r;
    match goal with |- exists r', _ ?l' = _ /\ _ => exists (reader l') end; (split; [by destruct l |]).
  all: cbn in *; rewrite <- ?app_assoc in *; split; [eassumption | try reflexivity; repeat (etransitivity; [eassumption |]); try eassumption; reflexivity].
Qed.

Lemma digit_char c : is_digit_char c = true -> i8 c = c /\ char_to_digit c 10 = c - 48 /\ 48 <= c <= 57.
Proof.
  intros H. unfold is_digit_char in H. bsplit. rewrite i8_ascii by lia. split; [done |]. split; [| lia].
  unfold char_to_digit. cbn. zcases; done.
Qed.

Lemma digit_not_bs c : is_digit_char c = true -> c <> 92.
Proof. intros H ->. done. Qed.

Lemma advance_run r pre c suf : at_ r pre (c :: suf) -> no_splice suf ->
  exists r', advance r = Ok (tt, r') /\ at_ r' (pre ++ [c]) suf /\ same_text r r'.
Proof.
  intros Hat Hns. destruct (advance_plain _ _ _ _ Hat Hns) as (r' & E & H). exists r'.
  split; [| done]. unfold advance, mbind, res_bind. by rewrite E.
Qed.

Lemma peek_run r pre c suf : at_ r pre (c :: suf) -> peek r = Ok (i8 c, r).
Proof. intros Hat. unfold peek. by rewrite (peek_cons _ _ _ _ Hat). Qed.

Lemma skip_digits_run fuel ds r pre rest : at_ r pre (ds ++ 32 :: rest) ->
  Forall (fun c => is_digit_char c = true) ds -> (length ds < fuel)%nat ->
  exists r', skip_digits fuel 10 r = Ok (tt, r') /\ at_ r' (pre ++ ds) (32 :: rest) /\ same_text r r'.
Proof.
  intros Hat Hds Hf. eapply (scan_loop (skip_body 10) (fun a _ => a) (fun _ => tt));
    [| | | by apply no_splice_cons | exact Hat | exact Hds | done].
  - clear. intros r pre c suf [] Hat Hc Hns. destruct (digit_char c Hc) as (E1 & E2 & Hb).
    destruct (advance_run _ _ _ _ Hat Hns) as (r' & E & H). exists r'. split; [| done].
    unfold skip_body. rewrite (st_bind_run _ _ _ _ _ (peek_run _ _ _ _ Hat)), E1, E2.
    destruct (Z.eqb_spec (c - 48) (-1)); [lia |]. cbn [negb]. by rewrite (st_bind_run _ _ _ _ _ E).
  - clear. intros r pre [] Hat. unfold skip_body. by rewrite (st_bind_run _ _ _ _ _ (peek_run _ _ _ _ Hat)).
  - intros c. apply digit_not_bs.
Qed.

Lemma int_loop_run fuel ds r pre rest v : at_ r pre (ds ++ 32 :: rest) ->
  Forall (fun c => is_digit_char c = true) ds -> (length ds < fuel)%nat ->
  exists r', loop_st fuel (int_body 10) v r
      = Ok (fold_left (fun v c => u64 (v * 10 + (c - 48))) ds v, r') /\
    at_ r' (pre ++ ds) (32 :: rest) /\ same_text r r'.
Proof.
  intros Hat Hds Hf. eapply (scan_loop (int_body 10) _ (fun v => v));
    [| | | by apply no_splice_cons | exact Hat | exact Hds | done].
  - clear. intros r pre c suf v Hat Hc Hns. destruct (digit_char c Hc) as (E1 & E2 & Hb).
    destruct (advance_run _ _ _ _ Hat Hns) as (r' & E & H). exists r'. split; [| done].
    unfold int_body. rewrite (st_bind_run _ _ _ _ _ (peek_run _ _ _ _ Hat)), E1, E2.
    destruct (Z.eqb_spec (c - 48) (-1)); [lia |]. by rewrite (st_bind_run _ _ _ _ _ E).
  - clear. intros r pre v Hat. unfold int_body. by rewrite (st_bind_run _ _ _ _ _ (peek_run _ _ _ _ Hat)).
  - intros c. apply digit_not_bs.
Qed.

Lemma fold_digits_wrap ds v : fold_left (fun v c => u64 (v * 10 + (c - 48))) ds (u64 v)
  = u64 (fold_left (fun v c => v * 10 + (c - 48)) ds v).
Proof.
  revert v. induction ds as [|c ds IH]; intros v; [done |]. cbn [fold_left]. rewrite <- IH. f_equal.
  unfold wrap. rewrite Z.add_mod, Z.mul_mod, Z.mod_mod by lia.
  by rewrite <- Z.mul_mod, <- Z.add_mod by lia.
Qed.

Lemma opt_suffix_none fuel r pre rest : at_ r pre (32 :: rest) -> opt_suffix fuel r = Ok (NO_SUFFIX, r).
Proof. intros Hat. unfold opt_suffix. by rewrite (st_bind_run _ _ _ _ _ (peek_run _ _ _ _ Hat)). Qed.

(** After the digits of a decimal integer, [classify_numeric_literal] says so. *)
Lemma classify_tail r pre rest : at_ r pre (32 :: rest) ->
  (dot ← expect_char 46;
    if dot : bool then mret (TOK_FLOAT_LITERAL, 10)
    else
      e ← (if 10 =? 10 then e ← expect_char 101; if e : bool then mret true else expect_char 69
           else mret false);
      if e : bool then mret (TOK_FLOAT_LITERAL, 10)
      else
        p ← (if 10 =? 16 then p ← expect_char 112; if p : bool then mret true else expect_char 80
             else mret false);
        if p : bool then mret (TOK_FLOAT_LITERAL, 10) else mret (TOK_INT_LITERAL, 10)) r
  = Ok ((TOK_INT_LITERAL, 10), r).
Proof.
  intros Hat. assert (H : forall c, c ∈ [46; 101; 69] -> expect_char c r = Ok (false, r)).
  { intros c Hc. apply (expect_char_no r pre c 32 rest Hat); set_unfold; lia. }
  rewrite (st_bind_run _ _ _ _ _ (H 46 ltac:(set_solver))). cbn [Z.eqb Pos.eqb].
  assert (E : (e ← expect_char 101; if e : bool then mret true else expect_char 69) r = Ok (false, r)).
  { rewrite (st_bind_run _ _ _ _ _ (H 101 ltac:(set_solver))). apply H. set_solver. }
  by rewrite (st_bind_run _ _ _ _ _ E).
Qed.

Lemma classify_int fuel c ds r pre rest : at_ r pre (c :: ds ++ 32 :: rest) ->
  word_wf (WInt c ds) -> (S (length ds) < fuel)%nat ->
  exists r', classify_numeric_literal fuel r = Ok ((TOK_INT_LITERAL, 10), r') /\ same_text r r'.
Proof.
  intros Hat (Hc & Hds & H0) Hf. unfold classify_numeric_literal.
  destruct (decide (c = 48)) as [->|Hne].
  - rewrite H0 in * by done. cbn [app] in Hat.
    destruct (expect_char_yes _ _ _ _ Hat ltac:(lia) ltac:(by apply no_splice_cons)) as (r1 & E1 & Hat1 & Hst1).
    rewrite (st_bind_run _ _ _ _ _ E1).
    assert (E2 : (r ← get; if at_end r then mret 10 else
      x ← expect_char 120; if x : bool then mret 16 else c ← peek; mret (if isdigit c then 8 else 10)) r1
      = Ok (10, r1)).
    { unfold mbind at 1, st_bind at 1, get. rewrite (at_end_cons _ _ _ _ Hat1).
      rewrite (st_bind_run _ _ _ _ _ (expect_char_no r1 _ 120 32 _ Hat1 ltac:(lia) ltac:(lia))).
      by rewrite (st_bind_run _ _ _ _ _ (peek_run _ _ _ _ Hat1)). }
    rewrite (st_bind_run _ _ _ _ _ E2).
    destruct (skip_digits_run fuel [] r1 _ rest Hat1 ltac:(by apply Forall_nil) ltac:(cbn; lia))
      as (r2 & E3 & Hat2 & Hst2).
    rewrite (st_bind_run _ _ _ _ _ E3). exists r2. split; [| by transitivity r1].
    exact (classify_tail _ _ _ Hat2).
  - destruct (digit_char c Hc) as (_ & _ & Hb).
    rewrite (st_bind_run _ _ _ _ _ (expect_char_no r _ 48 c _ Hat ltac:(lia) Hne)).
    rewrite (st_bind_run (mret 10) _ r 10 r) by done.
    destruct (skip_digits_run fuel (c :: ds) r pre rest Hat ltac:(by apply Forall_cons) ltac:(cbn; lia))
      as (r1 & E3 & Hat1 & Hst1).
    rewrite (st_bind_run _ _ _ _ _ E3). exists r1. split; [| done]. exact (classify_tail _ _ _ Hat1).
Qed.

Lemma read_int_run fuel c ds r pre rest : at_ r pre (c :: ds ++ 32 :: rest) ->
  word_wf (WInt c ds) -> (S (length ds) < fuel)%nat ->
  exists r', read_numeric_literal fuel r = Ok (word_token (WInt c ds), r') /\
    at_ r' (pre ++ c :: ds) (32 :: rest) /\ same_text r r'.
Proof.
  intros Hat Hwf Hf. destruct (classify_int fuel c ds r pre rest Hat Hwf Hf) as (r1 & E1 & Hst1).
  unfold read_numeric_literal. rewrite (st_bind_run get _ r r r) by done. rewrite (st_bind_run _ _ _ _ _ E1).
  set (r2 := set_position (set_adjusted r1 (adjusted_position r) (next_adjustment r1)) (position r)).
  rewrite (st_bind_run (modify _) _ r1 tt r2) by done. cbn [Z.eqb Pos.eqb].
  rewrite (st_bind_run (mret tt) _ r2 tt r2) by done. cbn [decide].
  assert (Hat2 : at_ r2 pre ((c :: ds) ++ 32 :: rest)).
  { destruct Hst1 as [Eb _]. destruct Hat. constructor; cbn; rewrite ?Eb; done. }
  destruct Hwf as (Hc & Hds & _).
  destruct (int_loop_run fuel (c :: ds) r2 pre rest 0 Hat2 ltac:(by apply Forall_cons) ltac:(cbn; lia))
    as (r3 & E3 & Hat3 & Hst3).
  exists r3. split; [| split; [done | by transitivity r2]]. unfold read_int_literal.
  change (if decide (TOK_INT_LITERAL = TOK_INT_LITERAL) then ?a else _) with a.
  rewrite (st_bind_run _ _ _ _ _ E3), (st_bind_run _ _ _ _ _ (opt_suffix_none fuel _ _ _ Hat3)).
  change 0 with (u64 0). by rewrite fold_digits_wrap.
Qed.

Lemma plain_char_facts c : plain_char c = true -> is_u 8 c /\ c <> 34 /\ c <> 92.
Proof. unfold plain_char. intros H. bsplit. unfold is_u. lia. Qed.

Lemma u8_i8 c : is_u 8 c -> u8 (i8 c) = c.
Proof. intros H. rewrite wrap_sgn by lia. by apply wrap_small. Qed.

Lemma string_loop_run fuel s r pre rest start_loc chars : at_ r pre (s ++ 34 :: rest) ->
  Forall (fun c => plain_char c = true) s -> (length s < fuel)%nat ->
  exists r', loop_st fuel (string_body fuel start_loc) chars r = Ok (Some (chars ++ s), r') /\
    at_ r' (pre ++ s) (34 :: rest) /\ same_text r r'.
Proof.
  intros Hat Hs Hf.
  destruct (scan_loop (string_body fuel start_loc) (fun l c => l ++ [c]) (fun l => Some l)
    (fun c => plain_char c = true) (34 :: rest)) with (s := s) (r := r) (pre := pre) (a := chars) (fuel := fuel)
    as (r' & E & H); [| | | by apply no_splice_cons | done | done | done |].
  - clear. intros r pre c suf l Hat Hc Hns. destruct (plain_char_facts c Hc) as (Hb & H34 & H92).
    destruct (read_char_plain _ _ _ _ Hat Hns) as (r' & E & H). exists r'. split; [| done].
    unfold string_body. rewrite (st_bind_run _ _ _ _ _ (peek_run _ _ _ _ Hat)).
    rewrite i8_eqb_ascii by (done || lia). destruct (Z.eqb_spec c 34); [done |].
    assert (Er : read_char_in_literal fuel start_loc r = Ok (c, r')).
    { unfold read_char_in_literal. rewrite (st_bind_run _ _ _ _ _ E).
      rewrite i8_eqb_ascii by (done || lia). destruct (Z.eqb_spec c 92); [done |].
      rewrite (st_bind_run (mret _) _ r' (Some c) r') by (by rewrite u8_i8).
      unfold is_u in Hb. destruct (Z.ltb_spec 255 c); [lia | done]. }
    rewrite (st_bind_run _ _ _ _ _ Er). unfold is_u in Hb.
    destruct (Z.eqb_spec c (-1)); [lia |]. by rewrite wrap_small by lia.
  - clear. intros r pre l Hat. unfold string_body. by rewrite (st_bind_run _ _ _ _ _ (peek_run _ _ _ _ Hat)).
  - intros c Hc. apply (plain_char_facts c Hc).
  - exists r'. split; [| done]. rewrite E. do 3 f_equal.
    clear. revert chars. induction s as [|c s IH]; intros l; cbn; [by rewrite app_nil_r |].
    by rewrite IH, <- app_assoc.
Qed.

Lemma on_reader_run {A} (m : st Reader A) l x r' : m (reader l) = Ok (x, r') ->
  on_reader m l = Ok (x, mkLexer r' (tokens l)).
Proof. intros E. unfold on_reader, zoom. by rewrite E. Qed.

(** What a turn of the lexer does for a word. *)
Definition lexes (l l' : Lexer) (pre suf : list Z) (tok : Token) : Prop :=
  at_ (reader l') pre suf /\ same_text (reader l) (reader l') /\
  map token (tokens l') = map token (tokens l) ++ [tok].

Lemma add_tok_run start_loc tok l r' :
  same_text (reader l) r' -> forall pre suf, at_ r' pre suf ->
  exists l', add_tok start_loc tok (mkLexer r' (tokens l)) = Ok (tt, l') /\ lexes l l' pre suf tok.
Proof.
  intros Hst pre suf Hat. eexists. split; [done |]. split; [done |]. split; [done |]. cbn.
  by rewrite map_app.
Qed.

Lemma lex_body_start fuel l pre c suf r1 : at_ (reader l) pre (c :: suf) ->
  read_char (reader l) = Ok (i8 c, r1) ->
  lex_body fuel tt l = (fun c => 
    let start_loc := reader_source_loc (reader l) in
    if (48 <=? c) && (c <=? 57) then
      on_reader (modify back_up);;
      tok ← on_reader (read_numeric_literal fuel);
      add_tok start_loc tok;;
      mret (inl tt)
    else if c =? 34 then
      b ← lex_string fuel start_loc; mret (if b : bool then inl tt else inr false)
    else if c =? 39 then
      b ← lex_char fuel start_loc; mret (if b : bool then inl tt else inr false)
    else if c =? 46 then lex_dot fuel start_loc;; mret (inl tt)
    else if (c =? 32) || (c =? 10) then mret (inl tt)
    else
      match operator c with
      | Some op => ty ← op; add_tok start_loc (mkToken ty U_none);; mret (inl tt)
      | None => lex_symbol start_loc;; mret (inl tt)
      end) (i8 c) (mkLexer r1 (tokens l)).
Proof.
  intros Hat E. unfold lex_body. rewrite (st_bind_run get _ l l l) by done.
  rewrite (at_end_cons _ _ _ _ Hat).
  by rewrite (st_bind_run _ _ _ _ _ (on_reader_run _ _ _ _ E)).
Qed.

Lemma lex_int fuel c ds l pre rest : at_ (reader l) pre (word_text (WInt c ds) ++ 32 :: rest) ->
  word_wf (WInt c ds) -> (S (length ds) < fuel)%nat ->
  exists l', lex_body fuel tt l = Ok (inl tt, l') /\
    lexes l l' (pre ++ word_text (WInt c ds)) (32 :: rest) (word_token (WInt c ds)).
Proof.
  intros Hat Hwf Hf. cbn [word_text app] in *. pose proof Hwf as (Hc & Hds & _).
  assert (Hns : no_splice (ds ++ 32 :: rest)).
  { destruct Hds as [|d ds Hd]; [by apply no_splice_cons |]. apply no_splice_cons. by apply digit_not_bs. }
  destruct (read_char_plain _ _ _ _ Hat Hns) as (r1 & E1 & Hat1 & Hst1).
  rewrite (lex_body_start fuel l _ _ _ _ Hat E1). destruct (digit_char c Hc) as (-> & _ & Hb). cbv beta zeta.
  replace ((48 <=? c) && (c <=? 57)) with true by (by zcases).
  set (l1 := mkLexer r1 (tokens l)).
  rewrite (st_bind_run (on_reader (modify back_up)) _ l1 tt (mkLexer (back_up r1) (tokens l))) by done.
  pose proof (back_up_at _ _ _ _ Hat1) as Hat2.
  destruct (read_int_run fuel c ds _ pre rest Hat2 Hwf Hf) as (r3 & E3 & Hat3 & Hst3).
  rewrite (st_bind_run _ _ _ _ _ (on_reader_run _ (mkLexer (back_up r1) (tokens l)) _ _ E3)).
  destruct (add_tok_run (reader_source_loc (reader l)) (word_token (WInt c ds)) l r3) with (pre := pre ++ c :: ds) (suf := 32 :: rest)
    as (l' & E4 & Hl); [| done |].
  { transitivity r1; [done |]. transitivity (back_up r1); [apply back_up_same | done]. }
  exists l'. split; [| done]. by rewrite (st_bind_run _ _ _ _ _ E4).
Qed.

Lemma lex_ident fuel c s l pre rest : at_ (reader l) pre (word_text (WIdent c s) ++ 32 :: rest) ->
  word_wf (WIdent c s) ->
  exists l', lex_body fuel tt l = Ok (inl tt, l') /\
    lexes l l' (pre ++ word_text (WIdent c s)) (32 :: rest) (word_token (WIdent c s)).
Proof.
  intros Hat (Hc & Hs & Hline & Hfile). cbn [word_text app] in *.
  assert (Hns : no_splice (s ++ 32 :: rest)).
  { destruct Hs as [|d s Hd]; [by apply no_splice_cons |]. apply no_splice_cons. by apply ident_char_not_bs. }
  destruct (read_char_plain _ _ _ _ Hat Hns) as (r1 & E1 & Hat1 & Hst1).
  rewrite (lex_body_start fuel l _ _ _ _ Hat E1).
  assert (Hrange : 65 <= c <= 122 /\ c <> 94 /\ c <> 91 /\ c <> 93).
  { unfold initial_ident_char in Hc. destruct (Z.eqb_spec c 95); [lia |]. rewrite orb_false_r in Hc.
    apply orb_true_iff in Hc as [Hc|Hc]; bsplit; lia. }
  rewrite i8_ascii by lia. cbv beta zeta.
  assert (Hop : operator c = None) by (unfold operator; zcases; done).
  rewrite Hop. replace ((48 <=? c) && (c <=? 57)) with false by (by zcases).
  replace (c =? 34) with false by zcases. replace (c =? 39) with false by zcases.
  replace (c =? 46) with false by zcases. replace (c =? 32) with false by zcases.
  replace (c =? 10) with false by zcases. cbn [orb].
  pose proof (back_up_at _ _ _ _ Hat1) as Hat2. set (l1 := mkLexer r1 (tokens l)).
  destruct (read_symbol_at _ pre c s (32 :: rest) Hat2 Hc Hs) as (r3 & E3 & Hat3 & Hst3);
    [done | by apply no_splice_cons |].
  destruct (add_tok_run (reader_source_loc (reader l)) (word_token (WIdent c s)) l r3) with (pre := pre ++ c :: s) (suf := 32 :: rest)
    as (l' & E4 & Hl); [| done |].
  { transitivity r1; [done |]. transitivity (back_up r1); [apply back_up_same | done]. }
  exists l'. split; [| done].
  assert (E : lex_symbol (reader_source_loc (reader l)) l1 = Ok (tt, l')).
  { unfold lex_symbol.
    rewrite (st_bind_run (on_reader (modify back_up)) _ l1 tt (mkLexer (back_up r1) (tokens l))) by done.
    rewrite (st_bind_run _ _ _ _ _ (on_reader_run _ (mkLexer (back_up r1) (tokens l)) _ _ E3)).
    rewrite (st_bind_run get _ _ _ _ eq_refl). rewrite !bool_decide_eq_false_2 by done. exact E4. }
  by rewrite (st_bind_run _ _ _ _ _ E).
Qed.

Lemma lex_str fuel s l pre rest : at_ (reader l) pre (word_text (WStr s) ++ 32 :: rest) ->
  word_wf (WStr s) -> (S (length s) < fuel)%nat ->
  exists l', lex_body fuel tt l = Ok (inl tt, l') /\
    lexes l l' (pre ++ word_text (WStr s)) (32 :: rest) (word_token (WStr s)).
Proof.
  intros Hat Hs Hf. cbn [word_text word_wf app] in *. rewrite <- app_assoc in Hat. cbn [app] in Hat.
  assert (Hns : no_splice (s ++ 34 :: 32 :: rest)).
  { destruct Hs as [|d s Hd]; [by apply no_splice_cons |]. apply no_splice_cons. by apply plain_char_facts. }
  destruct (read_char_plain _ _ _ _ Hat Hns) as (r1 & E1 & Hat1 & Hst1).
  rewrite (lex_body_start fuel l _ _ _ _ Hat E1). change (i8 34) with 34. cbv beta zeta.
  change ((48 <=? 34) && (34 <=? 57)) with false. change (34 =? 34) with true. cbv iota.
  set (loc := reader_source_loc (reader l)).
  destruct (string_loop_run fuel s r1 _ _ loc [] Hat1 Hs ltac:(lia)) as (r2 & E2 & Hat2 & Hst2).
  destruct (read_char_plain _ _ _ _ Hat2 ltac:(by apply no_splice_cons)) as (r3 & E3 & Hat3 & Hst3).
  destruct (add_tok_run loc (word_token (WStr s)) l r3) with (pre := pre ++ 34 :: s ++ [34]) (suf := 32 :: rest)
    as (l' & E4 & Hl).
  { transitivity r1; [done |]. by transitivity r2. }
  { rewrite <- !app_assoc in Hat3. exact Hat3. }
  exists l'. split; [| done].
  assert (E : lex_string fuel loc (mkLexer r1 (tokens l)) = Ok (true, l')).
  { unfold lex_string.
    rewrite (st_bind_run _ _ _ _ _ (on_reader_run _ (mkLexer r1 (tokens l)) _ _ E2)).
    rewrite (st_bind_run _ _ _ _ _ (on_reader_run _ (mkLexer r2 (tokens l)) _ _ E3)).
    by rewrite (st_bind_run _ _ _ _ _ E4). }
  by rewrite (st_bind_run _ _ _ _ _ E).
Qed.

(** First characters of operators are none of the characters handled before. *)
Lemma op_first ty c s : op_text ty = Some (c :: s) ->
  ((48 <=? c) && (c <=? 57)) = false /\ (c =? 34) = false /\ (c =? 39) = false /\ (c =? 46) = false /\
  ((c =? 32) || (c =? 10)) = false /\ (s = [] \/ exists d s', s = d :: s' /\ d <> 92).
Proof.
  intros E. destruct ty; cbn in E; try done; injection E as <- <-; cbn; repeat split;
    try (by left); right; by eexists _, _.
Qed.

Lemma lex_op fuel ty l pre rest : at_ (reader l) pre (word_text (WOp ty) ++ 32 :: rest) ->
  word_wf (WOp ty) -> no_splice rest ->
  exists l', lex_body fuel tt l = Ok (inl tt, l') /\
    lexes l l' (pre ++ word_text (WOp ty)) (32 :: rest) (word_token (WOp ty)).
Proof.
  intros Hat [txt Etxt] Hrest. cbn [word_text] in *. rewrite Etxt in *. cbn [default] in *.
  destruct txt as [|c s]; [by destruct ty |].
  destruct (op_first ty c s Etxt) as (F1 & F2 & F3 & F4 & F5 & Fs). cbn [app from_option id] in Hat.
  assert (Hns : no_splice (s ++ 32 :: rest)).
  { destruct Fs as [->|(d & s' & -> & Hd)]; by apply no_splice_cons. }
  destruct (read_char_plain _ _ _ _ Hat Hns) as (r1 & E1 & Hat1 & Hst1).
  destruct (operator_text ty c s (mkLexer r1 (tokens l)) (pre ++ [c]) rest Etxt Hat1 Hrest)
    as (Hc & op & Eop & r2 & E2 & Hat2 & Hst2).
  rewrite (lex_body_start fuel l _ _ _ _ Hat E1), i8_ascii by lia. cbv beta zeta. rewrite F1, F2, F3, F4, F5, Eop.
  rewrite (st_bind_run _ _ _ _ _ E2). cbn [tokens].
  destruct (add_tok_run (reader_source_loc (reader l)) (mkToken ty U_none) l r2) with (pre := pre ++ c :: s) (suf := 32 :: rest)
    as (l' & E4 & Hl); [by transitivity r1 | by rewrite <- app_assoc in Hat2 |].
  exists l'. split; [| done]. by rewrite (st_bind_run _ _ _ _ _ E4).
Qed.

Lemma lex_dots fuel w l pre rest : w = WDot \/ w = WEllipsis ->
  at_ (reader l) pre (word_text w ++ 32 :: rest) ->
  exists l', lex_body fuel tt l = Ok (inl tt, l') /\
    lexes l l' (pre ++ word_text w) (32 :: rest) (word_token w).
Proof.
  intros Hw Hat. set (loc := reader_source_loc (reader l)).
  assert (Hgo : exists l', (exists r1, read_char (reader l) = Ok (i8 46, r1) /\
      lex_dot fuel loc (mkLexer r1 (tokens l)) = Ok (tt, l')) /\
      lexes l l' (pre ++ word_text w) (32 :: rest) (word_token w)).
  { destruct Hw as [->| ->]; cbn [word_text app] in *.
    - destruct (read_char_plain _ _ _ _ Hat ltac:(by apply no_splice_cons)) as (r1 & E1 & Hat1 & Hst1).
      destruct (add_tok_run loc (word_token WDot) l r1 Hst1 _ _ Hat1) as (l' & E4 & Hl).
      exists l'. split; [| done]. exists r1. split; [done |]. unfold lex_dot.
      rewrite (st_bind_run _ _ _ _ _ (expect_no (mkLexer r1 (tokens l)) (pre ++ [46]) 46 32 rest Hat1 ltac:(lia) ltac:(lia))).
      rewrite (st_bind_run _ _ _ _ _ (on_reader_run peek (mkLexer r1 (tokens l)) _ _ (peek_run _ _ _ _ Hat1))).
      exact E4.
    - destruct (read_char_plain _ _ _ _ Hat ltac:(by apply no_splice_cons)) as (r1 & E1 & Hat1 & Hst1).
      destruct (expect_yes (mkLexer r1 (tokens l)) (pre ++ [46]) 46 (46 :: 32 :: rest) Hat1 ltac:(lia) ltac:(by apply no_splice_cons))
        as (r2 & E2 & Hat2 & Hst2).
      destruct (expect_yes (mkLexer r2 (tokens l)) ((pre ++ [46]) ++ [46]) 46 (32 :: rest) Hat2 ltac:(lia) ltac:(by apply no_splice_cons))
        as (r3 & E3 & Hat3 & Hst3).
      destruct (add_tok_run loc (word_token WEllipsis) l r3) with (pre := pre ++ [46; 46; 46]) (suf := 32 :: rest)
        as (l' & E4 & Hl); [transitivity r1; [done |]; by transitivity r2 | by rewrite <- !app_assoc in Hat3 |].
      exists l'. split; [| done]. exists r1. split; [done |]. unfold lex_dot.
      rewrite (st_bind_run _ _ _ _ _ E2), (st_bind_run _ _ _ _ _ E3). exact E4. }
  destruct Hgo as (l' & (r1 & E1 & E) & Hl). exists l'. split; [| done].
  assert (Hat' : exists suf, at_ (reader l) pre (46 :: suf)) by (destruct Hw as [->| ->]; eexists; exact Hat).
  destruct Hat' as [suf Hat']. rewrite (lex_body_start fuel l _ _ _ _ Hat' E1). change (i8 46) with 46. cbv beta zeta.
  change ((48 <=? 46) && (46 <=? 57)) with false. change (46 =? 34) with false. change (46 =? 39) with false.
  change (46 =? 46) with true. cbv iota. by rewrite (st_bind_run _ _ _ _ _ E).
Qed.

(** A word, then the space after it. *)
Lemma lex_word fuel w l pre rest : at_ (reader l) pre (word_text w ++ 32 :: rest) -> word_wf w ->
  no_splice rest -> (S (length (word_text w)) < fuel)%nat ->
  exists l', lex_body fuel tt l = Ok (inl tt, l') /\
    lexes l l' (pre ++ word_text w) (32 :: rest) (word_token w).
Proof.
  intros Hat Hwf Hns Hf. destruct w as [ty| | |c s|c ds|s].
  - by apply lex_op.
  - apply lex_dots; [by left | done].
  - apply lex_dots; [by right | done].
  - by apply lex_ident.
  - apply lex_int; [done | done |]. cbn in Hf. lia.
  - apply lex_str; [done | done |]. cbn in Hf. rewrite length_app in Hf. cbn in Hf. lia.
Qed.

Lemma lex_space fuel l pre rest : at_ (reader l) pre (32 :: rest) -> no_splice rest ->
  exists l', lex_body fuel tt l = Ok (inl tt, l') /\ at_ (reader l') (pre ++ [32]) rest /\
    same_text (reader l) (reader l') /\ tokens l' = tokens l.
Proof.
  intros Hat Hns. destruct (read_char_plain _ _ _ _ Hat Hns) as (r1 & E1 & Hat1 & Hst1).
  exists (mkLexer r1 (tokens l)). split; [| done]. by rewrite (lex_body_start fuel l _ _ _ _ Hat E1).
Qed.

Lemma word_text_head w : word_wf w -> exists c s, word_text w = c :: s /\ c <> 92.
Proof.
  destruct w as [ty| | |c s|c ds|s]; cbn; [| by eexists _, _.. | | | by eexists _, _].
  - intros [txt E]. rewrite E. cbn. destruct ty; cbn in E; try done; injection E as <-;
      (eexists _, _; split; [reflexivity | done]).
  - intros (H & _). exists c, s. split; [done |]. by intros ->.
  - intros (H & _). exists c, ds. split; [done |]. by intros ->.
Qed.

Lemma print_no_splice ws : Forall word_wf ws -> no_splice (print ws).
Proof.
  destruct 1 as [|w ws Hw Hws]; [done |]. destruct (word_text_head w Hw) as (c & s & E & Hc).
  unfold print. cbn. rewrite E. by apply no_splice_cons.
Qed.

Lemma print_cons w ws : print (w :: ws) = word_text w ++ 32 :: print ws.
Proof. unfold print. cbn. by rewrite <- app_assoc. Qed.

(** All the words of a printed text. *)
Lemma lex_words fuel ws : forall l pre n, at_ (reader l) pre (print ws) -> Forall word_wf ws ->
  (S (length (print ws)) < fuel)%nat -> (2 * length ws < n)%nat ->
  exists l', loop_st n (lex_body fuel) tt l = Ok (true, l') /\ same_text (reader l) (reader l') /\
    map token (tokens l') = map token (tokens l) ++ map word_token ws.
Proof.
  induction ws as [|w ws IH]; intros l pre n Hat Hwf Hf Hn.
  - exists l. split; [| split; [done | by rewrite app_nil_r]]. destruct n as [|n]; [cbn in Hn; lia |].
    apply loop_st_done. unfold lex_body. rewrite (st_bind_run get _ l l l) by done.
    by rewrite (at_end_nil _ _ Hat).
  - apply Forall_cons in Hwf as [Hw Hws]. destruct n as [|[|n]]; [cbn in Hn; lia.. |].
    rewrite print_cons in *. rewrite length_app in Hf. cbn in Hf, Hn.
    pose proof (print_no_splice ws Hws) as Hns.
    destruct (lex_word fuel w l pre (print ws) Hat Hw Hns ltac:(lia)) as (l1 & E1 & Hat1 & Hst1 & Ht1).
    destruct (lex_space fuel l1 _ (print ws) Hat1 Hns) as (l2 & E2 & Hat2 & Hst2 & Ht2).
    destruct (IH l2 _ n Hat2 Hws ltac:(lia) ltac:(lia)) as (l3 & E3 & Hst3 & Ht3).
    exists l3. split; [by rewrite (loop_st_next _ _ _ _ _ _ E1), (loop_st_next _ _ _ _ _ _ E2) |].
    split; [transitivity (reader l1); [done |]; by transitivity (reader l2) |].
    rewrite Ht3, Ht2, Ht1, <- app_assoc. done.
Qed.

(** ** Joining string literals *)

(** Every string literal owns its characters. *)
Definition owned (tok : SourceToken) : Prop :=
  tok_t (token tok) = TOK_STRING_LITERAL -> exists s, literal_chars (token tok) = Some s.

Lemma is_string_true tok : is_string tok = true -> tok_t (token tok) = TOK_STRING_LITERAL.
Proof. apply bool_decide_eq_true_1. Qed.

Lemma literal_chars_eq tok s : literal_chars tok = Some s ->
  tok = mkToken TOK_STRING_LITERAL (U_string_literal true (Some s)).
Proof. destruct tok as [[] [| | | |[] [x|]]]; cbn; by intros [= ->]. Qed.

Lemma owned_literal tok : owned tok -> is_string tok = true ->
  exists s, token tok = mkToken TOK_STRING_LITERAL (U_string_literal true (Some s)).
Proof. intros Ho Hs. destruct (Ho (is_string_true _ Hs)) as [s E]. exists s. by apply literal_chars_eq. Qed.

Lemma not_string_literal tok : is_string tok = false -> literal_chars (token tok) = None.
Proof.
  intros H. destruct (literal_chars (token tok)) eqn:E; [| done]. apply literal_chars_eq in E.
  unfold is_string in H. by rewrite E in H.
Qed.

(** A run of literals and what follows it. *)
Lemma split_run (l : list SourceToken) : Forall owned l ->
  exists run rest ss, l = run ++ rest /\
    Forall2 (fun tok s => is_string tok = true /\ token tok = mkToken TOK_STRING_LITERAL (U_string_literal true (Some s))) run ss /\
    match rest with tok :: _ => is_string tok = false | [] => True end.
Proof.
  induction 1 as [|tok l Ho Hl IH]; [exists [], [], []; by repeat split |].
  destruct (is_string tok) eqn:Es.
  - destruct IH as (run & rest & ss & -> & Hr & Hrest). destruct (owned_literal tok Ho Es) as [s E].
    exists (tok :: run), rest, (s :: ss). repeat split; [by constructor | done].
  - exists [], (tok :: l), []. by repeat split.
Qed.

Definition joined (s : list Z) : Token := mkToken TOK_STRING_LITERAL (U_string_literal true (Some s)).

Lemma merge_not_string tok l : literal_chars tok = None -> merge_strings (tok :: l) = tok :: merge_strings l.
Proof. intros E. cbn. by rewrite E. Qed.

Lemma merge_run run ss : Forall2 (fun tok s => is_string tok = true /\ token tok = joined s) run ss ->
  forall s rest, match rest with tok :: _ => is_string tok = false | [] => True end ->
  merge_strings (joined s :: map token (run ++ rest)) = joined (s ++ concat ss) :: merge_strings (map token rest).
Proof.
  induction 1 as [|tok s1 run ss [_ E] Hr IH]; intros s rest Hrest.
  - cbn [concat app map]. rewrite app_nil_r. destruct rest as [|tok rest]; [done |].
    cbn [map]. pose proof (not_string_literal tok Hrest) as En.
    rewrite (merge_not_string (token tok)) by done.
    change (merge_strings (joined s :: token tok :: map token rest))
      with (match merge_strings (token tok :: map token rest) with
        | b :: l' => match literal_chars b with
           | Some s' => joined (s ++ s') :: l' | None => joined s :: b :: l' end
        | [] => [joined s] end).
    by rewrite merge_not_string, En.
  - cbn [app map concat]. rewrite E.
    change (merge_strings (joined s :: joined s1 :: map token (run ++ rest)))
      with (match merge_strings (joined s1 :: map token (run ++ rest)) with
        | b :: l' => match literal_chars b with
           | Some s' => joined (s ++ s') :: l' | None => joined s :: b :: l' end
        | [] => [joined s] end).
    rewrite IH by done. cbn [joined literal_chars]. by rewrite app_assoc.
Qed.

Lemma ref_drop {A} (l : list A) i x rest : drop i l = x :: rest -> ref l (Z.of_nat i) = Ok x.
Proof.
  intros E. apply ref_Ok. split; [lia |]. rewrite Nat2Z.id, <- (Nat.add_0_r i), <- lookup_drop, E. done.
Qed.

Lemma drop_cons_length {A} (l : list A) i x rest : drop i l = x :: rest -> (i < length l)%nat.
Proof. intros E. apply (f_equal length) in E. rewrite length_drop in E. cbn in E. lia. Qed.

Lemma drop_nil_length {A} (l : list A) i : drop i l = [] -> (length l <= i)%nat.
Proof. intros E. apply (f_equal length) in E. rewrite length_drop in E. cbn in E. lia. Qed.

Lemma drop_S_cons {A} (l : list A) i x rest : drop i l = x :: rest -> drop (S i) l = rest.
Proof. intros E. rewrite <- Nat.add_1_r, <- drop_drop, E. done. Qed.

(** The inner loop takes the whole run. *)
Lemma join_run toks run ss : Forall2 (fun tok s => is_string tok = true /\ token tok = joined s) run ss ->
  Z.of_nat (length toks) < 2 ^ 31 ->
  forall j rest l fuel, drop j toks = run ++ rest -> (j <= length toks)%nat ->
  match rest with tok :: _ => is_string tok = false | [] => True end -> (length run < fuel)%nat ->
  loop fuel (join_body toks) (Z.of_nat j, (true, Some l))
  = Ok (Z.of_nat (j + length run), (true, Some (l ++ concat ss))).
Proof.
  intros Hr Hlen. induction Hr as [|tok s run ss [Es E] Hr IH]; intros j rest l [|fuel] Hd Hj Hrest Hf; cbn in Hf; try lia.
  - cbn [app concat length] in *. rewrite app_nil_r, Nat.add_0_r. cbn [loop]. unfold join_body.
    destruct rest as [|tok rest].
    + apply drop_nil_length in Hd. by zcases.
    + pose proof (drop_cons_length _ _ _ _ Hd). rewrite (ref_drop _ _ _ _ Hd). cbn [mbind res_bind]. rewrite Hrest.
      zcases. done.
  - cbn [app concat length] in *. pose proof (drop_cons_length _ _ _ _ Hd).
    rewrite <- Nat.add_succ_comm, app_assoc, <- (IH (S j) rest (l ++ s) fuel); [| by eapply drop_S_cons | lia | done | lia].
    cbn [loop]. unfold join_body at 1. rewrite (ref_drop _ _ _ _ Hd). cbn [mbind res_bind].
    rewrite Es. unfold string_literal. rewrite E. cbn. rewrite wrap_small by lia.
    replace (Z.of_nat j + 1) with (Z.of_nat (S j)) by lia. zcases. done.
Qed.

Lemma take_S_insert {A} (l : list A) i x : (i < length l)%nat -> take (S i) (<[i := x]> l) = take i l ++ [x].
Proof.
  intros H. rewrite (take_S_r _ _ x) by (by apply list_lookup_insert_eq). by rewrite take_insert_ge by lia.
Qed.

Lemma concat_strings_merge toks : Forall owned toks -> Z.of_nat (length toks) < 2 ^ 31 ->
  exists out, concat_strings toks = Ok out /\ map token out = merge_strings (map token toks).
Proof.
  intros Ho Hlen.
  destruct (loop_total (fun '(ts, dest, i) => exists d n, dest = Z.of_nat d /\ i = Z.of_nat n /\ (d <= n <= length toks)%nat /\
      length ts = length toks /\ drop n ts = drop n toks /\
      map token (take d ts) ++ merge_strings (map token (drop n toks)) = merge_strings (map token toks))
    (fun '(_, _, i) => (length toks - Z.to_nat i)%nat)
    (fun out => map token out = merge_strings (map token toks)) concat_body) with (fuel := S (length toks)) (s := (toks, 0, 0))
    as (out & E & H); [| by exists 0%nat, 0%nat; repeat split; try lia | lia | by exists out].
  intros [[ts dest] i] (d & n & -> & -> & Hd & Hts & Hdrop & Hm). unfold concat_body.
  rewrite !Nat2Z.id, Hts. destruct (Z.leb_spec (Z.of_nat (length toks)) (Z.of_nat n)) as [Hend|Hin].
  { eexists. split; [done |]. rewrite (drop_ge toks) in Hm by lia. cbn in Hm. by rewrite app_nil_r in Hm. }
  destruct (drop n toks) as [|tok rest] eqn:En; [apply drop_nil_length in En; lia |].
  rewrite (ref_drop _ _ _ _ Hdrop). cbn [mbind res_bind].
  assert (Hown : Forall owned (tok :: rest)) by (rewrite <- En; by apply Forall_drop).
  apply Forall_cons in Hown as [Htok Hrest].
  assert (Hstore : forall ts' tok' j n', ts' = <[n := tok']> ts \/ (ts' = ts /\ tok' = tok) -> j = Z.of_nat n' ->
    (n < n' <= length toks)%nat -> merge_strings (map token (tok :: rest)) = token tok' :: merge_strings (map token (drop n' toks)) ->
    exists r, (toks0 ← (if negb (Z.of_nat n =? Z.of_nat d) then store ts' (Z.of_nat d) tok' else Ok ts');
      Ok (inl (toks0, u32 (Z.of_nat d + 1), j)) : res (list SourceToken * Z * Z + list SourceToken)) = Ok r /\
    match r with
    | inl s' => (let '(ts, dest, i) := s' in exists d n, dest = Z.of_nat d /\ i = Z.of_nat n /\ (d <= n <= length toks)%nat /\
      length ts = length toks /\ drop n ts = drop n toks /\
      map token (take d ts) ++ merge_strings (map token (drop n toks)) = merge_strings (map token toks)) /\
      ((let '(_, _, i) := s' in length toks - Z.to_nat i) < length toks - n)%nat
    | inr out => map token out = merge_strings (map token toks) end).
  { intros ts' tok' j n' Hts' -> Hn' Hmerge.
    assert (Hl' : length ts' = length toks) by (destruct Hts' as [->|[-> _]]; by rewrite ?length_insert).
    set (ts2 := if negb (Z.of_nat n =? Z.of_nat d) then <[d := tok']> ts' else ts').
    assert (E2 : (if negb (Z.of_nat n =? Z.of_nat d) then store ts' (Z.of_nat d) tok' else Ok ts') = Ok ts2).
    { unfold ts2. destruct (negb _); [| done]. rewrite store_Ok, Nat2Z.id by lia. done. }
    rewrite E2. cbn [mbind res_bind]. eexists. split; [done |]. split; [| lia].
    exists (S d), n'. rewrite wrap_small by lia. split; [lia |]. split; [done |]. split; [lia |].
    assert (Hd2 : length ts2 = length toks /\ drop n' ts2 = drop n' toks /\ take (S d) ts2 = take d ts ++ [tok']).
    { assert (Hdr : drop n' ts' = drop n' toks).
      { transitivity (drop n' ts); [destruct Hts' as [->|[-> _]]; [by rewrite drop_insert_lt by lia | done] |].
        replace n' with (n + (n' - n))%nat by lia. by rewrite <- !drop_drop, Hdrop, <- En. }
      assert (Htk : take d ts' = take d ts) by (destruct Hts' as [->|[-> _]]; [by rewrite take_insert_ge by lia | done]).
      unfold ts2. destruct (Z.eqb_spec (Z.of_nat n) (Z.of_nat d)) as [Hnd|Hnd]; cbn [negb].
      - split; [done |]. split; [done |]. assert (n = d) as -> by lia. rewrite (take_S_r _ _ tok'); [by rewrite Htk |].
        destruct Hts' as [->|[-> ->]]; [apply list_lookup_insert_eq; lia |].
        by rewrite <- (Nat.add_0_r d), <- lookup_drop, Hdrop.
      - rewrite length_insert. split; [done |]. split; [by rewrite drop_insert_lt by lia |].
        rewrite take_S_insert by lia. by rewrite Htk. }
    destruct Hd2 as (-> & -> & ->). split; [done |]. split; [done |].
    rewrite map_app, <- app_assoc. cbn [map app]. by rewrite <- Hmerge. }
  destruct (is_string tok) eqn:Es.
  - destruct (owned_literal tok Htok Es) as [s Et]. destruct (split_run rest Hrest) as (run & rest' & ss & -> & Hr & Hnext).
    unfold string_literal. rewrite Et. cbn [tok_u mbind res_bind].
    rewrite (wrap_small 32 (Z.of_nat n + 1)) by lia. replace (Z.of_nat n + 1) with (Z.of_nat (S n)) by lia.
    pose proof (drop_S_cons _ _ _ _ Hdrop) as HdS. pose proof (drop_S_cons _ _ _ _ En) as HnS.
    pose proof (f_equal length En) as Hlr. rewrite length_drop in Hlr. cbn in Hlr. rewrite length_app in Hlr.
    rewrite (join_run ts run ss Hr ltac:(lia) (S n) rest' s (S (length toks)) HdS ltac:(lia) Hnext ltac:(lia)). cbn [mbind res_bind fst snd].
    rewrite store_Ok, Nat2Z.id by lia. cbn [mbind res_bind].
    apply (Hstore _ _ _ (S n + length run)%nat); [by left | done | lia |]. cbn [token].
    rewrite <- drop_drop, HnS, drop_app_length. cbn [map]. rewrite Et. by apply merge_run.
  - cbn [mbind res_bind]. rewrite (wrap_small 32 (Z.of_nat n + 1)) by lia. pose proof (drop_S_cons _ _ _ _ En) as HnS.
    apply (Hstore _ _ _ (S n)); [by right | lia | lia |]. rewrite HnS. cbn [map]. apply merge_not_string.
    by apply not_string_literal.
Qed.

(** ** Whole texts *)

Lemma ident_char_byte c : ident_char c = true -> is_u 8 c.
Proof.
  unfold ident_char, initial_ident_char, is_u. intros H.
  rewrite !orb_true_iff, !andb_true_iff, !Z.leb_le, Z.eqb_eq in H. lia.
Qed.

Lemma print_bytes ws : Forall word_wf ws -> Forall (is_u 8) (print ws).
Proof.
  induction 1 as [|w ws Hw _ IH]; [by apply Forall_nil |]. rewrite print_cons. apply Forall_app. split; [| by apply Forall_cons].
  destruct w as [ty| | |c s|c ds|s]; cbn in *.
  - destruct Hw as [txt E]. rewrite E. cbn. destruct ty; cbn in E; try done; injection E as <-;
      repeat constructor; done.
  - by repeat constructor.
  - by repeat constructor.
  - destruct Hw as (Hc & Hs & _). apply Forall_cons. split.
    + apply ident_char_byte. unfold ident_char. by rewrite Hc.
    + eapply Forall_impl; [exact Hs |]. intros x. apply ident_char_byte.
  - destruct Hw as (Hc & Hs & _). apply Forall_cons.
    assert (H : forall x, is_digit_char x = true -> is_u 8 x) by (intros x Hx; pose proof (digit_char x Hx); unfold is_u; lia).
    split; [by apply H |]. eapply Forall_impl; [exact Hs | exact H].
  - apply Forall_cons. split; [done |]. apply Forall_app. split; [| by repeat constructor].
    eapply Forall_impl; [exact Hw |]. intros x Hx. apply (plain_char_facts x Hx).
Qed.

Lemma print_length ws : Forall word_wf ws -> (2 * length ws <= length (print ws))%nat.
Proof.
  induction 1 as [|w ws Hw _ IH]; [done |]. destruct (word_text_head w Hw) as (c & s & E & _).
  rewrite print_cons, E, length_app. cbn in *. lia.
Qed.

Lemma word_token_owned toks ws : Forall word_wf ws -> map token toks = map word_token ws -> Forall owned toks.
Proof.
  intros Hws. revert toks. induction Hws as [|w ws Hw _ IH]; intros [|x toks] E; try done.
  injection E as E1 E2. apply Forall_cons. split; [| by apply IH].
  intros Ht. rewrite E1 in *. destruct w as [ty| | | | |s]; cbn in *; try done; [| by eexists].
  subst ty. by destruct Hw.
Qed.

Lemma lex_aux_print fuel ws first rest : Forall word_wf ws -> Z.of_nat (length (print ws)) < 2 ^ 31 ->
  (S (length (print ws)) < fuel)%nat -> location first = 0 -> adj_type first = NORMAL_ADJUSTMENT ->
  exists toks, lex fuel (print ws) (first :: rest) = Ok (true, toks, []) /\
    map token toks = merge_strings (map word_token ws).
Proof.
  intros Hws Hlen Hf Hloc Hty. unfold lex. rewrite Hloc, Hty. cbn [ASSERT Z.eqb bool_decide decide_rel mbind res_bind].
  set (r := set_adjusted _ _ _).
  assert (Hat : at_ r [] (print ws)) by (constructor; cbn; [done | done | done | by apply print_bytes]).
  pose proof (print_length ws Hws).
  destruct (lex_words fuel ws (mkLexer r []) [] fuel Hat Hws ltac:(lia) ltac:(lia)) as (l & E & Hst & Ht).
  unfold lex_aux. change (ASSERT (bool_decide (NORMAL_ADJUSTMENT = NORMAL_ADJUSTMENT))) with (Ok tt).
  cbn [mbind res_bind]. rewrite E. cbn [mbind res_bind]. cbn in Ht.
  assert (Hl2 : Z.of_nat (length (tokens l)) < 2 ^ 31).
  { apply (f_equal length) in Ht. rewrite !length_map in Ht. lia. }
  destruct (concat_strings_merge (tokens l) (word_token_owned _ ws Hws Ht) Hl2) as (out & -> & Eout).
  exists out. cbn [mbind res_bind]. split; [| by rewrite Eout, Ht].
  destruct Hst as (_ & _ & _ & Es). cbn in Es. by rewrite Es.
Qed.

(** At the end of the text the cursor runs on and reads EOF. *)
Lemma read_char_end r : at_end r = true -> position r + 1 < 2 ^ 32 -> 0 <= position r ->
  exists r', read_char r = Ok (-1, r') /\ at_end r' = true /\ position r' = position r + 1.
Proof.
  intros He Hp H0. unfold read_char, peek, advance, mbind, st_bind, res_bind, advance_reader, peek_char.
  rewrite He. cbn [loop]. unfold advance_body. cbn [position set_at_start].
  rewrite wrap_small by lia.
  assert (He' : at_end (set_position (set_at_start r (EOF =? 10)) (position r + 1)) = true).
  { unfold at_end in *. cbn. bsplit. zcases. }
  rewrite He'. cbn [mbind res_bind]. eexists. split; [reflexivity |].
  set (r1 := set_position _ _). set (d := u32 _). destruct (adjust_same r1 d) as (Eb & Ep & _).
  split; [| by rewrite Ep]. unfold at_end in *. by rewrite Eb, Ep.
Qed.

Lemma string_loop_diverges f start_loc fuel : forall r chars, at_end r = true -> 0 <= position r ->
  position r + Z.of_nat fuel < 2 ^ 32 ->
  loop_st fuel (string_body f start_loc) chars r = Stop NoFuel.
Proof.
  induction fuel as [|fuel IH]; intros r chars He H0 Hp; [done |].
  destruct (read_char_end r He ltac:(lia) H0) as (r' & E & He' & Hp').
  assert (Er : read_char_in_literal f start_loc r = Ok (255, r')).
  { unfold read_char_in_literal. by rewrite (st_bind_run _ _ _ _ _ E). }
  rewrite (loop_st_next _ _ _ _ (chars ++ [255]) r'); [apply IH; [done | lia | lia] |].
  unfold string_body. rewrite (st_bind_run peek _ r (-1) r) by (unfold peek, peek_char; by rewrite He).
  cbv beta. change (-1 =? 34) with false. cbv iota. by rewrite (st_bind_run _ _ _ _ _ Er).
Qed.

(** ** Properties *)

(** C16: Lexing inverts printing: for any words (operators, punctuators,
    identifiers, decimal numbers without leading zeros, plain string literals)
    written with a space after each, [lex] succeeds without diagnostics and
    returns exactly their tokens, adjacent string literals joined and numbers
    taken modulo 2^64. Fuel above the text's length suffices. *)
Theorem lex_print_roundtrip fuel ws first rest (Hws : Forall word_wf ws)
    (Hlen : Z.of_nat (length (print ws)) < 2 ^ 31) (Hfuel : (S (length (print ws)) < fuel)%nat)
    (Hloc : location first = 0) (Hty : adj_type first = NORMAL_ADJUSTMENT) :
  exists toks, lex fuel (print ws) (first :: rest) = Ok (true, toks, []) /\
    map token toks = merge_strings (map word_token ws).
Proof. by apply lex_aux_print. Qed.

(** x <<= 12 "ab" "c" ; *)
Lemma lex_print_roundtrip_witness :
  exists toks, lex 100 (print [WIdent 120 []; WOp TOK_LEFT_SHIFT_ASSIGN; WInt 49 [50]; WStr [97; 98]; WStr [99]; WOp TOK_SEMICOLON])
      [mkAdjustment NORMAL_ADJUSTMENT 0 (mkLoc None 0)] = Ok (true, toks, []) /\
    map token toks = merge_strings (map word_token
      [WIdent 120 []; WOp TOK_LEFT_SHIFT_ASSIGN; WInt 49 [50]; WStr [97; 98]; WStr [99]; WOp TOK_SEMICOLON]).
Proof.
  apply lex_print_roundtrip; [| by vm_compute | by vm_compute; lia | done | done].
  assert (H1 : forall P (c : Z), P c -> Forall P [c]) by (intros P c H; by apply Forall_cons).
  apply Forall_cons. split; [split; [done |]; split; [by apply Forall_nil | done] |].
  apply Forall_cons. split; [by eexists |].
  apply Forall_cons. split; [split; [done |]; split; [by apply H1 | done] |].
  apply Forall_cons. split; [apply Forall_cons; split; [done | by apply H1] |].
  apply Forall_cons. split; [by apply H1 |].
  apply Forall_cons. split; [by eexists | by apply Forall_nil].
Defined.

(** Joining string literals works in place and in one pass: when every
    literal owns its characters, the result is the token list with each maximal
    run of literals replaced by one literal of the concatenated characters. *)
Theorem concat_strings_joins_runs toks (Ho : Forall owned toks) (Hlen : Z.of_nat (length toks) < 2 ^ 31) :
  exists out, concat_strings toks = Ok out /\ map token out = merge_strings (map token toks).
Proof. by apply concat_strings_merge. Qed.

Lemma concat_strings_joins_runs_witness :
  let r := mkRange (mkLoc None 0) (mkLoc None 0) in
  let toks := [mkSourceToken (joined [97]) r; mkSourceToken (joined [98]) r; mkSourceToken (mkToken TOK_PLUS U_none) r] in
  exists out, concat_strings toks = Ok out /\ map token out = merge_strings (map token toks).
Proof.
  intros r toks. apply concat_strings_joins_runs; [| done].
  repeat (apply Forall_cons; split); try by apply Forall_nil.
  - intros _. by exists [97].
  - intros _. by exists [98].
  - intros [=].
Defined.



(** A decimal float literal with a negative exponent is not correctly rounded:
    the lexer multiplies by the rounded constant 1e-1, so [0.3] becomes the double
    one unit in the last place above the closest one. *)
Theorem float_literal_one_ulp_off :
  match lex 20 (bytes_of "0.3") [mkAdjustment NORMAL_ADJUSTMENT 0 (mkLoc None 0)] with
  | Ok (true, [tok], []) =>
      tok_u (token tok) = U_float_literal (S754_finite false 5404319552844596 (-54)) NO_SUFFIX
  | _ => False
  end /\
  SFdiv 53 1024 (double_of_u64 3) (double_of_u64 10) = S754_finite false 5404319552844595 (-54).
Proof. by vm_compute. Qed.

(** A character that starts no token (a tab, a carriage return, #, $, @, `,
    DEL) ends the compiler with an internal error instead of a diagnostic. *)
Theorem stray_character_is_internal_error :
  Forall (fun c => lex 20 [c] [mkAdjustment NORMAL_ADJUSTMENT 0 (mkLoc None 0)] = ICE)
    [9; 13; 35; 36; 64; 96; 127].
Proof. repeat (apply Forall_cons; split; [vm_compute; reflexivity |]). by apply Forall_nil. Qed.
