(* ===== verification/Stream.v ===== *)
(** * Streams

    Files as the program sees them ([src/src/file.h], [src/src/file.c]): the bytes
    and a position. The stream of the standard library is a file in memory whose
    operations succeed as long as the position is not negative; writing beyond the
    end fills the gap with zeros. *)

From S2P Require Import Prelude Lex.

Local Open Scope Z_scope.

Record FILE := mkFile { file_bytes : list Z; file_pos : Z }.
Definition empty_file : FILE := mkFile [] 0.

(** [d] over the bytes from [p] on. *)
Definition overwrite (l : list Z) (p : nat) (d : list Z) : list Z :=
  take p (l ++ replicate (p - length l) 0) ++ d ++ drop (p + length d) l.

Abbreviation stream := (st FILE).

Definition checked_fwrite (d : list Z) : stream unit :=
  match d with
  | [] => mret tt
  | _ => modify (fun f => mkFile (overwrite (file_bytes f) (Z.to_nat (file_pos f)) d)
                            (file_pos f + Z.of_nat (length d)))
  end.

Definition checked_ftell : stream Z := f ← get; mret (file_pos f).

(** [SEEK_SET] and [SEEK_CUR]. *)
Definition checked_fseek (offset : Z) : stream unit :=
  if i64 offset <? 0 then lift (Stop (Exit EXIT_CODE_IO_ERROR))
  else modify (fun f => mkFile (file_bytes f) (i64 offset)).
Definition checked_fseek_cur (offset : Z) : stream unit :=
  p ← checked_ftell; checked_fseek (p + offset).

(** At most [n] bytes. *)
Definition fread (n : Z) : stream (list Z) :=
  f ← get;
  let d := take (Z.to_nat n) (drop (Z.to_nat (file_pos f)) (file_bytes f)) in
  put (mkFile (file_bytes f) (file_pos f + Z.of_nat (length d)));;
  mret d.

Definition checked_fread (n : Z) : stream (list Z) :=
  d ← fread n;
  if Z.of_nat (length d) =? n then mret d else lift (Stop (Exit EXIT_CODE_IO_ERROR)).

(** ** Kinds of files *)

Inductive FileType := ELF_FILE_TYPE | AR_FILE_TYPE | UNKNOWN_FILE_TYPE.

Definition AR_GLOBAL_HEADER : list Z := bytes_of "!<arch>" ++ [10].
Definition ELF_MAGIC : list Z := 127 :: bytes_of "ELF".

Definition file_type_of_bytes (bytes : list Z) : FileType :=
  if (4 <=? length bytes)%nat && bool_decide (take 4 bytes = ELF_MAGIC) then ELF_FILE_TYPE
  else if (8 <=? length bytes)%nat && bool_decide (take 8 bytes = AR_GLOBAL_HEADER) then AR_FILE_TYPE
  else UNKNOWN_FILE_TYPE.

Definition file_type : stream FileType :=
  initial_pos ← checked_ftell;
  magic ← fread 8;
  checked_fseek initial_pos;;
  mret (file_type_of_bytes magic).

(** ** Lemmas *)

Lemma overwrite_end l d : overwrite l (length l) d = l ++ d.
Proof.
  unfold overwrite. rewrite Nat.sub_diag, app_nil_r, drop_ge by lia.
  rewrite take_ge by lia. by rewrite app_nil_r.
Qed.
Lemma overwrite_past l p d : (length l <= p)%nat -> overwrite l p d = l ++ replicate (p - length l) 0 ++ d.
Proof.
  intros H. unfold overwrite. rewrite drop_ge by lia. rewrite take_ge by (rewrite length_app, length_replicate; lia).
  by rewrite app_nil_r, <- app_assoc.
Qed.
(** A part is replaced by one of the same length. *)
Lemma overwrite_middle a b c d : length d = length b -> overwrite (a ++ b ++ c) (length a) d = a ++ d ++ c.
Proof.
  intros H. unfold overwrite. rewrite take_app_le by (rewrite !length_app; lia).
  rewrite take_app_length. f_equal. f_equal.
  rewrite drop_app_ge by lia. replace (length a + length d - length a)%nat with (length b) by lia.
  by rewrite drop_app_length.
Qed.
Lemma overwrite_length l p d : (p + length d <= length l)%nat -> length (overwrite l p d) = length l.
Proof.
  intros H. unfold overwrite. rewrite take_app_le by lia. rewrite !length_app, length_take, length_drop. lia.
Qed.

Lemma fwrite_run d l p : 0 <= p -> d <> [] ->
  checked_fwrite d (mkFile l p) = Ok (tt, mkFile (overwrite l (Z.to_nat p) d) (p + Z.of_nat (length d))).
Proof. intros H Hd. by destruct d. Qed.
(** Writing at the end. *)
Lemma fwrite_append d l : checked_fwrite d (mkFile l (Z.of_nat (length l))) =
  Ok (tt, mkFile (l ++ d) (Z.of_nat (length (l ++ d)))).
Proof.
  destruct d as [|x d]; [by rewrite app_nil_r |]. rewrite fwrite_run by (done || lia).
  by rewrite Nat2Z.id, overwrite_end, length_app, Nat2Z.inj_add.
Qed.
Lemma fseek_run o f : 0 <= o < 2 ^ 63 -> checked_fseek o f = Ok (tt, mkFile (file_bytes f) o).
Proof.
  intros H. unfold checked_fseek. assert (E : i64 o = o) by (apply sgn_small; lia). rewrite E.
  by destruct (Z.ltb_spec o 0); [lia |].
Qed.
Lemma fread_run a b c : checked_fread (Z.of_nat (length b)) (mkFile (a ++ b ++ c) (Z.of_nat (length a))) =
  Ok (b, mkFile (a ++ b ++ c) (Z.of_nat (length (a ++ b)))).
Proof.
  unfold checked_fread, fread, mbind, st_bind, get, put, mret, st_ret. cbn [file_bytes file_pos].
  rewrite !Nat2Z.id, drop_app_length, take_app_length, Z.eqb_refl. do 3 f_equal. rewrite length_app. lia.
Qed.
