(* ===== verification/Asm.v ===== *)
(** * Assembly: data and machine code emission ([src/src/backend/asm.h],
      [src/src/backend/asm.c])

    [encode_instr] writes one x86-64 instruction from an encoding row chosen by
    [assemble_instr], which the build generates from [x64.enc] and is therefore
    a parameter of [assemble]. Symbols and fixups are referred to by their index
    in the module. The fields of a symbol that belong to [asm_gen.c] are left out. *)

From S2P Require Import Prelude Maths.

Local Open Scope Z_scope.

(** ** Data *)

Inductive RegClass :=
| INVALID_REG_CLASS
| REG_CLASS_A | REG_CLASS_B | REG_CLASS_C | REG_CLASS_D | REG_CLASS_DI | REG_CLASS_SI
| REG_CLASS_BP | REG_CLASS_SP | REG_CLASS_R8 | REG_CLASS_R9 | REG_CLASS_R10 | REG_CLASS_R11
| REG_CLASS_R12 | REG_CLASS_R13 | REG_CLASS_R14 | REG_CLASS_R15 | REG_CLASS_IP
| REG_CLASS_XMM0 | REG_CLASS_XMM1 | REG_CLASS_XMM2 | REG_CLASS_XMM3
| REG_CLASS_XMM4 | REG_CLASS_XMM5 | REG_CLASS_XMM6 | REG_CLASS_XMM7.

#[export] Instance RegClass_eq_dec : EqDecision RegClass.
Proof. solve_decision. Defined.

(** The value of the enumeration constant. *)
Definition reg_class_num (c : RegClass) : Z :=
  match c with
  | INVALID_REG_CLASS => 0
  | REG_CLASS_A => 1 | REG_CLASS_B => 2 | REG_CLASS_C => 3 | REG_CLASS_D => 4 | REG_CLASS_DI => 5
  | REG_CLASS_SI => 6 | REG_CLASS_BP => 7 | REG_CLASS_SP => 8 | REG_CLASS_R8 => 9 | REG_CLASS_R9 => 10
  | REG_CLASS_R10 => 11 | REG_CLASS_R11 => 12 | REG_CLASS_R12 => 13 | REG_CLASS_R13 => 14
  | REG_CLASS_R14 => 15 | REG_CLASS_R15 => 16 | REG_CLASS_IP => 17 | REG_CLASS_XMM0 => 18
  | REG_CLASS_XMM1 => 19 | REG_CLASS_XMM2 => 20 | REG_CLASS_XMM3 => 21 | REG_CLASS_XMM4 => 22
  | REG_CLASS_XMM5 => 23 | REG_CLASS_XMM6 => 24 | REG_CLASS_XMM7 => 25
  end.

Inductive RegU :=
| PHYS_REG (class : RegClass)
| V_REG (vreg_number : Z).

Record Register := mkRegister { width : Z; value_width : Z; reg_u : RegU }.

Inductive AsmConst :=
| ASM_CONST_IMMEDIATE (immediate : Z)
| ASM_CONST_FIXED_IMMEDIATE (value width : Z)
| ASM_CONST_SYMBOL (symbol : nat).

Inductive AsmValueU :=
| ASM_VALUE_REGISTER (reg : Register)
| ASM_VALUE_OFFSET_REGISTER (reg : Register) (offset : AsmConst)
| ASM_VALUE_CONST (constant : AsmConst).

Record AsmValue := mkAsmValue { is_deref : bool; value_u : AsmValueU }.

Inductive AsmOp :=
| NOP | MOV | MOVSX | MOVZX | MOVSS | MOVSD | MOVAPS | RET
| CALL | XOR | AND | OR | NOT | NEG | SHL | SHR | ADD
| SUB | PUSH | POP | IMUL | IDIV | CDQ | CQO | CVTSI2SS
| CVTSI2SD | CVTSS2SI | CVTSD2SI | CVTSS2SD | CVTSD2SS
| MULSS | MULSD | CMP | SETE | SETNE | SETG | SETGE
| SETL | SETLE | SETA | SETAE | SETB | SETBE | TEST
| UCOMISS | UCOMISD | JMP | JE | JNE | JG | JGE | JL
| JLE | JA | JAE | JB | JBE | ADDSS | ADDSD | ADC
| SBB | SYSCALL.

#[export] Instance AsmOp_eq_dec : EqDecision AsmOp.
Proof. solve_decision. Defined.

(** [args] holds [arity] values, [vreg_deps] holds [num_deps] numbers; [label]
    is a symbol. *)
Record AsmInstr := mkAsmInstr {
  op : AsmOp;
  args : list AsmValue;
  vreg_deps : list Z;
  label : option nat
}.
Definition arity (i : AsmInstr) : Z := Z.of_nat (length (args i)).

Inductive AsmLinkage := ASM_GLOBAL_LINKAGE | ASM_LOCAL_LINKAGE.
Inductive AsmSymbolSection := UNKNOWN_SECTION | TEXT_SECTION | DATA_SECTION | BSS_SECTION.
Inductive FixupType := FIXUP_RELATIVE | FIXUP_ABSOLUTE.

#[export] Instance AsmSymbolSection_eq_dec : EqDecision AsmSymbolSection.
Proof. solve_decision. Defined.
#[export] Instance FixupType_eq_dec : EqDecision FixupType.
Proof. solve_decision. Defined.

Record AsmSymbol := mkAsmSymbol {
  sym_name : string;
  sym_section : AsmSymbolSection;
  defined : bool;
  sym_linkage : AsmLinkage;
  symtab_index : Z;
  sym_offset : Z;
  sym_size : Z
}.

Record Fixup := mkFixup {
  fixup_type : FixupType;
  fixup_section : AsmSymbolSection;
  fixup_offset : Z;
  next_instr_offset : Z;
  size_bytes : Z;
  fixup_symbol : nat
}.

Record AsmModule := mkAsmModule {
  input_file_name : string;
  text_instrs : list AsmInstr;
  text_bytes : list Z;
  asm_data : list Z;
  bss_size : Z;
  symbols : list AsmSymbol;
  fixups : list Fixup
}.

Definition set_instrs (m : AsmModule) x :=
  mkAsmModule (input_file_name m) x (text_bytes m) (asm_data m) (bss_size m) (symbols m) (fixups m).
Definition set_bytes (m : AsmModule) x :=
  mkAsmModule (input_file_name m) (text_instrs m) x (asm_data m) (bss_size m) (symbols m) (fixups m).
Definition set_symbols (m : AsmModule) x :=
  mkAsmModule (input_file_name m) (text_instrs m) (text_bytes m) (asm_data m) (bss_size m) x (fixups m).
Definition set_fixups (m : AsmModule) x :=
  mkAsmModule (input_file_name m) (text_instrs m) (text_bytes m) (asm_data m) (bss_size m) (symbols m) x.

Definition init_asm_module (name : string) : AsmModule := mkAsmModule name [] [] [] 0 [] [].

(** ** Constructors *)

Definition asm_const_imm (value : Z) : AsmConst := ASM_CONST_IMMEDIATE value.
Definition asm_const_fixed_imm (value width : Z) : AsmConst := ASM_CONST_FIXED_IMMEDIATE value width.
Definition asm_const_symbol (symbol : nat) : AsmConst := ASM_CONST_SYMBOL symbol.

Definition reg_class_is_gpr (reg_class : RegClass) : bool :=
  (reg_class_num REG_CLASS_A <=? reg_class_num reg_class)
  && (reg_class_num reg_class <? reg_class_num REG_CLASS_IP).

Definition asm_vreg (vreg_number w : Z) : res AsmValue :=
  PRECONDITION (negb (w =? 0));;
  Ok (mkAsmValue false (ASM_VALUE_REGISTER (mkRegister w w (V_REG vreg_number)))).
Definition asm_float_vreg (vreg_number w : Z) : res AsmValue :=
  PRECONDITION (negb (w =? 0));;
  Ok (mkAsmValue false (ASM_VALUE_REGISTER (mkRegister 128 w (V_REG vreg_number)))).
Definition asm_phys_reg (reg : RegClass) (w : Z) : res AsmValue :=
  PRECONDITION (negb (w =? 0));;
  Ok (mkAsmValue false (ASM_VALUE_REGISTER
        (mkRegister (if reg_class_is_gpr reg then w else 128) w (PHYS_REG reg)))).
Definition asm_deref (v : AsmValue) : AsmValue := mkAsmValue true (value_u v).

Definition value_reg (arg : AsmValue) : option Register :=
  match value_u arg with
  | ASM_VALUE_REGISTER r => Some r
  | ASM_VALUE_OFFSET_REGISTER r _ => Some r
  | ASM_VALUE_CONST _ => None
  end.

Definition asm_offset_reg (reg : RegClass) (w : Z) (offset : AsmConst) : res AsmValue :=
  match offset with
  | ASM_CONST_IMMEDIATE 0 => asm_phys_reg reg w
  | _ => Ok (mkAsmValue false (ASM_VALUE_OFFSET_REGISTER (mkRegister w 0 (PHYS_REG reg)) offset))
  end.

Definition asm_imm (value : Z) : AsmValue := mkAsmValue false (ASM_VALUE_CONST (asm_const_imm value)).
Definition asm_fixed_imm (value width : Z) : AsmValue :=
  mkAsmValue false (ASM_VALUE_CONST (asm_const_fixed_imm value width)).
Definition asm_symbol (symbol : nat) : AsmValue :=
  mkAsmValue false (ASM_VALUE_CONST (ASM_CONST_SYMBOL symbol)).

Definition is_sign_extending_op (o : AsmOp) : bool :=
  match o with
  | ADD | AND | ADC | CMP | IMUL | MOV | OR | SBB | SUB | TEST => true
  | _ => false
  end.
Definition is_sign_extending_instr (i : AsmInstr) : bool := is_sign_extending_op (op i).

(** ** Immediates *)

Definition is_const_and_fits (v : AsmValue) (ext_width imm_width : Z) (sext : bool) : res bool :=
  PRECONDITION (imm_width <=? ext_width);;
  match value_u v with
  | ASM_VALUE_CONST (ASM_CONST_IMMEDIATE imm) =>
      if imm_width =? 64 then Ok true
      else
        let ext_trunc_bits := Z.shiftr imm ext_width in
        if negb (ext_width =? 64) && negb (ext_trunc_bits =? 0)
           && negb ((ext_trunc_bits =? Z.shiftl 1 (64 - ext_width) - 1)
                    && (Z.land (Z.shiftr imm (ext_width - 1)) 1 =? 1))
        then Ok false
        else
          let canonical_value :=
            if ext_width =? 64 then imm else Z.land imm (Z.shiftl 1 ext_width - 1) in
          let truncated := Z.land imm (Z.shiftl 1 imm_width - 1) in
          let extended :=
            if sext && negb (Z.land truncated (Z.shiftl 1 (imm_width - 1)) =? 0)
            then Z.lor truncated (u64 (Z.shiftl (Z.shiftl 1 (ext_width - imm_width) - 1) imm_width))
            else truncated in
          Ok (canonical_value =? extended)
  | ASM_VALUE_CONST (ASM_CONST_FIXED_IMMEDIATE _ w) => Ok (imm_width =? w)
  | ASM_VALUE_CONST (ASM_CONST_SYMBOL _) => Ok (imm_width =? 64)
  | _ => Ok false
  end.

(** ** Bytes *)

(** The [size] low bytes of [x], least significant first. *)
Definition le_bytes (x : Z) (size : nat) : list Z :=
  map (fun n => Z.land (Z.shiftr x (8 * Z.of_nat n)) 255) (seq 0 size).

(** A write that starts beyond the end would leave uninitialised bytes. *)
Definition write_int_at (output : list Z) (offset x size : Z) : res (list Z) :=
  if (0 <=? offset) && (offset <=? Z.of_nat (length output)) && (0 <=? size) && (size <=? 8) then
    Ok (take (Z.to_nat offset) output ++ le_bytes x (Z.to_nat size)
          ++ drop (Z.to_nat (offset + size)) output)
  else Stop Undef.

Definition write_int (output : list Z) (x size : Z) : res (list Z) :=
  write_int_at output (Z.of_nat (length output)) x size.

(** ** Encoding of an instruction *)

Definition get_reg_class (v : AsmValue) : res RegClass :=
  match value_u v with
  | ASM_VALUE_REGISTER r | ASM_VALUE_OFFSET_REGISTER r _ =>
      match reg_u r with PHYS_REG c => Ok c | V_REG _ => ICE end
  | ASM_VALUE_CONST _ => ICE
  end.

Definition encoded_register_number (reg : RegClass) : res Z :=
  match reg with
  | INVALID_REG_CLASS => UNREACHABLE
  | REG_CLASS_A => Ok 0 | REG_CLASS_C => Ok 1 | REG_CLASS_D => Ok 2 | REG_CLASS_B => Ok 3
  | REG_CLASS_SP => Ok 4 | REG_CLASS_BP => Ok 5 | REG_CLASS_SI => Ok 6 | REG_CLASS_DI => Ok 7
  | REG_CLASS_R8 => Ok 8 | REG_CLASS_R9 => Ok 9 | REG_CLASS_R10 => Ok 10 | REG_CLASS_R11 => Ok 11
  | REG_CLASS_R12 => Ok 12 | REG_CLASS_R13 => Ok 13 | REG_CLASS_R14 => Ok 14 | REG_CLASS_R15 => Ok 15
  | REG_CLASS_IP => UNREACHABLE
  | REG_CLASS_XMM0 => Ok 0 | REG_CLASS_XMM1 => Ok 1 | REG_CLASS_XMM2 => Ok 2 | REG_CLASS_XMM3 => Ok 3
  | REG_CLASS_XMM4 => Ok 4 | REG_CLASS_XMM5 => Ok 5 | REG_CLASS_XMM6 => Ok 6 | REG_CLASS_XMM7 => Ok 7
  end.

(** The parts of an instruction; -1 in a size means that the part is absent.
    Fixups are indices into the module's list. *)
Record EncodedInstr := mkEncoded {
  rex_prefix : Z;
  has_oso : bool;
  opcode : list Z;
  opcode_extension : Z;
  has_modrm : bool;
  e_mod : Z;
  e_reg : Z;
  e_rm : Z;
  has_sib : bool;
  e_scale : Z;
  e_index : Z;
  e_base : Z;
  displacement_size : Z;
  displacement : Z;
  disp_fixup : option nat;
  immediate_size : Z;
  immediate : Z;
  imm_fixup : option nat
}.

Definition set_rex (e : EncodedInstr) (r : Z) : EncodedInstr :=
  mkEncoded r (has_oso e) (opcode e) (opcode_extension e) (has_modrm e) (e_mod e) (e_reg e) (e_rm e)
    (has_sib e) (e_scale e) (e_index e) (e_base e) (displacement_size e) (displacement e) (disp_fixup e)
    (immediate_size e) (immediate e) (imm_fixup e).
Definition set_reg (e : EncodedInstr) (r : Z) : EncodedInstr :=
  mkEncoded (rex_prefix e) (has_oso e) (opcode e) (opcode_extension e) (has_modrm e) (e_mod e) r (e_rm e)
    (has_sib e) (e_scale e) (e_index e) (e_base e) (displacement_size e) (displacement e) (disp_fixup e)
    (immediate_size e) (immediate e) (imm_fixup e).
(** Sets [has_modrm], [mod] and [rm]. *)
Definition set_modrm (e : EncodedInstr) (mod_ rm : Z) : EncodedInstr :=
  mkEncoded (rex_prefix e) (has_oso e) (opcode e) (opcode_extension e) true mod_ (e_reg e) rm
    (has_sib e) (e_scale e) (e_index e) (e_base e) (displacement_size e) (displacement e) (disp_fixup e)
    (immediate_size e) (immediate e) (imm_fixup e).
Definition set_sib (e : EncodedInstr) (scale index base : Z) : EncodedInstr :=
  mkEncoded (rex_prefix e) (has_oso e) (opcode e) (opcode_extension e) (has_modrm e) (e_mod e) (e_reg e)
    (e_rm e) true scale index base (displacement_size e) (displacement e) (disp_fixup e)
    (immediate_size e) (immediate e) (imm_fixup e).
Definition set_disp (e : EncodedInstr) (size disp : Z) (fixup : option nat) : EncodedInstr :=
  mkEncoded (rex_prefix e) (has_oso e) (opcode e) (opcode_extension e) (has_modrm e) (e_mod e) (e_reg e)
    (e_rm e) (has_sib e) (e_scale e) (e_index e) (e_base e) size disp fixup
    (immediate_size e) (immediate e) (imm_fixup e).
Definition set_imm (e : EncodedInstr) (size imm : Z) (fixup : option nat) : EncodedInstr :=
  mkEncoded (rex_prefix e) (has_oso e) (opcode e) (opcode_extension e) (has_modrm e) (e_mod e) (e_reg e)
    (e_rm e) (has_sib e) (e_scale e) (e_index e) (e_base e) (displacement_size e) (displacement e)
    (disp_fixup e) size imm fixup.

Definition new_fixup (type : FixupType) (symbol : nat) : Fixup :=
  mkFixup type TEXT_SECTION 0 0 4 symbol.

(** The fixups added so far and the parts decided so far are threaded. *)
Definition add_mod_rm_arg (fl : list Fixup) (e : EncodedInstr) (v : AsmValue) (type : FixupType)
  : res (list Fixup * EncodedInstr) :=
  match value_u v with
  | ASM_VALUE_REGISTER _ =>
      class ← get_reg_class v;
      if is_deref v then
        match class with
        | REG_CLASS_SP | REG_CLASS_R12 =>
            n ← encoded_register_number class;
            Ok (fl, set_sib (set_modrm e 0 4) 0 4 n)
        | REG_CLASS_BP | REG_CLASS_R13 =>
            n ← encoded_register_number class;
            Ok (fl, set_disp (set_modrm e 1 n) 1 0 (disp_fixup e))
        | _ =>
            n ← encoded_register_number class;
            Ok (fl, set_modrm e 0 n)
        end
      else
        n ← encoded_register_number class;
        Ok (fl, set_modrm e 3 n)
  | ASM_VALUE_OFFSET_REGISTER _ c =>
      ASSERT (is_deref v);;
      reg ← get_reg_class v;
      '(fl, e, offset) ←
        match c with
        | ASM_CONST_SYMBOL symbol =>
            let type := if decide (reg = REG_CLASS_IP) then FIXUP_RELATIVE else type in
            Ok (fl ++ [new_fixup type symbol],
                set_disp (set_modrm e 2 (e_rm e)) (displacement_size e) (displacement e) (Some (length fl)), 0)
        | ASM_CONST_IMMEDIATE offset =>
            if i8 offset =? i64 offset
            then Ok (fl, set_disp (set_modrm e 1 (e_rm e)) 1 offset (disp_fixup e), offset)
            else if Z.land offset (2 ^ 32 - 1) =? offset
            then Ok (fl, set_disp (set_modrm e 2 (e_rm e)) 4 offset (disp_fixup e), offset)
            else ICE
        | ASM_CONST_FIXED_IMMEDIATE _ _ => UNREACHABLE
        end;
      match reg with
      | REG_CLASS_A | REG_CLASS_C | REG_CLASS_D | REG_CLASS_B | REG_CLASS_BP | REG_CLASS_SI | REG_CLASS_DI
      | REG_CLASS_R8 | REG_CLASS_R9 | REG_CLASS_R10 | REG_CLASS_R11 | REG_CLASS_R13 | REG_CLASS_R14
      | REG_CLASS_R15 =>
          n ← encoded_register_number reg;
          Ok (fl, set_modrm e (e_mod e) n)
      | REG_CLASS_R12 | REG_CLASS_SP =>
          n ← encoded_register_number reg;
          let e := set_sib (set_modrm e (e_mod e) n) 0 4 4 in
          Ok (fl, set_disp e (if e_mod e =? 1 then 1 else 4) offset (disp_fixup e))
      | REG_CLASS_IP => Ok (fl, set_disp (set_modrm e 0 5) 4 0 (disp_fixup e))
      | _ => UNIMPLEMENTED
      end
  | ASM_VALUE_CONST _ => UNIMPLEMENTED
  end.

Inductive ArgOrder := INVALID | RM | MR.

(** A row of the encoding table, as [assemble_instr] passes it. *)
Record EncodingRow := mkRow {
  arg_order : ArgOrder;
  use_rex_w : bool;
  use_oso : bool;
  row_opcode : list Z;
  reg_and_rm : bool;
  row_opcode_extension : Z;
  row_immediate_size : Z;
  reg_in_opcode : bool;
  row_fixup_type : FixupType
}.

Definition REX_B : Z := 1.
Definition REX_X : Z := 2.
Definition REX_R : Z := 4.
Definition REX_W : Z := 8.
Definition REX_HIGH : Z := 64.

Definition opt_number (v : option AsmValue) : res Z :=
  match v with None => Ok 0 | Some v => c ← get_reg_class v; encoded_register_number c end.

(** The register and the memory operand of a ModR/M instruction. *)
Definition operands (order : ArgOrder) (i : AsmInstr) : res (option AsmValue * AsmValue) :=
  match order, args i with
  | RM, reg :: mem :: _ => Ok (Some reg, mem)
  | MR, mem :: reg :: _ => Ok (Some reg, mem)
  | INVALID, [mem] => Ok (None, mem)
  | INVALID, _ => UNREACHABLE
  | _, _ => Stop Undef
  end.

Definition is_high_byte_class (c : RegClass) : bool :=
  match c with REG_CLASS_SP | REG_CLASS_BP | REG_CLASS_SI | REG_CLASS_DI => true | _ => false end.

(** Does some operand need an empty REX prefix? *)
Fixpoint needs_rex (l : list AsmValue) : res bool :=
  match l with
  | [] => Ok false
  | a :: l =>
      match value_u a with
      | ASM_VALUE_REGISTER r =>
          match reg_u r with
          | PHYS_REG c => if (width r =? 8) && is_high_byte_class c then Ok true else needs_rex l
          | V_REG _ => ICE
          end
      | _ => needs_rex l
      end
  end.

(** The only constant operand. *)
Fixpoint immediate_arg (l : list AsmValue) (found : option AsmConst) : res (option AsmConst) :=
  match l with
  | [] => Ok found
  | a :: l =>
      match value_u a with
      | ASM_VALUE_CONST c =>
          match found with None => immediate_arg l (Some c) | Some _ => ICE end
      | _ => immediate_arg l found
      end
  end.

Definition add_immediate (fl : list Fixup) (e : EncodedInstr) (i : AsmInstr) (size : Z) (type : FixupType)
  : res (list Fixup * EncodedInstr) :=
  if size =? -1 then Ok (fl, e)
  else
    c ← immediate_arg (args i) None;
    match c with
    | None => ICE
    | Some (ASM_CONST_SYMBOL symbol) =>
        Ok (fl ++ [new_fixup type symbol], set_imm e size 0 (Some (length fl)))
    | Some (ASM_CONST_IMMEDIATE x) => Ok (fl, set_imm e size x (imm_fixup e))
    | Some (ASM_CONST_FIXED_IMMEDIATE x _) => Ok (fl, set_imm e size x (imm_fixup e))
    end.

(** The REX bits that extend the register fields. *)
Definition rex_bits (e : EncodedInstr) : res EncodedInstr :=
  let rex := rex_prefix e in
  let rex := if has_modrm e && (8 <=? e_reg e) then Z.lor rex REX_R else rex in
  let rex := if has_modrm e && (8 <=? e_rm e) then Z.lor rex REX_B else rex in
  let rex := if has_sib e && (8 <=? e_index e) then Z.lor rex REX_X else rex in
  rex ← (if has_sib e && (8 <=? e_base e) then
           ASSERT (Z.land rex REX_B =? 0);; Ok (Z.lor rex REX_B) else Ok rex);
  rex ← (if 8 <=? opcode_extension e then
           ASSERT (Z.land rex REX_B =? 0);; Ok (Z.lor rex REX_B) else Ok rex);
  Ok (set_rex e rex).

(** Everything up to "Now lets write it". *)
Definition plan (fl : list Fixup) (i : AsmInstr) (row : EncodingRow) : res (list Fixup * EncodedInstr) :=
  let e := mkEncoded (if use_rex_w row then REX_W else 0) (use_oso row) (row_opcode row) 0
             false 0 0 0 false 0 0 0 (-1) 0 None (-1) 0 None in
  (if (3 <? Z.of_nat (length (row_opcode row))) then Stop Undef else Ok tt);;
  e ← (if reg_in_opcode row then
         a ← of_opt (args i !! 0%nat);
         c ← get_reg_class a;
         n ← encoded_register_number c;
         Ok (mkEncoded (rex_prefix e) (has_oso e) (opcode e) n false 0 0 0 false 0 0 0 (-1) 0 None (-1) 0 None)
       else Ok e);
  '(fl, e) ←
    (if reg_and_rm row then
       '(reg, mem) ← operands (arg_order row) i;
       n ← opt_number reg;
       add_mod_rm_arg fl (set_reg e n) mem (row_fixup_type row)
     else if negb (row_opcode_extension row =? -1) then
       mem ← of_opt (args i !! 0%nat);
       add_mod_rm_arg fl (set_reg e (row_opcode_extension row)) mem (row_fixup_type row)
     else Ok (fl, e));
  high ← needs_rex (args i);
  let e := if high : bool then set_rex e (Z.lor (rex_prefix e) REX_HIGH) else e in
  '(fl, e) ← add_immediate fl e i (row_immediate_size row) (row_fixup_type row);
  e ← rex_bits e;
  Ok (fl, e).

Definition is_mandatory_prefix (b : Z) : bool := (b =? 242) || (b =? 243) || (b =? 102).

Definition modrm_byte (e : EncodedInstr) : Z :=
  Z.lor (Z.lor (Z.shiftl (Z.land (e_mod e) 3) 6) (Z.shiftl (Z.land (e_reg e) 7) 3)) (Z.land (e_rm e) 7).
Definition sib_byte (e : EncodedInstr) : Z :=
  Z.lor (Z.lor (Z.shiftl (Z.land (e_scale e) 3) 6) (Z.shiftl (Z.land (e_index e) 7) 3)) (Z.land (e_base e) 7).

(** The bytes before the displacement. *)
Definition head_bytes (e : EncodedInstr) : res (list Z) :=
  match opcode e with
  | [] => Stop Undef
  | b :: rest =>
      let b := Z.lor b (Z.land (opcode_extension e) 7) in
      let mandatory := is_mandatory_prefix b in
      Ok ((if mandatory then [b] else [])
          ++ (if has_oso e then [102] else [])
          ++ (if negb (rex_prefix e =? 0) then [Z.lor (rex_prefix e) REX_HIGH] else [])
          ++ (if mandatory then rest else b :: rest)
          ++ (if has_modrm e then [modrm_byte e] else [])
          ++ (if has_sib e then [sib_byte e] else []))
  end.

(** Writes through a fixup pointer, if there is one. *)
Definition set_fixup_offset (fl : list Fixup) (i : option nat) (x : Z) : list Fixup :=
  match i with
  | None => fl
  | Some i => alter (fun f => mkFixup (fixup_type f) (fixup_section f) x (next_instr_offset f)
                               (size_bytes f) (fixup_symbol f)) i fl
  end.
Definition set_next_instr (fl : list Fixup) (i : option nat) (x : Z) : list Fixup :=
  match i with
  | None => fl
  | Some i => alter (fun f => mkFixup (fixup_type f) (fixup_section f) (fixup_offset f) x
                               (size_bytes f) (fixup_symbol f)) i fl
  end.

Definition out_size (l : list Z) : Z := Z.of_nat (length l).

Definition encode_instr (output : list Z) (fl : list Fixup) (i : AsmInstr) (row : EncodingRow)
  : res (list Z * list Fixup) :=
  '(fl, e) ← plan fl i row;
  head ← head_bytes e;
  let output := output ++ head in
  let fl := set_fixup_offset fl (disp_fixup e) (out_size output) in
  output ← (if negb (displacement_size e =? -1) then write_int output (displacement e) (displacement_size e)
            else Ok output);
  let fl := set_fixup_offset fl (imm_fixup e) (out_size output) in
  output ← (if negb (immediate_size e =? -1) then write_int output (immediate e) (immediate_size e)
            else Ok output);
  let fl := set_next_instr fl (disp_fixup e) (out_size output) in
  let fl := set_next_instr fl (imm_fixup e) (out_size output) in
  Ok (output, fl).

(** ** Assembling a module *)

Section Assemble.
(** The row that the generated [assemble_instr] selects for an instruction. *)
Context (select : AsmInstr -> res EncodingRow).

Definition assemble_one (m : AsmModule) (i : AsmInstr) : res AsmModule :=
  let instr_start := out_size (text_bytes m) in
  row ← select i;
  '(output, fl) ← encode_instr (text_bytes m) (fixups m) i row;
  let m := set_fixups (set_bytes m output) fl in
  match label i with
  | None => Ok m
  | Some s =>
      sym ← of_opt (symbols m !! s);
      ASSERT (bool_decide (sym_section sym = TEXT_SECTION));;
      ASSERT (defined sym);;
      Ok (set_symbols m (<[s := mkAsmSymbol (sym_name sym) (sym_section sym) (defined sym)
            (sym_linkage sym) (symtab_index sym) instr_start (sym_size sym)]> (symbols m)))
  end.

Definition number_symbols (l : list AsmSymbol) : list AsmSymbol :=
  imap (fun i s => mkAsmSymbol (sym_name s) (sym_section s) (defined s) (sym_linkage s)
    (Z.of_nat i + 1) (sym_offset s) (sym_size s)) l.

(** Is the fixup left for the linker? *)
Definition skip_fixup (f : Fixup) (sym : AsmSymbol) : bool :=
  bool_decide (fixup_type f = FIXUP_ABSOLUTE) || negb (defined sym)
  || negb (bool_decide (fixup_section f = TEXT_SECTION))
  || negb (bool_decide (sym_section sym = TEXT_SECTION)).

Definition apply_fixup (syms : list AsmSymbol) (output : list Z) (f : Fixup) : res (list Z) :=
  sym ← of_opt (syms !! fixup_symbol f);
  if skip_fixup f sym then Ok output
  else
    let value := i32 (i32 (sym_offset sym) - i32 (next_instr_offset f)) in
    write_int_at output (fixup_offset f) (u64 value) (size_bytes f).

Definition assemble (m : AsmModule) : res AsmModule :=
  m' ← foldM assemble_one (set_bytes m []) (text_instrs m);
  let m' := set_symbols (set_instrs m' []) (number_symbols (symbols m')) in
  output ← foldM (apply_fixup (symbols m')) (text_bytes m') (fixups m');
  Ok (set_bytes m' output).

End Assemble.

(** ** Specification *)

(** Reads little-endian bytes. *)
Fixpoint le_value (l : list Z) : Z := match l with [] => 0 | b :: l => b + 256 * le_value l end.

(** An operand as the processor sees it; registers by their number. *)
Inductive operand :=
| OReg (n : Z)
| OMem (base disp : Z)
| ORip (disp : Z).

Definition decode_disp (md : Z) (l : list Z) (mk : Z -> operand) : option (operand * list Z) :=
  if md =? 0 then Some (mk 0, l)
  else if md =? 1 then
    match l with b :: l => Some (mk (i8 b), l) | [] => None end
  else if (4 <=? out_size l) then Some (mk (i32 (le_value (take 4 l))), drop 4 l) else None.

(** The processor's reading of ModR/M, SIB and displacement under a REX prefix
    (0 for none), without index registers: the register field, the operand, and
    the bytes that follow. *)
Definition decode_rm (rex : Z) (l : list Z) : option (Z * operand * list Z) :=
  let r := 8 * (rex / 4 mod 2) in
  let x := 8 * (rex / 2 mod 2) in
  let b := 8 * (rex mod 2) in
  match l with
  | [] => None
  | m :: l =>
      let md := m / 64 in
      let reg := m / 8 mod 8 + r in
      let rm := m mod 8 in
      if md =? 3 then Some (reg, OReg (rm + b), l)
      else
        o ← (if rm =? 4 then
               match l with
               | [] => None
               | s :: l =>
                   if negb (s / 8 mod 8 + x =? 4) then None
                   else if (md =? 0) && (s mod 8 =? 5) then None
                   else decode_disp md l (OMem (s mod 8 + b))
               end
             else if (md =? 0) && (rm =? 5) then decode_disp 2 l ORip
             else decode_disp md l (OMem (rm + b)));
        Some (reg, o.1, o.2)
  end.

(** The operand a value stands for, when the encoder supports it: registers, the
    memory at a general purpose register, with an offset in [-128, 2^31). A symbol is
    a displacement of 0 until its fixup is applied; it is only supported where a
    displacement is always written (SP, R12, IP). *)
Definition operand_of (v : AsmValue) : option operand :=
  match value_u v with
  | ASM_VALUE_REGISTER (mkRegister _ _ (PHYS_REG c)) =>
      match encoded_register_number c with
      | Ok n => if is_deref v then if reg_class_is_gpr c then Some (OMem n 0) else None else Some (OReg n)
      | Stop _ => None
      end
  | ASM_VALUE_OFFSET_REGISTER (mkRegister _ _ (PHYS_REG c)) offset =>
      if is_deref v then
        match offset with
        | ASM_CONST_IMMEDIATE x =>
            if reg_class_is_gpr c && (-128 <=? i64 x) && (i64 x <? 2 ^ 31) then
              match encoded_register_number c with Ok n => Some (OMem n (i64 x)) | Stop _ => None end
            else None
        | ASM_CONST_SYMBOL _ =>
            match c with
            | REG_CLASS_SP => Some (OMem 4 0)
            | REG_CLASS_R12 => Some (OMem 12 0)
            | REG_CLASS_IP => Some (ORip 0)
            | _ => None
            end
        | _ => None
        end
      else None
  | _ => None
  end.

(** Offsets and constants are 64-bit patterns. *)
Definition value_ok (v : AsmValue) : Prop :=
  match value_u v with
  | ASM_VALUE_OFFSET_REGISTER _ (ASM_CONST_IMMEDIATE x) => is_u 64 x
  | _ => True
  end.

(** ** Lemmas *)

Lemma le_bytes_length x n : length (le_bytes x n) = n.
Proof. unfold le_bytes. by rewrite length_map, length_seq. Qed.

Lemma le_bytes_S x n : le_bytes x (S n) = Z.land x 255 :: le_bytes (Z.shiftr x 8) n.
Proof.
  unfold le_bytes. cbn [seq map]. rewrite <- seq_shift, map_map. f_equal. apply map_ext. intros k.
  rewrite Z.shiftr_shiftr by lia. do 2 f_equal. lia.
Qed.

Lemma land_255 x : Z.land x 255 = x mod 256.
Proof. change 255 with (Z.ones 8). by rewrite Z.land_ones by lia. Qed.

(** Little-endian round trip. *)
Lemma le_value_bytes x n : le_value (le_bytes x n) = x mod 2 ^ (8 * Z.of_nat n).
Proof.
  revert x. induction n as [|n IH]; intros x; [by rewrite Z.mod_1_r |].
  rewrite le_bytes_S. cbn [le_value]. rewrite IH, land_255, Z.shiftr_div_pow2 by lia.
  replace (8 * Z.of_nat (S n)) with (8 + 8 * Z.of_nat n) by lia. rewrite Z.pow_add_r by lia.
  rewrite (Z.rem_mul_r x (2 ^ 8)) by (try apply Z.pow_nonzero; try apply pow2_pos; lia). done.
Qed.

Lemma lor_add_low a b k : 0 <= k -> 0 <= b < 2 ^ k -> Z.lor (Z.shiftl a k) b = a * 2 ^ k + b.
Proof.
  intros Hk Hb. rewrite <- Z.shiftl_mul_pow2 by done. symmetry.
  assert (Hl : Z.land (Z.shiftl a k) b = 0).
  { apply testbit_ext. intros i Hi. rewrite Z.land_spec, Z.bits_0, Z.shiftl_spec by done.
    destruct (Z.ltb_spec i k).
    - rewrite Z.testbit_neg_r by lia. done.
    - rewrite (is_u_testbit_high k b) by (done || lia). apply andb_false_r. }
  rewrite Z.add_nocarry_lxor by done. by apply Z.lxor_lor.
Qed.

Lemma three_fields a b c : 0 <= a < 4 -> 0 <= b < 8 -> 0 <= c < 8 ->
  Z.lor (Z.lor (Z.shiftl a 6) (Z.shiftl b 3)) c = a * 64 + b * 8 + c.
Proof.
  intros Ha Hb Hc. replace (Z.shiftl a 6) with (Z.shiftl (Z.shiftl a 3) 3) by (rewrite Z.shiftl_shiftl by lia; done).
  rewrite <- Z.shiftl_lor, lor_add_low by lia. rewrite lor_add_low by lia. lia.
Qed.

Lemma land_3 x : Z.land x 3 = x mod 4.
Proof. change 3 with (Z.ones 2). by rewrite Z.land_ones by lia. Qed.
Lemma land_7 x : Z.land x 7 = x mod 8.
Proof. change 7 with (Z.ones 3). by rewrite Z.land_ones by lia. Qed.

Lemma modrm_byte_eq e : modrm_byte e = e_mod e mod 4 * 64 + e_reg e mod 8 * 8 + e_rm e mod 8.
Proof.
  unfold modrm_byte. rewrite land_3, !land_7. apply three_fields; apply Z.mod_pos_bound; lia.
Qed.
Lemma sib_byte_eq e : sib_byte e = e_scale e mod 4 * 64 + e_index e mod 8 * 8 + e_base e mod 8.
Proof.
  unfold sib_byte. rewrite land_3, !land_7. apply three_fields; apply Z.mod_pos_bound; lia.
Qed.

(** The ways the encoder describes an operand. *)
Inductive shape : EncodedInstr -> operand -> Prop :=
| shape_reg e n : e_mod e = 3 -> e_rm e = n -> has_sib e = false -> displacement_size e = -1 ->
    0 <= n < 16 -> shape e (OReg n)
| shape_mem e n : e_mod e = 0 -> e_rm e = n -> has_sib e = false -> displacement_size e = -1 ->
    0 <= n < 16 -> n mod 8 <> 4 -> n mod 8 <> 5 -> shape e (OMem n 0)
| shape_sib e n : e_mod e = 0 -> e_rm e = 4 -> has_sib e = true -> e_index e = 4 -> e_base e = n ->
    displacement_size e = -1 -> 0 <= n < 16 -> n mod 8 <> 5 -> shape e (OMem n 0)
| shape_disp8 e n d : e_mod e = 1 -> e_rm e = n -> has_sib e = false -> displacement_size e = 1 ->
    displacement e = d -> 0 <= n < 16 -> n mod 8 <> 4 -> shape e (OMem n (i8 d))
| shape_disp32 e n d : e_mod e = 2 -> e_rm e = n -> has_sib e = false -> displacement_size e = 4 ->
    displacement e = d -> 0 <= n < 16 -> n mod 8 <> 4 -> shape e (OMem n (i32 d))
| shape_sib8 e n d : e_mod e = 1 -> e_rm e = n -> has_sib e = true -> e_index e = 4 -> e_base e = 4 ->
    displacement_size e = 1 -> displacement e = d -> n = 4 \/ n = 12 -> shape e (OMem n (i8 d))
| shape_sib32 e n d : e_mod e = 2 -> e_rm e = n -> has_sib e = true -> e_index e = 4 -> e_base e = 4 ->
    displacement_size e = 4 -> displacement e = d -> n = 4 \/ n = 12 -> shape e (OMem n (i32 d))
| shape_rip e d : e_mod e = 0 -> e_rm e = 5 -> has_sib e = false -> displacement_size e = 4 ->
    displacement e = d -> shape e (ORip (i32 d)).

Definition disp_bytes (e : EncodedInstr) : list Z :=
  if displacement_size e =? -1 then [] else le_bytes (displacement e) (Z.to_nat (displacement_size e)).

(** REX bits as the processor reads them. *)
Definition rex_for (e : EncodedInstr) (rex : Z) : Prop :=
  rex / 4 mod 2 = (if 8 <=? e_reg e then 1 else 0) /\
  rex / 2 mod 2 = 0 /\
  rex mod 2 = (if (8 <=? e_rm e) || (has_sib e && (8 <=? e_base e)) then 1 else 0).

Lemma decode_disp8 d l mk : decode_disp 1 (le_bytes d 1 ++ l) mk = Some (mk (i8 d), l).
Proof.
  rewrite le_bytes_S. cbn. do 3 f_equal. rewrite land_255. unfold sgn, wrap.
  change (2 ^ 8) with 256. by rewrite Z.mod_mod.
Qed.
Lemma decode_disp32 d l mk : decode_disp 2 (le_bytes d 4 ++ l) mk = Some (mk (i32 d), l).
Proof.
  unfold decode_disp, out_size. cbn [Z.eqb Pos.eqb]. rewrite length_app, le_bytes_length.
  destruct (Z.leb_spec 4 (Z.of_nat (4 + length l))); [| lia].
  rewrite take_app_length' by done. rewrite drop_app_length' by done.
  rewrite le_value_bytes. do 3 f_equal. unfold sgn, wrap. cbn. by rewrite Z.mod_mod.
Qed.

(** What the processor reads is what the encoder meant. *)
Lemma decode_shape e o rex rest : shape e o -> 0 <= e_reg e < 16 -> rex_for e rex ->
  decode_rm rex ([modrm_byte e] ++ (if has_sib e then [sib_byte e] else []) ++ disp_bytes e ++ rest)
  = Some (e_reg e, o, rest).
Proof.
  intros Hs Hr (R1 & R2 & R3). unfold decode_rm. cbn [app]. rewrite R1, R2, R3, modrm_byte_eq, sib_byte_eq.
  assert (Hreg : e_reg e mod 8 + 8 * (if 8 <=? e_reg e then 1 else 0) = e_reg e).
  { destruct (Z.leb_spec 8 (e_reg e)); Z.div_mod_to_equations; lia. }
  assert (Hfields : forall a b c, 0 <= a < 4 -> 0 <= b < 8 -> 0 <= c < 8 ->
    (a * 64 + b * 8 + c) / 64 = a /\ (a * 64 + b * 8 + c) / 8 mod 8 = b /\ (a * 64 + b * 8 + c) mod 8 = c).
  { intros a b c Ha Hb Hc. repeat split; Z.div_mod_to_equations; lia. }
  assert (Hnum : forall n, 0 <= n < 16 -> n mod 8 + 8 * (if 8 <=? n then 1 else 0) = n).
  { intros n Hn. destruct (Z.leb_spec 8 n); Z.div_mod_to_equations; lia. }
  pose proof (Z.mod_pos_bound (e_reg e) 8 ltac:(lia)) as Hr8.
  destruct (Hfields (e_mod e mod 4) (e_reg e mod 8) (e_rm e mod 8)) as (F1 & F2 & F3);
    [apply Z.mod_pos_bound; lia | done | apply Z.mod_pos_bound; lia |].
  destruct (Hfields (e_scale e mod 4) (e_index e mod 8) (e_base e mod 8)) as (G1 & G2 & G3);
    [apply Z.mod_pos_bound; lia | apply Z.mod_pos_bound; lia | apply Z.mod_pos_bound; lia |].
  rewrite F1, F2, F3, Hreg, ?G2, ?G3. unfold disp_bytes.
  destruct Hs as [e n M Rm S D Hn|e n M Rm S D Hn N4 N5|e n M Rm S Ix B D Hn N5|e n d M Rm S D Dd Hn N4
    |e n d M Rm S D Dd Hn N4|e n d M Rm S Ix B D Dd Hn|e n d M Rm S Ix B D Dd Hn|e d M Rm S D Dd];
    rewrite M, Rm, ?S, ?Ix, ?B, D, ?Dd; rewrite ?Ix, ?B in G2, G3; cbn [andb orb app Z.eqb Pos.eqb Z.modulo Z.div_eucl Z.pos_div_eucl Z.to_nat].
  - change (3 mod 4 =? 3) with true. cbv iota. rewrite orb_false_r, Hnum by done. done.
  - change (0 mod 4 =? 3) with false. cbv iota. rewrite orb_false_r, Hnum by done.
    destruct (Z.eqb_spec (n mod 8) 4), (Z.eqb_spec (n mod 8) 5); try done.
  - change (0 mod 4 =? 3) with false. change (4 mod 8 =? 4) with true. cbv iota.
    rewrite G2, G3. change (4 mod 8 + 8 * 0 =? 4) with true. change (8 <=? 4) with false. cbn [negb orb]. rewrite Hnum by done.
    destruct (Z.eqb_spec (n mod 8) 5); done.
  - change (1 mod 4) with 1. change (1 =? 3) with false. change (1 =? 0) with false. cbn [andb]. rewrite orb_false_r, Hnum by done.
    destruct (Z.eqb_spec (n mod 8) 4); [done |].
    change (Z.to_nat 1) with 1%nat. by rewrite decode_disp8.
  - change (2 mod 4) with 2. change (2 =? 3) with false. change (2 =? 0) with false. cbn [andb]. rewrite orb_false_r, Hnum by done.
    destruct (Z.eqb_spec (n mod 8) 4); [done |].
    change (Z.to_nat 4) with 4%nat. by rewrite decode_disp32.
  - assert (n mod 8 = 4) as -> by (by destruct Hn as [->| ->]).
    rewrite G2, G3. change (1 mod 4) with 1. change (4 mod 8) with 4. change (Z.to_nat 1) with 1%nat. cbn [Z.eqb Pos.eqb andb negb Z.add Z.mul].
    rewrite decode_disp8. by destruct Hn as [->| ->].
  - assert (n mod 8 = 4) as -> by (by destruct Hn as [->| ->]).
    rewrite G2, G3. change (2 mod 4) with 2. change (4 mod 8) with 4. change (Z.to_nat 4) with 4%nat. cbn [Z.eqb Pos.eqb andb negb Z.add Z.mul].
    rewrite decode_disp32. by destruct Hn as [->| ->].
  - change (0 mod 4) with 0. change (5 mod 8) with 5. change (Z.to_nat 4) with 4%nat. cbn [Z.eqb Pos.eqb andb negb].
    by rewrite decode_disp32.
Qed.

Lemma sgn_wrap_congr w x y : wrap w x = wrap w y -> sgn w x = sgn w y.
Proof. intros E. unfold sgn. by rewrite E. Qed.

(** A 64-bit pattern and its signed value have the same low bytes. *)
Lemma sgn_i64 w x : 0 < w <= 64 -> sgn w (i64 x) = sgn w x.
Proof.
  intros Hw. apply sgn_wrap_congr. assert (Hc : exists k, i64 x = x + k * 2 ^ 64).
  { unfold sgn, wrap. pose proof (Z.div_mod x (2 ^ 64) ltac:(lia)).
    destruct (_ <? _); [exists (- (x / 2 ^ 64)) | exists (- (x / 2 ^ 64) - 1)]; lia. }
  destruct Hc as [k ->]. unfold wrap.
  replace (2 ^ 64) with (2 ^ (64 - w) * 2 ^ w) by (rewrite <- Z.pow_add_r by lia; f_equal; lia).
  rewrite Z.mul_assoc, Z.mod_add by (pose proof (pow2_pos w); lia). done.
Qed.

Lemma offset_cases x : is_u 64 x -> -128 <= i64 x < 2 ^ 31 ->
  (i8 x = i64 x /\ (i8 x =? i64 x) = true) \/
  (i32 x = i64 x /\ (i8 x =? i64 x) = false /\ (Z.land x (2 ^ 32 - 1) =? x) = true).
Proof.
  intros Hx Hi. destruct (Z.ltb_spec (i64 x) 128) as [Hs|Hb].
  - left. assert (E : i8 x = i64 x) by (rewrite <- sgn_i64 by lia; apply i8_small; lia).
    by rewrite E, Z.eqb_refl.
  - right. assert (Hxe : i64 x = x).
    { unfold sgn in *. rewrite wrap_small in * by done. unfold is_u in Hx.
      destruct (Z.ltb_spec x (2 ^ (64 - 1))); [done | lia]. }
    split; [rewrite <- sgn_i64 by lia; apply i32_small; lia |]. split.
    + apply Z.eqb_neq. pose proof (sgn_bound 8 x ltac:(lia)). change (2 ^ (8 - 1)) with 128 in *. lia.
    + rewrite Hxe in *. change (2 ^ 32 - 1) with (Z.ones 32). rewrite Z.land_ones, Z.mod_small by lia.
      apply Z.eqb_refl.
Qed.

(** The parts of the plan that the operand does not touch. *)
Definition same_head (e e' : EncodedInstr) : Prop :=
  rex_prefix e' = rex_prefix e /\ has_oso e' = has_oso e /\ opcode e' = opcode e /\
  opcode_extension e' = opcode_extension e /\ e_reg e' = e_reg e /\ immediate_size e' = immediate_size e /\
  imm_fixup e' = imm_fixup e.

(** Registers that extend the SIB base leave ModR/M.rm alone, and the index is
    the one that means "none". *)
Definition sib_ok (e : EncodedInstr) : Prop :=
  has_sib e = true -> e_index e = 4 /\ 0 <= e_base e /\ (8 <= e_base e -> e_rm e < 8).

Ltac solve_shape :=
  first
    [ eapply shape_reg; cbn; (done || lia) | eapply shape_mem; cbn; (done || lia)
    | eapply shape_sib; cbn; (done || lia)
    | match goal with |- shape _ (OMem ?n 0) => apply (shape_disp8 _ n 0); cbn; (done || lia) end
    | eapply shape_disp8; cbn; (done || lia)
    | eapply shape_disp32; cbn; (done || lia) | eapply shape_sib8; cbn; (done || lia)
    | eapply shape_sib32; cbn; (done || lia) ].

Lemma add_mod_rm_shape fl e v ty o : operand_of v = Some o -> value_ok v ->
  has_sib e = false -> displacement_size e = -1 -> displacement e = 0 ->
  exists fl' e', add_mod_rm_arg fl e v ty = Ok (fl', e') /\ shape e' o /\ has_modrm e' = true /\
    sib_ok e' /\ same_head e e'.
Proof.
  intros Ho Hv Hsib Hds Hd. destruct v as [deref [[w vw [c|n]]|[w vw [c|n]] off|c]]; cbn in Ho, Hv; try done.
  - unfold add_mod_rm_arg. cbn [value_u get_reg_class reg_u mbind res_bind is_deref].
    destruct deref; destruct c; cbn in Ho; try done; injection Ho as <-; cbn [encoded_register_number mbind res_bind];
      (eexists _, _; split; [reflexivity |]; split; [solve_shape |]; split; [done |]; split; [| done]);
      intros Hs; cbn in *; try (rewrite Hsib in Hs; done); lia.
  - destruct deref; [| by destruct off].
    unfold add_mod_rm_arg. cbn [value_u get_reg_class reg_u mbind res_bind is_deref ASSERT].
    destruct off as [x| |s]; [| done |].
    + destruct (reg_class_is_gpr c && (-128 <=? i64 x) && (i64 x <? 2 ^ 31)) eqn:Hg; [| done]. bsplit.
      destruct (offset_cases x Hv ltac:(lia)) as [(E1 & E2)|(E1 & E2 & E3)]; rewrite E2, ?E3; cbn [mbind res_bind];
        destruct c; cbn in Ho; try done; injection Ho as <-; rewrite <- E1; cbn [encoded_register_number mbind res_bind];
        (eexists _, _; split; [reflexivity |]; split; [solve_shape |]; split; [done |]; split; [| done]);
        intros Hs; cbn in *; try (rewrite Hsib in Hs; done); lia.
    + destruct c; try done; injection Ho as <-; cbn [mbind res_bind decide decide_rel encoded_register_number];
        (eexists _, _; split; [reflexivity |]; split; [| split; [done |]; split; [| done];
           intros Hs; cbn in *; try (rewrite Hsib in Hs; done); lia]).
      * change (OMem 4 0) with (OMem 4 (i32 0)). solve_shape.
      * change (OMem 12 0) with (OMem 12 (i32 0)). solve_shape.
      * change (ORip 0) with (ORip (i32 0)). by apply shape_rip.
Qed.

Lemma shape_rm_bound e o : shape e o -> 0 <= e_rm e < 16.
Proof. destruct 1; subst; lia. Qed.

(** The prefix byte carries exactly the bits the operands need. *)
Lemma rex_bits_ok e o : shape e o -> has_modrm e = true -> sib_ok e -> 0 <= e_reg e < 16 ->
  opcode_extension e = 0 -> rex_prefix e ∈ [0; 8; 64; 72] ->
  exists rex, rex_bits e = Ok (set_rex e rex) /\
    let b := if rex =? 0 then 0 else Z.lor rex REX_HIGH in
    rex_for e b /\ b / 8 mod 2 = rex_prefix e / 8 mod 2 /\ (b = 0 \/ 64 <= b < 80) /\
    (64 <= rex_prefix e -> b <> 0).
Proof.
  intros Hs Hm Hsib Hr Hx Hp. pose proof (shape_rm_bound e o Hs) as Hrm. unfold rex_bits, rex_for. rewrite Hm, Hx.
  cbn [andb]. change (8 <=? 0) with false. cbv iota.
  assert (Hp' : rex_prefix e = 0 \/ rex_prefix e = 8 \/ rex_prefix e = 64 \/ rex_prefix e = 72) by set_solver.
  clear Hp.
  destruct (has_sib e) eqn:Es; cbn [andb].
  - destruct (Hsib Es) as (Hi & Hb0 & Hb). rewrite Hi. change (8 <=? 4) with false. cbv iota.
    destruct (Z.leb_spec 8 (e_base e)).
    + specialize (Hb ltac:(lia)). replace (8 <=? e_rm e) with false by zcases. cbn [orb].
      destruct (8 <=? e_reg e); destruct Hp' as [E|[E|[E|E]]]; rewrite E; cbn;
        (eexists; split; [reflexivity | cbn; repeat split; first [done | by left | right; by vm_compute]]).
    + rewrite orb_false_r. destruct (8 <=? e_reg e), (8 <=? e_rm e); destruct Hp' as [E|[E|[E|E]]]; rewrite E; cbn; (eexists; split; [reflexivity | cbn; repeat split; first [done | by left | right; by vm_compute]]).
  - rewrite orb_false_r. destruct (8 <=? e_reg e), (8 <=? e_rm e); destruct Hp' as [E|[E|[E|E]]]; rewrite E; cbn; (eexists; split; [reflexivity | cbn; repeat split; first [done | by left | right; by vm_compute]]).
Qed.

(** The register number and the memory operand of an instruction under a row. *)
Definition modrm_operands (row : EncodingRow) (i : AsmInstr) : option (Z * AsmValue) :=
  if reg_and_rm row then
    match operands (arg_order row) i with
    | Ok (reg, mem) => match opt_number reg with Ok n => Some (n, mem) | Stop _ => None end
    | Stop _ => None
    end
  else
    match args i with
    | mem :: _ => if (0 <=? row_opcode_extension row) && (row_opcode_extension row <? 8)
                  then Some (row_opcode_extension row, mem) else None
    | [] => None
    end.

(** The bytes of the immediate; a symbol leaves zeros for its fixup. *)
Definition imm_bytes (row : EncodingRow) (i : AsmInstr) : option (list Z) :=
  if row_immediate_size row =? -1 then Some []
  else if (0 <=? row_immediate_size row) && (row_immediate_size row <=? 8) then
    match immediate_arg (args i) None with
    | Ok (Some (ASM_CONST_IMMEDIATE x)) | Ok (Some (ASM_CONST_FIXED_IMMEDIATE x _)) =>
        Some (le_bytes x (Z.to_nat (row_immediate_size row)))
    | Ok (Some (ASM_CONST_SYMBOL _)) => Some (le_bytes 0 (Z.to_nat (row_immediate_size row)))
    | _ => None
    end
  else None.

(** Mandatory prefix, operand size prefix, REX (0 for none) and opcode. *)
Definition instr_prefix (row : EncodingRow) (rex : Z) : list Z :=
  match row_opcode row with
  | [] => []
  | b :: rest =>
      (if is_mandatory_prefix b then [b] else [])
      ++ (if use_oso row then [102] else [])
      ++ (if rex =? 0 then [] else [rex])
      ++ (if is_mandatory_prefix b then rest else b :: rest)
  end.

Lemma opt_number_bound reg n : opt_number reg = Ok n -> 0 <= n < 16.
Proof.
  unfold opt_number. destruct reg as [v|]; [| intros [= <-]; lia]. intros E. mstep.
  destruct a; cbn in E; try done; mstep; lia.
Qed.

Lemma modrm_operands_bound row i n mem : modrm_operands row i = Some (n, mem) -> 0 <= n < 16.
Proof.
  unfold modrm_operands. destruct (reg_and_rm row).
  - destruct (operands _ _) as [[reg m]|]; [| done]. destruct (opt_number reg) as [k|] eqn:E; [| done].
    intros [= <- <-]. by eapply opt_number_bound.
  - destruct (args i); [done |]. destruct (_ && _) eqn:E; [| done]. intros [= <- <-]. bsplit. lia.
Qed.

Lemma write_int_end output x size : 0 <= size <= 8 ->
  write_int output x size = Ok (output ++ le_bytes x (Z.to_nat size)).
Proof.
  intros Hs. unfold write_int, write_int_at, out_size. zcases. cbn [andb].
  rewrite Nat2Z.id, take_ge by lia. rewrite drop_ge, app_nil_r by lia. done.
Qed.

(** The immediate part of the plan. *)
Lemma add_immediate_ok fl e i row im : imm_bytes row i = Some im ->
  immediate_size e = -1 -> exists fl' e', add_immediate fl e i (row_immediate_size row) (row_fixup_type row) = Ok (fl', e') /\
    rex_prefix e' = rex_prefix e /\ has_oso e' = has_oso e /\ opcode e' = opcode e /\
    opcode_extension e' = opcode_extension e /\ e_reg e' = e_reg e /\ has_modrm e' = has_modrm e /\
    (forall o, shape e o -> shape e' o) /\ (sib_ok e -> sib_ok e') /\
    (forall output, (if negb (immediate_size e' =? -1) then write_int output (immediate e') (immediate_size e')
       else Ok output) = Ok (output ++ im)).
Proof.
  intros Him Hs. unfold imm_bytes in Him. unfold add_immediate.
  destruct (Z.eqb_spec (row_immediate_size row) (-1)) as [|Hne].
  { injection Him as <-. exists fl, e. repeat (split; [done |]). intros output. by rewrite Hs, app_nil_r. }
  destruct (_ && _) eqn:Hb; [| done]. bsplit.
  assert (Hshape : forall o x f, shape e o -> shape (set_imm e (row_immediate_size row) x f) o).
  { intros o x f Hsh. inversion Hsh; subst; [eapply shape_reg | eapply shape_mem | eapply shape_sib | eapply shape_disp8
      | eapply shape_disp32 | eapply shape_sib8 | eapply shape_sib32 | eapply shape_rip]; eauto. }
  destruct (immediate_arg (args i) None) as [[[x|x w|s]|]|]; try done; injection Him as <-; cbn [mbind res_bind];
    (eexists _, _; split; [reflexivity |]; repeat (split; [done |]); split; [intros o; apply Hshape |];
     split; [done |]; intros output; cbn [immediate_size immediate set_imm];
     destruct (Z.eqb_spec (row_immediate_size row) (-1)); [done |]; cbn [negb]; apply write_int_end; lia).
Qed.

(** The plan of a ModR/M instruction: its parts, with the REX byte [rex]. *)
Lemma plan_modrm fl i row n mem o im high : 1 <= out_size (row_opcode row) <= 3 ->
  reg_in_opcode row = false -> modrm_operands row i = Some (n, mem) -> operand_of mem = Some o ->
  value_ok mem -> imm_bytes row i = Some im -> needs_rex (args i) = Ok high ->
  exists fl' e rex, plan fl i row = Ok (fl', e) /\ shape e o /\ has_modrm e = true /\ e_reg e = n /\
    opcode e = row_opcode row /\ has_oso e = use_oso row /\ opcode_extension e = 0 /\
    (if negb (rex_prefix e =? 0) then [Z.lor (rex_prefix e) REX_HIGH] else []) = (if rex =? 0 then [] else [rex]) /\
    rex_for e rex /\ rex / 8 mod 2 = Z.b2z (use_rex_w row) /\ (high = true -> rex <> 0) /\
    (forall output, (if negb (immediate_size e =? -1) then write_int output (immediate e) (immediate_size e)
       else Ok output) = Ok (output ++ im)).
Proof.
  intros Hop Hrio Hm Ho Hv Him Hhigh. pose proof (modrm_operands_bound _ _ _ _ Hm) as Hn. unfold plan.
  rewrite Hrio, Hhigh. unfold out_size in Hop. replace (3 <? Z.of_nat (length (row_opcode row))) with false by zcases.
  set (e0 := mkEncoded _ _ _ _ _ _ _ _ _ _ _ _ _ _ _ _ _ _).
  destruct (add_mod_rm_shape fl (set_reg e0 n) mem (row_fixup_type row) o Ho Hv) as
    (fl1 & e1 & E1 & Hsh1 & Hmr1 & Hsib1 & (R1 & O1 & Op1 & Ox1 & Rg1 & Is1 & _)); [done.. |].
  assert (Esel : (if reg_and_rm row then
       '(reg, mem) ← operands (arg_order row) i;
       n ← opt_number reg;
       add_mod_rm_arg fl (set_reg e0 n) mem (row_fixup_type row)
     else if negb (row_opcode_extension row =? -1) then
       mem ← of_opt (args i !! 0%nat);
       add_mod_rm_arg fl (set_reg e0 (row_opcode_extension row)) mem (row_fixup_type row)
     else Ok (fl, e0)) = Ok (fl1, e1)).
  { rewrite <- E1. unfold modrm_operands in Hm. destruct (reg_and_rm row).
    - destruct (operands _ _) as [[reg m]|]; [| done]. cbn [mbind res_bind].
      destruct (opt_number reg) as [k|]; [| done]. by injection Hm as -> ->.
    - destruct (args i) as [|m ms]; [done |]. destruct (_ && _) eqn:Eb; [| done]. bsplit.
      injection Hm as <- <-. destruct (Z.eqb_spec (row_opcode_extension row) (-1)); [lia | done]. }
  cbn [mbind res_bind]. rewrite Esel. cbn [mbind res_bind].
  set (e2 := if high then set_rex e1 (Z.lor (rex_prefix e1) REX_HIGH) else e1).
  assert (H2 : shape e2 o /\ has_modrm e2 = true /\ sib_ok e2 /\ has_oso e2 = has_oso e1 /\ opcode e2 = opcode e1 /\
    opcode_extension e2 = opcode_extension e1 /\ e_reg e2 = e_reg e1 /\ immediate_size e2 = immediate_size e1 /\
    rex_prefix e2 = Z.lor (rex_prefix e1) (if high then REX_HIGH else 0)).
  { unfold e2. destruct high; [| by rewrite Z.lor_0_r].
    split; [inversion Hsh1; subst; [eapply shape_reg | eapply shape_mem | eapply shape_sib | eapply shape_disp8
      | eapply shape_disp32 | eapply shape_sib8 | eapply shape_sib32 | eapply shape_rip]; eauto | done]. }
  destruct H2 as (Hsh2 & Hmr2 & Hsib2 & O2 & Op2 & Ox2 & Rg2 & Is2 & R2).
  destruct (add_immediate_ok fl1 e2 i row im Him) as (fl3 & e3 & E3 & R3 & O3 & Op3 & Ox3 & Rg3 & Mr3 & Hsh3 & Hsib3 & Him3);
    [by rewrite Is2, Is1 |].
  rewrite E3. cbn [mbind res_bind].
  assert (Hp : rex_prefix e3 ∈ [0; 8; 64; 72] /\ rex_prefix e3 / 8 mod 2 = Z.b2z (use_rex_w row) /\
    (high = true -> 64 <= rex_prefix e3)).
  { rewrite R3, R2, R1. cbn [rex_prefix set_reg e0]. destruct (use_rex_w row), high; cbn;
      (split; [set_solver | split; [done | lia || done]]). }
  destruct Hp as (Hp & HpW & HpH).
  destruct (rex_bits_ok e3 o) as (rex & E4 & Hrex & HW & Hrange & Hnz);
    [by apply Hsh3 | by rewrite Mr3 | by apply Hsib3 | by rewrite Rg3, Rg2, Rg1 | by rewrite Ox3, Ox2, Ox1 | done |].
  rewrite E4. cbn [mbind res_bind].
  eexists fl3, (set_rex e3 rex), (if rex =? 0 then 0 else Z.lor rex REX_HIGH). split; [done |].
  split; [specialize (Hsh3 o Hsh2); inversion Hsh3; subst; [eapply shape_reg | eapply shape_mem | eapply shape_sib | eapply shape_disp8
      | eapply shape_disp32 | eapply shape_sib8 | eapply shape_sib32 | eapply shape_rip]; eauto |].
  split; [by cbn; rewrite Mr3 |]. split; [by cbn; rewrite Rg3, Rg2, Rg1 |].
  split; [by cbn; rewrite Op3, Op2, Op1 |]. split; [by cbn; rewrite O3, O2, O1 |].
  split; [by cbn; rewrite Ox3, Ox2, Ox1 |].
  split; [| split; [done | split; [by rewrite HW | split; [intros Hh; by apply Hnz, HpH | done]]]].
  cbn [rex_prefix set_rex]. destruct (Z.eqb_spec rex 0); [done |]. cbn [negb].
  destruct (Z.eqb_spec (Z.lor rex REX_HIGH) 0) as [Ez|]; [| done].
  apply Z.lor_eq_0_iff in Ez. by destruct Ez.
Qed.

Lemma disp_write e o : shape e o -> forall out,
  (if negb (displacement_size e =? -1) then write_int out (displacement e) (displacement_size e)
   else Ok out) = Ok (out ++ disp_bytes e).
Proof.
  intros Hsh out. assert (Hd : displacement_size e = -1 \/ displacement_size e = 1 \/ displacement_size e = 4)
    by (destruct Hsh; tauto).
  unfold disp_bytes. destruct Hd as [->|[->| ->]]; cbn [Z.eqb Pos.eqb negb]; [by rewrite app_nil_r | |];
    apply write_int_end; lia.
Qed.

Lemma land_mask x k : 0 <= k -> Z.land x (Z.shiftl 1 k - 1) = wrap k x.
Proof. intros Hk. rewrite Z.shiftl_1_l. change (2 ^ k - 1) with (Z.pred (2 ^ k)). rewrite <- Z.ones_equiv. by apply Z.land_ones. Qed.

(** The sign bit of a w-bit pattern. *)
Lemma land_sign_bit w c : 0 < w -> 0 <= c < 2 ^ w -> (Z.land c (Z.shiftl 1 (w - 1)) =? 0) = (c <? 2 ^ (w - 1)).
Proof.
  intros Hw Hc. rewrite Z.shiftl_1_l.
  assert (E : 2 ^ w = 2 * 2 ^ (w - 1)) by (rewrite <- Z.pow_succ_r by lia; f_equal; lia).
  assert (Hb : Z.testbit c (w - 1) = negb (c <? 2 ^ (w - 1))).
  { destruct (Z.ltb_spec c (2 ^ (w - 1))); cbn [negb].
    - apply (is_u_testbit_high (w - 1)); [unfold is_u; lia | lia].
    - replace c with (c - 2 ^ (w - 1) + 1 * 2 ^ (w - 1)) by lia.
      apply Z.testbit_true; [lia |].
      rewrite Z.div_add, Z.div_small by lia. done. }
  destruct (Z.eqb_spec (Z.land c (2 ^ (w - 1))) 0) as [Ez|Ez].
  - apply (f_equal (fun x => Z.testbit x (w - 1))) in Ez. rewrite Z.land_spec, Z.pow2_bits_true, Z.bits_0, andb_true_r, Hb in Ez by lia.
    by destruct (c <? 2 ^ (w - 1)).
  - destruct (Z.ltb_spec c (2 ^ (w - 1))) as [Hl|]; [| done]. exfalso. apply Ez. apply testbit_ext. intros i Hi.
    rewrite Z.land_spec, Z.bits_0, Z.pow2_bits_eqb by lia. destruct (Z.eqb_spec (w - 1) i) as [<-|]; [| by rewrite andb_false_r].
    rewrite Hb. destruct (Z.ltb_spec c (2 ^ (w - 1))); [done | lia].
Qed.

(** The extension step: setting the bits from [imm_width] to [ext_width]. *)
Lemma extend_bits w e c : 0 < w <= e -> e <= 64 -> 0 <= c < 2 ^ w ->
  Z.lor c (u64 (Z.shiftl (Z.shiftl 1 (e - w) - 1) w)) = c + 2 ^ e - 2 ^ w.
Proof.
  intros Hw He Hc. pose proof (pow2_pos (e - w) ltac:(lia)). pose proof (pow2_pos w ltac:(lia)).
  assert (E : 2 ^ e = 2 ^ (e - w) * 2 ^ w) by (rewrite <- Z.pow_add_r by lia; f_equal; lia).
  assert (2 ^ e <= 2 ^ 64) by (apply Z.pow_le_mono_r; lia).
  rewrite Z.shiftl_1_l, Z.shiftl_mul_pow2, wrap_small by nia.
  rewrite <- Z.shiftl_mul_pow2, Z.lor_comm, lor_add_low by lia. lia.
Qed.

(** The extension of the low [w] bits to [e] bits. *)
Lemma sext_wrap w e a : 0 < w <= e -> e <= 64 ->
  (if negb (wrap w a <? 2 ^ (w - 1))
   then Z.lor (wrap w a) (u64 (Z.shiftl (Z.shiftl 1 (e - w) - 1) w)) else wrap w a) = wrap e (sgn w a).
Proof.
  intros Hw He. pose proof (wrap_bound w a ltac:(lia)) as Hc. rewrite extend_bits by lia.
  assert (2 ^ w <= 2 ^ e) by (apply Z.pow_le_mono_r; lia). unfold sgn.
  assert (2 ^ w = 2 * 2 ^ (w - 1)) by (rewrite <- Z.pow_succ_r by lia; f_equal; lia).
  destruct (Z.ltb_spec (wrap w a) (2 ^ (w - 1))); cbn [negb]; [by rewrite (wrap_small e) by lia |].
  unfold wrap at 2. rewrite <- (Z.mod_add _ 1), Z.mod_small by lia. lia.
Qed.

(** The check that a 64-bit constant is representable in [e] bits. *)
Lemma representable e a : is_u 64 a -> e = 8 \/ e = 16 \/ e = 32 \/ e = 64 ->
  negb (e =? 64) && negb (Z.shiftr a e =? 0)
    && negb ((Z.shiftr a e =? Z.shiftl 1 (64 - e) - 1) && (Z.land (Z.shiftr a (e - 1)) 1 =? 1)) = false
  <-> a = wrap e a \/ a = u64 (sgn e a).
Proof.
  intros Ha He. assert (Hl : Z.land (Z.shiftr a (e - 1)) 1 = (a / 2 ^ (e - 1)) mod 2).
  { change 1 with (Z.ones 1) at 2. rewrite Z.land_ones, Z.shiftr_div_pow2 by lia. done. }
  rewrite Hl, Z.shiftl_1_l, Z.shiftr_div_pow2 by lia. clear Hl. unfold sgn, wrap, is_u in *.
  rewrite !andb_false_iff, !negb_false_iff, !andb_true_iff, !Z.eqb_eq.
  destruct He as [->|[->|[->| ->]]];
    repeat match goal with
    | |- context [2 ^ ?k] => let v := eval vm_compute in (2 ^ k) in change (2 ^ k) with v in *
    end; match goal with |- context [?x <? ?y] => destruct (Z.ltb_spec x y) end;
    Z.div_mod_to_equations; lia.
Qed.

(** ** Fixups *)

Definition in_text (f : Fixup) : Prop := fixup_section f = TEXT_SECTION.

(** Two patched fields do not overlap. *)
Definition fixups_apart (f g : Fixup) : Prop :=
  fixup_offset f + 4 <= fixup_offset g \/ fixup_offset g + 4 <= fixup_offset f.

(** The fixups of a text of [len] bytes: 4-byte fields inside it, all apart. *)
Fixpoint fixups_ok (len : Z) (fl : list Fixup) : Prop :=
  match fl with
  | [] => True
  | f :: fl =>
      (in_text f -> 0 <= fixup_offset f /\ fixup_offset f + 4 <= len /\ size_bytes f = 4 /\
         forall g, g ∈ fl -> in_text g -> fixups_apart f g) /\
      fixups_ok len fl
  end.

(** The operand and the immediate of an instruction leave room for their fixups:
    no symbol offset on a register whose displacement is not written, and no
    symbol in an immediate of fewer than 4 bytes. *)
Definition offset_has_room (v : AsmValue) : bool :=
  match value_u v with
  | ASM_VALUE_OFFSET_REGISTER (mkRegister _ _ (PHYS_REG c)) (ASM_CONST_SYMBOL _) =>
      match c with REG_CLASS_SP | REG_CLASS_R12 | REG_CLASS_IP => true | _ => false end
  | _ => true
  end.
Definition is_symbol_const (v : AsmValue) : bool :=
  match value_u v with ASM_VALUE_CONST (ASM_CONST_SYMBOL _) => true | _ => false end.
Definition has_room (row : EncodingRow) (i : AsmInstr) : bool :=
  forallb offset_has_room (args i)
  && ((4 <=? row_immediate_size row) || negb (existsb is_symbol_const (args i))).

Definition opt_list {A} (o : option A) : list A := match o with Some a => [a] | None => [] end.

Definition fresh (ty : option Fixup) : Prop :=
  match ty with Some f => in_text f /\ size_bytes f = 4 | None => True end.

Lemma add_mod_rm_fixups fl e v ty fl' e' : add_mod_rm_arg fl e v ty = Ok (fl', e') ->
  offset_has_room v = true -> disp_fixup e = None ->
  exists fd, fl' = fl ++ opt_list fd /\ fresh fd /\
    disp_fixup e' = (match fd with Some _ => Some (length fl) | None => None end) /\
    (fd <> None -> displacement_size e' = 4) /\ imm_fixup e' = imm_fixup e /\
    immediate_size e' = immediate_size e.
Proof.
  intros E Hr Hd. destruct v as [deref [r|[w vw [c|n]] off|c]]; unfold add_mod_rm_arg in E; cbn in E, Hr; try done.
  - exists None. rewrite app_nil_r. mstep. destruct deref; destruct a; cbn in E; mstep; cbn; try done;
      (split; [done |]; split; [done |]; split; [done |]; done).
  - destruct deref; cbn in E; [| done]. destruct off as [x| |s]; cbn in E; [| done |].
    + exists None. rewrite app_nil_r.
      destruct (i8 x =? i64 x); cbn in E; [| destruct (Z.land x _ =? x); cbn in E; [| done]];
        destruct c; cbn in E; mstep; cbn; try done;
        (split; [done |]; split; [done |]; split; [done |]; done).
    + destruct c; cbn in Hr, E; try done; mstep; eexists (Some (new_fixup _ s)); cbn;
        (split; [done |]; split; [done |]; split; [done |]; done).
  - destruct deref; cbn in E; done.
Qed.

Lemma immediate_arg_symbol l found s : immediate_arg l found = Ok (Some (ASM_CONST_SYMBOL s)) ->
  found = Some (ASM_CONST_SYMBOL s) \/ existsb is_symbol_const l = true.
Proof.
  revert found. induction l as [|a l IH]; intros found E; cbn in E; [left; congruence |].
  cbn. destruct (value_u a) as [r|r o|c] eqn:Ea; unfold is_symbol_const at 1; rewrite Ea; cbn [orb].
  - by apply IH.
  - by apply IH.
  - destruct found; [done |]. destruct (IH _ E) as [[= ->]|H]; [by right | right; by rewrite H, orb_true_r].
Qed.

Lemma add_immediate_fixups fl e i row fl' e' :
  add_immediate fl e i (row_immediate_size row) (row_fixup_type row) = Ok (fl', e') ->
  has_room row i = true -> imm_fixup e = None ->
  exists fi, fl' = fl ++ opt_list fi /\ fresh fi /\
    imm_fixup e' = (match fi with Some _ => Some (length fl) | None => None end) /\
    (fi <> None -> 4 <= immediate_size e') /\ disp_fixup e' = disp_fixup e /\
    displacement_size e' = displacement_size e.
Proof.
  intros E Hr Hi. unfold add_immediate in E. destruct (row_immediate_size row =? -1).
  { mstep. exists None. rewrite app_nil_r. done. }
  mstep. destruct a as [[x|x w|s]|]; try done; mstep.
  - exists None. by rewrite app_nil_r.
  - exists None. by rewrite app_nil_r.
  - eexists (Some (new_fixup _ s)). repeat (split; [done |]). split; [| done]. intros _. cbn.
    apply immediate_arg_symbol in E0 as [?|Hs]; [done |]. unfold has_room in Hr. rewrite Hs in Hr. bsplit.
    rewrite orb_false_r in *. bsplit. done.
Qed.

Lemma rex_bits_same e e' : rex_bits e = Ok e' -> exists r, e' = set_rex e r.
Proof. unfold rex_bits. intros E. mstep. eauto. Qed.

Lemma operands_in order i reg mem : operands order i = Ok (reg, mem) -> mem ∈ args i.
Proof.
  unfold operands. destruct order, (args i) as [|a [|b l]]; intros E; try done; injection E as <- <-; set_solver.
Qed.

(** The fixups a plan adds: at most one for the displacement and one for the
    immediate, each with room in the bytes to be written. *)
Lemma plan_fixups fl i row fl' e : plan fl i row = Ok (fl', e) -> has_room row i = true ->
  exists fd fi, fl' = fl ++ opt_list fd ++ opt_list fi /\ fresh fd /\ fresh fi /\
    disp_fixup e = (match fd with Some _ => Some (length fl) | None => None end) /\
    imm_fixup e = (match fi with Some _ => Some (length fl + length (opt_list fd))%nat | None => None end) /\
    (fd <> None -> displacement_size e = 4) /\ (fi <> None -> 4 <= immediate_size e).
Proof.
  intros E Hr. unfold plan in E.
  apply res_bind_Ok in E as (u0 & _ & E). apply res_bind_Ok in E as (e0 & E0 & E).
  apply res_bind_Ok in E as ([fl1 e1] & E1 & E). apply res_bind_Ok in E as (high & _ & E).
  apply res_bind_Ok in E as ([fl2 e2] & E3 & E). apply res_bind_Ok in E as (e3 & E4 & E).
  injection E as <- <-. assert (Hargs : forall v, v ∈ args i -> offset_has_room v = true).
  { intros v Hv. unfold has_room in Hr. bsplit. rewrite forallb_forall in *. by apply H, list_elem_of_In. }
  assert (H0 : disp_fixup e0 = None /\ imm_fixup e0 = None).
  { destruct (reg_in_opcode row); mstep; done. }
  destruct H0 as [Hd0 Hi0].
  assert (H1 : exists fd, fl1 = fl ++ opt_list fd /\ fresh fd /\
    disp_fixup e1 = (match fd with Some _ => Some (length fl) | None => None end) /\
    (fd <> None -> displacement_size e1 = 4) /\ imm_fixup e1 = None).
  { destruct (reg_and_rm row).
    - apply res_bind_Ok in E1 as ([reg mem] & Eo & E1). apply res_bind_Ok in E1 as (n & _ & E1).
      destruct (add_mod_rm_fixups _ _ _ _ _ _ E1 (Hargs mem (operands_in _ _ _ _ Eo)) Hd0)
        as (fd & ? & ? & ? & ? & Hi & _). exists fd. by rewrite Hi.
    - destruct (negb _).
      + apply res_bind_Ok in E1 as (mem & Em & E1). assert (Hin : mem ∈ args i).
        { destruct (args i) as [|m ms]; cbn in Em; [done |]. injection Em as ->. set_solver. }
        destruct (add_mod_rm_fixups _ _ _ _ _ _ E1 (Hargs mem Hin) Hd0)
        as (fd & ? & ? & ? & ? & Hi & _). exists fd. by rewrite Hi.
      + mstep. exists None. by rewrite app_nil_r. }
  destruct H1 as (fd & -> & Hfd & Hd1 & Hs1 & Hi1).
  destruct (add_immediate_fixups _ _ _ _ _ _ E3 Hr) as (fi & -> & Hfi & Hi2 & Hs2 & Hd2 & Hds2);
    [by destruct high |].
  destruct (rex_bits_same _ _ E4) as [r ->]. exists fd, fi. rewrite <- app_assoc. split; [done |].
  split; [done |]. split; [done |]. cbn. rewrite Hd2, Hi2, Hds2. split; [by destruct high |].
  split; [by rewrite length_app |]. split; [intros H; destruct high; cbn; by apply Hs1 | done].
Qed.
Lemma write_int_app output x size out : write_int output x size = Ok out ->
  out = output ++ le_bytes x (Z.to_nat size) /\ 0 <= size <= 8.
Proof.
  intros E. assert (Hs : 0 <= size <= 8).
  { unfold write_int, write_int_at in E. destruct (_ && _) eqn:Eb; [| done]. bsplit. lia. }
  rewrite write_int_end in E by done. by injection E as <-.
Qed.

Lemma fixups_ok_app len len' fl new : fixups_ok len fl -> len <= len' -> fixups_ok len' new ->
  (forall g, g ∈ new -> in_text g -> len <= fixup_offset g) -> fixups_ok len' (fl ++ new).
Proof.
  induction fl as [|f fl IH]; intros Hfl Hle Hnew Hg; [done |]. cbn in *. destruct Hfl as [Hf Hfl].
  split; [| by apply IH]. intros Ht. destruct (Hf Ht) as (H1 & H2 & H3 & H4).
  split; [done |]. split; [lia |]. split; [done |]. intros g [Hin|Hin]%elem_of_app Hgt; [by apply H4 |].
  specialize (Hg g Hin Hgt). left. lia.
Qed.

Lemma alter_mid {A} (f : A -> A) l x r : alter f (length l) (l ++ x :: r) = l ++ f x :: r.
Proof. by rewrite alter_app_r_alt, Nat.sub_diag by lia. Qed.

Lemma alter_mid1 {A} (f : A -> A) l d x r : alter f (length l + 1)%nat (l ++ d :: x :: r) = l ++ d :: f x :: r.
Proof. rewrite alter_app_r_alt by lia. by replace (length l + 1 - length l)%nat with 1%nat by lia. Qed.

(** Encoding an instruction keeps the fixups in order. *)
Lemma encode_fixups output fl i row out fl' : encode_instr output fl i row = Ok (out, fl') ->
  has_room row i = true -> fixups_ok (out_size output) fl ->
  fixups_ok (out_size out) fl' /\ out_size output <= out_size out.
Proof.
  intros E Hr Hok. unfold encode_instr in E. apply res_bind_Ok in E as ([fl1 e] & Ep & E).
  apply res_bind_Ok in E as (head & _ & E). apply res_bind_Ok in E as (out1 & E1 & E).
  apply res_bind_Ok in E as (out2 & E2 & E). injection E as <- <-.
  destruct (plan_fixups _ _ _ _ _ Ep Hr) as (fd & fi & -> & Hfd & Hfi & Ed & Ei & Hds & His).
  set (o0 := output ++ head) in *.
  assert (H1 : out_size o0 <= out_size out1 /\ (fd <> None -> out_size out1 = out_size o0 + 4)).
  { unfold out_size. destruct (Z.eqb_spec (displacement_size e) (-1)) as [Hm|]; cbn [negb] in E1.
    - mstep. split; [lia |]. intros H. specialize (Hds H). lia.
    - destruct (write_int_app _ _ _ _ E1) as [-> Hb]. rewrite length_app, le_bytes_length. split; [lia |].
      intros H. rewrite (Hds H). lia. }
  assert (H2 : out_size out1 <= out_size out2 /\ (fi <> None -> out_size out1 + 4 <= out_size out2)).
  { unfold out_size. destruct (Z.eqb_spec (immediate_size e) (-1)) as [Hm|]; cbn [negb] in E2.
    - mstep. split; [lia |]. intros H. specialize (His H). lia.
    - destruct (write_int_app _ _ _ _ E2) as [-> Hb]. rewrite length_app, le_bytes_length. split; [lia |].
      intros H. specialize (His H). lia. }
  assert (H0 : out_size output <= out_size o0) by (unfold out_size, o0; rewrite length_app; lia).
  assert (Hp : 0 <= out_size output) by (unfold out_size; lia).
  destruct H1 as [H1 H1'], H2 as [H2 H2']. split; [| lia]. rewrite Ed, Ei.
  destruct fd as [d|], fi as [im|]; cbn [opt_list app length set_fixup_offset set_next_instr fresh] in *.
  - specialize (H1' ltac:(done)). specialize (H2' ltac:(done)).
    rewrite alter_mid, alter_mid1, alter_mid, alter_mid1.
    apply (fixups_ok_app (out_size output)); [done | lia | |].
    + cbn. destruct Hfd as [_ Sd], Hfi as [_ Si]. split; [intros _; repeat split; try done; try lia |].
      * intros g ->%list_elem_of_singleton _. left. cbn. lia.
      * split; [| done]. intros _. repeat split; try done; try lia. intros g Hg. by apply not_elem_of_nil in Hg.
    + intros g [->|[->|Hg]%elem_of_cons]%elem_of_cons _; [cbn; lia.. |]. by apply not_elem_of_nil in Hg.
  - specialize (H1' ltac:(done)). rewrite !alter_mid.
    apply (fixups_ok_app (out_size output)); [done | lia | |].
    + cbn. destruct Hfd as [_ Sd]. split; [| done]. intros _. repeat split; try done; try lia.
      intros g Hg. by apply not_elem_of_nil in Hg.
    + intros g [->|Hg]%elem_of_cons _; [cbn; lia |]. by apply not_elem_of_nil in Hg.
  - specialize (H2' ltac:(done)). rewrite Nat.add_0_r, !alter_mid.
    apply (fixups_ok_app (out_size output)); [done | lia | |].
    + cbn. destruct Hfi as [_ Sd]. split; [| done]. intros _. repeat split; try done; try lia.
      intros g Hg. by apply not_elem_of_nil in Hg.
    + intros g [->|Hg]%elem_of_cons _; [cbn; lia |]. by apply not_elem_of_nil in Hg.
  - rewrite !app_nil_r. rewrite <- (app_nil_r fl). apply (fixups_ok_app (out_size output)); [done | lia | done |].
    intros g Hg. by apply not_elem_of_nil in Hg.
Qed.
(** The 4-byte field at an offset. *)
Definition field (l : list Z) (o : Z) : list Z := take 4 (drop (Z.to_nat o) l).

Lemma write_field out o x out' : write_int_at out o x 4 = Ok out' -> o + 4 <= out_size out ->
  out_size out' = out_size out /\ field out' o = le_bytes x 4 /\
  forall o', 0 <= o' -> o' + 4 <= o \/ o + 4 <= o' -> field out' o' = field out o'.
Proof.
  unfold write_int_at, field, out_size. intros E Hb. destruct (_ && _) eqn:Hg; [| done]. bsplit.
  change (Z.to_nat 4) with 4%nat in E. pose proof (le_bytes_length x 4) as Hlb.
  generalize dependent (le_bytes x 4). intros b E Hlb. injection E as <-.
  rewrite !length_app, length_take, length_drop, Hlb.
  split; [lia |]. split.
  - rewrite drop_app_length' by (rewrite length_take; lia). by rewrite take_app_length' by done.
  - intros o' Ho' [Hl|Hr].
    + rewrite drop_app_le by (rewrite length_take; lia). rewrite take_app_le by (rewrite length_drop, length_take; lia).
      rewrite skipn_firstn_comm, take_take. f_equal. lia.
    + rewrite drop_app_ge by (rewrite length_take; lia). rewrite drop_app_ge by (rewrite length_take, Hlb; lia).
      rewrite drop_drop. do 2 f_equal. rewrite length_take, Hlb. lia.
Qed.

(** The displacement of a relative fixup. *)
Definition fixup_value (f : Fixup) (sym : AsmSymbol) : Z := i32 (i32 (sym_offset sym) - i32 (next_instr_offset f)).

Lemma apply_fixups_ok syms fl : forall out out', fixups_ok (out_size out) fl ->
  foldM (apply_fixup syms) out fl = Ok out' ->
  out_size out' = out_size out /\
  (forall f sym, f ∈ fl -> syms !! fixup_symbol f = Some sym -> skip_fixup f sym = false ->
     field out' (fixup_offset f) = le_bytes (u64 (fixup_value f sym)) 4) /\
  (forall o, 0 <= o -> (forall f, f ∈ fl -> in_text f -> o + 4 <= fixup_offset f \/ fixup_offset f + 4 <= o) ->
     field out' o = field out o).
Proof.
  induction fl as [|f fl IH]; intros out out' Hok E; cbn in E.
  { mstep. split; [done |]. split; [intros f sym Hf; by apply not_elem_of_nil in Hf | done]. }
  destruct Hok as [Hf Hok]. apply res_bind_Ok in E as (out1 & E1 & E). unfold apply_fixup in E1.
  apply res_bind_Ok in E1 as (sym & Es & E1).
  assert (Esym : syms !! fixup_symbol f = Some sym) by (destruct (syms !! fixup_symbol f); cbn in Es; congruence).
  destruct (skip_fixup f sym) eqn:Eskip.
  - injection E1 as ->. destruct (IH _ _ Hok E) as (H1 & H2 & H3). split; [done |]. split.
    + intros g s [->|Hg]%elem_of_cons Eg Hs; [| by apply H2]. congruence.
    + intros o Ho Hap. apply H3; [done |]. intros g Hg. apply Hap. set_solver.
  - assert (Ht : in_text f).
    { unfold skip_fixup in Eskip. bsplit. unfold in_text. destruct (bool_decide (fixup_section f = TEXT_SECTION)) eqn:Eb; [| done].
      by apply bool_decide_eq_true in Eb. }
    destruct (Hf Ht) as (Ho & Hl & Hsz & Hap). rewrite Hsz in E1.
    destruct (write_field _ _ _ _ E1 Hl) as (W1 & W2 & W3).
    destruct (IH out1 out') as (H1 & H2 & H3); [by rewrite W1 | done |]. split; [congruence |]. split.
    + intros g s [->|Hg]%elem_of_cons Eg Hs; [| by apply H2].
      assert (s = sym) as -> by congruence. rewrite H3; [done | done |].
      intros g Hg Hgt. destruct (Hap g Hg Hgt); [by left | by right].
    + intros o Ho' Hapo. rewrite H3; [| done | intros g Hg; apply Hapo; set_solver].
      apply W3; [done |]. apply Hapo; [set_solver | done].
Qed.

Section AssembleLemmas.
Context (select : AsmInstr -> res EncodingRow).

(** Every instruction leaves room for its fixups. *)
Definition rooms (l : list AsmInstr) : Prop := forall i row, i ∈ l -> select i = Ok row -> has_room row i = true.

Lemma assemble_all_ok l : rooms l -> forall m m', fixups_ok (out_size (text_bytes m)) (fixups m) ->
  foldM (assemble_one select) m l = Ok m' -> fixups_ok (out_size (text_bytes m')) (fixups m').
Proof.
  induction l as [|i l IH]; intros Hr m m' Hok E; cbn in E; [by mstep |].
  apply res_bind_Ok in E as (m1 & E1 & E). apply (IH ltac:(intros j row Hj; apply Hr; set_solver) m1 m'); [| done].
  unfold assemble_one in E1. apply res_bind_Ok in E1 as (row & Er & E1).
  apply res_bind_Ok in E1 as ([out fl] & Ee & E1).
  destruct (encode_fixups _ _ _ _ _ _ Ee (Hr i row ltac:(set_solver) Er) Hok) as [H _].
  destruct (label i); mstep; done.
Qed.

(** A label is bound to the length of the code before its instruction. *)
Lemma assemble_one_label m i m' s : assemble_one select m i = Ok m' -> label i = Some s ->
  exists sym, symbols m' !! s = Some sym /\ sym_offset sym = out_size (text_bytes m).
Proof.
  intros E El. unfold assemble_one in E. rewrite El in E. apply res_bind_Ok in E as (row & _ & E).
  apply res_bind_Ok in E as ([out fl] & _ & E). apply res_bind_Ok in E as (sym & Es & E). mstep.
  eexists (mkAsmSymbol _ _ _ _ _ _ _). split; [apply list_lookup_insert_eq | reflexivity].
  cbn in Es |- *. destruct (symbols m !! s) eqn:Eq; [| done]. by eapply lookup_lt_Some.
Qed.

Lemma assemble_one_keeps m i m' s : assemble_one select m i = Ok m' -> label i <> Some s ->
  symbols m' !! s = symbols m !! s.
Proof.
  intros E El. unfold assemble_one in E. apply res_bind_Ok in E as (row & _ & E).
  apply res_bind_Ok in E as ([out fl] & _ & E). destruct (label i) as [s'|]; mstep; [| done].
  cbn. rewrite list_lookup_insert_ne; [done | congruence].
Qed.

Lemma assemble_keeps l s : (forall i, i ∈ l -> label i <> Some s) -> forall m m',
  foldM (assemble_one select) m l = Ok m' -> symbols m' !! s = symbols m !! s.
Proof.
  induction l as [|i l IH]; intros Hl m m' E; cbn in E; [by mstep |].
  apply res_bind_Ok in E as (m1 & E1 & E). rewrite (IH ltac:(set_solver) m1 m' E).
  apply (assemble_one_keeps m i); [done | apply Hl; set_solver].
Qed.

End AssembleLemmas.
(** ** Properties *)

(** Encoding is decodable: for a row with a ModR/M byte and operands the
    encoder supports, [encode_instr] appends the row's prefixes and opcode and
    then bytes from which the processor's ModR/M, SIB and displacement rules read
    back exactly the register number, the memory operand (base register and
    signed offset) and the immediate's bytes; the REX byte has W as the row asks
    and is present when a byte register needs it. *)
Theorem encode_instr_decodes output fl i row n mem o im high
    (Hop : 1 <= out_size (row_opcode row) <= 3) (Hrio : reg_in_opcode row = false)
    (Hm : modrm_operands row i = Some (n, mem)) (Ho : operand_of mem = Some o) (Hv : value_ok mem)
    (Him : imm_bytes row i = Some im) (Hhigh : needs_rex (args i) = Ok high) :
  exists fl' rex tail, encode_instr output fl i row = Ok (output ++ instr_prefix row rex ++ tail, fl') /\
    decode_rm rex tail = Some (n, o, im) /\
    rex / 8 mod 2 = Z.b2z (use_rex_w row) /\ (high = true -> rex <> 0).
Proof.
  destruct (plan_modrm fl i row n mem o im high Hop Hrio Hm Ho Hv Him Hhigh) as
    (fl1 & e & rex & Ep & Hsh & Hmr & Hrg & Hopc & Hoso & Hox & Hrexb & Hrex & HW & Hh & Himm).
  unfold encode_instr. rewrite Ep. cbn [mbind res_bind]. unfold head_bytes. rewrite Hopc.
  destruct (row_opcode row) as [|b rest] eqn:Eop; [unfold out_size in Hop; cbn in Hop; lia |].
  rewrite Hox, Hmr, Hoso, Hrexb. change (Z.land 0 7) with 0. rewrite Z.lor_0_r. cbn [mbind res_bind].
  pose proof (disp_write e o Hsh) as Hdisp. rewrite Hdisp. cbn [mbind res_bind]. rewrite Himm. cbn [mbind res_bind].
  set (tail := [modrm_byte e] ++ (if has_sib e then [sib_byte e] else []) ++ disp_bytes e ++ im).
  eexists _, rex, tail. split.
  - do 2 f_equal. unfold tail, instr_prefix. rewrite Eop. rewrite <- !app_assoc. done.
  - split; [| done]. rewrite <- Hrg. apply decode_shape; [done | | done]. rewrite Hrg. by eapply modrm_operands_bound.
Qed.

(** ADD with r9 and a 32-bit offset from r12: add [r12+1000], r9 *)
Lemma encode_instr_decodes_witness :
  let mem := mkAsmValue true (ASM_VALUE_OFFSET_REGISTER (mkRegister 64 0 (PHYS_REG REG_CLASS_R12)) (ASM_CONST_IMMEDIATE 1000)) in
  let reg := mkAsmValue false (ASM_VALUE_REGISTER (mkRegister 64 64 (PHYS_REG REG_CLASS_R9))) in
  let row := mkRow MR true false [1] true (-1) (-1) false FIXUP_ABSOLUTE in
  exists fl' rex tail, encode_instr [144] [] (mkAsmInstr ADD [mem; reg] [] None) row
      = Ok ([144] ++ instr_prefix row rex ++ tail, fl') /\
    decode_rm rex tail = Some (9, OMem 12 1000, []) /\
    rex / 8 mod 2 = Z.b2z true /\ (false = true -> rex <> 0).
Proof.
  intros mem reg row.
  apply (encode_instr_decodes [144] [] (mkAsmInstr ADD [mem; reg] [] None) row 9 mem (OMem 12 1000) [] false);
    try done; by vm_compute.
Defined.

(** [is_const_and_fits] computes the check its comment describes: an
    immediate fits when it is the zero- or sign-extension of its low [ext_width]
    bits and those bits equal the sign- or zero-extension of its low [imm_width]
    bits. *)
Theorem is_const_and_fits_spec deref imm ext_width imm_width sext (Himm : is_u 64 imm)
    (Hext : ext_width = 8 \/ ext_width = 16 \/ ext_width = 32 \/ ext_width = 64)
    (Hw : imm_width = 8 \/ imm_width = 16 \/ imm_width = 32) (Hle : imm_width <= ext_width) :
  exists fits, is_const_and_fits (mkAsmValue deref (ASM_VALUE_CONST (ASM_CONST_IMMEDIATE imm))) ext_width imm_width sext
    = Ok fits /\
    (fits = true <->
      (imm = wrap ext_width imm \/ imm = u64 (sgn ext_width imm)) /\
      wrap ext_width imm = (if sext then wrap ext_width (sgn imm_width imm) else wrap imm_width imm)).
Proof.
  unfold is_const_and_fits. cbn [value_u]. replace (imm_width <=? ext_width) with true by zcases.
  cbn [PRECONDITION ASSERT mbind res_bind]. replace (imm_width =? 64) with false by zcases.
  set (bad := negb (ext_width =? 64) && _ && _).
  exists (negb bad && (wrap ext_width imm =? (if sext then wrap ext_width (sgn imm_width imm) else wrap imm_width imm))).
  pose proof (wrap_bound imm_width imm ltac:(lia)) as Hc.
  pose proof (wrap_bound ext_width imm ltac:(lia)) as Hb.
  assert (Hcanon : (if ext_width =? 64 then imm else Z.land imm (Z.shiftl 1 ext_width - 1)) = wrap ext_width imm).
  { rewrite land_mask by lia. destruct (Z.eqb_spec ext_width 64) as [->|]; [by rewrite wrap_small | done]. }
  assert (Hextend : (if sext && negb (Z.land (wrap imm_width imm) (Z.shiftl 1 (imm_width - 1)) =? 0)
            then Z.lor (wrap imm_width imm) (u64 (Z.shiftl (Z.shiftl 1 (ext_width - imm_width) - 1) imm_width))
            else wrap imm_width imm) = if sext then wrap ext_width (sgn imm_width imm) else wrap imm_width imm).
  { destruct sext; [| done]. cbn [andb]. rewrite land_sign_bit by lia. by apply sext_wrap; lia. }
  split.
  - rewrite Hcanon, (land_mask imm imm_width), Hextend by lia. by destruct bad.
  - assert (Hbad : bad = false <-> imm = wrap ext_width imm \/ imm = u64 (sgn ext_width imm)).
    { subst bad. by apply representable. }
    rewrite andb_true_iff, negb_true_iff, Z.eqb_eq, Hbad. done.
Qed.

Lemma is_const_and_fits_spec_witness : exists fits,
  is_const_and_fits (asm_imm (2 ^ 64 - 4)) 64 8 true = Ok fits /\
    (fits = true <->
      (2 ^ 64 - 4 = wrap 64 (2 ^ 64 - 4) \/ 2 ^ 64 - 4 = u64 (sgn 64 (2 ^ 64 - 4))) /\
      wrap 64 (2 ^ 64 - 4) = wrap 64 (sgn 8 (2 ^ 64 - 4))).
Proof. apply (is_const_and_fits_spec false (2 ^ 64 - 4) 64 8 true); [done | tauto | tauto | lia]. Defined.



(** A symbol offset on an ordinary base register loses its displacement: for
    mov [rax + symbol], rcx the encoder sets the 32-bit displacement mode and
    registers a fixup, but writes no displacement bytes, so the instruction cannot
    be decoded and the fixup points behind it. *)
Theorem symbol_offset_has_no_displacement :
  let mem := mkAsmValue true (ASM_VALUE_OFFSET_REGISTER (mkRegister 64 0 (PHYS_REG REG_CLASS_A)) (ASM_CONST_SYMBOL 0)) in
  let reg := mkAsmValue false (ASM_VALUE_REGISTER (mkRegister 64 64 (PHYS_REG REG_CLASS_C))) in
  let row := mkRow MR true false [137] true (-1) (-1) false FIXUP_ABSOLUTE in
  encode_instr [] [] (mkAsmInstr MOV [mem; reg] [] None) row
    = Ok ([72; 137; 136], [mkFixup FIXUP_ABSOLUTE TEXT_SECTION 3 3 4 0]) /\
  decode_rm 72 [136] = None.
Proof. split; vm_compute; reflexivity. Qed.

(** Offsets from 2^31 to 2^32 - 1 pass the size check, although the processor
    sign-extends the 32-bit displacement: mov [rax + 0xFFFFFFFF], rcx is encoded
    as an access below the base. *)
Theorem large_offset_wraps :
  let mem := mkAsmValue true (ASM_VALUE_OFFSET_REGISTER (mkRegister 64 0 (PHYS_REG REG_CLASS_A)) (ASM_CONST_IMMEDIATE 4294967295)) in
  let reg := mkAsmValue false (ASM_VALUE_REGISTER (mkRegister 64 64 (PHYS_REG REG_CLASS_C))) in
  let row := mkRow MR true false [137] true (-1) (-1) false FIXUP_ABSOLUTE in
  encode_instr [] [] (mkAsmInstr MOV [mem; reg] [] None) row = Ok ([72; 137; 136; 255; 255; 255; 255], []) /\
  decode_rm 72 [136; 255; 255; 255; 255] = Some (1, OMem 0 (-1), []).
Proof. split; vm_compute; reflexivity. Qed.
