(* ===== verification/Encodings.v ===== *)
(** * The table of encodings

    [src/src/backend/x64.enc] lists the instructions with the patterns of their operands
    and their opcodes; [src/dsl/enc.py] generates [assemble_instr] from it, a switch over
    the operations that tries the rows of an operation in order. The table is data here,
    and [select] is what the generated function does with it: the row whose encoding
    [encode_instr] gets. *)

From S2P Require Import Prelude Asm.

Local Open Scope Z_scope.

(** ** Rows *)

(** The patterns of operands that the table has. *)
Inductive Arg :=
| A_rm (width : Z) | A_r (width : Z) | A_xmm | A_xmm_m (width : Z) | A_imm (width : Z) | A_rel
| A_reg (class : RegClass) (width : Z).

(** /r, /0 to /7, or neither *)
Inductive Slash := NoSlash | SlashR | SlashN (n : Z).

Record Encoding := enc {
  enc_op : AsmOp;
  enc_args : list Arg;
  enc_rex_w : bool;
  enc_oso : bool;
  enc_opcode : list Z;
  enc_slash : Slash;
  enc_reg_in_opcode : bool;
  enc_immediate_size : Z
}.

Definition x64 : list Encoding :=
  [
   enc ADD [A_rm 8; A_r 8] false false [0x00] SlashR false (-1);
   enc ADD [A_rm 32; A_imm 32] false false [0x81] (SlashN 0) false 4;
   enc ADD [A_rm 32; A_r 32] false false [0x01] SlashR false (-1);
   enc ADD [A_rm 64; A_imm 8] true false [0x83] (SlashN 0) false 1;
   enc ADD [A_rm 64; A_imm 32] true false [0x81] (SlashN 0) false 4;
   enc ADD [A_rm 64; A_r 64] true false [0x01] SlashR false (-1);
   enc ADDSS [A_xmm; A_xmm_m 32] false false [0xF3; 0x0F; 0x58] SlashR false (-1);
   enc ADDSD [A_xmm; A_xmm_m 32] false false [0xF2; 0x0F; 0x58] SlashR false (-1);
   enc AND [A_rm 32; A_r 32] false false [0x21] SlashR false (-1);
   enc AND [A_rm 32; A_imm 8] false false [0x83] (SlashN 4) false 1;
   enc AND [A_rm 32; A_imm 32] false false [0x81] (SlashN 4) false 4;
   enc AND [A_rm 64; A_imm 8] true false [0x83] (SlashN 4) false 1;
   enc AND [A_rm 64; A_imm 32] true false [0x81] (SlashN 4) false 4;
   enc AND [A_rm 64; A_r 64] true false [0x21] SlashR false (-1);
   enc CALL [A_rel] false false [0xE8] NoSlash false 4;
   enc CALL [A_rm 64] false false [0xFF] (SlashN 2) false (-1);
   enc CDQ [] false false [0x99] NoSlash false (-1);
   enc CQO [] true false [0x99] NoSlash false (-1);
   enc CMP [A_rm 8; A_r 8] false false [0x38] SlashR false (-1);
   enc CMP [A_rm 8; A_imm 8] false false [0x80] (SlashN 7) false 1;
   enc CMP [A_rm 16; A_r 16] false true [0x39] SlashR false (-1);
   enc CMP [A_rm 32; A_imm 32] false false [0x81] (SlashN 7) false 4;
   enc CMP [A_rm 32; A_r 32] false false [0x39] SlashR false (-1);
   enc CMP [A_rm 64; A_imm 32] true false [0x81] (SlashN 7) false 4;
   enc CMP [A_rm 64; A_r 64] true false [0x39] SlashR false (-1);
   enc CVTSI2SS [A_xmm; A_rm 32] false false [0xF3; 0x0F; 0x2A] SlashR false (-1);
   enc CVTSI2SD [A_xmm; A_rm 32] false false [0xF2; 0x0F; 0x2A] SlashR false (-1);
   enc CVTSI2SS [A_xmm; A_rm 64] true false [0xF3; 0x0F; 0x2A] SlashR false (-1);
   enc CVTSI2SD [A_xmm; A_rm 64] true false [0xF2; 0x0F; 0x2A] SlashR false (-1);
   enc CVTSS2SI [A_r 32; A_xmm_m 32] false false [0xF3; 0x0F; 0x2D] SlashR false (-1);
   enc CVTSD2SI [A_r 32; A_xmm_m 32] false false [0xF2; 0x0F; 0x2D] SlashR false (-1);
   enc CVTSS2SD [A_xmm; A_xmm_m 32] false false [0xF3; 0x0F; 0x5A] SlashR false (-1);
   enc CVTSD2SS [A_xmm; A_xmm_m 32] false false [0xF2; 0x0F; 0x5A] SlashR false (-1);
   enc IMUL [A_r 32; A_rm 32] false false [0x0F; 0xAF] SlashR false (-1);
   enc IMUL [A_r 32; A_rm 32; A_imm 32] false false [0x69] SlashR false 4;
   enc IMUL [A_r 64; A_rm 64] true false [0x0F; 0xAF] SlashR false (-1);
   enc IMUL [A_r 64; A_rm 64; A_imm 32] true false [0x69] SlashR false 4;
   enc IDIV [A_rm 32] false false [0xF7] (SlashN 7) false (-1);
   enc IDIV [A_rm 64] true false [0xF7] (SlashN 7) false (-1);
   enc JE [A_rel] false false [0x0F; 0x84] NoSlash false 4;
   enc JNE [A_rel] false false [0x0F; 0x85] NoSlash false 4;
   enc JG [A_rel] false false [0x0F; 0x8F] NoSlash false 4;
   enc JGE [A_rel] false false [0x0F; 0x8D] NoSlash false 4;
   enc JL [A_rel] false false [0x0F; 0x8C] NoSlash false 4;
   enc JLE [A_rel] false false [0x0F; 0x8E] NoSlash false 4;
   enc JA [A_rel] false false [0x0F; 0x87] NoSlash false 4;
   enc JAE [A_rel] false false [0x0F; 0x83] NoSlash false 4;
   enc JB [A_rel] false false [0x0F; 0x82] NoSlash false 4;
   enc JBE [A_rel] false false [0x0F; 0x86] NoSlash false 4;
   enc JMP [A_rel] false false [0xE9] NoSlash false 4;
   enc MOV [A_rm 8; A_r 8] false false [0x88] SlashR false (-1);
   enc MOV [A_r 8; A_rm 8] false false [0x8A] SlashR false (-1);
   enc MOV [A_rm 8; A_imm 8] false false [0xC6] (SlashN 0) false 1;
   enc MOV [A_r 8; A_imm 8] false false [0xB0] NoSlash true 1;
   enc MOV [A_rm 16; A_r 16] false true [0x89] SlashR false (-1);
   enc MOV [A_r 16; A_rm 16] false true [0x8B] SlashR false (-1);
   enc MOV [A_rm 16; A_imm 16] false true [0xC7] (SlashN 0) false 2;
   enc MOV [A_rm 32; A_r 32] false false [0x89] SlashR false (-1);
   enc MOV [A_r 32; A_rm 32] false false [0x8B] SlashR false (-1);
   enc MOV [A_rm 32; A_imm 32] false false [0xC7] (SlashN 0) false 4;
   enc MOV [A_rm 64; A_r 64] true false [0x89] SlashR false (-1);
   enc MOV [A_r 64; A_rm 64] true false [0x8B] SlashR false (-1);
   enc MOV [A_rm 64; A_imm 32] true false [0xC7] (SlashN 0) false 4;
   enc MOV [A_r 64; A_imm 64] true false [0xB8] NoSlash true 8;
   enc MOVSX [A_r 16; A_rm 8] false true [0x0F; 0xBE] SlashR false (-1);
   enc MOVSX [A_r 32; A_rm 8] false false [0x0F; 0xBE] SlashR false (-1);
   enc MOVSX [A_r 64; A_rm 8] true false [0x0F; 0xBE] SlashR false (-1);
   enc MOVSX [A_r 64; A_rm 32] true false [0x63] SlashR false (-1);
   enc MOVZX [A_r 32; A_rm 8] false false [0x0F; 0xB6] SlashR false (-1);
   enc MOVZX [A_r 32; A_rm 16] false false [0x0F; 0xB7] SlashR false (-1);
   enc MOVZX [A_r 64; A_rm 8] true false [0x0F; 0xB6] SlashR false (-1);
   enc MOVZX [A_r 64; A_rm 16] true false [0x0F; 0xB7] SlashR false (-1);
   enc MOVSS [A_xmm; A_xmm_m 32] false false [0xF3; 0x0F; 0x10] SlashR false (-1);
   enc MOVSS [A_xmm_m 32; A_xmm] false false [0xF3; 0x0F; 0x11] SlashR false (-1);
   enc MOVSD [A_xmm; A_xmm_m 64] false false [0xF2; 0x0F; 0x10] SlashR false (-1);
   enc MOVSD [A_xmm_m 64; A_xmm] false false [0xF2; 0x0F; 0x11] SlashR false (-1);
   enc MOVAPS [A_xmm; A_xmm_m 128] false false [0x0F; 0x28] SlashR false (-1);
   enc MOVAPS [A_xmm_m 128; A_xmm] false false [0x0F; 0x29] SlashR false (-1);
   enc MULSS [A_xmm; A_xmm_m 128] false false [0xF3; 0x0F; 0x59] SlashR false (-1);
   enc MULSD [A_xmm; A_xmm_m 128] false false [0xF2; 0x0F; 0x59] SlashR false (-1);
   enc NEG [A_rm 32] false false [0xF7] (SlashN 3) false (-1);
   enc NEG [A_rm 64] true false [0xF7] (SlashN 3) false (-1);
   enc NOP [] false false [0x90] NoSlash false (-1);
   enc NOT [A_rm 32] false false [0xF7] (SlashN 2) false (-1);
   enc NOT [A_rm 64] true false [0xF7] (SlashN 2) false (-1);
   enc OR [A_rm 32; A_imm 8] false false [0x83] (SlashN 1) false 1;
   enc OR [A_rm 32; A_r 32] false false [0x09] SlashR false (-1);
   enc OR [A_rm 64; A_imm 8] true false [0x83] (SlashN 1) false 1;
   enc OR [A_rm 64; A_r 64] true false [0x09] SlashR false (-1);
   enc POP [A_r 64] false false [0x58] NoSlash true (-1);
   enc PUSH [A_r 64] false false [0x50] NoSlash true (-1);
   enc RET [] false false [0xC3] NoSlash false (-1);
   enc SETE [A_rm 8] false false [0x0F; 0x94] (SlashN 0) false (-1);
   enc SETNE [A_rm 8] false false [0x0F; 0x95] (SlashN 0) false (-1);
   enc SETG [A_rm 8] false false [0x0F; 0x9F] (SlashN 0) false (-1);
   enc SETGE [A_rm 8] false false [0x0F; 0x9D] (SlashN 0) false (-1);
   enc SETL [A_rm 8] false false [0x0F; 0x9C] (SlashN 0) false (-1);
   enc SETLE [A_rm 8] false false [0x0F; 0x9E] (SlashN 0) false (-1);
   enc SETA [A_rm 8] false false [0x0F; 0x97] (SlashN 0) false (-1);
   enc SETAE [A_rm 8] false false [0x0F; 0x93] (SlashN 0) false (-1);
   enc SETB [A_rm 8] false false [0x0F; 0x92] (SlashN 0) false (-1);
   enc SETBE [A_rm 8] false false [0x0F; 0x96] (SlashN 0) false (-1);
   enc SHL [A_rm 32; A_imm 8] false false [0xC1] (SlashN 4) false 1;
   enc SHL [A_rm 32; A_reg REG_CLASS_C 8] false false [0xD3] (SlashN 4) false (-1);
   enc SHL [A_rm 64; A_imm 8] true false [0xC1] (SlashN 4) false 1;
   enc SHL [A_rm 64; A_reg REG_CLASS_C 8] true false [0xD3] (SlashN 4) false (-1);
   enc SHR [A_rm 32; A_imm 8] false false [0xC1] (SlashN 5) false 1;
   enc SHR [A_rm 32; A_reg REG_CLASS_C 8] false false [0xD3] (SlashN 5) false (-1);
   enc SHR [A_rm 64; A_imm 8] true false [0xC1] (SlashN 5) false 1;
   enc SHR [A_rm 64; A_reg REG_CLASS_C 8] true false [0xD3] (SlashN 5) false (-1);
   enc SUB [A_rm 32; A_r 32] false false [0x29] SlashR false (-1);
   enc SUB [A_rm 32; A_imm 8] false false [0x83] (SlashN 5) false 1;
   enc SUB [A_rm 32; A_imm 32] false false [0x81] (SlashN 5) false 4;
   enc SUB [A_rm 64; A_r 64] true false [0x29] SlashR false (-1);
   enc SUB [A_rm 64; A_imm 8] true false [0x83] (SlashN 5) false 1;
   enc SUB [A_rm 64; A_imm 32] true false [0x81] (SlashN 5) false 4;
   enc SYSCALL [] false false [0x0F; 0x05] NoSlash false (-1);
   enc TEST [A_rm 8; A_r 8] false false [0x84] SlashR false (-1);
   enc TEST [A_rm 32; A_r 32] false false [0x85] SlashR false (-1);
   enc UCOMISS [A_xmm; A_xmm_m 32] false false [0x0F; 0x2E] SlashR false (-1);
   enc UCOMISD [A_xmm; A_xmm_m 32] false false [0x66; 0x0F; 0x2E] SlashR false (-1);
   enc XOR [A_rm 8; A_r 8] false false [0x30] SlashR false (-1);
   enc XOR [A_rm 32; A_r 32] false false [0x31] SlashR false (-1);
   enc XOR [A_rm 64; A_r 64] true false [0x31] SlashR false (-1)
  ].

Definition has_memory (a : Arg) : bool := match a with A_rm _ | A_xmm_m _ => true | _ => false end.

(** A row of two operands without memory keeps the order of the row before it, as the
    variable of the generator does. *)
Definition next_order (previous : ArgOrder) (args : list Arg) : ArgOrder :=
  match args with
  | a :: b :: _ => if has_memory b then RM else if has_memory a then MR else previous
  | _ => INVALID
  end.
Definition row_of (order : ArgOrder) (e : Encoding) : EncodingRow :=
  mkRow order (enc_rex_w e) (enc_oso e) (enc_opcode e)
    (match enc_slash e with SlashR => true | _ => false end)
    (match enc_slash e with SlashN n => n | _ => -1 end)
    (enc_immediate_size e) (enc_reg_in_opcode e)
    (if existsb (fun a => match a with A_rel => true | _ => false end) (enc_args e) then FIXUP_RELATIVE else FIXUP_ABSOLUTE).
Fixpoint with_rows (order : ArgOrder) (l : list Encoding) : list (Encoding * EncodingRow) :=
  match l with
  | [] => []
  | e :: l => let order := next_order order (enc_args e) in (e, row_of order e) :: with_rows order l
  end.
Definition rows : list (Encoding * EncodingRow) := with_rows INVALID x64.

(** ** Selection *)

(** [value.u.reg.width], which is also there in an [ASM_VALUE_OFFSET_REGISTER] *)
Definition reg_width (v : AsmValue) : res Z :=
  match value_u v with
  | ASM_VALUE_REGISTER r | ASM_VALUE_OFFSET_REGISTER r _ => Ok (width r)
  | ASM_VALUE_CONST _ => Stop Undef
  end.
Definition is_register (v : AsmValue) (w : Z) : bool :=
  match value_u v with ASM_VALUE_REGISTER r => width r =? w | _ => false end.
Definition is_memory (v : AsmValue) : res bool :=
  if is_deref v then w ← reg_width v; Ok (w =? 64) else Ok false.
Definition is_class (v : AsmValue) (c : RegClass) (w : Z) : res bool :=
  match value_u v with
  | ASM_VALUE_REGISTER r => match reg_u r with PHYS_REG c' => Ok (bool_decide (c' = c) && (width r =? w)) | V_REG _ => Stop Undef end
  | _ => Ok false
  end.

(** The condition on one operand. *)
Definition arg_condition (ext_width : Z) (sext : bool) (a : Arg) (v : AsmValue) : res bool :=
  match a with
  | A_rm w => if is_register v w then Ok true else is_memory v
  | A_r w => Ok (is_register v w && negb (is_deref v))
  | A_xmm => Ok (is_register v 128 && negb (is_deref v))
  | A_xmm_m _ => if is_register v 128 && negb (is_deref v) then Ok true else is_memory v
  | A_imm w => is_const_and_fits v ext_width w sext
  | A_rel => Ok (match value_u v with ASM_VALUE_CONST _ => true | _ => false end)
  | A_reg c w => is_class v c w
  end.
(** The width that an immediate after the operand is extended to. *)
Definition ext_width_after (ext_width : Z) (a : Arg) : Z :=
  match a with A_rm w | A_r w | A_xmm_m w => w | _ => ext_width end.
Fixpoint arg_conditions (ext_width : Z) (sext : bool) (l : list Arg) (vs : list AsmValue) : res bool :=
  match l, vs with
  | a :: l, v :: vs =>
      b ← arg_condition ext_width sext a v;
      if (b : bool) then arg_conditions (ext_width_after ext_width a) sext l vs else Ok false
  | _, _ => Ok true
  end.
Definition matches (e : Encoding) (i : AsmInstr) : res bool :=
  match enc_args e with
  | [] => Ok true
  | l => if Nat.eqb (length (args i)) (length l) then arg_conditions 0 (is_sign_extending_instr i) l (args i) else Ok false
  end.

Fixpoint select_from (l : list (Encoding * EncodingRow)) (i : AsmInstr) : res EncodingRow :=
  match l with
  | [] => UNIMPLEMENTED
  | (e, row) :: l =>
      if decide (enc_op e = op i) then
        b ← matches e i;
        if (b : bool) then Ok row else select_from l i
      else select_from l i
  end.
(** [assemble_instr], up to the call of [encode_instr]. *)
Definition select (i : AsmInstr) : res EncodingRow := select_from rows i.

(** ** The rows of the table *)

Definition is_plain_register (a : Arg) : bool := match a with A_r _ | A_xmm => true | _ => false end.
(** The operands behind the memory operand of /0 to /7. *)
Definition is_rest (l : list Arg) : bool := match l with [] | [A_imm _] | [A_reg _ _] => true | _ => false end.
Definition immediate_width (l : list Arg) : option Z := head (omap (fun a => match a with A_imm w => Some w | _ => None end) l).

Definition is_immediate (a : Arg) : bool := match a with A_imm _ => true | _ => false end.
Definition at_most_one (l : list Arg) : bool := (length (omap (fun a => if is_immediate a then Some a else None) l) <=? 1)%nat.
Definition is_rel (a : Arg) : bool := match a with A_rel => true | _ => false end.

(** The bytes of the opcode, the operands of /r in the order of the row, those of /0 to
    /7, and the size of the immediate. *)
Definition row_checked (x : Encoding * EncodingRow) : bool :=
  let '(e, row) := x in
  (1 <=? out_size (enc_opcode e)) && (out_size (enc_opcode e) <=? 3) &&
  match enc_slash e with
  | SlashR =>
      negb (enc_reg_in_opcode e) &&
      match enc_args e, arg_order row with
      | [a; b], RM => is_plain_register a && has_memory b
      | [a; b], MR => has_memory a && is_plain_register b
      | [a; b; A_imm _], RM => is_plain_register a && has_memory b
      | _, _ => false
      end
  | SlashN n =>
      negb (enc_reg_in_opcode e) && (0 <=? n) && (n <? 8) &&
      match enc_args e with a :: l => has_memory a && is_rest l | [] => false end
  | NoSlash => true
  end &&
  at_most_one (enc_args e) && match enc_slash e with NoSlash => true | _ => negb (existsb is_rel (enc_args e)) end &&
  match immediate_width (enc_args e) with
  | Some w => (8 * enc_immediate_size e =? w) && (1 <=? enc_immediate_size e) && (enc_immediate_size e <=? 8)
  | None => match enc_args e with [A_rel] => enc_immediate_size e =? 4 | _ => enc_immediate_size e =? -1 end
  end.
Lemma rows_checked : forallb row_checked rows = true.
Proof. vm_compute. reflexivity. Qed.

Lemma with_rows_row order l e row : In (e, row) (with_rows order l) -> row = row_of (arg_order row) e.
Proof.
  revert order. induction l as [|x l IH]; intros order; [done |]. intros [[= <- <-] | H]; [done |]. by eapply IH.
Qed.
Lemma with_rows_in order l e row : In (e, row) (with_rows order l) -> In e l.
Proof.
  revert order. induction l as [|x l IH]; intros order; [done |]. intros [[= <- _] | H]; [by left | right; by eapply IH].
Qed.
Lemma row_in_checked x : In x rows -> row_checked x = true.
Proof. exact (proj1 (forallb_forall row_checked rows) rows_checked x). Qed.
Lemma select_from_row l i row : select_from l i = Ok row -> exists e, In (e, row) l /\ enc_op e = op i /\ matches e i = Ok true.
Proof.
  induction l as [|[e r] l IH]; [done |]. cbn [select_from]. case_decide as He.
  - destruct (matches e i) as [[]|] eqn:Em; cbn [mbind res_bind]; [| | done].
    + intros [= <-]. exists e. split; [by left | done].
    + intros H. destruct (IH H) as (e' & H1 & H2). exists e'. split; [by right | done].
  - intros H. destruct (IH H) as (e' & H1 & H2). exists e'. split; [by right | done].
Qed.
(** What [select] gives is a row of the table for the operation, and its conditions hold. *)
Lemma select_row i row : select i = Ok row ->
  exists e, In e x64 /\ row = row_of (arg_order row) e /\ row_checked (e, row) = true /\ enc_op e = op i /\ matches e i = Ok true.
Proof.
  unfold select. intros H. apply select_from_row in H as (e & Hin & Ho & Hm). pose proof (row_in_checked _ Hin) as Hc.
  unfold rows in Hin. apply with_rows_in in Hin as Hx. apply with_rows_row in Hin. by exists e.
Qed.

(** ** Operands that match *)

Lemma matches_conditions e i : matches e i = Ok true -> enc_args e <> [] ->
  length (args i) = length (enc_args e) /\ arg_conditions 0 (is_sign_extending_instr i) (enc_args e) (args i) = Ok true.
Proof.
  unfold matches. destruct (enc_args e) as [|a l]; [done |]. intros H _. destruct (Nat.eqb_spec (length (args i)) (length (a :: l))); done.
Qed.
Lemma condition_inv w s a l v vs : arg_conditions w s (a :: l) (v :: vs) = Ok true ->
  arg_condition w s a v = Ok true /\ arg_conditions (ext_width_after w a) s l vs = Ok true.
Proof. cbn [arg_conditions]. intros H. mstep. destruct a0; [done | discriminate]. Qed.

Definition is_const (v : AsmValue) : bool := match value_u v with ASM_VALUE_CONST _ => true | _ => false end.
Lemma is_memory_operand v : is_memory v = Ok true -> is_const v = false.
Proof. unfold is_memory, reg_width, is_const. destruct (is_deref v), (value_u v); done. Qed.
Lemma memory_operand w s a v : arg_condition w s a v = Ok true -> has_memory a = true -> is_const v = false.
Proof.
  destruct a; cbn [has_memory arg_condition]; try done; intros H _.
  - destruct (is_register v width) eqn:E; [| by apply is_memory_operand]. unfold is_register, is_const in *. by destruct (value_u v).
  - destruct (is_register v 128) eqn:E; cbn [andb] in H; [| by apply is_memory_operand]. unfold is_register, is_const in *. by destruct (value_u v).
Qed.
Lemma register_operand w s a v : arg_condition w s a v = Ok true -> is_plain_register a = true ->
  exists r, value_u v = ASM_VALUE_REGISTER r /\ is_deref v = false.
Proof.
  destruct a; cbn [is_plain_register arg_condition]; try done; intros [= H] _; unfold is_register in H;
    destruct (value_u v) as [r| |]; try done; exists r; (split; [done |]); by apply andb_true_iff in H as [_ ?%negb_true_iff].
Qed.
Lemma immediate_operand w s w' v : arg_condition w s (A_imm w') v = Ok true -> exists c, value_u v = ASM_VALUE_CONST c.
Proof.
  cbn [arg_condition]. unfold is_const_and_fits. intros H. mstep. destruct (value_u v) as [| |c]; [done.. | by exists c].
Qed.
Lemma class_operand w s c w' v : arg_condition w s (A_reg c w') v = Ok true -> is_const v = false.
Proof. cbn [arg_condition]. unfold is_class, is_const. by destruct (value_u v). Qed.

(** Operands that the encoder supports: constants, and what [operand_of] knows. *)
Definition encodable (v : AsmValue) : Prop := is_const v = true \/ operand_of v <> None /\ value_ok v.

Lemma encodable_register v r : value_u v = ASM_VALUE_REGISTER r -> is_deref v = false -> encodable v ->
  exists c n, reg_u r = PHYS_REG c /\ encoded_register_number c = Ok n.
Proof.
  intros Hv Hd [Hc | [Ho _]]; [unfold is_const in Hc; by rewrite Hv in Hc |]. unfold operand_of in Ho. rewrite Hv, Hd in Ho.
  destruct r as [w vw [c|k]]; [| done]. destruct (encoded_register_number c) as [n|] eqn:En; [| done]. by exists c, n.
Qed.
Lemma encodable_number v r : value_u v = ASM_VALUE_REGISTER r -> is_deref v = false -> encodable v ->
  exists n, opt_number (Some v) = Ok n.
Proof.
  intros Hv Hd Hok. destruct (encodable_register v r Hv Hd Hok) as (c & n & Hr & Hn). exists n. unfold opt_number, get_reg_class.
  by rewrite Hv, Hr.
Qed.
Lemma encodable_needs_rex l : Forall encodable l -> exists high, needs_rex l = Ok high.
Proof.
  induction 1 as [|v l Hv _ [high IH]]; [by exists false |]. cbn [needs_rex]. destruct (value_u v) as [r|r o|c] eqn:E; [| by exists high | by exists high].
  destruct (reg_u r) as [c|k] eqn:Er; [destruct (_ && _); by eexists |]. destruct Hv as [Hc | [Ho _]].
  - unfold is_const in Hc. by rewrite E in Hc.
  - unfold operand_of in Ho. rewrite E in Ho. destruct r as [w vw u]. cbn in Er. by rewrite Er in Ho.
Qed.
Lemma immediate_skip v l found : is_const v = false -> immediate_arg (v :: l) found = immediate_arg l found.
Proof. unfold is_const. cbn [immediate_arg]. by destruct (value_u v). Qed.

(** *** The operands of a row with a ModR/M byte *)

Lemma slash_register_operands e row i : row_checked (e, row) = true -> row = row_of (arg_order row) e -> enc_slash e = SlashR ->
  matches e i = Ok true -> Forall encodable (args i) ->
  exists n mem, modrm_operands row i = Some (n, mem) /\ mem ∈ args i /\ is_const mem = false.
Proof.
  intros Hc Hrow Hs Hm Hall. unfold row_checked in Hc. rewrite Hs in Hc. bsplit.
  assert (Hne : enc_args e <> []) by (destruct (enc_args e); [by destruct (arg_order row) | done]).
  destruct (matches_conditions e i Hm Hne) as [Hl Hcond]. unfold modrm_operands.
  assert (reg_and_rm row = true) as -> by (rewrite Hrow; cbn; by rewrite Hs).
  destruct (enc_args e) as [|a [|b l]]; [done | by destruct (arg_order row) |]. unfold operands. destruct (args i) as [|v [|v' vs]]; [done.. |].
  apply condition_inv in Hcond as [Ha Hcond]. apply condition_inv in Hcond as [Hb _].
  rewrite !Forall_cons in Hall. destruct Hall as (Hv & Hv' & _).
  assert (F : (arg_order row = RM /\ is_plain_register a = true /\ has_memory b = true) \/
    (arg_order row = MR /\ has_memory a = true /\ is_plain_register b = true)).
  { destruct l as [|x [|y l]], (arg_order row); try destruct x; try discriminate; bsplit; tauto. }
  destruct F as [(-> & Hra & Hmb) | (-> & Hma & Hrb)].
  - destruct (register_operand _ _ _ _ Ha Hra) as (r & Er & Ed). destruct (encodable_number v r Er Ed Hv) as [n ->].
    exists n, v'. split; [done |]. split; [set_solver | by eapply memory_operand].
  - destruct (register_operand _ _ _ _ Hb Hrb) as (r & Er & Ed). destruct (encodable_number v' r Er Ed Hv') as [n ->].
    exists n, v. split; [done |]. split; [set_solver | by eapply memory_operand].
Qed.
Lemma slash_digit_operands e row i k : row_checked (e, row) = true -> row = row_of (arg_order row) e -> enc_slash e = SlashN k ->
  matches e i = Ok true -> exists n mem, modrm_operands row i = Some (n, mem) /\ mem ∈ args i /\ is_const mem = false.
Proof.
  intros Hc Hrow Hs Hm. unfold row_checked in Hc. rewrite Hs in Hc. bsplit. destruct (enc_args e) as [|a l] eqn:Ee; [done |].
  destruct (matches_conditions e i Hm ltac:(by rewrite Ee)) as [Hl Hcond]. rewrite Ee in *. bsplit.
  unfold modrm_operands. assert (reg_and_rm row = false) as -> by (rewrite Hrow; cbn; by rewrite Hs).
  assert (row_opcode_extension row = k) as -> by (rewrite Hrow; cbn; by rewrite Hs).
  destruct (args i) as [|v vs]; [done |]. apply condition_inv in Hcond as [Ha _]. exists k, v. zcases. cbn [andb].
  split; [done |]. split; [set_solver | by eapply memory_operand].
Qed.

(** *** The immediate of a row *)

Lemma operand_skip w s a v : arg_condition w s a v = Ok true -> is_immediate a = false -> is_rel a = false -> is_const v = false.
Proof.
  destruct a; try done; intros H _ _; [by eapply memory_operand | | | by eapply memory_operand | by eapply class_operand];
    destruct (register_operand _ _ _ _ H eq_refl) as (r & E & _); unfold is_const; by rewrite E.
Qed.
(** Nothing but the operand of an immediate pattern is a constant. *)
Lemma immediate_none w s l vs : arg_conditions w s l vs = Ok true -> length vs = length l -> immediate_width l = None -> existsb is_rel l = false ->
  immediate_arg vs None = Ok None.
Proof.
  revert w vs. induction l as [|a l IH]; intros w [|v vs]; try done. intros H Hl Hi Hr. apply condition_inv in H as [Ha H].
  cbn [existsb] in Hr. apply orb_false_iff in Hr as [Hr Hr'].
  assert (Him : is_immediate a = false /\ immediate_width l = None) by (destruct a; try done).
  destruct Him as [Him Hi']. rewrite immediate_skip by (eapply operand_skip; [exact Ha | done | done]).
  by eapply IH; [exact H | injection Hl | |].
Qed.
Lemma immediate_some w s l vs w' : arg_conditions w s l vs = Ok true -> length vs = length l -> immediate_width l = Some w' -> existsb is_rel l = false ->
  at_most_one l = true -> exists c, immediate_arg vs None = Ok (Some c).
Proof.
  revert w vs. induction l as [|a l IH]; intros w [|v vs]; try done. intros H Hl Hi Hr H1. apply condition_inv in H as [Ha H].
  cbn [existsb] in Hr. apply orb_false_iff in Hr as [Hr Hr']. injection Hl as Hl. destruct (is_immediate a) eqn:Him.
  - destruct a; try discriminate. destruct (immediate_operand _ _ _ _ Ha) as [c Hc]. exists c. cbn [immediate_arg]. rewrite Hc.
    assert (Hn : forall l vs w, at_most_one (A_imm width :: l) = true -> arg_conditions w s l vs = Ok true -> length vs = length l -> existsb is_rel l = false ->
      immediate_arg vs (Some c) = Ok (Some c)).
    { clear. induction l as [|a l IH]; intros [|v vs] w H1 H Hl Hr; try done. apply condition_inv in H as [Ha H].
      cbn [existsb] in Hr. apply orb_false_iff in Hr as [Hr Hr']. injection Hl as Hl. assert (Him : is_immediate a = false) by (by destruct a).
      rewrite immediate_skip by (eapply operand_skip; [exact Ha | done | done]). eapply IH; try done. by destruct a. }
    by eapply Hn.
  - rewrite immediate_skip by (eapply operand_skip; [exact Ha | done | done]). eapply IH; [exact H | done | | done |].
    + by destruct a.
    + by destruct a.
Qed.

Lemma row_immediate e row i : row_checked (e, row) = true -> row = row_of (arg_order row) e -> enc_slash e <> NoSlash ->
  matches e i = Ok true -> enc_args e <> [] -> exists im, imm_bytes row i = Some im.
Proof.
  intros Hc Hrow Hs Hm Hne. destruct (matches_conditions e i Hm Hne) as [Hl Hcond]. unfold imm_bytes.
  assert (row_immediate_size row = enc_immediate_size e) as -> by (by rewrite Hrow).
  assert (Hrel : existsb is_rel (enc_args e) = false).
  { assert (H : match enc_slash e with NoSlash => true | _ => negb (existsb is_rel (enc_args e)) end = true) by (unfold row_checked in Hc; by bsplit).
    destruct (enc_slash e); [done | by apply negb_true_iff | by apply negb_true_iff]. }
  unfold row_checked in Hc. bsplit. destruct (immediate_width (enc_args e)) as [w|] eqn:Ew.
  - destruct (immediate_some _ _ _ _ _ Hcond Hl Ew Hrel ltac:(done)) as [c ->]. bsplit. zcases. cbn [andb]. destruct c; by eexists.
  - assert (enc_immediate_size e = -1) as -> by (destruct (enc_args e) as [|[] [|]]; try done; bsplit; done). by exists [].
Qed.


