(* ===== verification/RegAlloc.v ===== *)
(** * The register allocator ([src/src/backend/reg_alloc.c], the data of
      [src/src/backend/asm_gen.h])

    Liveness by Mohnen's graph-free data-flow algorithm, linear scan, spilling
    around calls, and the rewriting of virtual registers. Pointers to virtual
    registers and symbols are indices into their arrays. The list of
    predecessors that the code hangs on a symbol is an entry of a map. *)

From Stdlib Require Import Sorted.
From S2P Require Import Prelude Maths BitSet Qsort Asm.

Local Open Scope Z_scope.

(** ** Data *)

Inductive RegType := REG_TYPE_INTEGER | REG_TYPE_FLOAT.
#[export] Instance RegType_eq_dec : EqDecision RegType.
Proof. solve_decision. Defined.

Inductive VRegU :=
| UNASSIGNED
| IN_REG (assigned_register : RegClass)
| ON_STACK (assigned_stack_slot : Z).

#[export] Instance VRegU_eq_dec : EqDecision VRegU.
Proof. solve_decision. Defined.

Record VReg := mkVReg {
  vreg_u : VRegU;
  pre_alloced : bool;
  vreg_type : RegType;
  live_range_start : Z;
  live_range_end : Z
}.
Definition set_vreg_u (v : VReg) (u : VRegU) : VReg :=
  mkVReg u (pre_alloced v) (vreg_type v) (live_range_start v) (live_range_end v).
Definition set_range (v : VReg) (a b : Z) : VReg :=
  mkVReg (vreg_u v) (pre_alloced v) (vreg_type v) a b.

Record Pred := mkPred { dest_offset : Z; src_offset : Z }.
Definition Preds : Type := gmap nat (list Pred).

(** The fields the allocator uses. [block_capacity] is the capacity of the
    array behind [current_block]; [symbols] are those of the module. *)
Record AsmBuilder := mkBuilder {
  b_symbols : list AsmSymbol;
  current_block : list AsmInstr;
  block_capacity : Z;
  ret_label : nat;
  virtual_registers : list VReg;
  local_stack_usage : Z
}.

(** ** The registers *)

Definition int_alloc_index_to_reg : list RegClass :=
  [REG_CLASS_R13; REG_CLASS_R14; REG_CLASS_R15; REG_CLASS_B; REG_CLASS_R11; REG_CLASS_R10;
   REG_CLASS_R9; REG_CLASS_R8; REG_CLASS_C; REG_CLASS_D; REG_CLASS_SI; REG_CLASS_DI; REG_CLASS_A].
Definition float_alloc_index_to_reg : list RegClass :=
  [REG_CLASS_XMM6; REG_CLASS_XMM5; REG_CLASS_XMM4; REG_CLASS_XMM3; REG_CLASS_XMM2; REG_CLASS_XMM1;
   REG_CLASS_XMM0].

(** [u32 a[] = {[x] = i, ...}]: as long as the largest index needs, zero where
    nothing is given. *)
Definition designated (order : list RegClass) : list Z :=
  foldl (fun t '(i, x) => <[Z.to_nat (reg_class_num x) := Z.of_nat i]> t)
    (replicate (S (foldr Nat.max 0%nat (Z.to_nat ∘ reg_class_num <$> order))) 0)
    (imap pair order).

Definition int_reg_to_alloc_index : list Z := designated int_alloc_index_to_reg.
Definition float_reg_to_alloc_index : list Z := designated float_alloc_index_to_reg.

Record RegAllocParams := mkParams {
  allocatable_regs : Z;
  alloc_index_to_reg : list RegClass;
  reg_to_alloc_index : list Z;
  spill_register : RegClass
}.
Definition reg_alloc_params (t : RegType) : RegAllocParams :=
  match t with
  | REG_TYPE_INTEGER => mkParams (Z.of_nat (length int_alloc_index_to_reg)) int_alloc_index_to_reg
      int_reg_to_alloc_index REG_CLASS_R12
  | REG_TYPE_FLOAT => mkParams (Z.of_nat (length float_alloc_index_to_reg)) float_alloc_index_to_reg
      float_reg_to_alloc_index REG_CLASS_XMM7
  end.

Definition CALLER_SAVE_REGS_BITMASK : Z :=
  foldr (fun c m => Z.lor (Z.shiftl 1 (reg_class_num c)) m) 0
    [REG_CLASS_A; REG_CLASS_DI; REG_CLASS_SI; REG_CLASS_D; REG_CLASS_C; REG_CLASS_R8; REG_CLASS_R9;
     REG_CLASS_R10; REG_CLASS_R11].

(** ** Uses and definitions *)

Definition references_vreg (value : AsmValue) (vreg : Z) : bool :=
  match value_reg value with
  | Some r => match reg_u r with V_REG n => n =? vreg | PHYS_REG _ => false end
  | None => false
  end.

Definition is_use (i : AsmInstr) (vreg : Z) : bool :=
  existsb (fun a => references_vreg a vreg) (args i) || existsb (fun d => d =? vreg) (vreg_deps i).

(** [u.assigned_register]: another member of the union may be the one that was
    stored. *)
Definition assigned_register (v : VReg) : res RegClass :=
  match vreg_u v with IN_REG r => Ok r | _ => Stop Undef end.

(** Operands beyond [arity] are not looked at. *)
Definition is_def (i : AsmInstr) (vreg_num : Z) (vreg : VReg) : res bool :=
  match op i with
  | CALL =>
      if pre_alloced vreg then r ← assigned_register vreg; Ok (bool_decide (r = REG_CLASS_A)) else Ok false
  | CDQ | CQO =>
      if pre_alloced vreg then
        r ← assigned_register vreg; Ok (bool_decide (r = REG_CLASS_D) && is_use i vreg_num)
      else Ok false
  | XOR =>
      a ← ref (args i) 0;
      if references_vreg a vreg_num then b ← ref (args i) 1; Ok (references_vreg b vreg_num) else Ok false
  | MOV | MOVSX | MOVZX | MOVSS | MOVSD | MOVAPS | CVTSD2SI | CVTSI2SD | CVTSI2SS | CVTSS2SI
  | CVTSS2SD | CVTSD2SS | POP | IMUL | SETE | SETNE | SETG | SETGE | SETL | SETLE =>
      a ← ref (args i) 0; Ok (references_vreg a vreg_num)
  | _ => Ok false
  end.

(** ** Control flow *)

Definition is_cond_jump (o : AsmOp) : bool :=
  match o with JE | JNE | JG | JGE | JL | JLE | JA | JAE | JB | JBE => true | _ => false end.
Definition is_jump (o : AsmOp) : bool := is_cond_jump o || bool_decide (o = JMP).

Definition jump_target (i : AsmInstr) : res nat :=
  a ← ref (args i) 0;
  match value_u a with
  | ASM_VALUE_CONST (ASM_CONST_SYMBOL s) => Ok s
  | _ => ICE
  end.

(** The offset of a jump's target, [None] for the return label. *)
Definition target_offset (bd : AsmBuilder) (i : AsmInstr) : res (option (nat * Z)) :=
  target ← jump_target i;
  if decide (target = ret_label bd) then Ok None
  else
    s ← ref (b_symbols bd) (Z.of_nat target);
    ASSERT (sym_offset s <? Z.of_nat (length (current_block bd)));;
    Ok (Some (target, sym_offset s)).

(** [location] only leaves the head of the list when [pred->next] was not NULL,
    so a list of one node is replaced. *)
Definition append_pred (l : list Pred) (new : Pred) : list Pred :=
  match l with [] | [_] => [new] | _ => l ++ [new] end.

Definition find_preds_at (bd : AsmBuilder) (preds : Preds) (i : nat) : res Preds :=
  instr ← ref (current_block bd) (Z.of_nat i);
  if negb (is_jump (op instr)) then Ok preds
  else
    o ← target_offset bd instr;
    match o with
    | None => Ok preds
    | Some (target, offset) =>
        Ok (<[target := append_pred (default [] (preds !! target)) (mkPred offset (Z.of_nat i))]> preds)
    end.

Definition find_preds (bd : AsmBuilder) : res Preds :=
  foldM (find_preds_at bd) ∅ (seq 0 (length (current_block bd))).

(** The one or two successors of the instruction at [pc], -1 for none. *)
Definition successors (bd : AsmBuilder) (i : AsmInstr) (pc : Z) : res (Z * Z) :=
  if is_jump (op i) then
    o ← target_offset bd i;
    Ok (match o with Some (_, d) => d | None => -1 end, if is_cond_jump (op i) then pc + 1 else -1)
  else Ok (if negb (pc =? Z.of_nat (length (current_block bd)) - 1) then pc + 1 else -1, -1).

(** ** Liveness *)

Record Live := mkLive { liveness : BitSet; working_set : BitSet; largest_working_set_elem : Z }.

(** Is the successor live and not a definition? *)
Definition live_through (bd : AsmBuilder) (vreg_num : Z) (vreg : VReg) (l : BitSet) (succ : Z) : res bool :=
  if succ =? -1 then Ok false
  else
    b ← bit_set_get_bit l succ;
    if (b : bool) then i ← ref (current_block bd) succ; d ← is_def i vreg_num vreg; Ok (negb d) else Ok false.

Definition is_live (bd : AsmBuilder) (vreg_num : Z) (vreg : VReg) (l : BitSet) (pc : Z) : res bool :=
  instr ← ref (current_block bd) pc;
  '(succ0, succ1) ← successors bd instr pc;
  if is_use instr vreg_num then Ok true
  else
    a ← live_through bd vreg_num vreg l succ0;
    if (a : bool) then Ok true else live_through bd vreg_num vreg l succ1.

(** The list of predecessors at the instruction's label. *)
Definition preds_at (preds : Preds) (i : AsmInstr) : list Pred :=
  match label i with Some s => default [] (preds !! s) | None => [] end.

(** [while (pred != NULL)]: the loop never moves [pred]. *)
Definition add_preds_body (l : BitSet) (pc : Z) (pred : option Pred) (s : BitSet * Z)
  : res (BitSet * Z + BitSet * Z) :=
  match pred with
  | None => Ok (inr s)
  | Some p =>
      if negb (dest_offset p =? pc) then Ok (inr s)
      else
        let '(ws, largest) := s in
        b ← bit_set_get_bit l (src_offset p);
        if negb b then
          ws ← bit_set_set_bit ws (src_offset p) true;
          Ok (inl (ws, if largest <? src_offset p then src_offset p else largest))
        else Ok (inl (ws, largest))
  end.

(** [for (i32 i = pc / 64; i >= 0; i--)]: the largest element left. *)
Definition next_largest (ws : BitSet) (pc largest : Z) : res Z :=
  if pc =? largest then
    o ← scan_down (bits ws) (Z.to_nat (pc / 64 + 1));
    match o with
    | Some (i, w) => k ← highest_set_bit w; Ok (u32 (64 * i + k))
    | None => Ok largest
    end
  else Ok largest.

(** One pass of the inner loop at [pc]. *)
Definition liveness_body (bd : AsmBuilder) (preds : Preds) (vreg_num : Z) (vreg : VReg) (fuel : nat)
    (s : Live * Z) : res (Live * Z + Live) :=
  let '(mkLive l ws largest, pc) := s in
  ws ← bit_set_set_bit ws pc false;
  largest ← next_largest ws pc largest;
  already ← bit_set_get_bit l pc;
  ASSERT (negb already);;
  new ← is_live bd vreg_num vreg l pc;
  l ← bit_set_set_bit l pc new;
  instr ← ref (current_block bd) pc;
  let pred := preds_at preds instr in
  let prev := match pred with
              | p :: _ => if dest_offset p =? pc then Some (src_offset p)
                          else if pc =? 0 then None else Some (pc - 1)
              | [] => if pc =? 0 then None else Some (pc - 1)
              end in
  match prev with
  | None => Ok (inr (mkLive l ws largest))
  | Some prev =>
      '(ws, largest) ←
        (if new then loop fuel (add_preds_body l pc (pred !! 1%nat)) (ws, largest) else Ok (ws, largest));
      b ← bit_set_get_bit l prev;
      if new && negb b then Ok (inl (mkLive l ws largest, prev)) else Ok (inr (mkLive l ws largest))
  end.

(** [while (!bit_set_is_empty(&working_set))] *)
Definition working_set_body (bd : AsmBuilder) (preds : Preds) (vreg_num : Z) (vreg : VReg) (fuel : nat)
    (s : Live) : res (Live + Live) :=
  e ← bit_set_is_empty (working_set s);
  if (e : bool) then Ok (inr s)
  else
    s' ← loop fuel (liveness_body bd preds vreg_num vreg fuel) (s, largest_working_set_elem s);
    Ok (inl s').

(** One iteration of the loop over the virtual registers. *)
Definition live_range_of (bd : AsmBuilder) (preds : Preds) (s : BitSet * BitSet * list VReg) (n : nat)
  : res (BitSet * BitSet * list VReg) :=
  let '(l, ws, vregs) := s in
  let size := length (current_block bd) in
  vreg ← ref vregs (Z.of_nat n);
  if negb (live_range_start vreg =? -1) && negb (live_range_end vreg =? -1) then Ok s
  else
    l ← bit_set_clear_all l;
    ws ← bit_set_set_all ws;
    '(mkLive l ws _) ← loop (S (S size)) (working_set_body bd preds (Z.of_nat n) vreg (S size))
                         (mkLive l ws (u32 (Z.of_nat size - 1)));
    lowest ← bit_set_lowest_set_bit l;
    let start := live_range_start vreg in
    let start := if (start =? -1) || (lowest <? start) then lowest else start in
    highest ← bit_set_highest_set_bit l;
    let end_ := live_range_end vreg in
    let end_ := if (end_ =? -1) || (negb (highest =? -1) && (end_ <? highest)) then highest else end_ in
    vregs ← store vregs (Z.of_nat n) (set_range vreg start end_);
    Ok (l, ws, vregs).

(** [garbage] is what the memory of the two bit sets holds. *)
Definition compute_live_ranges (bd : AsmBuilder) (preds : Preds) (garbage : list Z) : res (list VReg) :=
  let size := Z.of_nat (length (current_block bd)) in
  '(_, _, vregs) ← foldM (live_range_of bd preds)
    (bit_set_init garbage size, bit_set_init garbage size, virtual_registers bd)
    (seq 0 (length (virtual_registers bd)));
  Ok vregs.

(** ** Linear scan *)

Record FreeRegs := mkFree { free_integer : Z; free_float : Z }.
Definition free_of (f : FreeRegs) (t : RegType) : Z :=
  match t with REG_TYPE_INTEGER => free_integer f | REG_TYPE_FLOAT => free_float f end.
Definition set_free (f : FreeRegs) (t : RegType) (x : Z) : FreeRegs :=
  match t with
  | REG_TYPE_INTEGER => mkFree x (free_float f)
  | REG_TYPE_FLOAT => mkFree (free_integer f) x
  end.

(** [(1 << allocatable_regs) - 1] *)
Definition all_free : FreeRegs :=
  mkFree (Z.shiftl 1 (allocatable_regs (reg_alloc_params REG_TYPE_INTEGER)) - 1)
         (Z.shiftl 1 (allocatable_regs (reg_alloc_params REG_TYPE_FLOAT)) - 1).

Definition alloc_index (t : RegType) (r : RegClass) : res Z :=
  ref (reg_to_alloc_index (reg_alloc_params t)) (reg_class_num r).

(** [*bitset |= 1 << k] and [*bitset &= ~(1 << k)]. *)
Definition release (f : FreeRegs) (t : RegType) (k : Z) : FreeRegs :=
  set_free f t (Z.lor (free_of f t) (Z.shiftl 1 k)).
Definition take_reg (f : FreeRegs) (t : RegType) (k : Z) : FreeRegs :=
  set_free f t (Z.land (free_of f t) (bnot 32 (Z.shiftl 1 k))).

(** The allocator's variables; [active_vregs] holds indices into [vregs]. *)
Record Scan := mkScan {
  vregs : list VReg;
  free_regs_bitsets : FreeRegs;
  active_vregs : list nat;
  stack_usage : Z
}.

Definition vreg_at (l : list VReg) (i : nat) : res VReg := ref l (Z.of_nat i).

(** The inner [while]: drop the active ranges that end before [start]. *)
Fixpoint expire (l : list VReg) (start : Z) (f : FreeRegs) (active : list nat) : res (FreeRegs * list nat) :=
  match active with
  | [] => Ok (f, [])
  | a :: rest =>
      v ← vreg_at l a;
      if start <=? live_range_end v then Ok (f, active)
      else
        match vreg_u v with
        | UNASSIGNED => UNREACHABLE
        | IN_REG r => k ← alloc_index (vreg_type v) r; expire l start (release f (vreg_type v) k) rest
        | ON_STACK _ => expire l start f rest
        end
  end.

(** [vreg->t = ON_STACK] with the next slot. *)
Definition spill (s : Scan) (i : nat) : res Scan :=
  v ← vreg_at (vregs s) i;
  l ← store (vregs s) (Z.of_nat i) (set_vreg_u v (ON_STACK (stack_usage s)));
  Ok (mkScan l (free_regs_bitsets s) (active_vregs s) (u32 (stack_usage s + 8))).

(** The first active register that sits in [r]. *)
Fixpoint find_existing (l : list VReg) (r : RegClass) (active : list nat) : res (option nat) :=
  match active with
  | [] => Ok None
  | a :: rest =>
      v ← vreg_at l a;
      if decide (vreg_u v = IN_REG r) then Ok (Some a) else find_existing l r rest
  end.

(** Give register [i] a place, or reserve the one it was given beforehand. *)
Definition assign (s : Scan) (i : nat) : res Scan :=
  v ← vreg_at (vregs s) i;
  let t := vreg_type v in
  let free := free_of (free_regs_bitsets s) t in
  match vreg_u v with
  | UNASSIGNED =>
      if free =? 0 then spill s i
      else
        first_free ← lowest_set_bit free;
        r ← ref (alloc_index_to_reg (reg_alloc_params t)) first_free;
        l ← store (vregs s) (Z.of_nat i) (set_vreg_u v (IN_REG r));
        Ok (mkScan l (take_reg (free_regs_bitsets s) t first_free) (active_vregs s) (stack_usage s))
  | IN_REG r =>
      ASSERT (pre_alloced v);;
      k ← alloc_index t r;
      if Z.land free (Z.shiftl 1 k) =? 0 then
        existing ← find_existing (vregs s) r (active_vregs s);
        match existing with
        | None => ICE
        | Some e =>
            w ← vreg_at (vregs s) e;
            ASSERT (negb (pre_alloced w));;
            spill s e
        end
      else Ok (mkScan (vregs s) (take_reg (free_regs_bitsets s) t k) (active_vregs s) (stack_usage s))
  | ON_STACK _ => ICE
  end.

(** Insertion before the first active range that ends later. *)
Fixpoint insert_active (l : list VReg) (i : nat) (end_ : Z) (active : list nat) : res (list nat) :=
  match active with
  | [] => Ok [i]
  | a :: rest =>
      v ← vreg_at l a;
      if end_ <? live_range_end v then Ok (i :: active)
      else rest ← insert_active l i end_ rest; Ok (a :: rest)
  end.

Definition scan_one (s : Scan) (i : nat) : res Scan :=
  v ← vreg_at (vregs s) i;
  '(f, active) ← expire (vregs s) (live_range_start v) (free_regs_bitsets s) (active_vregs s);
  s ← assign (mkScan (vregs s) f active (stack_usage s)) i;
  active ← insert_active (vregs s) i (live_range_end v) (active_vregs s);
  Ok (mkScan (vregs s) (free_regs_bitsets s) active (stack_usage s)).

(** [qsort] compares through the pointers. *)
Definition start_of (l : list VReg) (i : nat) : Z :=
  match l !! i with Some v => live_range_start v | None => 0 end.
Definition compare_live_range_start (l : list VReg) (a b : nat) : Z :=
  compare_int (start_of l a) (start_of l b).

(** The registers that have a live range, by index. *)
Definition live_range_list (l : list VReg) : res (list nat) :=
  foldM (fun out i =>
    v ← vreg_at l i;
    if live_range_start v =? -1 then ASSERT (live_range_end v =? -1);; Ok out
    else Ok (out ++ [i])) [] (seq 0 (length l)).

Definition linear_scan (l : list VReg) (usage : Z) : res Scan :=
  ranges ← live_range_list l;
  order ← qsort (compare_live_range_start l) ranges;
  foldM scan_one (mkScan l all_free [] usage) order.

(** ** Spilling around calls *)

(** The [while] at the top of the pass. A first range without an end would make
    it spin. *)
Fixpoint drop_ended (l : list VReg) (i : Z) (active : list nat) : res (list nat) :=
  match active with
  | [] => Ok []
  | a :: rest =>
      v ← vreg_at l a;
      if live_range_end v =? -1 then Stop NoFuel
      else if i <=? u32 (live_range_end v) then Ok active
      else ASSERT (match vreg_u v with IN_REG _ => true | _ => false end);; drop_ended l i rest
  end.

(** Insertion before the first range that has ended. *)
Fixpoint insert_ended (l : list VReg) (i : Z) (x : nat) (active : list nat) : res (list nat) :=
  match active with
  | [] => Ok [x]
  | a :: rest =>
      v ← vreg_at l a;
      if negb (live_range_end v =? -1) && (u32 (live_range_end v) <? i) then Ok (x :: active)
      else rest ← insert_ended l i x rest; Ok (a :: rest)
  end.

(** The loop at a [CALL]: active registers in caller-saved machine registers move
    to the stack. *)
Fixpoint spill_caller_saved (l : list VReg) (usage : Z) (active : list nat) : res (list VReg * Z * list nat) :=
  match active with
  | [] => Ok (l, usage, [])
  | a :: rest =>
      v ← vreg_at l a;
      match vreg_u v with
      | IN_REG r =>
          if Z.land (Z.shiftl 1 (reg_class_num r)) CALLER_SAVE_REGS_BITMASK =? 0 then
            '(l, usage, rest) ← spill_caller_saved l usage rest; Ok (l, usage, a :: rest)
          else
            l ← store l (Z.of_nat a) (set_vreg_u v (ON_STACK usage));
            spill_caller_saved l (u32 (usage + 8)) rest
      | _ => '(l, usage, rest) ← spill_caller_saved l usage rest; Ok (l, usage, a :: rest)
      end
  end.

Record Calls := mkCalls { c_vregs : list VReg; c_usage : Z; c_active : list nat; c_index : nat }.

(** The register [vreg_index] becomes active when its range starts here. *)
Definition activate (s : Calls) (i : Z) : res Calls :=
  if decide (c_index s = length (c_vregs s)) then Ok s
  else
    v ← vreg_at (c_vregs s) (c_index s);
    match vreg_u v with
    | IN_REG _ =>
        if negb (pre_alloced v) && (u32 (live_range_start v) =? i) then
          active ← insert_ended (c_vregs s) i (c_index s) (c_active s);
          Ok (mkCalls (c_vregs s) (c_usage s) active (S (c_index s)))
        else Ok s
    | _ => Ok s
    end.

Definition call_step (body : list AsmInstr) (s : Calls) (i : nat) : res Calls :=
  active ← drop_ended (c_vregs s) (Z.of_nat i) (c_active s);
  s ← activate (mkCalls (c_vregs s) (c_usage s) active (c_index s)) (Z.of_nat i);
  instr ← ref body (Z.of_nat i);
  if decide (op instr = CALL) then
    '(l, usage, active) ← spill_caller_saved (c_vregs s) (c_usage s) (c_active s);
    Ok (mkCalls l usage active (c_index s))
  else Ok s.

Definition spill_across_calls (body : list AsmInstr) (l : list VReg) (usage : Z) : res (list VReg * Z) :=
  s ← foldM (call_step body) (mkCalls l usage [] 0) (seq 0 (length body));
  Ok (c_vregs s, c_usage s).

(** The two passes that choose places. *)
Definition assign_places (body : list AsmInstr) (l : list VReg) (usage : Z) : res (list VReg * Z) :=
  s ← linear_scan l usage;
  spill_across_calls body (vregs s) (stack_usage s).

(** ** Rewriting virtual registers *)

Definition set_arg (i : AsmInstr) (j : nat) (a : AsmValue) : AsmInstr :=
  mkAsmInstr (op i) (<[j := a]> (args i)) (vreg_deps i) (label i).

(** [reg->t = PHYS_REG; reg->u.class = c] *)
Definition with_class (a : AsmValue) (c : RegClass) : AsmValue :=
  let set r := mkRegister (width r) (value_width r) (PHYS_REG c) in
  mkAsmValue (is_deref a)
    (match value_u a with
     | ASM_VALUE_REGISTER r => ASM_VALUE_REGISTER (set r)
     | ASM_VALUE_OFFSET_REGISTER r o => ASM_VALUE_OFFSET_REGISTER (set r) o
     | ASM_VALUE_CONST k => ASM_VALUE_CONST k
     end).

(** [curr_sp_diff] after looking at an instruction. *)
Definition track_sp (i : AsmInstr) (curr_sp_diff : Z) : res Z :=
  if decide (op i = SUB) then
    a ← ref (args i) 0;
    match value_u a with
    | ASM_VALUE_REGISTER r =>
        match reg_u r with
        | PHYS_REG REG_CLASS_SP =>
            b ← ref (args i) 1;
            match value_u b with
            | ASM_VALUE_CONST (ASM_CONST_IMMEDIATE c) => Ok (u32 (curr_sp_diff + c))
            | _ => ICE
            end
        | _ => Ok curr_sp_diff
        end
    | _ => Ok curr_sp_diff
    end
  else Ok curr_sp_diff.

(** [ARRAY_INSERT]: growing the array moves it, and the code goes on using
    pointers into the old block. *)
Definition insert_instr (capacity : Z) (body : list AsmInstr) (at_ : nat) (x : AsmInstr) : res (list AsmInstr) :=
  if Z.of_nat (length body) + 1 <=? capacity then Ok (take at_ body ++ x :: drop at_ body) else Stop Undef.

Definition spill_op (t : RegType) (reg : Register) : AsmOp :=
  match t with
  | REG_TYPE_INTEGER => MOV
  | REG_TYPE_FLOAT => if value_width reg =? 32 then MOVSS else MOVSD
  end.

(** The register width of operand [j] of [i]; operands that are not there are zero. *)
Definition arg_width (i : AsmInstr) (j : nat) : Z :=
  match args i !! j with
  | Some a => match value_reg a with Some r => width r | None => 0 end
  | None => 0
  end.

(** The case [ON_STACK]. After the first insertion [arg] points into the load
    that was put in front of the instruction. *)
Definition rewrite_spilled (capacity : Z) (body : list AsmInstr) (i j : nat) (instr : AsmInstr) (arg : AsmValue)
    (reg : Register) (vreg : VReg) (slot curr_sp_diff : Z) : res (list AsmInstr) :=
  let c := spill_register (reg_alloc_params (vreg_type vreg)) in
  let o := spill_op (vreg_type vreg) reg in
  location ← asm_offset_reg REG_CLASS_SP 64 (asm_const_imm (u32 (slot + curr_sp_diff)));
  target ← asm_phys_reg c (width reg);
  let load := mkAsmInstr o [target; asm_deref location] [] None in
  body ← insert_instr capacity (<[i := set_arg instr j (with_class arg c)]> body) i load;
  source ← asm_phys_reg c (arg_width load j);
  insert_instr capacity body (S (S i)) (mkAsmInstr o [asm_deref location; source] [] None).

(** One operand; [instr] is the instruction at [i] of the current array. *)
Definition rewrite_arg (vregs : list VReg) (capacity curr_sp_diff : Z) (i : nat) (s : list AsmInstr * nat)
  : res (list AsmInstr * nat + list AsmInstr) :=
  let '(body, j) := s in
  instr ← ref body (Z.of_nat i);
  match args instr !! j with
  | None => Ok (inr body)
  | Some arg =>
      match value_reg arg with
      | None => Ok (inl (body, S j))
      | Some reg =>
          match reg_u reg with
          | PHYS_REG _ => Ok (inl (body, S j))
          | V_REG n =>
              vreg ← ref vregs n;
              match vreg_u vreg with
              | IN_REG c => Ok (inl (<[i := set_arg instr j (with_class arg c)]> body, S j))
              | ON_STACK slot =>
                  body ← rewrite_spilled capacity body i j instr arg reg vreg slot curr_sp_diff;
                  Ok (inl (body, S j))
              | UNASSIGNED => UNREACHABLE
              end
          end
      end
  end.

Definition rewrite_instr (vregs : list VReg) (capacity : Z) (s : list AsmInstr * Z * nat)
  : res (list AsmInstr * Z * nat + list AsmInstr) :=
  let '(body, curr_sp_diff, i) := s in
  match body !! i with
  | None => Ok (inr body)
  | Some instr =>
      curr_sp_diff ← track_sp instr curr_sp_diff;
      body ← loop (length (args instr) + 4) (rewrite_arg vregs capacity curr_sp_diff i) (body, 0%nat);
      Ok (inl (body, curr_sp_diff, S i))
  end.

(** Every pass over an operand turns it into a machine register and adds at most
    two instructions. *)
Definition rewrite_fuel (body : list AsmInstr) : nat :=
  S (length body + 2 * sum_list (length ∘ args <$> body)).

Definition rewrite_registers (vregs : list VReg) (capacity : Z) (body : list AsmInstr) : res (list AsmInstr) :=
  loop (rewrite_fuel body) (rewrite_instr vregs capacity) (body, 0, 0%nat).

(** ** The whole pass *)

Definition allocate_registers (garbage : list Z) (bd : AsmBuilder) : res AsmBuilder :=
  preds ← find_preds bd;
  l ← compute_live_ranges bd preds garbage;
  '(l, usage) ← assign_places (current_block bd) l (local_stack_usage bd);
  body ← rewrite_registers l (block_capacity bd) (current_block bd);
  Ok (mkBuilder (b_symbols bd) body (block_capacity bd) (ret_label bd) l usage).

(** ** Specification of liveness *)

(** Some path from [pc] uses the register before it defines it. *)
Inductive live (bd : AsmBuilder) (vn : Z) (v : VReg) : Z -> Prop :=
| live_use pc i : ref (current_block bd) pc = Ok i -> is_use i vn = true -> live bd vn v pc
| live_flow pc i s0 s1 s i' : ref (current_block bd) pc = Ok i -> successors bd i pc = Ok (s0, s1) ->
    s = s0 \/ s = s1 -> ref (current_block bd) s = Ok i' -> is_def i' vn v = Ok false ->
    live bd vn v s -> live bd vn v pc.

(** The operands that [is_def] looks at are there. *)
Definition has_operands (i : AsmInstr) : bool :=
  match op i with
  | XOR => (2 <=? length (args i))%nat
  | MOV | MOVSX | MOVZX | MOVSS | MOVSD | MOVAPS | CVTSD2SI | CVTSI2SD | CVTSI2SS | CVTSS2SI
  | CVTSS2SD | CVTSD2SS | POP | IMUL | SETE | SETNE | SETG | SETGE | SETL | SETLE =>
      (1 <=? length (args i))%nat
  | _ => true
  end.

(** Jumps name a symbol of the function, control does not run off the end at a
    conditional jump. *)
Definition flow_ok_at (bd : AsmBuilder) (pc : nat) (i : AsmInstr) : bool :=
  has_operands i
  && (if is_jump (op i) then
        match target_offset bd i with Ok (Some (_, d)) => 0 <=? d | Ok None => true | Stop _ => false end
      else true)
  && (if is_cond_jump (op i) then Z.of_nat pc + 1 <? Z.of_nat (length (current_block bd)) else true).

Definition flow_ok (bd : AsmBuilder) : bool :=
  let size := Z.of_nat (length (current_block bd)) in
  (0 <? size) && (size <? 2 ^ 31)
  && forallb (fun '(pc, i) => flow_ok_at bd pc i) (imap pair (current_block bd)).

(** Only a register that was assigned beforehand is in a register before allocation. *)
Definition vreg_ok (v : VReg) : Prop := pre_alloced v = true -> exists r, vreg_u v = IN_REG r.

(** What [find_preds] leaves on a symbol. *)
Definition preds_ok (bd : AsmBuilder) (preds : Preds) : Prop :=
  let size := Z.of_nat (length (current_block bd)) in
  forall t l, preds !! t = Some l -> exists p, l = [p] /\ 0 <= src_offset p < size /\ 0 <= dest_offset p < size.

(** ** Lemmas: control flow *)

Lemma flow_ok_spec bd : flow_ok bd = true ->
  0 < Z.of_nat (length (current_block bd)) < 2 ^ 31 /\
  forall pc i, ref (current_block bd) pc = Ok i -> flow_ok_at bd (Z.to_nat pc) i = true.
Proof.
  unfold flow_ok. intros H. bsplit. split; [lia |]. intros pc i [Hpc E]%ref_Ok.
  rewrite forallb_forall in H0. apply (H0 (Z.to_nat pc, i)).
  apply list_elem_of_In, list_elem_of_lookup. exists (Z.to_nat pc). by rewrite list_lookup_imap, E.
Qed.

Lemma target_bound bd i t d : target_offset bd i = Ok (Some (t, d)) ->
  d < Z.of_nat (length (current_block bd)).
Proof.
  unfold target_offset. intros (s & E & H)%res_bind_Ok. destruct (decide _); [done |].
  apply res_bind_Ok in H as (sym & E' & H). apply res_bind_Ok in H as ([] & A & H).
  injection H as <- <-. unfold ASSERT in A. destruct (Z.ltb_spec (sym_offset sym) (Z.of_nat (length (current_block bd)))); done.
Qed.

Lemma find_preds_spec bd : flow_ok bd = true -> exists preds, find_preds bd = Ok preds /\ preds_ok bd preds.
Proof.
  intros [Hs Hf]%flow_ok_spec.
  apply (foldM_seq (fun _ p => preds_ok bd p)); [by intros t l E%lookup_empty_Some |].
  intros k preds Hk Hp. unfold find_preds_at.
  destruct (ref_lt (current_block bd) (Z.of_nat k) ltac:(lia)) as [i E]. rewrite E. cbn [mbind res_bind].
  specialize (Hf _ _ E). unfold flow_ok_at in Hf. bsplit.
  destruct (is_jump (op i)); cbn [negb]; [| by exists preds].
  destruct (target_offset bd i) as [[[t d]|]|] eqn:Et; [| by exists preds | done].
  bsplit. cbn [mbind res_bind]. eexists. split; [done |]. pose proof (target_bound _ _ _ _ Et).
  intros t' l [[<- <-]|[_ El]]%lookup_insert_Some; [| eauto].
  exists (mkPred d (Z.of_nat k)). cbn. split; [| lia].
  destruct (preds !! t) as [l|] eqn:El; cbn; [| done]. by destruct (Hp _ _ El) as (p & -> & _).
Qed.

Lemma successors_ok bd i pc : flow_ok bd = true -> ref (current_block bd) pc = Ok i ->
  exists s0 s1, successors bd i pc = Ok (s0, s1) /\
    (s0 = -1 \/ 0 <= s0 < Z.of_nat (length (current_block bd))) /\
    (s1 = -1 \/ 0 <= s1 < Z.of_nat (length (current_block bd))).
Proof.
  intros [Hs Hf]%flow_ok_spec E. specialize (Hf _ _ E). pose proof (ref_in_bounds _ _ _ E) as Hpc.
  unfold flow_ok_at in Hf. apply andb_prop in Hf as [Hf Hc]. apply andb_prop in Hf as [_ Hj].
  unfold successors. destruct (is_jump (op i)).
  - destruct (target_offset bd i) as [[[t d]|]|] eqn:Et; [| | done]; cbn [mbind res_bind].
    all: eexists _, _; split; [done |].
    1: apply target_bound in Et; bsplit; split; [lia |].
    2: split; [by left |].
    all: destruct (is_cond_jump (op i)); [bsplit; lia | by left].
  - eexists _, _. split; [done |]. split; [| by left].
    destruct (Z.eqb_spec pc (Z.of_nat (length (current_block bd)) - 1)); cbn; lia.
Qed.

Lemma is_def_ok bd pc i vn v : flow_ok bd = true -> ref (current_block bd) pc = Ok i -> vreg_ok v ->
  exists b, is_def i vn v = Ok b.
Proof.
  intros [_ Hf]%flow_ok_spec E Hv. specialize (Hf _ _ E). unfold flow_ok_at in Hf. bsplit.
  unfold has_operands in *. unfold is_def, assigned_register, vreg_ok in *.
  assert (R : forall k, (k < length (args i))%nat -> exists a, ref (args i) (Z.of_nat k) = Ok a)
    by (intros; apply ref_lt; lia).
  destruct (op i); try (by eexists);
    try (destruct (pre_alloced v); [destruct (Hv eq_refl) as [r ->]; cbn |]; by eexists);
    match goal with H : (_ <=? _)%nat = true |- _ => apply Nat.leb_le in H end;
    destruct (R 0%nat ltac:(lia)) as [a Ea]; change (Z.of_nat 0) with 0 in Ea; rewrite Ea;
    cbn [mbind res_bind]; try (by eexists).
  destruct (references_vreg a vn); [| by eexists].
  destruct (R 1%nat ltac:(lia)) as [b Eb]. change (Z.of_nat 1) with 1 in Eb. rewrite Eb. by eexists.
Qed.

(** ** Lemmas: bit sets as finite sets *)

Definition bs_memb (b : BitSet) (i : nat) : bool :=
  match bits b !! Z.to_nat (Z.of_nat i / 64) with Some w => Z.testbit w (Z.of_nat i mod 64) | None => false end.

Lemma bs_memb_mem b i : 0 <= i -> bs_memb b (Z.to_nat i) = true <-> bs_mem b i.
Proof.
  intros Hi. unfold bs_memb, bs_mem. rewrite Z2Nat.id by done.
  destruct (bits b !! _) as [w|]; [| naive_solver]. split; [eauto | by intros (_ & ? & [= ->] & ?)].
Qed.

Lemma bs_mem_dec b i : 0 <= i -> bs_mem b i \/ ~ bs_mem b i.
Proof. intros Hi. rewrite <- bs_memb_mem by done. destruct (bs_memb b (Z.to_nat i)); auto. Qed.

Fixpoint count (f : nat -> bool) (n : nat) : nat :=
  match n with O => 0 | S n => (if f n then 1 else 0) + count f n end.

Lemma count_le f n : (count f n <= n)%nat.
Proof. induction n; cbn; [lia |]. destruct (f n); lia. Qed.

Lemma count_mono f g n : (forall i, (i < n)%nat -> f i = true -> g i = true) -> (count f n <= count g n)%nat.
Proof.
  induction n as [|n IH]; intros H; [done |]. cbn. specialize (IH ltac:(auto)).
  pose proof (H n ltac:(lia)). destruct (f n), (g n); lia || naive_solver.
Qed.

Lemma count_lt f g n k : (k < n)%nat -> (forall i, (i < n)%nat -> f i = true -> g i = true) ->
  f k = false -> g k = true -> (count f n < count g n)%nat.
Proof.
  induction n as [|n IH]; intros Hk H Hf Hg; [lia |]. cbn. destruct (decide (k = n)) as [->|].
  - rewrite Hf, Hg. pose proof (count_mono f g n ltac:(auto)). lia.
  - specialize (IH ltac:(lia) ltac:(auto) Hf Hg). pose proof (H n ltac:(lia)).
    destruct (f n), (g n); lia || naive_solver.
Qed.

Lemma scan_down_max b n : bs_wf b -> (n <= length (bits b))%nat ->
  (scan_down (bits b) n = Ok None /\ forall i, bs_mem b i -> 64 * Z.of_nat n <= i) \/
  (exists k w, scan_down (bits b) n = Ok (Some (k, w)) /\ highest_set_bit w = Ok (Z.log2 w) /\
     0 <= k < Z.of_nat n /\ 0 <= Z.log2 w < 64 /\ bs_mem b (64 * k + Z.log2 w) /\
     forall i, bs_mem b i -> i < 64 * Z.of_nat n -> i <= 64 * k + Z.log2 w).
Proof.
  intros Hwf Hn. destruct (scan_down_spec (bits b) n Hn) as [[-> Hz] | (k & w & -> & Hk & E & Hw & Hz)].
  - left. split; [done |]. intros i Hi. destruct (bs_mem_split b i Hwf Hi) as (k & w & j & -> & Hk & E & Hj & B & _).
    destruct (Z.lt_ge_cases k (Z.of_nat n)); [| lia]. rewrite (Hz k w ltac:(lia) E), Z.bits_0 in B. done.
  - right. pose proof (bs_word b _ w Hwf E) as Hu. pose proof (nonzero_word w Hu Hw) as Hr.
    exists k, w. rewrite highest_set_bit_correct by done. pose proof (log2_u64 w Hr).
    repeat (split; [done || lia |]).
    split; [eapply bs_mem_intro; eauto; [lia | apply log2_testbit; lia] |]. intros i Hi Hin.
    destruct (bs_mem_split b i Hwf Hi) as (k' & w' & j' & -> & Hk' & E' & Hj' & B' & _).
    destruct (Z.lt_ge_cases k k'); [rewrite (Hz k' w' ltac:(lia) E'), Z.bits_0 in B'; done |].
    destruct (decide (k' = k)) as [->|]; [| lia].
    assert (w' = w) as -> by congruence. destruct (Z.lt_ge_cases (Z.log2 w) j'); [| lia].
    rewrite Z.bits_above_log2 in B' by lia. done.
Qed.

Lemma next_largest_spec ws pc largest : bs_wf ws -> 0 <= pc < size_in_bits ws ->
  (forall i, bs_mem ws i -> i <= largest) ->
  (pc <> largest -> (forall i, ~ bs_mem ws i) \/ bs_mem ws largest) -> 
  exists r, next_largest ws pc largest = Ok r /\ (forall i, bs_mem ws i -> i <= r) /\
    ((forall i, ~ bs_mem ws i) \/ bs_mem ws r) /\ (0 <= largest < size_in_bits ws -> 0 <= r < size_in_bits ws).
Proof.
  intros Hwf Hpc Hmax Hin. unfold next_largest. destruct (Z.eqb_spec pc largest) as [<-|Hne]; [| exists largest; auto].
  destruct (bs_index ws pc Hwf Hpc) as [Hd Hm]. pose proof (Z.div_mod pc 64 ltac:(lia)).
  pose proof (bs_length ws Hwf).
  destruct (scan_down_max ws (Z.to_nat (pc / 64 + 1)) Hwf ltac:(lia))
    as [[-> Hno] | (k & w & -> & Eh & Hk & Hl & Hmem & Hmx)]; cbn [mbind res_bind].
  - exists pc. split; [done |]. split; [done |]. split; [| done]. left. intros i Hi.
    specialize (Hno i Hi). specialize (Hmax i Hi). lia.
  - rewrite Eh. cbn [mbind res_bind]. specialize (Hmax _ Hmem) as Hle.
    pose proof (bs_size ws Hwf). exists (64 * k + Z.log2 w). rewrite (wrap_small 32) by lia. split; [done |]. split; [| split; [by right |]].
    + intros i Hi. apply Hmx; [done |]. specialize (Hmax i Hi). lia.
    + lia.
Qed.

(** ** Lemmas: the liveness loops *)

Section Liveness.
Context (bd : AsmBuilder) (preds : Preds) (vn : Z) (v : VReg).
Hypothesis Hflow : flow_ok bd = true.
Hypothesis Hpreds : preds_ok bd preds.
Hypothesis Hvreg : vreg_ok v.
Let size := Z.of_nat (length (current_block bd)).

(** What the two nested loops maintain. *)
Record live_inv (s : Live) : Prop := {
  li_l : bs_wf (liveness s) /\ size_in_bits (liveness s) = size;
  li_w : bs_wf (working_set s) /\ size_in_bits (working_set s) = size;
  li_max : forall i, bs_mem (working_set s) i -> i <= largest_working_set_elem s;
  li_in : (forall i, ~ bs_mem (working_set s) i) \/ bs_mem (working_set s) (largest_working_set_elem s);
  li_bound : 0 <= largest_working_set_elem s < size;
  li_range : forall i, bs_mem (liveness s) i -> i < size;
  li_disj : forall i, bs_mem (working_set s) i -> ~ bs_mem (liveness s) i;
  li_sound : forall i, bs_mem (liveness s) i -> live bd vn v i;
  li_seen : forall pc i, ref (current_block bd) pc = Ok i -> is_use i vn = true ->
    bs_mem (working_set s) pc \/ bs_mem (liveness s) pc
}.

Lemma live_through_ok l s : bs_wf l -> size_in_bits l = size -> s = -1 \/ 0 <= s < size ->
  exists b, live_through bd vn v l s = Ok b /\
    (b = true -> exists i, ref (current_block bd) s = Ok i /\ is_def i vn v = Ok false /\ bs_mem l s).
Proof.
  intros Hwf Hsz Hs. unfold live_through. destruct (Z.eqb_spec s (-1)); [by exists false |].
  destruct (get_bit_mem l s Hwf ltac:(lia)) as (b & -> & Hb). cbn [mbind res_bind].
  destruct b; [| by exists false].
  destruct (ref_lt (current_block bd) s ltac:(lia)) as [i E]. rewrite E. cbn [mbind res_bind].
  destruct (is_def_ok bd s i vn v Hflow E Hvreg) as [d Ed]. rewrite Ed. cbn [mbind res_bind].
  exists (negb d). split; [done |]. intros Hd%negb_true_iff. subst d. exists i. naive_solver.
Qed.

Lemma is_live_ok l pc i : bs_wf l -> size_in_bits l = size -> (forall j, bs_mem l j -> live bd vn v j) ->
  ref (current_block bd) pc = Ok i ->
  exists b, is_live bd vn v l pc = Ok b /\ (b = true -> live bd vn v pc) /\ (is_use i vn = true -> b = true).
Proof.
  intros Hwf Hsz Hsound E. unfold is_live. rewrite E. cbn [mbind res_bind].
  destruct (successors_ok bd i pc Hflow E) as (s0 & s1 & Es & H0 & H1). rewrite Es. cbn [mbind res_bind].
  destruct (is_use i vn) eqn:U; [exists true; split; [done |]; split; [intros; by eapply live_use | done] |].
  destruct (live_through_ok l s0 Hwf Hsz H0) as (a & -> & Ha). cbn [mbind res_bind].
  assert (F : forall s, s = s0 \/ s = s1 -> (exists i, ref (current_block bd) s = Ok i /\
    is_def i vn v = Ok false /\ bs_mem l s) -> live bd vn v pc).
  { intros s Hs (i' & E' & Hd & Hm). eapply live_flow; eauto. }
  destruct a; [exists true; split; [done |]; split; [intros _; apply (F s0); auto | done] |].
  destruct (live_through_ok l s1 Hwf Hsz H1) as (b & -> & Hb).
  exists b. split; [done |]. split; [intros Eb; apply (F s1); auto | done].
Qed.

(** Where the analysis looks next. *)
Lemma prev_in_range pc i : ref (current_block bd) pc = Ok i ->
  preds_at preds i = [] \/ exists p, preds_at preds i = [p] /\ 0 <= src_offset p < size.
Proof.
  intros E. unfold preds_at. destruct (label i) as [t|]; [| by left].
  destruct (preds !! t) as [l|] eqn:El; [| by left]. right.
  destruct (Hpreds _ _ El) as (p & -> & Hp & _). by exists p.
Qed.

(** The state after [pc] has been looked at. *)
Lemma live_inv_step l ws largest ws' largest' l' pc i (new : bool) :
  live_inv (mkLive l ws largest) -> ref (current_block bd) pc = Ok i -> ~ bs_mem l pc ->
  bs_wf ws' -> size_in_bits ws' = size -> (forall j, 0 <= j -> bs_mem ws' j <-> (if j =? pc then False else bs_mem ws j)) ->
  (forall j, bs_mem ws' j -> j <= largest') -> (forall j, ~ bs_mem ws' j) \/ bs_mem ws' largest' ->
  0 <= largest' < size ->
  bs_wf l' -> size_in_bits l' = size -> (forall j, 0 <= j -> bs_mem l' j <-> (if j =? pc then new = true else bs_mem l j)) ->
  (new = true -> live bd vn v pc) -> (is_use i vn = true -> new = true) ->
  live_inv (mkLive l' ws' largest').
Proof.
  intros [[Hl Hls] [Hw Hws] _ _ _ Hr Hd Hs Hseen] E Hpc Hw' Hws' Hmw Hmax Hin Hb Hl' Hls' Hml Hnew Huse.
  cbn in *. pose proof (ref_in_bounds _ _ _ E).
  assert (P : forall b j, bs_mem b j -> 0 <= j) by (intros b j [? _]; done).
  constructor; cbn; try done.
  - intros j Hj. pose proof (P _ _ Hj). apply Hml in Hj; [| done].
    destruct (Z.eqb_spec j pc); [subst; unfold size; lia | by apply Hr].
  - intros j Hj Hj'. pose proof (P _ _ Hj). apply Hmw in Hj; [| done]. apply Hml in Hj'; [| done].
    destruct (Z.eqb_spec j pc); [done | by eapply Hd].
  - intros j Hj. pose proof (P _ _ Hj). apply Hml in Hj; [| done].
    destruct (Z.eqb_spec j pc); [subst; auto | by apply Hs].
  - intros pc' i' E' U. pose proof (ref_in_bounds _ _ _ E'). rewrite Hmw, Hml by lia.
    destruct (Z.eqb_spec pc' pc); [right; apply Huse; congruence | eauto].
Qed.

(** One pass of the inner loop. It never fails; it goes on only after [pc] has
    become live. *)
Lemma liveness_body_step s pc fuel : live_inv s -> 0 <= pc < size -> ~ bs_mem (liveness s) pc ->
  exists r, liveness_body bd preds vn v (S fuel) (s, pc) = Ok r /\
    let done s' := live_inv s' /\
      (forall j, bs_mem (working_set s') j -> bs_mem (working_set s) j /\ j <> pc) in
    match r with
    | inr s' => done s'
    | inl (s', pc') => done s' /\ 0 <= pc' < size /\ ~ bs_mem (liveness s') pc' /\
        (forall j, bs_mem (liveness s) j -> bs_mem (liveness s') j) /\ bs_mem (liveness s') pc
    end.
Proof.
  destruct s as [l ws largest]. intros HI Hpc Hnl. cbn in *. pose proof HI as [[Hl Hls] [Hw Hws] Hmax Hin Hb Hr Hd Hs Hseen].
  cbn in *. unfold liveness_body.
  destruct (set_bit_spec ws pc false Hw ltac:(lia)) as (ws' & -> & Hw' & Hws' & Hmw). cbn [mbind res_bind].
  rewrite Hws in Hws'.
  assert (Sub : forall j, bs_mem ws' j -> bs_mem ws j /\ j <> pc).
  { intros j Hj. pose proof (proj1 Hj). apply Hmw in Hj; [| done]. by destruct (Z.eqb_spec j pc). }
  destruct (next_largest_spec ws' pc largest Hw' ltac:(lia)) as (r & -> & Hrmax & Hrin & Hrb).
  { intros j [Hj _]%Sub. auto. }
  { intros Hne. destruct Hin as [Hno|Hin]; [left; intros j [Hj _]%Sub; by eapply Hno |].
    right. apply Hmw; [lia |]. destruct (Z.eqb_spec largest pc); [congruence | done]. }
  cbn [mbind res_bind]. specialize (Hrb ltac:(lia)). rewrite Hws' in Hrb.
  destruct (get_bit_mem l pc Hl ltac:(lia)) as (b & -> & Hbm). cbn [mbind res_bind].
  destruct b; [destruct Hnl; by apply Hbm |]. cbn [negb ASSERT mbind res_bind].
  destruct (ref_lt (current_block bd) pc ltac:(lia)) as [i E].
  destruct (is_live_ok l pc i Hl Hls Hs E) as (new & -> & Hnew & Huse). cbn [mbind res_bind].
  destruct (set_bit_spec l pc new Hl ltac:(lia)) as (l' & -> & Hl' & Hls' & Hml). cbn [mbind res_bind].
  rewrite Hls in Hls'. rewrite E. cbn [mbind res_bind].
  assert (HI' : live_inv (mkLive l' ws' r)).
  { eapply (live_inv_step l ws largest ws' r l' pc i new); eauto.
    intros j Hj. rewrite Hmw by done. by destruct (j =? pc). }
  assert (Go : forall prev, 0 <= prev < size ->
    exists x, (b ← bit_set_get_bit l' prev;
      if new && negb b then Ok (inl (mkLive l' ws' r, prev)) else Ok (inr (mkLive l' ws' r))) = Ok x /\
    match x with
    | inr s' => live_inv s' /\ (forall j, bs_mem (working_set s') j -> bs_mem ws j /\ j <> pc)
    | inl (s', pc') => (live_inv s' /\ (forall j, bs_mem (working_set s') j -> bs_mem ws j /\ j <> pc)) /\
        0 <= pc' < size /\ ~ bs_mem (liveness s') pc' /\
        (forall j, bs_mem l j -> bs_mem (liveness s') j) /\ bs_mem (liveness s') pc
    end).
  { intros prev Hprev. destruct (get_bit_mem l' prev Hl' ltac:(lia)) as (b & -> & Hpm). cbn [mbind res_bind].
    destruct (new && negb b) eqn:C; [| by exists (inr (mkLive l' ws' r))]. bsplit. subst new b.
    exists (inl (mkLive l' ws' r, prev)). split; [done |]. split; [auto |]. split; [done |].
    split; [cbn; intros Hm; by apply Hpm in Hm |]. split.
    - intros j Hj. apply Hml; [apply Hj |]. by destruct (j =? pc).
    - apply Hml; [lia |]. by rewrite Z.eqb_refl. }
  destruct (prev_in_range pc i E) as [-> | (p & -> & Hp)]; cbn [lookup list_lookup];
    [| destruct (dest_offset p =? pc); [destruct new; cbn [loop add_preds_body mbind res_bind]; by apply Go |]];
    (destruct (Z.eqb_spec pc 0); [eexists; split; [done |]; cbn; auto |];
     destruct new; cbn [loop add_preds_body mbind res_bind]; apply Go; lia).
Qed.

Let n := length (current_block bd).

Lemma inner_loop s : live_inv s -> bs_mem (working_set s) (largest_working_set_elem s) ->
  exists s', loop (S n) (liveness_body bd preds vn v (S n)) (s, largest_working_set_elem s) = Ok s' /\
    live_inv s' /\ (forall j, bs_mem (working_set s') j -> bs_mem (working_set s) j) /\
    ~ bs_mem (working_set s') (largest_working_set_elem s).
Proof.
  intros HI Hin. set (pc0 := largest_working_set_elem s). pose proof (li_bound s HI) as Hb.
  apply (loop_total
    (fun '(t, pc) => live_inv t /\ 0 <= pc < size /\ ~ bs_mem (liveness t) pc /\
       (forall j, bs_mem (working_set t) j -> bs_mem (working_set s) j) /\
       (pc = pc0 \/ ~ bs_mem (working_set t) pc0))
    (fun '(t, _) => count (fun k => negb (bs_memb (liveness t) k)) n)).
  - intros [t pc] (HIt & Hpc & Hnl & Hsub & Hpc0).
    destruct (liveness_body_step t pc n HIt Hpc Hnl) as (r & Er & Hr). exists r. split; [done |].
    destruct r as [[t' pc'] | t'].
    + destruct Hr as ((HIt' & Hsub') & Hpc' & Hnl' & Hgrow & Hnow). split.
      * repeat (split; [done |]). split; [intros j Hj; apply Hsub, Hsub', Hj |].
        right. intros Hm. apply Hsub' in Hm as [Hm Hne]. destruct Hpc0; congruence.
      * apply (count_lt _ _ _ (Z.to_nat pc)); [unfold n, size in *; lia | | |].
        -- intros k _ Hk%negb_true_iff. apply negb_true_iff, not_true_iff_false. intros Hm.
           apply not_true_iff_false in Hk. apply Hk. rewrite <- (Nat2Z.id k) in *.
           apply bs_memb_mem; [lia |]. apply Hgrow. apply bs_memb_mem; [lia | done].
        -- apply negb_false_iff, bs_memb_mem; [lia | done].
        -- apply negb_true_iff, not_true_iff_false. rewrite bs_memb_mem by lia. done.
    + destruct Hr as (HIt' & Hsub'). split; [done |]. split; [intros j Hj; apply Hsub, Hsub', Hj |].
      intros Hm. apply Hsub' in Hm as [Hm Hne]. destruct Hpc0; congruence.
  - repeat (split; [done |]). split; [| auto]. intros Hl. by eapply (li_disj s HI).
  - pose proof (count_le (fun k => negb (bs_memb (liveness s) k)) n). lia.
Qed.

Lemma outer_loop s : live_inv s ->
  exists s', loop (S (S n)) (working_set_body bd preds vn v (S n)) s = Ok s' /\
    live_inv s' /\ forall j, ~ bs_mem (working_set s') j.
Proof.
  intros HI. apply (loop_total live_inv (fun t => count (bs_memb (working_set t)) n));
    [| done | pose proof (count_le (bs_memb (working_set s)) n); lia].
  intros t HIt. unfold working_set_body. pose proof (li_w t HIt) as [Hw Hws].
  destruct (is_empty_set (working_set t) Hw) as (e & -> & He). cbn [mbind res_bind].
  destruct e; [exists (inr t); split; [done |]; split; [done | by apply He] |].
  assert (Hin : bs_mem (working_set t) (largest_working_set_elem t)).
  { destruct (li_in t HIt) as [Hno | Hin]; [| done]. by apply He in Hno. }
  destruct (inner_loop t HIt Hin) as (t' & -> & HIt' & Hsub & Hgone). cbn [mbind res_bind].
  exists (inl t'). split; [done |]. split; [done |].
  pose proof (li_bound t HIt) as Hb.
  apply (count_lt _ _ _ (Z.to_nat (largest_working_set_elem t))); [unfold n, size in *; lia | | |].
  - intros k _ Hk. rewrite <- (Nat2Z.id k) in *. apply bs_memb_mem in Hk; [| lia].
    apply bs_memb_mem; [lia | auto].
  - apply not_true_iff_false. rewrite bs_memb_mem by lia. done.
  - apply bs_memb_mem; [lia | done].
Qed.

(** The analysis of one virtual register. *)
Lemma liveness_total l ws : bs_wf l -> size_in_bits l = size -> bs_wf ws -> size_in_bits ws = size ->
  exists l1 ws1 l' ws' g, bit_set_clear_all l = Ok l1 /\ bit_set_set_all ws = Ok ws1 /\
    loop (S (S n)) (working_set_body bd preds vn v (S n)) (mkLive l1 ws1 (u32 (size - 1))) = Ok (mkLive l' ws' g) /\
    (bs_wf l' /\ size_in_bits l' = size) /\ (bs_wf ws' /\ size_in_bits ws' = size) /\
    (forall pc, bs_mem l' pc -> live bd vn v pc) /\
    (forall pc i, ref (current_block bd) pc = Ok i -> is_use i vn = true -> bs_mem l' pc) /\
    (forall pc, bs_mem l' pc -> 0 <= pc < size).
Proof.
  intros Hl Hls Hw Hws. destruct (flow_ok_spec bd Hflow) as [Hs _]. fold size in Hs.
  destruct (clear_all_spec l Hl) as (l1 & El & Hl1 & Hls1 & Hno).
  destruct (set_all_spec ws Hw) as (ws1 & Ew & Hw1 & Hws1 & Hall).
  exists l1, ws1. rewrite (wrap_small 32) by lia.
  destruct (outer_loop (mkLive l1 ws1 (size - 1))) as ([l' ws' g] & E & HI & Hempty).
  { constructor; cbn; try (split; congruence || done); try lia.
    - intros i Hi%Hall. lia.
    - right. apply Hall. lia.
    - intros i Hi. by apply Hno in Hi.
    - intros i _ Hi. by apply Hno in Hi.
    - intros i Hi. by apply Hno in Hi.
    - intros pc i E _. left. apply Hall. apply ref_in_bounds in E. lia. }
  exists l', ws', g. repeat (split; [done |]). pose proof HI as [Hl' Hw' _ _ _ Hr _ Hsound Hseen]. cbn in *.
  split; [done |]. split; [done |]. split; [done |]. split.
  - intros pc i Ei U. destruct (Hseen pc i Ei U) as [Hm|]; [by apply Hempty in Hm | done].
  - intros pc Hm. split; [apply Hm | by apply Hr].
Qed.

End Liveness.

(** What the analysis promises of one virtual register: the range it had, or one
    that holds every use and whose ends are points where the register is live. *)
Definition range_spec (bd : AsmBuilder) (vn : Z) (v w : VReg) : Prop :=
  exists a b, w = set_range v a b /\
    (live_range_start v <> -1 -> live_range_end v <> -1 -> a = live_range_start v /\ b = live_range_end v) /\
    (live_range_start v = -1 \/ live_range_end v = -1 ->
       (forall pc i, ref (current_block bd) pc = Ok i -> is_use i vn = true -> a <= pc <= b)) /\
    (live_range_start v = -1 -> live_range_end v = -1 ->
       (a = -1 /\ b = -1) \/
       (0 <= a <= b /\ b < Z.of_nat (length (current_block bd)) /\ live bd vn v a /\ live bd vn v b)).

Lemma live_range_of_spec bd preds l ws vregs k v : flow_ok bd = true -> preds_ok bd preds ->
  let size := Z.of_nat (length (current_block bd)) in
  bs_wf l -> size_in_bits l = size -> bs_wf ws -> size_in_bits ws = size ->
  vregs !! k = Some v -> vreg_ok v ->
  exists l' ws' w, live_range_of bd preds (l, ws, vregs) k = Ok (l', ws', <[k := w]> vregs) /\
    (bs_wf l' /\ size_in_bits l' = size) /\ (bs_wf ws' /\ size_in_bits ws' = size) /\
    range_spec bd (Z.of_nat k) v w.
Proof.
  intros Hf Hp size Hl Hls Hw Hws Ek Hv. unfold live_range_of.
  rewrite (proj2 (ref_Ok vregs (Z.of_nat k) v)) by (rewrite Nat2Z.id; split; [lia | done]). cbn [mbind res_bind].
  pose proof (lookup_lt_Some _ _ _ Ek) as Hk.
  destruct (Z.eqb_spec (live_range_start v) (-1)) as [Es|Es], (Z.eqb_spec (live_range_end v) (-1)) as [Ee|Ee];
    cbn [negb andb].
  4: { exists l, ws, v. rewrite list_insert_id by done. repeat (split; [done |]).
       exists (live_range_start v), (live_range_end v). split; [by destruct v | lia]. }
  all: destruct (liveness_total bd preds (Z.of_nat k) v Hf Hp Hv l ws Hl Hls Hw Hws)
    as (l1 & ws1 & l' & ws' & g & -> & Ew & E & Hl' & Hw' & Hsound & Huse & Hrange);
    cbn [mbind res_bind]; rewrite Ew; cbn [mbind res_bind]; rewrite E; cbn [mbind res_bind];
    destruct (lowest_set_bit_set l' (proj1 Hl')) as (lo & -> & Hlo); cbn [mbind res_bind];
    destruct (highest_set_bit_set l' (proj1 Hl')) as (hi & -> & Hhi); cbn [mbind res_bind];
    rewrite store_Ok by lia; cbn [mbind res_bind]; rewrite Nat2Z.id;
    eexists _, _, _; (split; [done |]); (split; [done |]); (split; [done |]); eexists _, _; (split; [done |]).
  all: split; [lia |]; split.
  all: try (intros _ pc i Ei U; specialize (Huse pc i Ei U) as Hm;
    destruct Hlo as [[-> Hno] | (Hlo & Hlo0 & Hlomin)]; [by apply Hno in Hm |];
    destruct Hhi as [[-> Hno] | (Hhi & Hhi0 & Hhimax)]; [by apply Hno in Hm |];
    specialize (Hlomin _ Hm); specialize (Hhimax _ Hm)).
  all: try (zcases; cbn [orb andb negb]; lia).
  all: intros ? ?; try done. rewrite Es, Ee. cbn [Z.eqb Pos.eqb orb].
  destruct Hlo as [[-> Hno] | (Hlo & Hlo0 & Hlomin)], Hhi as [[-> Hno'] | (Hhi & Hhi0 & Hhimax)]; [by left | | |].
  - by apply Hno in Hhi.
  - by apply Hno' in Hlo.
  - right. pose proof (Hrange _ Hhi). specialize (Hhimax _ Hlo). auto with lia.
Qed.

Lemma compute_live_ranges_spec bd preds garbage : flow_ok bd = true -> preds_ok bd preds ->
  Forall vreg_ok (virtual_registers bd) -> Forall (is_u 64) garbage ->
  (Z.to_nat ((Z.of_nat (length (current_block bd)) + 63) / 64) <= length garbage)%nat ->
  exists vregs, compute_live_ranges bd preds garbage = Ok vregs /\
    Forall2 (fun '(k, v) w => range_spec bd (Z.of_nat k) v w) (imap pair (virtual_registers bd)) vregs.
Proof.
  intros Hf Hp Hv Hg Hlen. destruct (flow_ok_spec bd Hf) as [Hs _].
  destruct (bit_set_init_wf garbage _ Hs Hlen Hg) as [Hwf Hsz].
  set (size := Z.of_nat (length (current_block bd))) in *.
  unfold compute_live_ranges. fold size.
  destruct (foldM_seq (fun k '(l, ws, vregs) =>
      (bs_wf l /\ size_in_bits l = size) /\ (bs_wf ws /\ size_in_bits ws = size) /\
      length vregs = length (virtual_registers bd) /\
      forall i v, virtual_registers bd !! i = Some v ->
        if (i <? k)%nat then exists w, vregs !! i = Some w /\ range_spec bd (Z.of_nat i) v w
        else vregs !! i = Some v)
    (live_range_of bd preds) (length (virtual_registers bd))
    (bit_set_init garbage size, bit_set_init garbage size, virtual_registers bd))
    as ([[l ws] vregs] & -> & _ & _ & Hl & H).
  - repeat (split; [done |]). intros i v E. done.
  - intros k [[l ws] vregs] Hk ((Hl & Hls) & (Hw & Hws) & Hlv & H).
    destruct (lookup_lt_is_Some_2 _ _ Hk) as [v Ev].
    pose proof (H k v Ev) as Ek. rewrite Nat.ltb_irrefl in Ek.
    destruct (live_range_of_spec bd preds l ws vregs k v Hf Hp Hl Hls Hw Hws Ek
      ltac:(by eapply Forall_lookup_1 in Hv)) as (l' & ws' & w & -> & Hl' & Hw' & Hr).
    eexists. split; [done |]. cbn -[Nat.ltb]. split; [done |]. split; [done |].
    split; [by rewrite length_insert |]. intros i u Eu. specialize (H i u Eu).
    destruct (decide (i = k)) as [->|Hne].
    + rewrite (proj2 (Nat.ltb_lt k (S k))) by lia. exists w. rewrite list_lookup_insert_eq by lia.
      split; [done | congruence].
    + rewrite list_lookup_insert_ne by done.
      destruct (Nat.ltb_spec i k), (Nat.ltb_spec i (S k)); done || lia.
  - exists vregs. split; [done |]. apply Forall2_same_length_lookup_2; [by rewrite length_imap |].
    intros i [k v] w E Ew. rewrite list_lookup_imap in E.
    destruct (virtual_registers bd !! i) as [v'|] eqn:Ev; [| done]. cbn in E. injection E as <- <-.
    specialize (H i v' Ev). pose proof (lookup_lt_Some _ _ _ Ev).
    rewrite (proj2 (Nat.ltb_lt i _)) in H by done. destruct H as (w' & Ew' & Hr). congruence.
Qed.

(** ** Properties of the analysis *)

(** C15: the live-range analysis. On every well-formed function body [find_preds]
    and [compute_live_ranges] terminate without a failed assertion or an access
    outside the arrays; ranges set beforehand are kept, the range of every other
    register contains all its uses, and both ends of a computed range are points
    from which some path uses the register before redefining it. *)
Theorem live_ranges_cover_uses bd garbage :
  flow_ok bd = true -> Forall vreg_ok (virtual_registers bd) -> Forall (is_u 64) garbage ->
  (Z.to_nat ((Z.of_nat (length (current_block bd)) + 63) / 64) <= length garbage)%nat ->
  exists preds vregs, find_preds bd = Ok preds /\ compute_live_ranges bd preds garbage = Ok vregs /\
    Forall2 (fun '(k, v) w => range_spec bd (Z.of_nat k) v w) (imap pair (virtual_registers bd)) vregs.
Proof.
  intros Hf Hv Hg Hlen. destruct (find_preds_spec bd Hf) as (preds & E & Hp).
  destruct (compute_live_ranges_spec bd preds garbage Hf Hp Hv Hg Hlen) as (vregs & E' & H). eauto.
Qed.

(** Building blocks of the examples. *)
Definition ex_reg (k : Z) : AsmValue := mkAsmValue false (ASM_VALUE_REGISTER (mkRegister 64 64 (V_REG k))).
Definition ex_instr (o : AsmOp) (l : list AsmValue) (lab : option nat) : AsmInstr := mkAsmInstr o l [] lab.
Definition ex_symbol (offset : Z) : AsmSymbol :=
  mkAsmSymbol "l" TEXT_SECTION true ASM_LOCAL_LINKAGE 0 offset 0.
Definition ex_vreg : VReg := mkVReg UNASSIGNED false REG_TYPE_INTEGER (-1) (-1).

(** [v0 = 5; while (v0 != 0) v0 -= 1;] *)
Definition ex_loop : AsmBuilder := mkBuilder [ex_symbol 1; ex_symbol 0]
  [ex_instr MOV [ex_reg 0; asm_imm 5] None; ex_instr CMP [ex_reg 0; asm_imm 0] (Some 0%nat);
   ex_instr JE [asm_symbol 1] None; ex_instr SUB [ex_reg 0; asm_imm 1] None;
   ex_instr JMP [asm_symbol 0] None; ex_instr RET [] None] 16 1 [ex_vreg] 0.

Lemma live_ranges_cover_uses_witness :
  exists preds vregs, find_preds ex_loop = Ok preds /\ compute_live_ranges ex_loop preds [7] = Ok vregs /\
    vregs = [set_range ex_vreg 0 4] /\
    Forall2 (fun '(k, v) w => range_spec ex_loop (Z.of_nat k) v w) (imap pair [ex_vreg]) vregs.
Proof.
  destruct (live_ranges_cover_uses ex_loop [7]) as (preds & vregs & Ep & E & H);
    [reflexivity | by repeat constructor | by repeat constructor | vm_compute; lia |].
  exists preds, vregs. split; [exact Ep |]. split; [exact E |]. split; [| exact H].
  vm_compute in Ep. injection Ep as <-. vm_compute in E. injection E as <-. reflexivity.
Defined.

(** Three nested loops: [A: use v0; B: ; C: ; je A; je C; je B; ret]. *)
Definition ex_nested : AsmBuilder := mkBuilder [ex_symbol 1; ex_symbol 2; ex_symbol 3; ex_symbol 0]
  [ex_instr MOV [ex_reg 0; asm_imm 5] None; ex_instr CMP [ex_reg 0; asm_imm 0] (Some 0%nat);
   ex_instr NOP [] (Some 1%nat); ex_instr NOP [] (Some 2%nat); ex_instr JE [asm_symbol 0] None;
   ex_instr JE [asm_symbol 2] None; ex_instr JE [asm_symbol 1] None; ex_instr RET [] None] 16 3 [ex_vreg] 0.

(** live ranges can be too short. The analysis goes on from a label to one
    predecessor only, so a point that becomes live late is not propagated to the
    instruction before the label; here the range of v0 is computed as [0, 5]
    although v0 is live at the jump at 6. *)
Theorem live_range_misses_live_point :
  flow_ok ex_nested = true /\
  (preds ← find_preds ex_nested; compute_live_ranges ex_nested preds [0])
    = Ok [set_range ex_vreg 0 5] /\
  live ex_nested 0 ex_vreg 6.
Proof.
  split; [reflexivity |]. split; [vm_compute; reflexivity |].
  eapply (live_flow _ _ _ 6 _ 2 7 2); [reflexivity | reflexivity | by left | reflexivity | reflexivity |].
  eapply (live_flow _ _ _ 2 _ 3 (-1) 3); [reflexivity | reflexivity | by left | reflexivity | reflexivity |].
  eapply (live_flow _ _ _ 3 _ 4 (-1) 4); [reflexivity | reflexivity | by left | reflexivity | reflexivity |].
  eapply (live_flow _ _ _ 4 _ 1 5 1); [reflexivity | reflexivity | by left | reflexivity | reflexivity |].
  eapply live_use; reflexivity.
Qed.

(** ** Specification of linear scan *)

Definition end_of (l : list VReg) (i : nat) : Z :=
  match l !! i with Some v => live_range_end v | None => 0 end.

(** Everything of a register but its place. *)
Definition erase (v : VReg) : VReg := set_vreg_u v UNASSIGNED.

Definition allocatable (t : RegType) (r : RegClass) : Prop := r ∈ alloc_index_to_reg (reg_alloc_params t).

(** Register [a] sits in the machine register of type [t] with index [k]. *)
Definition owns (l : list VReg) (t : RegType) (k : nat) (a : nat) : Prop :=
  exists v r, l !! a = Some v /\ vreg_type v = t /\ vreg_u v = IN_REG r /\
    alloc_index_to_reg (reg_alloc_params t) !! k = Some r.

(** What a caller of the allocator has to set up: ranges are not inverted, a
    register is either unassigned or assigned beforehand to an allocatable machine
    register, and two of the latter never need the same one at the same time. *)
Definition scan_pre (l0 : list VReg) : Prop :=
  (forall i v, l0 !! i = Some v ->
     (if live_range_start v =? -1 then live_range_end v = -1
      else 0 <= live_range_start v <= live_range_end v /\ live_range_end v < 2 ^ 31) /\
     (if pre_alloced v then exists r, vreg_u v = IN_REG r /\ allocatable (vreg_type v) r
      else vreg_u v = UNASSIGNED)) /\
  (forall i j v w r, l0 !! i = Some v -> l0 !! j = Some w -> i <> j ->
     live_range_start v <> -1 -> live_range_start w <> -1 ->
     vreg_u v = IN_REG r -> vreg_u w = IN_REG r ->
     live_range_end v < live_range_start w \/ live_range_end w < live_range_start v).

(** What the allocator promises: only places change; every register with a live
    range has an allocatable machine register or a slot of the new part of the
    frame; the places of registers that are live together are different. *)
Record allocated (l0 l : list VReg) (u0 u : Z) : Prop := {
  al_same : erase <$> l = erase <$> l0;
  al_pre : forall i v, l !! i = Some v -> pre_alloced v = true -> l0 !! i = Some v;
  al_placed : forall i v, l !! i = Some v -> live_range_start v <> -1 ->
    (exists r, vreg_u v = IN_REG r /\ allocatable (vreg_type v) r) \/
    (exists slot, vreg_u v = ON_STACK slot /\ u0 <= slot /\ slot + 8 <= u);
  al_disjoint : forall i j v w r, i <> j -> l !! i = Some v -> l !! j = Some w ->
    live_range_start v <> -1 -> live_range_start w <> -1 ->
    vreg_u v = IN_REG r -> vreg_u w = IN_REG r ->
    live_range_end v < live_range_start w \/ live_range_end w < live_range_start v;
  al_slots : forall i j v w a b, i <> j -> l !! i = Some v -> l !! j = Some w ->
    live_range_start v <> -1 -> live_range_start w <> -1 ->
    vreg_u v = ON_STACK a -> vreg_u w = ON_STACK b -> a + 8 <= b \/ b + 8 <= a
}.

(** ** Lemmas: the register tables *)

Lemma table_index t k r : alloc_index_to_reg (reg_alloc_params t) !! k = Some r ->
  alloc_index t r = Ok (Z.of_nat k) /\ (k < 13)%nat.
Proof.
  destruct t; cbn; intros H; do 13 (destruct k as [|k]; [try injection H as <-; try done; split; [reflexivity | lia] |]; try done).
Qed.

Lemma table_type t t' k k' r : alloc_index_to_reg (reg_alloc_params t) !! k = Some r ->
  alloc_index_to_reg (reg_alloc_params t') !! k' = Some r -> t = t' /\ k = k'.
Proof.
  intros H H'. assert (Et : t = t').
  { assert (G : forall t k, alloc_index_to_reg (reg_alloc_params t) !! k = Some r ->
      reg_class_is_gpr r = bool_decide (t = REG_TYPE_INTEGER)).
    { clear. intros t k H. apply list_elem_of_lookup_2 in H. revert r H. apply Forall_forall.
      destruct t; repeat constructor. }
    pose proof (G _ _ H) as E. rewrite (G _ _ H') in E. by destruct t, t'. }
  subst t'. split; [done |]. apply table_index in H as [H _], H' as [H' _]. rewrite H in H'. injection H' as H'. lia.
Qed.

Lemma table_allocatable t r : allocatable t r -> exists k, alloc_index_to_reg (reg_alloc_params t) !! k = Some r.
Proof. apply list_elem_of_lookup. Qed.

Lemma free_of_set f t t' x : free_of (set_free f t x) t' = if decide (t = t') then x else free_of f t'.
Proof. by destruct t, t'. Qed.

Lemma release_bit f t k t' j : 0 <= k -> 0 <= j ->
  Z.testbit (free_of (release f t k) t') j
  = (bool_decide (t = t') && (k =? j)) || Z.testbit (free_of f t') j.
Proof.
  intros Hk Hj. unfold release. rewrite free_of_set.
  destruct (decide (t = t')) as [->|Hne]; [rewrite bool_decide_true | rewrite bool_decide_false]; try done.
  rewrite Z.lor_spec, Z.shiftl_1_l, Z.pow2_bits_eqb by lia. cbn. by rewrite orb_comm.
Qed.

Lemma take_bit f t k t' j : 0 <= k < 32 -> 0 <= j < 32 ->
  Z.testbit (free_of (take_reg f t k) t') j
  = negb (bool_decide (t = t') && (k =? j)) && Z.testbit (free_of f t') j.
Proof.
  intros Hk Hj. unfold take_reg. rewrite free_of_set.
  destruct (decide (t = t')) as [->|Hne]; [rewrite bool_decide_true | rewrite bool_decide_false]; try done.
  unfold bnot. rewrite Z.land_spec, wrap_testbit, Z.lnot_spec, Z.shiftl_1_l, Z.pow2_bits_eqb by lia.
  destruct (Z.ltb_spec j 32); [| lia]. cbn. by rewrite andb_comm.
Qed.

Lemma take_bit_high f t k t' j : 32 <= j -> Z.testbit (free_of f t') j = false ->
  Z.testbit (free_of (take_reg f t k) t') j = false.
Proof.
  intros Hj Hf. unfold take_reg. rewrite free_of_set. destruct (decide (t = t')) as [->|]; [| done].
  rewrite Z.land_spec, Hf. done.
Qed.

Lemma free_bit_test x k : 0 <= k -> (Z.land x (Z.shiftl 1 k) =? 0) = negb (Z.testbit x k).
Proof.
  intros Hk. destruct (Z.eqb_spec (Z.land x (Z.shiftl 1 k)) 0) as [E|E].
  - symmetry. apply negb_true_iff. assert (B : Z.testbit (Z.land x (Z.shiftl 1 k)) k = false) by (rewrite E; apply Z.bits_0).
    rewrite Z.land_spec, Z.shiftl_1_l, Z.pow2_bits_true, andb_true_r in B by lia. done.
  - symmetry. apply negb_false_iff. destruct (Z.testbit x k) eqn:B; [done |]. destruct E.
    apply Z.bits_inj'. intros j Hj. rewrite Z.land_spec, Z.shiftl_1_l, Z.pow2_bits_eqb, Z.bits_0 by lia.
    destruct (Z.eqb_spec k j) as [->|]; [by rewrite B | apply andb_false_r].
Qed.

(** ** Lemmas: the steps of the scan *)

Lemma erase_lookup (l l0 : list VReg) (i : nat) v : erase <$> l = erase <$> l0 -> l !! i = Some v ->
  exists v0, l0 !! i = Some v0 /\ v = set_vreg_u v0 (vreg_u v).
Proof.
  intros E Hv. assert (E' : (erase <$> l) !! i = (erase <$> l0) !! i) by by rewrite E.
  rewrite !list_lookup_fmap, Hv in E'. destruct (l0 !! i) as [v0|] eqn:E0; [| done]. exists v0. split; [done |].
  destruct v, v0. cbn in E'. unfold erase, set_vreg_u in *. cbn in *. congruence.
Qed.

Lemma erase_end (l l0 : list VReg) i : erase <$> l = erase <$> l0 -> end_of l i = end_of l0 i.
Proof.
  intros E. unfold end_of. destruct (l !! i) as [v|] eqn:Ev.
  - destruct (erase_lookup l l0 i v E Ev) as (v0 & -> & ->). done.
  - assert (E' : (erase <$> l) !! i = (erase <$> l0) !! i) by by rewrite E.
    rewrite !list_lookup_fmap, Ev in E'. by destruct (l0 !! i).
Qed.

Lemma erase_store (l : list VReg) (i : nat) v u : l !! i = Some v -> erase <$> <[i := set_vreg_u v u]> l = erase <$> l.
Proof.
  intros E. rewrite list_fmap_insert. apply list_insert_id. rewrite list_lookup_fmap, E. done.
Qed.

Lemma vreg_at_ok l i v : l !! i = Some v -> vreg_at l i = Ok v.
Proof. intros E. apply ref_Ok. rewrite Nat2Z.id. split; [lia | done]. Qed.

(** Every active register has a place. *)
Definition has_place (l : list VReg) (a : nat) : Prop :=
  exists v, l !! a = Some v /\
    ((exists r, vreg_u v = IN_REG r /\ allocatable (vreg_type v) r) \/ exists slot, vreg_u v = ON_STACK slot).

Lemma owns_index l a v r : l !! a = Some v -> vreg_u v = IN_REG r -> allocatable (vreg_type v) r ->
  exists k, alloc_index (vreg_type v) r = Ok (Z.of_nat k) /\
    forall t j, owns l t j a <-> vreg_type v = t /\ k = j.
Proof.
  intros Ea Eu [k Ek]%table_allocatable. exists k. split; [by apply table_index |]. intros t j. split.
  - intros (v' & r' & Ea' & Et & Eu' & Ej). simplify_eq. split; [done |].
    assert (r' = r) as -> by congruence. by destruct (table_type _ _ _ _ _ Ek Ej).
  - intros [<- <-]. by exists v, r.
Qed.

Lemma owns_stack l a v slot t j : l !! a = Some v -> vreg_u v = ON_STACK slot -> ~ owns l t j a.
Proof. intros Ea Eu (v' & r & Ea' & _ & Eu' & _). congruence. Qed.

(** [expire] drops exactly the ranges that are over and frees their registers. *)
Lemma expire_spec l start f active :
  Forall (has_place l) active -> StronglySorted (fun a b => end_of l a <= end_of l b) active ->
  exists f' gone active', expire l start f active = Ok (f', active') /\ active = gone ++ active' /\
    Forall (fun a => end_of l a < start) gone /\ Forall (fun a => start <= end_of l a) active' /\
    forall t j, 0 <= j -> (Z.testbit (free_of f' t) j = true <->
      Z.testbit (free_of f t) j = true \/ Exists (owns l t (Z.to_nat j)) gone).
Proof.
  revert f. induction active as [|a active IH]; intros f Hp Hs.
  { exists f, [], []. repeat (split; [done |]). intros. rewrite Exists_nil. tauto. }
  apply Forall_cons in Hp as [(v & Ea & Hv) Hp]. apply StronglySorted_inv in Hs as [Hs Ha].
  cbn [expire]. rewrite (vreg_at_ok _ _ _ Ea). cbn [mbind res_bind].
  assert (Ee : end_of l a = live_range_end v) by (unfold end_of; by rewrite Ea).
  destruct (Z.leb_spec start (live_range_end v)) as [Hle|Hlt].
  { exists f, [], (a :: active). repeat (split; [done |]). split.
    - constructor; [lia |]. eapply Forall_impl; [exact Ha | cbn; lia].
    - intros. rewrite Exists_nil. tauto. }
  destruct Hv as [(r & Eu & Hr) | (slot & Eu)]; rewrite Eu.
  - destruct (owns_index l a v r Ea Eu Hr) as (k & Ek & Hk). rewrite Ek. cbn [mbind res_bind].
    destruct (IH (release f (vreg_type v) (Z.of_nat k)) Hp Hs) as (f' & gone & active' & -> & -> & Hg & Ha' & Hb).
    exists f', (a :: gone), active'. repeat (split; [done |]). split; [by constructor; [lia |] |].
    split; [done |]. intros t j Hj. rewrite Hb, Exists_cons, Hk, release_bit by lia.
    rewrite orb_true_iff, andb_true_iff, bool_decide_eq_true, Z.eqb_eq.
    assert (Z.of_nat k = j <-> k = Z.to_nat j) by lia. tauto.
  - destruct (IH f Hp Hs) as (f' & gone & active' & -> & -> & Hg & Ha' & Hb).
    exists f', (a :: gone), active'. repeat (split; [done |]). split; [by constructor; [lia |] |].
    split; [done |]. intros t j Hj. rewrite Hb, Exists_cons by lia.
    pose proof (owns_stack l a v slot t (Z.to_nat j) Ea Eu). tauto.
Qed.

Lemma find_existing_spec l r active : Forall (fun a => is_Some (l !! a)) active ->
  exists o, find_existing l r active = Ok o /\
    match o with
    | Some a => a ∈ active /\ exists v, l !! a = Some v /\ vreg_u v = IN_REG r
    | None => forall a v, a ∈ active -> l !! a = Some v -> vreg_u v <> IN_REG r
    end.
Proof.
  induction 1 as [|a active [v Ea] Hp IH]; cbn [find_existing].
  { exists None. split; [done |]. intros a v H. by apply elem_of_nil in H. }
  rewrite (vreg_at_ok _ _ _ Ea). cbn [mbind res_bind]. destruct (decide (vreg_u v = IN_REG r)).
  { exists (Some a). split; [done |]. split; [by left | eauto]. }
  destruct IH as (o & -> & Ho). exists o. split; [done |]. destruct o as [b|].
  - destruct Ho as [Hb Hw]. split; [by right | done].
  - intros b w [->|Hb]%elem_of_cons Ew; [congruence | eauto].
Qed.

Lemma insert_active_spec l i active : Forall (fun a => is_Some (l !! a)) active ->
  StronglySorted (fun a b => end_of l a <= end_of l b) active ->
  exists active', insert_active l i (end_of l i) active = Ok active' /\ active' ≡ₚ i :: active /\
    StronglySorted (fun a b => end_of l a <= end_of l b) active'.
Proof.
  induction active as [|a active IH]; intros Hp Hs; cbn [insert_active].
  { exists [i]. split; [done |]. split; [done |]. by repeat constructor. }
  apply Forall_cons in Hp as [[v Ea] Hp]. pose proof Hs as Hs'. apply StronglySorted_inv in Hs as [Hs Ha].
  rewrite (vreg_at_ok _ _ _ Ea). cbn [mbind res_bind].
  assert (Ee : end_of l a = live_range_end v) by (unfold end_of; by rewrite Ea).
  destruct (Z.ltb_spec (end_of l i) (live_range_end v)).
  - exists (i :: a :: active). split; [done |]. split; [done |]. constructor; [done |].
    constructor; [lia |]. eapply Forall_impl; [exact Ha | cbn; lia].
  - destruct (IH Hp Hs) as (rest & -> & Hperm & Hsort). cbn [mbind res_bind].
    exists (a :: rest). split; [done |]. split; [rewrite Hperm; constructor |].
    constructor; [done |]. rewrite Hperm. constructor; [lia | done].
Qed.

Lemma sorted_suffix {A} (R : A -> A -> Prop) l1 l2 : StronglySorted R (l1 ++ l2) -> StronglySorted R l2.
Proof. induction l1 as [|a l1 IH]; [done |]. cbn. intros [H _]%StronglySorted_inv. by apply IH. Qed.

#[export] Instance owns_dec l t k a : Decision (owns l t k a).
Proof.
  unfold owns. destruct (l !! a) as [v|]; [| right; by intros (? & ? & ? & _)].
  destruct (alloc_index_to_reg (reg_alloc_params t) !! k) as [r|]; [| right; by intros (? & ? & _ & _ & _ & ?)].
  destruct (decide (vreg_type v = t)) as [Et|Et]; [| right; naive_solver].
  destruct (decide (vreg_u v = IN_REG r)) as [Eu|Eu]; [left; by exists v, r | right; naive_solver].
Defined.

(** ** Lemmas: the invariant of the scan *)

Definition place (l : list VReg) (i : nat) : option VRegU := vreg_u <$> l !! i.

Lemma place_insert l i j v : (i < length l)%nat ->
  place (<[i := v]> l) j = if decide (i = j) then Some (vreg_u v) else place l j.
Proof.
  intros Hi. unfold place. destruct (decide (i = j)) as [<-|Hne].
  - by rewrite list_lookup_insert_eq.
  - by rewrite list_lookup_insert_ne.
Qed.

Lemma owns_place l t k a r : owns l t k a -> alloc_index_to_reg (reg_alloc_params t) !! k = Some r ->
  place l a = Some (IN_REG r).
Proof. intros (v & r' & Ea & _ & Eu & Ek') Ek. unfold place. rewrite Ea. cbn. congruence. Qed.

Lemma owns_insert_ne l i v t k a : i <> a -> owns (<[i := v]> l) t k a <-> owns l t k a.
Proof. intros Hne. unfold owns. by rewrite list_lookup_insert_ne. Qed.

Section Scan.
Context (l0 : list VReg) (u0 : Z).
Hypothesis Hpre : scan_pre l0.

(** [dn] are the registers handled so far, [now] the start of the last one. *)
Record scan_inv (dn : list nat) (now : Z) (s : Scan) : Prop := {
  si_same : erase <$> vregs s = erase <$> l0;
  si_rest : forall i, i ∉ dn -> vregs s !! i = l0 !! i;
  si_pre : forall i v, vregs s !! i = Some v -> pre_alloced v = true -> l0 !! i = Some v;
  si_placed : forall i, i ∈ dn -> exists v, vregs s !! i = Some v /\
    ((exists r, vreg_u v = IN_REG r /\ allocatable (vreg_type v) r) \/
     (exists slot, vreg_u v = ON_STACK slot /\ u0 <= slot /\ slot + 8 <= stack_usage s));
  si_disjoint : forall i j r, i ∈ dn -> j ∈ dn -> i <> j ->
    place (vregs s) i = Some (IN_REG r) -> place (vregs s) j = Some (IN_REG r) ->
    end_of l0 i < start_of l0 j \/ end_of l0 j < start_of l0 i;
  si_slots : forall i j a b, i ∈ dn -> j ∈ dn -> i <> j ->
    place (vregs s) i = Some (ON_STACK a) -> place (vregs s) j = Some (ON_STACK b) -> a + 8 <= b \/ b + 8 <= a;
  si_active : forall a, a ∈ active_vregs s -> a ∈ dn /\ start_of l0 a <= now <= end_of l0 a;
  si_nodup : NoDup (active_vregs s);
  si_gone : forall i, i ∈ dn -> i ∉ active_vregs s -> end_of l0 i < now;
  si_bits : forall t j, 0 <= j -> (Z.testbit (free_of (free_regs_bitsets s) t) j = true <->
    (Z.to_nat j < length (alloc_index_to_reg (reg_alloc_params t)))%nat /\
    ~ Exists (owns (vregs s) t (Z.to_nat j)) (active_vregs s));
  si_free : forall t, is_u 32 (free_of (free_regs_bitsets s) t);
  si_usage : u0 <= stack_usage s <= u0 + 8 * Z.of_nat (length dn)
}.

Definition sorted_active (l : list nat) : Prop := StronglySorted (fun a b => end_of l0 a <= end_of l0 b) l.

Lemma sorted_same l active : erase <$> l = erase <$> l0 -> sorted_active active ->
  StronglySorted (fun a b => end_of l a <= end_of l b) active.
Proof.
  intros E. induction 1 as [|a rest Hs IH Ha]; constructor; [done |].
  eapply Forall_impl; [exact Ha |]. cbn. intros b. by rewrite !(erase_end l l0).
Qed.

Lemma active_place dn now s : scan_inv dn now s -> Forall (has_place (vregs s)) (active_vregs s).
Proof.
  intros HI. apply Forall_forall. intros a [Ha _]%(si_active _ _ _ HI).
  destruct (si_placed _ _ _ HI a Ha) as (v & Ev & Hv). exists v. split; [done |].
  destruct Hv as [|(slot & ? & _)]; eauto.
Qed.

Lemma active_some dn now s : scan_inv dn now s -> Forall (fun a => is_Some (vregs s !! a)) (active_vregs s).
Proof. intros HI%active_place. eapply Forall_impl; [exact HI |]. intros a (v & -> & _). done. Qed.

(** Two active registers are live at [now], so they are in different machine
    registers. *)
Lemma owner_unique dn now s t k a b : scan_inv dn now s -> a ∈ active_vregs s -> b ∈ active_vregs s ->
  owns (vregs s) t k a -> owns (vregs s) t k b -> a = b.
Proof.
  intros HI Ha Hb Hoa Hob. destruct (decide (a = b)) as [|Hne]; [done |].
  destruct (si_active _ _ _ HI a Ha) as [Hda Hna], (si_active _ _ _ HI b Hb) as [Hdb Hnb].
  pose proof Hoa as (v & r & _ & _ & _ & Ek).
  destruct (si_disjoint _ _ _ HI a b r Hda Hdb Hne (owns_place _ _ _ _ _ Hoa Ek) (owns_place _ _ _ _ _ Hob Ek)); lia.
Qed.

Lemma free_release_u f t k t' : 0 <= k < 32 -> is_u 32 (free_of f t') -> is_u 32 (free_of (release f t k) t').
Proof.
  intros Hk Hu. apply testbit_is_u; [lia | |].
  - intros i Hi. rewrite release_bit, (is_u_testbit_high 32) by (done || lia).
    destruct (Z.eqb_spec k i); [lia |]. by rewrite andb_false_r.
  - unfold release. rewrite free_of_set. destruct (decide _) as [->|]; [| apply Hu].
    apply Z.lor_nonneg. split; [apply Hu | apply Z.shiftl_nonneg; lia].
Qed.

Lemma free_take_u f t k t' : is_u 32 (free_of f t') -> is_u 32 (free_of (take_reg f t k) t').
Proof.
  intros Hu. apply testbit_is_u; [lia | |].
  - intros i Hi. apply take_bit_high; [done |]. by apply (is_u_testbit_high 32).
  - unfold take_reg. rewrite free_of_set. destruct (decide _) as [->|]; [| apply Hu].
    apply Z.land_nonneg. left. apply Hu.
Qed.

Lemma expire_u l start f active f' active' : Forall (has_place l) active ->
  (forall t, is_u 32 (free_of f t)) -> expire l start f active = Ok (f', active') ->
  forall t, is_u 32 (free_of f' t).
Proof.
  intros Hp. revert f. induction Hp as [|a active (v & Ea & Hv) Hp IH]; intros f Hu; cbn [expire].
  { intros E. by injection E as <- <-. }
  rewrite (vreg_at_ok _ _ _ Ea). cbn [mbind res_bind]. destruct (start <=? live_range_end v).
  { intros E. by injection E as <- <-. }
  destruct Hv as [(r & Eu & [k Ek]%table_allocatable) | (slot & Eu)]; rewrite Eu; [| by apply IH].
  destruct (table_index _ _ _ Ek) as [-> Hk]. cbn [mbind res_bind]. apply IH. intros t.
  apply free_release_u; [lia | done].
Qed.

Lemma expire_inv dn now now' s : scan_inv dn now s -> sorted_active (active_vregs s) -> now <= now' ->
  exists f' active', expire (vregs s) now' (free_regs_bitsets s) (active_vregs s) = Ok (f', active') /\
    scan_inv dn now' (mkScan (vregs s) f' active' (stack_usage s)) /\ sorted_active active'.
Proof.
  intros HI Hs Hnow. pose proof (active_place _ _ _ HI) as Hp.
  destruct (expire_spec (vregs s) now' (free_regs_bitsets s) (active_vregs s) Hp
    (sorted_same _ _ (si_same _ _ _ HI) Hs)) as (f' & gone & active' & E & Ea & Hg & Ha & Hb).
  exists f', active'. split; [done |].
  pose proof (expire_u _ _ _ _ _ _ Hp (si_free _ _ _ HI) E) as Hu.
  pose proof (si_nodup _ _ _ HI) as Hnd. rewrite Ea in Hnd. apply list.NoDup_app in Hnd as (Hnd1 & Hdisj & Hnd2).
  rewrite Forall_forall in Hg, Ha.
  assert (Hin : forall a, a ∈ active' -> a ∈ active_vregs s) by (intros; rewrite Ea; apply elem_of_app; by right).
  split; [| unfold sorted_active in *; rewrite Ea in Hs; by apply sorted_suffix in Hs].
  destruct HI as [H1 H2 H3 H4 H5 H6 H7 H8 H9 H10 H11 H12]. constructor; cbn; try done.
  - intros a Hina. destruct (H7 a (Hin a Hina)) as [Hd Hr]. split; [done |].
    specialize (Ha a Hina). rewrite (erase_end _ l0) in Ha by done. lia.
  - intros i Hd Hni. destruct (decide (i ∈ active_vregs s)) as [Hi|Hi].
    + rewrite Ea in Hi. apply elem_of_app in Hi as [Hi|Hi]; [| done].
      specialize (Hg i Hi). by rewrite (erase_end _ l0) in Hg.
    + specialize (H9 i Hd Hi). lia.
  - intros t j Hj. rewrite Hb, H10 by done. rewrite Ea, Exists_app.
    set (A := Exists _ gone). set (B := Exists _ active').
    assert (HAB : A -> ~ B).
    { intros (a & Hina & Hoa)%Exists_exists (b & Hinb & Hob)%Exists_exists.
      assert (a = b) as ->; [| by apply (Hdisj b)].
      eapply (owner_unique dn now s); eauto; [by constructor | rewrite Ea; apply elem_of_app; by left]. }
    assert (HA : A -> (Z.to_nat j < length (alloc_index_to_reg (reg_alloc_params t)))%nat).
    { intros (a & _ & (v & r & _ & _ & _ & Ek))%Exists_exists. by apply lookup_lt_Some in Ek. }
    split; [intros [[? ?] | ?]; tauto |]. intros [Hlt HnB].
    destruct (decide (Exists (owns (vregs s) t (Z.to_nat j)) gone)) as [|HnA]; [by right | left; tauto].
Qed.

Lemma snoc_inv {A} (x : A) dn i : x ∈ dn ++ [i] -> x ∈ dn \/ x = i.
Proof. by rewrite elem_of_app, list_elem_of_singleton. Qed.

(** The register about to be handled. *)
Record next_up (dn : list nat) (now : Z) (s : Scan) (i : nat) (v : VReg) : Prop := {
  nu_new : i ∉ dn;
  nu_orig : l0 !! i = Some v;
  nu_start : start_of l0 i = now;
  nu_end : now <= end_of l0 i;
  nu_inv : scan_inv dn now s
}.

Lemma next_lookup dn now s i v : next_up dn now s i v -> vregs s !! i = Some v /\ (i < length (vregs s))%nat.
Proof.
  intros [Hn Ho _ _ HI]. assert (E : vregs s !! i = Some v) by by rewrite (si_rest _ _ _ HI i Hn).
  split; [done |]. by apply lookup_lt_Some in E.
Qed.

Lemma next_not_active dn now s i v a : next_up dn now s i v -> a ∈ active_vregs s -> i <> a.
Proof. intros [Hn _ _ _ HI] [Ha _]%(si_active _ _ _ HI) <-. done. Qed.

(** The parts of the invariant that only concern the active list. *)
Lemma active_extended dn now s i v : next_up dn now s i v ->
  (forall a, a ∈ i :: active_vregs s -> a ∈ dn ++ [i] /\ start_of l0 a <= now <= end_of l0 a) /\
  NoDup (i :: active_vregs s) /\
  (forall j, j ∈ dn ++ [i] -> j ∉ i :: active_vregs s -> end_of l0 j < now).
Proof.
  intros [Hn Ho Hst Hen HI]. split; [| split].
  - intros a [->|[Ha Hr]%(si_active _ _ _ HI)]%elem_of_cons; rewrite elem_of_app, list_elem_of_singleton;
      [split; [by right | lia] | split; [by left | done]].
  - constructor; [by intros [? _]%(si_active _ _ _ HI) | apply HI].
  - intros j [Hj| ->]%snoc_inv Hna; [| destruct Hna; by left].
    apply (si_gone _ _ _ HI); [done |]. intros ?. destruct Hna. by right.
Qed.

Lemma place_owns dn now s j t k r : scan_inv dn now s -> j ∈ dn -> place (vregs s) j = Some (IN_REG r) ->
  alloc_index_to_reg (reg_alloc_params t) !! k = Some r -> owns (vregs s) t k j.
Proof.
  intros HI Hj Hp Ek. destruct (si_placed _ _ _ HI j Hj) as (w & Ew & Hw).
  unfold place in Hp. rewrite Ew in Hp. cbn in Hp.
  destruct Hw as [(r' & Eu & [k' Ek']%table_allocatable) | (slot & Eu & _)]; [| congruence].
  assert (r' = r) as -> by congruence. destruct (table_type _ _ _ _ _ Ek Ek') as [-> ->].
  by exists w, r.
Qed.

(** A register that no active range occupies is free for the new one. *)
Lemma free_reg_disjoint dn now s i v k r j : next_up dn now s i v ->
  alloc_index_to_reg (reg_alloc_params (vreg_type v)) !! k = Some r ->
  ~ Exists (owns (vregs s) (vreg_type v) k) (active_vregs s) -> j ∈ dn ->
  place (vregs s) j = Some (IN_REG r) -> end_of l0 j < start_of l0 i.
Proof.
  intros [Hn Ho Hst Hen HI] Ek Hfree Hj Hp. rewrite Hst.
  destruct (decide (j ∈ active_vregs s)) as [Hja|Hja]; [| by apply (si_gone _ _ _ HI)]. destruct Hfree.
  apply Exists_exists. exists j. split; [done |]. by eapply place_owns.
Qed.

Lemma take_inv dn now s i v k r : next_up dn now s i v ->
  alloc_index_to_reg (reg_alloc_params (vreg_type v)) !! k = Some r ->
  Z.testbit (free_of (free_regs_bitsets s) (vreg_type v)) (Z.of_nat k) = true ->
  set_vreg_u v (IN_REG r) = v \/ pre_alloced v = false ->
  scan_inv (dn ++ [i]) now
    (mkScan (<[i := set_vreg_u v (IN_REG r)]> (vregs s))
       (take_reg (free_regs_bitsets s) (vreg_type v) (Z.of_nat k)) (i :: active_vregs s) (stack_usage s)).
Proof.
  intros Hnu Ek Hbit Hva. destruct (next_lookup _ _ _ _ _ Hnu) as [Ev Hlt].
  destruct (active_extended _ _ _ _ _ Hnu) as (Hact & Hnd & Hgone). pose proof Hnu as [Hn Ho Hst Hen HI].
  pose proof (table_index _ _ _ Ek) as [_ Hk].
  apply (si_bits _ _ _ HI) in Hbit as [_ Hfree]; [| lia]. rewrite Nat2Z.id in Hfree.
  assert (Hdj : forall j, j ∈ dn -> place (vregs s) j = Some (IN_REG r) -> end_of l0 j < start_of l0 i)
    by (intros; by eapply free_reg_disjoint).
  constructor; cbn; try done.
  - rewrite erase_store by done. apply HI.
  - intros j Hj. rewrite elem_of_app, list_elem_of_singleton in Hj. rewrite list_lookup_insert_ne by naive_solver.
    apply (si_rest _ _ _ HI). tauto.
  - intros j w [(<- & <- & _)|(Hne & Ew)]%list_lookup_insert_Some Hw; [| by apply (si_pre _ _ _ HI)].
    destruct Hva as [->|Hva]; [done |]. cbn in Hw. congruence.
  - intros j [Hj| ->]%snoc_inv.
    + rewrite list_lookup_insert_ne by naive_solver. by apply (si_placed _ _ _ HI).
    + rewrite list_lookup_insert_eq by done. eexists. split; [done |]. left. exists r. split; [done |].
      cbn. by eapply list_elem_of_lookup_2.
  - intros j j' r' Hj Hj' Hne. rewrite !place_insert by done.
    apply snoc_inv in Hj, Hj'. destruct (decide (i = j)) as [<-|], (decide (i = j')) as [<-|]; try done.
    + destruct Hj' as [Hj'| ->]; [| done]. intros [= <-] Hp'. right. by apply Hdj.
    + destruct Hj as [Hj| ->]; [| done]. intros Hp [= <-]. left. by apply Hdj.
    + destruct Hj as [Hj| ->], Hj' as [Hj'| ->]; try done. by apply (si_disjoint _ _ _ HI).
  - intros j j' a b Hj Hj' Hne. rewrite !place_insert by done.
    apply snoc_inv in Hj, Hj'. destruct (decide (i = j)), (decide (i = j')); try done.
    destruct Hj as [Hj| ->], Hj' as [Hj'| ->]; try done. by apply (si_slots _ _ _ HI).
  - intros t j Hj. rewrite Exists_cons.
    assert (Hold : Exists (owns (<[i:=set_vreg_u v (IN_REG r)]> (vregs s)) t (Z.to_nat j)) (active_vregs s)
      <-> Exists (owns (vregs s) t (Z.to_nat j)) (active_vregs s)).
    { rewrite !Exists_exists. split; intros (a & Ha & Hoa); exists a; (split; [done |]);
        apply owns_insert_ne in Hoa || apply owns_insert_ne; try done; by eapply next_not_active. }
    destruct (owns_index (<[i:=set_vreg_u v (IN_REG r)]> (vregs s)) i (set_vreg_u v (IN_REG r)) r
      ltac:(by rewrite list_lookup_insert_eq) eq_refl ltac:(by eapply list_elem_of_lookup_2)) as (k' & Ek' & Hown).
    cbn in Ek', Hown. pose proof (table_index _ _ _ Ek) as [Ek'' _]. rewrite Ek'' in Ek'. injection Ek' as Ek'.
    apply Nat2Z.inj in Ek'. subst k'. rewrite Hown, Hold.
    pose proof (si_bits _ _ _ HI t j Hj) as Hb. destruct (Z.lt_ge_cases j 32).
    + rewrite take_bit by lia. rewrite andb_true_iff, negb_true_iff, andb_false_iff, Hb.
      rewrite bool_decide_eq_false, Z.eqb_neq.
      assert (k = Z.to_nat j <-> Z.of_nat k = j) by lia.
      destruct (decide (vreg_type v = t)), (decide (Z.of_nat k = j)); tauto.
    + rewrite take_bit_high by first [done | by apply (is_u_testbit_high 32); [apply HI |]].
      split; [done |]. intros [Hl _]. assert (Z.to_nat j < 32)%nat by (destruct t; cbn in Hl; lia). lia.
  - intros t. apply free_take_u, HI.
  - rewrite length_app. cbn. pose proof (si_usage _ _ _ HI). lia.
Qed.

(** Giving [x] a stack slot keeps the invariant, if the machine registers in use
    stay the same. *)
Lemma spill_inv dn now s i v x w : next_up dn now s i v ->
  x ∈ dn ++ [i] -> vregs s !! x = Some w -> pre_alloced w = false ->
  (x <> i -> exists r, vreg_u v = IN_REG r /\ allocatable (vreg_type v) r /\
     forall j, j ∈ dn -> j <> x -> place (vregs s) j = Some (IN_REG r) -> end_of l0 j < start_of l0 i) ->
  (forall t k, Exists (owns (<[x := set_vreg_u w (ON_STACK (stack_usage s))]> (vregs s)) t k) (i :: active_vregs s)
     <-> Exists (owns (vregs s) t k) (active_vregs s)) ->
  scan_inv (dn ++ [i]) now
    (mkScan (<[x := set_vreg_u w (ON_STACK (stack_usage s))]> (vregs s)) (free_regs_bitsets s)
       (i :: active_vregs s) (stack_usage s + 8)).
Proof.
  intros Hnu Hx Ew Hwa Hi Hown. destruct (next_lookup _ _ _ _ _ Hnu) as [Ev Hlt].
  destruct (active_extended _ _ _ _ _ Hnu) as (Hact & Hnd & Hgone). pose proof Hnu as [Hn Ho Hst Hen HI].
  pose proof (lookup_lt_Some _ _ _ Ew) as Hxlt. pose proof (si_usage _ _ _ HI) as Hus.
  assert (Slot : forall j b, j ∈ dn -> place (vregs s) j = Some (ON_STACK b) -> b + 8 <= stack_usage s).
  { intros j b Hj Hp. destruct (si_placed _ _ _ HI j Hj) as (y & Ey & Hy). unfold place in Hp.
    rewrite Ey in Hp. cbn in Hp. destruct Hy as [(r & Eu & _) | (b' & Eu & _ & Hb)]; [congruence |].
    assert (b' = b) as -> by congruence. done. }
  assert (Pi : x <> i -> exists r, place (vregs s) i = Some (IN_REG r) /\ allocatable (vreg_type v) r /\
     vreg_u v = IN_REG r /\
     forall j, j ∈ dn -> j <> x -> place (vregs s) j = Some (IN_REG r) -> end_of l0 j < start_of l0 i).
  { intros Hne. destruct (Hi Hne) as (r & Eu & Hr & Hd). exists r. unfold place at 1. rewrite Ev. cbn. by rewrite Eu. }
  constructor; cbn [vregs free_regs_bitsets active_vregs stack_usage]; try done.
  - rewrite erase_store by done. apply HI.
  - intros j Hj. rewrite list_lookup_insert_ne by naive_solver. rewrite elem_of_app, list_elem_of_singleton in Hj.
    apply (si_rest _ _ _ HI). tauto.
  - intros j y [(<- & <- & _)|(Hne & Ey)]%list_lookup_insert_Some Hy; [| by apply (si_pre _ _ _ HI)].
    cbn in Hy. congruence.
  - intros j Hj. destruct (decide (x = j)) as [<-|Hne].
    { rewrite list_lookup_insert_eq by done. eexists. split; [done |]. right. eexists. split; [done |]. lia. }
    rewrite list_lookup_insert_ne by done. apply snoc_inv in Hj as [Hj| ->].
    + destruct (si_placed _ _ _ HI j Hj) as (y & Ey & Hy). exists y. split; [done |].
      destruct Hy as [|(b & ? & ? & ?)]; [by left | right; exists b; auto with lia].
    + destruct (Pi Hne) as (r & _ & Hr & Eu & _). exists v. split; [done |]. left. by exists r.
  - intros j j' r Hj Hj' Hne. rewrite !place_insert by done. apply snoc_inv in Hj, Hj'.
    destruct (decide (x = j)) as [<-|Hxj]; [done |]. destruct (decide (x = j')) as [<-|Hxj']; [done |].
    destruct Hj as [Hj| ->], Hj' as [Hj'| ->]; try done.
    + by apply (si_disjoint _ _ _ HI).
    + destruct (Pi Hxj') as (r' & -> & _ & _ & Hd). intros Hp [= <-]. left. by apply Hd.
    + destruct (Pi Hxj) as (r' & -> & _ & _ & Hd). intros [= <-] Hp. right. by apply Hd.
  - intros j j' a b Hj Hj' Hne. rewrite !place_insert by done. apply snoc_inv in Hj, Hj'.
    destruct (decide (x = j)) as [<-|Hxj], (decide (x = j')) as [<-|Hxj']; try done.
    + destruct Hj' as [Hj'| ->]; [| by destruct (Pi Hxj') as (r' & -> & _)].
      intros [= <-] Hp. right. by eapply Slot.
    + destruct Hj as [Hj| ->]; [| by destruct (Pi Hxj) as (r' & -> & _)].
      intros Hp [= <-]. left. by eapply Slot.
    + destruct Hj as [Hj| ->]; [| by destruct (Pi Hxj) as (r' & -> & _)].
      destruct Hj' as [Hj'| ->]; [| by destruct (Pi Hxj') as (r' & -> & _)].
      by apply (si_slots _ _ _ HI).
  - intros t j Hj. rewrite Hown. by apply (si_bits _ _ _ HI).
  - apply (si_free _ _ _ HI).
  - rewrite length_app. cbn. lia.
Qed.

Lemma spill_ok s x w : vregs s !! x = Some w -> 0 <= stack_usage s < 2 ^ 32 - 8 ->
  spill s x = Ok (mkScan (<[x := set_vreg_u w (ON_STACK (stack_usage s))]> (vregs s)) (free_regs_bitsets s)
                    (active_vregs s) (stack_usage s + 8)).
Proof.
  intros Ew Hu. unfold spill. rewrite (vreg_at_ok _ _ _ Ew). cbn [mbind res_bind].
  apply lookup_lt_Some in Ew. rewrite store_Ok by lia. cbn [mbind res_bind].
  rewrite Nat2Z.id, wrap_small by lia. done.
Qed.

Lemma no_owner l i v t k : l !! i = Some v -> (forall r, vreg_u v <> IN_REG r) -> ~ owns l t k i.
Proof. intros Ev Hu (v' & r & Ev' & _ & Eu & _). assert (v' = v) as -> by congruence. by eapply Hu. Qed.

(** The register found is not one that was assigned beforehand. *)
Lemma existing_not_pre dn now s i v e w r : next_up dn now s i v -> live_range_start v <> -1 ->
  vreg_u v = IN_REG r -> e ∈ active_vregs s -> vregs s !! e = Some w -> vreg_u w = IN_REG r ->
  pre_alloced w = false.
Proof.
  intros Hnu Hranged Eu He Ew Ewu. destruct (pre_alloced w) eqn:Ewa; [exfalso | done].
  pose proof (next_not_active _ _ _ _ _ _ Hnu He) as Hei. destruct Hnu as [Hn Ho Hst Hen HI].
  pose proof (si_pre _ _ _ HI e w Ew Ewa) as E0. destruct (si_active _ _ _ HI e He) as [_ Her].
  destruct Hpre as [Hone Htwo]. destruct (Hone e w E0) as [Hre _].
  unfold start_of, end_of in *. rewrite E0 in Her. rewrite Ho in Hst, Hen.
  destruct (Z.eqb_spec (live_range_start w) (-1)) as [Em|Em]; [destruct (Hone i v Ho) as [Hri _] |].
  - destruct (Z.eqb_spec (live_range_start v) (-1)); lia.
  - destruct (Htwo e i w v r E0 Ho ltac:(done)); try done; lia.
Qed.

Lemma evict_inv dn now s i v k r e w : next_up dn now s i v ->
  vreg_u v = IN_REG r -> alloc_index_to_reg (reg_alloc_params (vreg_type v)) !! k = Some r ->
  e ∈ active_vregs s -> vregs s !! e = Some w -> vreg_u w = IN_REG r -> pre_alloced w = false ->
  scan_inv (dn ++ [i]) now
    (mkScan (<[e := set_vreg_u w (ON_STACK (stack_usage s))]> (vregs s)) (free_regs_bitsets s)
       (i :: active_vregs s) (stack_usage s + 8)).
Proof.
  intros Hnu Eu Ek He Ew Ewu Hwa. destruct (next_lookup _ _ _ _ _ Hnu) as [Ev Hlt].
  pose proof (next_not_active _ _ _ _ _ _ Hnu He) as Hie. pose proof Hnu as [Hn Ho Hst Hen HI].
  destruct (si_active _ _ _ HI e He) as [Hed Her].
  assert (Hall : allocatable (vreg_type v) r) by by eapply list_elem_of_lookup_2.
  assert (Hoe : owns (vregs s) (vreg_type v) k e).
  { eapply place_owns; eauto. unfold place. rewrite Ew. cbn. by rewrite Ewu. }
  apply (spill_inv dn now s i v e w Hnu); try done; [apply elem_of_app; by left | |].
  - intros _. exists r. split; [done |]. split; [done |]. intros j Hj Hje Hp. rewrite Hst.
    destruct (decide (j ∈ active_vregs s)) as [Hja|Hja]; [| by apply (si_gone _ _ _ HI)]. destruct Hje.
    apply (owner_unique dn now s (vreg_type v) k j e HI Hja He); [by eapply place_owns | done].
  - intros t j. rewrite Exists_cons, owns_insert_ne by done.
    destruct (owns_index (vregs s) i v r Ev Eu Hall) as (k' & Ek' & Hoi). rewrite Hoi.
    pose proof (table_index _ _ _ Ek) as [Ek'' _]. rewrite Ek'' in Ek'. injection Ek' as ->%Nat2Z.inj.
    rewrite !Exists_exists. split.
    + intros [[<- <-] | (a & Ha & Hoa)]; [by exists e |]. exists a. split; [done |].
      destruct (decide (e = a)) as [<-|Hne]; [| by apply owns_insert_ne in Hoa].
      exfalso. eapply no_owner; [| | exact Hoa]; [apply list_lookup_insert_eq; by eapply lookup_lt_Some | done].
    + intros (a & Ha & Hoa). destruct (decide (e = a)) as [<-|Hne].
      * left. destruct Hoa as (w' & r' & Ew' & Et & Ew'u & Ej). simplify_eq.
        rewrite Ewu in Ew'u. injection Ew'u as <-. destruct (table_type _ _ _ _ _ Ek Ej) as [-> ->]. done.
      * right. exists a. split; [done |]. by apply owns_insert_ne.
Qed.

(** [assign] places register [i], whatever branch it takes. *)
Lemma assign_inv dn now s i v : next_up dn now s i v -> 0 <= u0 -> u0 + 8 * Z.of_nat (length dn) < 2 ^ 32 - 8 ->
  live_range_start v <> -1 ->
  exists s', assign s i = Ok s' /\ active_vregs s' = active_vregs s /\
    scan_inv (dn ++ [i]) now (mkScan (vregs s') (free_regs_bitsets s') (i :: active_vregs s) (stack_usage s')).
Proof.
  intros Hnu Hu0 Hu Hranged. destruct (next_lookup _ _ _ _ _ Hnu) as [Ev Hlt]. pose proof Hnu as [Hn Ho Hst Hen HI].
  pose proof (si_usage _ _ _ HI) as Hus. unfold assign. rewrite (vreg_at_ok _ _ _ Ev). cbn [mbind res_bind].
  destruct (proj1 Hpre i v Ho) as [_ Hpa]. destruct (pre_alloced v) eqn:Epa.
  - destruct Hpa as (r & Eu & Hall). rewrite Eu. cbn [ASSERT mbind res_bind].
    destruct (table_allocatable _ _ Hall) as [k Ek]. destruct (table_index _ _ _ Ek) as [-> Hk].
    cbn [mbind res_bind]. rewrite free_bit_test by lia.
    destruct (Z.testbit _ (Z.of_nat k)) eqn:Ebit; cbn [negb].
    { eexists. split; [done |]. split; [done |]. cbn.
      assert (Same : set_vreg_u v (IN_REG r) = v) by (rewrite <- Eu; by destruct v).
      pose proof (take_inv dn now s i v k r Hnu Ek Ebit (or_introl Same)) as H. by rewrite Same, list_insert_id in H. }
    destruct (find_existing_spec (vregs s) r (active_vregs s) (active_some _ _ _ HI)) as (o & -> & Ho').
    cbn [mbind res_bind]. destruct o as [e|].
    + destruct Ho' as (He & w & Ew & Ewu). rewrite (vreg_at_ok _ _ _ Ew). cbn [mbind res_bind].
      pose proof (existing_not_pre _ _ _ _ _ _ _ _ Hnu Hranged Eu He Ew Ewu) as Hwa.
      rewrite Hwa. cbn [negb ASSERT mbind res_bind]. rewrite (spill_ok s e w) by (done || lia).
      eexists. split; [done |]. split; [done |]. cbn. by eapply evict_inv.
    + enough (Z.testbit (free_of (free_regs_bitsets s) (vreg_type v)) (Z.of_nat k) = true) by congruence.
      apply (si_bits _ _ _ HI); [lia |]. rewrite Nat2Z.id. split; [by eapply lookup_lt_Some |].
      intros (a & Ha & Hoa)%Exists_exists. pose proof Hoa as (w & r' & Ew & _ & Eu' & Ek').
      apply (Ho' a w Ha Ew). congruence.
  - rewrite Hpa. destruct (Z.eqb_spec (free_of (free_regs_bitsets s) (vreg_type v)) 0) as [Ez|Ez].
    + rewrite (spill_ok s i v) by (done || lia). eexists. split; [done |]. split; [done |]. cbn.
      apply (spill_inv dn now s i v i v Hnu); try done; [apply elem_of_app; right; by apply list_elem_of_singleton |].
      intros t k. rewrite Exists_cons.
      pose proof (no_owner (<[i := set_vreg_u v (ON_STACK (stack_usage s))]> (vregs s)) i _ t k
        ltac:(by apply list_lookup_insert_eq) ltac:(done)) as Hno.
      rewrite !Exists_exists. split; [intros [?|(a & Ha & Hoa)]; [done |] | intros (a & Ha & Hoa); right];
        exists a; (split; [done |]); pose proof (next_not_active _ _ _ _ _ _ Hnu Ha);
        [by apply owns_insert_ne in Hoa | by apply owns_insert_ne].
    + pose proof (si_free _ _ _ HI (vreg_type v)) as Hf. unfold is_u in Hf.
      destruct (lowest_set_bit_correct (free_of (free_regs_bitsets s) (vreg_type v)) ltac:(lia)) as (lo & -> & Hlo & Hbit & _).
      cbn [mbind res_bind]. pose proof (proj1 (si_bits _ _ _ HI (vreg_type v) lo ltac:(lia)) Hbit) as [Hl _].
      destruct (lookup_lt_is_Some_2 _ _ Hl) as [r Ek].
      rewrite (proj2 (ref_Ok _ lo r)) by (split; [lia | done]). cbn [mbind res_bind].
      rewrite store_Ok by lia. cbn [mbind res_bind]. rewrite Nat2Z.id.
      eexists. split; [done |]. split; [done |]. cbn.
      pose proof (take_inv dn now s i v (Z.to_nat lo) r Hnu Ek) as H. rewrite Z2Nat.id in H by lia.
      apply H; [done | by right].
Qed.

Lemma scan_inv_perm dn now l f active active' u : active' ≡ₚ active ->
  scan_inv dn now (mkScan l f active u) -> scan_inv dn now (mkScan l f active' u).
Proof.
  intros Hp [H1 H2 H3 H4 H5 H6 H7 H8 H9 H10 H11 H12]. constructor; cbn in *; try done.
  - intros a. rewrite Hp. apply H7.
  - by rewrite Hp.
  - intros i Hi. rewrite Hp. by apply H9.
  - intros t j Hj. rewrite Hp. by apply H10.
Qed.

Lemma scan_one_inv dn now s i v : scan_inv dn now s -> sorted_active (active_vregs s) -> i ∉ dn ->
  l0 !! i = Some v -> live_range_start v <> -1 -> now <= live_range_start v ->
  0 <= u0 -> u0 + 8 * Z.of_nat (length dn) < 2 ^ 32 - 8 ->
  exists s', scan_one s i = Ok s' /\ scan_inv (dn ++ [i]) (live_range_start v) s' /\ sorted_active (active_vregs s').
Proof.
  intros HI Hs Hn Ho Hr Hnow Hu0 Hu. unfold scan_one.
  rewrite (vreg_at_ok _ i v) by (by rewrite (si_rest _ _ _ HI)). cbn [mbind res_bind].
  destruct (expire_inv dn now (live_range_start v) s HI Hs Hnow) as (f & active & -> & HI1 & Hs1).
  cbn [mbind res_bind].
  assert (Hnu : next_up dn (live_range_start v) (mkScan (vregs s) f active (stack_usage s)) i v).
  { destruct (proj1 Hpre i v Ho) as [Hrange _]. constructor; try done; unfold start_of, end_of; rewrite Ho; try done.
    destruct (Z.eqb_spec (live_range_start v) (-1)); [done | lia]. }
  destruct (assign_inv _ _ _ _ _ Hnu Hu0 Hu Hr) as (s' & -> & Ea & HI2). cbn [mbind res_bind].
  cbn [active_vregs] in Ea. pose proof (si_same _ _ _ HI2) as Hsame. cbn in Hsame.
  assert (Hend : live_range_end v = end_of (vregs s') i).
  { rewrite (erase_end _ l0) by done. unfold end_of. by rewrite Ho. }
  rewrite Ea, Hend.
  pose proof (active_some _ _ _ HI2) as Hsome. cbn in Hsome. apply Forall_cons in Hsome as [_ Hsome].
  destruct (insert_active_spec (vregs s') i active Hsome (sorted_same _ _ Hsame Hs1)) as (act' & -> & Hperm & Hsort).
  cbn [mbind res_bind]. eexists. split; [done |]. split; [by eapply scan_inv_perm |]. cbn.
  unfold sorted_active. clear -Hsort Hsame. induction Hsort as [|a rest _ IH Ha]; constructor; [done |].
  eapply Forall_impl; [exact Ha |]. cbn. intros b. by rewrite !(erase_end (vregs s') l0).
Qed.

Lemma scan_start_inv now : scan_inv [] now (mkScan l0 all_free [] u0).
Proof.
  constructor; cbn; try done; try lia; try (intros ? ?%elem_of_nil; done);
    try (intros ? ? ? ?%elem_of_nil; done); try (intros ? ? ? ? ?%elem_of_nil; done); try apply NoDup_nil_2.
  - intros t j Hj. rewrite Exists_nil.
    assert (E : free_of all_free t = Z.ones (Z.of_nat (length (alloc_index_to_reg (reg_alloc_params t))))) by by destruct t.
    rewrite E. rewrite Z.testbit_ones_nonneg, Z.ltb_lt by (destruct t; cbn; lia). split; [|]; intros; [split; [lia | tauto] | lia].
  - intros t. destruct t; vm_compute; split; congruence.
Qed.

Lemma scan_all order : NoDup order -> StronglySorted (fun a b => start_of l0 a <= start_of l0 b) order ->
  Forall (fun i => exists v, l0 !! i = Some v /\ live_range_start v <> -1) order ->
  0 <= u0 -> u0 + 8 * Z.of_nat (length order) < 2 ^ 32 ->
  exists s now, foldM scan_one (mkScan l0 all_free [] u0) order = Ok s /\ scan_inv order now s.
Proof.
  intros Hnd Hsort Hall Hu0 Hu.
  destruct (foldM_prefix (fun done s => exists now, scan_inv done now s /\ sorted_active (active_vregs s) /\
      forall rest, order = done ++ rest -> Forall (fun j => now <= start_of l0 j) rest)
    scan_one order (mkScan l0 all_free [] u0)) as (s & -> & now & HI & _); [| | by exists s, now].
  - exists (match order with [] => 0 | i :: _ => start_of l0 i end).
    split; [apply scan_start_inv |]. split; [constructor |]. cbn. intros rest <-.
    destruct order as [|i order]; [constructor |]. apply StronglySorted_inv in Hsort as [_ H]. by constructor.
  - intros l1 i l2 s El (now & HI & Hs & Hlater). specialize (Hlater _ El). apply Forall_cons in Hlater as [Hi _].
    rewrite El in Hall. apply Forall_app in Hall as [_ Hall]. apply Forall_cons in Hall as [(v & Ev & Hr) _].
    assert (Hst : start_of l0 i = live_range_start v) by (unfold start_of; by rewrite Ev).
    assert (Hlen : (S (length l1) <= length order)%nat) by (rewrite El, length_app; cbn; lia).
    rewrite El in Hnd. apply list.NoDup_app in Hnd as (_ & Hd & _).
    destruct (scan_one_inv l1 now s i v HI Hs) as (s' & -> & HI' & Hs'); try done; try lia.
    { intros Hin. apply (Hd i Hin). by left. }
    exists s'. split; [done |]. exists (live_range_start v). split; [done |]. split; [done |]. intros rest Erest.
    rewrite El, <- app_assoc in Erest. apply app_inv_head in Erest. injection Erest as ->.
    rewrite El in Hsort. apply sorted_suffix in Hsort. apply StronglySorted_inv in Hsort as [_ H]. by rewrite <- Hst.
Qed.

End Scan.

Lemma live_range_list_spec l : (forall v, v ∈ l -> live_range_start v = -1 -> live_range_end v = -1) ->
  exists out, live_range_list l = Ok out /\ NoDup out /\
    forall i, i ∈ out <-> exists v, l !! i = Some v /\ live_range_start v <> -1.
Proof.
  intros H. destruct (foldM_seq (fun k out => NoDup out /\
      forall i, i ∈ out <-> (i < k)%nat /\ exists v, l !! i = Some v /\ live_range_start v <> -1)
    (fun out i => v ← vreg_at l i;
       if live_range_start v =? -1 then ASSERT (live_range_end v =? -1);; Ok out else Ok (out ++ [i]))
    (length l) []) as (out & E & Hnd & Hout).
  - split; [constructor |]. intros i. rewrite elem_of_nil. split; [done | lia].
  - intros k out Hk [Hnd Hout]. destruct (lookup_lt_is_Some_2 l k Hk) as [v Ev].
    rewrite (vreg_at_ok _ _ _ Ev). cbn [mbind res_bind]. destruct (Z.eqb_spec (live_range_start v) (-1)) as [Em|Em].
    + rewrite (H v) by (done || by eapply list_elem_of_lookup_2). cbn. exists out. split; [done |]. split; [done |].
      intros i. rewrite Hout. split; intros [Hi Hv]; (split; [| done]); [lia |].
      destruct Hv as (w & Ew & Hw). assert (i <> k) by congruence. lia.
    + exists (out ++ [k]). split; [done |]. split.
      * apply list.NoDup_app. split; [done |]. split; [| repeat constructor; by intros ?%elem_of_nil].
        intros i Hi ->%list_elem_of_singleton. apply Hout in Hi. lia.
      * intros i. rewrite elem_of_app, list_elem_of_singleton, Hout. split.
        -- intros [[? ?] | ->]; [split; [lia | done] | split; [lia | eauto]].
        -- intros [Hi Hv]. destruct (decide (i = k)) as [->|]; [by right | left; split; [lia | done]].
  - exists out. split; [done |]. split; [done |]. intros i. rewrite Hout. split; [tauto |].
    intros (v & Ev & Hv). split; [by eapply lookup_lt_Some | eauto].
Qed.

Lemma linear_scan_spec l0 u0 : scan_pre l0 -> 0 <= u0 -> u0 + 8 * Z.of_nat (length l0) < 2 ^ 32 ->
  exists s, linear_scan l0 u0 = Ok s /\ allocated l0 (vregs s) u0 (stack_usage s) /\
    u0 <= stack_usage s <= u0 + 8 * Z.of_nat (length l0).
Proof.
  intros Hpre Hu0 Hu. unfold linear_scan.
  destruct (live_range_list_spec l0) as (ranges & -> & Hnd & Hranges).
  { intros v [i Ev]%list_elem_of_lookup Em. destruct (proj1 Hpre i v Ev) as [Hr _]. by rewrite Em in Hr. }
  cbn [mbind res_bind].
  assert (Hq : exists order, qsort (compare_live_range_start l0) ranges = Ok order /\ order ≡ₚ ranges /\
    StronglySorted (le_by (compare_live_range_start l0)) order).
  { destruct (qsort_aux_spec (compare_live_range_start l0)
      ltac:(intros a b; unfold compare_live_range_start; rewrite !compare_int_neg; lia)
      ltac:(unfold le_by, compare_live_range_start; intros a b c; rewrite !compare_int_neg; lia)
      (S (length ranges)) [] ranges [] ltac:(lia)) as (order & E & H).
    cbn in E. rewrite !app_nil_r in E. by exists order. }
  destruct Hq as (order & -> & Hperm & Hsort). cbn [mbind res_bind].
  assert (Hlen : (length order <= length l0)%nat).
  { transitivity (length (seq 0 (length l0))); [| by rewrite length_seq]. apply submseteq_length, NoDup_submseteq; [by rewrite Hperm |].
    intros i. rewrite Hperm, Hranges, elem_of_seq. intros (v & Ev%lookup_lt_Some & _). lia. }
  destruct (scan_all l0 u0 Hpre order) as (s & now & -> & HI); [by rewrite Hperm | | | done | lia |].
  { clear -Hsort. induction Hsort as [|a rest _ IH Ha]; constructor; [done |].
    eapply Forall_impl; [exact Ha |]. intros b. unfold le_by, compare_live_range_start. rewrite compare_int_neg. lia. }
  { rewrite Hperm. apply Forall_forall. intros i. by rewrite Hranges. }
  exists s. split; [done |]. pose proof (si_usage _ _ _ _ _ HI) as Hus. split; [| lia].
  assert (Hin : forall i v, vregs s !! i = Some v -> live_range_start v <> -1 -> i ∈ order).
  { intros i v Ev Hv. destruct (erase_lookup _ _ _ _ (si_same _ _ _ _ _ HI) Ev) as (v0 & E0 & Es).
    rewrite Hperm, Hranges. exists v0. split; [done |]. by rewrite Es in Hv. }
  assert (Hends : forall i v, vregs s !! i = Some v ->
    end_of l0 i = live_range_end v /\ start_of l0 i = live_range_start v /\ place (vregs s) i = Some (vreg_u v)).
  { intros i v Ev. destruct (erase_lookup _ _ _ _ (si_same _ _ _ _ _ HI) Ev) as (v0 & E0 & ->).
    unfold end_of, start_of, place. by rewrite E0, Ev. }
  constructor.
  - apply HI.
  - apply HI.
  - intros i v Ev Hv. destruct (si_placed _ _ _ _ _ HI i (Hin _ _ Ev Hv)) as (v' & Ev' & H).
    by assert (v' = v) as -> by congruence.
  - intros i j v w r Hne Ev Ew Hv Hw Eu Eu'. destruct (Hends i v Ev) as (<- & <- & Hp), (Hends j w Ew) as (<- & <- & Hp').
    apply (si_disjoint _ _ _ _ _ HI i j r); eauto; congruence.
  - intros i j v w a b Hne Ev Ew Hv Hw Eu Eu'. destruct (Hends i v Ev) as (_ & _ & Hp), (Hends j w Ew) as (_ & _ & Hp').
    apply (si_slots _ _ _ _ _ HI i j a b); eauto; congruence.
Qed.

(** ** Lemmas: spilling around calls *)

(** Moving a register that was not assigned beforehand to a new slot keeps the
    promises. *)
Lemma allocated_spill l0 l u0 u x w : allocated l0 l u0 u -> u0 <= u -> l !! x = Some w -> pre_alloced w = false ->
  allocated l0 (<[x := set_vreg_u w (ON_STACK u)]> l) u0 (u + 8).
Proof.
  intros [H1 H2 H3 H4 H5] Hu Ew Hwa. pose proof (lookup_lt_Some _ _ _ Ew) as Hx.
  assert (Slot : forall j y b, l !! j = Some y -> live_range_start y <> -1 -> vreg_u y = ON_STACK b -> b + 8 <= u).
  { intros j y b Ey Hy Eb. destruct (H3 j y Ey Hy) as [(r & Er & _) | (b' & Eb' & _ & Hb)]; [congruence |].
    assert (b' = b) as -> by congruence. done. }
  constructor.
  - rewrite erase_store; done.
  - intros i v [(<- & <- & _)|(Hne & Ev)]%list_lookup_insert_Some Hv; [cbn in Hv; congruence | by apply H2].
  - intros i v [(<- & <- & _)|(Hne & Ev)]%list_lookup_insert_Some Hv.
    + right. exists u. cbn. split; [done | lia].
    + destruct (H3 i v Ev Hv) as [|(b & ? & ? & ?)]; [by left | right; exists b; auto with lia].
  - intros i j v y r Hne [(<- & <- & _)|(_ & Ev)]%list_lookup_insert_Some
      [(<- & <- & _)|(_ & Ey)]%list_lookup_insert_Some Hv Hy Er Er'; try done. by eapply H4.
  - intros i j v y a b Hne [(<- & <- & _)|(_ & Ev)]%list_lookup_insert_Some
      [(<- & <- & _)|(_ & Ey)]%list_lookup_insert_Some Hv Hy Er Er'; try done.
    + injection Er as <-. right. by eapply Slot.
    + injection Er' as <-. left. by eapply Slot.
    + by eapply H5.
Qed.

Section Calls.
Context (l0 : list VReg) (u0 top : Z).
Hypothesis Hpre : scan_pre l0.
Hypothesis Htop : top < 2 ^ 32.
Hypothesis Hu0 : 0 <= u0.

(** An active register: in a machine register, with a range, not assigned beforehand. *)
Definition call_active (l : list VReg) (a : nat) : Prop :=
  exists v r, l !! a = Some v /\ vreg_u v = IN_REG r /\ pre_alloced v = false /\
    0 <= live_range_start v <= live_range_end v /\ live_range_end v < 2 ^ 31.

(** [top] bounds the frame: every register still to come may need a slot. *)
Record calls_inv (s : Calls) : Prop := {
  ci_alloc : allocated l0 (c_vregs s) u0 (c_usage s);
  ci_active : Forall (call_active (c_vregs s)) (c_active s);
  ci_nodup : NoDup (c_active s);
  ci_index : Forall (fun a => (a < c_index s)%nat) (c_active s) /\ (c_index s <= length (c_vregs s))%nat;
  ci_usage : u0 <= c_usage s /\
    c_usage s + 8 * Z.of_nat (length (c_active s) + (length (c_vregs s) - c_index s)) <= top
}.

Lemma drop_ended_ok l i active : Forall (call_active l) active ->
  exists gone rest, drop_ended l i active = Ok rest /\ active = gone ++ rest.
Proof.
  induction active as [|a active IH]; intros Ha; [by exists [], [] |].
  apply Forall_cons in Ha as [(v & r & Ev & Eu & _ & Hr) Ha]. cbn [drop_ended].
  rewrite (vreg_at_ok _ _ _ Ev). cbn [mbind res_bind]. destruct (Z.eqb_spec (live_range_end v) (-1)); [lia |].
  destruct (i <=? u32 (live_range_end v)); [by exists [], (a :: active) |]. rewrite Eu. cbn.
  destruct (IH Ha) as (gone & rest & -> & ->). by exists (a :: gone), rest.
Qed.

Lemma insert_ended_ok l i x active : Forall (call_active l) active ->
  exists active', insert_ended l i x active = Ok active' /\ active' ≡ₚ x :: active.
Proof.
  induction active as [|a active IH]; intros Ha; [by exists [x] |].
  apply Forall_cons in Ha as [(v & r & Ev & _) Ha]. cbn [insert_ended].
  rewrite (vreg_at_ok _ _ _ Ev). cbn [mbind res_bind]. destruct (_ && _); [by exists (x :: a :: active) |].
  destruct (IH Ha) as (rest & -> & Hp). cbn [mbind res_bind]. exists (a :: rest). split; [done |].
  rewrite Hp. constructor.
Qed.

(** What [spill_caller_saved] does, with [n] registers still to come. *)
Lemma spill_caller_saved_ok active : forall n l u, allocated l0 l u0 u -> u0 <= u ->
  Forall (call_active l) active -> NoDup active -> u + 8 * Z.of_nat (length active + n) <= top ->
  exists l' u' kept, spill_caller_saved l u active = Ok (l', u', kept) /\ allocated l0 l' u0 u' /\
    length l' = length l /\ u <= u' /\ u' + 8 * Z.of_nat (length kept + n) <= top /\
    sublist kept active /\ Forall (call_active l') kept /\ (forall i, i ∉ active -> l' !! i = l !! i).
Proof.
  induction active as [|a active IH]; intros n l u Hal Hu Ha Hnd Htp.
  { exists l, u, []. split_and!; try done; try lia; constructor. }
  apply Forall_cons in Ha as [(v & r & Ev & Eu & Hpa & Hr) Ha]. apply NoDup_cons in Hnd as [Hna Hnd].
  cbn [length] in Htp. cbn [spill_caller_saved]. rewrite (vreg_at_ok _ _ _ Ev). cbn [mbind res_bind]. rewrite Eu.
  pose proof (lookup_lt_Some _ _ _ Ev) as Hal0. destruct (_ =? 0).
  - destruct (IH (S n) l u Hal Hu Ha Hnd ltac:(lia)) as (l' & u' & kept & -> & Hal' & Hlen & Hu' & Htp' & Hsub & Hk & Hrest).
    cbn [mbind res_bind]. exists l', u', (a :: kept). split_and!; try done; [cbn [length]; lia | by constructor | |].
    + constructor; [| done]. exists v, r. by rewrite Hrest.
    + intros i Hi. apply Hrest. intros ?. apply Hi. by right.
  - rewrite store_Ok by lia. cbn [mbind res_bind]. rewrite Nat2Z.id, wrap_small by lia.
    pose proof (allocated_spill l0 l u0 u a v Hal Hu Ev Hpa) as Hal2.
    destruct (IH n _ (u + 8) Hal2 ltac:(lia)) as (l' & u' & kept & -> & Hal' & Hlen & Hu' & Htp' & Hsub & Hk & Hrest);
      [| done | lia |].
    { apply Forall_forall. intros b Hb. rewrite Forall_forall in Ha. destruct (Ha b Hb) as (w & r' & Ew & Hw).
      exists w, r'. rewrite list_lookup_insert_ne by naive_solver. done. }
    exists l', u', kept. rewrite length_insert in Hlen. split_and!; try done; [lia | by constructor |].
    intros i Hi. rewrite Hrest by (intros ?; apply Hi; by right).
    apply list_lookup_insert_ne. intros ->. apply Hi. by left.
Qed.

Lemma activate_ok s i : calls_inv s -> 0 <= i < 2 ^ 31 -> exists s', activate s i = Ok s' /\ calls_inv s' /\
  length (c_vregs s') = length (c_vregs s).
Proof.
  intros HI Hi. unfold activate. destruct (decide _) as [|Hne]; [by exists s |].
  pose proof HI as [Hal Hact Hnd [Hix Hle] [Hu Htp]].
  destruct (lookup_lt_is_Some_2 (c_vregs s) (c_index s) ltac:(lia)) as [v Ev].
  rewrite (vreg_at_ok _ _ _ Ev). cbn [mbind res_bind].
  destruct (vreg_u v) as [|r|] eqn:Eu; [by exists s | | by exists s].
  destruct (negb (pre_alloced v) && _) eqn:C; [| by exists s]. apply andb_prop in C as [Hpa Hst].
  apply negb_true_iff in Hpa. destruct (insert_ended_ok (c_vregs s) i (c_index s) (c_active s) Hact) as (act & -> & Hp).
  cbn [mbind res_bind]. eexists. split; [done |]. split; [| done]. constructor; cbn; try done.
  - rewrite Hp. constructor; [| done]. exists v, r. split; [done |]. split; [done |]. split; [done |].
    apply Z.eqb_eq in Hst. destruct (erase_lookup _ _ _ _ (al_same _ _ _ _ Hal) Ev) as (v0 & E0 & Es).
    destruct (proj1 Hpre _ _ E0) as [Hr _]. rewrite Es. cbn.
    destruct (Z.eqb_spec (live_range_start v0) (-1)) as [Em|]; [| done]. exfalso.
    rewrite Es in Hst. cbn in Hst. rewrite Em in Hst. vm_compute in Hst. subst i. lia.
  - rewrite Hp. constructor; [| done]. intros Hin. rewrite Forall_forall in Hix. specialize (Hix _ Hin). lia.
  - split; [| lia]. rewrite Hp. constructor; [lia |]. eapply Forall_impl; [exact Hix | cbn; lia].
  - split; [done |]. rewrite Hp. cbn [length]. lia.
Qed.

Lemma call_step_ok body s i : calls_inv s -> (i < length body)%nat -> Z.of_nat (length body) < 2 ^ 31 ->
  exists s', call_step body s i = Ok s' /\ calls_inv s'.
Proof.
  intros HI Hi Hb. unfold call_step. pose proof HI as [Hal Hact Hnd [Hix Hle] [Hu Htp]].
  destruct (drop_ended_ok (c_vregs s) (Z.of_nat i) (c_active s) Hact) as (gone & rest & -> & Ea). cbn [mbind res_bind].
  rewrite Ea in *. apply Forall_app in Hact as [_ Hact]. apply Forall_app in Hix as [_ Hix].
  apply list.NoDup_app in Hnd as (_ & _ & Hnd). rewrite length_app in Htp.
  destruct (activate_ok (mkCalls (c_vregs s) (c_usage s) rest (c_index s)) (Z.of_nat i)) as (s' & -> & HI' & _);
    [constructor; cbn; try done; lia | lia |]. cbn [mbind res_bind].
  destruct (ref_lt body (Z.of_nat i) ltac:(lia)) as [instr ->]. cbn [mbind res_bind].
  destruct (decide (op instr = CALL)); [| by exists s']. clear -HI' Hpre Htop Hu0.
  pose proof HI' as [Hal Hact Hnd [Hix Hle] [Hu Htp]].
  destruct (spill_caller_saved_ok (c_active s') (length (c_vregs s') - c_index s') (c_vregs s') (c_usage s')
    Hal Hu Hact Hnd Htp) as (l' & u' & kept & -> & Hal' & Hlen & Hu' & Htp' & Hsub & Hk & _). cbn [mbind res_bind].
  eexists. split; [done |]. constructor; cbn; try done.
  - by eapply sublist_NoDup.
  - rewrite Hlen. split; [| done]. rewrite Forall_forall in *.
    intros a Ha. apply Hix. by eapply elem_of_sublist.
  - rewrite Hlen. split; [lia | done].
Qed.

Lemma spill_across_calls_ok body l u : allocated l0 l u0 u -> u0 <= u -> u + 8 * Z.of_nat (length l) <= top ->
  Z.of_nat (length body) < 2 ^ 31 ->
  exists l' u', spill_across_calls body l u = Ok (l', u') /\ allocated l0 l' u0 u'.
Proof.
  intros Hal Hu Ht Hb. unfold spill_across_calls.
  destruct (foldM_seq (fun _ s => calls_inv s) (call_step body) (length body) (mkCalls l u [] 0)) as (s & -> & HI).
  - constructor; cbn; try done; [constructor | split; [constructor | lia] | lia].
  - intros k s Hk HI. by apply call_step_ok.
  - cbn [mbind res_bind]. exists (c_vregs s), (c_usage s). split; [done | apply HI].
Qed.

End Calls.

(** ** Properties of the choice of places *)

(** C1: register allocation is safe. For every set of live ranges whose
    pre-assigned registers are allocatable and never clash with one another,
    linear scan and the pass that spills around calls terminate without a failed
    assertion; only places change, pre-assigned registers keep theirs, every
    register with a live range is in an allocatable machine register of its type
    or in a slot of the new part of the frame, registers in the same machine
    register have disjoint live ranges, and slots do not overlap. *)
Theorem assign_places_safe body l usage :
  scan_pre l -> 0 <= usage -> usage + 16 * Z.of_nat (length l) < 2 ^ 32 -> Z.of_nat (length body) < 2 ^ 31 ->
  exists l' usage', assign_places body l usage = Ok (l', usage') /\ allocated l l' usage usage'.
Proof.
  intros Hpre H0 Hu Hb. unfold assign_places.
  destruct (linear_scan_spec l usage Hpre H0 ltac:(lia)) as (s & -> & Hal & Hus). cbn [mbind res_bind].
  assert (Hlen : length (vregs s) = length l).
  { rewrite <- (length_fmap erase), (al_same _ _ _ _ Hal). apply length_fmap. }
  apply (spill_across_calls_ok l usage (usage + 16 * Z.of_nat (length l)) Hpre Hu H0); [done | lia | lia | done].
Qed.

(** An allocation with a clash: v2 needs the register that v0 was given. *)
Definition ex_regs : list VReg :=
  [mkVReg UNASSIGNED false REG_TYPE_INTEGER 0 6;
   mkVReg (IN_REG REG_CLASS_A) true REG_TYPE_INTEGER 4 5;
   mkVReg (IN_REG REG_CLASS_R13) true REG_TYPE_INTEGER 1 3;
   mkVReg UNASSIGNED false REG_TYPE_INTEGER (-1) (-1);
   mkVReg UNASSIGNED false REG_TYPE_FLOAT 2 5].
Definition ex_body : list AsmInstr :=
  repeat (ex_instr NOP [] None) 5 ++ [ex_instr CALL [asm_symbol 0] None; ex_instr RET [] None].

Lemma ex_regs_pre : scan_pre ex_regs.
Proof.
  split.
  - intros i v E. do 5 (destruct i as [|i]; [injection E as <-; cbn; (split; [lia |]); first [done |
      eexists; split; [done |]; unfold allocatable; cbn; set_solver] |]). done.
  - intros i j v w r Ei Ej Hne. do 5 (destruct i as [|i]; [injection Ei as <-; do 5 (destruct j as [|j];
      [injection Ej as <-; cbn; first [done | congruence | lia] |]); done |]). done.
Qed.

Lemma assign_places_safe_witness :
  exists l' usage', assign_places ex_body ex_regs 16 = Ok (l', usage') /\
    vreg_u <$> l' = [ON_STACK 16; IN_REG REG_CLASS_A; IN_REG REG_CLASS_R13; UNASSIGNED; IN_REG REG_CLASS_XMM6] /\
    usage' = 24 /\ allocated ex_regs l' 16 usage'.
Proof.
  destruct (assign_places_safe ex_body ex_regs 16 ex_regs_pre) as (l' & u & E & H);
    [lia | vm_compute; reflexivity | vm_compute; reflexivity |].
  exists l', u. split; [exact E |]. vm_compute in E. injection E as <- <-. split; [reflexivity |].
  split; [reflexivity | exact H].
Defined.

(** the pass around calls can be stuck. [vreg_index] only moves on when the
    register it stands at becomes active, so one pre-assigned register at the
    front disables the pass: here v4 is live across the call at 5 and stays in
    R11, which the callee may overwrite. *)
Theorem caller_saved_live_across_call :
  let l := mkVReg (IN_REG REG_CLASS_DI) true REG_TYPE_INTEGER 0 1
             :: repeat (mkVReg UNASSIGNED false REG_TYPE_INTEGER 1 6) 5 in
  exists l' u v, assign_places ex_body l 0 = Ok (l', u) /\ l' !! 4%nat = Some v /\
    vreg_u v = IN_REG REG_CLASS_R11 /\ live_range_start v < 5 < live_range_end v /\
    op <$> ex_body !! 5%nat = Some CALL /\
    Z.testbit CALLER_SAVE_REGS_BITMASK (reg_class_num REG_CLASS_R11) = true.
Proof.
  eexists _, _, _. split; [vm_compute; reflexivity |]. split; [reflexivity |]. split_and!; reflexivity.
Qed.

(** the eighth floating-point argument. XMM7 is an argument register and the
    spill register, but not in the allocation table: the lookup of its index
    reads past the end of [float_reg_to_alloc_index]. *)
Theorem xmm7_argument_out_of_bounds start end_ usage : start <> -1 ->
  linear_scan [mkVReg (IN_REG REG_CLASS_XMM7) true REG_TYPE_FLOAT start end_] usage = Stop Undef.
Proof.
  intros Hs. set (l := [_]). unfold linear_scan.
  assert (E : live_range_list l = Ok [0%nat]).
  { unfold live_range_list. cbn [length l seq foldM]. rewrite (vreg_at_ok l 0 _ eq_refl).
    cbn. by destruct (Z.eqb_spec start (-1)). }
  rewrite E. reflexivity.
Qed.

Lemma xmm7_argument_out_of_bounds_witness :
  3 <> -1 /\ linear_scan [mkVReg (IN_REG REG_CLASS_XMM7) true REG_TYPE_FLOAT 3 9] 0 = Stop Undef.
Proof. split; [lia | apply (xmm7_argument_out_of_bounds 3 9 0); lia]. Defined.

(** ** Specification of the rewriting *)

Inductive operand :=
| Plain (a : AsmValue)
| Spilled (reg : Register) (v : VReg) (slot : Z)
| Unplaced.

(** What an operand becomes. *)
Definition operand_of (l : list VReg) (a : AsmValue) : operand :=
  match value_reg a with
  | Some reg =>
      match reg_u reg with
      | V_REG n =>
          match ref l n with
          | Ok v =>
              match vreg_u v with
              | IN_REG REG_CLASS_SP => Unplaced
              | IN_REG c => Plain (with_class a c)
              | ON_STACK slot => Spilled reg v slot
              | UNASSIGNED => Unplaced
              end
          | Stop _ => Unplaced
          end
      | PHYS_REG _ => Plain a
      end
  | None => Plain a
  end.

Fixpoint plain_args (l : list VReg) (as_ : list AsmValue) : option (list AsmValue) :=
  match as_ with
  | [] => Some []
  | a :: as_ =>
      match operand_of l a, plain_args l as_ with
      | Plain a', Some as' => Some (a' :: as')
      | _, _ => None
      end
  end.

(** The width of the spill register in the store. *)
Definition back_width (c : RegClass) (reg : Register) (j : nat) : Z :=
  match j with O => if reg_class_is_gpr c then width reg else 128 | S _ => 64 end.

(** The instructions one instruction stands for: itself with machine registers,
    between a load and a store of the spill register if its first or second
    operand, and no other, was spilled. *)
Definition expand (l : list VReg) (diff : Z) (i : AsmInstr) : option (list AsmInstr) :=
  let done as_ := mkAsmInstr (op i) as_ (vreg_deps i) (label i) in
  let around reg v slot (j : nat) as_ :=
    let c := spill_register (reg_alloc_params (vreg_type v)) in
    match asm_offset_reg REG_CLASS_SP 64 (asm_const_imm (u32 (slot + diff))),
          asm_phys_reg c (width reg), asm_phys_reg c (back_width c reg j) with
    | Ok location, Ok target, Ok source =>
        Some [mkAsmInstr (spill_op (vreg_type v) reg) [target; asm_deref location] [] None; done as_;
              mkAsmInstr (spill_op (vreg_type v) reg) [asm_deref location; source] [] None]
    | _, _, _ => None
    end in
  match plain_args l (args i) with
  | Some as' => Some [done as']
  | None =>
      match args i with
      | a :: rest =>
          match operand_of l a, plain_args l rest with
          | Spilled reg v slot, Some rest' =>
              around reg v slot 0%nat (with_class a (spill_register (reg_alloc_params (vreg_type v))) :: rest')
          | Plain a', None =>
              match rest with
              | b :: rest =>
                  match operand_of l b, plain_args l rest with
                  | Spilled reg v slot, Some rest' =>
                      around reg v slot 1%nat
                        (a' :: with_class b (spill_register (reg_alloc_params (vreg_type v))) :: rest')
                  | _, _ => None
                  end
              | [] => None
              end
          | _, _ => None
          end
      | [] => None
      end
  end.

(** The whole body, with the distance of the stack pointer tracked. *)
Fixpoint expand_all (l : list VReg) (diff : Z) (body : list AsmInstr) : option (list AsmInstr) :=
  match body with
  | [] => Some []
  | i :: body =>
      match track_sp i diff with
      | Ok diff =>
          match expand l diff i, expand_all l diff body with
          | Some x, Some y => Some (x ++ y)
          | _, _ => None
          end
      | Stop _ => None
      end
  end.

Definition two_spilled : list VReg :=
  [mkVReg (ON_STACK 8) false REG_TYPE_INTEGER 0 2; mkVReg (ON_STACK 16) false REG_TYPE_INTEGER 0 2].
Definition sp_slot (slot : Z) : AsmValue :=
  mkAsmValue true (ASM_VALUE_OFFSET_REGISTER (mkRegister 64 0 (PHYS_REG REG_CLASS_SP)) (ASM_CONST_IMMEDIATE slot)).
Definition phys (c : RegClass) : AsmValue := mkAsmValue false (ASM_VALUE_REGISTER (mkRegister 64 64 (PHYS_REG c))).

(** two spilled operands share the one spill register. [ADD v0, v1] with both
    on the stack becomes an addition of R12 to itself: the second load
    overwrites the first operand. *)
Theorem two_spilled_operands_clash :
  rewrite_registers two_spilled 8 [ex_instr ADD [ex_reg 0; ex_reg 1] None] =
  Ok [ex_instr MOV [phys REG_CLASS_R12; sp_slot 8] None;
      ex_instr MOV [phys REG_CLASS_R12; sp_slot 16] None;
      ex_instr ADD [phys REG_CLASS_R12; phys REG_CLASS_R12] None;
      ex_instr MOV [sp_slot 16; phys REG_CLASS_R12] None;
      ex_instr MOV [sp_slot 8; phys REG_CLASS_R12] None].
Proof. vm_compute. reflexivity. Qed.

(** the load of a spilled operand is put in front of the label. A jump to the
    label reaches the instruction with whatever R12 holds. *)
Theorem spill_load_precedes_label :
  exists load instr store, rewrite_registers two_spilled 8 [ex_instr CMP [ex_reg 0; asm_imm 1] (Some 7%nat)]
    = Ok [load; instr; store] /\
  label load = None /\ label instr = Some 7%nat /\ args instr !! 0%nat = Some (phys REG_CLASS_R12).
Proof. eexists _, _, _. split; [vm_compute; reflexivity |]. split_and!; reflexivity. Qed.

(** the distance of the stack pointer is never reduced. After a call with
    stack arguments has given its space back, a spilled register is read 16 bytes
    above its slot. *)
Theorem stack_slot_drifts_after_call :
  let sp := phys REG_CLASS_SP in
  exists a b c, rewrite_registers two_spilled 8
    [ex_instr SUB [sp; asm_imm 16] None; ex_instr ADD [sp; asm_imm 16] None; ex_instr PUSH [ex_reg 0] None]
    = Ok [ex_instr SUB [sp; asm_imm 16] None; ex_instr ADD [sp; asm_imm 16] None; a; b; c] /\
  args a = [phys REG_CLASS_R12; sp_slot 24] /\ vreg_u <$> two_spilled !! 0%nat = Some (ON_STACK 8).
Proof. eexists _, _, _. split; [vm_compute; reflexivity |]. split_and!; reflexivity. Qed.

(** ** Lemmas: the rewriting *)

Definition with_args (i : AsmInstr) (as_ : list AsmValue) : AsmInstr := mkAsmInstr (op i) as_ (vreg_deps i) (label i).

Lemma with_args_id i : with_args i (args i) = i.
Proof. by destruct i. Qed.

Lemma set_arg_middle i pre a b rest : args i = pre ++ a :: rest ->
  set_arg i (length pre) b = with_args i (pre ++ b :: rest).
Proof.
  intros E. unfold set_arg. rewrite E, insert_app_r_alt, Nat.sub_diag by lia. done.
Qed.

Lemma ref_nat {A} (l : list A) (i : nat) x : l !! i = Some x -> ref l (Z.of_nat i) = Ok x.
Proof. intros E. apply ref_Ok. rewrite Nat2Z.id. split; [lia | done]. Qed.

Lemma with_class_reg a c r : value_reg a = Some r ->
  value_reg (with_class a c) = Some (mkRegister (width r) (value_width r) (PHYS_REG c)).
Proof. destruct a as [d [r'|r' o|k]]; cbn; congruence. Qed.

(** Machine registers stay. *)
Lemma operand_with_class l a c r : value_reg a = Some r -> operand_of l (with_class a c) = Plain (with_class a c).
Proof. intros E. unfold operand_of. by rewrite (with_class_reg _ _ _ E). Qed.

Lemma operand_idem l a a' : operand_of l a = Plain a' -> operand_of l a' = Plain a'.
Proof.
  intros H. pose proof H as H0. unfold operand_of in H. destruct (value_reg a) as [r|] eqn:Er; [| congruence].
  destruct (reg_u r); [congruence |]. destruct (ref l vreg_number) as [v|]; [| done].
  destruct (vreg_u v) as [|c|]; try done. destruct c; try done; injection H as <-; by eapply operand_with_class.
Qed.

Lemma plain_idem l as_ as' : plain_args l as_ = Some as' -> plain_args l as' = Some as'.
Proof.
  revert as'. induction as_ as [|a as_ IH]; intros as' H; cbn in H; [by injection H as <- |].
  destruct (operand_of l a) as [b| |] eqn:Eo; try done. destruct (plain_args l as_) as [bs|] eqn:Ep; [| done].
  injection H as <-. cbn. rewrite (operand_idem _ _ _ Eo), (IH bs eq_refl). done.
Qed.

Lemma rewrite_arg_plain l cap diff i body X pre a rest a' : body !! i = Some X -> args X = pre ++ a :: rest ->
  operand_of l a = Plain a' ->
  rewrite_arg l cap diff i (body, length pre) = Ok (inl (<[i := with_args X (pre ++ a' :: rest)]> body, S (length pre))).
Proof.
  intros Eb Ea Ho. unfold rewrite_arg. rewrite (ref_nat _ _ _ Eb). cbn [mbind res_bind].
  rewrite Ea, list_lookup_middle by done.
  assert (Same : <[i := with_args X (pre ++ a :: rest)]> body = body).
  { rewrite <- Ea, with_args_id. by apply list_insert_id. }
  unfold operand_of in Ho. destruct (value_reg a) as [r|]; [| injection Ho as <-; by rewrite Same].
  destruct (reg_u r) as [c|n]; [injection Ho as <-; by rewrite Same |].
  destruct (ref l n) as [v|]; [| done]. cbn [mbind res_bind].
  destruct (vreg_u v) as [|c|]; [done | | done].
  assert (E : a' = with_class a c) by (destruct c; congruence). by rewrite (set_arg_middle X pre a _ rest Ea), E.
Qed.

(** The loop over the operands from the one after [pre], none of which is spilled. *)
Lemma plain_run l cap diff i rest : forall fuel pre body X rest', body !! i = Some X -> args X = pre ++ rest ->
  plain_args l rest = Some rest' -> (length rest < fuel)%nat ->
  loop fuel (rewrite_arg l cap diff i) (body, length pre) = Ok (<[i := with_args X (pre ++ rest')]> body).
Proof.
  induction rest as [|a rest IH]; intros [|fuel] pre body X rest' Eb Ea Hp Hf; cbn [length] in Hf; try lia; cbn in Hp.
  - injection Hp as <-. cbn [loop]. unfold rewrite_arg. rewrite (ref_nat _ _ _ Eb). cbn [mbind res_bind].
    rewrite Ea, app_nil_r, lookup_ge_None_2 by lia. rewrite app_nil_r in Ea. rewrite <- Ea, with_args_id.
    by rewrite list_insert_id.
  - destruct (operand_of l a) as [a'| |] eqn:Eo; try done. destruct (plain_args l rest) as [bs|] eqn:Ep; [| done].
    injection Hp as <-. cbn [loop]. rewrite (rewrite_arg_plain l cap diff i body X pre a rest a' Eb Ea Eo).
    pose proof (lookup_lt_Some _ _ _ Eb).
    replace (S (length pre)) with (length (pre ++ [a'])) by (rewrite length_app; cbn; lia).
    rewrite (IH fuel (pre ++ [a']) _ (with_args X (pre ++ a' :: rest)) bs);
      [| by apply list_lookup_insert_eq | cbn; by rewrite <- app_assoc | done | lia].
    rewrite list_insert_insert_eq, <- app_assoc. done.
Qed.

(** An instruction without spilled operands. *)
Lemma rewrite_plain l cap diff diff' dn X tl as' : track_sp X diff = Ok diff' -> plain_args l (args X) = Some as' ->
  rewrite_instr l cap (dn ++ X :: tl, diff, length dn)
  = Ok (inl ((dn ++ [with_args X as']) ++ tl, diff', length (dn ++ [with_args X as']))).
Proof.
  intros Et Hp. unfold rewrite_instr. rewrite list_lookup_middle by done. rewrite Et. cbn [mbind res_bind].
  pose proof (plain_run l cap diff' (length dn) (args X) (length (args X) + 4) [] (dn ++ X :: tl) X as'
    ltac:(by apply list_lookup_middle) eq_refl Hp ltac:(lia)) as R.
  cbn [length app] in R. rewrite R. cbn [mbind res_bind].
  rewrite insert_app_r_alt, Nat.sub_diag by lia. cbn. rewrite <- app_assoc, length_app. cbn.
  do 3 f_equal. lia.
Qed.

(** The load and the store only name machine registers. *)
Lemma phys_operand l c w a : asm_phys_reg c w = Ok a -> operand_of l a = Plain a /\ operand_of l (asm_deref a) = Plain (asm_deref a).
Proof. unfold asm_phys_reg. intros (? & _ & E)%res_bind_Ok. injection E as <-. done. Qed.

Lemma slot_operand l k a : asm_offset_reg REG_CLASS_SP 64 (asm_const_imm k) = Ok a ->
  operand_of l (asm_deref a) = Plain (asm_deref a) /\ exists r, value_reg (asm_deref a) = Some r /\ width r = 64.
Proof.
  unfold asm_offset_reg, asm_const_imm. destruct k; cbn; intros E; injection E as <-; (split; [done | by eexists]).
Qed.

Lemma plain_two l a b : operand_of l a = Plain a -> operand_of l b = Plain b -> plain_args l [a; b] = Some [a; b].
Proof. intros Ea Eb. cbn. by rewrite Ea, Eb. Qed.

(** [rewrite_spilled] on a first or second operand. *)
Lemma rewrite_spilled_ok cap dn X tl j pre a rest reg v slot diff location target source :
  args X = pre ++ a :: rest -> j = length pre -> (j < 2)%nat ->
  let c := spill_register (reg_alloc_params (vreg_type v)) in
  asm_offset_reg REG_CLASS_SP 64 (asm_const_imm (u32 (slot + diff))) = Ok location ->
  asm_phys_reg c (width reg) = Ok target ->
  asm_phys_reg c (back_width c reg j) = Ok source ->
  Z.of_nat (length dn + 3 + length tl) <= cap ->
  rewrite_spilled cap (dn ++ X :: tl) (length dn) j X a reg v slot diff
  = Ok (dn ++ mkAsmInstr (spill_op (vreg_type v) reg) [target; asm_deref location] [] None
           :: with_args X (pre ++ with_class a c :: rest)
           :: mkAsmInstr (spill_op (vreg_type v) reg) [asm_deref location; source] [] None :: tl).
Proof.
  intros Ea -> Hj c El Et Es Hcap. unfold rewrite_spilled. fold c. rewrite El, Et. cbn [mbind res_bind].
  rewrite (set_arg_middle X pre a _ rest Ea), insert_app_r_alt, Nat.sub_diag by lia. cbn [insert list_insert].
  unfold insert_instr. rewrite length_app. cbn [length].
  destruct (Z.leb_spec (Z.of_nat (length dn + S (length tl)) + 1) cap); [| lia].
  rewrite take_app_length, drop_app_length. cbn [mbind res_bind].
  assert (Ew : asm_phys_reg c (arg_width (mkAsmInstr (spill_op (vreg_type v) reg) [target; asm_deref location] [] None)
    (length pre)) = Ok source).
  { destruct (slot_operand [] _ _ El) as (_ & r & Er & Hr).
    destruct (length pre) as [|[|]]; [| | lia]; unfold arg_width; cbn [lookup list_lookup args]; [| by rewrite Er, Hr].
    rewrite <- Es. f_equal. unfold asm_phys_reg in Et. apply res_bind_Ok in Et as (? & _ & Et). by injection Et as <-. }
  rewrite Ew. cbn [mbind res_bind]. rewrite length_app. cbn [length].
  destruct (Z.leb_spec (Z.of_nat (length dn + S (S (length tl))) + 1) cap); [| lia].
  replace (S (S (length dn))) with (length (dn ++ [mkAsmInstr (spill_op (vreg_type v) reg) [target; asm_deref location] [] None;
    with_args X (pre ++ with_class a c :: rest)])) by (rewrite length_app; cbn; lia).
  assert (Split : forall x y (z : list AsmInstr), dn ++ x :: y :: z = (dn ++ [x; y]) ++ z) by (intros; by rewrite <- app_assoc).
  rewrite (Split _ _ tl), take_app_length, drop_app_length, <- app_assoc. done.
Qed.

Lemma rewrite_arg_spilled l cap diff dn X tl pre a rest reg v slot body' :
  args X = pre ++ a :: rest -> operand_of l a = Spilled reg v slot ->
  rewrite_spilled cap (dn ++ X :: tl) (length dn) (length pre) X a reg v slot diff = Ok body' ->
  rewrite_arg l cap diff (length dn) (dn ++ X :: tl, length pre) = Ok (inl (body', S (length pre))).
Proof.
  intros Ea Ho Hr. unfold rewrite_arg. rewrite (ref_nat _ _ X) by by apply list_lookup_middle. cbn [mbind res_bind].
  rewrite Ea, list_lookup_middle by done. unfold operand_of in Ho.
  destruct (value_reg a) as [r|]; [| done]. destruct (reg_u r) as [|n]; [done |].
  destruct (ref l n) as [w|]; [| done]. cbn [mbind res_bind].
  destruct (vreg_u w) as [|c|s]; [done | by destruct c |]. injection Ho as <- <- <-.
  rewrite Hr. done.
Qed.

(** One spilled operand, after at most one other. *)
Lemma rewrite_spill l cap diff diff' dn X tl pre pre' a rest reg v slot location target source :
  track_sp X diff = Ok diff' -> args X = pre ++ a :: rest -> (length pre < 2)%nat -> plain_args l pre = Some pre' ->
  operand_of l a = Spilled reg v slot ->
  let c := spill_register (reg_alloc_params (vreg_type v)) in
  asm_offset_reg REG_CLASS_SP 64 (asm_const_imm (u32 (slot + diff'))) = Ok location ->
  asm_phys_reg c (width reg) = Ok target -> asm_phys_reg c (back_width c reg (length pre)) = Ok source ->
  Z.of_nat (length dn + 3 + length tl) <= cap ->
  rewrite_instr l cap (dn ++ X :: tl, diff, length dn)
  = Ok (inl (dn ++ mkAsmInstr (spill_op (vreg_type v) reg) [target; asm_deref location] [] None
               :: with_args X (pre' ++ with_class a c :: rest)
               :: mkAsmInstr (spill_op (vreg_type v) reg) [asm_deref location; source] [] None :: tl,
             diff', S (length dn))).
Proof.
  intros Et Ea Hpre Hp Ho c El Etg Es Hcap. unfold rewrite_instr. rewrite list_lookup_middle by done.
  rewrite Et. cbn [mbind res_bind].
  set (load := mkAsmInstr (spill_op (vreg_type v) reg) [target; asm_deref location] [] None).
  set (store := mkAsmInstr (spill_op (vreg_type v) reg) [asm_deref location; source] [] None).
  pose proof (slot_operand l _ _ El) as [Hl _]. pose proof (phys_operand l _ _ _ Etg) as [Ht _].
  assert (Load : forall fuel k Z, (k < 3)%nat -> (2 < fuel)%nat ->
    loop fuel (rewrite_arg l cap diff' (length dn)) (dn ++ load :: Z, k) = Ok (dn ++ load :: Z)).
  { intros fuel k Z Hk Hf.
    pose proof (plain_run l cap diff' (length dn) (drop k (args load)) fuel (take k (args load)) (dn ++ load :: Z) load
      (drop k (args load)) ltac:(by apply list_lookup_middle) ltac:(by rewrite take_drop)) as R.
    rewrite take_drop, with_args_id, list_insert_id in R by by apply list_lookup_middle.
    replace (length (take k (args load))) with k in R by (rewrite length_take; cbn; lia).
    apply R; [| rewrite length_drop; cbn; lia]. destruct k as [|[|[|]]]; [by apply plain_two | cbn; by rewrite Hl | done | lia]. }
  destruct pre as [|a0 [|]]; [| | cbn in Hpre; lia]; cbn [length] in *.
  - injection Hp as <-. rewrite Ea. cbn [length app Nat.add loop].
    pose proof (rewrite_spilled_ok cap dn X tl 0 [] a rest reg v slot diff' location target source Ea eq_refl
      ltac:(lia) El Etg Es Hcap) as R.
    pose proof (rewrite_arg_spilled l cap diff' dn X tl [] a rest reg v slot _ Ea Ho R) as R'.
    cbn [length app] in R'. rewrite R'. fold c load store. rewrite Load by lia. done.
  - cbn in Hp. destruct (operand_of l a0) as [b| |] eqn:Eb; try done. injection Hp as <-.
    rewrite Ea. cbn [length app Nat.add loop].
    pose proof (rewrite_arg_plain l cap diff' (length dn) (dn ++ X :: tl) X [] a0 (a :: rest) b
      ltac:(by apply list_lookup_middle) Ea Eb) as R0.
    cbn [length app] in R0. rewrite R0, insert_app_r_alt, Nat.sub_diag by lia. cbn [insert list_insert].
    pose proof (rewrite_spilled_ok cap dn (with_args X (b :: a :: rest)) tl 1 [b] a rest reg v slot diff' location target source
      eq_refl eq_refl ltac:(lia) El Etg Es Hcap) as R.
    pose proof (rewrite_arg_spilled l cap diff' dn (with_args X (b :: a :: rest)) tl [b] a rest reg v slot _ eq_refl Ho R) as R'.
    cbn [length app] in R'. rewrite R'. fold c load store. rewrite Load by lia. done.
Qed.

Lemma expand_cases l diff X xs : expand l diff X = Some xs ->
  (exists as', plain_args l (args X) = Some as' /\ xs = [with_args X as']) \/
  (exists pre pre' a rest rest' reg v slot location target source,
     args X = pre ++ a :: rest /\ (length pre < 2)%nat /\ plain_args l pre = Some pre' /\
     operand_of l a = Spilled reg v slot /\ plain_args l rest = Some rest' /\
     let c := spill_register (reg_alloc_params (vreg_type v)) in
     asm_offset_reg REG_CLASS_SP 64 (asm_const_imm (u32 (slot + diff))) = Ok location /\
     asm_phys_reg c (width reg) = Ok target /\ asm_phys_reg c (back_width c reg (length pre)) = Ok source /\
     xs = [mkAsmInstr (spill_op (vreg_type v) reg) [target; asm_deref location] [] None;
           with_args X (pre' ++ with_class a c :: rest');
           mkAsmInstr (spill_op (vreg_type v) reg) [asm_deref location; source] [] None]).
Proof.
  unfold expand. destruct (plain_args l (args X)) as [as'|]; [intros [= <-]; left; by exists as' |].
  intros H. right. destruct (args X) as [|a rest]; [done |].
  destruct (operand_of l a) as [a'|reg v slot|] eqn:Ea, (plain_args l rest) as [rest'|] eqn:Er; try done.
  - destruct rest as [|b rest]; [done |].
    destruct (operand_of l b) as [|reg v slot|] eqn:Eb; try done.
    destruct (plain_args l rest) as [rest'|] eqn:Er'; [| done].
    destruct (asm_offset_reg _ _ _) as [loc|] eqn:El; [| done].
    destruct (asm_phys_reg _ (width reg)) as [tgt|] eqn:Et; [| done].
    destruct (asm_phys_reg _ (back_width _ _ _)) as [src|] eqn:Es; [| done]. injection H as <-.
    exists [a], [a'], b, rest, rest', reg, v, slot, loc, tgt, src. cbn [plain_args length]. rewrite Ea.
    split_and!; try done. lia.
  - destruct (asm_offset_reg _ _ _) as [loc|] eqn:El; [| done].
    destruct (asm_phys_reg _ (width reg)) as [tgt|] eqn:Et; [| done].
    destruct (asm_phys_reg _ (back_width _ _ _)) as [src|] eqn:Es; [| done]. injection H as <-.
    exists [], [], a, rest, rest', reg, v, slot, loc, tgt, src. split_and!; try done. cbn. lia.
Qed.

Lemma track_not_sub i diff : op i <> SUB -> track_sp i diff = Ok diff.
Proof. unfold track_sp. by destruct (decide (op i = SUB)). Qed.

Lemma spill_op_not_sub t reg : spill_op t reg <> SUB.
Proof. destruct t; cbn; [done |]. by destruct (value_width reg =? 32). Qed.

Lemma plain_not_sp l a a' r : operand_of l a = Plain a' -> value_u a' = ASM_VALUE_REGISTER r ->
  reg_u r = PHYS_REG REG_CLASS_SP -> a' = a.
Proof.
  unfold operand_of. destruct (value_reg a) as [q|]; [| by intros [= <-]].
  destruct (reg_u q); [by intros [= <-] |]. destruct (ref l _) as [v|]; [| done].
  destruct (vreg_u v) as [|c|]; try done. intros H Er Esp. exfalso.
  assert (E : a' = with_class a c /\ c <> REG_CLASS_SP) by (destruct c; try done; injection H as <-; done).
  destruct E as [-> Hc]. destruct a as [d [x|x o|k]]; cbn in Er; try done. injection Er as <-. cbn in Esp. congruence.
Qed.

(** The instruction with its spilled operand replaced does not move the stack
    pointer. *)
Lemma track_spilled l X diff diff' pre pre' a rest reg v slot :
  track_sp X diff = Ok diff' -> args X = pre ++ a :: rest -> (length pre < 2)%nat -> plain_args l pre = Some pre' ->
  operand_of l a = Spilled reg v slot -> forall d,
  track_sp (with_args X (pre' ++ with_class a (spill_register (reg_alloc_params (vreg_type v))) :: rest)) d = Ok d.
Proof.
  intros Et Ea Hpre Hp Ho d. unfold track_sp in *. cbn [op args with_args]. destruct (decide (op X = SUB)); [| done].
  rewrite Ea in Et. destruct pre as [|a0 [|]]; [| | cbn in Hpre; lia]; cbn in Hp.
  - injection Hp as <-. cbn [app]. change (ref (?x :: _) 0) with (Ok x). cbn [mbind res_bind].
    destruct a as [dr [x|x o|k]]; cbn; try done. by destruct (vreg_type v).
  - destruct (operand_of l a0) as [b| |] eqn:Eb; try done. injection Hp as <-. cbn [app] in *.
    change (ref (b :: _) 0) with (Ok b). change (ref (a0 :: _) 0) with (Ok a0) in Et. cbn [mbind res_bind] in *.
    destruct (value_u b) as [r| |] eqn:Ev; try done. destruct (reg_u r) as [c|] eqn:Er; [| done].
    destruct c; try done. exfalso. rewrite (plain_not_sp _ _ _ _ Eb Ev Er) in Ev. rewrite Ev, Er in Et.
    change (ref (a0 :: a :: rest) 1) with (Ok a) in Et. cbn [mbind res_bind] in Et.
    unfold operand_of in Ho. unfold value_reg in Ho. destruct (value_u a); done.
Qed.

Lemma plain_app l as1 as2 bs1 bs2 : plain_args l as1 = Some bs1 -> plain_args l as2 = Some bs2 ->
  plain_args l (as1 ++ as2) = Some (bs1 ++ bs2).
Proof.
  revert bs1. induction as1 as [|a as1 IH]; intros bs1 H1 H2; cbn in *; [by injection H1 as <- |].
  destruct (operand_of l a) as [b| |]; try done. destruct (plain_args l as1) as [bs|]; [| done].
  injection H1 as <-. by rewrite (IH bs).
Qed.

Lemma spilled_with_class l a reg v slot c : operand_of l a = Spilled reg v slot ->
  operand_of l (with_class a c) = Plain (with_class a c).
Proof.
  intros H. destruct (value_reg a) as [r|] eqn:E; [by eapply operand_with_class |].
  unfold operand_of in H. by rewrite E in H.
Qed.

(** An instruction with one spilled operand takes three steps of the outer loop. *)
Lemma spill_steps l cap diff diff' fuel dn X tl pre pre' a rest rest' reg v slot location target source :
  track_sp X diff = Ok diff' -> args X = pre ++ a :: rest -> (length pre < 2)%nat -> plain_args l pre = Some pre' ->
  operand_of l a = Spilled reg v slot -> plain_args l rest = Some rest' ->
  let c := spill_register (reg_alloc_params (vreg_type v)) in
  asm_offset_reg REG_CLASS_SP 64 (asm_const_imm (u32 (slot + diff'))) = Ok location ->
  asm_phys_reg c (width reg) = Ok target -> asm_phys_reg c (back_width c reg (length pre)) = Ok source ->
  Z.of_nat (length dn + 3 + length tl) <= cap ->
  let xs := [mkAsmInstr (spill_op (vreg_type v) reg) [target; asm_deref location] [] None;
             with_args X (pre' ++ with_class a c :: rest');
             mkAsmInstr (spill_op (vreg_type v) reg) [asm_deref location; source] [] None] in
  loop (S (S (S fuel))) (rewrite_instr l cap) (dn ++ X :: tl, diff, length dn)
  = loop fuel (rewrite_instr l cap) ((dn ++ xs) ++ tl, diff', length (dn ++ xs)).
Proof.
  intros Et Ea Hpre Hp Ho Hr c El Etg Es Hcap xs.
  pose proof (rewrite_spill l cap diff diff' dn X tl pre pre' a rest reg v slot location target source
    Et Ea Hpre Hp Ho El Etg Es Hcap) as R1. fold c in R1.
  pose proof (track_spilled l X diff diff' pre pre' a rest reg v slot Et Ea Hpre Hp Ho diff') as T. fold c in T.
  set (X1 := with_args X (pre' ++ with_class a c :: rest)) in *.
  assert (P1 : plain_args l (args X1) = Some (pre' ++ with_class a c :: rest')).
  { apply plain_app; [by eapply plain_idem |]. cbn. by rewrite (spilled_with_class _ _ _ _ _ c Ho), Hr. }
  set (load := mkAsmInstr _ [target; _] _ _) in *. set (st := mkAsmInstr _ [_; source] _ _) in *.
  pose proof (rewrite_plain l cap diff' diff' (dn ++ [load]) X1 (st :: tl) _ T P1) as R2.
  assert (P2 : plain_args l (args st) = Some (args st)).
  { destruct (slot_operand l _ _ El) as [Hl _], (phys_operand l _ _ _ Es) as [Ht _]. by apply plain_two. }
  pose proof (rewrite_plain l cap diff' diff' (dn ++ [load] ++ [with_args X (pre' ++ with_class a c :: rest')]) st tl _
    (track_not_sub st diff' (spill_op_not_sub _ _)) P2) as R3.
  rewrite with_args_id in R3. cbn [loop]. rewrite R1.
  replace (dn ++ load :: X1 :: st :: tl) with ((dn ++ [load]) ++ X1 :: st :: tl) by (by rewrite <- app_assoc).
  replace (S (length dn)) with (length (dn ++ [load])) by (rewrite length_app; cbn; lia).
  rewrite R2. cbn [app] in R3.
  replace ((dn ++ [load]) ++ [with_args X1 (pre' ++ with_class a c :: rest')])
    with (dn ++ [load; with_args X (pre' ++ with_class a c :: rest')]) by (by rewrite <- app_assoc).
  rewrite R3.
  replace ((dn ++ [load; with_args X (pre' ++ with_class a c :: rest')]) ++ [st]) with (dn ++ xs)
    by (by rewrite <- app_assoc). done.
Qed.

Lemma expand_all_length l body : forall diff out, expand_all l diff body = Some out -> (length body <= length out)%nat.
Proof.
  induction body as [|X body IH]; intros diff out H; cbn in H; [by injection H as <- |].
  destruct (track_sp X diff) as [diff'|]; [| done]. destruct (expand l diff' X) as [xs|] eqn:Ex; [| done].
  destruct (expand_all l diff' body) as [ys|] eqn:Ey; [| done]. injection H as <-. rewrite length_app.
  specialize (IH _ _ Ey). cbn.
  assert (1 <= length xs)%nat; [| lia]. destruct (expand_cases _ _ _ _ Ex) as [(? & _ & ->) | H]; [cbn; lia |].
  destruct H as (? & ? & ? & ? & ? & ? & ? & ? & ? & ? & ? & _ & _ & _ & _ & _ & _ & _ & _ & ->). cbn. lia.
Qed.

Lemma rewrite_run l cap body : forall dn diff out fuel, expand_all l diff body = Some out ->
  Z.of_nat (length dn + length out) <= cap -> (length body + 2 * sum_list (length ∘ args <$> body) < fuel)%nat ->
  loop fuel (rewrite_instr l cap) (dn ++ body, diff, length dn) = Ok (dn ++ out).
Proof.
  induction body as [|X body IH]; intros dn diff out [|fuel] H Hcap Hf; try lia; cbn in H.
  - injection H as <-. cbn. rewrite app_nil_r, lookup_ge_None_2 by lia. done.
  - destruct (track_sp X diff) as [diff'|] eqn:Et; [| done]. destruct (expand l diff' X) as [xs|] eqn:Ex; [| done].
    destruct (expand_all l diff' body) as [ys|] eqn:Ey; [| done]. injection H as <-.
    rewrite length_app in Hcap. cbn in Hf. pose proof (expand_all_length _ _ _ _ Ey) as Hlen.
    destruct (expand_cases _ _ _ _ Ex) as [(as' & Hp & ->) | H].
    + cbn [loop]. rewrite (rewrite_plain l cap diff diff' dn X body as' Et Hp).
      rewrite (IH _ diff' ys) by (done || (rewrite ?length_app in *; cbn in *; lia)). by rewrite <- app_assoc.
    + destruct H as (pre & pre' & a & rest & rest' & reg & v & slot & loc & tgt & src & Ea & Hpre & Hp & Ho & Hr & El & Etg & Es & ->).
      assert (Hargs : (1 <= length (args X))%nat) by (rewrite Ea, length_app; cbn; lia).
      cbn [length] in Hcap. destruct fuel as [|[|fuel]]; [lia.. |].
      rewrite (spill_steps l cap diff diff' fuel dn X body pre pre' a rest rest' reg v slot loc tgt src) by (done || lia).
      rewrite (IH _ diff' ys) by (done || (rewrite ?length_app in *; cbn in *; lia)). by rewrite <- app_assoc.
Qed.

(** C18: rewriting is expansion. When no instruction has more than one spilled
    operand and the array has room, the in-place pass over the growing array
    returns exactly the reference expansion: every virtual register replaced by
    its machine register, every spilled operand by the spill register between a
    load and a store of its slot. *)
Theorem rewrite_registers_expands l capacity body out :
  expand_all l 0 body = Some out -> Z.of_nat (length out) <= capacity ->
  rewrite_registers l capacity body = Ok out.
Proof.
  intros H Hcap. unfold rewrite_registers.
  apply (rewrite_run l capacity body [] 0 out (rewrite_fuel body) H); [done | unfold rewrite_fuel; lia].
Qed.

Lemma rewrite_registers_expands_witness :
  let l := [mkVReg (ON_STACK 8) false REG_TYPE_INTEGER 0 2; mkVReg (IN_REG REG_CLASS_B) false REG_TYPE_INTEGER 0 2] in
  rewrite_registers l 8 [ex_instr ADD [ex_reg 1; ex_reg 0] None; ex_instr RET [] None]
  = Ok [ex_instr MOV [phys REG_CLASS_R12; sp_slot 8] None;
        ex_instr ADD [phys REG_CLASS_B; phys REG_CLASS_R12] None;
        ex_instr MOV [sp_slot 8; phys REG_CLASS_R12] None; ex_instr RET [] None].
Proof. apply rewrite_registers_expands; [reflexivity | vm_compute; congruence]. Defined.
