(* ===== verification/AsmGen.v ===== *)
(** * Instruction selection ([src/src/backend/asm_gen.h], [src/src/backend/asm_gen.c])

    From intermediate representation to instructions over virtual registers, and
    the frame of a function around the allocated body. [GenState] is the
    [AsmBuilder] together with the module it reads: the fields that the code
    writes into blocks, globals and call sequences ([label], [asm_symbol],
    [call_seq]) and into symbols ([ir_global]) are maps of the state. A value is
    selected by recursion along the operands of IR instructions; its fuel is the
    number of IR instructions. *)

From Stdlib Require Import SpecFloat.
From S2P Require Import Prelude Maths Asm RegAlloc Ir.
From stdpp Require Import pretty.

Local Open Scope Z_scope.

(** ** Data *)

Inductive ArgClass :=
| ARG_CLASS_REG (reg : RegClass) (vreg : option Z)   (* [vreg] is uninitialised at first *)
| ARG_CLASS_MEM (offset size : Z) (remains_in_memory : bool).

Record CallSeq := mkCallSeq { stack_space : Z; arg_classes : list ArgClass }.

(** What [current_block] points to. *)
Inductive BlockPtr := Body | Text.

(** [g_capacity] is the capacity of [body]. *)
Record GenState := mkGen {
  g_ir : IrModule;
  g_asm : AsmModule;
  g_function : nat;
  g_block : BlockPtr;
  g_body : list AsmInstr;
  g_capacity : Z;
  g_ret_label : nat;
  g_vregs : list VReg;
  g_stack_usage : Z;
  g_sp_diff : Z;
  g_floats : Z;
  g_labels : gmap nat nat;
  g_global_symbols : gmap nat nat;
  g_call_seqs : gmap nat CallSeq;
  g_owners : gmap nat nat
}.

Definition w_ir (g : GenState) x : GenState :=
  mkGen x (g_asm g) (g_function g) (g_block g) (g_body g) (g_capacity g) (g_ret_label g) (g_vregs g)
    (g_stack_usage g) (g_sp_diff g) (g_floats g) (g_labels g) (g_global_symbols g) (g_call_seqs g) (g_owners g).
Definition w_asm (g : GenState) x : GenState :=
  mkGen (g_ir g) x (g_function g) (g_block g) (g_body g) (g_capacity g) (g_ret_label g) (g_vregs g)
    (g_stack_usage g) (g_sp_diff g) (g_floats g) (g_labels g) (g_global_symbols g) (g_call_seqs g) (g_owners g).
Definition w_function (g : GenState) x : GenState :=
  mkGen (g_ir g) (g_asm g) x (g_block g) (g_body g) (g_capacity g) (g_ret_label g) (g_vregs g) (g_stack_usage
    g) (g_sp_diff g) (g_floats g) (g_labels g) (g_global_symbols g) (g_call_seqs g) (g_owners g).
Definition w_block (g : GenState) x : GenState :=
  mkGen (g_ir g) (g_asm g) (g_function g) x (g_body g) (g_capacity g) (g_ret_label g) (g_vregs g)
    (g_stack_usage g) (g_sp_diff g) (g_floats g) (g_labels g) (g_global_symbols g) (g_call_seqs g) (g_owners g).
Definition w_body (g : GenState) x : GenState :=
  mkGen (g_ir g) (g_asm g) (g_function g) (g_block g) x (g_capacity g) (g_ret_label g) (g_vregs g)
    (g_stack_usage g) (g_sp_diff g) (g_floats g) (g_labels g) (g_global_symbols g) (g_call_seqs g) (g_owners g).
Definition w_capacity (g : GenState) x : GenState :=
  mkGen (g_ir g) (g_asm g) (g_function g) (g_block g) (g_body g) x (g_ret_label g) (g_vregs g) (g_stack_usage
    g) (g_sp_diff g) (g_floats g) (g_labels g) (g_global_symbols g) (g_call_seqs g) (g_owners g).
Definition w_ret_label (g : GenState) x : GenState :=
  mkGen (g_ir g) (g_asm g) (g_function g) (g_block g) (g_body g) (g_capacity g) x (g_vregs g) (g_stack_usage
    g) (g_sp_diff g) (g_floats g) (g_labels g) (g_global_symbols g) (g_call_seqs g) (g_owners g).
Definition w_vregs (g : GenState) x : GenState :=
  mkGen (g_ir g) (g_asm g) (g_function g) (g_block g) (g_body g) (g_capacity g) (g_ret_label g) x
    (g_stack_usage g) (g_sp_diff g) (g_floats g) (g_labels g) (g_global_symbols g) (g_call_seqs g) (g_owners g).
Definition w_stack_usage (g : GenState) x : GenState :=
  mkGen (g_ir g) (g_asm g) (g_function g) (g_block g) (g_body g) (g_capacity g) (g_ret_label g) (g_vregs g) x
    (g_sp_diff g) (g_floats g) (g_labels g) (g_global_symbols g) (g_call_seqs g) (g_owners g).
Definition w_sp_diff (g : GenState) x : GenState :=
  mkGen (g_ir g) (g_asm g) (g_function g) (g_block g) (g_body g) (g_capacity g) (g_ret_label g) (g_vregs g)
    (g_stack_usage g) x (g_floats g) (g_labels g) (g_global_symbols g) (g_call_seqs g) (g_owners g).
Definition w_floats (g : GenState) x : GenState :=
  mkGen (g_ir g) (g_asm g) (g_function g) (g_block g) (g_body g) (g_capacity g) (g_ret_label g) (g_vregs g)
    (g_stack_usage g) (g_sp_diff g) x (g_labels g) (g_global_symbols g) (g_call_seqs g) (g_owners g).
Definition w_labels (g : GenState) x : GenState :=
  mkGen (g_ir g) (g_asm g) (g_function g) (g_block g) (g_body g) (g_capacity g) (g_ret_label g) (g_vregs g)
    (g_stack_usage g) (g_sp_diff g) (g_floats g) x (g_global_symbols g) (g_call_seqs g) (g_owners g).
Definition w_global_symbols (g : GenState) x : GenState :=
  mkGen (g_ir g) (g_asm g) (g_function g) (g_block g) (g_body g) (g_capacity g) (g_ret_label g) (g_vregs g)
    (g_stack_usage g) (g_sp_diff g) (g_floats g) (g_labels g) x (g_call_seqs g) (g_owners g).
Definition w_call_seqs (g : GenState) x : GenState :=
  mkGen (g_ir g) (g_asm g) (g_function g) (g_block g) (g_body g) (g_capacity g) (g_ret_label g) (g_vregs g)
    (g_stack_usage g) (g_sp_diff g) (g_floats g) (g_labels g) (g_global_symbols g) x (g_owners g).
Definition w_owners (g : GenState) x : GenState :=
  mkGen (g_ir g) (g_asm g) (g_function g) (g_block g) (g_body g) (g_capacity g) (g_ret_label g) (g_vregs g)
    (g_stack_usage g) (g_sp_diff g) (g_floats g) (g_labels g) (g_global_symbols g) (g_call_seqs g) x.

Abbreviation gen := (st GenState).

(** A loop over the elements of an array. *)
Fixpoint foldS {B A : Type} (f : B -> A -> gen B) (b : B) (l : list A) : gen B :=
  match l with
  | [] => mret b
  | a :: l => b ← f b a; foldS f b l
  end.
Definition each {A : Type} (f : A -> gen unit) (l : list A) : gen unit := foldS (fun _ => f) tt l.

Definition load_instr (i : nat) : gen IrInstr := g ← get; lift (of_opt (instrs (g_ir g) !! i)).
Definition load_global (i : nat) : gen IrGlobal := g ← get; lift (of_opt (globals (g_ir g) !! i)).
Definition load_block (i : nat) : gen IrBlock := g ← get; lift (of_opt (blocks (g_ir g) !! i)).

(** [instr->vreg_number = n] and [instr->u.local.stack_offset = n] *)
Definition set_vreg_number (i : nat) (n : Z) : gen unit :=
  modify (fun g => w_ir g (set_instrs (g_ir g) (alter (fun x =>
    mkInstr (instr_id x) (instr_type x) (instr_op x) (i32 n) (instr_u x)) i (instrs (g_ir g))))).
Definition set_stack_offset (i : nat) (n : Z) : gen unit :=
  modify (fun g => w_ir g (set_instrs (g_ir g) (alter (fun x =>
    mkInstr (instr_id x) (instr_type x) (instr_op x) (vreg_number x)
      (match instr_u x with U_local t _ => U_local t n | u => u end)) i (instrs (g_ir g))))).

(** The members of an instruction's union; [cmp] and [binary_op] begin with the
    same two values. *)
Definition get_arg (x : IrInstr) : res IrValue :=
  match instr_u x with U_arg a => Ok a | _ => Stop Undef end.
Definition get_args (x : IrInstr) : res (IrValue * IrValue) :=
  match instr_u x with U_binary_op a b | U_cmp a b _ => Ok (a, b) | _ => Stop Undef end.
Definition get_cmp (x : IrInstr) : res (IrValue * IrValue * IrCmp) :=
  match instr_u x with U_cmp a b c => Ok (a, b, c) | _ => Stop Undef end.
Definition get_field (x : IrInstr) : res (IrValue * IrType * Z) :=
  match instr_u x with U_field p t n => Ok (p, t, n) | _ => Stop Undef end.
Definition get_load (x : IrInstr) : res (IrValue * IrType) :=
  match instr_u x with U_load p t => Ok (p, t) | _ => Stop Undef end.
Definition get_call (x : IrInstr) : res (IrValue * list IrValue * IrType) :=
  match instr_u x with U_call c l t => Ok (c, l, t) | _ => Stop Undef end.
Definition get_cond (x : IrInstr) : res (IrValue * nat * nat) :=
  match instr_u x with U_cond c t e => Ok (c, t, e) | _ => Stop Undef end.
Definition get_target (x : IrInstr) : res nat :=
  match instr_u x with U_target_block b => Ok b | _ => Stop Undef end.
Definition get_local (x : IrInstr) : res (IrType * Z) :=
  match instr_u x with U_local t o => Ok (t, o) | _ => Stop Undef end.
Definition get_phi (x : IrInstr) : res (list (option IrPhiParam)) :=
  match instr_u x with U_phi l => Ok l | _ => Stop Undef end.

Definition bit_width_of (t : IrType) : res Z := match t with IR_INT w => Ok w | _ => Stop Undef end.
Definition float_bits_of (t : IrType) : res Z := match t with IR_FLOAT w => Ok w | _ => Stop Undef end.
Definition return_type_of (t : IrType) : res IrType :=
  match t with IR_FUNCTION r _ _ => Ok r | _ => Stop Undef end.
Definition arg_types_of (t : IrType) : res (list IrType) :=
  match t with IR_FUNCTION _ _ l => Ok l | _ => Stop Undef end.
Definition variable_arity_of (t : IrType) : res bool :=
  match t with IR_FUNCTION _ v _ => Ok v | _ => Stop Undef end.
Definition is_int (t : IrType) : bool := match t with IR_INT _ => true | _ => false end.
Definition is_float (t : IrType) : bool := match t with IR_FLOAT _ => true | _ => false end.
Definition is_pointer (t : IrType) : bool := match t with IR_POINTER => true | _ => false end.
Definition is_function (t : IrType) : bool := match t with IR_FUNCTION _ _ _ => true | _ => false end.
Definition is_void (t : IrType) : bool := match t with IR_VOID => true | _ => false end.

(** The union of a value that is known to be a register, and [v.u.reg.width = w]. *)
Definition as_register (v : AsmValue) : option Register :=
  match value_u v with ASM_VALUE_REGISTER r => Some r | _ => None end.
Definition is_const (v : AsmValue) : bool :=
  match value_u v with ASM_VALUE_CONST _ => true | _ => false end.
Definition with_width (v : AsmValue) (w : Z) : AsmValue :=
  match value_u v with
  | ASM_VALUE_REGISTER r =>
      mkAsmValue (is_deref v) (ASM_VALUE_REGISTER (mkRegister (u8 w) (value_width r) (reg_u r)))
  | _ => v
  end.
Definition offset_value (reg : Register) (offset : AsmConst) : AsmValue :=
  mkAsmValue false (ASM_VALUE_OFFSET_REGISTER reg offset).

(** [size_of_ir_type(type) * 8] as a [u32]. *)
Definition type_bits (t : IrType) : res Z := s ← size_of_ir_type t; Ok (u32 (s * 8)).

Definition int_argument_registers : list RegClass :=
  [REG_CLASS_DI; REG_CLASS_SI; REG_CLASS_D; REG_CLASS_C; REG_CLASS_R8; REG_CLASS_R9].
Definition float_argument_registers : list RegClass :=
  [REG_CLASS_XMM0; REG_CLASS_XMM1; REG_CLASS_XMM2; REG_CLASS_XMM3;
   REG_CLASS_XMM4; REG_CLASS_XMM5; REG_CLASS_XMM6; REG_CLASS_XMM7].
Definition REGISTER_SAVE_AREA_SIZE : Z :=
  Z.of_nat (length int_argument_registers) * 8 + Z.of_nat (length float_argument_registers) * 16.

(** ** Symbols and instructions *)

(** [virtual_registers] and the current function are set when a function is
    generated. *)
Definition init_asm_builder (m : IrModule) (input_file_name : string) : GenState :=
  mkGen m (init_asm_module input_file_name) 0 Text [] 0 0 [] 0 0 0 ∅ ∅ ∅ ∅.

Definition add_asm_symbol : gen nat :=
  g ← get;
  let symbol := mkAsmSymbol "" UNKNOWN_SECTION false ASM_GLOBAL_LINKAGE 0 0 0 in
  put (w_asm g (set_symbols (g_asm g) (symbols (g_asm g) ++ [symbol])));;
  mret (length (symbols (g_asm g))).

Definition update_symbol (i : nat) (f : AsmSymbol -> AsmSymbol) : gen unit :=
  modify (fun g => w_asm g (set_symbols (g_asm g) (alter f i (symbols (g_asm g))))).
Definition load_symbol (i : nat) : gen AsmSymbol := g ← get; lift (of_opt (symbols (g_asm g) !! i)).

(** [symbol->offset = x] and [symbol->size = x] *)
Definition set_offset (x : Z) (s : AsmSymbol) : AsmSymbol :=
  mkAsmSymbol (sym_name s) (sym_section s) (defined s) (sym_linkage s) (symtab_index s) x (sym_size s).
Definition set_size (x : Z) (s : AsmSymbol) : AsmSymbol :=
  mkAsmSymbol (sym_name s) (sym_section s) (defined s) (sym_linkage s) (symtab_index s) (sym_offset s) x.
Definition set_defined (x : bool) (s : AsmSymbol) : AsmSymbol :=
  mkAsmSymbol (sym_name s) (sym_section s) x (sym_linkage s) (symtab_index s) (sym_offset s) (sym_size s).

Definition add_label (name : string) : gen nat :=
  symbol ← add_asm_symbol;
  update_symbol symbol (fun _ => mkAsmSymbol name TEXT_SECTION true ASM_LOCAL_LINKAGE 0 0 0);;
  mret symbol.

(** The array behind [current_block]. *)
Definition current_block (g : GenState) : list AsmInstr :=
  match g_block g with Body => g_body g | Text => text_instrs (g_asm g) end.
Definition w_current_block (g : GenState) (l : list AsmInstr) : GenState :=
  match g_block g with Body => w_body g l | Text => w_asm g (Asm.set_instrs (g_asm g) l) end.

(** [ARRAY_APPEND] doubles a full array. *)
Definition grown (g : GenState) : GenState :=
  match g_block g with
  | Body => if g_capacity g <? Z.of_nat (length (g_body g)) + 1 then w_capacity g (2 * g_capacity g) else g
  | Text => g
  end.

(** The pointer returned is an index in the current block. *)
Definition emit_instr (o : AsmOp) (l : list AsmValue) : gen nat :=
  g ← get;
  let g := grown g in
  put (w_current_block g (current_block g ++ [mkAsmInstr o l [] None]));;
  mret (length (current_block g)).
Definition emit_instr0 (o : AsmOp) : gen nat := emit_instr o [].
Definition emit_instr1 (o : AsmOp) (arg1 : AsmValue) : gen nat := emit_instr o [arg1].
Definition emit_instr2 (o : AsmOp) (arg1 arg2 : AsmValue) : gen nat := emit_instr o [arg1; arg2].
Definition emit_instr3 (o : AsmOp) (arg1 arg2 arg3 : AsmValue) : gen nat := emit_instr o [arg1; arg2; arg3].

Definition update_instr (i : nat) (f : AsmInstr -> AsmInstr) : gen unit :=
  g ← get;
  match current_block g !! i with
  | Some x => put (w_current_block g (<[i := f x]> (current_block g)))
  | None => lift (Stop Undef)
  end.
(** [instr->label = s] *)
Definition set_label (i : nat) (s : nat) : gen unit :=
  update_instr i (fun x => mkAsmInstr (op x) (args x) (vreg_deps x) (Some s)).

Definition add_dep (instr : nat) (dep : AsmValue) : gen unit :=
  g ← get;
  x ← lift (of_opt (current_block g !! instr));
  lift (PRECONDITION (Z.of_nat (length (vreg_deps x)) <? 2));;
  match as_register dep with
  | Some (mkRegister _ _ (V_REG n)) =>
      update_instr instr (fun x => mkAsmInstr (op x) (args x) (vreg_deps x ++ [n]) (label x))
  | _ => lift ICE
  end.

(** An instruction with two dependencies. *)
Definition emit_with_deps (o : AsmOp) (l : list AsmValue) (dep1 dep2 : AsmValue) : gen unit :=
  instr ← emit_instr o l;
  add_dep instr dep1;;
  add_dep instr dep2.

(** ** Virtual registers *)

Definition load_vreg (n : Z) : gen VReg := g ← get; lift (ref (g_vregs g) n).
Definition update_vreg (n : Z) (f : VReg -> VReg) : gen unit :=
  v ← load_vreg n;
  modify (fun g => w_vregs g (<[Z.to_nat n := f v]> (g_vregs g))).

Definition append_vreg (t : RegType) : gen Z :=
  g ← get;
  put (w_vregs g (g_vregs g ++ [mkVReg UNASSIGNED false t (-1) (-1)]));;
  mret (u32 (Z.of_nat (length (g_vregs g)))).
Definition new_vreg : gen Z := append_vreg REG_TYPE_INTEGER.
Definition new_float_vreg : gen Z := append_vreg REG_TYPE_FLOAT.

Definition assign_vreg (instr : nat) (vreg : AsmValue) : gen AsmValue :=
  match as_register vreg with
  | Some (mkRegister _ _ (V_REG n)) => set_vreg_number instr n;; mret vreg
  | _ => lift ICE
  end.

(** [asm_vreg(new_vreg(builder), width)] and its float version. *)
Definition new_asm_vreg (width : Z) : gen AsmValue := n ← new_vreg; lift (asm_vreg n (u8 width)).
Definition new_asm_float_vreg (width : Z) : gen AsmValue := n ← new_float_vreg; lift (asm_float_vreg n (u8 width)).

(** A fresh register that holds the value of an instruction. *)
Definition assign_new_vreg (instr : nat) (width : Z) : gen AsmValue :=
  vreg ← new_asm_vreg width;
  assign_vreg instr vreg.

Definition pre_alloced_vreg (class : RegClass) (width : Z) : gen AsmValue :=
  let reg_type := if reg_class_is_gpr class then REG_TYPE_INTEGER else REG_TYPE_FLOAT in
  vreg_number ← append_vreg reg_type;
  g ← get;
  update_vreg (Z.of_nat (length (g_vregs g)) - 1) (fun v =>
    mkVReg (IN_REG class) true (vreg_type v) (live_range_start v) (live_range_end v));;
  match reg_type with
  | REG_TYPE_INTEGER => lift (asm_vreg vreg_number (u8 width))
  | REG_TYPE_FLOAT => lift (asm_float_vreg vreg_number (u8 width))
  end.

Definition asm_vreg_of_type (vreg_number : Z) (type : IrType) : res AsmValue :=
  match type with
  | IR_FLOAT float_bits => asm_float_vreg vreg_number (u8 float_bits)
  | IR_INT _ | IR_POINTER => b ← type_bits type; asm_vreg vreg_number (u8 b)
  | _ => ICE
  end.

Definition new_asm_vreg_of_type (type : IrType) : gen AsmValue :=
  vreg_number ← (if is_float type then new_float_vreg else new_vreg);
  lift (asm_vreg_of_type vreg_number type).

Definition return_reg_for_type (type : IrType) : gen AsmValue :=
  lift (PRECONDITION (is_int type || is_float type || is_pointer type));;
  b ← lift (type_bits type);
  pre_alloced_vreg (if is_float type then REG_CLASS_XMM0 else REG_CLASS_A) b.

Definition asm_value_is_float (v : AsmValue) : gen bool :=
  if is_deref v then mret false
  else
    match as_register v with
    | None => mret false
    | Some r =>
        match reg_u r with
        | PHYS_REG _ => mret (width r =? 128)
        | V_REG n => vreg ← load_vreg n; mret (bool_decide (vreg_type vreg = REG_TYPE_FLOAT))
        end
    end.

Definition same_width (dest src : AsmValue) : bool :=
  match as_register dest, as_register src with
  | Some d, Some s => is_deref dest || is_deref src || (width d =? width s)
  | _, _ => true
  end.

Definition emit_mov (dest src : AsmValue) : gen nat :=
  lift (PRECONDITION (negb (is_const dest)));;
  lift (PRECONDITION (same_width dest src));;
  dest_is_float ← asm_value_is_float dest;
  src_is_float ← asm_value_is_float src;
  if (dest_is_float : bool) || (src_is_float : bool) then
    r ← lift (of_opt (as_register (if dest_is_float then dest else src)));
    if value_width r =? 32 then emit_instr2 MOVSS dest src
    else if value_width r =? 64 then emit_instr2 MOVSD dest src
    else lift UNIMPLEMENTED
  else emit_instr2 MOV dest src.

(** ** Constants in the data section *)

(** The bits of an IEEE number in canonical form, with [mw] stored bits of the
    significand and [ew] of the exponent. [SpecFloat] has one NaN, the quiet one. *)
Definition raw_bits (mw ew : Z) (f : double) : Z :=
  let sign (s : bool) := if s then 2 ^ (mw + ew) else 0 in
  match f with
  | S754_zero s => sign s
  | S754_infinity s => sign s + (2 ^ ew - 1) * 2 ^ mw
  | S754_nan => (2 ^ ew - 1) * 2 ^ mw + 2 ^ (mw - 1)
  | S754_finite s m e =>
      if Zpos m <? 2 ^ mw then sign s + Zpos m
      else sign s + (e + mw + (2 ^ (ew - 1) - 1)) * 2 ^ mw + (Zpos m - 2 ^ mw)
  end.
Definition float_to_raw_bits (f : double) : Z := raw_bits 23 8 f.
Definition double_to_raw_bits (f : double) : Z := raw_bits 52 11 f.

(** [(float)f] *)
Definition float_of_double (f : double) : double :=
  match f with S754_finite s m e => binary_round 24 128 s m e | _ => f end.

Definition out_bytes (l : list Z) : gen unit :=
  modify (fun g => let m := g_asm g in
    w_asm g (mkAsmModule (input_file_name m) (text_instrs m) (text_bytes m) (asm_data m ++ l) (bss_size m)
               (symbols m) (fixups m))).
Definition add_fixup (f : Fixup) : gen unit :=
  modify (fun g => w_asm g (set_fixups (g_asm g) (fixups (g_asm g) ++ [f]))).
Definition data_size (g : GenState) : Z := Z.of_nat (length (asm_data (g_asm g))).

Definition write_int_bytes (bytes size : Z) : gen unit :=
  if size <=? 8 then out_bytes (le_bytes bytes (Z.to_nat size)) else lift (Stop Undef).

(** [value.u.global->asm_symbol] *)
Definition symbol_of_global (global : nat) : gen nat :=
  g ← get; lift (of_opt (g_global_symbols g !! global)).

Definition load_const_array (elems : nat) (i : nat) : gen IrConst :=
  g ← get;
  l ← lift (of_opt (const_arrays (g_ir g) !! elems));
  c ← lift (of_opt (l !! i));
  lift (of_opt c).

Definition load_fields (type : IrType) : gen (list (option IrStructField)) :=
  match type with
  | IR_STRUCT _ fields _ _ _ => g ← get; lift (of_opt (struct_fields (g_ir g) !! fields))
  | _ => lift (Stop Undef)
  end.

(** [out] is always [asm_module->data]. The fuel bounds the nesting of arrays and
    structs. *)
Fixpoint write_const (fuel : nat) (konst : IrConst) : gen unit :=
  match fuel with
  | O => lift (Stop NoFuel)
  | S n =>
      match const_type konst with
      | IR_INT _ =>
          size ← lift (size_of_ir_type (const_type konst));
          match const_u konst with
          | K_integer x => write_int_bytes x size
          | _ => lift (Stop Undef)
          end
      | IR_FLOAT float_bits =>
          match const_u konst with
          | K_floatt f =>
              if float_bits =? 32 then write_int_bytes (float_to_raw_bits (float_of_double f)) 4
              else if float_bits =? 64 then write_int_bytes (double_to_raw_bits f) 8
              else lift UNIMPLEMENTED
          | _ => lift (Stop Undef)
          end
      | IR_POINTER =>
          match const_u konst with
          | K_global_pointer global =>
              match global with
              | Some global =>
                  g ← get;
                  symbol ← symbol_of_global global;
                  add_fixup (mkFixup FIXUP_ABSOLUTE DATA_SECTION (data_size g) 0 8 symbol)
              | None => mret tt
              end;;
              out_bytes (replicate 8 0)
          | _ => lift (Stop Undef)
          end
      | IR_ARRAY _ size =>
          match const_u konst with
          | K_array_elems elems =>
              each (fun i => c ← load_const_array elems i; write_const n c) (seq 0 (Z.to_nat size))
          | _ => lift (Stop Undef)
          end
      | IR_STRUCT _ _ _ num_fields _ =>
          match const_u konst with
          | K_struct_fields fields =>
              foldS (fun prev_offset i =>
                l ← load_fields (const_type konst);
                field ← lift (of_opt (mjoin (l !! i)));
                field_size ← lift (size_of_ir_type (field_type field));
                out_bytes (replicate (Z.to_nat (field_offset field - prev_offset)) 0);;
                c ← load_const_array fields i;
                write_const n c;;
                mret (u32 (field_offset field + field_size))) 0 (seq 0 (Z.to_nat num_fields));;
              mret tt
          | _ => lift (Stop Undef)
          end
      | IR_FUNCTION _ _ _ | IR_VOID => lift UNREACHABLE
      end
  end.

Definition const_fuel (m : IrModule) : nat := S (length (const_arrays m)).

(** Does [f] hold of the elements 0, 1, ... up to the first that fails? *)
Fixpoint all_elems (f : IrConst -> res bool) (l : list (option IrConst)) (n : nat) : res bool :=
  match n, l with
  | O, _ => Ok true
  | S n, Some c :: l => b ← f c; if (b : bool) then all_elems f l n else Ok false
  | S n, _ => Stop Undef
  end.

(** [SFeqb]: negative zero equals zero. *)
Fixpoint is_zero (m : IrModule) (fuel : nat) (konst : IrConst) : res bool :=
  match fuel with
  | O => Stop NoFuel
  | S n =>
      match const_type konst, const_u konst with
      | IR_INT _, K_integer x => Ok (x =? 0)
      | IR_FLOAT _, K_floatt f => Ok (SFeqb f (S754_zero false))
      | IR_POINTER, _ => Ok false
      | IR_ARRAY _ size, K_array_elems elems =>
          if size =? 0 then Ok true
          else l ← of_opt (const_arrays m !! elems); all_elems (is_zero m n) l (Z.to_nat size)
      | IR_STRUCT _ _ _ num_fields _, K_struct_fields fields =>
          if num_fields =? 0 then Ok true
          else l ← of_opt (const_arrays m !! fields); all_elems (is_zero m n) l (Z.to_nat num_fields)
      | IR_FUNCTION _ _ _, _ | IR_VOID, _ => UNREACHABLE
      | _, _ => Stop Undef
      end
  end.

Definition asm_const_float (bit_width : Z) (value : double) : gen AsmValue :=
  g ← get;
  let name := "__f" +:+ pretty (i32 (g_floats g)) in
  modify (fun g => w_floats g (u32 (g_floats g + 1)));;
  symbol ← add_asm_symbol;
  g ← get;
  update_symbol symbol (fun _ =>
    mkAsmSymbol name DATA_SECTION true ASM_LOCAL_LINKAGE 0 (data_size g) (bit_width / 8));;
  write_const 1 (mkConst (IR_FLOAT bit_width) (K_floatt value));;
  rip_relative_addr ← lift (asm_offset_reg REG_CLASS_IP 64 (asm_const_symbol symbol));
  vreg ← new_asm_float_vreg bit_width;
  emit_mov vreg (asm_deref rip_relative_addr);;
  mret vreg.

(** ** Comparisons *)

Definition flip_cmp (cmp : IrCmp) : IrCmp :=
  match cmp with
  | CMP_SGT => CMP_SLT | CMP_SLT => CMP_SGT | CMP_SGTE => CMP_SLTE | CMP_SLTE => CMP_SGTE
  | CMP_UGT => CMP_ULT | CMP_ULT => CMP_UGT | CMP_UGTE => CMP_ULTE | CMP_ULTE => CMP_UGTE
  | CMP_EQ => CMP_EQ | CMP_NEQ => CMP_NEQ
  end.
Definition is_const_int (v : IrValue) : bool :=
  match val_u v with IR_VALUE_CONST_INT _ => true | _ => false end.
(** The comparison and the two arguments, swapped when the first is constant. *)
Definition maybe_flip_conditional (cmp : IrCmp) (arg1 arg2 : IrValue) : IrCmp * IrValue * IrValue :=
  if is_const_int arg1 then (flip_cmp cmp, arg2, arg1) else (cmp, arg1, arg2).

Definition invert_cmp (cmp : IrCmp) : IrCmp :=
  match cmp with
  | CMP_EQ => CMP_NEQ | CMP_NEQ => CMP_EQ
  | CMP_SGT => CMP_SLTE | CMP_SGTE => CMP_SLT | CMP_SLT => CMP_SGTE | CMP_SLTE => CMP_SGT
  | CMP_UGT => CMP_ULTE | CMP_UGTE => CMP_ULT | CMP_ULT => CMP_UGTE | CMP_ULTE => CMP_UGT
  end.

(** Is the instruction a comparison of another with 0 or 1? *)
Definition is_eq_or_neq (cmp : IrCmp) : bool := match cmp with CMP_EQ | CMP_NEQ => true | _ => false end.

(** The comparison at the end of a chain of comparisons with 0 and 1, and whether
    it is negated along the way. *)
Fixpoint get_inner_cmp (m : IrModule) (fuel : nat) (instr : nat) : res (bool * nat) :=
  match fuel with
  | O => Stop NoFuel
  | S n =>
      x ← of_opt (instrs m !! instr);
      if negb (bool_decide (instr_op x = OP_CMP)) then Ok (false, instr)
      else
        '(arg1, arg2, cmp) ← get_cmp x;
        if negb (is_eq_or_neq cmp) then Ok (false, instr)
        else
          let step (c : Z) (non_const_arg : IrValue) : res (bool * nat) :=
            match val_u non_const_arg with
            | IR_VALUE_INSTR inner =>
                if negb (c =? 0) && negb (c =? 1) then Ok (false, instr)
                else
                  y ← of_opt (instrs m !! inner);
                  if negb (bool_decide (instr_op y = OP_CMP)) then Ok (false, instr)
                  else
                    '(invert, out) ← get_inner_cmp m n inner;
                    Ok (if bool_decide (cmp = CMP_EQ) && (c =? 0) || bool_decide (cmp = CMP_NEQ) && (c =? 1)
                        then negb invert else invert, out)
            | _ => Ok (false, instr)
            end in
          match val_u arg1, val_u arg2 with
          | IR_VALUE_CONST_INT _, IR_VALUE_CONST_INT _ => ICE
          | IR_VALUE_CONST_INT c, _ => step c arg2
          | _, IR_VALUE_CONST_INT c => step c arg1
          | _, _ => Ok (false, instr)
          end
  end.

Definition value_fuel (m : IrModule) : nat := S (length (instrs m)).

Definition inner_cmp (instr : nat) : gen (bool * nat) :=
  g ← get; lift (get_inner_cmp (g_ir g) (value_fuel (g_ir g)) instr).

Definition set_op (cmp : IrCmp) : AsmOp :=
  match cmp with
  | CMP_EQ => SETE | CMP_NEQ => SETNE | CMP_SGT => SETG | CMP_SGTE => SETGE | CMP_SLT => SETL
  | CMP_SLTE => SETLE | CMP_UGT => SETA | CMP_UGTE => SETAE | CMP_ULT => SETB | CMP_ULTE => SETBE
  end.
Definition jump_op (cmp : IrCmp) : AsmOp :=
  match cmp with
  | CMP_EQ => JE | CMP_NEQ => JNE | CMP_SGT => JG | CMP_SGTE => JGE | CMP_SLT => JL
  | CMP_SLTE => JLE | CMP_UGT => JA | CMP_UGTE => JAE | CMP_ULT => JB | CMP_ULTE => JBE
  end.

(** The instruction that compares, by the type of the first argument of the IR. *)
Definition compare_op (o : IrOp) (arg1 : IrValue) : res AsmOp :=
  match o with
  | OP_CMP => Ok CMP
  | OP_CMPF => b ← float_bits_of (val_type arg1); Ok (if b =? 32 then UCOMISS else UCOMISD)
  | _ => UNREACHABLE
  end.

(** ** Values *)

Definition maybe_move_const_to_reg (v : AsmValue) (other_operand_width : Z) (sext : bool) : gen AsmValue :=
  match value_u v with
  | ASM_VALUE_CONST (ASM_CONST_IMMEDIATE c) =>
      if (if sext then i32 c =? i64 c else u32 c =? c) then mret v
      else
        const_spill ← new_asm_vreg 64;
        emit_mov const_spill v;;
        mret (with_width const_spill other_operand_width)
  | _ => mret v
  end.

(** The offset of [OP_FIELD]. *)
Definition offset_of_field (type : IrType) (field_num : Z) : gen Z :=
  match type with
  | IR_STRUCT _ _ _ _ _ =>
      l ← load_fields type;
      field ← lift (ref l field_num);
      field ← lift (of_opt field);
      mret (field_offset field)
  | IR_ARRAY elem_type _ => s ← lift (size_of_ir_type elem_type); mret (u32 (s * field_num))
  | _ => lift UNREACHABLE
  end.

(** [builder->current_function->call_seq.arg_classes[index]] *)
Definition arg_class_of (function : nat) (index : Z) : gen ArgClass :=
  g ← get;
  c ← lift (of_opt (g_call_seqs g !! function));
  lift (ref (arg_classes c) index).

Definition asm_value_arg (index : Z) (type : IrType) : gen AsmValue :=
  g ← get;
  arg_class ← arg_class_of (g_function g) index;
  match arg_class with
  | ARG_CLASS_REG _ vreg => n ← lift (of_opt vreg); lift (asm_vreg_of_type n type)
  | ARG_CLASS_MEM offset _ remains_in_memory =>
      let bp_offset := asm_const_imm (u32 (offset + 16)) in
      vreg ← new_vreg;
      vreg64 ← lift (asm_vreg vreg 64);
      if remains_in_memory : bool then
        bp ← lift (asm_phys_reg REG_CLASS_BP 64);
        emit_mov vreg64 bp;;
        emit_instr2 ADD vreg64 (mkAsmValue false (ASM_VALUE_CONST bp_offset));;
        mret vreg64
      else
        location ← lift (asm_offset_reg REG_CLASS_BP 64 bp_offset);
        emit_mov vreg64 (asm_deref location);;
        b ← lift (type_bits type);
        lift (asm_vreg vreg (u8 b))
  end.

Section Values.
(** The recursive calls of [asm_value]. *)
Context (asm_value : IrValue -> gen AsmValue).

Definition asm_gen_relational_instr (instr : nat) : gen AsmValue :=
  x ← load_instr instr;
  lift (PRECONDITION (bool_decide (instr_op x = OP_CMP) || bool_decide (instr_op x = OP_CMPF)));;
  '(invert, instr) ← inner_cmp instr;
  x ← load_instr instr;
  '(first, second, cmp) ← lift (get_cmp x);
  let '(cmp, arg1, arg2) := maybe_flip_conditional cmp first second in
  let cmp := if invert : bool then invert_cmp cmp else cmp in
  asm_arg1 ← asm_value arg1;
  asm_arg2 ← asm_value arg2;
  vreg ← new_vreg;
  r ← lift (match as_register asm_arg1 with Some r => Ok r | None => ICE end);
  vreg32 ← lift (asm_vreg vreg 32);
  emit_instr2 XOR vreg32 vreg32;;
  cmp_op ← lift (compare_op (instr_op x) first);
  asm_arg2 ← maybe_move_const_to_reg asm_arg2 (width r) true;
  emit_instr2 cmp_op asm_arg1 asm_arg2;;
  vreg8 ← lift (asm_vreg vreg 8);
  emit_instr1 (set_op cmp) vreg8;;
  mret vreg32.

Definition asm_value_local (instr : IrInstr) : gen AsmValue :=
  '(_, stack_offset) ← lift (get_local instr);
  vreg ← new_asm_vreg 64;
  sp ← lift (asm_phys_reg REG_CLASS_SP 64);
  emit_mov vreg sp;;
  g ← get;
  emit_instr2 ADD vreg (asm_imm (u32 (stack_offset + g_sp_diff g)));;
  mret vreg.

Definition asm_value_field (i : nat) (instr : IrInstr) : gen AsmValue :=
  '(ptr, type, field_num) ← lift (get_field instr);
  lift (PRECONDITION (is_pointer (val_type ptr)));;
  temp_vreg ← new_asm_vreg 64;
  assign_vreg i temp_vreg;;
  offset ← offset_of_field type field_num;
  p ← asm_value ptr;
  emit_mov temp_vreg p;;
  emit_instr2 ADD temp_vreg (asm_imm offset);;
  mret temp_vreg.

Definition asm_value_cast (instr : IrInstr) : gen AsmValue :=
  arg ← lift (get_arg instr);
  cast_value ← asm_value arg;
  match as_register cast_value with
  | Some _ => b ← lift (type_bits (instr_type instr)); mret (with_width cast_value b)
  | None => mret cast_value
  end.

Definition asm_value_body (value : IrValue) : gen AsmValue :=
  match val_u value with
  | IR_VALUE_CONST_FLOAT f => b ← lift (float_bits_of (val_type value)); asm_const_float (u8 b) f
  | IR_VALUE_CONST_INT x => mret (asm_imm x)
  | IR_VALUE_INSTR i =>
      instr ← load_instr i;
      match instr_op instr with
      | OP_LOCAL => asm_value_local instr
      | OP_FIELD => asm_value_field i instr
      | OP_CMP | OP_CMPF => asm_gen_relational_instr i
      | OP_CAST => asm_value_cast instr
      | _ =>
          lift (PRECONDITION (negb (vreg_number instr =? -1)));;
          lift (asm_vreg_of_type (u32 (vreg_number instr)) (instr_type instr))
      end
  | IR_VALUE_ARG index => asm_value_arg index (val_type value)
  | IR_VALUE_GLOBAL global =>
      g ← get;
      match g_global_symbols g !! global with
      | Some symbol => mret (asm_symbol symbol)
      | None => lift ICE
      end
  end.

End Values.

Fixpoint asm_value_at (fuel : nat) (value : IrValue) : gen AsmValue :=
  match fuel with
  | O => lift (Stop NoFuel)
  | S n => asm_value_body (asm_value_at n) value
  end.

Definition asm_value (value : IrValue) : gen AsmValue :=
  g ← get; asm_value_at (value_fuel (g_ir g)) value.

(** ** Pointers *)

(** [inner], moved by a field's offset. *)
Definition add_field_offset (i : nat) (inner : AsmValue) (offset : Z) : gen AsmValue :=
  if offset =? 0 then mret inner
  else
    match value_u inner with
    | ASM_VALUE_REGISTER r => mret (offset_value r (asm_const_imm offset))
    | ASM_VALUE_OFFSET_REGISTER r (ASM_CONST_IMMEDIATE imm) =>
        mret (offset_value r (asm_const_imm (u64 (imm + offset))))
    | ASM_VALUE_OFFSET_REGISTER _ (ASM_CONST_SYMBOL symbol) =>
        temp_vreg ← new_asm_vreg 64;
        assign_vreg i temp_vreg;;
        emit_mov temp_vreg (asm_symbol symbol);;
        r ← lift (of_opt (as_register temp_vreg));
        mret (offset_value r (asm_const_imm offset))
    | _ => lift UNREACHABLE
    end.

Fixpoint asm_gen_pointer_at (fuel : nat) (pointer : IrValue) : gen AsmValue :=
  match fuel with
  | O => lift (Stop NoFuel)
  | S n =>
      match val_u pointer with
      | IR_VALUE_INSTR i =>
          instr ← load_instr i;
          match instr_op instr with
          | OP_LOCAL =>
              '(_, stack_offset) ← lift (get_local instr);
              g ← get;
              lift (asm_offset_reg REG_CLASS_SP 64 (asm_const_imm (u32 (stack_offset + g_sp_diff g))))
          | OP_FIELD =>
              '(ptr, type, field_num) ← lift (get_field instr);
              inner ← asm_gen_pointer_at n ptr;
              offset ← offset_of_field type field_num;
              add_field_offset i inner offset
          | _ => asm_value pointer
          end
      | IR_VALUE_GLOBAL global =>
          symbol ← symbol_of_global global;
          lift (asm_offset_reg REG_CLASS_IP 64 (asm_const_symbol symbol))
      | _ => asm_value pointer
      end
  end.

Definition asm_gen_pointer_instr (pointer : IrValue) : gen AsmValue :=
  g ← get; asm_gen_pointer_at (value_fuel (g_ir g)) pointer.

(** ** Instructions *)

Definition asm_gen_binary_instr (i : nat) (instr : IrInstr) (o : AsmOp) : gen unit :=
  lift (PRECONDITION (is_int (instr_type instr)));;
  '(arg1, arg2) ← lift (get_args instr);
  lhs ← asm_value arg1;
  rhs ← asm_value arg2;
  w ← lift (bit_width_of (instr_type instr));
  target ← assign_new_vreg i w;
  emit_mov target lhs;;
  rhs ← maybe_move_const_to_reg rhs w (is_sign_extending_op o);
  emit_instr2 o target rhs;;
  mret tt.

Definition asm_gen_binary_float_instr (i : nat) (instr : IrInstr) (float_op double_op : AsmOp) : gen unit :=
  lift (PRECONDITION (is_float (instr_type instr)));;
  '(arg1, arg2) ← lift (get_args instr);
  lhs ← asm_value arg1;
  rhs ← asm_value arg2;
  b ← lift (float_bits_of (instr_type instr));
  target ← new_asm_float_vreg b;
  assign_vreg i target;;
  emit_mov target lhs;;
  o ← lift (if b =? 32 then Ok float_op else if b =? 64 then Ok double_op else UNIMPLEMENTED);
  emit_instr2 o target rhs;;
  mret tt.

(** A phi gets its register at the first visit, of the right type. *)
Definition ensure_phi_vreg (i : nat) : gen unit :=
  instr ← load_instr i;
  if vreg_number instr =? -1 then
    n ← (if is_float (instr_type instr) then new_float_vreg else new_vreg);
    set_vreg_number i n
  else mret tt.

(** The value of the first parameter for [src_block]. *)
Fixpoint phi_value_for (src_block : nat) (l : list (option IrPhiParam)) : res IrValue :=
  match l with
  | [] => ICE
  | None :: _ => Stop Undef
  | Some p :: l => if decide (phi_block p = src_block) then Ok (phi_value p) else phi_value_for src_block l
  end.

Fixpoint handle_phis (src_block : nat) (dest_instrs : list nat) : gen unit :=
  match dest_instrs with
  | [] => mret tt
  | i :: rest =>
      instr ← load_instr i;
      if negb (bool_decide (instr_op instr = OP_PHI)) then mret tt
      else
        ensure_phi_vreg i;;
        instr ← load_instr i;
        params ← lift (get_phi instr);
        value ← lift (phi_value_for src_block params);
        size ← lift (type_bits (instr_type instr));
        target ← lift ((if is_float (instr_type instr) then asm_float_vreg else asm_vreg)
                         (u32 (vreg_number instr)) (u8 size));
        v ← asm_value value;
        emit_mov target v;;
        handle_phis src_block rest
  end.

Definition handle_phi_nodes (src_block dest_block : nat) : gen unit :=
  b ← load_block dest_block;
  handle_phis src_block (block_instrs b).

(** [block->label] *)
Definition label_of_block (block : nat) : gen nat := g ← get; lift (of_opt (g_labels g !! block)).

Definition asm_gen_cond_of_cmp (cond : IrInstr) : gen bool :=
  lift (PRECONDITION (bool_decide (instr_op cond = OP_COND)));;
  '(condition, then_block, _) ← lift (get_cond cond);
  match val_u condition with
  | IR_VALUE_INSTR cond_instr =>
      '(invert, cond_instr) ← inner_cmp cond_instr;
      x ← load_instr cond_instr;
      if negb (bool_decide (instr_op x = OP_CMP)) && negb (bool_decide (instr_op x = OP_CMPF)) then mret false
      else
        '(first, second, cmp) ← lift (get_cmp x);
        let '(cmp, arg1, arg2) := maybe_flip_conditional cmp first second in
        let cmp := if invert : bool then invert_cmp cmp else cmp in
        v ← asm_value arg2;
        b ← lift (type_bits (val_type arg1));
        arg2_value ← maybe_move_const_to_reg v b true;
        o ← lift (compare_op (instr_op x) first);
        arg1_value ← asm_value arg1;
        emit_instr2 o arg1_value arg2_value;;
        l ← label_of_block then_block;
        emit_instr1 (jump_op cmp) (asm_symbol l);;
        mret true
  | _ => mret false
  end.

Definition emit_jump (o : AsmOp) (block : nat) : gen unit :=
  l ← label_of_block block;
  emit_instr1 o (asm_symbol l);;
  mret tt.

Definition asm_gen_cond (curr_block : nat) (instr : IrInstr) : gen unit :=
  '(condition, then_block, else_block) ← lift (get_cond instr);
  match val_u condition with
  | IR_VALUE_CONST_INT c =>
      let block := if negb (c =? 0) then then_block else else_block in
      let other_block := if negb (c =? 0) then else_block else then_block in
      handle_phi_nodes curr_block block;;
      emit_jump JMP block;;
      handle_phi_nodes curr_block other_block
  | _ =>
      handle_phi_nodes curr_block then_block;;
      done ← asm_gen_cond_of_cmp instr;
      (if done : bool then mret tt
       else
         v ← asm_value condition;
         emit_instr2 CMP v (asm_imm 0);;
         emit_jump JNE then_block);;
      handle_phi_nodes curr_block else_block;;
      emit_jump JMP else_block
  end.

Definition asm_gen_ret (ir_global : IrGlobal) (instr : IrInstr) : gen unit :=
  arg ← lift (get_arg instr);
  t ← lift (return_type_of (global_type ir_global));
  lift (ASSERT (ir_type_eq t (val_type arg)));;
  return_reg ← return_reg_for_type t;
  v ← asm_value arg;
  emit_mov return_reg v;;
  g ← get;
  emit_instr1 JMP (asm_symbol (g_ret_label g));;
  mret tt.

Definition asm_gen_local (i : nat) (instr : IrInstr) : gen unit :=
  '(type, _) ← lift (get_local instr);
  g ← get;
  set_stack_offset i (g_stack_usage g);;
  size ← lift (size_of_ir_type type);
  modify (fun g => w_stack_usage g (u32 (g_stack_usage g + size))).

(** The value as it can be stored in [bit_width] bits. *)
Definition store_operand (value : AsmValue) (type : IrType) (bit_width : Z) : gen AsmValue :=
  match value_u value with
  | ASM_VALUE_REGISTER _ => mret (with_width value bit_width)
  | ASM_VALUE_CONST konst =>
      size ← lift (size_of_ir_type type);
      if size =? 8 then
        temp_vreg ← new_asm_vreg 64;
        emit_mov temp_vreg value;;
        mret temp_vreg
      else
        match konst with
        | ASM_CONST_SYMBOL _ => mret value
        | ASM_CONST_FIXED_IMMEDIATE _ w => lift (ASSERT (w =? bit_width));; mret value
        | ASM_CONST_IMMEDIATE x =>
            mret (mkAsmValue (is_deref value) (ASM_VALUE_CONST (asm_const_fixed_imm x bit_width)))
        end
  | ASM_VALUE_OFFSET_REGISTER _ _ => lift UNREACHABLE
  end.

(** The operand that [OP_STORE] and [OP_LOAD] dereference: a global's is computed
    again. *)
Definition memory_operand (ir_pointer : IrValue) : gen AsmValue :=
  pointer ← asm_gen_pointer_instr ir_pointer;
  match val_u ir_pointer with
  | IR_VALUE_GLOBAL global =>
      symbol ← symbol_of_global global;
      lift (asm_offset_reg REG_CLASS_IP 64 (asm_const_symbol symbol))
  | _ => mret pointer
  end.

(** An 80-bit float ends in [UNIMPLEMENTED], any other width in nothing. *)
Definition asm_gen_store (instr : IrInstr) : gen unit :=
  '(ir_pointer, ir_value) ← lift (get_args instr);
  let type := val_type ir_value in
  b ← lift (type_bits type);
  let bit_width := if is_float type then 128 else b in
  v ← asm_value ir_value;
  value ← store_operand v type bit_width;
  pointer ← memory_operand ir_pointer;
  match type with
  | IR_FLOAT float_bits =>
      if float_bits =? 32 then emit_instr2 MOVSS (asm_deref pointer) value;; mret tt
      else if float_bits =? 64 then emit_instr2 MOVSD (asm_deref pointer) value;; mret tt
      else if float_bits =? 80 then lift UNIMPLEMENTED else mret tt
  | _ => emit_mov (asm_deref pointer) value;; mret tt
  end.

Definition asm_gen_load (i : nat) (instr : IrInstr) : gen unit :=
  '(ir_pointer, type) ← lift (get_load instr);
  target ← new_asm_vreg_of_type type;
  assign_vreg i target;;
  pointer ← memory_operand ir_pointer;
  emit_mov target (asm_deref pointer);;
  mret tt.

(** The widths of a conversion between integers. *)
Definition int_widths (instr : IrInstr) (arg : IrValue) : res (Z * Z) :=
  match instr_type instr, val_type arg with
  | IR_INT w, IR_INT v => Ok (w, v)
  | _, _ => ICE
  end.

Definition asm_gen_zext (i : nat) (instr : IrInstr) : gen unit :=
  arg ← lift (get_arg instr);
  '(w, v) ← lift (int_widths instr arg);
  if (w =? 64) && (v =? 32) then
    vreg ← assign_new_vreg i 32;
    a ← asm_value arg;
    emit_mov vreg a;;
    mret tt
  else
    vreg ← assign_new_vreg i w;
    a ← asm_value arg;
    emit_instr2 MOVZX vreg a;;
    mret tt.

Definition asm_gen_sext (i : nat) (instr : IrInstr) : gen unit :=
  arg ← lift (get_arg instr);
  '(w, _) ← lift (int_widths instr arg);
  vreg ← assign_new_vreg i w;
  a ← asm_value arg;
  emit_instr2 MOVSX vreg a;;
  mret tt.

Definition asm_gen_trunc (i : nat) (instr : IrInstr) : gen unit :=
  arg ← lift (get_arg instr);
  lift (int_widths instr arg);;
  value ← asm_value arg;
  match as_register value with
  | Some r => match reg_u r with V_REG n => set_vreg_number i n | PHYS_REG _ => lift ICE end
  | None => lift UNIMPLEMENTED
  end.

(** [OP_EXTF] and [OP_TRUNCF]: the only target width is [bits]. *)
Definition asm_gen_float_resize (i : nat) (instr : IrInstr) (bits : Z) (o : AsmOp) : gen unit :=
  arg ← lift (get_arg instr);
  lift (PRECONDITION (is_float (instr_type instr) && is_float (val_type arg)));;
  b ← lift (float_bits_of (instr_type instr));
  if negb (b =? bits) then lift UNIMPLEMENTED
  else
    vreg ← new_asm_float_vreg b;
    assign_vreg i vreg;;
    a ← asm_value arg;
    emit_instr2 o vreg a;;
    mret tt.

(** The first for single, the second for double precision. *)
Definition by_precision {A} (float_bits : Z) (single double_ : A) : res A :=
  if float_bits =? 32 then Ok single else if float_bits =? 64 then Ok double_ else UNIMPLEMENTED.

Definition asm_gen_sint_to_float (i : nat) (instr : IrInstr) : gen unit :=
  arg ← lift (get_arg instr);
  lift (PRECONDITION (is_float (instr_type instr) && is_int (val_type arg)));;
  value ← asm_value arg;
  b ← lift (float_bits_of (instr_type instr));
  o ← lift (by_precision b CVTSI2SS CVTSI2SD);
  vreg ← new_asm_float_vreg b;
  assign_vreg i vreg;;
  emit_instr2 o vreg value;;
  mret tt.

(** 2^32 as a [double]. *)
Definition two_to_32 : double := binary_normalize 53 1024 (2 ^ 32) 0 false.

Definition asm_gen_uint_to_float (i : nat) (instr : IrInstr) : gen unit :=
  arg ← lift (get_arg instr);
  lift (PRECONDITION (is_float (instr_type instr) && is_int (val_type arg)));;
  value ← asm_value arg;
  b ← lift (float_bits_of (instr_type instr));
  w ← lift (bit_width_of (val_type arg));
  result ← new_asm_float_vreg b;
  assign_vreg i result;;
  if w <? 64 then
    extended ← new_asm_vreg 64;
    emit_mov (with_width extended w) value;;
    o ← lift (by_precision b CVTSI2SS CVTSI2SD);
    emit_instr2 o result extended;;
    mret tt
  else
    '(convert_op, mul_op, add_op) ← lift (by_precision b (CVTSI2SS, MULSS, ADDSS) (CVTSI2SD, MULSD, ADDSD));
    shifted ← new_asm_vreg 64;
    emit_mov shifted value;;
    emit_instr2 SHR shifted (asm_imm 32);;
    emit_instr2 convert_op result shifted;;
    shift_multiplier ← asm_const_float 64 two_to_32;
    emit_instr2 mul_op result shift_multiplier;;
    emit_mov shifted value;;
    mask ← new_asm_vreg 64;
    emit_mov mask (asm_imm 0xFFFFFFFF);;
    emit_instr2 AND shifted mask;;
    low_bits ← new_asm_vreg_of_type (instr_type instr);
    emit_instr2 convert_op low_bits shifted;;
    emit_instr2 add_op result low_bits;;
    mret tt.

Definition asm_gen_float_to_sint (i : nat) (instr : IrInstr) : gen unit :=
  arg ← lift (get_arg instr);
  lift (PRECONDITION (is_int (instr_type instr) && is_float (val_type arg)));;
  value ← asm_value arg;
  b ← lift (float_bits_of (val_type arg));
  w ← lift (bit_width_of (instr_type instr));
  o ← lift (by_precision b CVTSS2SI CVTSD2SI);
  vreg ← assign_new_vreg i w;
  emit_instr2 o vreg value;;
  mret tt.

(** [OP_BIT_NOT] and [OP_NEG] *)
Definition asm_gen_unary (i : nat) (instr : IrInstr) (o : AsmOp) : gen unit :=
  lift (PRECONDITION (is_int (instr_type instr)));;
  w ← lift (bit_width_of (instr_type instr));
  vreg ← assign_new_vreg i w;
  a ← lift (get_arg instr);
  arg ← asm_value a;
  emit_mov vreg arg;;
  emit_instr1 o vreg;;
  mret tt.

Definition asm_gen_shift (i : nat) (instr : IrInstr) (o : AsmOp) : gen unit :=
  '(arg1, arg2) ← lift (get_args instr);
  shiftee ← asm_value arg1;
  shift_amount ← asm_value arg2;
  w ← lift (bit_width_of (instr_type instr));
  target ← assign_new_vreg i w;
  emit_mov target shiftee;;
  match value_u shift_amount with
  | ASM_VALUE_CONST _ => emit_instr2 o target shift_amount;; mret tt
  | ASM_VALUE_REGISTER r =>
      reg_cl ← pre_alloced_vreg REG_CLASS_C 8;
      emit_mov reg_cl (mkAsmValue false (ASM_VALUE_REGISTER (mkRegister 8 (value_width r) (reg_u r))));;
      emit_instr2 o target reg_cl;;
      mret tt
  | ASM_VALUE_OFFSET_REGISTER _ _ => lift UNREACHABLE
  end.

Definition asm_gen_mul (i : nat) (instr : IrInstr) : gen unit :=
  lift (PRECONDITION (is_int (instr_type instr)));;
  w ← lift (bit_width_of (instr_type instr));
  vreg ← assign_new_vreg i w;
  '(arg1, arg2) ← lift (get_args instr);
  factor1 ← asm_value arg1;
  factor2 ← asm_value arg2;
  if negb (is_const factor1) && negb (is_const factor2) then
    emit_mov vreg factor1;;
    emit_instr2 IMUL vreg factor2;;
    mret tt
  else
    let '(const_arg, non_const_arg) := if is_const factor1 then (factor1, factor2) else (factor2, factor1) in
    emit_instr3 IMUL vreg non_const_arg const_arg;;
    mret tt.

Definition asm_gen_div (i : nat) (instr : IrInstr) : gen unit :=
  lift (PRECONDITION (is_int (instr_type instr)));;
  width ← lift (bit_width_of (instr_type instr));
  '(arg1, arg2) ← lift (get_args instr);
  numerator ← asm_value arg1;
  denominator ← asm_value arg2;
  reg_denominator ←
    (if is_const denominator then
       d ← new_asm_vreg width;
       emit_mov d denominator;;
       mret d
     else mret denominator);
  quotient ← pre_alloced_vreg REG_CLASS_A width;
  remainder ← pre_alloced_vreg REG_CLASS_D width;
  emit_mov quotient numerator;;
  sign_extend_op ← lift (if width =? 32 then Ok CDQ else if width =? 64 then Ok CQO else UNIMPLEMENTED);
  emit_with_deps sign_extend_op [] quotient remainder;;
  emit_with_deps IDIV [reg_denominator] quotient remainder;;
  let result := if bool_decide (instr_op instr = OP_DIV) then quotient else remainder in
  vreg ← new_asm_vreg width;
  emit_mov vreg result;;
  assign_vreg i vreg;;
  mret tt.

(** The arguments that a call sequence passes in general and in float registers. *)
Definition in_reg (gpr : bool) (c : ArgClass) : bool :=
  match c with ARG_CLASS_REG r _ => Bool.eqb (reg_class_is_gpr r) gpr | ARG_CLASS_MEM _ _ _ => false end.
Definition count_regs (gpr : bool) (l : list ArgClass) : Z := Z.of_nat (length (filter (fun c => in_reg gpr c) l)).

(** [ir_global->call_seq.arg_classes], up to the arity. *)
Definition arg_classes_of (global : nat) (ir_global : IrGlobal) : gen (list ArgClass) :=
  types ← lift (arg_types_of (global_type ir_global));
  g ← get;
  c ← lift (of_opt (g_call_seqs g !! global));
  if (length types <=? length (arg_classes c))%nat then mret (take (length types) (arg_classes c))
  else lift (Stop Undef).

Definition asm_gen_va_start (global : nat) (ir_global : IrGlobal) (instr : IrInstr) : gen unit :=
  va_list_ptr ← new_asm_vreg 64;
  arg ← lift (get_arg instr);
  a ← asm_value arg;
  emit_mov va_list_ptr a;;
  classes ← arg_classes_of global ir_global;
  emit_mov (asm_deref va_list_ptr) (asm_fixed_imm (u32 (count_regs true classes * 8)) 32);;
  emit_instr2 ADD va_list_ptr (asm_imm 4);;
  emit_mov (asm_deref va_list_ptr)
    (asm_fixed_imm (u32 (Z.of_nat (length int_argument_registers) * 8 + count_regs false classes * 16)) 32);;
  emit_instr2 ADD va_list_ptr (asm_imm 4);;
  temp_vreg ← new_asm_vreg 64;
  bp ← lift (asm_phys_reg REG_CLASS_BP 64);
  emit_mov temp_vreg bp;;
  emit_instr2 ADD temp_vreg (asm_imm 16);;
  emit_mov (asm_deref va_list_ptr) temp_vreg;;
  emit_instr2 ADD va_list_ptr (asm_imm 8);;
  sp ← lift (asm_phys_reg REG_CLASS_SP 64);
  emit_mov (asm_deref va_list_ptr) sp;;
  mret tt.

(** ** Calls *)

(** The counters of [classify_arguments]. *)
Record Classify := mkClassify { curr_offset : Z; curr_int_reg_index : nat; curr_float_reg_index : nat }.

Definition classify_argument (s : Classify) (arg_type : IrType) : res (ArgClass * Classify) :=
  let '(mkClassify offset ints floats) := s in
  match arg_type with
  | IR_INT _ | IR_POINTER =>
      match int_argument_registers !! ints with
      | Some r => Ok (ARG_CLASS_REG r None, mkClassify offset (S ints) floats)
      | None => Ok (ARG_CLASS_MEM offset 8 false, mkClassify (u32 (offset + 8)) ints floats)
      end
  | IR_FLOAT float_bits =>
      match float_argument_registers !! floats with
      | Some r => Ok (ARG_CLASS_REG r None, mkClassify offset ints (S floats))
      | None => Ok (ARG_CLASS_MEM offset (float_bits / 8) false, s)
      end
  | IR_STRUCT _ _ _ _ _ =>
      size ← size_of_ir_type arg_type;
      Ok (ARG_CLASS_MEM offset size true, mkClassify (u32 (offset + size)) ints floats)
  | IR_ARRAY _ _ | IR_FUNCTION _ _ _ | IR_VOID => UNREACHABLE
  end.

Fixpoint classify_from (s : Classify) (arg_types : list IrType) : res CallSeq :=
  match arg_types with
  | [] => Ok (mkCallSeq (curr_offset s) [])
  | t :: arg_types =>
      '(c, s) ← classify_argument s t;
      rest ← classify_from s arg_types;
      Ok (mkCallSeq (stack_space rest) (c :: arg_classes rest))
  end.

Definition classify_arguments (arg_types : list IrType) : res CallSeq :=
  classify_from (mkClassify 0 0 0) arg_types.

(** The call sequence, and whether it was made for this call. *)
Definition call_sequence (callee : IrValue) (call_args : list IrValue) : gen (CallSeq * bool) :=
  target ←
    match val_u callee with
    | IR_VALUE_GLOBAL target =>
        g ← load_global target;
        lift (ASSERT (is_function (global_type g)));;
        types ← lift (arg_types_of (global_type g));
        variable_arity ← lift (variable_arity_of (global_type g));
        lift (ASSERT ((length call_args =? length types)%nat
                      || ((length types <? length call_args)%nat && variable_arity)));;
        mret (if variable_arity : bool then None else Some target)
    | _ => mret None
    end;
  match target with
  | Some target =>
      g ← get;
      call_seq ← lift (of_opt (g_call_seqs g !! target));
      mret (call_seq, false)
  | None =>
      call_seq ← lift (classify_arguments (val_type <$> call_args));
      mret (call_seq, true)
  end.

(** The unrolled copy of a struct of [to_copy] bytes: whole words, then bytes. *)
Definition copy_at (src : Register) (temp_vreg location width i : Z) : gen unit :=
  temp ← lift (asm_vreg temp_vreg 64);
  emit_mov temp (asm_deref (offset_value src (asm_const_imm i)));;
  dest ← lift (asm_offset_reg REG_CLASS_SP 64 (asm_const_imm (u64 (location + i))));
  low ← lift (asm_vreg temp_vreg width);
  emit_mov (asm_deref dest) low;;
  mret tt.

Definition copy_struct (src : Register) (temp_vreg location to_copy : Z) : gen unit :=
  let words := to_copy / 8 in
  each (fun k => copy_at src temp_vreg location 64 (8 * k)) (seqZ 0 words);;
  each (copy_at src temp_vreg location 8) (seqZ (8 * words) (to_copy - 8 * words)).

(** The register that holds the address of a struct. *)
Definition struct_source (arg : AsmValue) : gen Register :=
  let fall :=
    (src_vreg ← new_asm_vreg 64;
     emit_mov src_vreg arg;;
     lift (of_opt (as_register src_vreg))) in
  match value_u arg with
  | ASM_VALUE_REGISTER r => mret r
  | ASM_VALUE_OFFSET_REGISTER r (ASM_CONST_IMMEDIATE _) => mret r
  | _ => fall
  end.

Definition block_size (g : GenState) : Z := Z.of_nat (length (current_block g)).

Definition set_live_start (n x : Z) : gen unit :=
  update_vreg n (fun v => set_range v (i32 x) (live_range_end v)).
Definition set_live_end (n x : Z) : gen unit :=
  update_vreg n (fun v => set_range v (live_range_start v) (i32 x)).

(** One argument; the registers that carry arguments are collected. *)
Definition pass_argument (arg_vregs : list Z) (arg_value : IrValue) (arg_class : ArgClass) : gen (list Z) :=
  let float := is_float (val_type arg_value) in
  arg ← asm_value arg_value;
  b ← lift (type_bits (val_type arg_value));
  let is_reg := match as_register arg with Some _ => true | None => false end in
  let value_width := if is_reg && negb float then 64 else u8 b in
  let arg := with_width arg (if float then 128 else 64) in
  match arg_class with
  | ARG_CLASS_REG reg _ =>
      arg_target_reg ← pre_alloced_vreg reg value_width;
      emit_mov arg_target_reg arg;;
      r ← lift (of_opt (as_register arg_target_reg));
      match reg_u r with
      | V_REG n =>
          g ← get;
          set_live_start n (block_size g - 1);;
          mret (arg_vregs ++ [n])
      | PHYS_REG _ => lift (Stop Undef)
      end
  | ARG_CLASS_MEM offset size remains_in_memory =>
      if negb remains_in_memory then
        lift (ASSERT (size =? 8));;
        temp_vreg ← new_asm_vreg 64;
        emit_mov temp_vreg arg;;
        dest ← lift (asm_offset_reg REG_CLASS_SP 64 (asm_const_imm offset));
        emit_mov (asm_deref dest) temp_vreg;;
        mret arg_vregs
      else
        src ← struct_source arg;
        temp_vreg ← new_vreg;
        copy_struct src temp_vreg offset size;;
        mret arg_vregs
  end.

Fixpoint pass_arguments (arg_vregs : list Z) (call_args : list IrValue) (classes : list ArgClass) : gen (list Z) :=
  match call_args, classes with
  | [], _ => mret arg_vregs
  | a :: call_args, c :: classes =>
      arg_vregs ← pass_argument arg_vregs a c;
      pass_arguments arg_vregs call_args classes
  | _ :: _, [] => lift (Stop Undef)
  end.

(** The arguments of float type in registers. *)
Definition num_reg_float_args (call_args : list IrValue) (classes : list ArgClass) : Z :=
  Z.of_nat (length (filter (fun '(a, c) => is_float (val_type a) && match c with ARG_CLASS_REG _ _ => true | _ => false end = true)
    (zip call_args classes))).

Definition adjust_sp (o : AsmOp) (amount : Z) : gen unit :=
  if 0 <? amount then
    sp ← lift (asm_phys_reg REG_CLASS_SP 64);
    emit_instr2 o sp (asm_imm amount);;
    mret tt
  else mret tt.

(** The value of a call moves from its register to a fresh one. *)
Definition take_result (i : nat) (return_type : IrType) : gen unit :=
  if is_void return_type then mret tt
  else
    return_vreg ← return_reg_for_type return_type;
    temp_vreg ← new_asm_vreg_of_type return_type;
    emit_mov temp_vreg return_vreg;;
    r ← lift (of_opt (as_register return_vreg));
    match reg_u r with
    | V_REG n =>
        g ← get;
        set_live_start n (block_size g - 2);;
        set_live_end n (block_size g - 1)
    | PHYS_REG _ => lift (Stop Undef)
    end;;
    assign_vreg i temp_vreg;;
    mret tt.

Definition asm_gen_call (i : nat) (instr : IrInstr) : gen unit :=
  '(callee, call_args, return_type) ← lift (get_call instr);
  '(call_seq, gen_new_call_seq) ← call_sequence callee call_args;
  let args_plus_padding := align_to (stack_space call_seq) 16 in
  adjust_sp SUB args_plus_padding;;
  modify (fun g => w_sp_diff g args_plus_padding);;
  arg_vregs ← pass_arguments [] call_args (arg_classes call_seq);
  (if gen_new_call_seq : bool then
     al ← pre_alloced_vreg REG_CLASS_A 8;
     emit_mov al (asm_imm (num_reg_float_args call_args (arg_classes call_seq)));;
     mret tt
   else mret tt);;
  c ← asm_value callee;
  emit_instr1 CALL c;;
  each (fun n => g ← get; set_live_end n (block_size g - 1)) arg_vregs;;
  adjust_sp ADD args_plus_padding;;
  modify (fun g => w_sp_diff g 0);;
  take_result i return_type.

Definition asm_gen_instr (global : nat) (ir_global : IrGlobal) (curr_block : nat) (i : nat) : gen unit :=
  lift (PRECONDITION (is_function (global_type ir_global)));;
  instr ← load_instr i;
  match instr_op instr with
  | OP_INVALID => lift UNREACHABLE
  | OP_LOCAL => asm_gen_local i instr
  | OP_FIELD => mret tt
  | OP_RET_VOID => g ← get; emit_instr1 JMP (asm_symbol (g_ret_label g));; mret tt
  | OP_RET => asm_gen_ret ir_global instr
  | OP_JUMP =>
      target ← lift (get_target instr);
      handle_phi_nodes curr_block target;;
      emit_jump JMP target
  | OP_COND => asm_gen_cond curr_block instr
  | OP_PHI => ensure_phi_vreg i
  | OP_STORE => asm_gen_store instr
  | OP_LOAD => asm_gen_load i instr
  | OP_CAST => mret tt
  | OP_ZEXT => asm_gen_zext i instr
  | OP_SEXT => asm_gen_sext i instr
  | OP_TRUNC => asm_gen_trunc i instr
  | OP_EXTF => asm_gen_float_resize i instr 64 CVTSS2SD
  | OP_TRUNCF => asm_gen_float_resize i instr 32 CVTSD2SS
  | OP_SINT_TO_FLOAT => asm_gen_sint_to_float i instr
  | OP_UINT_TO_FLOAT => asm_gen_uint_to_float i instr
  | OP_FLOAT_TO_SINT => asm_gen_float_to_sint i instr
  | OP_CALL => asm_gen_call i instr
  | OP_BIT_XOR => asm_gen_binary_instr i instr XOR
  | OP_BIT_AND => asm_gen_binary_instr i instr AND
  | OP_BIT_OR => asm_gen_binary_instr i instr OR
  | OP_BIT_NOT => asm_gen_unary i instr NOT
  | OP_NEG => asm_gen_unary i instr NEG
  | OP_SHL => asm_gen_shift i instr SHL
  | OP_SHR => asm_gen_shift i instr SHR
  | OP_ADD => asm_gen_binary_instr i instr ADD
  | OP_SUB => asm_gen_binary_instr i instr SUB
  | OP_MUL => asm_gen_mul i instr
  | OP_DIV | OP_MOD => asm_gen_div i instr
  | OP_ADDF => asm_gen_binary_float_instr i instr ADDSS ADDSD
  | OP_CMP | OP_CMPF => mret tt
  | OP_BUILTIN_VA_START => asm_gen_va_start global ir_global instr
  end.

(** ** Functions *)

Definition callee_save_registers : list RegClass :=
  [REG_CLASS_R15; REG_CLASS_R14; REG_CLASS_R13; REG_CLASS_R12; REG_CLASS_B].
Definition is_callee_save (reg : RegClass) : bool :=
  existsb (fun r => bool_decide (r = reg)) callee_save_registers.

(** The bit set of the callee-saved registers that the operands name. *)
Definition used_callee_save (body : list AsmInstr) : Z :=
  foldl (fun bitset arg =>
    match value_reg arg with
    | Some (mkRegister _ _ (PHYS_REG c)) =>
        if is_callee_save c then Z.lor bitset (Z.shiftl 1 (reg_class_num c)) else bitset
    | _ => bitset
    end) 0 (body ≫= args).

(** The register with a number. *)
Definition all_classes : list RegClass :=
  [INVALID_REG_CLASS; REG_CLASS_A; REG_CLASS_B; REG_CLASS_C; REG_CLASS_D; REG_CLASS_DI; REG_CLASS_SI;
   REG_CLASS_BP; REG_CLASS_SP; REG_CLASS_R8; REG_CLASS_R9; REG_CLASS_R10; REG_CLASS_R11; REG_CLASS_R12;
   REG_CLASS_R13; REG_CLASS_R14; REG_CLASS_R15; REG_CLASS_IP; REG_CLASS_XMM0; REG_CLASS_XMM1;
   REG_CLASS_XMM2; REG_CLASS_XMM3; REG_CLASS_XMM4; REG_CLASS_XMM5; REG_CLASS_XMM6; REG_CLASS_XMM7].

(** [while (bitset != 0)]: one PUSH or POP for the register [pick] chooses. *)
Definition save_body (o : AsmOp) (pick : Z -> res Z) (bitset : Z) : gen (Z + unit) :=
  if bitset =? 0 then mret (inr tt)
  else
    k ← lift (pick bitset);
    reg ← lift (ref all_classes k);
    r ← lift (asm_phys_reg reg 64);
    emit_instr1 o r;;
    mret (inl (Z.land bitset (bnot 32 (Z.shiftl 1 k)))).
Definition save_registers (o : AsmOp) (pick : Z -> res Z) (bitset : Z) : gen unit :=
  loop_st 33 (save_body o pick) bitset.

(** Blocks get labels before code is generated. *)
Definition label_block (block : nat) : gen unit :=
  b ← load_block block;
  l ← add_label (block_name b);
  modify (fun g => w_labels g (<[block := l]> (g_labels g))).

(** [arg_class->u.reg.vreg = n] *)
Definition set_arg_vreg (global : nat) (i : nat) (n : Z) : gen unit :=
  modify (fun g => w_call_seqs g (alter (fun c => mkCallSeq (stack_space c)
    (alter (fun a => match a with ARG_CLASS_REG r _ => ARG_CLASS_REG r (Some n) | a => a end) i (arg_classes c)))
    global (g_call_seqs g))).

(** An argument that arrives in a register moves to a virtual register. *)
Definition receive_argument (global : nat) (types : list IrType) (i : nat) : gen unit :=
  arg_class ← arg_class_of global (Z.of_nat i);
  match arg_class with
  | ARG_CLASS_REG reg _ =>
      t ← lift (of_opt (types !! i));
      arg_vreg ← new_asm_vreg_of_type t;
      r ← lift (of_opt (as_register arg_vreg));
      source ← lift (asm_phys_reg reg (width r));
      emit_mov arg_vreg source;;
      match reg_u r with
      | V_REG n => set_arg_vreg global i n
      | PHYS_REG _ => lift (Stop Undef)
      end
  | ARG_CLASS_MEM _ _ _ => mret tt
  end.

(** A block's code; a block without code has no first instruction to label. The
    first block starts before the moves that receive the arguments. *)
Definition asm_gen_block (global : nat) (ir_global : IrGlobal) (b : nat * nat) : gen unit :=
  let '(block_index, block) := b in
  g ← get;
  let first_instr_of_block_index := match block_index with O => 0%nat | S _ => length (current_block g) end in
  label ← label_of_block block;
  update_symbol label (set_offset (u32 (Z.of_nat first_instr_of_block_index)));;
  b ← load_block block;
  each (asm_gen_instr global ir_global block) (block_instrs b);;
  set_label first_instr_of_block_index label.

(** The allocator's view of the builder. *)
Definition alloc_view (g : GenState) : AsmBuilder :=
  RegAlloc.mkBuilder (symbols (g_asm g)) (g_body g) (g_capacity g) (g_ret_label g) (g_vregs g) (g_stack_usage g).
Definition allocate (garbage : list Z) : gen unit :=
  g ← get;
  bd ← lift (allocate_registers garbage (alloc_view g));
  put (w_body (w_vregs (w_stack_usage g (local_stack_usage bd)) (virtual_registers bd))
         (RegAlloc.current_block bd)).

Definition emit_mov_to_frame (offset : Z) (o : AsmOp) (reg : RegClass) : gen unit :=
  dest ← lift (asm_offset_reg REG_CLASS_SP 64 (asm_const_imm offset));
  r ← lift (asm_phys_reg reg 64);
  (if decide (o = MOV) then emit_mov (asm_deref dest) r else emit_instr2 o (asm_deref dest) r);;
  mret tt.

(** The register save area of a function with variable arguments. *)
Definition save_arguments (global : nat) (ir_global : IrGlobal) : gen unit :=
  classes ← arg_classes_of global ir_global;
  let num_int_reg_args := Z.to_nat (count_regs true classes) in
  let num_float_reg_args := Z.to_nat (count_regs false classes) in
  each (fun i =>
    reg ← lift (of_opt (int_argument_registers !! i));
    emit_mov_to_frame (Z.of_nat i * 8) MOV reg)
    (seq num_int_reg_args (length int_argument_registers - num_int_reg_args));;
  skip_vector_save ← add_label "skip_vector_save";
  al ← lift (asm_phys_reg REG_CLASS_A 8);
  emit_instr2 CMP al (asm_imm 0);;
  emit_instr1 JE (asm_symbol skip_vector_save);;
  each (fun i =>
    reg ← lift (of_opt (float_argument_registers !! i));
    emit_mov_to_frame (Z.of_nat (length int_argument_registers) * 8 + Z.of_nat i * 16) MOVAPS reg)
    (seq num_float_reg_args (length float_argument_registers - num_float_reg_args));;
  nop ← emit_instr0 NOP;
  set_label nop skip_vector_save.

(** The padding is never 0: a frame that is aligned already gets 16 more bytes. *)
Definition frame_size (num_callee_save_regs stack_usage : Z) : Z :=
  u32 (stack_usage + (16 - u32 (u32 (num_callee_save_regs * 8) + stack_usage) mod 16)).

Definition prologue (global_symbol : nat) (used stack_adjustment : Z) : gen unit :=
  bp ← lift (asm_phys_reg REG_CLASS_BP 64);
  sp ← lift (asm_phys_reg REG_CLASS_SP 64);
  first ← emit_instr1 PUSH bp;
  set_label first global_symbol;;
  emit_mov bp sp;;
  save_registers PUSH lowest_set_bit used;;
  adjust_sp SUB stack_adjustment.

Definition epilogue (ret_label : nat) (used stack_adjustment : Z) : gen unit :=
  g ← get;
  let epilogue_start := length (current_block g) in
  adjust_sp ADD stack_adjustment;;
  save_registers POP highest_set_bit used;;
  bp ← lift (asm_phys_reg REG_CLASS_BP 64);
  emit_instr1 POP bp;;
  emit_instr0 RET;;
  set_label epilogue_start ret_label.

(** From the end of register allocation on. *)
Definition finish_function (global : nat) (ir_global : IrGlobal) (global_symbol : nat) : gen unit :=
  g ← get;
  let body := g_body g in
  let used_callee_save_regs_bitset := used_callee_save body in
  num_callee_save_regs ← lift (bit_count used_callee_save_regs_bitset);
  modify (fun g => w_block g Text);;
  let stack_adjustment := frame_size num_callee_save_regs (g_stack_usage g) in
  prologue global_symbol used_callee_save_regs_bitset stack_adjustment;;
  variable_arity ← lift (variable_arity_of (global_type ir_global));
  (if variable_arity : bool then save_arguments global ir_global else mret tt);;
  modify (fun g => w_current_block g (current_block g ++ body));;
  epilogue (g_ret_label g) used_callee_save_regs_bitset stack_adjustment.

Definition is_return_type (t : IrType) : bool := is_int t || is_float t || is_pointer t || is_void t.

(** The function's body over virtual registers. *)
Definition select_body (global : nat) (ir_global : IrGlobal) (ir_func : IrFunction) : gen unit :=
  modify (fun g => w_stack_usage (w_capacity (w_body (w_block (w_function g global) Body) []) 20) 0);;
  ret_label ← add_label "ret";
  modify (fun g => w_vregs (w_ret_label g ret_label) []);;
  return_type ← lift (return_type_of (global_type ir_global));
  lift (ASSERT (is_return_type return_type));;
  each label_block (fun_blocks ir_func);;
  types ← lift (arg_types_of (global_type ir_global));
  each (receive_argument global types) (seq 0 (length types));;
  variable_arity ← lift (variable_arity_of (global_type ir_global));
  (if variable_arity : bool
   then modify (fun g => w_stack_usage g (u32 (g_stack_usage g + REGISTER_SAVE_AREA_SIZE))) else mret tt);;
  each (asm_gen_block global ir_global) (imap pair (fun_blocks ir_func)).

(** The initializer is read before it is compared with NULL. [garbage] is what
    the allocator's bit sets are allocated from. *)
Definition asm_gen_function (garbage : list Z) (global : nat) : gen unit :=
  ir_global ← load_global global;
  g ← get;
  global_symbol ← lift (match g_global_symbols g !! global with Some s => Ok s | None => ICE end);
  lift (PRECONDITION (is_function (global_type ir_global)));;
  konst ← lift (of_opt (initializer ir_global));
  c ← lift (of_opt (consts (g_ir g) !! konst));
  ir_func ← lift (match const_u c with K_function f => Ok f | _ => Stop Undef end);
  update_symbol global_symbol (set_defined true);;
  select_body global ir_global ir_func;;
  allocate garbage;;
  finish_function global ir_global global_symbol.

(** ** Modules *)

Definition section_of (m : IrModule) (g : IrGlobal) : res AsmSymbolSection :=
  match initializer g with
  | None => Ok UNKNOWN_SECTION
  | Some k =>
      if is_function (global_type g) then Ok TEXT_SECTION
      else
        konst ← of_opt (consts m !! k);
        zero ← is_zero m (const_fuel m) konst;
        Ok (if zero : bool then BSS_SECTION else DATA_SECTION)
  end.

Definition asm_linkage (l : IrLinkage) : AsmLinkage :=
  match l with IR_GLOBAL_LINKAGE => ASM_GLOBAL_LINKAGE | IR_LOCAL_LINKAGE => ASM_LOCAL_LINKAGE end.

(** The pass that collects declarations. *)
Definition declare_global (i : nat) : gen unit :=
  ir_global ← load_global i;
  g ← get;
  section ← lift (section_of (g_ir g) ir_global);
  symbol ← add_asm_symbol;
  modify (fun g => w_owners (w_global_symbols g (<[i := symbol]> (g_global_symbols g)))
                     (<[symbol := i]> (g_owners g)));;
  update_symbol symbol (fun _ =>
    mkAsmSymbol (global_name ir_global) section
      (match initializer ir_global with Some _ => true | None => false end)
      (asm_linkage (linkage ir_global)) 0 0 0);;
  if is_function (global_type ir_global) then
    arg_types ← lift (arg_types_of (global_type ir_global));
    call_seq ← lift (classify_arguments arg_types);
    modify (fun g => w_call_seqs g (<[i := call_seq]> (g_call_seqs g)))
  else mret tt.

Definition reserve_bss (size : Z) : gen unit :=
  modify (fun g => let m := g_asm g in
    w_asm g (mkAsmModule (input_file_name m) (text_instrs m) (text_bytes m) (asm_data m) (u32 (bss_size m + size))
               (symbols m) (fixups m))).

(** One symbol: its function, its data, or its place in [.bss]. *)
Definition define_symbol (garbage : list Z) (s : nat) : gen unit :=
  symbol ← load_symbol s;
  g ← get;
  if negb (defined symbol) then mret tt
  else
    match g_owners g !! s with
    | None => mret tt
    | Some i =>
        ir_global ← load_global i;
        konst ← lift (of_opt (initializer ir_global));
        if is_function (global_type ir_global) then asm_gen_function garbage i
        else if decide (sym_section symbol = DATA_SECTION) then
          c ← lift (of_opt (consts (g_ir g) !! konst));
          update_symbol s (set_offset (u32 (data_size g)));;
          write_const (const_fuel (g_ir g)) c;;
          g' ← get;
          update_symbol s (set_size (u32 (data_size g' - data_size g)))
        else
          lift (ASSERT (bool_decide (sym_section symbol = BSS_SECTION)));;
          size ← lift (size_of_ir_type (global_type ir_global));
          update_symbol s (fun x => set_size size (set_offset (bss_size (g_asm g)) x));;
          reserve_bss size
    end.

(** The loop over the symbols goes on to those that it adds: the labels, which
    belong to no global, and are passed over. *)
Definition define_body (garbage : list Z) (i : nat) : gen (nat + unit) :=
  g ← get;
  if decide (i < length (symbols (g_asm g)))%nat then define_symbol garbage i;; mret (inl (S i))
  else mret (inr tt).

(** [globals] is the array of globals of the module, as pointers. *)
Definition generate_asm_module (globals : list nat) (garbage : list Z) (fuel : nat) : gen unit :=
  each declare_global globals;;
  loop_st fuel (define_body garbage) 0%nat.

