(* ===== verification/AsmSem.v ===== *)
(** * Meaning of selected code and of the IR it is selected from

    A machine whose registers are the virtual registers: [exec] runs a list of
    instructions until the first jump that is taken. An instruction reads and
    writes the low bits of a register as x86-64 does: a write of 32 bits clears
    the upper half, one of 8 or 16 bits leaves the rest. [IDIV], [CDQ] and [CQO]
    find the accumulator and the data register among the instruction's
    dependencies. [eval_instr] and [eval_block] are the reference semantics of IR
    over integers. *)

From S2P Require Import Prelude Maths Asm RegAlloc Ir AsmGen.

Local Open Scope Z_scope.

(** ** The machine *)

Record Flags := mkFlags { ZF : bool; SF : bool; CF : bool; OF : bool }.
Record Machine := mkMachine { regs : Z -> Z; flags : Flags }.

Definition set_reg (M : Machine) (n x : Z) : Machine :=
  mkMachine (fun k => if k =? n then x else regs M k) (flags M).

(** The register a value after writing [x] to its low [w] bits. *)
Definition merge (w old x : Z) : Z :=
  if w =? 64 then wrap 64 x
  else if w =? 32 then wrap 32 x
  else old - wrap w old + wrap w x.

Definition read (M : Machine) (w : Z) (v : AsmValue) : option Z :=
  if is_deref v then None
  else
    match value_u v with
    | ASM_VALUE_REGISTER (mkRegister rw _ (V_REG n)) => if rw =? w then Some (wrap w (regs M n)) else None
    | ASM_VALUE_CONST (ASM_CONST_IMMEDIATE c) => Some (wrap w c)
    | _ => None
    end.

(** A destination: its register and width. *)
Definition dest (v : AsmValue) : option (Z * Z) :=
  if is_deref v then None
  else match value_u v with
       | ASM_VALUE_REGISTER (mkRegister w _ (V_REG n)) => Some (n, w)
       | _ => None
       end.

Definition write (M : Machine) (v : AsmValue) (x : Z) : option Machine :=
  '(n, w) ← dest v; Some (set_reg M n (merge w (regs M n) x)).

(** The flags after comparing [a] with [b] at width [w]. *)
Definition compare_flags (w a b : Z) : Flags :=
  let r := wrap w (a - b) in
  mkFlags (r =? 0) (Z.testbit r (w - 1)) (a <? b) (negb (sgn w a - sgn w b =? sgn w r)).

(** The condition of a [SETcc] or [Jcc]. *)
Definition condition_met (o : AsmOp) (f : Flags) : option bool :=
  match o with
  | JE | SETE => Some (ZF f)
  | JNE | SETNE => Some (negb (ZF f))
  | JG | SETG => Some (negb (ZF f) && Bool.eqb (SF f) (OF f))
  | JGE | SETGE => Some (Bool.eqb (SF f) (OF f))
  | JL | SETL => Some (negb (Bool.eqb (SF f) (OF f)))
  | JLE | SETLE => Some (ZF f || negb (Bool.eqb (SF f) (OF f)))
  | JA | SETA => Some (negb (CF f) && negb (ZF f))
  | JAE | SETAE => Some (negb (CF f))
  | JB | SETB => Some (CF f)
  | JBE | SETBE => Some (CF f || ZF f)
  | _ => None
  end.

Definition binary_result (o : AsmOp) (a b : Z) : option Z :=
  match o with
  | MOV => Some b
  | ADD => Some (a + b)
  | SUB => Some (a - b)
  | AND => Some (Z.land a b)
  | OR => Some (Z.lor a b)
  | XOR => Some (Z.lxor a b)
  | IMUL => Some (a * b)
  | _ => None
  end.
Definition shift_result (o : AsmOp) (w a n : Z) : option Z :=
  let n := n mod (if w =? 64 then 64 else 32) in
  match o with
  | SHL => Some (Z.shiftl a n)
  | SHR => Some (Z.shiftr a n)
  | _ => None
  end.
Definition unary_result (o : AsmOp) (a : Z) : option Z :=
  match o with NEG => Some (- a) | NOT => Some (Z.lnot a) | _ => None end.

(** The width of an operand. *)
Definition reg_width (v : AsmValue) : option Z := r ← as_register v; Some (width r).

(** Division of [hi:lo] by [d] at width [w]; a quotient that does not fit faults. *)
Definition idiv (w hi lo d : Z) : option (Z * Z) :=
  let n := sgn (2 * w) (hi * 2 ^ w + lo) in
  let d := sgn w d in
  if d =? 0 then None
  else
    let q := Z.quot n d in
    if (- 2 ^ (w - 1) <=? q) && (q <? 2 ^ (w - 1)) then Some (q, Z.rem n d) else None.

Definition jump_symbol (v : AsmValue) : option nat :=
  match value_u v with ASM_VALUE_CONST (ASM_CONST_SYMBOL s) => Some s | _ => None end.

(** One instruction: the machine after it, and the symbol it jumps to. *)
Definition step (i : AsmInstr) (M : Machine) : option (Machine * option nat) :=
  match op i, args i, vreg_deps i with
  | CMP, [a; b], [] =>
      w ← reg_width a; x ← read M w a; y ← read M w b;
      Some (mkMachine (regs M) (compare_flags w x y), None)
  | MOVZX, [a; b], [] => v ← reg_width b; x ← read M v b; M ← write M a x; Some (M, None)
  | MOVSX, [a; b], [] => v ← reg_width b; x ← read M v b; M ← write M a (sgn v x); Some (M, None)
  | (SHL | SHR), [a; b], [] =>
      w ← reg_width a; x ← read M w a; y ← read M 8 b;
      z ← shift_result (op i) w x y; M ← write M a z; Some (M, None)
  | _, [a; b], [] =>
      w ← reg_width a; x ← read M w a; y ← read M w b;
      z ← binary_result (op i) x y; M ← write M a z; Some (M, None)
  | IMUL, [a; b; c], [] =>
      w ← reg_width a; v ← reg_width b; x ← read M v b; y ← read M w c;
      if v =? w then M ← write M a (x * y); Some (M, None) else None
  | (NEG | NOT), [a], [] =>
      w ← reg_width a; x ← read M w a; z ← unary_result (op i) x; M ← write M a z; Some (M, None)
  | JMP, [a], [] => s ← jump_symbol a; Some (M, Some s)
  | CDQ, [], [a; d] => Some (set_reg M d (wrap 32 (sgn 32 (regs M a) / 2 ^ 32)), None)
  | CQO, [], [a; d] => Some (set_reg M d (wrap 64 (sgn 64 (regs M a) / 2 ^ 64)), None)
  | IDIV, [v], [a; d] =>
      w ← reg_width v; x ← read M w v;
      '(q, r) ← idiv w (wrap w (regs M d)) (wrap w (regs M a)) x;
      let M := set_reg M a (merge w (regs M a) q) in
      Some (set_reg M d (merge w (regs M d) r), None)
  | o, [a], [] =>
      c ← condition_met o (flags M);
      if is_cond_jump o then s ← jump_symbol a; Some (M, if (c : bool) then Some s else None)
      else M ← write M a (Z.b2z c); Some (M, None)
  | _, _, _ => None
  end.

Fixpoint exec (l : list AsmInstr) (M : Machine) : option (Machine * option nat) :=
  match l with
  | [] => Some (M, None)
  | i :: l =>
      '(M, o) ← step i M;
      match o with None => exec l M | Some s => Some (M, Some s) end
  end.

(** ** The meaning of IR

    The IR builder folds operations on constants, so the reference gives no meaning
    to an operation on two constants or to a conversion of one. *)

(** The width of a value in a register: general purpose registers hold integers
    of 8, 16, 32 and 64 bits, and pointers. *)
Definition gpr_width (t : IrType) : option Z :=
  match t with
  | IR_INT w => if bool_decide (w ∈ [8; 16; 32; 64]) then Some w else None
  | IR_POINTER => Some 64
  | _ => None
  end.

(** The width and value of an operand, an unsigned number below 2^width. *)
Definition eval_value (arg : Z -> option Z) (m : IrModule) (env : gmap nat Z) (v : IrValue) : option (Z * Z) :=
  w ← gpr_width (val_type v);
  match val_u v with
  | IR_VALUE_CONST_INT c => Some (w, wrap w c)
  | IR_VALUE_INSTR i =>
      x ← instrs m !! i; z ← env !! i;
      if bool_decide (gpr_width (instr_type x) = Some w) then Some (w, z) else None
  | IR_VALUE_ARG k => z ← arg k; Some (w, wrap w z)
  | _ => None
  end.

Definition cmp_holds (cmp : IrCmp) (w a b : Z) : bool :=
  match cmp with
  | CMP_EQ => a =? b
  | CMP_NEQ => negb (a =? b)
  | CMP_SGT => sgn w b <? sgn w a
  | CMP_SGTE => sgn w b <=? sgn w a
  | CMP_SLT => sgn w a <? sgn w b
  | CMP_SLTE => sgn w a <=? sgn w b
  | CMP_UGT => b <? a
  | CMP_UGTE => b <=? a
  | CMP_ULT => a <? b
  | CMP_ULTE => a <=? b
  end.

(** A binary operation at width [w]; division is signed, and multiplication starts
    at 16 bits. *)
Definition eval_binary (o : IrOp) (w a b : Z) : option Z :=
  match o with
  | OP_ADD => Some (wrap w (a + b))
  | OP_SUB => Some (wrap w (a - b))
  | OP_MUL => if w =? 8 then None else Some (wrap w (a * b))
  | OP_BIT_AND => Some (Z.land a b)
  | OP_BIT_OR => Some (Z.lor a b)
  | OP_BIT_XOR => Some (Z.lxor a b)
  | OP_SHL => if b <? w then Some (wrap w (Z.shiftl a b)) else None
  | OP_SHR => if b <? w then Some (Z.shiftr a b) else None
  | OP_DIV =>
      if (sgn w b =? 0) || (sgn w a =? - 2 ^ (w - 1)) && (sgn w b =? -1) then None
      else Some (wrap w (Z.quot (sgn w a) (sgn w b)))
  | OP_MOD =>
      if (sgn w b =? 0) || (sgn w a =? - 2 ^ (w - 1)) && (sgn w b =? -1) then None
      else Some (wrap w (Z.rem (sgn w a) (sgn w b)))
  | _ => None
  end.

Definition eval_unary (o : IrOp) (w a : Z) : option Z :=
  match o with
  | OP_NEG => Some (wrap w (- a))
  | OP_BIT_NOT => Some (wrap w (Z.lnot a))
  | _ => None
  end.

(** A conversion from width [v] to width [w]. *)
Definition eval_convert (o : IrOp) (v w a : Z) : option Z :=
  match o with
  | OP_ZEXT => if v <? w then Some a else None
  | OP_SEXT => if v <? w then Some (wrap w (sgn v a)) else None
  | OP_TRUNC | OP_CAST => if w <=? v then Some (wrap w a) else None
  | _ => None
  end.

Definition eval_instr (arg : Z -> option Z) (m : IrModule) (env : gmap nat Z) (x : IrInstr) : option Z :=
  w ← gpr_width (instr_type x);
  match instr_u x with
  | U_binary_op a b =>
      '(wa, va) ← eval_value arg m env a;
      '(wb, vb) ← eval_value arg m env b;
      if is_const_int a && is_const_int b then None
      else if (wa =? w) && (wb =? w) then eval_binary (instr_op x) w va vb else None
  | U_cmp a b cmp =>
      '(wa, va) ← eval_value arg m env a;
      '(wb, vb) ← eval_value arg m env b;
      if is_const_int a && is_const_int b then None
      else if (wa =? wb) && bool_decide (instr_op x = OP_CMP) && (w =? 32)
      then Some (Z.b2z (cmp_holds cmp wa va vb)) else None
  | U_arg a =>
      '(wa, va) ← eval_value arg m env a;
      match instr_op x with
      | OP_NEG | OP_BIT_NOT => if wa =? w then eval_unary (instr_op x) w va else None
      | o => if is_const_int a then None else eval_convert o wa w va
      end
  | _ => None
  end.

(** Straight-line code: every instruction gets one value. *)
Fixpoint eval_block (arg : Z -> option Z) (m : IrModule) (env : gmap nat Z) (l : list nat) : option (gmap nat Z) :=
  match l with
  | [] => Some env
  | i :: l =>
      x ← instrs m !! i;
      z ← eval_instr arg m env x;
      match env !! i with
      | Some _ => None
      | None => eval_block arg m (<[i := z]> env) l
      end
  end.

(** The end of a block. *)
Inductive Exit_to :=
| Goto (block : nat)
| Leave
| Leave_with (w z : Z).

(** A constant condition is compared with 0 as it is. *)
Definition eval_terminator (arg : Z -> option Z) (m : IrModule) (env : gmap nat Z) (x : IrInstr) : option Exit_to :=
  match instr_op x, instr_u x with
  | OP_JUMP, U_target_block b => Some (Goto b)
  | OP_COND, U_cond condition then_block else_block =>
      match val_u condition with
      | IR_VALUE_CONST_INT c => Some (Goto (if c =? 0 then else_block else then_block))
      | IR_VALUE_INSTR _ =>
          '(w, z) ← eval_value arg m env condition;
          Some (Goto (if z =? 0 then else_block else then_block))
      | _ => None
      end
  | OP_RET_VOID, _ => Some Leave
  | OP_RET, U_arg a => '(w, z) ← eval_value arg m env a; Some (Leave_with w z)
  | _, _ => None
  end.

(** A block that does not begin with a phi. *)
Definition no_phis (m : IrModule) (block : nat) : bool :=
  match blocks m !! block with
  | Some b =>
      match block_instrs b with
      | i :: _ => match instrs m !! i with Some x => negb (bool_decide (instr_op x = OP_PHI)) | None => false end
      | [] => true
      end
  | None => false
  end.
