(* ===== verification/AsmGenSound.v ===== *)
(** * Selected code computes what the IR computes

    [runs m g M Q]: when the computation [m] of the selector returns from the state
    [g], the code it appended takes the machine [M] through without a jump, and [Q]
    holds of the result, the new state and the new machine. *)

From S2P Require Import Prelude Maths Asm RegAlloc Ir AsmGen AsmSem.

Local Open Scope Z_scope.

(** ** Widths *)

Definition good_width (w : Z) : Prop := w ∈ [8; 16; 32; 64].

Lemma good_width_cases w : good_width w -> w = 8 \/ w = 16 \/ w = 32 \/ w = 64.
Proof. unfold good_width. rewrite !elem_of_cons, elem_of_nil. tauto. Qed.

Lemma gpr_width_good t w : gpr_width t = Some w -> good_width w.
Proof.
  unfold gpr_width. intros H. destruct t; try done.
  - case_bool_decide; [by simplify_eq | done].
  - simplify_eq. unfold good_width. set_solver.
Qed.

Lemma wrap_le w v x : 0 <= w <= v -> wrap w (wrap v x) = wrap w x.
Proof.
  intros H. apply testbit_ext. intros i Hi. rewrite !wrap_testbit by lia.
  destruct (Z.ltb_spec i w); [| done]. by destruct (Z.ltb_spec i v); [| lia].
Qed.

Lemma wrap_merge v w old x : good_width w -> 0 <= v <= w -> wrap v (merge w old x) = wrap v x.
Proof.
  intros Hw Hv. unfold merge.
  destruct (Z.eqb_spec w 64) as [->|]; [by apply wrap_le |].
  destruct (Z.eqb_spec w 32) as [->|]; [by apply wrap_le |].
  assert (E : wrap w (old - wrap w old + wrap w x) = wrap w x).
  { unfold wrap. pose proof (pow2_pos w ltac:(lia)).
    rewrite Z.add_mod, Zminus_mod_idemp_r, Z.sub_diag, Zmod_0_l, Z.add_0_l, !Z.mod_mod by lia. done. }
  rewrite <- (wrap_le v w), E, wrap_le by lia. done.
Qed.

Lemma u8_width w : good_width w -> u8 w = w.
Proof. intros H%good_width_cases. apply wrap_small. lia. Qed.

Lemma type_bits_width t w : gpr_width t = Some w -> type_bits t = Ok w.
Proof.
  intros H. pose proof (good_width_cases w (gpr_width_good t w H)) as Hc. unfold gpr_width in H.
  destruct t; try done; [case_bool_decide; [| done] |]; simplify_eq; unfold type_bits; cbn; [| done].
  by destruct Hc as [-> | [-> | [-> | ->]]].
Qed.

(** ** Execution *)

Lemma exec_app l1 l2 M M1 : exec l1 M = Some (M1, None) -> exec (l1 ++ l2) M = exec l2 M1.
Proof.
  revert M. induction l1 as [|i l1 IH]; intros M E; [by injection E as -> |]. cbn in *.
  destruct (step i M) as [[M' [s|]]|]; [done | by apply IH | done].
Qed.

Lemma exec_app_jump l1 l2 M M1 s : exec l1 M = Some (M1, Some s) -> exec (l1 ++ l2) M = Some (M1, Some s).
Proof.
  revert M. induction l1 as [|i l1 IH]; intros M E; [done |]. cbn in *.
  destruct (step i M) as [[M' [s'|]]|]; [done | by apply IH | done].
Qed.

Lemma exec_one i M M1 o : step i M = Some (M1, o) -> exec [i] M = Some (M1, o).
Proof. intros E. cbn. rewrite E. by destruct o. Qed.

(** ** Registers are only added *)

Definition grows {A} (m : gen A) : Prop := forall n, keeps (fun g => (n <= length (g_vregs g))%nat) m.

Lemma grows_ret {A} (a : A) : grows (mret a).
Proof. intros n. apply keeps_ret. Qed.
Lemma grows_lift {A} (m : res A) : grows (lift m).
Proof. intros n. apply keeps_lift. Qed.
Lemma grows_get : grows get.
Proof. intros n. apply keeps_get. Qed.
Lemma grows_bind {A B} (m : gen A) (f : A -> gen B) : grows m -> (forall a, grows (f a)) -> grows (m ≫= f).
Proof. intros H1 H2 n. apply keeps_bind; [apply H1 | intros a; apply H2]. Qed.
(** Membership in explicit lists. *)
Ltac members H := clear - H; rewrite !list_elem_of_In in *; cbn in *; intuition congruence.

(** A step that leaves the registers alone. *)
Lemma grows_as {A} (m : gen A) : (forall g a g', m g = Ok (a, g') -> g_vregs g' = g_vregs g) -> grows m.
Proof. intros H n g a g' Hn E. by rewrite (H _ _ _ E). Qed.

#[export] Hint Resolve grows_ret grows_lift grows_get : keeps.

(** Walks through a computation whose callees are known to grow. *)
Ltac grow :=
  repeat match goal with
  | |- grows (_ ≫= _) => apply grows_bind; [| intros ?]
  | |- grows (let '_ := ?x in _) => destruct x
  | |- grows (if ?b then _ else _) => destruct b
  | |- grows (match ?x with _ => _ end) => destruct x
  | |- grows _ => solve [eauto with keeps]
  end.

Lemma current_block_vregs g l : g_vregs (w_current_block g l) = g_vregs g.
Proof. unfold w_current_block. by destruct (g_block g). Qed.
Lemma grown_vregs g : g_vregs (grown g) = g_vregs g.
Proof. unfold grown. destruct (g_block g); [case_match |]; done. Qed.

Lemma grows_emit o l : grows (emit_instr o l).
Proof. apply grows_as. intros g a g' E. injection E as _ <-. by rewrite current_block_vregs, grown_vregs. Qed.
Lemma grows_update_instr i f : grows (update_instr i f).
Proof.
  apply grows_as. intros g a g' E. unfold update_instr in E.
  apply st_bind_Ok in E as (? & ? & [= <- <-] & E). destruct (current_block g !! i); [| done].
  injection E as _ <-. apply current_block_vregs.
Qed.
#[export] Hint Resolve grows_emit grows_update_instr : keeps.
Lemma grows_is_float v : grows (asm_value_is_float v).
Proof. unfold asm_value_is_float, load_vreg. grow. Qed.
#[export] Hint Resolve grows_is_float : keeps.
Lemma grows_emit_mov d s : grows (emit_mov d s).
Proof. unfold emit_mov, emit_instr2. grow. Qed.
Lemma grows_append_vreg t : grows (append_vreg t).
Proof.
  intros n g a g' Hn E. injection E as _ <-. cbn. rewrite length_app. cbn. lia.
Qed.
Lemma grows_set_vreg_number i n : grows (set_vreg_number i n).
Proof. apply grows_as. intros g a g' E. by injection E as _ <-. Qed.
Lemma grows_update_vreg n f : grows (update_vreg n f).
Proof.
  unfold update_vreg. apply grows_bind; [unfold load_vreg; grow | intros v].
  intros k g a g' Hk E. injection E as _ <-. cbn. by rewrite length_insert.
Qed.
#[export] Hint Resolve grows_emit_mov grows_append_vreg grows_set_vreg_number grows_update_vreg : keeps.
Lemma grows_assign_vreg i v : grows (assign_vreg i v).
Proof. unfold assign_vreg. grow. Qed.
Lemma grows_new_asm_vreg w : grows (new_asm_vreg w).
Proof. unfold new_asm_vreg, new_vreg. grow. Qed.
Lemma grows_new_asm_float_vreg w : grows (new_asm_float_vreg w).
Proof. unfold new_asm_float_vreg, new_float_vreg. grow. Qed.
Lemma grows_pre_alloced c w : grows (pre_alloced_vreg c w).
Proof. unfold pre_alloced_vreg. grow. Qed.
#[export] Hint Resolve grows_assign_vreg grows_new_asm_vreg grows_new_asm_float_vreg grows_pre_alloced : keeps.
Lemma grows_maybe_move v w s : grows (maybe_move_const_to_reg v w s).
Proof. unfold maybe_move_const_to_reg. grow. Qed.
Lemma grows_emit_with_deps o l a b : grows (emit_with_deps o l a b).
Proof. unfold emit_with_deps, add_dep. grow. Qed.
Lemma grows_update_symbol s f : grows (update_symbol s f).
Proof. apply grows_as. intros g a g' E. by injection E as _ <-. Qed.
Lemma grows_add_asm_symbol : grows add_asm_symbol.
Proof. apply grows_as. intros g a g' E. by injection E as _ <-. Qed.
Lemma grows_out_bytes l : grows (out_bytes l).
Proof. apply grows_as. intros g a g' E. by injection E as _ <-. Qed.
#[export] Hint Resolve grows_maybe_move grows_emit_with_deps grows_update_symbol grows_add_asm_symbol grows_out_bytes : keeps.
Lemma grows_foldS {A B} (f : B -> A -> gen B) b l : (forall b a, grows (f b a)) -> grows (foldS f b l).
Proof. intros H. revert b. induction l as [|a l IH]; intros b; cbn; grow; auto. Qed.

Lemma grows_modify f : (forall g, length (g_vregs (f g)) = length (g_vregs g)) -> grows (modify f).
Proof. intros H n g a g' Hn E. injection E as _ <-. by rewrite H. Qed.
#[export] Hint Extern 1 (grows (modify _)) => (apply grows_modify; intros; reflexivity) : keeps.

Lemma grows_write_const n c : grows (write_const n c).
Proof.
  revert c. induction n as [|n IH]; intros c; cbn; [grow |].
  destruct (const_type c); [grow | | | | | grow |].
  all: unfold write_int_bytes, symbol_of_global, load_const_array, load_fields, add_fixup; grow;
    try (apply grows_as; intros ? ? ? E; by injection E as _ <-);
    apply grows_foldS; intros; grow; apply IH.
Qed.
#[export] Hint Resolve grows_write_const : keeps.

Lemma grows_const_float w f : grows (asm_const_float w f).
Proof. unfold asm_const_float. grow. Qed.
#[export] Hint Resolve grows_const_float : keeps.

Lemma grows_value n v : grows (asm_value_at n v).
Proof.
  revert v. induction n as [|n IH]; intros v; cbn [asm_value_at]; [grow |]. unfold asm_value_body.
  unfold asm_value_arg, arg_class_of, asm_value_local, asm_value_field, asm_value_cast, asm_gen_relational_instr,
    emit_instr1, emit_instr2, load_instr, inner_cmp, offset_of_field, load_fields, new_vreg. grow; apply IH.
Qed.
Lemma grows_asm_value v : grows (asm_value v).
Proof. unfold asm_value. grow. apply grows_value. Qed.
#[export] Hint Resolve grows_value grows_asm_value : keeps.

Lemma grows_assign_new i w : grows (assign_new_vreg i w).
Proof. unfold assign_new_vreg. grow. Qed.
Lemma grows_vreg_of_type t : grows (new_asm_vreg_of_type t).
Proof. unfold new_asm_vreg_of_type, new_vreg, new_float_vreg. grow. Qed.
Lemma grows_load_instr i : grows (load_instr i).
Proof. unfold load_instr. grow. Qed.
Lemma grows_inner_cmp i : grows (inner_cmp i).
Proof. unfold inner_cmp. grow. Qed.
Lemma grows_arg_class f k : grows (arg_class_of f k).
Proof. unfold arg_class_of. grow. Qed.
#[export] Hint Resolve grows_assign_new grows_vreg_of_type grows_load_instr grows_inner_cmp grows_arg_class : keeps.

Lemma grows_phi_vreg i : grows (ensure_phi_vreg i).
Proof. unfold ensure_phi_vreg, new_vreg, new_float_vreg. grow. Qed.
#[export] Hint Resolve grows_phi_vreg : keeps.
Lemma grows_handle_phis src l : grows (handle_phis src l).
Proof. induction l as [|i l IH]; cbn [handle_phis]; grow. Qed.
#[export] Hint Resolve grows_handle_phis : keeps.
Lemma grows_phi_nodes src dest_ : grows (handle_phi_nodes src dest_).
Proof. unfold handle_phi_nodes, load_block. grow. Qed.
Lemma grows_pointer_at n v : grows (asm_gen_pointer_at n v).
Proof.
  revert v. induction n as [|n IH]; intros v; cbn [asm_gen_pointer_at]; [grow |].
  unfold offset_of_field, load_fields, add_field_offset, symbol_of_global. grow.
Qed.
#[export] Hint Resolve grows_phi_nodes grows_pointer_at : keeps.
Lemma grows_memory_operand v : grows (memory_operand v).
Proof. unfold memory_operand, asm_gen_pointer_instr, symbol_of_global. grow. Qed.
Lemma grows_emit_jump o b : grows (emit_jump o b).
Proof. unfold emit_jump, label_of_block, emit_instr1. grow. Qed.
Lemma grows_cond_of_cmp c : grows (asm_gen_cond_of_cmp c).
Proof. unfold asm_gen_cond_of_cmp, label_of_block, emit_instr1, emit_instr2. grow. Qed.
Lemma grows_each {A} (f : A -> gen unit) l : (forall a, grows (f a)) -> grows (each f l).
Proof. intros H. unfold each. apply grows_foldS. auto. Qed.
#[export] Hint Resolve grows_memory_operand grows_emit_jump grows_cond_of_cmp : keeps.
Lemma grows_adjust_sp o n : grows (adjust_sp o n).
Proof. unfold adjust_sp, emit_instr2. grow. Qed.
Lemma grows_set_live_start n x : grows (set_live_start n x).
Proof. unfold set_live_start. grow. Qed.
Lemma grows_set_live_end n x : grows (set_live_end n x).
Proof. unfold set_live_end. grow. Qed.
Lemma grows_return_reg t : grows (return_reg_for_type t).
Proof. unfold return_reg_for_type. grow. Qed.
#[export] Hint Resolve grows_adjust_sp grows_set_live_start grows_set_live_end grows_return_reg : keeps.
Lemma grows_pass_argument l v c : grows (pass_argument l v c).
Proof.
  unfold pass_argument, struct_source, new_vreg. grow.
  unfold copy_struct, copy_at. grow; apply grows_each; intros; grow.
Qed.
#[export] Hint Resolve grows_pass_argument : keeps.
Lemma grows_pass_arguments l vs cs : grows (pass_arguments l vs cs).
Proof. revert l cs. induction vs as [|v vs IH]; intros l [|c cs]; cbn [pass_arguments]; grow. Qed.
#[export] Hint Resolve grows_pass_arguments : keeps.
Lemma grows_call i x : grows (asm_gen_call i x).
Proof.
  unfold asm_gen_call, call_sequence, take_result, load_global, emit_instr1. grow.
  apply grows_each. intros. grow.
Qed.
#[export] Hint Resolve grows_call : keeps.

(** Selection of an instruction only adds registers. *)
Lemma grows_instr f ig b i : grows (asm_gen_instr f ig b i).
Proof.
  unfold asm_gen_instr, asm_gen_local, asm_gen_ret, asm_gen_cond, asm_gen_store, store_operand, asm_gen_load, asm_gen_zext,
    asm_gen_sext, asm_gen_trunc, asm_gen_float_resize, asm_gen_sint_to_float, asm_gen_uint_to_float,
    asm_gen_float_to_sint, asm_gen_binary_instr, asm_gen_unary, asm_gen_shift, asm_gen_mul, asm_gen_div,
    asm_gen_binary_float_instr, asm_gen_va_start, arg_classes_of, emit_instr1, emit_instr2, emit_instr3,
    set_stack_offset. grow.
Qed.
#[export] Hint Resolve grows_instr : keeps.

(** ** Running what a computation emits *)

(** The number of the next register. *)
Definition fresh (g : GenState) : Z := Z.of_nat (length (g_vregs g)).

(** At most 2^31 registers: their numbers fit the integers that hold them. *)
Definition runs {A} (m : gen A) (g : GenState) (M : Machine) (Q : A -> GenState -> Machine -> Prop) : Prop :=
  forall a g', m g = Ok (a, g') -> g_block g = Body -> fresh g' <= 2 ^ 31 ->
  exists c M', g_body g' = g_body g ++ c /\ g_block g' = Body /\ exec c M = Some (M', None) /\ Q a g' M'.

Lemma runs_mono {A} (m : gen A) g M (Q Q' : A -> GenState -> Machine -> Prop) :
  runs m g M Q -> (forall a g' M', Q a g' M' -> Q' a g' M') -> runs m g M Q'.
Proof. intros H HQ a g' E Hb Hn. destruct (H a g' E Hb Hn) as (c & M' & ? & ? & ? & ?). exists c, M'. auto. Qed.

Lemma runs_bind {A B} (m : gen A) (f : A -> gen B) g M (Q : B -> GenState -> Machine -> Prop) :
  (forall a, grows (f a)) -> runs m g M (fun a g1 M1 => runs (f a) g1 M1 Q) -> runs (m ≫= f) g M Q.
Proof.
  intros Hf H b g2 E Hb Hn. apply st_bind_Ok in E as (a & g1 & E1 & E2).
  assert (Hn1 : fresh g1 <= 2 ^ 31).
  { unfold fresh in *. pose proof (Hf a (length (g_vregs g1)) _ _ _ (le_n _) E2). cbn in *. lia. }
  destruct (H a g1 E1 Hb Hn1) as (c1 & M1 & Ec1 & Hb1 & Ex1 & H2).
  destruct (H2 b g2 E2 Hb1 Hn) as (c2 & M2 & Ec2 & Hb2 & Ex2 & HQ).
  exists (c1 ++ c2), M2. rewrite Ec2, Ec1, app_assoc. split_and!; [done | done | | done].
  by rewrite (exec_app c1 c2 M M1).
Qed.

(** A step that emits nothing. *)
Lemma runs_silent {A} (m : gen A) g M (Q : A -> GenState -> Machine -> Prop) :
  (forall a g', m g = Ok (a, g') -> g_block g = Body -> fresh g' <= 2 ^ 31 ->
     g_body g' = g_body g /\ g_block g' = g_block g /\ Q a g' M) ->
  runs m g M Q.
Proof.
  intros H a g' E Hb Hn. destruct (H a g' E Hb Hn) as (Eb & Ek & HQ). exists [], M. rewrite app_nil_r. split_and!; [done | congruence | done | done].
Qed.

Lemma runs_ret {A} (a : A) g M (Q : A -> GenState -> Machine -> Prop) : Q a g M -> runs (mret a) g M Q.
Proof. intros H. apply runs_silent. intros b g' E _ _. by injection E as <- <-. Qed.
Lemma runs_lift {A} (m : res A) g M (Q : A -> GenState -> Machine -> Prop) :
  (forall a, m = Ok a -> Q a g M) -> runs (lift m) g M Q.
Proof.
  intros H. apply runs_silent. intros b g' E _ _. unfold lift in E. destruct m; [| done]. injection E as <- <-. auto.
Qed.
Lemma runs_get g M (Q : GenState -> GenState -> Machine -> Prop) : Q g g M -> runs get g M Q.
Proof. intros H. apply runs_silent. intros b g' E _ _. by injection E as <- <-. Qed.

(** The tactics that go through a computation. *)
Ltac rbind := apply runs_bind; [solve [intros ?; grow] |].
Ltac rlift := rbind; apply runs_lift; intros ? ?.

(** Everything but the code stays. *)
Record same_but_code (g g' : GenState) : Prop := {
  sb_ir : g_ir g' = g_ir g;
  sb_block : g_block g' = g_block g;
  sb_function : g_function g' = g_function g;
  sb_ret : g_ret_label g' = g_ret_label g;
  sb_vregs : g_vregs g' = g_vregs g;
  sb_labels : g_labels g' = g_labels g;
  sb_calls : g_call_seqs g' = g_call_seqs g
}.

Lemma emit_body g o l k g' : emit_instr o l g = Ok (k, g') -> g_block g = Body ->
  g_body g' = g_body g ++ [mkAsmInstr o l [] None] /\ k = length (g_body g) /\ same_but_code g g'.
Proof.
  intros E Hb. injection E as <- <-.
  unfold grown, current_block, w_current_block. rewrite Hb. destruct (g_capacity g <? _); cbn; rewrite Hb; cbn.
  all: split; [done |]; split; [done |]; by split.
Qed.

Lemma runs_emit o l g M M' (Q : nat -> GenState -> Machine -> Prop) :
  step (mkAsmInstr o l [] None) M = Some (M', None) ->
  (forall k g', same_but_code g g' -> Q k g' M') -> runs (emit_instr o l) g M Q.
Proof.
  intros Es HQ k g' E Hb _. destruct (emit_body _ _ _ _ _ E Hb) as (Ec & -> & Hs).
  exists [mkAsmInstr o l [] None], M'. split_and!; [done | | by apply exec_one | by apply HQ].
  by rewrite (sb_block _ _ Hs).
Qed.

Lemma add_dep_spec g pre x k w vw n g' u : add_dep k (mkAsmValue false (ASM_VALUE_REGISTER (mkRegister w vw (V_REG n)))) g = Ok (u, g') ->
  g_block g = Body -> g_body g = pre ++ [x] -> k = length pre ->
  g_body g' = pre ++ [mkAsmInstr (op x) (args x) (vreg_deps x ++ [n]) (label x)] /\ same_but_code g g'.
Proof.
  intros E Hb Eb ->. unfold add_dep in E.
  apply st_bind_Ok in E as (? & ? & [= <- <-] & E). apply st_bind_Ok in E as (x' & ? & E1 & E).
  assert (C : current_block g = pre ++ [x]) by (unfold current_block; by rewrite Hb).
  assert (Lx : (pre ++ [x]) !! length pre = Some x) by (rewrite lookup_app_r, Nat.sub_diag by done; done).
  rewrite C, Lx in E1. injection E1 as <- <-.
  apply st_bind_Ok in E as (? & ? & E1 & E). unfold lift in E1. destruct (PRECONDITION _); [| done].
  injection E1 as <- <-. cbn in E. unfold update_instr in E.
  apply st_bind_Ok in E as (? & ? & [= <- <-] & E). rewrite C, Lx in E. injection E as _ <-.
  unfold w_current_block. rewrite Hb. cbn. rewrite insert_app_r_alt, Nat.sub_diag by lia. cbn. split; [done |]. by split.
Qed.

Lemma runs_emit_deps o l w1 v1 n1 w2 v2 n2 g M M' (Q : unit -> GenState -> Machine -> Prop) :
  step (mkAsmInstr o l [n1; n2] None) M = Some (M', None) ->
  (forall g', same_but_code g g' -> Q tt g' M') ->
  runs (emit_with_deps o l (mkAsmValue false (ASM_VALUE_REGISTER (mkRegister w1 v1 (V_REG n1))))
          (mkAsmValue false (ASM_VALUE_REGISTER (mkRegister w2 v2 (V_REG n2))))) g M Q.
Proof.
  intros Es HQ u g' E Hb _. unfold emit_with_deps in E. mstep.
  destruct (emit_body _ _ _ _ _ E0 Hb) as (Ec & -> & Hs0).
  destruct (add_dep_spec _ (g_body g) _ _ _ _ _ _ _ E1 ltac:(by rewrite (sb_block _ _ Hs0)) Ec eq_refl) as (Ec1 & Hs1).
  destruct (add_dep_spec _ (g_body g) _ _ _ _ _ _ _ E ltac:(by rewrite (sb_block _ _ Hs1), (sb_block _ _ Hs0)) Ec1 eq_refl) as (Ec2 & Hs2).
  assert (Hs : same_but_code g g') by (destruct Hs0, Hs1, Hs2; split; congruence).
  eexists _, M'. split; [exact Ec2 |]. split; [by rewrite (sb_block _ _ Hs) |].
  split; [by apply exec_one |]. destruct u. by apply HQ.
Qed.

(** ** Values in registers *)

(** Register [n] exists, holds integers, and its low bits are [z]. *)
Definition in_vreg (g : GenState) (M : Machine) (n w z : Z) : Prop :=
  0 <= n /\ (exists v, g_vregs g !! Z.to_nat n = Some v /\ vreg_type v = REG_TYPE_INTEGER) /\ wrap w (regs M n) = z.

(** The operand [a] has width [w] and value [z]. *)
Definition holds (g : GenState) (M : Machine) (a : AsmValue) (w z : Z) : Prop :=
  is_deref a = false /\
  match value_u a with
  | ASM_VALUE_REGISTER (mkRegister rw _ (V_REG n)) => rw = w /\ in_vreg g M n w z
  | ASM_VALUE_CONST (ASM_CONST_IMMEDIATE c) => wrap w c = z
  | _ => False
  end.

Lemma holds_read g M a w z : holds g M a w z -> read M w a = Some z.
Proof.
  unfold holds, read. intros [-> H]. destruct (value_u a) as [[rw vw []]| |[]]; try done; [| by rewrite H].
  destruct H as [-> (_ & _ & <-)]. by rewrite Z.eqb_refl.
Qed.

Lemma holds_bound g M a w z : 0 <= w -> holds g M a w z -> 0 <= z < 2 ^ w.
Proof.
  unfold holds. intros Hw [_ H]. destruct (value_u a) as [[rw vw []]| |[]]; try done.
  - destruct H as [_ (_ & _ & <-)]. by apply wrap_bound.
  - rewrite <- H. by apply wrap_bound.
Qed.

(** What a piece of code keeps: the IR, and the registers that were there. *)
Record later (g : GenState) (M : Machine) (g' : GenState) (M' : Machine) : Prop := {
  l_ir : g_ir g' = g_ir g;
  l_function : g_function g' = g_function g;
  l_ret : g_ret_label g' = g_ret_label g;
  l_vregs : g_vregs g `prefix_of` g_vregs g';
  l_labels : g_labels g' = g_labels g;
  l_calls : g_call_seqs g' = g_call_seqs g;
  l_regs : forall n, 0 <= n < Z.of_nat (length (g_vregs g)) -> regs M' n = regs M n
}.

Lemma later_refl g M : later g M g M.
Proof. by split. Qed.
Lemma later_trans g0 M0 g1 M1 g2 M2 : later g0 M0 g1 M1 -> later g1 M1 g2 M2 -> later g0 M0 g2 M2.
Proof.
  intros [] []. split; try congruence; [by etransitivity |].
  intros n Hn. rewrite l_regs1 by (apply prefix_length in l_vregs0; lia). auto.
Qed.
Lemma later_emit g0 M0 g M g' : later g0 M0 g M -> same_but_code g g' -> later g0 M0 g' M.
Proof. intros [] []. split; try congruence; auto. Qed.
Lemma later_write g0 M0 g M n x : later g0 M0 g M -> Z.of_nat (length (g_vregs g0)) <= n ->
  later g0 M0 g (set_reg M n x).
Proof.
  intros [] Hn. split; try done. intros k Hk. cbn. destruct (Z.eqb_spec k n); [lia |]. auto.
Qed.
Lemma later_flags g0 M0 g M f : later g0 M0 g M -> later g0 M0 g (mkMachine (regs M) f).
Proof. intros []. by split. Qed.
Lemma later_vreg g0 M0 g M v : later g0 M0 g M -> later g0 M0 (w_vregs g (g_vregs g ++ [v])) M.
Proof. intros []. split; try done. cbn. by apply prefix_app_r. Qed.

Lemma later_fresh g M g' M' : later g M g' M' -> fresh g <= fresh g'.
Proof. intros L. pose proof (prefix_length _ _ (l_vregs _ _ _ _ L)). unfold fresh. lia. Qed.

Lemma in_vreg_later g M g' M' n w z : later g M g' M' -> in_vreg g M n w z -> in_vreg g' M' n w z.
Proof.
  intros L (Hn & (v & Ev & Ht) & <-). pose proof (lookup_lt_Some _ _ _ Ev).
  split; [done |]. split; [exists v; split; [by eapply prefix_lookup_Some, l_vregs | done] |].
  by rewrite (l_regs _ _ _ _ L) by lia.
Qed.
Lemma holds_later g M g' M' a w z : later g M g' M' -> holds g M a w z -> holds g' M' a w z.
Proof.
  intros L [Hd H]. split; [done |]. destruct (value_u a) as [[rw vw []]| |[]]; try done.
  destruct H as [-> H]. split; [done |]. by eapply in_vreg_later.
Qed.
#[export] Hint Resolve later_refl later_emit later_write later_flags later_vreg : naive.

(** ** Rules for the selector's operations *)

(** A register operand that is not dereferenced. *)
Definition reg_value (w vw n : Z) : AsmValue := mkAsmValue false (ASM_VALUE_REGISTER (mkRegister w vw (V_REG n))).

(** The state after a register was appended; its number is the old count. *)
Definition after_vreg (g : GenState) (v : VReg) : GenState := w_vregs g (g_vregs g ++ [v]).
Definition int_vreg (v : VReg) : Prop := vreg_type v = REG_TYPE_INTEGER.

Lemma fresh_u32 (g : GenState) v : fresh (after_vreg g v) <= 2 ^ 31 ->
  u32 (fresh g) = fresh g /\ fresh g < 2 ^ 31.
Proof.
  unfold after_vreg, fresh. cbn [g_vregs w_vregs]. rewrite length_app. cbn [length]. intros H.
  assert (Z.of_nat (length (g_vregs g)) < 2 ^ 31) by lia. split; [apply wrap_small; lia | done].
Qed.

Lemma runs_append t g M (Q : Z -> GenState -> Machine -> Prop) :
  (forall v, vreg_type v = t -> fresh g < 2 ^ 31 -> Q (fresh g) (after_vreg g v) M) -> runs (append_vreg t) g M Q.
Proof.
  intros H. apply runs_silent. intros n g' E _ Hn. injection E as <- <-.
  destruct (fresh_u32 _ _ Hn) as [E Hlt]. unfold fresh in E. rewrite E. split; [done |]. split; [done |]. by apply H.
Qed.

Lemma asm_vreg_ok n w : good_width w -> asm_vreg n w = Ok (reg_value w w n).
Proof. intros H%good_width_cases. unfold asm_vreg. destruct (Z.eqb_spec w 0); [lia | done]. Qed.

Lemma runs_new_asm_vreg w g M (Q : AsmValue -> GenState -> Machine -> Prop) : good_width w ->
  (forall v, int_vreg v -> fresh g < 2 ^ 31 -> Q (reg_value w w (fresh g)) (after_vreg g v) M) ->
  runs (new_asm_vreg w) g M Q.
Proof.
  intros Hw H. unfold new_asm_vreg, new_vreg. rbind. apply runs_append. intros v Hv Hlt.
  rewrite u8_width, asm_vreg_ok by done. apply runs_lift. intros a [= <-]. by apply H.
Qed.

Lemma runs_pre_alloced_in c w g M (Q : AsmValue -> GenState -> Machine -> Prop) : good_width w ->
  reg_class_is_gpr c = true ->
  (forall v, int_vreg v -> vreg_u v = IN_REG c -> fresh g < 2 ^ 31 -> Q (reg_value w w (fresh g)) (after_vreg g v) M) ->
  runs (pre_alloced_vreg c w) g M Q.
Proof.
  intros Hw Hc H. unfold pre_alloced_vreg. rewrite Hc. rbind. apply runs_append. intros v Hv Hlt.
  rbind. apply runs_get. rbind.
  assert (Ln : g_vregs (after_vreg g v) !! length (g_vregs g) = Some v).
  { unfold after_vreg. cbn. by rewrite lookup_app_r, Nat.sub_diag by done. }
  assert (Lc : Z.of_nat (length (g_vregs (after_vreg g v))) - 1 = fresh g).
  { unfold after_vreg, fresh. cbn. rewrite length_app. cbn. lia. }
  rewrite Lc. apply runs_silent. intros [] g' E _ _. unfold update_vreg, load_vreg in E. mstep.
  injection E1 as <- <-. unfold lift, ref in E0. unfold fresh in E0.
  destruct (Z.ltb_spec (Z.of_nat (length (g_vregs g))) 0); [lia |]. rewrite Nat2Z.id, Ln in E0. cbn in E0.
  injection E0 as <- <-. injection E as <-. cbn. split; [done |]. split; [done |].
  rewrite u8_width, asm_vreg_ok by done. apply runs_lift. intros a [= <-].
  unfold fresh, w_vregs. cbn. rewrite Nat2Z.id, insert_app_r_alt, Nat.sub_diag by lia. cbn.
  apply (H (mkVReg (IN_REG c) true (vreg_type v) (live_range_start v) (live_range_end v))); done.
Qed.

Lemma runs_pre_alloced c w g M (Q : AsmValue -> GenState -> Machine -> Prop) : good_width w ->
  reg_class_is_gpr c = true ->
  (forall v, int_vreg v -> fresh g < 2 ^ 31 -> Q (reg_value w w (fresh g)) (after_vreg g v) M) ->
  runs (pre_alloced_vreg c w) g M Q.
Proof. intros Hw Hc H. apply runs_pre_alloced_in; auto. Qed.

Lemma in_vreg_fresh g M v w : int_vreg v -> in_vreg (after_vreg g v) M (fresh g) w (wrap w (regs M (fresh g))).
Proof.
  intros Hv. split; [unfold fresh; lia |]. split; [| done]. exists v. split; [| done].
  unfold after_vreg, fresh. cbn. rewrite Nat2Z.id, lookup_app_r, Nat.sub_diag by done. done.
Qed.

(** An integer register as a destination. *)
Definition is_int_dest (g : GenState) (n : Z) : Prop :=
  0 <= n /\ exists v, g_vregs g !! Z.to_nat n = Some v /\ int_vreg v.

Lemma int_not_float g n w vw : is_int_dest g n -> asm_value_is_float (reg_value w vw n) g = Ok (false, g).
Proof.
  intros (Hn & v & Ev & Hv). unfold asm_value_is_float. cbn. unfold load_vreg.
  unfold mbind, st_bind, get, lift. cbn. unfold ref. destruct (Z.ltb_spec n 0); [lia |]. rewrite Ev. cbn.
  by rewrite Hv.
Qed.

Lemma holds_not_float g M a w z : holds g M a w z -> asm_value_is_float a g = Ok (false, g).
Proof.
  intros [Hd H]. destruct a as [d [[rw vw []]| |[]]]; try done; cbn in Hd; subst d; cbn in H; try done.
  destruct H as [-> (Hn & Hv & _)]. by apply int_not_float.
Qed.

Lemma runs_mov g M n w vw a z (Q : nat -> GenState -> Machine -> Prop) :
  is_int_dest g n -> holds g M a w z ->
  (forall k g', same_but_code g g' -> Q k g' (set_reg M n (merge w (regs M n) z))) ->
  runs (emit_mov (reg_value w vw n) a) g M Q.
Proof.
  intros Hn Ha HQ. unfold emit_mov. cbn [is_const reg_value value_u negb].
  assert (Hw : same_width (reg_value w vw n) a = true).
  { unfold same_width. cbn. destruct Ha as [Hd H]. unfold as_register. destruct (value_u a) as [[rw v2 []]| |]; try done.
    destruct H as [-> _]. cbn. by rewrite Z.eqb_refl, orb_true_r. }
  rewrite Hw. rlift. rlift.
  rbind. apply runs_silent. intros b1 g1 E1 _ _. rewrite (int_not_float g n w vw Hn) in E1. injection E1 as <- <-.
  split; [done |]. split; [done |].
  rbind. apply runs_silent. intros b2 g2 E2 _ _. rewrite (holds_not_float _ _ _ _ _ Ha) in E2. injection E2 as <- <-.
  split; [done |]. split; [done |]. cbn [orb].
  apply runs_emit with (M' := set_reg M n (merge w (regs M n) z)); [| done].
  unfold step. cbn [op args vreg_deps]. cbn [reg_width as_register value_u reg_value mbind option_bind width].
  assert (is_Some (read M w (reg_value w vw n))) as [x Hx] by (cbn; rewrite Z.eqb_refl; eauto).
  unfold reg_value in *. rewrite Hx. cbn [mbind option_bind]. rewrite (holds_read _ _ _ _ _ Ha). done.
Qed.

(** The general form of an instruction on a register and an operand. *)
Lemma step_binary o M n w vw a x y z : binary_result o x y = Some z ->
  read M w (reg_value w vw n) = Some x -> read M w a = Some y ->
  step (mkAsmInstr o [reg_value w vw n; a] [] None) M = Some (set_reg M n (merge w (regs M n) z), None).
Proof.
  intros Ho Hx Hy. unfold step. cbn [op args vreg_deps].
  destruct o; try done; cbn [reg_width as_register value_u reg_value mbind option_bind width];
    unfold reg_value in *; rewrite Hx; cbn [mbind option_bind]; rewrite Hy; cbn in *; by simplify_eq.
Qed.

Lemma fresh_is_dest g v : int_vreg v -> is_int_dest (after_vreg g v) (fresh g).
Proof. intros Hv. destruct (in_vreg_fresh g (mkMachine (fun _ => 0) (mkFlags false false false false)) v 64 Hv) as (? & (u & ? & ?) & _). split; [done | by exists u]. Qed.
Lemma is_dest_same g g' n : same_but_code g g' -> is_int_dest g n -> is_int_dest g' n.
Proof. intros H (? & v & Ev & ?). split; [done |]. exists v. by rewrite (sb_vregs _ _ H). Qed.
Lemma is_dest_prefix g g' n : g_vregs g `prefix_of` g_vregs g' -> is_int_dest g n -> is_int_dest g' n.
Proof. intros H (? & v & Ev & ?). split; [done |]. exists v. split; [by eapply prefix_lookup_Some | done]. Qed.
Lemma in_vreg_dest g M n w z : in_vreg g M n w z -> is_int_dest g n.
Proof. intros (? & (v & ? & ?) & ?). split; [done | by exists v]. Qed.
Lemma dest_in_vreg g M n w z : is_int_dest g n -> wrap w (regs M n) = z -> in_vreg g M n w z.
Proof. intros (? & v & ? & ?) E. split; [done |]. split; [by exists v | done]. Qed.
Lemma holds_reg g M n w vw z : is_int_dest g n -> wrap w (regs M n) = z -> holds g M (reg_value w vw n) w z.
Proof. intros. split; [done |]. cbn. split; [done |]. by apply dest_in_vreg. Qed.
Lemma set_reg_same M n x : regs (set_reg M n x) n = x.
Proof. cbn. by rewrite Z.eqb_refl. Qed.

(** ** Comparisons *)

Lemma sgn_low w x : 0 < w -> 0 <= x < 2 ^ (w - 1) -> sgn w x = x.
Proof. intros Hw Hx. apply sgn_small; lia. Qed.
Lemma sgn_high w x : 0 < w -> 2 ^ (w - 1) <= x < 2 ^ w -> sgn w x = x - 2 ^ w.
Proof. intros Hw Hx. unfold sgn. rewrite wrap_small by lia. destruct (Z.ltb_spec x (2 ^ (w - 1))); lia. Qed.

Lemma top_bit w x : 0 < w -> 0 <= x < 2 ^ w -> Z.testbit x (w - 1) = (2 ^ (w - 1) <=? x).
Proof.
  intros Hw Hx. assert (E : 2 ^ w = 2 * 2 ^ (w - 1)) by (rewrite <- Z.pow_succ_r by lia; f_equal; lia).
  rewrite Z.testbit_eqb by lia. pose proof (pow2_pos (w - 1) ltac:(lia)).
  destruct (Z.leb_spec (2 ^ (w - 1)) x).
  - rewrite <- (Z.div_unique x (2 ^ (w - 1)) 1 (x - 2 ^ (w - 1))) by lia. done.
  - by rewrite Z.div_small by lia.
Qed.

(** The difference of two w-bit numbers, wrapped. *)
Lemma wrap_sub w a b : 0 < w -> 0 <= a < 2 ^ w -> 0 <= b < 2 ^ w ->
  wrap w (a - b) = if a <? b then a - b + 2 ^ w else a - b.
Proof.
  intros Hw Ha Hb. unfold wrap. destruct (Z.ltb_spec a b).
  - rewrite <- (Z.mod_add (a - b) 1) by lia. rewrite Z.mul_1_l. apply Z.mod_small; lia.
  - apply Z.mod_small; lia.
Qed.

Lemma signed_less w a b : 0 < w -> 0 <= a < 2 ^ w -> 0 <= b < 2 ^ w ->
  negb (Bool.eqb (SF (compare_flags w a b)) (OF (compare_flags w a b))) = (sgn w a <? sgn w b).
Proof.
  intros Hw Ha Hb. unfold compare_flags. cbn [SF OF].
  assert (E : 2 ^ w = 2 * 2 ^ (w - 1)) by (rewrite <- Z.pow_succ_r by lia; f_equal; lia).
  rewrite top_bit by (try apply wrap_bound; lia). rewrite (wrap_sub w a b) by done.
  set (H := 2 ^ (w - 1)) in *.
  assert (S : forall x, 0 <= x < 2 ^ w -> sgn w x = if x <? H then x else x - 2 ^ w).
  { intros x Hx. destruct (Z.ltb_spec x H); [apply sgn_low | apply sgn_high]; fold H; lia. }
  rewrite (S a), (S b) by done. destruct (Z.ltb_spec a b); rewrite S by lia; zcases; cbn; lia.
Qed.

Lemma flags_equal w a b : 0 < w -> 0 <= a < 2 ^ w -> 0 <= b < 2 ^ w -> ZF (compare_flags w a b) = (a =? b).
Proof. intros Hw Ha Hb. cbn. rewrite wrap_sub by done. zcases. Qed.

Lemma signed_equal w a b : 0 < w -> 0 <= a < 2 ^ w -> 0 <= b < 2 ^ w -> (sgn w a =? sgn w b) = (a =? b).
Proof.
  intros Hw Ha Hb. destruct (Z.eqb_spec a b) as [->|]; [lia |]. apply Z.eqb_neq. intros E.
  apply (f_equal (wrap w)) in E. rewrite !wrap_sgn, !wrap_small in E by lia. lia.
Qed.

(** The condition the selector picks for a comparison holds after [CMP]. *)
Lemma condition_correct o cmp w a b : 0 < w -> 0 <= a < 2 ^ w -> 0 <= b < 2 ^ w ->
  o = set_op cmp \/ o = jump_op cmp ->
  condition_met o (compare_flags w a b) = Some (cmp_holds cmp w a b).
Proof.
  intros Hw Ha Hb Ho. pose proof (signed_less w a b Hw Ha Hb) as L.
  pose proof (flags_equal w a b Hw Ha Hb) as Eq. pose proof (signed_equal w a b Hw Ha Hb) as SEq.
  assert (C : CF (compare_flags w a b) = (a <? b)) by done.
  assert (E : Bool.eqb (SF (compare_flags w a b)) (OF (compare_flags w a b)) = negb (sgn w a <? sgn w b))
    by (rewrite <- L; symmetry; apply negb_involutive).
  assert (R : condition_met o (compare_flags w a b) = condition_met (set_op cmp) (compare_flags w a b))
    by (destruct Ho as [-> | ->]; by destruct cmp).
  rewrite R. clear R L Ho. generalize dependent (compare_flags w a b). intros [z s c o2] Eq C E. cbn in *.
  destruct cmp; cbn; rewrite ?E, ?Eq, ?C; f_equal; try done.
  1-4: rewrite <- ?SEq; generalize (sgn w a), (sgn w b); intros.
  all: clear; zcases; done.
Qed.

Lemma flip_correct cmp w a b : cmp_holds (flip_cmp cmp) w b a = cmp_holds cmp w a b.
Proof. destruct cmp; cbn; try done; by rewrite Z.eqb_sym. Qed.

Lemma invert_correct cmp w a b : cmp_holds (invert_cmp cmp) w a b = negb (cmp_holds cmp w a b).
Proof. destruct cmp; cbn; rewrite ?negb_involutive; try done; zcases. Qed.

(** ** The IR seen by the selector *)

(** An instruction without the register it was given. *)
Definition strip (x : IrInstr) : IrInstr := mkInstr (instr_id x) (instr_type x) (instr_op x) 0 (instr_u x).
Definition same_ir (m m' : IrModule) : Prop := strip <$> instrs m = strip <$> instrs m'.

Lemma same_ir_lookup m m' i x : same_ir m m' -> instrs m !! i = Some x ->
  exists x', instrs m' !! i = Some x' /\ strip x' = strip x.
Proof.
  unfold same_ir. intros H E. apply (f_equal (lookup i)) in H. rewrite !list_lookup_fmap, E in H. cbn in H.
  destruct (instrs m' !! i) as [x'|]; [| done]. exists x'. cbn in H. split; [done | congruence].
Qed.

Lemma same_ir_set m i n : same_ir m (set_instrs m (alter (fun x =>
  mkInstr (instr_id x) (instr_type x) (instr_op x) n (instr_u x)) i (instrs m))).
Proof.
  unfold same_ir. cbn. apply list_eq. intros j. rewrite !list_lookup_fmap.
  destruct (decide (i = j)) as [<-|].
  - rewrite list_lookup_alter_eq. by destruct (instrs m !! i).
  - by rewrite list_lookup_alter_ne.
Qed.

Lemma eval_value_same arg m m' env v : same_ir m m' -> eval_value arg m env v = eval_value arg m' env v.
Proof.
  intros H. unfold eval_value. destruct (gpr_width _); [| done]. cbn. destruct (val_u v); try done.
  destruct (instrs m !! instr) as [x|] eqn:E.
  - destruct (same_ir_lookup _ _ _ _ H E) as (x' & -> & Es). cbn. injection Es as _ -> _ _. done.
  - destruct (instrs m' !! instr) as [x'|] eqn:E'; [| done].
    destruct (same_ir_lookup m' m instr x' ltac:(by symmetry) E') as (? & ? & _). congruence.
Qed.

Lemma eval_instr_same arg m m' env x x' : same_ir m m' -> strip x' = strip x ->
  eval_instr arg m env x = eval_instr arg m' env x'.
Proof.
  intros H [= _ Et Eo Eu]. unfold eval_instr. rewrite Et, Eo, Eu. destruct (gpr_width _); [| done]. cbn.
  destruct (instr_u x); try done; repeat (rewrite (eval_value_same arg m m') by done); done.
Qed.

Lemma eval_value_mono arg m env i z v r : env !! i = None -> eval_value arg m env v = Some r ->
  eval_value arg m (<[i := z]> env) v = Some r.
Proof.
  intros Hi. unfold eval_value. destruct (gpr_width _) as [w|]; [| done]. cbn. destruct (val_u v); try done.
  destruct (instrs m !! instr) as [x|]; [| done]. cbn. destruct (env !! instr) eqn:E; [| done]. cbn.
  rewrite lookup_insert_ne by congruence. by rewrite E.
Qed.

Lemma eval_instr_mono arg m env i z x r : env !! i = None -> eval_instr arg m env x = Some r ->
  eval_instr arg m (<[i := z]> env) x = Some r.
Proof.
  intros Hi. unfold eval_instr. destruct (gpr_width _); [| done]. cbn. destruct (instr_u x); try done.
  - destruct (eval_value arg m env arg0) eqn:E; [| done]. by rewrite (eval_value_mono _ _ _ _ _ _ _ Hi E).
  - destruct (eval_value arg m env arg1) eqn:E1; [| done]. cbn. destruct p.
    destruct (eval_value arg m env arg2) eqn:E2; [| done].
    by rewrite (eval_value_mono _ _ _ _ _ _ _ Hi E1), (eval_value_mono _ _ _ _ _ _ _ Hi E2).
  - destruct (eval_value arg m env arg1) eqn:E1; [| done]. cbn. destruct p.
    destruct (eval_value arg m env arg2) eqn:E2; [| done].
    by rewrite (eval_value_mono _ _ _ _ _ _ _ Hi E1), (eval_value_mono _ _ _ _ _ _ _ Hi E2).
Qed.

(** ** The simulation relation *)

Section Simulation.
(** The arguments of the function. *)
Context (arg : Z -> option Z).

(** Comparisons and casts get their code where they are used. *)
Definition is_lazy (o : IrOp) : bool := match o with OP_CMP | OP_CAST => true | _ => false end.

Definition arg_in_vreg (g : GenState) (M : Machine) (k a : Z) : Prop :=
  exists r n, arg_class_of (g_function g) k g = Ok (ARG_CLASS_REG r (Some n), g) /\
    in_vreg g M n 64 (wrap 64 a).

Definition instr_in_vreg (env : gmap nat Z) (g : GenState) (M : Machine) (i : nat) (z : Z) : Prop :=
  exists x w, instrs (g_ir g) !! i = Some x /\ gpr_width (instr_type x) = Some w /\
    eval_instr arg (g_ir g) env x = Some z /\
    (is_lazy (instr_op x) = true \/ in_vreg g M (vreg_number x) w z).

(** Every value of the environment is in its register. *)
Record sim (env : gmap nat Z) (g : GenState) (M : Machine) : Prop := {
  sim_args : forall k a, arg k = Some a -> arg_in_vreg g M k a;
  sim_instrs : forall i z, env !! i = Some z -> instr_in_vreg env g M i z;
  sim_vregs : fresh g <= 2 ^ 31
}.

Lemma arg_class_later g g' k c : g_call_seqs g' = g_call_seqs g -> g_function g' = g_function g ->
  arg_class_of (g_function g) k g = Ok (c, g) -> arg_class_of (g_function g') k g' = Ok (c, g').
Proof.
  intros Ec Ef. unfold arg_class_of, mbind, st_bind, get, lift. cbn. rewrite Ec, Ef.
  destruct (g_call_seqs g !! g_function g); cbn; [| done]. destruct (ref _ _); [| done]. cbn. by intros [= ->].
Qed.

Lemma sim_later env g M g' M' : later g M g' M' -> fresh g' <= 2 ^ 31 -> sim env g M -> sim env g' M'.
Proof.
  intros L Hn [Ha Hi _]. split; [| | done].
  - intros k a E. destruct (Ha k a E) as (r & n & Ec & Hv). exists r, n.
    split; [eapply arg_class_later; [apply L | apply L | done] | by eapply in_vreg_later].
  - intros i z E. destruct (Hi i z E) as (x & w & Ex & Hw & Ev & H). exists x, w.
    rewrite (l_ir _ _ _ _ L). split_and!; try done. destruct H as [H|H]; [by left |].
    right. by eapply in_vreg_later.
Qed.

Lemma eval_result_op m env x z : eval_instr arg m env x = Some z ->
  instr_op x ∈ [OP_BIT_XOR; OP_BIT_OR; OP_BIT_AND; OP_BIT_NOT; OP_NEG; OP_SHL; OP_SHR; OP_MUL; OP_DIV; OP_MOD;
                OP_ADD; OP_SUB; OP_CMP; OP_CAST; OP_ZEXT; OP_SEXT; OP_TRUNC].
Proof.
  unfold eval_instr. destruct (gpr_width _) as [w|]; [| done]. cbn. intros H.
  rewrite list_elem_of_In. cbn [In].
  destruct (instr_u x); try done.
  - destruct (eval_value _ _ _ _) as [[wa va]|]; [| done]. cbn in H.
    destruct (is_const_int arg0); destruct (instr_op x); tauto || done.
  - apply bind_Some in H as ([??] & _ & H). apply bind_Some in H as ([??] & _ & H).
    destruct (_ && _); [done |]. destruct (_ && _); [| done]. destruct (instr_op x); done || tauto.
  - apply bind_Some in H as ([??] & _ & H). apply bind_Some in H as ([??] & _ & H).
    destruct (is_const_int arg1 && is_const_int arg2); [done |].
    destruct (_ && _) eqn:B in H; [| done]. bsplit. case_bool_decide as D; [rewrite D; tauto | done].
Qed.

(** A comparison's value, spelled out. *)
Lemma eval_cmp m env x z : instr_op x = OP_CMP -> eval_instr arg m env x = Some z ->
  exists a b cmp w va vb, instr_u x = U_cmp a b cmp /\ eval_value arg m env a = Some (w, va) /\
    eval_value arg m env b = Some (w, vb) /\ z = Z.b2z (cmp_holds cmp w va vb) /\ gpr_width (instr_type x) = Some 32 /\
    is_const_int a && is_const_int b = false.
Proof.
  intros Ho. unfold eval_instr. destruct (gpr_width (instr_type x)) as [w|] eqn:Ew; [| done]. cbn. rewrite Ho.
  destruct (instr_u x) as [| a | a b | a b cmp | | | | | | |]; try done.
  - intros H. apply bind_Some in H as ([wa va] & _ & H). by destruct (is_const_int a).
  - intros H. apply bind_Some in H as ([wa va] & _ & H). apply bind_Some in H as ([wb vb] & _ & H).
    by repeat destruct (_ && _).
  - destruct (eval_value arg m env a) as [[wa va]|] eqn:Ea; [| done]. cbn.
    destruct (eval_value arg m env b) as [[wb vb]|] eqn:Eb; [| done]. cbn.
    destruct (is_const_int a && is_const_int b) eqn:K; [done |].
    destruct (_ && (w =? 32)) eqn:B; [| done]. intros [= <-]. bsplit. subst. by exists a, b, cmp, wb, va, vb.
Qed.

(** The environment follows from the instructions. *)
Definition consistent (m : IrModule) (env : gmap nat Z) : Prop :=
  forall i z, env !! i = Some z -> exists x, instrs m !! i = Some x /\ eval_instr arg m env x = Some z.

Lemma sim_consistent env g M : sim env g M -> consistent (g_ir g) env.
Proof. intros [_ Hi _] i z E. destruct (Hi i z E) as (x & w & ? & ? & ? & _). by exists x. Qed.

Lemma eval_value_instr m env v j w z : val_u v = IR_VALUE_INSTR j -> eval_value arg m env v = Some (w, z) ->
  env !! j = Some z.
Proof.
  intros Ev. unfold eval_value. rewrite Ev. destruct (gpr_width _); [| done]. cbn.
  destruct (instrs m !! j); [| done]. cbn. destruct (env !! j); [| done]. cbn. case_bool_decide; [| done].
  by intros [= _ ->].
Qed.
Lemma eval_value_const m env v c w z : val_u v = IR_VALUE_CONST_INT c -> eval_value arg m env v = Some (w, z) ->
  good_width w /\ z = wrap w c.
Proof.
  intros Ev. unfold eval_value. rewrite Ev. destruct (gpr_width _) as [w'|] eqn:E; [| done]. cbn.
  intros [= <- <-]. split; [by eapply gpr_width_good | done].
Qed.

Lemma wrap_bool w b : good_width w -> wrap w (Z.b2z b) = Z.b2z b.
Proof. intros H%good_width_cases. apply wrap_small. destruct b; cbn; destruct H as [-> | [-> | [-> | ->]]]; lia. Qed.

(** The comparison found at the end of a chain, negated as reported, has the value
    of the comparison at its head. *)
Lemma inner_cmp_correct m env n i x z inv j : consistent m env ->
  get_inner_cmp m n i = Ok (inv, j) -> instrs m !! i = Some x -> instr_op x = OP_CMP -> env !! i = Some z ->
  exists y b, instrs m !! j = Some y /\ instr_op y = OP_CMP /\ env !! j = Some (Z.b2z b) /\ z = Z.b2z (xorb inv b).
Proof.
  intros Hc. revert i x z inv. induction n as [|n IH]; [done |]. intros i x z inv E Ex Ho Ez. cbn in E.
  rewrite Ex in E. cbn in E. rewrite bool_decide_true in E by done. cbn in E.
  destruct (Hc i z Ez) as (x' & Ex' & Ev). assert (x' = x) as -> by congruence.
  destruct (eval_cmp _ _ _ _ Ho Ev) as (a & b & cmp & w & va & vb & Hu & Ea & Eb & -> & _ & _).
  assert (Here : Ok (false, i) = Ok (inv, j) :> res (bool * nat) ->
    exists y b0, instrs m !! j = Some y /\ instr_op y = OP_CMP /\ env !! j = Some (Z.b2z b0) /\
      Z.b2z (cmp_holds cmp w va vb) = Z.b2z (xorb inv b0)).
  { intros [= <- <-]. exists x, (cmp_holds cmp w va vb). split_and!; [done | done | done |]. by destruct (cmp_holds _ _ _ _). }
  unfold get_cmp in E. rewrite Hu in E. cbn in E. destruct (negb (is_eq_or_neq cmp)) eqn:Heq; [by apply Here |].
  (* one step of the chain, whichever side the constant is on *)
  assert (Step : forall c v vc vv, wrap w c = vc -> (w = 8 \/ w = 16 \/ w = 32 \/ w = 64) ->
    eval_value arg m env v = Some (w, vv) -> cmp_holds cmp w va vb = cmp_holds cmp w vv vc ->
    match val_u v with
    | IR_VALUE_INSTR inner =>
        if negb (c =? 0) && negb (c =? 1) then Ok (false, i)
        else y ← of_opt (instrs m !! inner);
          if negb (bool_decide (instr_op y = OP_CMP)) then Ok (false, i)
          else '(invert, out) ← get_inner_cmp m n inner;
            Ok (if bool_decide (cmp = CMP_EQ) && (c =? 0) || bool_decide (cmp = CMP_NEQ) && (c =? 1)
                then negb invert else invert, out)
    | _ => Ok (false, i)
    end = Ok (inv, j) ->
    exists y b0, instrs m !! j = Some y /\ instr_op y = OP_CMP /\ env !! j = Some (Z.b2z b0) /\
      Z.b2z (cmp_holds cmp w va vb) = Z.b2z (xorb inv b0)).
  { intros c v vc vv Hvc Hw Evv Hsame E'. destruct (val_u v) as [| | | inner |] eqn:Hv; try by apply Here.
    destruct (negb (c =? 0) && negb (c =? 1)) eqn:Hc01; [by apply Here |].
    destruct (instrs m !! inner) as [y|] eqn:Ey; [| done]. cbn in E'.
    case_bool_decide as Hy; cbn in E'; [| by apply Here].
    apply res_bind_Ok in E' as ([inv' out] & Ei & [= <- <-]).
    destruct (IH inner y vv inv' Ei Ey Hy (eval_value_instr _ _ _ _ _ _ Hv Evv)) as (y' & b0 & ? & ? & ? & ->).
    exists y', b0. split_and!; try done. rewrite Hsame. clear - Hvc Hw Hc01 Heq.
    assert (c = 0 \/ c = 1) as [-> | ->] by (apply andb_false_iff in Hc01; lia);
      assert (vc = 0 \/ vc = 1) by (subst vc; destruct Hw as [-> | [-> | [-> | ->]]]; cbn; auto);
      subst vc; destruct Hw as [-> | [-> | [-> | ->]]]; destruct cmp; try done; by destruct inv', b0. }
  clear IH.
  destruct (val_u a) as [c| | | |] eqn:Hva; destruct (val_u b) as [c'| | | |] eqn:Hvb; try done.
  all: first [by apply Here | idtac].
  - destruct (eval_value_const _ _ _ _ _ _ Hva Ea) as [Hw ->].
    apply (Step c b _ vb eq_refl (good_width_cases _ Hw) Eb); [| by rewrite Hvb].
    by destruct cmp; try done; cbn; rewrite Z.eqb_sym.
  - destruct (eval_value_const _ _ _ _ _ _ Hvb Eb) as [Hw ->].
    by eapply (Step _ a _ va eq_refl (good_width_cases _ Hw) Ea); [| rewrite Hva].
Qed.

(** ** Selected values *)

Lemma runs_bound {A} (m : gen A) g M (Q : A -> GenState -> Machine -> Prop) :
  runs m g M (fun a g' M' => fresh g' <= 2 ^ 31 -> Q a g' M') -> runs m g M Q.
Proof.
  intros H a g' E Hb Hn. destruct (H a g' E Hb Hn) as (c & M' & ? & ? & ? & HQ). exists c, M'.
  split_and!; try done. by apply HQ.
Qed.

Lemma runs_load_instr i g M x (Q : IrInstr -> GenState -> Machine -> Prop) :
  instrs (g_ir g) !! i = Some x -> Q x g M -> runs (load_instr i) g M Q.
Proof.
  intros Ex H. unfold load_instr. rbind. apply runs_get. rewrite Ex. apply runs_lift. by intros a [= <-].
Qed.

Lemma with_width_reg w vw n v : good_width v -> with_width (reg_value w vw n) v = reg_value v vw n.
Proof. intros H. unfold with_width. cbn. by rewrite u8_width. Qed.

Lemma runs_maybe_move g M a w z sext (Q : AsmValue -> GenState -> Machine -> Prop) : good_width w ->
  holds g M a w z ->
  (forall a' g' M', later g M g' M' -> holds g' M' a' w z -> flags M' = flags M -> Q a' g' M') ->
  runs (maybe_move_const_to_reg a w sext) g M Q.
Proof.
  intros Hw Ha HQ. assert (Stay : runs (mret a) g M Q) by (apply runs_ret, HQ; [apply later_refl | done | done]).
  unfold maybe_move_const_to_reg. destruct (value_u a) as [r|r o|[c| |]] eqn:Ea; try done.
  destruct (if sext then i32 c =? i64 c else u32 c =? c); [done |].
  assert (g64 : good_width 64) by (unfold good_width; set_solver).
  rbind. apply runs_new_asm_vreg; [done |]. intros v Hv _.
  assert (Hc : holds (after_vreg g v) M a 64 (wrap 64 c)) by (destruct Ha as [Hd _]; split; [done | by rewrite Ea]).
  rbind. eapply runs_mov; [by apply fresh_is_dest | exact Hc |]. intros k g' Hs. apply runs_ret.
  rewrite with_width_reg by done. apply HQ.
  - apply later_write; [| done]. eapply later_emit; [by apply later_vreg, later_refl | done].
  - apply holds_reg; [by eapply is_dest_same, fresh_is_dest |]. rewrite set_reg_same.
    rewrite wrap_merge by (try done; apply good_width_cases in Hw; lia).
    destruct Ha as [_ Ha]. rewrite Ea in Ha. rewrite wrap_le by (apply good_width_cases in Hw; lia). done.
  - done.
Qed.

Lemma vreg_of_type_ok n t w : gpr_width t = Some w -> asm_vreg_of_type n t = Ok (reg_value w w n).
Proof.
  intros H. pose proof (gpr_width_good _ _ H) as Hw. pose proof (type_bits_width _ _ H) as Hb.
  unfold asm_vreg_of_type. destruct t; try done; rewrite Hb; cbn [mbind res_bind]; rewrite u8_width by done; by apply asm_vreg_ok.
Qed.

(** The operand is not register [n]. *)
Definition avoids (n : Z) (a : AsmValue) : Prop :=
  match value_u a with ASM_VALUE_REGISTER r => reg_u r <> V_REG n | _ => True end.

(** No value of the environment is in register [n]. *)
Definition unused (env : gmap nat Z) (g : GenState) (n : Z) : Prop :=
  (forall i z x, env !! i = Some z -> instrs (g_ir g) !! i = Some x -> is_lazy (instr_op x) = false ->
     vreg_number x <> n) /\
  (forall k a r m, arg k = Some a -> arg_class_of (g_function g) k g = Ok (ARG_CLASS_REG r (Some m), g) -> m <> n).

(** What [asm_value] promises to the code that calls it. *)
Record value_ok (env : gmap nat Z) (v : IrValue) (g : GenState) (M : Machine) (w z : Z)
    (a : AsmValue) (g' : GenState) (M' : Machine) : Prop := {
  v_later : later g M g' M';
  v_holds : holds g' M' a w z;
  v_const : is_const_int v = false -> is_const a = false;
  v_avoids : forall n, n < fresh g -> unused env g n -> avoids n a
}.
Definition value_spec (env : gmap nat Z) (rec : IrValue -> gen AsmValue) : Prop :=
  forall v g M w z, sim env g M -> eval_value arg (g_ir g) env v = Some (w, z) ->
  runs (rec v) g M (value_ok env v g M w z).

(** The specification, for a goal in the middle of a computation. *)
Lemma runs_value env rec v g M w z (Q : AsmValue -> GenState -> Machine -> Prop) : value_spec env rec ->
  sim env g M -> eval_value arg (g_ir g) env v = Some (w, z) ->
  (forall a g' M', value_ok env v g M w z a g' M' -> sim env g' M' -> Q a g' M') ->
  runs (rec v) g M Q.
Proof.
  intros Hr Hs Ev HQ. apply runs_bound. eapply runs_mono; [by apply Hr |].
  intros a g' M' V Hb. apply HQ; [done |]. eapply sim_later; [apply V | done | done].
Qed.

Lemma eval_value_gpr m env v w z : eval_value arg m env v = Some (w, z) -> gpr_width (val_type v) = Some w.
Proof.
  unfold eval_value. destruct (gpr_width (val_type v)) as [w'|]; [| done]. cbn. intros H. f_equal.
  destruct (val_u v); try done.
  - by injection H.
  - destruct (arg _); [| done]. by injection H.
  - destruct (instrs m !! _); [| done]. cbn in H. destruct (env !! _); [| done]. cbn in H.
    case_bool_decide; [| done]. by injection H.
Qed.

Lemma eval_value_width m env v w z : eval_value arg m env v = Some (w, z) -> good_width w.
Proof. intros H. eapply gpr_width_good, eval_value_gpr, H. Qed.

Lemma later_ir_value g M g' M' env v : later g M g' M' ->
  eval_value arg (g_ir g') env v = eval_value arg (g_ir g) env v.
Proof. intros L. by rewrite (l_ir _ _ _ _ L). Qed.

Lemma step_set c w x y M n vw :
  condition_met (set_op c) (flags M) = Some (cmp_holds c w x y) ->
  step (mkAsmInstr (set_op c) [reg_value 8 vw n] [] None) M
    = Some (set_reg M n (merge 8 (regs M n) (Z.b2z (cmp_holds c w x y))), None).
Proof.
  intros H. unfold step. cbn [op args vreg_deps].
  destruct c; cbn [set_op] in *; rewrite H; done.
Qed.

Lemma step_cmp M a b w x y : read M w a = Some x -> read M w b = Some y -> reg_width a = Some w ->
  step (mkAsmInstr CMP [a; b] [] None) M = Some (mkMachine (regs M) (compare_flags w x y), None).
Proof. intros Hx Hy Hw. unfold step. cbn [op args vreg_deps]. rewrite Hw. cbn. rewrite Hx. cbn. by rewrite Hy. Qed.

(** The two operands and the condition of a comparison that may have been flipped
    and inverted. *)
Lemma flipped_operands m env a b cmp inv w va vb cmp' a' b' : 
  maybe_flip_conditional cmp a b = (cmp', a', b') ->
  eval_value arg m env a = Some (w, va) -> eval_value arg m env b = Some (w, vb) ->
  exists va' vb', eval_value arg m env a' = Some (w, va') /\ eval_value arg m env b' = Some (w, vb') /\
    cmp_holds (if inv : bool then invert_cmp cmp' else cmp') w va' vb' = xorb inv (cmp_holds cmp w va vb) /\
    (val_type a' = val_type a \/ val_type a' = val_type b).
Proof.
  unfold maybe_flip_conditional. intros E Ea Eb. destruct (is_const_int a); injection E as <- <- <-.
  - exists vb, va. split_and!; [done | done | | by right].
    rewrite <- (flip_correct cmp w va vb). destruct inv; rewrite ?invert_correct; by destruct (cmp_holds _ _ _ _).
  - exists va, vb. split_and!; [done | done | | by left].
    destruct inv; rewrite ?invert_correct; by destruct (cmp_holds _ _ _ _).
Qed.

Lemma holds_width g M a w z r : holds g M a w z -> as_register a = Some r -> reg_width a = Some w.
Proof.
  intros [_ H] Hr. unfold reg_width. rewrite Hr. cbn. unfold as_register in Hr.
  destruct (value_u a) as [[rw vw []]| |]; try done. injection Hr as <-. cbn. by destruct H as [-> _].
Qed.

Lemma register_width g M a w z r : holds g M a w z -> as_register a = Some r -> width r = w.
Proof. intros H Er. pose proof (holds_width _ _ _ _ _ _ H Er) as Hw. unfold reg_width in Hw. rewrite Er in Hw. by injection Hw. Qed.

Lemma runs_inner_cmp env i g M x z (Q : bool * nat -> GenState -> Machine -> Prop) : sim env g M ->
  instrs (g_ir g) !! i = Some x -> instr_op x = OP_CMP -> env !! i = Some z ->
  (forall inv j y b, instrs (g_ir g) !! j = Some y -> instr_op y = OP_CMP -> env !! j = Some (Z.b2z b) ->
     z = Z.b2z (xorb inv b) -> Q (inv, j) g M) ->
  runs (inner_cmp i) g M Q.
Proof.
  intros Hs Ex Ho Ez HQ. unfold inner_cmp. rbind. apply runs_get. apply runs_lift. intros [inv j] E.
  destruct (inner_cmp_correct _ _ _ _ _ _ _ _ (sim_consistent _ _ _ Hs) E Ex Ho Ez) as (y & b & ? & ? & ? & ?).
  by eapply HQ.
Qed.

(** The operands of the comparison that is compiled, after flipping. *)
Lemma inner_operands env g M j y b : sim env g M -> instrs (g_ir g) !! j = Some y -> instr_op y = OP_CMP ->
  env !! j = Some (Z.b2z b) -> exists p q cmp w vp vq, instr_u y = U_cmp p q cmp /\
    eval_value arg (g_ir g) env p = Some (w, vp) /\ eval_value arg (g_ir g) env q = Some (w, vq) /\
    b = cmp_holds cmp w vp vq /\ is_const_int p && is_const_int q = false.
Proof.
  intros Hs Ey Hy Eb. destruct (sim_consistent _ _ _ Hs j _ Eb) as (y' & Ey' & Ev). assert (y' = y) as -> by congruence.
  destruct (eval_cmp _ _ _ _ Hy Ev) as (p & q & cmp & w & vp & vq & Hu & Ep & Eq & Hb & _ & K).
  exists p, q, cmp, w, vp, vq. split_and!; try done. by destruct b, (cmp_holds cmp w vp vq).
Qed.

Lemma relational_correct env rec i g M x z : (forall v, grows (rec v)) -> value_spec env rec -> sim env g M ->
  instrs (g_ir g) !! i = Some x -> instr_op x = OP_CMP -> env !! i = Some z ->
  runs (asm_gen_relational_instr rec i) g M (fun a g' M' => later g M g' M' /\ holds g' M' a 32 z /\ is_const a = false /\
    forall n, n < fresh g -> avoids n a).
Proof.
  intros Hg Hrec Hs Ex Ho Ez. unfold asm_gen_relational_instr, inner_cmp, load_instr, new_vreg, emit_instr1, emit_instr2.
  rbind. apply (runs_load_instr i g M x); [done |]. rlift.
  rbind. eapply runs_inner_cmp; [done | done | done | done |]. intros inv j y b Ey Hy Eb ->.
  rbind. apply (runs_load_instr j g M y); [done |].
  destruct (inner_operands _ _ _ _ _ _ Hs Ey Hy Eb) as (p & q & cmp & w & vp & vq & Hu & Ep & Eq & -> & Hk).
  unfold get_cmp. rewrite Hu. rbind. apply runs_lift. intros ? [= <-].
  destruct (maybe_flip_conditional cmp p q) as [[cmp' p'] q'] eqn:Ef.
  destruct (flipped_operands _ _ _ _ _ inv _ _ _ _ _ _ Ef Ep Eq) as (vp' & vq' & Ep' & Eq' & Hc & _).
  set (cmp2 := if inv then invert_cmp cmp' else cmp') in *. pose proof (eval_value_width _ _ _ _ _ Ep) as Hw.
  rbind. eapply (runs_value env); [done | done | done |]. intros a1 g1 M1 [L1 H1 _ _] Hs1.
  rbind. eapply (runs_value env); [done | done | by rewrite (later_ir_value _ _ _ _ _ _ L1) |].
  intros a2 g2 M2 [L2 H2 _ _] Hs2. assert (H1' : holds g2 M2 a1 w vp') by (by eapply holds_later).
  rbind. apply runs_append. intros v Hv _. set (n := fresh g2).
  assert (L3 : later g2 M2 (after_vreg g2 v) M2) by (apply later_vreg, later_refl).
  rbind. apply runs_lift. intros r Er. destruct (as_register a1) as [r1|] eqn:Ea1; [| done]. injection Er as <-.
  rewrite (register_width _ _ _ _ _ _ H1 Ea1).
  assert (g32 : good_width 32) by (unfold good_width; set_solver).
  assert (g8 : good_width 8) by (unfold good_width; set_solver).
  rewrite !asm_vreg_ok by done. rbind. apply runs_lift. intros ? [= <-].
  pose proof (fresh_is_dest g2 v Hv) as D.
  (* the register is cleared *)
  rbind. eapply runs_emit; [eapply step_binary; cbn; rewrite ?Z.eqb_refl; done |]. intros k3 g3 S3.
  rewrite Z.lxor_nilpotent. set (M3 := set_reg M2 n (merge 32 (regs M2 n) 0)).
  assert (L4 : later g2 M2 g3 M3) by (apply later_write; [by eapply later_emit | unfold n; done]).
  rbind. rewrite Hy. apply runs_lift. intros o [= <-].
  (* the comparison *)
  rbind. eapply (runs_maybe_move g3 M3 a2 w vq'); [done | by eapply holds_later |]. intros a2' g4 M4 L5 H2' _.
  rbind. eapply runs_emit.
  { eapply step_cmp; [eapply holds_read, holds_later, holds_later; [exact L5 | exact L4 | exact H1'] |
      by eapply holds_read | by eapply holds_width]. }
  intros k5 g5 S5. rbind. apply runs_lift. intros ? [= <-].
  rbind. eapply runs_emit.
  { eapply (step_set cmp2 w vp' vq'). cbn [flags]. apply condition_correct; [| | | by left].
    - apply good_width_cases in Hw. lia.
    - eapply holds_bound; [| exact H1']. apply good_width_cases in Hw. lia.
    - eapply holds_bound; [| exact H2]. apply good_width_cases in Hw. lia. }
  intros k6 g6 S6. apply runs_ret. rewrite Hc. cbn [regs].
  assert (L6 : later g3 M3 g6 (mkMachine (regs M4) (compare_flags w vp' vq'))).
  { eapply later_emit; [eapply later_emit; [apply later_flags; exact L5 | done] | done]. }
  assert (D3 : is_int_dest g3 n) by (by eapply is_dest_same).
  assert (E4 : regs M4 n = 0).
  { assert (n < fresh g3) by (destruct D3 as (? & ? & E & _); apply lookup_lt_Some in E; unfold fresh; lia).
    rewrite (l_regs _ _ _ _ L5 n) by (unfold fresh in *; destruct D3; lia). unfold M3. by rewrite set_reg_same. }
  pose proof (later_trans _ _ _ _ _ _ L1 L2) as L. split_and!; [| | done |].
  - apply later_write; [| by apply later_fresh in L].
    eapply later_trans; [exact L |]. eapply later_trans; [exact L4 | exact L6].
  - apply holds_reg; [eapply is_dest_prefix; [apply (l_vregs _ _ _ _ L6) | done] |].
    rewrite set_reg_same. cbn [regs]. rewrite E4. by destruct (xorb inv (cmp_holds cmp w vp vq)).
  - intros m Hm. cbn. apply later_fresh in L. intros [= Em]. unfold n in Em. lia.
Qed.

Lemma runs_arg env g M k a t w : sim env g M -> arg k = Some a -> gpr_width t = Some w ->
  runs (asm_value_arg k t) g M (fun v g' M' => later g M g' M' /\ holds g' M' v w (wrap w a) /\ is_const v = false /\
    forall n, unused env g n -> avoids n v).
Proof.
  intros Hs Ea Hw. destruct (sim_args _ _ _ Hs k a Ea) as (r & n & Ec & D).
  unfold asm_value_arg, new_vreg, emit_instr2. rbind. apply runs_get.
  apply runs_bind; [intros ?; grow |]. apply runs_silent. intros c g' E _ _. rewrite Ec in E. injection E as <- <-.
  split; [done |]. split; [done |]. rlift. destruct D as (Hn & D & Hr).
  injection H as <-. rewrite (vreg_of_type_ok _ _ _ Hw). apply runs_lift. intros ? [= <-].
  split; [apply later_refl |]. split; [| split; [done |]]; last first.
  { intros m [_ Hm]. cbn. intros [= ->]. by apply (Hm k a r m). }
  split; [done |]. cbn. split; [done |]. split; [done |]. split; [done |].
  rewrite <- (wrap_le w 64), Hr, wrap_le by (apply gpr_width_good, good_width_cases in Hw; lia). done.
Qed.

(** A cast reads fewer bits of the same operand. *)
Lemma cast_holds g M a v w z : good_width w -> good_width v -> w <= v -> holds g M a v z ->
  holds g M (match as_register a with Some _ => with_width a w | None => a end) w (wrap w z).
Proof.
  intros Hw%good_width_cases Hv%good_width_cases Hle [Hd H].
  unfold as_register, with_width. destruct (value_u a) as [[rw vw []]| |[]] eqn:Ea; try done.
  - destruct H as [-> (Hn & D & <-)]. split; [done |]. cbn. rewrite u8_width by (unfold good_width; set_solver).
    split; [done |]. split_and!; [done | done |]. rewrite wrap_le by lia. done.
  - split; [done |]. rewrite Ea. rewrite <- H, wrap_le by lia. done.
Qed.

Lemma u32_vreg g n : is_int_dest g n -> fresh g <= 2 ^ 31 -> u32 n = n.
Proof.
  intros (Hn & v & E & _) Hf. apply wrap_small. apply lookup_lt_Some in E. unfold fresh in Hf. lia.
Qed.

(** A value that [asm_value] computes at its use, or finds in a register. *)
Lemma eval_kind m env x z : eval_instr arg m env x = Some z ->
  instr_op x = OP_CMP \/ instr_op x = OP_CAST \/
  is_lazy (instr_op x) = false /\ forall A (l f c k d : A),
    match instr_op x with OP_LOCAL => l | OP_FIELD => f | OP_CMP | OP_CMPF => c | OP_CAST => k | _ => d end = d.
Proof.
  intros H%eval_result_op. rewrite list_elem_of_In in H. cbn in H.
  destruct (instr_op x); try (right; right; done); try (by left); try (by right; left); exfalso; intuition done.
Qed.

Lemma eval_cast m env x z w : instr_op x = OP_CAST -> eval_instr arg m env x = Some z ->
  gpr_width (instr_type x) = Some w ->
  exists a v va, instr_u x = U_arg a /\ eval_value arg m env a = Some (v, va) /\ w <= v /\ z = wrap w va /\
    is_const_int a = false.
Proof.
  intros Ho H Hw. unfold eval_instr in H. rewrite Hw, Ho in H. cbn in H.
  destruct (instr_u x) as [| a | a b | a b cmp | | | | | | |]; try done.
  - apply bind_Some in H as ([v va] & Ea & H). exists a, v, va. destruct (is_const_int a); [done |]. cbn in H.
    destruct (Z.leb_spec w v); [| done]. by injection H as <-.
  - apply bind_Some in H as ([? ?] & _ & H). apply bind_Some in H as ([? ?] & _ & H). by repeat destruct (_ && _).
  - apply bind_Some in H as ([? ?] & _ & H). apply bind_Some in H as ([? ?] & _ & H).
    destruct (is_const_int a && is_const_int b); [done |]. by rewrite andb_false_r in H.
Qed.

Lemma value_correct env n : value_spec env (asm_value_at n).
Proof.
  induction n as [|n IH]; intros v g M w z Hs Ev; [by intros ? ? [=] |]. cbn [asm_value_at]. unfold asm_value_body.
  pose proof (eval_value_width _ _ _ _ _ Ev) as Hw. unfold eval_value in Ev.
  destruct (gpr_width (val_type v)) as [w'|] eqn:Et; [| done]. cbn in Ev.
  destruct (val_u v) as [c|f|k|i|gl] eqn:Hv; try done.
  - injection Ev as -> <-. apply runs_ret. split; [apply later_refl | done | | done]. unfold is_const_int. by rewrite Hv.
  - destruct (arg k) as [a|] eqn:Ea; [| done]. injection Ev as -> <-.
    eapply runs_mono; [by eapply runs_arg |]. intros ? ? ? (? & ? & ? & ?). split; auto.
  - destruct (instrs (g_ir g) !! i) as [x|] eqn:Ex; [| done]. cbn in Ev.
    destruct (env !! i) as [z'|] eqn:Ez; [| done]. cbn in Ev. case_bool_decide as Hx; [| done]. injection Ev as -> ->.
    apply runs_bind; [intros y; unfold asm_value_local, asm_value_field, asm_value_cast, asm_gen_relational_instr,
      emit_instr1, emit_instr2, load_instr, inner_cmp, offset_of_field, load_fields, new_vreg; by grow |].
    apply (runs_load_instr i g M x); [done |].
    destruct (sim_instrs _ _ _ Hs i z Ez) as (x' & w' & Ex' & Hw' & Ei & Hl).
    assert (x' = x) as -> by congruence. assert (w' = w) as -> by congruence.
    destruct (eval_kind (g_ir g) env x z Ei) as [Ho | [Ho | [Hp ->]]].
    + destruct (eval_cmp _ _ _ _ Ho Ei) as (_ & _ & _ & _ & _ & _ & _ & _ & _ & _ & E32 & _).
      assert (w = 32) as -> by congruence. rewrite Ho. 
      eapply runs_mono; [eapply relational_correct; [apply grows_value | done..] |].
      intros ? ? ? (? & ? & ? & ?). split; auto.
    + rewrite Ho. unfold asm_value_cast. destruct (eval_cast _ _ _ _ _ Ho Ei Hx) as (a & u & va & Hu & Ea & Hle & -> & Hk).
      unfold get_arg. rewrite Hu. rbind. apply runs_lift. intros ? [= <-].
      rbind. eapply (runs_value env); [apply IH | done | done |]. intros b g1 M1 [L1 H1 Hb Av] _. specialize (Hb Hk).
      pose proof (cast_holds _ _ _ _ _ _ Hw (eval_value_width _ _ _ _ _ Ea) Hle H1) as Hc.
      assert (Av' : forall n, n < fresh g -> unused env g n -> avoids n (with_width b w)).
      { intros m Hm Hu'. specialize (Av m Hm Hu'). unfold avoids, with_width in *. by destruct (value_u b) eqn:E; rewrite ?E. }
      destruct (as_register b) eqn:Hr; [| by apply runs_ret]. rewrite (type_bits_width _ _ Hx).
      rbind. apply runs_lift. intros ? [= <-]. apply runs_ret. split; [done | done | | done]. intros _.
      unfold with_width, is_const, as_register in *. by destruct (value_u b).
    + destruct Hl as [Hl | D]; [congruence |]. rlift. pose proof (in_vreg_dest _ _ _ _ _ D) as Dd.
      rewrite (u32_vreg g _ Dd (sim_vregs _ _ _ Hs)), (vreg_of_type_ok _ _ _ Hx).
      apply runs_lift. intros ? [= <-]. split; [apply later_refl | | done |]; [split; [done |]; cbn; split; [done | exact D] |].
      intros m _ [Hm _]. cbn. intros [= E]. by apply (Hm i z x).
Qed.

Lemma asm_value_correct env : value_spec env asm_value.
Proof.
  intros v g M w z Hs Ev. unfold asm_value. rbind. apply runs_get. by apply (value_correct env (value_fuel (g_ir g))).
Qed.

(** ** Instructions *)

(** Like [later], for code that also gives its instruction a register. *)
Record extends (g : GenState) (M : Machine) (g' : GenState) (M' : Machine) : Prop := {
  e_function : g_function g' = g_function g;
  e_ret : g_ret_label g' = g_ret_label g;
  e_vregs : g_vregs g `prefix_of` g_vregs g';
  e_labels : g_labels g' = g_labels g;
  e_calls : g_call_seqs g' = g_call_seqs g;
  e_blocks : blocks (g_ir g') = blocks (g_ir g);
  e_regs : forall n, 0 <= n < fresh g -> regs M' n = regs M n
}.

Lemma later_extends g M g' M' : later g M g' M' -> extends g M g' M'.
Proof. intros []. split; congruence || done. Qed.
Lemma extends_trans g0 M0 g1 M1 g2 M2 : extends g0 M0 g1 M1 -> extends g1 M1 g2 M2 -> extends g0 M0 g2 M2.
Proof.
  intros [] []. split; try congruence; [by etransitivity |].
  intros n Hn. rewrite e_regs1; [auto |]. pose proof (prefix_length _ _ e_vregs0). unfold fresh in *. lia.
Qed.
Lemma extends_fresh g M g' M' : extends g M g' M' -> fresh g <= fresh g'.
Proof. intros []. pose proof (prefix_length _ _ e_vregs0). unfold fresh. lia. Qed.

(** [instr->vreg_number = n] in the module. *)
Definition renumber (i : nat) (n : Z) (m : IrModule) : IrModule :=
  set_instrs m (alter (fun x => mkInstr (instr_id x) (instr_type x) (instr_op x) n (instr_u x)) i (instrs m)).
Definition renumbered (x : IrInstr) (n : Z) : IrInstr :=
  mkInstr (instr_id x) (instr_type x) (instr_op x) n (instr_u x).

Lemma renumber_lookup i n m x : instrs m !! i = Some x -> instrs (renumber i n m) !! i = Some (renumbered x n).
Proof. intros E. cbn. by rewrite list_lookup_alter_eq, E. Qed.
Lemma renumber_other i j n m : i <> j -> instrs (renumber i n m) !! j = instrs m !! j.
Proof. intros E. cbn. by rewrite list_lookup_alter_ne. Qed.

(** The outcome of an instruction: its value joins the environment. *)
Record outcome (env : gmap nat Z) (i : nat) (z : Z) (g : GenState) (M : Machine) (g' : GenState) (M' : Machine)
  : Prop := {
  o_sim : sim (<[i := z]> env) g' M';
  o_extends : extends g M g' M';
  o_ir : same_ir (g_ir g) (g_ir g')
}.

Lemma in_vreg_extends g M g' M' n w z : extends g M g' M' -> in_vreg g M n w z -> in_vreg g' M' n w z.
Proof.
  intros L (Hn & (v & Ev & Ht) & <-). pose proof (lookup_lt_Some _ _ _ Ev).
  split; [done |]. split; [exists v; split; [by eapply prefix_lookup_Some, e_vregs | done] |].
  by rewrite (e_regs _ _ _ _ L) by (unfold fresh; lia).
Qed.
Lemma holds_extends g M g' M' a w z : extends g M g' M' -> holds g M a w z -> holds g' M' a w z.
Proof.
  intros L [Hd H]. split; [done |]. destruct (value_u a) as [[rw vw []]| |[]]; try done.
  destruct H as [-> H]. split; [done |]. by eapply in_vreg_extends.
Qed.

(** Changing the register of an instruction without a value. *)
Lemma sim_extends env g M g' M' i n : sim env g M -> extends g M g' M' -> g_ir g' = renumber i n (g_ir g) ->
  env !! i = None -> fresh g' <= 2 ^ 31 -> sim env g' M'.
Proof.
  intros [Ha Hi _] L Ir Hn Hf. split; [| | done].
  - intros k a E. destruct (Ha k a E) as (r & m & Ec & Hv). exists r, m.
    split; [eapply arg_class_later; [apply L | apply L | done] | by eapply in_vreg_extends].
  - intros j z E. destruct (Hi j z E) as (x & w & Ex & Hw & Ev & H). exists x, w.
    rewrite Ir, renumber_other by congruence. split_and!; [done | done | |].
    + erewrite eval_instr_same; [exact Ev | by symmetry; apply same_ir_set | done].
    + destruct H as [H|H]; [by left |]. right. by eapply in_vreg_extends.
Qed.

Lemma sim_insert env g M i x w z : sim env g M -> env !! i = None -> instrs (g_ir g) !! i = Some x ->
  gpr_width (instr_type x) = Some w -> eval_instr arg (g_ir g) env x = Some z ->
  is_lazy (instr_op x) = true \/ in_vreg g M (vreg_number x) w z -> sim (<[i := z]> env) g M.
Proof.
  intros [Ha Hi Hf] Hn Ex Hw Ev H. split; [done | | done].
  intros j y [[<- <-]|[Hne E]]%lookup_insert_Some.
  - exists x, w. split_and!; try done. by apply eval_instr_mono.
  - destruct (Hi j y E) as (x' & w' & ? & ? & ? & ?). exists x', w'. split_and!; try done. by apply eval_instr_mono.
Qed.

(** The end of every instruction that has a register. *)
Lemma outcome_intro env i x w z n g M g' M' : sim env g M -> env !! i = None -> instrs (g_ir g) !! i = Some x ->
  gpr_width (instr_type x) = Some w -> eval_instr arg (g_ir g) env x = Some z ->
  extends g M g' M' -> g_ir g' = renumber i n (g_ir g) -> fresh g' <= 2 ^ 31 ->
  in_vreg g' M' n w z -> outcome env i z g M g' M'.
Proof.
  intros Hs Hn Ex Hw Ev L Ir Hf D. assert (Sm : same_ir (g_ir g) (g_ir g')) by (rewrite Ir; apply same_ir_set).
  split; [| done | done]. eapply (sim_insert env g' M' i (renumbered x n) w).
  - by eapply sim_extends.
  - done.
  - rewrite Ir. by apply renumber_lookup.
  - done.
  - erewrite eval_instr_same; [exact Ev | by symmetry | done].
  - by right.
Qed.

(** ** Steps of instructions *)

Definition assigned (g : GenState) (i : nat) (n : Z) : GenState := w_ir g (renumber i n (g_ir g)).

Lemma runs_assign i g M w vw n (Q : AsmValue -> GenState -> Machine -> Prop) : 0 <= n < 2 ^ 31 ->
  Q (reg_value w vw n) (assigned g i n) M -> runs (assign_vreg i (reg_value w vw n)) g M Q.
Proof.
  intros Hn HQ. unfold assign_vreg. cbn [as_register value_u reg_value]. rbind. apply runs_silent.
  intros u g' E _ _. injection E as <- <-. split; [done |]. split; [done |]. apply runs_ret.
  rewrite i32_small by lia. done.
Qed.

(** The state with a new integer register that instruction [i] refers to. *)
Definition target_state (g : GenState) (v : VReg) (i : nat) : GenState := assigned (after_vreg g v) i (fresh g).

Lemma runs_assign_new i w g M (Q : AsmValue -> GenState -> Machine -> Prop) : good_width w ->
  (forall v, int_vreg v -> fresh g < 2 ^ 31 -> Q (reg_value w w (fresh g)) (target_state g v i) M) ->
  runs (assign_new_vreg i w) g M Q.
Proof.
  intros Hw HQ. unfold assign_new_vreg. rbind. apply runs_new_asm_vreg; [done |]. intros v Hv Hf.
  apply runs_assign; [unfold fresh in *; lia |]. by apply HQ.
Qed.

Lemma extends_target g M v i : extends g M (target_state g v i) M.
Proof. split; try done. cbn. apply prefix_app_r. done. Qed.
Lemma target_dest g v i : int_vreg v -> is_int_dest (target_state g v i) (fresh g).
Proof. intros Hv. by apply (fresh_is_dest g v). Qed.
Lemma target_ir g v i : g_ir (target_state g v i) = renumber i (fresh g) (g_ir g).
Proof. done. Qed.

Lemma extends_emit g0 M0 g M g' : extends g0 M0 g M -> same_but_code g g' -> extends g0 M0 g' M.
Proof. intros [] []. split; try congruence; auto. Qed.
Lemma extends_write g0 M0 g M n x : extends g0 M0 g M -> fresh g0 <= n -> extends g0 M0 g (set_reg M n x).
Proof. intros [] Hn. split; try done. intros k Hk. cbn. destruct (Z.eqb_spec k n); [lia |]. auto. Qed.
Lemma extends_later g0 M0 g M g' M' : extends g0 M0 g M -> later g M g' M' -> extends g0 M0 g' M'.
Proof. intros H1 H2%later_extends. by eapply extends_trans. Qed.

Lemma same_fresh g g' : same_but_code g g' -> fresh g' = fresh g.
Proof. intros H. unfold fresh. by rewrite (sb_vregs _ _ H). Qed.

(** The selector's precondition for an instruction, and what it promises. *)
Record selects (env : gmap nat Z) (g : GenState) (M : Machine) (i : nat) (x : IrInstr) (w z : Z) : Prop := {
  s_sim : sim env g M;
  s_new : env !! i = None;
  s_instr : instrs (g_ir g) !! i = Some x;
  s_width : gpr_width (instr_type x) = Some w;
  s_eval : eval_instr arg (g_ir g) env x = Some z
}.
Definition done_with env i z g M : unit -> GenState -> Machine -> Prop := fun _ => outcome env i z g M.

(** A register of the new state is beyond the old ones. *)
Lemma write_new g M g1 M1 n w z : extends g M g1 M1 -> is_int_dest g1 n -> fresh g <= n -> good_width w ->
  extends g M g1 (set_reg M1 n (merge w (regs M1 n) z)) /\
  in_vreg g1 (set_reg M1 n (merge w (regs M1 n) z)) n w (wrap w z).
Proof.
  intros L D Hn Hw. split; [by apply extends_write |]. apply dest_in_vreg; [done |].
  rewrite set_reg_same. apply wrap_merge; [done |]. apply good_width_cases in Hw. lia.
Qed.

(** A comparison or a cast needs no code of its own. *)
Lemma lazy_correct env g M i x w z : selects env g M i x w z -> is_lazy (instr_op x) = true ->
  runs (mret tt) g M (done_with env i z g M).
Proof.
  intros [Hs Hn Hx Hw He] Hl. apply runs_ret. split; [| by split | done].
  eapply sim_insert; try done. by left.
Qed.

(** Loads the two operands of a binary instruction. *)
Lemma eval_args m env x w z a b : instr_u x = U_binary_op a b -> gpr_width (instr_type x) = Some w ->
  eval_instr arg m env x = Some z -> exists va vb, eval_value arg m env a = Some (w, va) /\
    eval_value arg m env b = Some (w, vb) /\ eval_binary (instr_op x) w va vb = Some z /\
    is_const_int a && is_const_int b = false.
Proof.
  intros Hu Hw H. unfold eval_instr in H. rewrite Hw, Hu in H. cbn in H.
  apply bind_Some in H as ([wa va] & Ea & H). apply bind_Some in H as ([wb vb] & Eb & H).
  destruct (is_const_int a && is_const_int b) eqn:K; [done |]. destruct ((wa =? w) && (wb =? w)) eqn:B; [| done]. bsplit. subst. by exists va, vb.
Qed.

Lemma binary_operands m env x w z : gpr_width (instr_type x) = Some w -> eval_instr arg m env x = Some z ->
  instr_op x ∈ [OP_ADD; OP_SUB; OP_BIT_AND; OP_BIT_OR; OP_BIT_XOR; OP_MUL; OP_SHL; OP_SHR; OP_DIV; OP_MOD] ->
  exists a b va vb, get_args x = Ok (a, b) /\ eval_value arg m env a = Some (w, va) /\
    eval_value arg m env b = Some (w, vb) /\ eval_binary (instr_op x) w va vb = Some z /\
    is_const_int a && is_const_int b = false.
Proof.
  intros Hw H Ho. rewrite list_elem_of_In in Ho. cbn in Ho. unfold get_args.
  destruct (instr_u x) as [| a | a b | a b cmp | | | | | | |] eqn:Hu.
  all: try (unfold eval_instr in H; rewrite Hw, Hu in H; done).
  - unfold eval_instr in H. rewrite Hw, Hu in H. cbn in H. apply bind_Some in H as ([wa va] & _ & H).
    exfalso. destruct (is_const_int a), (instr_op x); try done; intuition done.
  - destruct (eval_args _ _ _ _ _ _ _ Hu Hw H) as (va & vb & ? & ? & ? & ?). by exists a, b, va, vb.
  - unfold eval_instr in H. rewrite Hw, Hu in H. cbn in H. apply bind_Some in H as ([wa va] & _ & H).
    apply bind_Some in H as ([wb vb] & _ & H). destruct (is_const_int a && is_const_int b); [done |].
    destruct (_ && _) eqn:B; [| done]. bsplit. case_bool_decide as D; [| done]. rewrite D in Ho. intuition done.
Qed.

Lemma int_type x w : gpr_width (instr_type x) = Some w -> is_int (instr_type x) = true ->
  bit_width_of (instr_type x) = Ok w.
Proof. unfold gpr_width. destruct (instr_type x); try done. case_bool_decide; [| done]. by intros [= ->]. Qed.

Lemma int_width t w w' : gpr_width t = Some w -> bit_width_of t = Ok w' -> w' = w.
Proof. unfold gpr_width. destruct t; try done. case_bool_decide; [| done]. by intros [= ->] [= ->]. Qed.

(** The machine's operation against the IR's, at the instruction's width. *)
Lemma alu_correct ir o w a b z : (ir, o) ∈ [(OP_ADD, ADD); (OP_SUB, SUB); (OP_BIT_AND, AND); (OP_BIT_OR, OR); (OP_BIT_XOR, XOR); (OP_MUL, IMUL)] ->
  0 <= w -> 0 <= a < 2 ^ w -> 0 <= b < 2 ^ w -> eval_binary ir w a b = Some z ->
  exists r, binary_result o a b = Some r /\ wrap w r = z.
Proof.
  intros Ho Hw Ha Hb. rewrite list_elem_of_In in Ho. cbn in Ho.
  assert (Bits : forall r, (forall i, w <= i -> Z.testbit r i = false) -> wrap w r = r).
  { intros r Hr. apply testbit_ext. intros i Hi. rewrite wrap_testbit by lia. destruct (Z.ltb_spec i w); [done |]. by rewrite Hr. }
  assert (Ba : forall i, w <= i -> Z.testbit a i = false) by (intros; by apply (is_u_testbit_high w)).
  assert (Bb : forall i, w <= i -> Z.testbit b i = false) by (intros; by apply (is_u_testbit_high w)).
  repeat destruct Ho as [[= <- <-] | Ho]; try done; cbn; try (destruct (w =? 8); [done |]); intros [= <-];
    eexists; (split; [done |]); try done.
  all: apply Bits; intros i Hi; autorewrite with zbits; by rewrite Ba, Bb.
Qed.

Lemma outcome_later env i z g M g2 M2 g' M' : later g M g2 M2 -> outcome env i z g2 M2 g' M' -> outcome env i z g M g' M'.
Proof.
  intros L [Hs He Hi]. split; [done | | by rewrite <- (l_ir _ _ _ _ L)].
  eapply extends_trans; [by apply later_extends | done].
Qed.

Lemma selects_later env g M g2 M2 i x w z : later g M g2 M2 -> sim env g2 M2 -> selects env g M i x w z ->
  selects env g2 M2 i x w z.
Proof. intros L Hs []. split; rewrite ?(l_ir _ _ _ _ L); done. Qed.

Lemma runs_operands env g M i x w z a b va vb (k : AsmValue -> AsmValue -> gen unit) :
  selects env g M i x w z -> (forall l r, grows (k l r)) ->
  eval_value arg (g_ir g) env a = Some (w, va) -> eval_value arg (g_ir g) env b = Some (w, vb) ->
  (forall lhs rhs g2 M2, selects env g2 M2 i x w z -> holds g2 M2 lhs w va -> holds g2 M2 rhs w vb ->
     runs (k lhs rhs) g2 M2 (done_with env i z g2 M2)) ->
  runs (lhs ← asm_value a; rhs ← asm_value b; k lhs rhs) g M (done_with env i z g M).
Proof.
  intros S Hk Ea Eb H. pose proof (s_sim _ _ _ _ _ _ _ S) as Hs.
  rbind. eapply (runs_value env); [apply asm_value_correct | done | done |]. intros lhs g1 M1 [L1 H1 C1 _] Hs1.
  rbind. eapply (runs_value env); [apply asm_value_correct | done | by rewrite (later_ir_value _ _ _ _ _ _ L1) |].
  intros rhs g2 M2 [L2 H2 C2 _] Hs2. pose proof (later_trans _ _ _ _ _ _ L1 L2) as L.
  eapply runs_mono; [apply H; [eapply selects_later; [exact L | done | done] | eapply holds_later; [exact L2 | exact H1] | exact H2] |].
  intros u g' M'. by eapply outcome_later.
Qed.

Lemma good_bounds w : good_width w -> 0 <= w /\ 8 <= w <= 64.
Proof. intros H%good_width_cases. lia. Qed.

(** In the middle of an instruction that started at [g] and [M]: its register is the
    next one, whose low [w] bits are [t]. *)
Record target (g : GenState) (M : Machine) (i : nat) (w : Z) (g' : GenState) (M' : Machine) (t : Z) : Prop := {
  t_extends : extends g M g' M';
  t_dest : is_int_dest g' (fresh g);
  t_ir : g_ir g' = renumber i (fresh g) (g_ir g);
  t_value : wrap w (regs M' (fresh g)) = t
}.

Lemma runs_target i w g M (Q : AsmValue -> GenState -> Machine -> Prop) : good_width w ->
  (forall g1 t, target g M i w g1 M t -> Q (reg_value w w (fresh g)) g1 M) -> runs (assign_new_vreg i w) g M Q.
Proof.
  intros Hw HQ. apply runs_assign_new; [done |]. intros v Hv Hf. eapply HQ. split; [apply extends_target | | done | done].
  by apply target_dest.
Qed.

Lemma dest_bound g n : is_int_dest g n -> 0 <= n < fresh g.
Proof. intros (Hn & v & E & _). apply lookup_lt_Some in E. unfold fresh. lia. Qed.

(** A step that writes the register. *)
Lemma target_write g M i w g1 M1 t g2 r : good_width w -> target g M i w g1 M1 t -> same_but_code g1 g2 ->
  target g M i w g2 (set_reg M1 (fresh g) (merge w (regs M1 (fresh g)) r)) (wrap w r).
Proof.
  intros Hw [L D Ir _] S. split.
  - apply extends_write; [by eapply extends_emit | done].
  - by eapply is_dest_same.
  - by rewrite (sb_ir _ _ S).
  - rewrite set_reg_same. apply wrap_merge; [done |]. destruct (good_bounds _ Hw). lia.
Qed.

(** Code that leaves it alone. *)
Lemma target_later g M i w g1 M1 t g2 M2 : target g M i w g1 M1 t -> later g1 M1 g2 M2 -> target g M i w g2 M2 t.
Proof.
  intros [L D Ir Ht] L'. pose proof (dest_bound _ _ D). split.
  - by eapply extends_later.
  - eapply is_dest_prefix; [apply (l_vregs _ _ _ _ L') | done].
  - by rewrite (l_ir _ _ _ _ L').
  - by rewrite (l_regs _ _ _ _ L') by done.
Qed.

Lemma target_sim env g M i x w z g1 M1 t : selects env g M i x w z -> target g M i w g1 M1 t -> fresh g1 <= 2 ^ 31 ->
  sim env g1 M1.
Proof. intros [] [] Hf. by eapply sim_extends. Qed.

Lemma target_unused env g M i x w z g1 M1 t : selects env g M i x w z -> target g M i w g1 M1 t ->
  unused env g1 (fresh g).
Proof.
  intros [[Ha Hi _] Hn Hx _ _] [L _ Ir _]. split.
  - intros j y x' Ej Ex Hl Eq. rewrite Ir, renumber_other in Ex by congruence.
    destruct (Hi j y Ej) as (x2 & w2 & Ex2 & _ & _ & [Hl2|D]); [congruence |].
    assert (x2 = x') as -> by congruence. rewrite Eq in D. apply in_vreg_dest, dest_bound in D. lia.
  - intros k a r m Ek Ec ->. destruct (Ha k a Ek) as (r' & m' & Ec' & D).
    apply (arg_class_later g g1) in Ec'; [| apply L | apply L]. assert (m' = fresh g) as -> by congruence.
    apply in_vreg_dest, dest_bound in D. lia.
Qed.

Lemma target_done env g M i x w z g' M' : selects env g M i x w z -> target g M i w g' M' z ->
  fresh g' <= 2 ^ 31 -> outcome env i z g M g' M'.
Proof.
  intros [Hs Hn Hx Hw He] [L D Ir Ht] Hf. eapply outcome_intro; try done. by apply dest_in_vreg.
Qed.

Lemma runs_target_mov g M i w g1 M1 t a za (Q : nat -> GenState -> Machine -> Prop) : good_width w ->
  target g M i w g1 M1 t -> holds g1 M1 a w za ->
  (forall k g2 M2, target g M i w g2 M2 za -> Q k g2 M2) ->
  runs (emit_mov (reg_value w w (fresh g)) a) g1 M1 Q.
Proof.
  intros Hw T Ha HQ. eapply runs_mov; [apply T | exact Ha |]. intros k g2 S. apply HQ.
  destruct (good_bounds _ Hw). pose proof (holds_bound g1 M1 a w za ltac:(lia) Ha).
  rewrite <- (wrap_small w za) at 2 by done. by eapply target_write.
Qed.

Lemma holds_write g M a w z g' n x : avoids n a -> holds g M a w z -> same_but_code g g' ->
  holds g' (set_reg M n x) a w z.
Proof.
  intros Av [Hd H] S. split; [done |]. unfold avoids in Av. destruct (value_u a) as [[rw vw []]| |[]]; try done.
  destruct H as [-> (Hn & (v & Ev & Ht) & <-)]. split; [done |]. split_and!; [done | | ].
  - exists v. by rewrite (sb_vregs _ _ S).
  - cbn in *. destruct (Z.eqb_spec vreg_number n); [by subst | done].
Qed.

(** Another operand stays what it was. *)
Lemma runs_target_mov_keep g M i w g1 M1 t a za b v zb (Q : nat -> GenState -> Machine -> Prop) : good_width w ->
  target g M i w g1 M1 t -> holds g1 M1 a w za -> avoids (fresh g) b -> holds g1 M1 b v zb ->
  (forall k g2 M2, target g M i w g2 M2 za -> holds g2 M2 b v zb -> Q k g2 M2) ->
  runs (emit_mov (reg_value w w (fresh g)) a) g1 M1 Q.
Proof.
  intros Hw T Ha Av Hb HQ. eapply runs_mov; [apply T | exact Ha |]. intros k g2 S. apply HQ; [| by eapply holds_write].
  destruct (good_bounds _ Hw). pose proof (holds_bound g1 M1 a w za ltac:(lia) Ha).
  rewrite <- (wrap_small w za) at 2 by done. by eapply target_write.
Qed.

Lemma target_read g M i w g1 M1 t : target g M i w g1 M1 t -> read M1 w (reg_value w w (fresh g)) = Some t.
Proof. intros []. cbn. rewrite Z.eqb_refl. by f_equal. Qed.

Lemma binary_correct env g M i x w z o : selects env g M i x w z ->
  (instr_op x, o) ∈ [(OP_ADD, ADD); (OP_SUB, SUB); (OP_BIT_AND, AND); (OP_BIT_OR, OR); (OP_BIT_XOR, XOR)] ->
  runs (asm_gen_binary_instr i x o) g M (done_with env i z g M).
Proof.
  intros S Ho. pose proof S as [Hs Hn Hx Hw He]. unfold asm_gen_binary_instr, emit_instr2. rbind. apply runs_lift. intros [] Hint.
  destruct (is_int (instr_type x)) eqn:Hi; [| done].
  destruct (binary_operands _ _ _ _ _ Hw He) as (a & b & va & vb & Hga & Ea & Eb & Er & Hk); [by members Ho |].
  pose proof (gpr_width_good _ _ Hw) as G. destruct (good_bounds _ G) as [W0 _].
  rbind. rewrite Hga. apply runs_lift. intros ? [= <-].
  eapply runs_operands; [exact S | by intros; grow | done | done |]. clear dependent g M.
  intros lhs rhs g M S H1 H2. rbind. rewrite (int_type x w) by done. apply runs_lift. intros ? [= <-].
  rbind. apply runs_target; [done |]. intros g1 t T1.
  rbind. eapply runs_target_mov; [done | done | by eapply holds_extends, H1; apply T1 |].
  intros k g2 M2 T2.
  rbind. eapply (runs_maybe_move g2 M2 rhs w vb); [done | by eapply holds_extends, H2; apply T2 |].
  intros rhs' g3 M3 L3 H3 _. pose proof (target_later _ _ _ _ _ _ _ _ _ T2 L3) as T3.
  destruct (alu_correct (instr_op x) o w va vb z) as (r & Hr & Ez);
    [by members Ho | done | by eapply holds_bound | by eapply holds_bound | done |].
  rbind. apply runs_bound. eapply runs_emit; [eapply step_binary; [exact Hr | by eapply target_read | by eapply holds_read] |].
  intros k4 g4 S4 Hf. apply runs_ret. eapply target_done; [done | rewrite <- Ez; by eapply target_write | done].
Qed.

Lemma eval_arg m env x w z : gpr_width (instr_type x) = Some w -> eval_instr arg m env x = Some z ->
  instr_op x ∈ [OP_NEG; OP_BIT_NOT; OP_ZEXT; OP_SEXT; OP_TRUNC] ->
  exists a v va, get_arg x = Ok a /\ eval_value arg m env a = Some (v, va) /\
    (if bool_decide (instr_op x ∈ [OP_NEG; OP_BIT_NOT]) then v = w /\ eval_unary (instr_op x) w va = Some z
     else is_const_int a = false /\ eval_convert (instr_op x) v w va = Some z).
Proof.
  intros Hw H Ho. unfold eval_instr in H. rewrite Hw in H. cbn in H. rewrite list_elem_of_In in Ho. cbn in Ho.
  unfold get_arg. destruct (instr_u x) as [| a | a b | a b cmp | | | | | | |]; try done.
  - apply bind_Some in H as ([v va] & Ea & H). exists a, v, va. split_and!; [done | done |].
    destruct (instr_op x); try (exfalso; intuition done); cbn;
      try (rewrite bool_decide_false by set_solver; by destruct (is_const_int a));
      (rewrite bool_decide_true by set_solver); destruct (Z.eqb_spec v w); done.
  - apply bind_Some in H as ([? ?] & _ & H). apply bind_Some in H as ([? ?] & _ & H). destruct (_ && _); [done |]. destruct (_ && _); [| done].
    destruct (instr_op x); try done; intuition done.
  - apply bind_Some in H as ([? ?] & _ & H). apply bind_Some in H as ([? ?] & _ & H).
    destruct (is_const_int a && is_const_int b); [done |]. destruct (_ && _) eqn:B; [| done].
    bsplit. case_bool_decide as D; [| done]. rewrite D in Ho. intuition done.
Qed.

(** The argument of an instruction whose register is already there: it is in
    another register. *)
Lemma runs_target_value env g M i x w z g1 M1 t a v va (Q : AsmValue -> GenState -> Machine -> Prop) :
  selects env g M i x w z -> target g M i w g1 M1 t -> eval_value arg (g_ir g) env a = Some (v, va) ->
  (forall b g2 M2, later g1 M1 g2 M2 -> target g M i w g2 M2 t -> holds g2 M2 b v va ->
     (is_const_int a = false -> is_const b = false) -> avoids (fresh g) b -> Q b g2 M2) ->
  runs (asm_value a) g1 M1 Q.
Proof.
  intros S T Ea HQ. intros b g2 E Hb Hf. assert (Hf1 : fresh g1 <= 2 ^ 31).
  { pose proof (grows_asm_value a (length (g_vregs g1)) _ _ _ (le_n _) E). unfold fresh in *. cbn in *. lia. }
  pose proof (target_sim _ _ _ _ _ _ _ _ _ _ S T Hf1) as Hs.
  assert (Ea1 : eval_value arg (g_ir g1) env a = Some (v, va)).
  { erewrite eval_value_same; [exact Ea |]. rewrite (t_ir _ _ _ _ _ _ _ T). symmetry. apply same_ir_set. }
  revert b g2 E Hb Hf. eapply runs_value; [apply asm_value_correct | exact Hs | exact Ea1 |].
  intros b g2 M2 [L Hh Hc Av] _. apply HQ; [done | by eapply target_later | done | done |].
  apply Av; [apply dest_bound, T |]. by eapply target_unused.
Qed.

Lemma step_unary o M n w vw x z : o = NEG \/ o = NOT -> unary_result o x = Some z ->
  read M w (reg_value w vw n) = Some x ->
  step (mkAsmInstr o [reg_value w vw n] [] None) M = Some (set_reg M n (merge w (regs M n) z), None).
Proof.
  intros Ho Hz Hx. unfold step. cbn [op args vreg_deps].
  destruct Ho as [-> | ->]; cbn [reg_width as_register value_u reg_value mbind option_bind width];
    unfold reg_value in *; rewrite Hx; cbn in *; by simplify_eq.
Qed.

Lemma unary_correct env g M i x w z o : selects env g M i x w z ->
  (instr_op x, o) ∈ [(OP_NEG, NEG); (OP_BIT_NOT, NOT)] ->
  runs (asm_gen_unary i x o) g M (done_with env i z g M).
Proof.
  intros S Ho. pose proof S as [Hs Hn Hx Hw He]. unfold asm_gen_unary, emit_instr1. rbind. apply runs_lift. intros [] Hint.
  destruct (is_int (instr_type x)) eqn:Hi; [| done]. pose proof (gpr_width_good _ _ Hw) as G.
  destruct (eval_arg _ _ _ _ _ Hw He) as (a & v & va & Hga & Ea & Er); [by members Ho |].
  rewrite bool_decide_true in Er by (by members Ho). destruct Er as [-> Er].
  rbind. rewrite (int_type x w) by done. apply runs_lift. intros ? [= <-].
  rbind. apply runs_target; [done |]. intros g1 t T1. rbind. rewrite Hga. apply runs_lift. intros ? [= <-].
  rbind. eapply runs_target_value; [done | done | done |]. intros b g2 M2 _ T2 H2 _ _.
  rbind. eapply runs_target_mov; [done | done | done |]. intros k g3 M3 T3.
  assert (exists r, unary_result o va = Some r /\ wrap w r = z /\ (o = NEG \/ o = NOT)) as (r & Hr & <- & Hoo).
  { rewrite !list_elem_of_In in Ho. cbn in Ho.
    destruct Ho as [[= Eo <-] | [[= Eo <-] | []]]; rewrite <- Eo in Er; injection Er as <-; eauto. }
  rbind. apply runs_bound. eapply runs_emit; [eapply step_unary; [done | done | by eapply target_read] |].
  intros k4 g4 S4 Hf. apply runs_ret. eapply target_done; [done | by eapply target_write | done].
Qed.

Lemma step_extend o M n w vw b v va : o = MOVZX \/ o = MOVSX -> read M v b = Some va -> reg_width b = Some v ->
  step (mkAsmInstr o [reg_value w vw n; b] [] None) M
    = Some (set_reg M n (merge w (regs M n) (if decide (o = MOVZX) then va else sgn v va)), None).
Proof.
  intros Ho Hr Hb. unfold step. cbn [op args vreg_deps].
  destruct Ho as [-> | ->]; rewrite Hb; cbn [mbind option_bind]; by rewrite Hr.
Qed.

Lemma holds_register g M a w z : holds g M a w z -> is_const a = false ->
  exists vw n, value_u a = ASM_VALUE_REGISTER (mkRegister w vw (V_REG n)) /\ in_vreg g M n w z.
Proof.
  intros [_ H] Hc. unfold is_const in Hc. destruct (value_u a) as [[rw vw []]| |]; try done.
  destruct H as [-> H]. by exists vw, vreg_number.
Qed.
Lemma holds_reg_width g M a w z : holds g M a w z -> is_const a = false -> reg_width a = Some w.
Proof. intros H Hc. destruct (holds_register _ _ _ _ _ H Hc) as (vw & n & E & _). unfold reg_width, as_register. by rewrite E. Qed.

Lemma int_widths_ok arg_ x w v m env va a : gpr_width (instr_type x) = Some w ->
  eval_value arg_ m env a = Some (v, va) -> forall p, int_widths x a = Ok p -> p = (w, v).
Proof.
  intros Hw Ea p. unfold int_widths, gpr_width, eval_value in *.
  destruct (instr_type x); try done. case_bool_decide; [| done]. injection Hw as ->.
  destruct (val_type a); try done. cbn in Ea. case_bool_decide; [| done]. cbn in Ea. intros [= <-]. f_equal.
  destruct (val_u a); try done.
  - by injection Ea.
  - destruct (arg_ _); [| done]. by injection Ea.
  - destruct (instrs m !! _); [| done]. cbn in Ea. destruct (env !! _); [| done]. cbn in Ea. case_bool_decide; [| done]. by injection Ea.
Qed.

(** [MOVZX] and [MOVSX] into the register of the instruction. *)
Lemma extend_correct env g M i x w z o a v va : selects env g M i x w z ->
  eval_value arg (g_ir g) env a = Some (v, va) -> is_const_int a = false -> o = MOVZX \/ o = MOVSX ->
  (0 <= va < 2 ^ v -> wrap w (if decide (o = MOVZX) then va else sgn v va) = z) ->
  runs (vreg ← assign_new_vreg i w; b ← asm_value a; emit_instr2 o vreg b;; mret tt) g M (done_with env i z g M).
Proof.
  intros S Ea Hk Ho Hz. pose proof (gpr_width_good _ _ (s_width _ _ _ _ _ _ _ S)) as G. unfold emit_instr2.
  rbind. apply runs_target; [done |]. intros g1 t T1.
  rbind. eapply runs_target_value; [done | done | done |]. intros b g2 M2 _ T2 H2 Hb _. specialize (Hb Hk).
  rbind. apply runs_bound. eapply runs_emit; [eapply step_extend; [done | by eapply holds_read | by eapply holds_reg_width] |].
  intros k3 g3 S3 Hf. apply runs_ret. eapply target_done; [done | rewrite <- Hz; [by eapply target_write |] | done].
  destruct (good_bounds v) as [? _]; [by eapply eval_value_width | by eapply holds_bound].
Qed.

Lemma zext_correct env g M i x w z : selects env g M i x w z -> instr_op x = OP_ZEXT ->
  runs (asm_gen_zext i x) g M (done_with env i z g M).
Proof.
  intros S Ho. pose proof S as [Hs Hn Hx Hw He]. unfold asm_gen_zext, emit_instr2.
  destruct (eval_arg _ _ _ _ _ Hw He) as (a & v & va & Hga & Ea & Er); [rewrite Ho; set_solver |].
  rewrite Ho in Er. rewrite bool_decide_false in Er by set_solver. destruct Er as [Hk Er]. cbn in Er.
  destruct (Z.ltb_spec v w) as [Hlt|]; [| done]. injection Er as <-.
  pose proof (eval_value_width _ _ _ _ _ Ea) as Gv. destruct (good_bounds _ Gv) as [? ?].
  rbind. rewrite Hga. apply runs_lift. intros ? [= <-]. rbind. apply runs_lift. intros p Ep.
  rewrite (int_widths_ok _ _ _ _ _ _ _ _ Hw Ea p Ep). destruct ((w =? 64) && (v =? 32)) eqn:B.
  - bsplit. subst w v. assert (G64 : good_width 64) by (unfold good_width; set_solver). rbind. apply runs_target; [unfold good_width; set_solver |]. intros g1 t T1.
    assert (T64 : target g M i 64 g1 M (wrap 64 (regs M (fresh g)))) by (by destruct T1).
    rbind. eapply runs_target_value; [done | exact T64 | done |]. intros b g2 M2 _ T2 H2 _ _.
    rbind. apply runs_bound. eapply runs_mov; [apply T2 | done |]. intros k g3 S3 Hf. apply runs_ret.
    eapply target_done; [done | | done]. pose proof (target_write _ _ _ _ _ _ _ g3 va G64 T2 S3) as T3.
    assert (Hb : 0 <= va < 2 ^ 32) by (eapply holds_bound; [lia | exact H2]). unfold merge in *. cbn in T3 |- *.
    rewrite (wrap_small 32) by done. rewrite (wrap_small 64) in T3 by lia. exact T3.
  - eapply extend_correct; [done | done | done | by left |]. intros Hb. rewrite decide_True by done. apply wrap_small.
    pose proof (Z.pow_le_mono_r 2 v w). lia.
Qed.

Lemma sext_correct env g M i x w z : selects env g M i x w z -> instr_op x = OP_SEXT ->
  runs (asm_gen_sext i x) g M (done_with env i z g M).
Proof.
  intros S Ho. pose proof S as [Hs Hn Hx Hw He]. unfold asm_gen_sext.
  destruct (eval_arg _ _ _ _ _ Hw He) as (a & v & va & Hga & Ea & Er); [rewrite Ho; set_solver |].
  rewrite Ho in Er. rewrite bool_decide_false in Er by set_solver. destruct Er as [Hk Er]. cbn in Er.
  destruct (v <? w); [| done]. injection Er as <-.
  rbind. rewrite Hga. apply runs_lift. intros ? [= <-]. rbind. apply runs_lift. intros p Ep.
  rewrite (int_widths_ok _ _ _ _ _ _ _ _ Hw Ea p Ep).
  eapply extend_correct; [done | done | done | by right |]. intros _. by rewrite decide_False.
Qed.

Lemma trunc_correct env g M i x w z : selects env g M i x w z -> instr_op x = OP_TRUNC ->
  runs (asm_gen_trunc i x) g M (done_with env i z g M).
Proof.
  intros S Ho. pose proof S as [Hs Hn Hx Hw He]. unfold asm_gen_trunc.
  destruct (eval_arg _ _ _ _ _ Hw He) as (a & v & va & Hga & Ea & Er); [rewrite Ho; set_solver |].
  rewrite Ho in Er. rewrite bool_decide_false in Er by set_solver. destruct Er as [Hk Er]. cbn in Er.
  destruct (Z.leb_spec w v); [| done]. injection Er as <-.
  pose proof (gpr_width_good _ _ Hw) as G. destruct (good_bounds _ G) as [W0 W1].
  rbind. rewrite Hga. apply runs_lift. intros ? [= <-]. rlift.
  rbind. eapply (runs_value env); [apply asm_value_correct | done | done |]. intros b g1 M1 [L1 H1 Hb _] Hs1.
  destruct (holds_register _ _ _ _ _ H1 (Hb Hk)) as (vw & n & Eb & D). unfold as_register. rewrite Eb. cbn [reg_u].
  apply runs_bound. apply runs_silent. intros u g2 E _ _. injection E as _ <-. split; [done |]. split; [done |].
  intros Hf. pose proof (dest_bound _ _ (in_vreg_dest _ _ _ _ _ D)) as Hd.
  assert (fresh g1 <= 2 ^ 31) by exact Hf. rewrite i32_small by lia.
  eapply outcome_intro; try done.
  - by apply later_extends in L1 as []; split.
  - cbn. by rewrite (l_ir _ _ _ _ L1).
  - destruct D as (? & ? & <-). split_and!; [done | done |]. rewrite wrap_le by lia. done.
Qed.

Lemma step_imul3 M n w vw b c vb vc : read M w b = Some vb -> reg_width b = Some w -> read M w c = Some vc ->
  step (mkAsmInstr IMUL [reg_value w vw n; b; c] [] None) M = Some (set_reg M n (merge w (regs M n) (vb * vc)), None).
Proof.
  intros Hb Hw Hc. unfold step. cbn [op args vreg_deps reg_width as_register value_u reg_value mbind option_bind width].
  rewrite Hw. cbn [mbind option_bind]. rewrite Hb. cbn [mbind option_bind]. rewrite Hc. cbn. by rewrite Z.eqb_refl.
Qed.

Lemma mul_correct env g M i x w z : selects env g M i x w z -> instr_op x = OP_MUL ->
  runs (asm_gen_mul i x) g M (done_with env i z g M).
Proof.
  intros S Ho. pose proof S as [Hs Hn Hx Hw He]. unfold asm_gen_mul, emit_instr2, emit_instr3. rbind. apply runs_lift. intros [] Hint.
  destruct (is_int (instr_type x)) eqn:Hi; [| done]. pose proof (gpr_width_good _ _ Hw) as G.
  destruct (binary_operands _ _ _ _ _ Hw He) as (a & b & va & vb & Hga & Ea & Eb & Er & Hk); [rewrite Ho; set_solver |].
  rewrite Ho in Er. cbn in Er. destruct (w =? 8); [done |]. injection Er as <-.
  rbind. rewrite (int_type x w) by done. apply runs_lift. intros ? [= <-].
  rbind. apply runs_target; [done |]. intros g1 t T1. rbind. rewrite Hga. apply runs_lift. intros ? [= <-].
  rbind. eapply runs_target_value; [exact S | done | exact Ea |]. intros f1 g2 M2 _ T2 H1 C1 _.
  rbind. eapply runs_target_value; [exact S | done | exact Eb |]. intros f2 g3 M3 L3 T3 H2 C2 Av.
  pose proof (holds_later _ _ _ _ _ _ _ L3 H1) as H1'.
  destruct (negb (is_const f1) && negb (is_const f2)) eqn:K.
  - rbind. eapply runs_target_mov_keep; [done | done | exact H1' | exact Av | exact H2 |]. intros k g4 M4 T4 H2'.
    rbind. apply runs_bound. eapply runs_emit; [by eapply step_binary; [| by eapply target_read | by eapply holds_read] |].
    intros k5 g5 S5 Hf. apply runs_ret. eapply target_done; [done | by eapply target_write | done].
  - assert (exists c nc vc vn, (if is_const f1 then (f1, f2) else (f2, f1)) = (c, nc) /\ holds g3 M3 c w vc /\
      holds g3 M3 nc w vn /\ is_const nc = false /\ vn * vc = va * vb) as (c & nc & vc & vn & -> & Hc & Hnc & Kn & Ev).
    { destruct (is_const f1) eqn:K1.
      - exists f1, f2, va, vb. split_and!; [done | done | done | | lia]. apply C2.
        destruct (is_const_int a) eqn:Ka; [done | by specialize (C1 eq_refl)].
      - exists f2, f1, vb, va. by split_and!. }
    rbind. apply runs_bound. eapply runs_emit; [eapply step_imul3; [by eapply holds_read | by eapply holds_reg_width | by eapply holds_read] |].
    intros k4 g4 S4 Hf. apply runs_ret. rewrite Ev. eapply target_done; [done | by eapply target_write | done].
Qed.

(** ** Shifts *)

Lemma step_shift o M n w vw a x y z : o = SHL \/ o = SHR -> shift_result o w x y = Some z ->
  read M w (reg_value w vw n) = Some x -> read M 8 a = Some y ->
  step (mkAsmInstr o [reg_value w vw n; a] [] None) M = Some (set_reg M n (merge w (regs M n) z), None).
Proof.
  intros Ho Hz Hx Hy. unfold step. cbn [op args vreg_deps].
  destruct Ho as [-> | ->]; cbn [reg_width as_register value_u reg_value mbind option_bind width];
    unfold reg_value in *; rewrite Hx; cbn [mbind option_bind]; rewrite Hy; cbn in *; by simplify_eq.
Qed.

(** The count of a shift in its low eight bits. *)
Lemma holds_count g M a w z : good_width w -> z < w -> holds g M a w z ->
  (exists c, value_u a = ASM_VALUE_CONST c /\ read M 8 a = Some z) \/ exists vw n, a = reg_value w vw n /\ holds g M (reg_value 8 vw n) 8 z.
Proof.
  intros G Hz H. destruct (good_bounds _ G) as [W0 W1]. pose proof (holds_bound _ _ _ _ _ W0 H) as Hb.
  assert (Low : forall y, wrap w y = z -> wrap 8 y = z).
  { intros y E. rewrite <- (wrap_le 8 w), E by lia. apply wrap_small. lia. }
  destruct H as [Hd H]. destruct a as [d [[rw vw []]| |[c| |]]]; try done; cbn in *; subst d.
  - right. destruct H as [-> (Hn & D & E)]. exists vw, vreg_number. split; [done |]. split; [done |]. cbn.
    split; [done |]. split_and!; [done | done | by apply Low].
  - left. eexists. split; [done |]. unfold read. cbn. f_equal. by apply Low.
Qed.

Lemma shift_value o ir w a b z : (ir, o) ∈ [(OP_SHL, SHL); (OP_SHR, SHR)] -> good_width w -> 0 <= a < 2 ^ w -> 0 <= b < 2 ^ w ->
  eval_binary ir w a b = Some z -> exists r, shift_result o w a b = Some r /\ wrap w r = z /\ b < w /\ (o = SHL \/ o = SHR).
Proof.
  intros Ho G Ha Hb He. rewrite list_elem_of_In in Ho. cbn in Ho. unfold shift_result.
  assert (Hm : b < w -> b mod (if w =? 64 then 64 else 32) = b).
  { intros. apply good_width_cases in G. destruct (Z.eqb_spec w 64); apply Z.mod_small; lia. }
  destruct Ho as [[= <- <-] | [[= <- <-] | []]]; cbn in He; (destruct (Z.ltb_spec b w) as [Hlt|]; [| done]);
    injection He as <-; rewrite Hm by done; eexists; split_and!; try done; auto.
  apply wrap_small. split; [apply Z.shiftr_nonneg; lia |]. rewrite Z.shiftr_div_pow2 by lia.
  apply Z.div_lt_upper_bound; [apply pow2_pos; lia |]. pose proof (Z.pow_pos_nonneg 2 b). nia.
Qed.

Lemma shift_correct env g M i x w z o : selects env g M i x w z -> (instr_op x, o) ∈ [(OP_SHL, SHL); (OP_SHR, SHR)] ->
  runs (asm_gen_shift i x o) g M (done_with env i z g M).
Proof.
  intros S Ho. pose proof S as [Hs Hn Hx Hw He]. unfold asm_gen_shift, emit_instr2.
  pose proof (gpr_width_good _ _ Hw) as G. destruct (good_bounds _ G) as [W0 W1].
  destruct (binary_operands _ _ _ _ _ Hw He) as (a & b & va & vb & Hga & Ea & Eb & Er & Hk); [by members Ho |].
  rbind. rewrite Hga. apply runs_lift. intros ? [= <-].
  eapply runs_operands; [exact S | by intros; grow | done | done |]. clear dependent g M.
  intros lhs rhs g M S H1 H2. rbind. apply runs_lift. intros w' Ew. rewrite (int_width _ _ _ Hw Ew).
  rbind. apply runs_target; [done |]. intros g1 t T1.
  rbind. eapply runs_target_mov; [done | done | by eapply holds_extends, H1; apply T1 |]. intros k g2 M2 T2.
  pose proof (holds_extends _ _ _ _ _ _ _ (t_extends _ _ _ _ _ _ _ T2) H2) as H2'.
  destruct (shift_value o (instr_op x) w va vb z) as (r & Hr & <- & Hlt & Hoo);
    [done | done | by eapply holds_bound | by eapply holds_bound | done |].
  destruct (holds_count _ _ _ _ _ G Hlt H2') as [(c & Ec & Hc) | (vw & n & -> & Hc)].
  - rewrite Ec. rbind. apply runs_bound. eapply runs_emit; [by eapply step_shift; [| | eapply target_read |] |].
    intros k3 g3 S3 Hf. apply runs_ret. eapply target_done; [done | by eapply target_write | done].
  - cbn [value_u reg_value]. assert (g8 : good_width 8) by (unfold good_width; set_solver).
    rbind. apply runs_pre_alloced; [done | done |]. intros v Hv _. set (cl := fresh g2).
    assert (L3 : later g2 M2 (after_vreg g2 v) M2) by (apply later_vreg, later_refl).
    rbind. eapply (runs_mov _ _ _ 8); [by apply fresh_is_dest | by eapply (holds_later g2 M2 _ _ (reg_value 8 vw n)) |].
    intros k3 g3 S3. set (M3 := set_reg M2 cl _).
    assert (L4 : later g2 M2 g3 M3) by (apply later_write; [by eapply later_emit | done]).
    pose proof (target_later _ _ _ _ _ _ _ _ _ T2 L4) as T4.
    rbind. apply runs_bound. eapply runs_emit; [eapply step_shift; [done | exact Hr | by eapply target_read |] |].
    { unfold read. cbn [is_deref value_u reg_value Z.eqb Pos.eqb]. f_equal. unfold M3. rewrite set_reg_same, wrap_merge by (done || lia). apply wrap_small. eapply holds_bound; [| exact Hc]. lia. }
    intros k5 g5 S5 Hf. apply runs_ret. eapply target_done; [done | by eapply target_write | done].
Qed.

(** ** Division *)

(** The sign of an accumulator, spread over the data register. *)
Lemma sign_spread w a : 0 < w -> 0 <= a < 2 ^ w ->
  sgn (2 * w) (wrap w (sgn w a / 2 ^ w) * 2 ^ w + a) = sgn w a.
Proof.
  intros Hw Ha. pose proof (pow2_pos w ltac:(lia)) as P.
  assert (E : 2 ^ w = 2 * 2 ^ (w - 1)) by (rewrite <- Z.pow_succ_r by lia; f_equal; lia).
  assert (E2 : 2 ^ (2 * w) = 2 ^ w * 2 ^ w) by (rewrite <- Z.pow_add_r by lia; f_equal; lia).
  assert (E3 : 2 ^ (2 * w - 1) = 2 ^ w * 2 ^ (w - 1)) by (rewrite <- Z.pow_add_r by lia; f_equal; lia).
  destruct (Z.lt_ge_cases a (2 ^ (w - 1))).
  - rewrite (sgn_low w a) by lia. rewrite Z.div_small by lia. unfold wrap at 1. rewrite Z.mod_0_l by lia.
    apply sgn_low; nia.
  - rewrite (sgn_high w a) by lia.
    assert (D : (a - 2 ^ w) / 2 ^ w = -1) by (symmetry; apply Z.div_unique with a; lia).
    rewrite D. replace (wrap w (-1)) with (2 ^ w - 1).
    2: { unfold wrap. rewrite <- (Z.mod_add (-1) 1) by lia. rewrite Z.mod_small; lia. }
    rewrite sgn_high by nia. lia.
Qed.

Lemma quot_bound n d h : - h <= n < h -> d <> 0 -> ~ (n = - h /\ d = -1) -> - h <= Z.quot n d < h.
Proof.
  intros Hn Hd Ho. destruct (decide (Z.abs d = 1)) as [H1|H1].
  - assert (d = 1 \/ d = -1) as [-> | ->] by lia; [rewrite Z.quot_1_r; lia |].
    replace (-1) with (- (1)) by lia. rewrite Z.quot_opp_r, Z.quot_1_r by lia. lia.
  - pose proof (Z.quot_abs n d Hd) as E. assert (Z.abs n ÷ Z.abs d <= Z.abs n / 2).
    { rewrite Z.quot_div_nonneg by lia. apply Z.div_le_compat_l; lia. }
    assert (Z.abs n / 2 <= h / 2) by (apply Z.div_le_mono; lia).
    pose proof (Z.div_mod h 2 ltac:(lia)). pose proof (Z.mod_pos_bound h 2 ltac:(lia)). pose proof (Z.div_mod (Z.abs n) 2 ltac:(lia)).
    pose proof (Z.mod_pos_bound (Z.abs n) 2 ltac:(lia)). lia.
Qed.

Lemma idiv_correct w a b : 0 < w -> 0 <= a < 2 ^ w -> sgn w b <> 0 ->
  ~ (sgn w a = - 2 ^ (w - 1) /\ sgn w b = -1) ->
  idiv w (wrap w (sgn w a / 2 ^ w)) a b = Some (Z.quot (sgn w a) (sgn w b), Z.rem (sgn w a) (sgn w b)).
Proof.
  intros Hw Ha Hb Ho. unfold idiv. rewrite sign_spread by done. destruct (Z.eqb_spec (sgn w b) 0); [done |].
  pose proof (quot_bound (sgn w a) (sgn w b) (2 ^ (w - 1)) (sgn_bound w a Hw) Hb Ho).
  destruct (Z.leb_spec (- 2 ^ (w - 1)) (sgn w a ÷ sgn w b)); [| lia]. by destruct (Z.ltb_spec (sgn w a ÷ sgn w b) (2 ^ (w - 1))); [| lia].
Qed.

Lemma sgn_wrap w x : 0 <= w -> sgn w (wrap w x) = sgn w x.
Proof. intros Hw. unfold sgn. by rewrite wrap_wrap. Qed.

(** The sign extension before a division, and the division. *)
Lemma runs_sign_extend w o q r g M (Q : unit -> GenState -> Machine -> Prop) :
  (w = 32 /\ o = CDQ) \/ (w = 64 /\ o = CQO) ->
  (forall g', same_but_code g g' -> Q tt g' (set_reg M r (wrap w (sgn w (regs M q) / 2 ^ w)))) ->
  runs (emit_with_deps o [] (reg_value w w q) (reg_value w w r)) g M Q.
Proof. intros [[-> ->] | [-> ->]] HQ; eapply runs_emit_deps; done. Qed.

(** The registers of a division: fresh ones for the accumulator and the data
    register. *)
Lemma runs_division w op_ den g M va vb num (k : gen unit) (Q : unit -> GenState -> Machine -> Prop) : 0 < w ->
  grows k -> good_width w -> (forall o, op_ = Ok o -> (w = 32 /\ o = CDQ) \/ (w = 64 /\ o = CQO)) ->
  holds g M num w va -> holds g M den w vb -> is_const den = false -> sgn w vb <> 0 ->
  ~ (sgn w va = - 2 ^ (w - 1) /\ sgn w vb = -1) ->
  forall quotient remainder, quotient = reg_value w w (fresh g) -> remainder = reg_value w w (fresh g + 1) ->
  forall v1 v2, int_vreg v1 -> int_vreg v2 ->
  (forall g' M', later g M g' M' -> holds g' M' quotient w (wrap w (Z.quot (sgn w va) (sgn w vb))) ->
     holds g' M' remainder w (wrap w (Z.rem (sgn w va) (sgn w vb))) -> runs k g' M' Q) ->
  runs (emit_mov quotient num;; o ← lift op_; emit_with_deps o [] quotient remainder;;
        emit_with_deps IDIV [den] quotient remainder;; k)
    (after_vreg (after_vreg g v1) v2) M Q.
Proof.
  intros Hw Hk G Ho Hn Hd Kd Hz Hov q r -> -> v1 v2 Hv1 Hv2 HQ. set (g0 := after_vreg (after_vreg g v1) v2).
  assert (L0 : later g M g0 M) by (apply later_vreg, later_vreg, later_refl).
  assert (Dr : is_int_dest g0 (fresh g + 1)).
  { replace (fresh g + 1) with (fresh (after_vreg g v1)); [by apply fresh_is_dest |].
    unfold fresh, after_vreg. cbn [g_vregs w_vregs]. rewrite length_app. cbn. lia. }
  assert (Dq : is_int_dest g0 (fresh g)).
  { eapply is_dest_prefix; [| by apply (fresh_is_dest g v1)]. cbn. by apply prefix_app_r. }
  rbind. eapply runs_mov; [done | by eapply holds_later |]. intros k1 g1 S1.
  set (M1 := set_reg M (fresh g) _).
  assert (E1 : wrap w (regs M1 (fresh g)) = va).
  { unfold M1. rewrite set_reg_same, wrap_merge by (done || lia). apply wrap_small. eapply holds_bound; [| exact Hn]. lia. }
  rbind. apply runs_lift. intros o Eo. rbind. eapply runs_sign_extend; [by apply Ho |]. intros g2 S2.
  rewrite <- (sgn_wrap w (regs M1 (fresh g))), E1 by lia. set (M2 := set_reg M1 (fresh g + 1) _).
  assert (L2 : later g M g2 M2).
  { apply later_write; [eapply later_emit; [apply later_write; [by eapply later_emit | done] | done] | unfold fresh; lia]. }
  assert (E2 : wrap w (regs M2 (fresh g)) = va) by (cbn; destruct (Z.eqb_spec (fresh g) (fresh g + 1)); [lia | exact E1]).
  assert (E3 : wrap w (regs M2 (fresh g + 1)) = wrap w (sgn w va / 2 ^ w)) by (unfold M2; rewrite set_reg_same, wrap_wrap by lia; done).
  pose proof (holds_later _ _ _ _ _ _ _ L2 Hd) as Hd2.
  rbind. eapply runs_emit_deps.
  { unfold step. cbn [op args vreg_deps]. rewrite (holds_reg_width _ _ _ _ _ Hd2 Kd). cbn [mbind option_bind].
    rewrite (holds_read _ _ _ _ _ Hd2). cbn [mbind option_bind]. rewrite E2, E3, idiv_correct by (done || (eapply holds_bound; [| exact Hn]; lia)).
    done. }
  intros g3 S3. cbn zeta. set (q := Z.quot _ _). set (r := Z.rem _ _).
  assert (D3q : is_int_dest g3 (fresh g)) by (do 3 (eapply is_dest_same; [eassumption |]); done).
  assert (D3r : is_int_dest g3 (fresh g + 1)) by (do 3 (eapply is_dest_same; [eassumption |]); done).
  apply HQ.
  - apply later_write; [apply later_write; [by eapply later_emit | done] | unfold fresh; lia].
  - apply holds_reg; [done |]. cbn. destruct (Z.eqb_spec (fresh g) (fresh g + 1)); [lia |]. rewrite Z.eqb_refl. apply wrap_merge; [done | lia].
  - apply holds_reg; [done |]. rewrite set_reg_same. apply wrap_merge; [done | lia].
Qed.

Lemma eval_div o w a b z : o = OP_DIV \/ o = OP_MOD -> eval_binary o w a b = Some z ->
  sgn w b <> 0 /\ ~ (sgn w a = - 2 ^ (w - 1) /\ sgn w b = -1) /\
  z = wrap w (if bool_decide (o = OP_DIV) then Z.quot (sgn w a) (sgn w b) else Z.rem (sgn w a) (sgn w b)).
Proof.
  intros Ho H. unfold eval_binary in H.
  destruct ((sgn w b =? 0) || (sgn w a =? - 2 ^ (w - 1)) && (sgn w b =? -1)) eqn:B.
  - by destruct Ho as [-> | ->].
  - apply orb_false_iff in B as [B1 B2]. bsplit. split; [done |]. split.
    + intros [E1 E2]. by rewrite E1, E2, Z.eqb_refl in B2.
    + by destruct Ho as [-> | ->]; injection H as <-.
Qed.

Lemma div_correct env g M i x w z : selects env g M i x w z -> instr_op x = OP_DIV \/ instr_op x = OP_MOD ->
  runs (asm_gen_div i x) g M (done_with env i z g M).
Proof.
  intros S Ho. pose proof S as [Hs Hn Hx Hw He]. unfold asm_gen_div. rbind. apply runs_lift. intros [] Hint.
  destruct (is_int (instr_type x)) eqn:Hi; [| done]. pose proof (gpr_width_good _ _ Hw) as G. destruct (good_bounds _ G) as [W0 W1].
  destruct (binary_operands _ _ _ _ _ Hw He) as (a & b & va & vb & Hga & Ea & Eb & Er & Hk); [destruct Ho as [-> | ->]; set_solver |].
  rbind. rewrite (int_type x w) by done. apply runs_lift. intros ? [= <-].
  rbind. rewrite Hga. apply runs_lift. intros ? [= <-].
  eapply runs_operands; [exact S | by intros; grow | done | done |]. clear dependent g M.
  intros num den g M S H1 H2.
  pose proof (eval_div _ _ _ _ _ Ho Er) as Hd.
  destruct Hd as (Hz & Hov & ->).
  (* the denominator in a register *)
  rbind. eapply (runs_mono _ _ _ (fun d g1 M1 => later g M g1 M1 /\ holds g1 M1 d w vb /\ is_const d = false)).
  { destruct (is_const den) eqn:K; [| apply runs_ret; split_and!; [apply later_refl | done | done]].
    rbind. apply runs_new_asm_vreg; [done |]. intros v Hv _. assert (L1 : later g M (after_vreg g v) M) by (apply later_vreg, later_refl).
    rbind. eapply runs_mov; [by apply fresh_is_dest | by eapply holds_later |]. intros k g1 S1. apply runs_ret. split_and!; [| | done].
    - apply later_write; [by eapply later_emit | done].
    - apply holds_reg; [by eapply is_dest_same, fresh_is_dest |]. rewrite set_reg_same, wrap_merge by (done || lia).
      apply wrap_small. by eapply holds_bound. }
  intros d g1 M1 (L1 & Hd & Kd). pose proof (holds_later _ _ _ _ _ _ _ L1 H1) as H1'.
  rbind. apply runs_pre_alloced; [done | done |]. intros v1 Hv1 _. rbind. apply runs_pre_alloced; [done | done |]. intros v2 Hv2 _.
  eapply (runs_division w _ d g1 M1 va vb num); try done; try lia.
  { grow. }
  { intros o. destruct (Z.eqb_spec w 32); [intros [= <-]; auto |]. destruct (Z.eqb_spec w 64); [intros [= <-]; auto | done]. }
  { f_equal. unfold fresh, after_vreg. cbn [g_vregs w_vregs]. rewrite length_app. cbn. lia. }
  intros g2 M2 L2 Hq Hr. set (res_ := if bool_decide (instr_op x = OP_DIV) then _ else _).
  assert (Hres : holds g2 M2 res_ w (wrap w (if bool_decide (instr_op x = OP_DIV) then Z.quot (sgn w va) (sgn w vb) else Z.rem (sgn w va) (sgn w vb))))
    by (unfold res_; by case_bool_decide).
  (* the result moves to the register of the instruction *)
  rbind. apply runs_new_asm_vreg; [done |]. intros v Hv Hf. assert (L3 : later g2 M2 (after_vreg g2 v) M2) by (apply later_vreg, later_refl).
  rbind. eapply runs_mov; [by apply fresh_is_dest | by eapply holds_later |]. intros k g3 S3.
  rbind. apply runs_assign; [unfold fresh in *; lia |]. apply runs_bound, runs_ret. intros Hf'.
  pose proof (later_trans _ _ _ _ _ _ L1 L2) as L.
  assert (L4 : later g M g3 (set_reg M2 (fresh g2) (merge w (regs M2 (fresh g2)) (wrap w (if bool_decide (instr_op x = OP_DIV) then Z.quot (sgn w va) (sgn w vb) else Z.rem (sgn w va) (sgn w vb)))))).
  { apply later_write; [eapply later_trans; [exact L |]; by eapply later_emit | by apply later_fresh in L]. }
  pose proof S as [Hs' Hn' Hx' _ He'].
  eapply outcome_intro; [exact Hs' | exact Hn' | exact Hx' | exact Hw | exact He' | | | exact Hf' |].
  - by apply later_extends in L4 as []; split.
  - cbn. by rewrite (l_ir _ _ _ _ L4).
  - assert (D3 : is_int_dest g3 (fresh g2)) by (by eapply is_dest_same, fresh_is_dest). apply dest_in_vreg; [exact D3 |].
    rewrite set_reg_same, wrap_merge by (done || lia). by rewrite wrap_wrap.
Qed.

(** ** Straight-line code *)

Lemma runs_pure {A} (m m' : gen A) g M (Q : A -> GenState -> Machine -> Prop) :
  (forall a g', m g = Ok (a, g') -> m' g = Ok (a, g')) -> runs m' g M Q -> runs m g M Q.
Proof. intros H R a g' E. by apply R, H. Qed.

(** The part of [asm_gen_instr] for an operation. *)
Lemma instr_select f ig b i x g a g' : instrs (g_ir g) !! i = Some x ->
  asm_gen_instr f ig b i g = Ok (a, g') ->
  match instr_op x with
  | OP_CMP | OP_CAST => mret tt
  | OP_ZEXT => asm_gen_zext i x
  | OP_SEXT => asm_gen_sext i x
  | OP_TRUNC => asm_gen_trunc i x
  | OP_BIT_XOR => asm_gen_binary_instr i x XOR
  | OP_BIT_AND => asm_gen_binary_instr i x AND
  | OP_BIT_OR => asm_gen_binary_instr i x OR
  | OP_BIT_NOT => asm_gen_unary i x NOT
  | OP_NEG => asm_gen_unary i x NEG
  | OP_SHL => asm_gen_shift i x SHL
  | OP_SHR => asm_gen_shift i x SHR
  | OP_ADD => asm_gen_binary_instr i x ADD
  | OP_SUB => asm_gen_binary_instr i x SUB
  | OP_MUL => asm_gen_mul i x
  | OP_DIV | OP_MOD => asm_gen_div i x
  | OP_RET => asm_gen_ret ig x
  | OP_RET_VOID => g ← get; emit_instr1 JMP (asm_symbol (g_ret_label g));; mret tt
  | OP_JUMP => target ← lift (get_target x); handle_phi_nodes b target;; emit_jump JMP target
  | OP_COND => asm_gen_cond b x
  | _ => asm_gen_instr f ig b i
  end g = Ok (a, g').
Proof.
  intros Ex E. unfold asm_gen_instr in E.
  apply st_bind_Ok in E as (? & g1 & E1 & E). unfold lift in E1. destruct (PRECONDITION _) eqn:P; [| done]. injection E1 as <- <-.
  apply st_bind_Ok in E as (y & g2 & E2 & E). unfold load_instr in E2.
  apply st_bind_Ok in E2 as (? & ? & [= <- <-] & E2). rewrite Ex in E2. injection E2 as <- <-.
  destruct (instr_op x) eqn:Ho; try exact E.
  all: unfold asm_gen_instr, load_instr, mbind, st_bind, lift, get; rewrite P; cbn; rewrite Ex; cbn; rewrite Ho; exact E.
Qed.

Lemma instr_correct env g M i x w z f ig b : selects env g M i x w z ->
  runs (asm_gen_instr f ig b i) g M (done_with env i z g M).
Proof.
  intros S. pose proof (eval_result_op _ _ _ _ (s_eval _ _ _ _ _ _ _ S)) as Ho. rewrite list_elem_of_In in Ho. cbn in Ho.
  eapply runs_pure; [intros a g'; apply instr_select, S |].
  destruct (instr_op x) eqn:E; try (exfalso; intuition discriminate).
  all: lazymatch goal with
  | |- runs (asm_gen_binary_instr _ _ _) _ _ _ => eapply binary_correct; [exact S | rewrite E; set_solver]
  | |- runs (asm_gen_unary _ _ _) _ _ _ => eapply unary_correct; [exact S | rewrite E; set_solver]
  | |- runs (asm_gen_shift _ _ _) _ _ _ => eapply shift_correct; [exact S | rewrite E; set_solver]
  | |- runs (asm_gen_mul _ _) _ _ _ => by eapply mul_correct
  | |- runs (asm_gen_div _ _) _ _ _ => eapply div_correct; [exact S | tauto]
  | |- runs (asm_gen_zext _ _) _ _ _ => by eapply zext_correct
  | |- runs (asm_gen_sext _ _) _ _ _ => by eapply sext_correct
  | |- runs (asm_gen_trunc _ _) _ _ _ => by eapply trunc_correct
  | |- runs (mret tt) _ _ _ => eapply lazy_correct; [exact S | by rewrite E]
  end.
Qed.

Lemma eval_instr_width m env x z : eval_instr arg m env x = Some z -> exists w, gpr_width (instr_type x) = Some w.
Proof. unfold eval_instr. destruct (gpr_width (instr_type x)); [eauto | done]. Qed.

Lemma extends_refl g M : extends g M g M.
Proof. by split. Qed.

(** Straight-line code computes the values of its instructions. *)
Lemma straight_correct m f ig b l : forall env g M env', sim env g M -> same_ir m (g_ir g) ->
  eval_block arg m env l = Some env' ->
  runs (each (asm_gen_instr f ig b) l) g M (fun _ g' M' => sim env' g' M' /\ extends g M g' M' /\ same_ir m (g_ir g')).
Proof.
  induction l as [|i l IH]; intros env g M env' Hs Hm He.
  { injection He as <-. apply runs_ret. split_and!; [done | apply extends_refl | done]. }
  cbn in He. apply bind_Some in He as (x & Ex & He). apply bind_Some in He as (z & Ez & He).
  destruct (env !! i) eqn:Ei; [done |].
  destruct (same_ir_lookup _ _ _ _ Hm Ex) as (x' & Ex' & Ess).
  assert (Ez' : eval_instr arg (g_ir g) env x' = Some z) by (by erewrite <- eval_instr_same).
  destruct (eval_instr_width _ _ _ _ Ez') as [w Hw].
  unfold each. cbn [foldS]. apply runs_bind; [intros ?; apply grows_foldS; intros; grow |].
  eapply runs_mono; [by apply (instr_correct env g M i x' w z) |]. intros u g1 M1 [Hs1 L1 Sm1].
  destruct u. assert (Hm1 : same_ir m (g_ir g1)) by (unfold same_ir in *; congruence).
  eapply runs_mono; [by apply (IH (<[i := z]> env)) |]. intros u g2 M2 (Hs2 & L2 & Hm2).
  split_and!; [done | by eapply extends_trans | done].
Qed.

(** ** The end of a block *)

(** Like [runs], for code that ends in a jump. *)
Definition leaves {A} (m : gen A) (g : GenState) (M : Machine) (Q : nat -> GenState -> Machine -> Prop) : Prop :=
  forall a g', m g = Ok (a, g') -> g_block g = Body -> fresh g' <= 2 ^ 31 ->
  exists c M' s, g_body g' = g_body g ++ c /\ exec c M = Some (M', Some s) /\ Q s g' M'.

Lemma leaves_after {A B} (m : gen A) (k : A -> gen B) g M (Q : nat -> GenState -> Machine -> Prop) :
  (forall a, grows (k a)) -> runs m g M (fun a g1 M1 => leaves (k a) g1 M1 Q) -> leaves (m ≫= k) g M Q.
Proof.
  intros Hk H b g2 E Hb Hn. apply st_bind_Ok in E as (a & g1 & E1 & E2).
  assert (Hn1 : fresh g1 <= 2 ^ 31).
  { unfold fresh in *. pose proof (Hk a (length (g_vregs g1)) _ _ _ (le_n _) E2). cbn in *. lia. }
  destruct (H a g1 E1 Hb Hn1) as (c1 & M1 & Ec1 & Hb1 & Ex1 & H2).
  destruct (H2 b g2 E2 Hb1 Hn) as (c2 & M2 & s & Ec2 & Ex2 & HQ).
  exists (c1 ++ c2), M2, s. rewrite Ec2, Ec1, app_assoc. split_and!; [done | | done].
  by rewrite (exec_app c1 c2 M M1).
Qed.

Lemma leaves_mono {A} (m : gen A) g M (Q Q' : nat -> GenState -> Machine -> Prop) :
  leaves m g M Q -> (forall s g' M', Q s g' M' -> Q' s g' M') -> leaves m g M Q'.
Proof. intros H HQ a g' E Hb Hn. destruct (H a g' E Hb Hn) as (c & M' & s & ? & ? & ?). exists c, M', s. auto. Qed.

Lemma leaves_jump l g M : leaves (emit_instr1 JMP (asm_symbol l)) g M
  (fun s g' M' => s = l /\ M' = M /\ same_but_code g g').
Proof.
  intros k g' E Hb _. destruct (emit_body _ _ _ _ _ E Hb) as (Ec & _ & Hs).
  exists [mkAsmInstr JMP [asm_symbol l] [] None], M, l. split_and!; [done | done | done | done | done].
Qed.

Lemma leaves_emit_jump t l g M : g_labels g !! t = Some l ->
  leaves (emit_jump JMP t) g M (fun s g' M' => s = l /\ M' = M /\ same_but_code g g').
Proof.
  intros El. unfold emit_jump, label_of_block. apply leaves_after; [intros; grow |].
  rbind. apply runs_get. rewrite El. apply runs_lift. intros ? [= <-].
  intros u g' E. apply st_bind_Ok in E as (k & g1 & E1 & [= _ <-]). by apply (leaves_jump l g M k).
Qed.

Lemma flip_first cmp a b cmp' a' b' : maybe_flip_conditional cmp a b = (cmp', a', b') ->
  is_const_int a && is_const_int b = false -> is_const_int a' = false.
Proof. unfold maybe_flip_conditional. destruct (is_const_int a) eqn:K; intros [= <- <- <-]; [done | done]. Qed.

(** A computation that returns [r], whose code ends in a conditional jump to [l],
    taken when [c]. *)
Definition branches {A} (m : gen A) (g : GenState) (M : Machine) (l : nat) (c : bool) (r : A) : Prop :=
  forall a g', m g = Ok (a, g') -> g_block g = Body -> fresh g' <= 2 ^ 31 ->
  exists code M' o, g_body g' = g_body g ++ code ++ [mkAsmInstr o [asm_symbol l] [] None] /\ g_block g' = Body /\
    exec code M = Some (M', None) /\ is_cond_jump o = true /\ condition_met o (flags M') = Some c /\ later g M g' M' /\ a = r.

Lemma branches_after {A B} (m : gen A) (k : A -> gen B) g M l c r : (forall a, grows (k a)) ->
  runs m g M (fun a g1 M1 => later g M g1 M1 /\ branches (k a) g1 M1 l c r) -> branches (m ≫= k) g M l c r.
Proof.
  intros Hk H b g2 E Hb Hn. apply st_bind_Ok in E as (a & g1 & E1 & E2).
  assert (Hn1 : fresh g1 <= 2 ^ 31).
  { unfold fresh in *. pose proof (Hk a (length (g_vregs g1)) _ _ _ (le_n _) E2). cbn in *. lia. }
  destruct (H a g1 E1 Hb Hn1) as (c1 & M1 & Ec1 & Hb1 & Ex1 & L1 & H2).
  destruct (H2 b g2 E2 Hb1 Hn) as (c2 & M2 & o & Ec2 & Hb2 & Ex2 & Ho & Hc & L2 & ->).
  exists (c1 ++ c2), M2, o. rewrite Ec2, Ec1, <- !app_assoc. split_and!; [done | done | | done | done | by eapply later_trans | done].
  by rewrite (exec_app c1 c2 M M1).
Qed.

Lemma branches_emit {A} o l c (x : A) g M : is_cond_jump o = true -> condition_met o (flags M) = Some c ->
  branches (emit_instr1 o (asm_symbol l);; mret x) g M l c x.
Proof.
  intros Ho Hc a g' E Hb _. apply st_bind_Ok in E as (k & g1 & E1 & [= <- <-]).
  destruct (emit_body _ _ _ _ _ E1 Hb) as (Ec & _ & Hs).
  exists [], M, o. split_and!; [done | by rewrite (sb_block _ _ Hs) | done | done | done | by eapply later_emit, Hs; apply later_refl | done].
Qed.

Lemma jump_is_cond cmp : is_cond_jump (jump_op cmp) = true.
Proof. by destruct cmp. Qed.

(** The code for a comparison that is only used by the jump. *)
Lemma branches_cmp env g M y p q cmp w vp vq inv t l (A : Type) (r : A) : sim env g M ->
  eval_value arg (g_ir g) env p = Some (w, vp) -> eval_value arg (g_ir g) env q = Some (w, vq) ->
  is_const_int p && is_const_int q = false -> g_labels g !! t = Some l -> instr_op y = OP_CMP ->
  branches
    (let '(cmp, arg1, arg2) := maybe_flip_conditional cmp p q in
     let cmp := if inv : bool then invert_cmp cmp else cmp in
     v ← asm_value arg2;
     b ← lift (type_bits (val_type arg1));
     arg2_value ← maybe_move_const_to_reg v b true;
     o ← lift (compare_op (instr_op y) p);
     arg1_value ← asm_value arg1;
     emit_instr2 o arg1_value arg2_value;;
     l ← label_of_block t;
     emit_instr1 (jump_op cmp) (asm_symbol l);;
     mret r) g M l (xorb inv (cmp_holds cmp w vp vq)) r.
Proof.
  intros Hs Ep Eq K El Hy. destruct (maybe_flip_conditional cmp p q) as [[cmp' p'] q'] eqn:Ef.
  destruct (flipped_operands _ _ _ _ _ inv _ _ _ _ _ _ Ef Ep Eq) as (vp' & vq' & Ep' & Eq' & <- & _).
  pose proof (flip_first _ _ _ _ _ _ Ef K) as Kp. pose proof (eval_value_width _ _ _ _ _ Ep) as Hw.
  destruct (good_bounds _ Hw) as [W0 W1]. unfold emit_instr1, emit_instr2, label_of_block.
  apply branches_after; [intros; grow |]. eapply (runs_value env); [apply asm_value_correct | done | done |].
  intros a2 g1 M1 [L1 H2 _ _] Hs1. split; [done |].
  apply branches_after; [intros; grow |]. apply runs_lift. intros b Eb. split; [apply later_refl |].
  rewrite (type_bits_width _ _ (eval_value_gpr _ _ _ _ _ Ep')) in Eb. injection Eb as <-.
  apply branches_after; [intros; grow |]. apply runs_bound.
  eapply (runs_maybe_move g1 M1 a2 w vq'); [done | done |]. intros a2' g2 M2 L2 H2' _ Hf2. split; [done |].
  pose proof (sim_later _ _ _ _ _ L2 Hf2 Hs1) as Hs2.
  apply branches_after; [intros; grow |]. rewrite Hy. apply runs_lift. intros o [= <-]. split; [apply later_refl |].
  apply branches_after; [intros; grow |].
  eapply (runs_value env); [apply asm_value_correct | done | |].
  { rewrite (later_ir_value _ _ _ _ _ _ L2), (later_ir_value _ _ _ _ _ _ L1). exact Ep'. }
  intros a1 g3 M3 [L3 H1 C1 _] _. split; [done |]. pose proof (holds_later _ _ _ _ _ _ _ L3 H2') as H3.
  apply branches_after; [intros; grow |]. eapply runs_emit.
  { eapply step_cmp; [by eapply holds_read | by eapply holds_read | eapply holds_reg_width; [done | by apply C1]]. }
  intros k g4 S4. split; [by apply later_flags; eapply later_emit; [apply later_refl |] |].
  apply branches_after; [intros; grow |]. apply runs_bind; [intros; grow |]. apply runs_get.
  assert (El4 : g_labels g4 !! t = Some l).
  { by rewrite (sb_labels _ _ S4), (l_labels _ _ _ _ L3), (l_labels _ _ _ _ L2), (l_labels _ _ _ _ L1). }
  rewrite El4. apply runs_lift. intros ? [= <-]. split; [apply later_refl |].
  apply branches_emit; [apply jump_is_cond |]. cbn [flags].
  apply condition_correct; [lia | by eapply holds_bound | by eapply holds_bound | by right].
Qed.

(** The code before the jump of [OP_COND], for a condition that is not constant. *)
Definition cond_code (x : IrInstr) (condition : IrValue) (then_block : nat) : gen unit :=
  done ← asm_gen_cond_of_cmp x;
  if done : bool then mret tt
  else
    v ← asm_value condition;
    emit_instr2 CMP v (asm_imm 0);;
    emit_jump JNE then_block.

Lemma inner_cmp_other m n i x : instrs m !! i = Some x -> instr_op x <> OP_CMP ->
  forall r, get_inner_cmp m n i = Ok r -> r = (false, i).
Proof.
  intros Ex Ho r. destruct n as [|n]; [done |]. cbn. rewrite Ex. cbn. rewrite bool_decide_false by done. cbn. by intros [= <-].
Qed.

(** A condition that is compared with zero. *)
Lemma branches_zero env g M v w z t l : sim env g M -> eval_value arg (g_ir g) env v = Some (w, z) ->
  is_const_int v = false -> g_labels g !! t = Some l ->
  branches (a ← asm_value v; emit_instr2 CMP a (asm_imm 0);; emit_jump JNE t) g M l (negb (z =? 0)) tt.
Proof.
  intros Hs Ev K El. pose proof (eval_value_width _ _ _ _ _ Ev) as Hw. destruct (good_bounds _ Hw) as [W0 W1].
  unfold emit_jump, label_of_block, emit_instr2.
  apply branches_after; [intros; grow |]. eapply (runs_value env); [apply asm_value_correct | done | done |].
  intros a g1 M1 [L1 H1 C1 _] _. split; [done |].
  apply branches_after; [intros; unfold emit_instr1; grow |]. eapply runs_emit.
  { eapply (step_cmp _ _ _ w z 0); [by eapply holds_read | cbn; by rewrite (wrap_small w 0) by (pose proof (pow2_pos w W0); lia) |
      eapply holds_reg_width; [done | by apply C1]]. }
  intros k g2 S2. split; [by apply later_flags; eapply later_emit; [apply later_refl |] |].
  apply branches_after; [intros; unfold emit_instr1; grow |]. apply runs_bind; [intros; grow |]. apply runs_get.
  assert (El2 : g_labels g2 !! t = Some l) by (by rewrite (sb_labels _ _ S2), (l_labels _ _ _ _ L1)).
  rewrite El2. apply runs_lift. intros ? [= <-]. split; [apply later_refl |].
  apply branches_emit; [done |]. cbn [flags condition_met].
  rewrite flags_equal; [done | lia | by eapply holds_bound | pose proof (pow2_pos w W0); lia].
Qed.

Lemma branches_then {A B} (m : gen A) (k : A -> gen B) g M l c r r' : (forall a, grows (k a)) ->
  branches m g M l c r -> k r = mret r' -> branches (m ≫= k) g M l c r'.
Proof.
  intros Hg H Hk b g2 E Hb Hn. apply st_bind_Ok in E as (a & g1 & E1 & E2).
  assert (Hn1 : fresh g1 <= 2 ^ 31).
  { unfold fresh in *. pose proof (Hg a (length (g_vregs g1)) _ _ _ (le_n _) E2). cbn in *. lia. }
  destruct (H a g1 E1 Hb Hn1) as (c1 & M1 & o & ? & ? & ? & ? & ? & ? & ->). rewrite Hk in E2. injection E2 as <- <-.
  by exists c1, M1, o.
Qed.

Ltac code := intros; unfold emit_jump, label_of_block, emit_instr1, emit_instr2; grow.

(** The jump of [OP_COND] is taken when the condition is not zero. *)
Lemma cond_correct env g M x v i t e w z l : sim env g M -> instr_op x = OP_COND -> instr_u x = U_cond v t e ->
  val_u v = IR_VALUE_INSTR i -> eval_value arg (g_ir g) env v = Some (w, z) -> g_labels g !! t = Some l ->
  branches (cond_code x v t) g M l (negb (z =? 0)) tt.
Proof.
  intros Hs Hx Hu Hv Ev El. unfold cond_code, asm_gen_cond_of_cmp, get_cond. rewrite Hx, Hu.
  pose proof (eval_value_instr _ _ _ _ _ _ Hv Ev) as Ez.
  destruct (sim_consistent _ _ _ Hs i z Ez) as (y & Ey & Hy).
  destruct (decide (instr_op y = OP_CMP)) as [Ho|Ho].
  - apply (branches_then _ _ _ _ _ _ true); [code | | done].
    apply branches_after; [code |]. apply runs_lift. intros ? _. split; [apply later_refl |].
    apply branches_after; [code |]. apply runs_lift. intros ? [= <-]. split; [apply later_refl |]. rewrite Hv.
    apply branches_after; [code |]. eapply runs_inner_cmp; [done | done | done | done |].
    intros inv j y' b Ey' Hy' Eb ->. split; [apply later_refl |].
    destruct (inner_operands _ _ _ _ _ _ Hs Ey' Hy' Eb) as (p & q & cmp & w' & vp & vq & Hu' & Ep & Eq & -> & K).
    apply branches_after; [code |]. apply (runs_load_instr j g M y'); [done |]. split; [apply later_refl |].
    rewrite Hy'. cbn [negb bool_decide andb decide_rel].
    apply branches_after; [code |]. unfold get_cmp. rewrite Hu'. apply runs_lift. intros ? [= <-].
    split; [apply later_refl |]. rewrite <- Hy'.
    replace (negb _) with (xorb inv (cmp_holds cmp w' vp vq)) by (by destruct (xorb _ _)).
    by apply (branches_cmp env g M y' p q cmp w' vp vq inv t l bool true).
  - apply branches_after; [code |].
    apply runs_bind; [code |]. apply runs_lift. intros ? _.
    apply runs_bind; [code |]. apply runs_lift. intros ? [= <-]. rewrite Hv.
    apply runs_bind; [code |]. unfold inner_cmp. apply runs_bind; [code |]. apply runs_get.
    apply runs_lift. intros r Er. rewrite (inner_cmp_other _ _ _ _ Ey Ho r Er).
    apply runs_bind; [code |]. apply (runs_load_instr i g M y); [done |].
    pose proof (eval_result_op _ _ _ _ Hy) as Hop. rewrite list_elem_of_In in Hop. cbn in Hop.
    rewrite !bool_decide_false by (intros E; rewrite E in *; intuition discriminate).
    apply runs_ret. split; [apply later_refl |].
    apply (branches_zero env g M v w z t l); [done | done | | done]. unfold is_const_int. by rewrite Hv.
Qed.
(** A conditional jump to [l], then one to [l2]. *)
Lemma leaves_branch {A B} (m : gen A) (k : A -> gen B) g M l c r l2 : (forall a, grows (k a)) ->
  branches m g M l c r ->
  (forall g1 M1, later g M g1 M1 -> leaves (k r) g1 M1 (fun s g' M' => s = l2 /\ M' = M1 /\ same_but_code g1 g')) ->
  leaves (m ≫= k) g M (fun s g' M' => s = (if c then l else l2) /\ later g M g' M').
Proof.
  intros Hg Br K b g2 E Hb Hn. apply st_bind_Ok in E as (a & g1 & E1 & E2).
  assert (Hn1 : fresh g1 <= 2 ^ 31).
  { unfold fresh in *. pose proof (Hg a (length (g_vregs g1)) _ _ _ (le_n _) E2). cbn in *. lia. }
  destruct (Br a g1 E1 Hb Hn1) as (c1 & M1 & o & Ec1 & Hb1 & Ex1 & Ho & Hc & L1 & ->).
  destruct (K g1 M1 L1 b g2 E2 Hb1 Hn) as (c2 & M2 & s & Ec2 & Ex2 & -> & -> & Sc).
  exists (c1 ++ [mkAsmInstr o [asm_symbol l] [] None] ++ c2), M1, (if c then l else l2).
  split_and!; [by rewrite Ec2, Ec1, <- !app_assoc | | done | by eapply later_emit].
  rewrite (exec_app c1 _ M M1) by done.
  assert (Es : step (mkAsmInstr o [asm_symbol l] [] None) M1 = Some (M1, if c then Some l else None)).
  { unfold step. cbn [op args vreg_deps]. destruct o; try discriminate Ho; cbn [is_cond_jump asm_symbol value_u is_deref]; by rewrite Hc. }
  cbn [app exec]. rewrite Es. destruct c; done.
Qed.

Definition exit_label (g : GenState) (e : Exit_to) : option nat :=
  match e with Goto b => g_labels g !! b | Leave | Leave_with _ _ => Some (g_ret_label g) end.

(** A returned value is in a register that is bound to A. *)
Definition returned (e : Exit_to) (g : GenState) (M : Machine) : Prop :=
  match e with
  | Leave_with w z => exists n v, g_vregs g !! n = Some v /\ vreg_u v = IN_REG REG_CLASS_A /\
      wrap w (regs M (Z.of_nat n)) = z
  | Goto _ | Leave => True
  end.

(** The targets of a jump have labels and no phis. *)
Definition target_ready (g : GenState) (t : nat) : Prop :=
  no_phis (g_ir g) t = true /\ is_Some (g_labels g !! t).
Definition targets_ready (g : GenState) (x : IrInstr) : Prop :=
  match instr_u x with
  | U_target_block t => target_ready g t
  | U_cond _ t e => target_ready g t /\ target_ready g e
  | _ => True
  end.

Lemma no_phis_silent b t g : no_phis (g_ir g) t = true -> handle_phi_nodes b t g = Ok (tt, g).
Proof.
  intros H. unfold no_phis in H. destruct (blocks (g_ir g) !! t) as [bl|] eqn:Eb; [| done].
  unfold handle_phi_nodes, load_block, mbind, st_bind, get, lift. cbn. rewrite Eb. cbn.
  destruct (block_instrs bl) as [|i l]; [done |]. destruct (instrs (g_ir g) !! i) as [x|] eqn:Ei; [| done].
  cbn. unfold load_instr, mbind, st_bind, get, lift. cbn. rewrite Ei. cbn. by rewrite H.
Qed.

Lemma runs_no_phis b t g M (Q : unit -> GenState -> Machine -> Prop) : no_phis (g_ir g) t = true ->
  Q tt g M -> runs (handle_phi_nodes b t) g M Q.
Proof. intros H HQ. apply runs_silent. rewrite no_phis_silent by done. by intros a g' [= <- <-]. Qed.

(** Steps after the jump that emit nothing. *)
Lemma leaves_end {A B} (m : gen A) (k : A -> gen B) g M (Q : nat -> GenState -> Machine -> Prop) :
  (forall a, grows (k a)) -> leaves m g M Q ->
  (forall a s g1 M1, Q s g1 M1 -> exists b, k a g1 = Ok (b, g1)) -> leaves (m ≫= k) g M Q.
Proof.
  intros Hg H K b g2 E Hb Hn. apply st_bind_Ok in E as (a & g1 & E1 & E2).
  assert (Hn1 : fresh g1 <= 2 ^ 31).
  { unfold fresh in *. pose proof (Hg a (length (g_vregs g1)) _ _ _ (le_n _) E2). cbn in *. lia. }
  destruct (H a g1 E1 Hb Hn1) as (c & M1 & s & Ec & Ex & HQ).
  destruct (K a s g1 M1 HQ) as [b' Kb]. rewrite Kb in E2. injection E2 as _ <-. by exists c, M1, s.
Qed.

(** Where the code of a terminator goes. *)
Definition goes (e : Exit_to) (g : GenState) (M : Machine) : nat -> GenState -> Machine -> Prop :=
  fun s g' M' => exit_label g e = Some s /\ returned e g' M' /\ later g M g' M'.

Lemma goes_later t l g M g' M' : g_labels g !! t = Some l -> later g M g' M' -> goes (Goto t) g M l g' M'.
Proof. by intros El L. Qed.

Lemma goto_correct b t g M : target_ready g t ->
  leaves (handle_phi_nodes b t;; emit_jump JMP t) g M (goes (Goto t) g M).
Proof.
  intros [Hp [l El]]. apply leaves_after; [code |]. apply runs_no_phis; [done |].
  eapply leaves_mono; [by apply leaves_emit_jump |]. intros s g' M' (-> & -> & Sc).
  apply goes_later; [done | by eapply later_emit; [apply later_refl |]].
Qed.

Lemma cond_const_correct b x v t e c g M : instr_u x = U_cond v t e -> val_u v = IR_VALUE_CONST_INT c ->
  target_ready g t -> target_ready g e ->
  leaves (asm_gen_cond b x) g M (goes (Goto (if c =? 0 then e else t)) g M).
Proof.
  intros Hu Hv Ht He. unfold asm_gen_cond, get_cond. rewrite Hu.
  apply leaves_after; [code |]. apply runs_lift. intros ? [= <-]. rewrite Hv.
  assert (H : forall p q, target_ready g p -> target_ready g q ->
    leaves (handle_phi_nodes b p;; emit_jump JMP p;; handle_phi_nodes b q) g M (goes (Goto p) g M)).
  { clear. intros p q [Hp [l El]] [Hq _]. apply leaves_after; [code |]. apply runs_no_phis; [done |].
    eapply leaves_mono; [apply leaves_end; [code | by apply leaves_emit_jump |] |].
    - intros a s g1 M1 (_ & _ & Sc). eexists. apply no_phis_silent. by rewrite (sb_ir _ _ Sc).
    - intros s g' M' (-> & -> & Sc). apply goes_later; [done | by eapply later_emit; [apply later_refl |]]. }
  destruct (Z.eqb_spec c 0) as [->|]; cbn [negb]; by apply H.
Qed.

Lemma ret_correct env g M ig x w z v : sim env g M -> instr_u x = U_arg v -> 
  eval_value arg (g_ir g) env v = Some (w, z) -> leaves (asm_gen_ret ig x) g M (goes (Leave_with w z) g M).
Proof.
  intros Hs Hu Ev. unfold asm_gen_ret, get_arg. rewrite Hu.
  apply leaves_after; [code |]. apply runs_lift. intros ? [= <-].
  apply leaves_after; [code |]. apply runs_lift. intros t Et.
  apply leaves_after; [code |]. apply runs_lift. intros ? Ha.
  pose proof (eval_value_width _ _ _ _ _ Ev) as Hw. pose proof (eval_value_gpr _ _ _ _ _ Ev) as Hg.
  assert (Ht : t = val_type v).
  { unfold ASSERT in Ha. destruct (ir_type_eq t (val_type v)) eqn:Eq; [| done]. unfold gpr_width in Hg.
    destruct t, (val_type v); try done. cbn in Eq. f_equal. lia. }
  subst t. unfold return_reg_for_type.
  assert (Hf : is_float (val_type v) = false) by (unfold gpr_width in Hg; by destruct (val_type v)).
  rewrite (type_bits_width _ _ Hg), Hf.
  apply leaves_after; [code |]. apply runs_bind; [code |]. apply runs_lift. intros ? _.
  apply runs_bind; [code |]. apply runs_lift. intros ? [= <-].
  apply runs_pre_alloced_in; [done | done |]. intros r Hr Hin Hfr.
  assert (L0 : later g M (after_vreg g r) M) by (apply later_vreg, later_refl).
  assert (Hs1 : sim env (after_vreg g r) M).
  { eapply sim_later; [exact L0 | | done]. unfold fresh in *. cbn. rewrite length_app. cbn. lia. }
  apply leaves_after; [code |]. eapply (runs_value env); [apply asm_value_correct | done | done |].
  intros a1 g1 M1 [L1 H1 _ _] _. pose proof (fresh_is_dest g r Hr) as D.
  assert (D1 : is_int_dest g1 (fresh g)) by (eapply is_dest_prefix; [apply (l_vregs _ _ _ _ L1) | done]).
  apply leaves_after; [code |]. eapply runs_mov; [exact D1 | exact H1 |]. intros k g2 S2.
  apply leaves_after; [code |]. apply runs_get.
  pose proof (later_trans _ _ _ _ _ _ L0 L1) as L.
  eapply leaves_mono; [apply leaves_end; [code | apply leaves_jump |]; by eauto |].
  intros s g' M' (-> & -> & S3). 
  assert (Lf : later g M g' (set_reg M1 (fresh g) (merge w (regs M1 (fresh g)) z))).
  { apply later_write; [| done]. by eapply later_emit, S3; eapply later_emit, S2. }
  split_and!; [cbn | | done].
  - f_equal. by rewrite (sb_ret _ _ S2), (l_ret _ _ _ _ L).
  - exists (length (g_vregs g)), r. split_and!; [| done |].
    + rewrite (sb_vregs _ _ S3), (sb_vregs _ _ S2). eapply prefix_lookup_Some; [| apply (l_vregs _ _ _ _ L1)].
      cbn. by rewrite lookup_app_r, Nat.sub_diag by done.
    + change (Z.of_nat (length (g_vregs g))) with (fresh g). rewrite set_reg_same.
      destruct (good_bounds _ Hw). rewrite wrap_merge by (done || lia). apply wrap_small. eapply holds_bound; [| exact H1]; done.
Qed.
Lemma st_bind_assoc {A B C} (m : gen A) (f : A -> gen B) (k : B -> gen C) g :
  ((m ≫= f) ≫= k) g = (m ≫= (fun a => f a ≫= k)) g.
Proof. unfold mbind, st_bind. by destruct (m g) as [[a g']|]. Qed.

Lemma leaves_pure {A} (m m' : gen A) g M (Q : nat -> GenState -> Machine -> Prop) :
  (forall a g', m g = Ok (a, g') -> m' g = Ok (a, g')) -> leaves m' g M Q -> leaves m g M Q.
Proof. intros H R a g' E. exact (R a g' (H a g' E)). Qed.

Lemma cond_instr_correct env b x v i t e w z g M : sim env g M -> instr_op x = OP_COND -> instr_u x = U_cond v t e ->
  val_u v = IR_VALUE_INSTR i -> eval_value arg (g_ir g) env v = Some (w, z) -> target_ready g t -> target_ready g e ->
  leaves (asm_gen_cond b x) g M (goes (Goto (if z =? 0 then e else t)) g M).
Proof.
  intros Hs Hx Hu Hv Ev [Ht [l El]] [He [l2 El2]]. unfold asm_gen_cond. unfold get_cond at 1. rewrite Hu.
  apply leaves_after; [code |]. apply runs_lift. intros ? [= <-]. rewrite Hv.
  apply leaves_after; [code |]. apply runs_no_phis; [done |].
  apply leaves_pure with (m' := cond_code x v t ≫= fun _ => handle_phi_nodes b e;; emit_jump JMP e).
  { intros a g'. unfold cond_code. by rewrite st_bind_assoc. }
  eapply leaves_mono; [apply (leaves_branch _ _ g M l (negb (z =? 0)) tt l2); [code | by eapply cond_correct |] |].
  - intros g1 M1 L. apply leaves_after; [code |]. apply runs_no_phis; [by rewrite (l_ir _ _ _ _ L) |].
    apply leaves_emit_jump. by rewrite (l_labels _ _ _ _ L).
  - intros s g' M' [-> L]. split_and!; [| done | done]. cbn. by destruct (z =? 0).
Qed.

Lemma terminator_correct env g M i x e f ig b : sim env g M -> instrs (g_ir g) !! i = Some x ->
  eval_terminator arg (g_ir g) env x = Some e -> targets_ready g x ->
  leaves (asm_gen_instr f ig b i) g M (goes e g M).
Proof.
  intros Hs Ex He Ht. eapply leaves_pure; [intros a g'; by apply instr_select |].
  unfold eval_terminator, targets_ready in *. destruct (instr_op x) eqn:Ho; try discriminate He.
  - destruct (instr_u x) eqn:Hu; try discriminate He. apply bind_Some in He as ([w z] & Ev & [= <-]).
    by eapply ret_correct.
  - injection He as <-. apply leaves_after; [code |]. apply runs_get.
    eapply leaves_mono; [apply leaves_end; [code | apply leaves_jump |]; by eauto |].
    intros s g' M' (-> & -> & Sc). split_and!; [done | done |]. by eapply later_emit; [apply later_refl |].
  - destruct (instr_u x) eqn:Hu; try discriminate He. injection He as <-. unfold get_target. rewrite Hu.
    apply leaves_after; [code |]. apply runs_lift. intros ? [= <-]. by apply goto_correct.
  - destruct (instr_u x) as [| | | | | | | v t el | | |] eqn:Hu; try discriminate He. destruct Ht as [Ht1 Ht2].
    destruct (val_u v) eqn:Hv; try discriminate He.
    + injection He as <-. by eapply cond_const_correct.
    + apply bind_Some in He as ([w z] & Ev & [= <-]). by eapply cond_instr_correct.
Qed.
Lemma no_phis_same m m' t : same_ir m m' -> blocks m = blocks m' -> no_phis m t = no_phis m' t.
Proof.
  intros H B. unfold no_phis. rewrite B. destruct (blocks m' !! t) as [bl|]; [| done].
  destruct (block_instrs bl) as [|i l]; [done |]. destruct (instrs m !! i) as [x|] eqn:Ex.
  - destruct (same_ir_lookup _ _ _ _ H Ex) as (x' & -> & E). assert (instr_op x' = instr_op x) as -> by (by injection E).
    done.
  - destruct (instrs m' !! i) as [x'|] eqn:Ex'; [| done]. exfalso.
    destruct (same_ir_lookup m' m i x' (eq_sym H) Ex') as (? & ? & _). congruence.
Qed.

Lemma eval_terminator_same m m' env x x' : same_ir m m' -> strip x' = strip x ->
  eval_terminator arg m env x = eval_terminator arg m' env x'.
Proof.
  intros H E. unfold eval_terminator. assert (instr_op x' = instr_op x /\ instr_u x' = instr_u x) as [-> ->] by (by injection E).
  destruct (instr_op x), (instr_u x); try done; rewrite ?(eval_value_same arg m m') by done; done.
Qed.

Lemma targets_later g M g' M' x x' : extends g M g' M' -> same_ir (g_ir g) (g_ir g') -> strip x' = strip x ->
  targets_ready g x -> targets_ready g' x'.
Proof.
  intros L Hs E. assert (instr_u x' = instr_u x) as Eu by (by injection E). unfold targets_ready. rewrite Eu.
  assert (R : forall t, target_ready g t -> target_ready g' t).
  { intros t [H1 H2]. split; [| by rewrite (e_labels _ _ _ _ L)].
    rewrite <- H1. symmetry. apply no_phis_same; [done | symmetry; apply (e_blocks _ _ _ _ L)]. }
  destruct (instr_u x); auto. intros []; auto.
Qed.

Lemma each_end {A} (h : A -> gen unit) l t g : each h (l ++ [t]) g = (each h l ≫= fun _ => h t) g.
Proof.
  unfold each. revert g. induction l as [|a l IH]; intros g; cbn [app foldS].
  - unfold mbind, st_bind, mret, st_ret. destruct (h t g) as [[[] g']|]; done.
  - rewrite st_bind_assoc. unfold mbind, st_bind in *. destruct (h a g) as [[[] g']|]; [apply IH | done].
Qed.

(** A whole block: its values, then where it goes. *)
Lemma block_runs m f ig b l t x e env g M env' : sim env g M -> same_ir m (g_ir g) ->
  eval_block arg m env l = Some env' -> instrs m !! t = Some x -> eval_terminator arg m env' x = Some e ->
  targets_ready g x ->
  leaves (each (asm_gen_instr f ig b) (l ++ [t])) g M (fun s g' M' =>
    exit_label g e = Some s /\ returned e g' M' /\ (fresh g' <= 2 ^ 31 -> sim env' g' M')).
Proof.
  intros Hs Hm He Ex Et Ht.
  apply leaves_pure with (m' := each (asm_gen_instr f ig b) l ≫= fun _ => asm_gen_instr f ig b t).
  { intros a g'. by rewrite each_end. }
  apply leaves_after; [intros; grow |]. eapply runs_mono; [by eapply (straight_correct m) |].
  intros _ g1 M1 (Hs1 & L1 & Hm1). destruct (same_ir_lookup _ _ _ _ Hm1 Ex) as (x' & Ex' & E').
  eapply leaves_mono.
  - eapply (terminator_correct env' g1 M1 t x' e); [done | done | by erewrite <- eval_terminator_same |].
    eapply targets_later; [exact L1 | unfold same_ir in *; congruence | exact E' | done].
  - intros s g' M' (Hl & Hr & L2). split_and!; [| done | intros Hn; by eapply sim_later].
    destruct e; cbn in *; by rewrite <- ?(e_labels _ _ _ _ L1), <- ?(e_ret _ _ _ _ L1).
Qed.
End Simulation.

(** C2: The code that the instruction selector emits for a basic block computes what
    the block means. For every module, every environment and every machine in which the
    values of the environment and the arguments are in their virtual registers, and a
    block of integer arithmetic, comparisons and conversions (at 8, 16, 32 and 64 bits,
    lazy comparisons and constants of any operand included) with the terminator [t]:
    running the code the selector adds ends in a jump to the label of the block that the
    reference semantics chooses, or to the return label with the returned value in a
    register bound to A, and every value of the block is in its register. *)
Theorem block_correct (arg : Z -> option Z) m f ig b l t x e env g M env' g' : sim arg env g M ->
  same_ir m (g_ir g) -> eval_block arg m env l = Some env' -> instrs m !! t = Some x ->
  eval_terminator arg m env' x = Some e -> targets_ready g x -> g_block g = Body ->
  each (asm_gen_instr f ig b) (l ++ [t]) g = Ok (tt, g') -> Z.of_nat (length (g_vregs g')) <= 2 ^ 31 ->
  exists code M' s, g_body g' = g_body g ++ code /\ exec code M = Some (M', Some s) /\
    exit_label g e = Some s /\ returned e g' M' /\ sim arg env' g' M'.
Proof.
  intros Hs Hm He Ex Et Ht Hb E Hn.
  destruct (block_runs arg m f ig b l t x e env g M env' Hs Hm He Ex Et Ht tt g' E Hb Hn)
    as (c & M' & s & ? & ? & ? & ? & ?). exists c, M', s. split_and!; auto.
Qed.

(** [a + a < 3 ? block 1 : block 2] with [a = 1]. *)
Definition witness_module : IrModule :=
  let t := IR_INT 32 in
  mkModule [] [] [] [] [] [mkBlock 0 "entry" [0; 1; 2]%nat; mkBlock 1 "a" [2]%nat; mkBlock 2 "b" [2]%nat]
    [mkInstr 0 t OP_ADD (-1) (U_binary_op (mkValue (IR_VALUE_ARG 0) t) (mkValue (IR_VALUE_ARG 0) t));
     mkInstr 1 t OP_CMP (-1) (U_cmp (mkValue (IR_VALUE_CONST_INT 3) t) (mkValue (IR_VALUE_INSTR 0) t) CMP_SGT);
     mkInstr 2 IR_VOID OP_COND (-1) (U_cond (mkValue (IR_VALUE_INSTR 1) t) 1 2)].
Definition witness_state : GenState :=
  let g := init_asm_builder witness_module "a.c" in
  mkGen (g_ir g) (g_asm g) 0 Body [] 0 7 [mkVReg (IN_REG REG_CLASS_DI) true REG_TYPE_INTEGER 0 0] 0 0 0
    {[1%nat := 8%nat; 2%nat := 9%nat]} ∅ {[0%nat := mkCallSeq 0 [ARG_CLASS_REG REG_CLASS_DI (Some 0)]]} ∅.
Definition witness_machine : Machine := mkMachine (fun _ => 1) (mkFlags false false false false).

Definition witness_arg (k : Z) : option Z := if k =? 0 then Some 1 else None.
Lemma witness_sim : sim witness_arg ∅ witness_state witness_machine.
Proof.
  split; [| done | done]. intros k a. unfold witness_arg. destruct (Z.eqb_spec k 0) as [->|]; [| done]. intros [= <-].
  exists REG_CLASS_DI, 0. split; [done |]. split; [done |]. split; [by eexists | done].
Qed.
Definition witness_global : IrGlobal := mkGlobal "f" (IR_FUNCTION IR_VOID false []) IR_GLOBAL_LINKAGE None.
Definition witness_result : res (unit * GenState) :=
  Eval vm_compute in each (asm_gen_instr 0%nat witness_global 0%nat) ([0; 1] ++ [2])%nat witness_state.
Definition witness_final : GenState := match witness_result with Ok (_, g) => g | Stop _ => witness_state end.

Lemma block_correct_witness : exists code M' s, g_body witness_final = code /\
  exec code witness_machine = Some (M', Some s) /\ s = 8%nat.
Proof.
  destruct (block_correct witness_arg witness_module 0 witness_global 0 [0; 1]%nat 2
    (mkInstr 2 IR_VOID OP_COND (-1) (U_cond (mkValue (IR_VALUE_INSTR 1) (IR_INT 32)) 1 2)) (Goto 1) ∅ witness_state witness_machine
    {[0%nat := 2; 1%nat := 1]} witness_final witness_sim) as (c & M' & s & Ec & Ex & El & _ & _).
  - done.
  - vm_compute. done.
  - done.
  - vm_compute. done.
  - split; split; vm_compute; eauto.
  - done.
  - vm_compute. done.
  - vm_compute. done.
  - exists c, M', s. split_and!; [done | done |]. vm_compute in El. by injection El.
Defined.
