(* ===== verification/AsmGenFrame.v ===== *)
(** * Stack frames

    The prologue and the epilogue that [finish_function] puts around a body: what
    they are, and that on an x86-64 processor they keep what the calling convention
    says a function keeps. *)

From S2P Require Import Prelude ByteMem Maths Asm RegAlloc Ir AsmGen.

Local Open Scope Z_scope.

(** ** The processor *)

Record Cpu := mkCpu { reg : RegClass -> Z; memory : mem }.

Definition set_cpu_reg (c : Cpu) (r : RegClass) (x : Z) : Cpu :=
  mkCpu (fun k => if bool_decide (k = r) then x else reg c k) (memory c).

(** A 64-bit register operand. *)
Definition phys_of (v : AsmValue) : option RegClass :=
  if is_deref v then None
  else match value_u v with
       | ASM_VALUE_REGISTER (mkRegister 64 _ (PHYS_REG c)) => Some c
       | _ => None
       end.
Definition operand (c : Cpu) (v : AsmValue) : option Z :=
  match value_u v with
  | ASM_VALUE_CONST (ASM_CONST_IMMEDIATE x) => if is_deref v then None else Some x
  | _ => r ← phys_of v; Some (reg c r)
  end.

(** The instructions of a frame; [RET] gives the address it returns to. *)
Definition cpu_step (i : AsmInstr) (c : Cpu) : option (Cpu * option Z) :=
  let sp := reg c REG_CLASS_SP in
  match op i, args i with
  | PUSH, [v] =>
      r ← phys_of v;
      let sp' := wrap 64 (sp - 8) in
      let c' := mkCpu (reg c) (store_bytes 8 (memory c) sp' (reg c r)) in
      Some (set_cpu_reg c' REG_CLASS_SP sp', None)
  | POP, [v] =>
      r ← phys_of v;
      let x := load_bytes 8 (memory c) sp in
      Some (set_cpu_reg (set_cpu_reg c REG_CLASS_SP (wrap 64 (sp + 8))) r x, None)
  | MOV, [d; s] => r ← phys_of d; x ← operand c s; Some (set_cpu_reg c r x, None)
  | ADD, [d; s] => r ← phys_of d; x ← operand c s; Some (set_cpu_reg c r (wrap 64 (reg c r + x)), None)
  | SUB, [d; s] => r ← phys_of d; x ← operand c s; Some (set_cpu_reg c r (wrap 64 (reg c r - x)), None)
  | RET, [] => Some (set_cpu_reg c REG_CLASS_SP (wrap 64 (sp + 8)), Some (load_bytes 8 (memory c) sp))
  | _, _ => None
  end.

Fixpoint cpu_exec (l : list AsmInstr) (c : Cpu) : option (Cpu * option Z) :=
  match l with
  | [] => Some (c, None)
  | i :: l =>
      '(c, o) ← cpu_step i c;
      match o with None => cpu_exec l c | Some a => Some (c, Some a) end
  end.

(** ** The code of a frame *)

Definition phys (r : RegClass) : AsmValue := mkAsmValue false (ASM_VALUE_REGISTER (mkRegister 64 64 (PHYS_REG r))).
Definition plain (o : AsmOp) (l : list AsmValue) : AsmInstr := mkAsmInstr o l [] None.
Definition labelled (s : nat) (l : list AsmInstr) : list AsmInstr :=
  match l with [] => [] | i :: l => mkAsmInstr (op i) (args i) (vreg_deps i) (Some s) :: l end.

Definition move_sp (o : AsmOp) (n : Z) : list AsmInstr :=
  if 0 <? n then [plain o [phys REG_CLASS_SP; asm_imm n]] else [].
Definition prologue_code (saved : list RegClass) (n : Z) : list AsmInstr :=
  [plain PUSH [phys REG_CLASS_BP]; plain MOV [phys REG_CLASS_BP; phys REG_CLASS_SP]]
  ++ ((fun r => plain PUSH [phys r]) <$> saved) ++ move_sp SUB n.
Definition epilogue_code (saved : list RegClass) (n : Z) : list AsmInstr :=
  move_sp ADD n ++ ((fun r => plain POP [phys r]) <$> rev saved) ++ [plain POP [phys REG_CLASS_BP]; plain RET []].

(** The callee-saved registers of a bit set, by number. *)
Definition saves (bitset : Z) : list RegClass :=
  List.filter (fun r => Z.testbit bitset (reg_class_num r))
    [REG_CLASS_B; REG_CLASS_R12; REG_CLASS_R13; REG_CLASS_R14; REG_CLASS_R15].

(** *** What the selector emits *)

Definition add_text (g : GenState) (l : list AsmInstr) : GenState :=
  w_asm g (Asm.set_instrs (g_asm g) (text_instrs (g_asm g) ++ l)).

Lemma add_text_nil g : add_text g [] = g.
Proof. destruct g as [? [] ? ? ? ? ? ? ? ? ? ? ? ? ?]. unfold add_text. cbn. by rewrite app_nil_r. Qed.
Lemma add_text_app g l l' : add_text (add_text g l) l' = add_text g (l ++ l').
Proof. unfold add_text. cbn. by rewrite app_assoc. Qed.

Lemma emit_text o l g : g_block g = Text ->
  emit_instr o l g = Ok (length (text_instrs (g_asm g)), add_text g [plain o l]).
Proof.
  intros E. unfold emit_instr, mbind, st_bind, get, put, mret, st_ret, grown, current_block, w_current_block.
  by rewrite E; cbn; rewrite E.
Qed.

Lemma phys_reg_ok r : reg_class_is_gpr r = true -> asm_phys_reg r 64 = Ok (phys r).
Proof. intros H. unfold asm_phys_reg. cbn. by rewrite H. Qed.

Lemma adjust_text o n g : g_block g = Text -> adjust_sp o n g = Ok (tt, add_text g (move_sp o n)).
Proof.
  intros E. unfold adjust_sp, move_sp. destruct (0 <? n); [| by rewrite add_text_nil].
  unfold lift at 1, mbind at 1, st_bind at 1. rewrite phys_reg_ok by done.
  unfold emit_instr2. by rewrite (st_bind_run _ _ _ _ _ (emit_text o _ g E)).
Qed.

(** The registers that a loop picks from a bit set. *)
Fixpoint picks (pick : Z -> res Z) (n : nat) (bitset : Z) : option (list RegClass) :=
  match n with
  | O => None
  | S n =>
      if bitset =? 0 then Some []
      else
        match pick bitset with
        | Ok k =>
            r ← (if k <? 0 then None else all_classes !! Z.to_nat k);
            if reg_class_is_gpr r then l ← picks pick n (Z.land bitset (bnot 32 (Z.shiftl 1 k))); Some (r :: l) else None
        | Stop _ => None
        end
  end.

Lemma save_registers_emit o pick n : forall b g l, g_block g = Text -> picks pick n b = Some l ->
  loop_st n (save_body o pick) b g = Ok (tt, add_text g ((fun r => plain o [phys r]) <$> l)).
Proof.
  induction n as [|n IH]; intros b g l Hg H; [done |]. cbn [picks] in H. destruct (b =? 0) eqn:Hb.
  { injection H as <-. rewrite add_text_nil. apply loop_st_done. unfold save_body. by rewrite Hb. }
  destruct (pick b) as [k|] eqn:Hk; [| done].
  apply bind_Some in H as (r & Er & H). destruct (reg_class_is_gpr r) eqn:Hr; [| done].
  apply bind_Some in H as (l' & El & [= <-]). destruct (k <? 0) eqn:Hk0; [done |].
  rewrite (loop_st_next n _ _ _ (Z.land b (bnot 32 (Z.shiftl 1 k))) (add_text g [plain o [phys r]])).
  - rewrite (IH _ (add_text g [plain o [phys r]]) l' Hg El), add_text_app. done.
  - unfold save_body. rewrite Hb. unfold lift, mbind at 1, st_bind at 1. rewrite Hk.
    unfold mbind at 1, st_bind at 1, ref. rewrite Hk0, Er. cbn [of_opt].
    unfold mbind at 1, st_bind at 1. rewrite phys_reg_ok by done.
    unfold emit_instr1. by rewrite (st_bind_run _ _ _ _ _ (emit_text o _ g Hg)).
Qed.

(** The bit sets over the callee-saved registers. *)
Definition callee_sets : list Z :=
  foldr (fun r acc => acc ++ ((fun b => Z.lor b (Z.shiftl 1 (reg_class_num r))) <$> acc)) [0] callee_save_registers.

Lemma callee_set_add b r : In b callee_sets -> is_callee_save r = true ->
  In (Z.lor b (Z.shiftl 1 (reg_class_num r))) callee_sets.
Proof.
  intros Hb Hr. assert (F : forallb (fun b => forallb (fun r =>
      existsb (Z.eqb (Z.lor b (Z.shiftl 1 (reg_class_num r)))) callee_sets) callee_save_registers) callee_sets = true)
    by (vm_compute; reflexivity).
  pose proof (proj1 (forallb_forall _ _) F b Hb) as F2. cbn beta in F2.
  unfold is_callee_save in Hr. apply existsb_exists in Hr as (r' & Hin & E%bool_decide_eq_true). subst r'.
  pose proof (proj1 (forallb_forall _ _) F2 r Hin) as F3. cbn beta in F3.
  apply existsb_exists in F3 as (x & Hx & E). apply Z.eqb_eq in E. by rewrite E.
Qed.

(** Both loops visit the registers of the set, in opposite orders. *)
Lemma picks_saves b : In b callee_sets ->
  picks lowest_set_bit 33 b = Some (saves b) /\ picks highest_set_bit 33 b = Some (rev (saves b)) /\
  bit_count b = Ok (Z.of_nat (length (saves b))).
Proof.
  intros H. assert (F : forallb (fun b =>
      bool_decide (picks lowest_set_bit 33 b = Some (saves b)) && bool_decide (picks highest_set_bit 33 b = Some (rev (saves b)))
      && match bit_count b with Ok n => n =? Z.of_nat (length (saves b)) | Stop _ => false end) callee_sets = true)
    by (vm_compute; reflexivity).
  pose proof (proj1 (forallb_forall _ _) F b H) as G. cbn beta in G. bsplit.
  repeat match goal with E : bool_decide _ = true |- _ => apply bool_decide_eq_true in E end.
  split_and!; [done | done |]. destruct (bit_count b); [| done]. bsplit. by subst.
Qed.

(** The registers a body names. *)
Definition names (body : list AsmInstr) (r : RegClass) : Prop :=
  exists i a w v, In i body /\ In a (args i) /\ value_reg a = Some (mkRegister w v (PHYS_REG r)).

Definition add_used (bitset : Z) (arg : AsmValue) : Z :=
  match value_reg arg with
  | Some (mkRegister _ _ (PHYS_REG c)) =>
      if is_callee_save c then Z.lor bitset (Z.shiftl 1 (reg_class_num c)) else bitset
  | _ => bitset
  end.

Lemma used_callee_sets l : forall b, In b callee_sets -> In (foldl add_used b l) callee_sets.
Proof.
  induction l as [|a l IH]; intros b Hb; [done |]. cbn [foldl]. apply IH. unfold add_used.
  destruct (value_reg a) as [[w v [c|n]]|]; try done. destruct (is_callee_save c) eqn:E; [| done]. by apply callee_set_add.
Qed.

Lemma used_bit l : forall b r, Z.testbit b (reg_class_num r) = true \/
    (is_callee_save r = true /\ exists a w v, In a l /\ value_reg a = Some (mkRegister w v (PHYS_REG r))) ->
  Z.testbit (foldl add_used b l) (reg_class_num r) = true.
Proof.
  induction l as [|a l IH]; intros b r H; cbn [foldl].
  { destruct H as [H | (_ & ? & ? & ? & [] & _)]; done. }
  assert (Hn : forall c : RegClass, 0 <= reg_class_num c) by (intros []; cbn; lia).
  apply IH. destruct H as [H | (Hc & a' & w & v & [<- | Hin] & Ea)].
  - left. unfold add_used. destruct (value_reg a) as [[w v [c|n]]|]; try done. destruct (is_callee_save c); [| done].
    by rewrite Z.lor_spec, H.
  - left. unfold add_used. rewrite Ea, Hc, Z.lor_spec, Z.shiftl_spec by done.
    rewrite Z.sub_diag. cbn. by rewrite orb_true_r.
  - right. split; [done |]. by exists a', w, v.
Qed.

Lemma named_is_saved body r : is_callee_save r = true -> names body r -> In r (saves (used_callee_save body)).
Proof.
  intros Hc (i & a & w & v & Hi & Ha & Ev). unfold saves. apply filter_In. split.
  - unfold is_callee_save in Hc. apply existsb_exists in Hc as (r' & Hin & ->%bool_decide_eq_true). cbn in *. tauto.
  - apply (used_bit (body ≫= args) 0 r). right. split; [done |]. exists a, w, v. split; [| done].
    apply list_elem_of_In, list_elem_of_bind. exists i. split; apply list_elem_of_In; done.
Qed.

Lemma saves_callee b r : In r (saves b) -> is_callee_save r = true.
Proof. intros [H _]%filter_In. cbn in H. intuition (subst; done). Qed.
Lemma saves_nodup b : NoDup (saves b).
Proof. apply NoDup_ListNoDup, List.NoDup_filter, NoDup_ListNoDup. by apply (bool_decide_unpack _). Qed.

Lemma label_text s g i l : g_block g = Text ->
  set_label (length (text_instrs (g_asm g))) s (add_text g (i :: l)) = Ok (tt, add_text g (labelled s (i :: l))).
Proof.
  intros E. unfold set_label, update_instr, mbind, st_bind, get, put, current_block, w_current_block.
  cbn. rewrite E. cbn. rewrite list_lookup_middle by done. unfold add_text. cbn.
  do 3 f_equal. by rewrite insert_app_r_alt, Nat.sub_diag by done.
Qed.

Lemma mov_text g : g_block g = Text -> exists k,
  emit_mov (phys REG_CLASS_BP) (phys REG_CLASS_SP) g = Ok (k, add_text g [plain MOV [phys REG_CLASS_BP; phys REG_CLASS_SP]]).
Proof. intros E. eexists. unfold emit_mov, emit_instr2. cbn -[emit_instr]. unfold mbind, st_bind. cbn -[emit_instr]. by rewrite (emit_text _ _ g E). Qed.

Lemma prologue_emit sym used n g : g_block g = Text -> In used callee_sets ->
  prologue sym used n g = Ok (tt, add_text g (labelled sym (prologue_code (saves used) n))).
Proof.
  intros E H. destruct (picks_saves used H) as (Hl & _ & _). unfold prologue, lift, mbind at 1, st_bind at 1.
  rewrite !phys_reg_ok by done. unfold mbind at 1, st_bind at 1, emit_instr1.
  rewrite (st_bind_run _ _ _ _ _ (emit_text PUSH [phys REG_CLASS_BP] g E)).
  rewrite (st_bind_run _ _ _ _ _ (label_text sym g (plain PUSH [phys REG_CLASS_BP]) [] E)).
  destruct (mov_text (add_text g (labelled sym [plain PUSH [phys REG_CLASS_BP]])) E) as [k Ek].
  rewrite (st_bind_run _ _ _ _ _ Ek), add_text_app.
  unfold save_registers. rewrite (st_bind_run _ _ _ _ _ (save_registers_emit PUSH _ 33 used (add_text g _) (saves used) E Hl)).
  rewrite add_text_app, adjust_text, add_text_app by done. done.
Qed.

Lemma ret_text g : g_block g = Text -> exists k, emit_instr0 RET g = Ok (k, add_text g [plain RET []]).
Proof. intros E. eexists. unfold emit_instr0. by rewrite emit_text. Qed.

Lemma epilogue_emit ret used n g : g_block g = Text -> In used callee_sets ->
  epilogue ret used n g = Ok (tt, add_text g (labelled ret (epilogue_code (saves used) n))).
Proof.
  intros E H. destruct (picks_saves used H) as (_ & Hh & _). unfold epilogue, get, mbind at 1, st_bind at 1.
  rewrite (st_bind_run _ _ _ _ _ (adjust_text ADD n g E)).
  unfold save_registers. rewrite (st_bind_run _ _ _ _ _ (save_registers_emit POP _ 33 used (add_text g _) _ E Hh)), add_text_app.
  unfold lift, mbind at 1, st_bind at 1. rewrite phys_reg_ok by done. unfold emit_instr1.
  rewrite (st_bind_run _ _ _ _ _ (emit_text POP [phys REG_CLASS_BP] (add_text g _) E)), add_text_app.
  destruct (ret_text (add_text g ((move_sp ADD n ++ ((fun r => plain POP [phys r]) <$> rev (saves used)))
    ++ [plain POP [phys REG_CLASS_BP]])) E) as [k Ek].
  rewrite (st_bind_run _ _ _ _ _ Ek), add_text_app.
  set (code := epilogue_code (saves used) n). replace (add_text g _) with (add_text g code).
  2: { unfold code, epilogue_code. by rewrite <- !app_assoc. }
  assert (exists i l, code = i :: l) as (i & l & ->).
  { unfold code, epilogue_code, move_sp. destruct (0 <? n); [by eexists _, _ |]. cbn [app].
    destruct ((fun r => plain POP [phys r]) <$> rev (saves used)); by eexists _, _. }
  unfold current_block. rewrite E. by apply label_text.
Qed.

(** ** The frame on the processor *)

Lemma cpu_exec_app l1 l2 c c1 : cpu_exec l1 c = Some (c1, None) -> cpu_exec (l1 ++ l2) c = cpu_exec l2 c1.
Proof.
  revert c. induction l1 as [|i l1 IH]; intros c E; [by injection E as -> |]. cbn in *.
  destruct (cpu_step i c) as [[c' [a|]]|]; [done | by apply IH | done].
Qed.
Lemma cpu_exec_labelled s l c : cpu_exec (labelled s l) c = cpu_exec l c.
Proof. by destruct l. Qed.

(** The registers [l] are on the stack below [s], the first one on top. *)
Fixpoint pushed (l : list RegClass) (s : Z) (R : RegClass -> Z) (m : mem) : Prop :=
  match l with
  | [] => True
  | r :: l => load_bytes 8 m (s - 8) = R r /\ pushed l (s - 8) R m
  end.

Lemma pushed_ext l s R m m' : (forall k, s - 8 * Z.of_nat (length l) <= k < s -> m k = m' k) ->
  pushed l s R m -> pushed l s R m'.
Proof.
  revert s. induction l as [|r l IH]; intros s H; [done |]. cbn [pushed length]. cbn [length] in H. intros [E P]. split.
  - rewrite <- E. symmetry. apply load_ext. intros k Hk. apply H. lia.
  - apply IH; [| done]. intros k Hk. apply H. lia.
Qed.

Lemma set_reg_eq c r x : reg (set_cpu_reg c r x) r = x.
Proof. cbn. by rewrite bool_decide_true. Qed.
Lemma set_reg_ne c r r' x : r' <> r -> reg (set_cpu_reg c r x) r' = reg c r'.
Proof. intros H. cbn. by rewrite bool_decide_false. Qed.

Lemma push_exec l : forall c s, reg c REG_CLASS_SP = s -> 8 * Z.of_nat (length l) <= s < 2 ^ 64 ->
  (forall r, In r l -> 0 <= reg c r < 2 ^ 64 /\ r <> REG_CLASS_SP) ->
  exists c', cpu_exec ((fun r => plain PUSH [phys r]) <$> l) c = Some (c', None) /\
    reg c' REG_CLASS_SP = s - 8 * Z.of_nat (length l) /\ (forall r, r <> REG_CLASS_SP -> reg c' r = reg c r) /\
    pushed l s (reg c) (memory c') /\
    (forall k, k < s - 8 * Z.of_nat (length l) \/ s <= k -> memory c' k = memory c k).
Proof.
  induction l as [|r l IH]; intros c s Hs Hb Hr.
  { exists c. cbn. split_and!; try done. lia. }
  cbn [length] in *. assert (Hw : wrap 64 (s - 8) = s - 8) by (apply wrap_small; lia).
  set (c1 := set_cpu_reg (mkCpu (reg c) (store_bytes 8 (memory c) (s - 8) (reg c r))) REG_CLASS_SP (s - 8)).
  assert (E1 : cpu_step (plain PUSH [phys r]) c = Some (c1, None)) by (unfold cpu_step; cbn [plain op args]; by rewrite Hs, Hw).
  assert (Eq : forall q, q <> REG_CLASS_SP -> reg c1 q = reg c q) by (intros q Hq; unfold c1; by rewrite set_reg_ne).
  destruct (IH c1 (s - 8)) as (c' & E & Esp & Eo & P & M).
  - apply set_reg_eq.
  - lia.
  - intros q Hq. destruct (Hr q (or_intror Hq)) as [? ?]. by rewrite Eq.
  - destruct (Hr r (or_introl eq_refl)) as [Rb Rn].
    assert (Out : forall k, ~ (s - 8 <= k < s) -> memory c1 k = memory c k).
    { intros k Hk. unfold c1. cbn. unfold store_bytes. zcases; done || lia. }
    exists c'. split_and!.
    + cbn [fmap list_fmap cpu_exec]. by rewrite E1.
    + lia.
    + intros q Hq. rewrite Eo by done. auto.
    + cbn [pushed]. split.
      * transitivity (load_bytes 8 (memory c1) (s - 8)); [apply load_ext; intros k Hk; apply M; lia |].
        unfold c1. cbn [memory set_cpu_reg]. rewrite load_store_same. by apply wrap_small.
      * clear - P Eq Hr. revert P. generalize (s - 8). induction l as [|q l IHl]; [done |]. intros z [E P]. split.
        -- rewrite E. apply Eq. apply (Hr q). by right; left.
        -- apply IHl; [| done]. intros p [-> | Hp]; apply Hr; [by left | by right; right].
    + intros k Hk. rewrite M by lia. apply Out. lia.
Qed.

Lemma pop_exec l R : forall c s, reg c REG_CLASS_SP = s - 8 * Z.of_nat (length l) ->
  8 * Z.of_nat (length l) <= s < 2 ^ 64 -> pushed l s R (memory c) -> NoDup l -> REG_CLASS_SP ∉ l ->
  exists c', cpu_exec ((fun r => plain POP [phys r]) <$> rev l) c = Some (c', None) /\
    reg c' REG_CLASS_SP = s /\ (forall r, In r l -> reg c' r = R r) /\
    (forall r, ~ In r l -> r <> REG_CLASS_SP -> reg c' r = reg c r) /\ memory c' = memory c.
Proof.
  induction l as [|r l IH]; intros c s Hs Hb P Nd Hsp.
  { exists c. cbn in *. split_and!; try done. lia. }
  apply NoDup_cons in Nd as [Hnr Nd]. apply not_elem_of_cons in Hsp as [Hrs Hsp].
  destruct P as [Er P]. cbn [length] in *.
  destruct (IH c (s - 8)) as (c1 & E & Esp & Ein & Eout & Em); [lia | lia | done | done | done |].
  assert (Hw : wrap 64 (s - 8 + 8) = s) by (rewrite wrap_small; lia).
  set (c2 := set_cpu_reg (set_cpu_reg c1 REG_CLASS_SP s) r (R r)). exists c2.
  assert (Eq : forall q, q <> r -> q <> REG_CLASS_SP -> reg c2 q = reg c1 q).
  { intros q H1 H2. unfold c2. by rewrite !set_reg_ne. }
  split_and!.
  - cbn [rev]. rewrite fmap_app. rewrite (cpu_exec_app _ _ _ c1) by done. cbn [fmap list_fmap cpu_exec].
    unfold cpu_step. cbn [plain op args phys phys_of is_deref value_u mbind option_bind].
    by rewrite Esp, Hw, Em, Er.
  - unfold c2. rewrite set_reg_ne by done. apply set_reg_eq.
  - intros q [<- | Hq]; [apply set_reg_eq |]. rewrite Eq; [by apply Ein | |].
    + intros ->. by apply Hnr, list_elem_of_In.
    + intros ->. by apply Hsp, list_elem_of_In.
  - intros q H1 H2. rewrite Eq; [apply Eout; [| done] | |done].
    + intros Hq. apply H1. by right.
    + intros ->. apply H1. by left.
  - done.
Qed.

Lemma sub_sp n c : 0 < n -> n <= reg c REG_CLASS_SP < 2 ^ 64 ->
  cpu_exec (move_sp SUB n) c = Some (set_cpu_reg c REG_CLASS_SP (reg c REG_CLASS_SP - n), None).
Proof.
  intros H Hb. unfold move_sp. rewrite (proj2 (Z.ltb_lt 0 n) H). cbn -[wrap]. rewrite wrap_small by lia. done.
Qed.
Lemma add_sp n c : 0 < n -> 0 <= reg c REG_CLASS_SP -> reg c REG_CLASS_SP + n < 2 ^ 64 ->
  cpu_exec (move_sp ADD n) c = Some (set_cpu_reg c REG_CLASS_SP (reg c REG_CLASS_SP + n), None).
Proof.
  intros H H0 Hb. unfold move_sp. rewrite (proj2 (Z.ltb_lt 0 n) H). cbn -[wrap]. rewrite wrap_small by lia. done.
Qed.

(** What the body of a function may do to the frame: the frame has [n] bytes for
    locals, and [saved] are the registers saved above them. *)
Record body_keeps (body : list AsmInstr) (usage : Z) (c1 c2 : Cpu) : Prop := {
  k_sp : reg c2 REG_CLASS_SP = reg c1 REG_CLASS_SP;
  k_regs : forall r, is_callee_save r = true -> ~ names body r -> reg c2 r = reg c1 r;
  k_mem : forall k, reg c1 REG_CLASS_SP + usage <= k -> memory c2 k = memory c1 k
}.

Lemma frame_size_spec k usage : 0 <= k <= 5 -> 0 <= usage <= 2 ^ 31 ->
  exists p, frame_size k usage = usage + p /\ 1 <= p <= 16 /\ (8 * k + (usage + p)) mod 16 = 0.
Proof.
  intros Hk Hu. unfold frame_size. exists (16 - (8 * k + usage) mod 16).
  pose proof (Z.mod_pos_bound (8 * k + usage) 16 ltac:(lia)).
  rewrite (wrap_small 32 (k * 8)), (wrap_small 32 (k * 8 + usage)) by lia.
  replace (k * 8 + usage) with (8 * k + usage) by lia. rewrite wrap_small by lia. split_and!; try lia.
  pose proof (Z.div_mod (8 * k + usage) 16 ltac:(lia)).
  replace (8 * k + (usage + (16 - (8 * k + usage) mod 16))) with (((8 * k + usage) / 16 + 1) * 16) by lia.
  apply Z.mod_mul. lia.
Qed.

Lemma pushed_regs l s R R' m : (forall r, In r l -> R r = R' r) -> pushed l s R m -> pushed l s R' m.
Proof.
  revert s. induction l as [|r l IH]; intros s H; [done |]. intros [E P]. split; [rewrite E; apply H; by left |].
  apply IH; [| done]. intros q Hq. apply H. by right.
Qed.

Lemma saves_not b r : is_callee_save r = false -> ~ In r (saves b).
Proof. intros H Hin%saves_callee. congruence. Qed.

Lemma frame_entry saved n c s : reg c REG_CLASS_SP = s -> s < 2 ^ 64 -> 0 < n ->
  8 * (1 + Z.of_nat (length saved)) + n <= s -> ~ In REG_CLASS_SP saved -> ~ In REG_CLASS_BP saved ->
  (forall r, 0 <= reg c r < 2 ^ 64) ->
  exists c1, cpu_exec (prologue_code saved n) c = Some (c1, None) /\
    reg c1 REG_CLASS_SP = s - 8 * (1 + Z.of_nat (length saved)) - n /\
    (forall r, r <> REG_CLASS_SP -> r <> REG_CLASS_BP -> reg c1 r = reg c r) /\
    pushed (REG_CLASS_BP :: saved) s (reg c) (memory c1) /\ (forall k, s <= k -> memory c1 k = memory c k).
Proof.
  intros Hs Hb Hn Hroom Nsp Nbp Hr. unfold prologue_code.
  destruct (push_exec [REG_CLASS_BP] c s Hs) as (c1 & E1 & Esp1 & Eo1 & [P1 _] & M1); [cbn; lia | |].
  { intros r [<- | []]. split; [apply Hr | done]. }
  change (Z.of_nat (length [REG_CLASS_BP])) with 1 in *.
  set (c2 := set_cpu_reg c1 REG_CLASS_BP (reg c1 REG_CLASS_SP)).
  assert (E2 : cpu_exec [plain MOV [phys REG_CLASS_BP; phys REG_CLASS_SP]] c1 = Some (c2, None)) by done.
  assert (Eo2 : forall r, r <> REG_CLASS_SP -> r <> REG_CLASS_BP -> reg c2 r = reg c r).
  { intros r H1 H2. unfold c2. rewrite set_reg_ne by done. auto. }
  destruct (push_exec saved c2 (s - 8)) as (c3 & E3 & Esp3 & Eo3 & P3 & M3).
  - unfold c2. rewrite set_reg_ne by done. lia.
  - lia.
  - intros r H. assert (r <> REG_CLASS_SP) by congruence. split; [| done]. rewrite Eo2 by congruence. apply Hr.
  - exists (set_cpu_reg c3 REG_CLASS_SP (reg c3 REG_CLASS_SP - n)). split_and!.
    + rewrite (cpu_exec_app [plain PUSH [phys REG_CLASS_BP]; plain MOV [phys REG_CLASS_BP; phys REG_CLASS_SP]] _ c c2).
      2: { change [plain PUSH [phys REG_CLASS_BP]; plain MOV [phys REG_CLASS_BP; phys REG_CLASS_SP]]
             with ([plain PUSH [phys REG_CLASS_BP]] ++ [plain MOV [phys REG_CLASS_BP; phys REG_CLASS_SP]]).
           rewrite (cpu_exec_app _ _ c c1) by exact E1. exact E2. }
      rewrite (cpu_exec_app _ _ c2 c3) by done. apply sub_sp; lia.
    + rewrite set_reg_eq. lia.
    + intros r H1 H2. rewrite set_reg_ne by done. rewrite Eo3 by done. auto.
    + cbn [memory set_cpu_reg pushed]. split.
      * rewrite <- P1. apply load_ext. intros k Hk. by apply M3; lia.
      * eapply pushed_regs; [| exact P3]. intros r H. apply Eo2; congruence.
    + intros k Hk. cbn [memory set_cpu_reg]. rewrite M3 by lia. apply M1. lia.
Qed.

Lemma frame_exit saved n R c s : reg c REG_CLASS_SP = s - 8 * (1 + Z.of_nat (length saved)) - n ->
  s + 8 < 2 ^ 64 -> 0 < n -> 8 * (1 + Z.of_nat (length saved)) + n <= s ->
  NoDup (REG_CLASS_BP :: saved) -> ~ In REG_CLASS_SP saved -> pushed (REG_CLASS_BP :: saved) s R (memory c) ->
  exists c', cpu_exec (epilogue_code saved n) c = Some (c', Some (load_bytes 8 (memory c) s)) /\
    reg c' REG_CLASS_SP = s + 8 /\ (forall r, In r (REG_CLASS_BP :: saved) -> reg c' r = R r) /\
    (forall r, ~ In r (REG_CLASS_BP :: saved) -> r <> REG_CLASS_SP -> reg c' r = reg c r) /\ memory c' = memory c.
Proof.
  intros Hs Hb Hn Hroom Nd Nsp P. unfold epilogue_code.
  set (c1 := set_cpu_reg c REG_CLASS_SP (reg c REG_CLASS_SP + n)).
  assert (E1 : cpu_exec (move_sp ADD n) c = Some (c1, None)) by (apply add_sp; lia).
  destruct (pop_exec (REG_CLASS_BP :: saved) R c1 s) as (c2 & E2 & Esp & Ein & Eout & Em).
  - unfold c1. rewrite set_reg_eq. cbn [length]. lia.
  - cbn [length]. lia.
  - done.
  - done.
  - intros H%list_elem_of_In. destruct H as [H|H]; done.
  - assert (Hw : wrap 64 (s + 8) = s + 8) by (apply wrap_small; lia).
    exists (set_cpu_reg c2 REG_CLASS_SP (s + 8)). split_and!.
    + rewrite (cpu_exec_app _ _ c c1) by done.
      change [plain POP [phys REG_CLASS_BP]; plain RET []] with ([plain POP [phys REG_CLASS_BP]] ++ [plain RET []]).
      cbn [rev] in E2. rewrite fmap_app in E2. cbn [fmap list_fmap] in E2.
      rewrite app_assoc, (cpu_exec_app _ _ c1 c2) by exact E2. cbn [cpu_exec]. unfold cpu_step. cbn [plain op args].
      cbn -[wrap load_bytes set_cpu_reg]. rewrite Esp, Hw, Em. done.
    + apply set_reg_eq.
    + intros r H. rewrite set_reg_ne; [by apply Ein |]. intros ->. destruct H; done.
    + intros r H1 H2. rewrite set_reg_ne by done. rewrite Eout by done. unfold c1. by rewrite set_reg_ne.
    + done.
Qed.

(** ** The whole function *)

(** What [finish_function] adds around the body of a function with a fixed number
    of arguments. *)
Lemma finish_emit global ir_global sym g : variable_arity_of (global_type ir_global) = Ok false ->
  let used := used_callee_save (g_body g) in
  let n := frame_size (Z.of_nat (length (saves used))) (g_stack_usage g) in
  finish_function global ir_global sym g = Ok (tt, add_text (w_block g Text)
    (labelled sym (prologue_code (saves used) n) ++ g_body g ++ labelled (g_ret_label g) (epilogue_code (saves used) n))).
Proof.
  intros Hv used n. assert (Hc : In used callee_sets) by (apply (used_callee_sets (g_body g ≫= args) 0); by left).
  destruct (picks_saves used Hc) as (_ & _ & Hcount). unfold finish_function.
  rewrite (st_bind_run get _ g g g eq_refl). fold used.
  rewrite (st_bind_run (lift _) _ g (Z.of_nat (length (saves used))) g) by (unfold lift; by rewrite Hcount).
  rewrite (st_bind_run (modify _) _ g tt (w_block g Text) eq_refl). fold n.
  set (g1 := w_block g Text). assert (E1 : g_block g1 = Text) by done.
  rewrite (st_bind_run _ _ _ _ _ (prologue_emit sym used n g1 E1 Hc)).
  set (g2 := add_text g1 (labelled sym (prologue_code (saves used) n))).
  rewrite (st_bind_run (lift _) _ g2 false g2) by (unfold lift; by rewrite Hv).
  rewrite (st_bind_run (mret tt) _ g2 tt g2 eq_refl).
  rewrite (st_bind_run (modify _) _ g2 tt (add_text g2 (g_body g)) eq_refl).
  rewrite (epilogue_emit (g_ret_label g) used n (add_text g2 (g_body g)) E1 Hc). unfold g2. by rewrite !add_text_app.
Qed.

(** C3: Functions keep what the System V calling convention says they keep. Around the
    body of a function with a fixed number of arguments [finish_function] puts a
    prologue and an epilogue such that, on a processor whose stack pointer is 8 off a
    multiple of 16 on entry and has room: the prologue reaches the body with RSP a
    multiple of 16 and every register but RSP and RBP as it was; and when the body keeps
    RSP, the callee-saved registers that none of its operands names and the memory above
    its locals, the epilogue returns to the address that was on the stack on entry, with
    RSP just above that address, RBP and all callee-saved registers as on entry, and the
    other registers, the result among them, as the body left them. *)
Theorem frame_restores global ir_global sym g g' (c : Cpu) :
  variable_arity_of (global_type ir_global) = Ok false -> 0 <= g_stack_usage g <= 2 ^ 31 ->
  finish_function global ir_global sym g = Ok (tt, g') ->
  reg c REG_CLASS_SP mod 16 = 8 -> g_stack_usage g + 64 <= reg c REG_CLASS_SP < 2 ^ 64 - 8 ->
  (forall r, 0 <= reg c r < 2 ^ 64) ->
  exists P E, text_instrs (g_asm g') = text_instrs (g_asm g) ++ labelled sym P ++ g_body g ++ labelled (g_ret_label g) E /\
  exists c1, cpu_exec (labelled sym P) c = Some (c1, None) /\ reg c1 REG_CLASS_SP mod 16 = 0 /\
    (forall r, r <> REG_CLASS_SP -> r <> REG_CLASS_BP -> reg c1 r = reg c r) /\
  forall c2, body_keeps (g_body g) (g_stack_usage g) c1 c2 ->
  exists c3, cpu_exec (labelled (g_ret_label g) E) c2 = Some (c3, Some (load_bytes 8 (memory c) (reg c REG_CLASS_SP))) /\
    reg c3 REG_CLASS_SP = reg c REG_CLASS_SP + 8 /\ reg c3 REG_CLASS_BP = reg c REG_CLASS_BP /\
    (forall r, is_callee_save r = true -> reg c3 r = reg c r) /\
    (forall r, is_callee_save r = false -> r <> REG_CLASS_SP -> r <> REG_CLASS_BP -> reg c3 r = reg c2 r).
Proof.
  intros Hv Hu Hf Hsp Hroom Hr. set (used := used_callee_save (g_body g)). set (s := reg c REG_CLASS_SP) in *.
  set (k := Z.of_nat (length (saves used))).
  assert (Hk : 0 <= k <= 5) by (unfold k, saves; pose proof (List.filter_length_le (fun r => Z.testbit used (reg_class_num r))
    [REG_CLASS_B; REG_CLASS_R12; REG_CLASS_R13; REG_CLASS_R14; REG_CLASS_R15]); cbn [length] in *; lia).
  destruct (frame_size_spec k (g_stack_usage g) Hk Hu) as (p & En & Hp & Hmod).
  rewrite finish_emit in Hf by done. fold used in Hf. fold k in Hf. rewrite En in Hf. injection Hf as <-.
  set (n := g_stack_usage g + p) in *.
  exists (prologue_code (saves used) n), (epilogue_code (saves used) n). split; [done |].
  assert (Nsp : ~ In REG_CLASS_SP (saves used)) by (by apply saves_not).
  assert (Nbp : ~ In REG_CLASS_BP (saves used)) by (by apply saves_not).
  destruct (frame_entry (saves used) n c s) as (c1 & E1 & Esp & Eo & P & M); try done; try (fold k; lia).
  fold k in Esp. exists c1. rewrite cpu_exec_labelled. split_and!; [done | | done |].
  { rewrite Esp. pose proof (Z.div_mod s 16 ltac:(lia)). pose proof (Z.div_mod (8 * k + n) 16 ltac:(lia)).
    replace (s - 8 * (1 + k) - n) with ((s / 16 - (8 * k + n) / 16) * 16) by lia. apply Z.mod_mul. lia. }
  intros c2 [K1 K2 K3]. rewrite cpu_exec_labelled.
  assert (Above : forall a, s - 8 * (1 + k) <= a -> memory c2 a = memory c1 a) by (intros a Ha; apply K3; lia).
  destruct (frame_exit (saves used) n (reg c) c2 s) as (c3 & E3 & Esp3 & Ein & Eout & _); try done; try (fold k; lia).
  - apply NoDup_cons. split; [by rewrite list_elem_of_In | apply saves_nodup].
  - eapply pushed_ext; [| exact P]. intros a Ha. symmetry. apply Above. cbn [length] in Ha. fold k in Ha. lia.
  - exists c3. split_and!; [| done | by apply Ein; left | |].
    + rewrite E3. do 2 f_equal. f_equal. apply load_ext. intros a Ha. rewrite Above by lia. apply M. lia.
    + intros r Hc. destruct (in_dec RegClass_eq_dec r (saves used)) as [Hin|Hin]; [by apply Ein; right |].
      assert (r <> REG_CLASS_SP /\ r <> REG_CLASS_BP) as [N1 N2] by (split; intros ->; done).
      rewrite Eout; [| by intros [?|?] | done]. rewrite K2; [by apply Eo | done |].
      intros Hn. by apply Hin, named_is_saved.
    + intros r Hc N1 N2. apply Eout; [| done]. intros [? | ?%saves_callee]; congruence.
Qed.

(** A body that names R12 and has 24 bytes of locals. *)
Definition witness_global : IrGlobal := mkGlobal "f" (IR_FUNCTION IR_VOID false []) IR_GLOBAL_LINKAGE None.
Definition witness_state : GenState :=
  let g := init_asm_builder ir_module_init "a.c" in
  mkGen (g_ir g) (g_asm g) 0 Body [plain MOV [phys REG_CLASS_R12; asm_imm 1]] 20 7 [] 24 0 0 ∅ ∅ ∅ ∅.
Definition witness_final : GenState :=
  match finish_function 0 witness_global 3 witness_state with Ok (_, g) => g | Stop _ => witness_state end.
Definition witness_cpu : Cpu :=
  mkCpu (fun r => match r with REG_CLASS_SP => 1000 | REG_CLASS_R12 => 12 | _ => 5 end) (fun a => a mod 256).

Lemma frame_restores_witness : exists P E c1,
  text_instrs (g_asm witness_final) = labelled 3 P ++ g_body witness_state ++ labelled 7 E /\
  cpu_exec (labelled 3 P) witness_cpu = Some (c1, None) /\ reg c1 REG_CLASS_SP mod 16 = 0.
Proof.
  destruct (frame_restores 0 witness_global 3 witness_state witness_final witness_cpu) as (P & E & Et & c1 & E1 & Em & _).
  - reflexivity.
  - vm_compute. by split.
  - vm_compute. reflexivity.
  - vm_compute. reflexivity.
  - vm_compute. by split.
  - intros []; vm_compute; by split.
  - exists P, E, c1. split_and!; [exact Et | exact E1 | exact Em].
Defined.
