(* ===== verification/AsmGenCalls.v ===== *)
(** * Where arguments go

    [classify_arguments] of [asm_gen.c]: each argument gets a register or a place on
    the stack of its own. *)

From S2P Require Import Prelude Maths Asm RegAlloc Ir AsmGen.

Local Open Scope Z_scope.

(** The type of an argument, and the bytes it needs on the stack. *)
Definition arg_ok (t : IrType) : Prop :=
  match t with IR_INT _ | IR_POINTER | IR_FLOAT _ => True | IR_STRUCT _ _ _ _ _ => type_wf t | _ => False end.
Definition arg_bytes (t : IrType) : Z :=
  match t with
  | IR_STRUCT _ _ _ _ _ => match size_of_ir_type t with Ok n => n | Stop _ => 0 end
  | _ => 8
  end.
Definition is_float_type (t : IrType) : bool := match t with IR_FLOAT _ => true | _ => false end.
Definition total_bytes (l : list IrType) : Z := foldr (fun t n => arg_bytes t + n) 0 l.
Definition float_args (l : list IrType) : nat := length (filter is_float_type l).

(** Two arguments in different places, the second after the first on the stack. *)
Definition separate (a b : ArgClass) : Prop :=
  match a, b with
  | ARG_CLASS_REG r _, ARG_CLASS_REG r' _ => r <> r'
  | ARG_CLASS_MEM o s _, ARG_CLASS_MEM o' _ _ => o + s <= o'
  | _, _ => True
  end.

(** The places that are free once [i] and [f] registers and [o] bytes are taken. *)
Definition free_after (o : Z) (i f : nat) (space : Z) (c : ArgClass) : Prop :=
  match c with
  | ARG_CLASS_REG r _ => (exists k, (i <= k)%nat /\ int_argument_registers !! k = Some r) \/
                         (exists k, (f <= k)%nat /\ float_argument_registers !! k = Some r)
  | ARG_CLASS_MEM p s _ => o <= p /\ p + s <= space
  end.

Lemma arg_bytes_pos t : arg_ok t -> 0 < arg_bytes t.
Proof.
  destruct t; cbn [arg_ok arg_bytes]; try done. intros H. destruct (type_size_bounds _ H) as (s & k & -> & _ & Hs & _). lia.
Qed.

Lemma free_after_weaken o i f space o' i' f' c : o' <= o -> (i' <= i)%nat -> (f' <= f)%nat ->
  free_after o i f space c -> free_after o' i' f' space c.
Proof.
  intros Ho Hi Hf. destruct c as [r v|p s b]; cbn [free_after]; [| lia].
  intros [(k & Hk & E) | (k & Hk & E)]; [left | right]; exists k; (split; [lia | done]).
Qed.

(** The registers for arguments are all different. *)
Lemma registers_distinct i j r r' :
  (int_argument_registers ++ float_argument_registers) !! i = Some r ->
  (int_argument_registers ++ float_argument_registers) !! j = Some r' -> i <> j -> r <> r'.
Proof.
  intros Hi Hj Hij ->. assert (N : NoDup (int_argument_registers ++ float_argument_registers)) by (apply (bool_decide_unpack _); by vm_compute).
  apply Hij. by apply (NoDup_lookup _ _ _ r' N).
Qed.
Lemma int_register k r : int_argument_registers !! k = Some r -> (int_argument_registers ++ float_argument_registers) !! k = Some r.
Proof. intros H. by apply lookup_app_l_Some. Qed.
Lemma float_register k r : float_argument_registers !! k = Some r ->
  (int_argument_registers ++ float_argument_registers) !! (length int_argument_registers + k)%nat = Some r.
Proof. intros H. rewrite lookup_app_r by lia. by replace (_ + k - _)%nat with k by lia. Qed.

Lemma separate_int o i f space r v c : int_argument_registers !! i = Some r -> free_after o (S i) f space c ->
  separate (ARG_CLASS_REG r v) c.
Proof.
  intros Hr H. pose proof (lookup_lt_Some _ _ _ Hr). destruct c as [r' v'|]; [| done]. cbn in H |- *.
  destruct H as [(k & Hk & E) | (k & Hk & E)];
    [apply (registers_distinct i k) | apply (registers_distinct i (length int_argument_registers + k))];
    auto using int_register, float_register; lia.
Qed.
Lemma separate_float o i f space r v c : float_argument_registers !! f = Some r -> free_after o i (S f) space c ->
  separate (ARG_CLASS_REG r v) c.
Proof.
  intros Hr H. destruct c as [r' v'|]; [| done]. cbn in H |- *. destruct H as [(k & Hk & E) | (k & Hk & E)].
  - pose proof (lookup_lt_Some _ _ _ E).
    apply (registers_distinct (length int_argument_registers + f) k); auto using int_register, float_register. lia.
  - apply (registers_distinct (length int_argument_registers + f) (length int_argument_registers + k)); auto using int_register, float_register. lia.
Qed.

(** Pairwise, in order. *)
Fixpoint apart_in_order (l : list ArgClass) : Prop :=
  match l with [] => True | c :: l => Forall (separate c) l /\ apart_in_order l end.

Lemma float_args_cons t l : float_args (t :: l) = ((if is_float_type t then 1 else 0) + float_args l)%nat.
Proof. unfold float_args. rewrite filter_cons. destruct (is_float_type t); by case_decide. Qed.

(** What is left of the classification: [n] arguments, in places that are free. *)
Definition places_from (o : Z) (i f n : nat) (m : res CallSeq) : Prop :=
  exists cs, m = Ok cs /\ length (arg_classes cs) = n /\ o <= stack_space cs /\
    Forall (free_after o i f (stack_space cs)) (arg_classes cs) /\ apart_in_order (arg_classes cs).
Definition followed_by (c : ArgClass) (m : res CallSeq) : res CallSeq :=
  rest ← m; Ok (mkCallSeq (stack_space rest) (c :: arg_classes rest)).

Lemma places_mem o i f n s b m : 0 < s -> places_from (o + s) i f n m -> places_from o i f (S n) (followed_by (ARG_CLASS_MEM o s b) m).
Proof.
  intros Hs (cs & -> & Hl & Hsp & Hfree & Hap). eexists. split; [done |]. cbn [arg_classes stack_space length].
  repeat split; [lia | lia | | | done].
  - constructor; [cbn; lia |]. eapply Forall_impl; [exact Hfree |]. intros c. apply free_after_weaken; lia.
  - eapply Forall_impl; [exact Hfree |]. intros [r v|p q b']; cbn; [done | lia].
Qed.
Lemma places_int o i f n r v m : int_argument_registers !! i = Some r -> places_from o (S i) f n m ->
  places_from o i f (S n) (followed_by (ARG_CLASS_REG r v) m).
Proof.
  intros Hr (cs & -> & Hl & Hsp & Hfree & Hap). eexists. split; [done |]. cbn [arg_classes stack_space length].
  repeat split; [lia | lia | | | done].
  - constructor; [left; by exists i |]. eapply Forall_impl; [exact Hfree |]. intros c. apply free_after_weaken; lia.
  - eapply Forall_impl; [exact Hfree |]. intros c. by apply separate_int.
Qed.
Lemma places_float o i f n r v m : float_argument_registers !! f = Some r -> places_from o i (S f) n m ->
  places_from o i f (S n) (followed_by (ARG_CLASS_REG r v) m).
Proof.
  intros Hr (cs & -> & Hl & Hsp & Hfree & Hap). eexists. split; [done |]. cbn [arg_classes stack_space length].
  repeat split; [lia | lia | | | done].
  - constructor; [right; by exists f |]. eapply Forall_impl; [exact Hfree |]. intros c. apply free_after_weaken; lia.
  - eapply Forall_impl; [exact Hfree |]. intros c. by apply separate_float.
Qed.

Lemma classify_from_cons s t l : classify_from s (t :: l) = ('(c, s) ← classify_argument s t; followed_by c (classify_from s l)).
Proof. done. Qed.

Lemma total_bytes_nonneg l : Forall arg_ok l -> 0 <= total_bytes l.
Proof. induction 1 as [|t l Ht _ IH]; [done |]. cbn. fold (total_bytes l). pose proof (arg_bytes_pos t Ht). lia. Qed.

Lemma classify_from_places l : forall o i f, Forall arg_ok l -> 0 <= o -> o + total_bytes l < 2 ^ 32 ->
  (f + float_args l <= length float_argument_registers)%nat -> places_from o i f (length l) (classify_from (mkClassify o i f) l).
Proof.
  induction l as [|t l IH]; intros o i f Hok Ho Htot Hf.
  { eexists. repeat split; [cbn; lia | by apply Forall_nil]. }
  apply Forall_cons in Hok as [Ht Hok]. pose proof (arg_bytes_pos t Ht) as Hpos. pose proof (total_bytes_nonneg l Hok).
  rewrite float_args_cons in Hf. rewrite classify_from_cons. cbn [total_bytes foldr length] in *. fold (total_bytes l) in Htot.
  assert (Int : arg_bytes t = 8 -> (f + float_args l <= length float_argument_registers)%nat ->
    places_from o i f (S (length l)) ('(c, s) ← match int_argument_registers !! i with
       | Some r => Ok (ARG_CLASS_REG r None, mkClassify o (S i) f)
       | None => Ok (ARG_CLASS_MEM o 8 false, mkClassify (u32 (o + 8)) i f) end; followed_by c (classify_from s l))).
  { intros E Hf'. destruct (int_argument_registers !! i) as [r|] eqn:Er; cbn [mbind res_bind].
    - apply places_int; [done |]. apply IH; (done || lia).
    - rewrite wrap_small by lia. apply places_mem; [lia |]. apply IH; (done || lia). }
  destruct t; cbn [arg_ok is_float_type classify_argument arg_bytes] in *; try done; try (apply Int; [done | lia]).
  - destruct (lookup_lt_is_Some_2 float_argument_registers f) as [r Er]; [lia |]. rewrite Er. cbn [mbind res_bind].
    apply places_float; [done |]. apply IH; (done || lia).
  - destruct (size_of_ir_type _) as [n|] eqn:En; [| lia]. cbn [mbind res_bind]. rewrite wrap_small by lia.
    apply places_mem; [lia |]. apply IH; (done || lia).
Qed.

Lemma apart_in_order_lookup l : apart_in_order l -> forall i j a b, (i < j)%nat -> l !! i = Some a -> l !! j = Some b -> separate a b.
Proof.
  induction l as [|c l IH]; intros H i j a b Hij Hi Hj; [done |]. destruct H as [Hc H]. destruct i as [|i], j as [|j]; try lia.
  - injection Hi as <-. rewrite Forall_lookup in Hc. by apply (Hc j).
  - apply (IH H i j); [lia | done | done].
Qed.



(** Nine float arguments: the ninth and a tenth share the first place of the stack,
    which no space is reserved for. *)
Example stack_floats_share_a_place : exists cs, classify_arguments (replicate 10 (IR_FLOAT 64)) = Ok cs /\
  drop 8 (arg_classes cs) = [ARG_CLASS_MEM 0 8 false; ARG_CLASS_MEM 0 8 false] /\ stack_space cs = 0.
Proof. eexists. split; [reflexivity |]. done. Qed.

(** A global initialised with -0.0 counts as zero and loses its sign in [.bss]. *)
Example negative_zero_is_zero : is_zero ir_module_init 1 (mkConst (IR_FLOAT 64) (K_floatt (SpecFloat.S754_zero true))) = Ok true.
Proof. reflexivity. Qed.

(** Sixteen bytes of padding are added to a frame that is aligned. *)
Example aligned_frame_is_padded : frame_size 0 32 = 48.
Proof. reflexivity. Qed.
