(* ===== verification/Elf.v ===== *)
(** * Object files and the linker

    [src/src/backend/elf.c] on files in memory ([Stream.v]): the structures of the
    format as records with their encodings, the writer of object files, the linker's
    reader of object files and archives, and the writer of executables with its
    relocations. A name in the linker is the bytes of a C string. [fopen] is a
    parameter: it gives the file or fails. *)

From S2P Require Import Prelude Maths LibC Lex Stream Asm.

Local Open Scope Z_scope.

(** ** The structures of the format *)

Definition ELF_IDENT_NIDENT : Z := 16.
Definition EM_X86_64 : Z := 62.

Inductive ELFFileType := ET_REL | ET_EXEC.
Definition file_type_num (t : ELFFileType) : Z := match t with ET_REL => 1 | ET_EXEC => 2 end.
Definition is_exec (t : ELFFileType) : bool := match t with ET_EXEC => true | ET_REL => false end.

Record ELFHeader := mkHeader {
  identifier : list Z;
  object_file_type : Z; target_architecture : Z; elf_version : Z;
  entry_point : Z; pht_location : Z; sht_location : Z;
  architecture_specific_flags : Z; header_size : Z;
  program_header_size : Z; pht_entries : Z; section_header_size : Z; sht_entries : Z;
  shstrtab_index : Z
}.
Record ELFProgramHeader := mkProgramHeader {
  ph_type : Z; ph_flags : Z; segment_location : Z; ph_virtual_address : Z; base_physical_address : Z;
  segment_size_in_file : Z; segment_size_in_process : Z; ph_alignment : Z
}.
Record ELFSectionHeader := mkSectionHeader {
  shstrtab_index_for_name : Z; sh_type : Z; sh_flags : Z; sh_virtual_address : Z;
  section_location : Z; section_size : Z; linked_section : Z; misc_info : Z;
  sh_alignment : Z; entry_size : Z
}.
Record ELF64Symbol := mkELFSymbol {
  strtab_index_for_name : Z; type_and_binding : Z; reserved : Z; st_section : Z; value : Z; st_size : Z
}.
Record ELF64Rela := mkRela { rela_section_offset : Z; type_and_symbol : Z; rela_addend : Z }.

(** A packed structure: values and their widths in bytes. *)
Definition encode (l : list (nat * Z)) : list Z := l ≫= (fun '(w, x) => le_bytes x w).

Definition header_bytes (h : ELFHeader) : list Z :=
  encode (((fun b => (1%nat, b)) <$> identifier h) ++
    [(2, object_file_type h); (2, target_architecture h); (4, elf_version h); (8, entry_point h);
     (8, pht_location h); (8, sht_location h); (4, architecture_specific_flags h); (2, header_size h);
     (2, program_header_size h); (2, pht_entries h); (2, section_header_size h); (2, sht_entries h);
     (2, shstrtab_index h)]%nat).
Definition program_header_bytes (h : ELFProgramHeader) : list Z :=
  encode [(4, ph_type h); (4, ph_flags h); (8, segment_location h); (8, ph_virtual_address h);
          (8, base_physical_address h); (8, segment_size_in_file h); (8, segment_size_in_process h);
          (8, ph_alignment h)]%nat.
Definition section_header_bytes (h : ELFSectionHeader) : list Z :=
  encode [(4, shstrtab_index_for_name h); (4, sh_type h); (8, sh_flags h); (8, sh_virtual_address h);
          (8, section_location h); (8, section_size h); (4, linked_section h); (4, misc_info h);
          (8, sh_alignment h); (8, entry_size h)]%nat.
Definition symbol_bytes (s : ELF64Symbol) : list Z :=
  encode [(4, strtab_index_for_name s); (1, type_and_binding s); (1, reserved s); (2, st_section s);
          (8, value s); (8, st_size s)]%nat.
Definition rela_bytes (r : ELF64Rela) : list Z :=
  encode [(8, rela_section_offset r); (8, type_and_symbol r); (8, rela_addend r)]%nat.

(** The sizes of the structures. *)
Definition HEADER_BYTES : Z := 64.
Definition PROGRAM_HEADER_BYTES : Z := 56.
Definition SECTION_HEADER_BYTES : Z := 64.
Definition SYMBOL_BYTES : Z := 24.
Definition RELA_BYTES : Z := 24.

(** The fields of a packed structure. *)
Fixpoint decode (widths : list nat) (l : list Z) : list Z :=
  match widths with
  | [] => []
  | w :: widths => le_value (take w l) :: decode widths (drop w l)
  end.

Definition read_header (l : list Z) : option ELFHeader :=
  match decode [2; 2; 4; 8; 8; 8; 4; 2; 2; 2; 2; 2; 2]%nat (drop 16 l) with
  | [a; b; c; d; e; f; g; h; i; j; k; m; n] => Some (mkHeader (take 16 l) a b c d e f g h i j k m n)
  | _ => None
  end.
Definition read_section_header (l : list Z) : option ELFSectionHeader :=
  match decode [4; 4; 8; 8; 8; 8; 4; 4; 8; 8]%nat l with
  | [a; b; c; d; e; f; g; h; i; j] => Some (mkSectionHeader a b c d e f g h i j)
  | _ => None
  end.
Definition read_elf_symbol (l : list Z) : option ELF64Symbol :=
  match decode [4; 1; 1; 2; 8; 8]%nat l with
  | [a; b; c; d; e; f] => Some (mkELFSymbol a b c d e f)
  | _ => None
  end.
Definition read_rela (l : list Z) : option ELF64Rela :=
  match decode [8; 8; 8]%nat l with
  | [a; b; c] => Some (mkRela a b (i64 c))
  | _ => None
  end.

Definition PT_LOAD : Z := 1.
Definition PF_X : Z := 1.
Definition PF_W : Z := 2.
Definition PF_R : Z := 4.
Definition SHT_NULL : Z := 0.
Definition SHT_PROGBITS : Z := 1.
Definition SHT_SYMTAB : Z := 2.
Definition SHT_STRTAB : Z := 3.
Definition SHT_RELA : Z := 4.
Definition SHT_NOBITS : Z := 8.
Definition SHF_WRITE : Z := 1.
Definition SHF_ALLOC : Z := 2.
Definition SHF_EXECINSTR : Z := 4.
Definition SHN_UNDEF : Z := 0.
Definition SHN_ABS : Z := 0xFFF1.
Definition STB_LOCAL : Z := 0.
Definition STB_GLOBAL : Z := 1.
Definition STT_OBJECT : Z := 1.
Definition STT_FUNC : Z := 2.
Definition STT_SECTION : Z := 3.
Definition STT_FILE : Z := 4.
Definition R_X86_64_64 : Z := 1.
Definition R_X86_64_PC32 : Z := 2.
Definition R_X86_64_32 : Z := 10.
Definition R_X86_64_32S : Z := 11.

Definition ELF64_SYMBOL_TYPE_AND_BINDING (t b : Z) : Z := u8 (Z.lor (Z.shiftl b 4) t).
Definition ELF64_SYMBOL_BINDING (x : Z) : Z := Z.shiftr x 4.
Definition ELF64_SYMBOL_TYPE (x : Z) : Z := Z.land x 0xF.
Definition ELF64_RELA_TYPE_AND_SYMBOL (t s : Z) : Z := Z.lor (u64 (Z.shiftl s 32)) (Z.land t 0xFFFFFFFF).
Definition ELF64_RELA_SYMBOL (x : Z) : Z := Z.shiftr x 32.
Definition ELF64_RELA_TYPE (x : Z) : Z := Z.land x 0xFFFFFFFF.

(** ** Sections *)

Definition NUM_SECTIONS : Z := 9.
Definition TEXT_INDEX : Z := 1.
Definition RELA_TEXT_INDEX : Z := 2.
Definition BSS_INDEX : Z := 3.
Definition DATA_INDEX : Z := 4.
Definition RELA_DATA_INDEX : Z := 5.
Definition SHSTRTAB_INDEX : Z := 6.
Definition SYMTAB_INDEX : Z := 7.
Definition STRTAB_INDEX : Z := 8.

Definition cstring_bytes (s : string) : list Z := bytes_of s ++ [0].
Definition SHSTRTAB_CONTENTS : list Z :=
  0 :: ([".text"; ".rela.text"; ".bss"; ".data"; ".rela.data"; ".shstrtab"; ".symtab"; ".strtab"]%string ≫= cstring_bytes).
Definition TEXT_NAME : Z := 1.
Definition RELA_TEXT_NAME : Z := 7.
Definition BSS_NAME : Z := 18.
Definition DATA_NAME : Z := 23.
Definition RELA_DATA_NAME : Z := 29.
Definition SHSTRTAB_NAME : Z := 40.
Definition SYMTAB_NAME : Z := 50.
Definition STRTAB_NAME : Z := 58.

(** [contents] is [None] for a null pointer. *)
Record SectionInfo := mkSection { size : Z; offset : Z; virtual_address : Z; contents : option (list Z) }.
Definition no_section : SectionInfo := mkSection 0 0 0 None.

Record ELFFile := mkELF {
  output_file : FILE;
  elf_type : ELFFileType;
  entry_point_virtual_address : Z;
  next_string_index : Z;
  curr_symbol_index : Z;
  last_local_symbol_index : Z;
  section_info : list SectionInfo
}.
Definition w_file (e : ELFFile) x := mkELF x (elf_type e) (entry_point_virtual_address e) (next_string_index e)
  (curr_symbol_index e) (last_local_symbol_index e) (section_info e).
Definition w_entry (e : ELFFile) x := mkELF (output_file e) (elf_type e) x (next_string_index e)
  (curr_symbol_index e) (last_local_symbol_index e) (section_info e).
Definition w_next_string (e : ELFFile) x := mkELF (output_file e) (elf_type e) (entry_point_virtual_address e) x
  (curr_symbol_index e) (last_local_symbol_index e) (section_info e).
Definition w_curr_symbol (e : ELFFile) x := mkELF (output_file e) (elf_type e) (entry_point_virtual_address e)
  (next_string_index e) x (last_local_symbol_index e) (section_info e).
Definition w_last_local (e : ELFFile) x := mkELF (output_file e) (elf_type e) (entry_point_virtual_address e)
  (next_string_index e) (curr_symbol_index e) x (section_info e).
Definition w_sections (e : ELFFile) x := mkELF (output_file e) (elf_type e) (entry_point_virtual_address e)
  (next_string_index e) (curr_symbol_index e) (last_local_symbol_index e) x.

Definition init_elf_file (out : FILE) (type : ELFFileType) : ELFFile :=
  mkELF out type 0 1 0 0 (replicate 9 no_section).

Abbreviation elf := (st ELFFile).
Definition on_file {A} (m : stream A) : elf A := zoom output_file (fun f e => w_file e f) m.
Definition info (i : Z) : elf SectionInfo := e ← get; lift (ref (section_info e) i).
Definition set_info (i : Z) (f : SectionInfo -> SectionInfo) : elf unit :=
  e ← get; x ← info i; l ← lift (store (section_info e) i (f x)); put (w_sections e l).
Definition s_size (x : Z) (s : SectionInfo) : SectionInfo := mkSection x (offset s) (virtual_address s) (contents s).
Definition s_offset (x : Z) (s : SectionInfo) : SectionInfo := mkSection (size s) x (virtual_address s) (contents s).
Definition s_address (x : Z) (s : SectionInfo) : SectionInfo := mkSection (size s) (offset s) x (contents s).
Definition s_contents (x : option (list Z)) (s : SectionInfo) : SectionInfo :=
  mkSection (size s) (offset s) (virtual_address s) x.

(** [checked_fwrite(info->contents, 1, info->size, file)] *)
Definition write_section (s : SectionInfo) : elf unit :=
  if size s =? 0 then mret tt
  else
    match contents s with
    | Some l => if size s <=? Z.of_nat (length l) then on_file (checked_fwrite (take (Z.to_nat (size s)) l))
                else lift (Stop Undef)
    | None => lift (Stop Undef)
    end.

Section Contents.
Context (symbols : list AsmSymbol).

(** A relocation of the text: fixups that [assemble] resolved have none. *)
Definition text_rela (f : Fixup) : res (option ELF64Rela) :=
  symbol ← of_opt (symbols !! fixup_symbol f);
  if negb (bool_decide (fixup_section f = TEXT_SECTION)) then Ok None
  else if bool_decide (fixup_type f = FIXUP_RELATIVE) && Asm.defined symbol
          && bool_decide (sym_section symbol = TEXT_SECTION) then Ok None
  else
    ASSERT (negb (symtab_index symbol =? 0));;
    let '(reloc_type, addend) :=
      match fixup_type f with
      | FIXUP_RELATIVE => (R_X86_64_PC32, u32 (fixup_offset f - next_instr_offset f))
      | FIXUP_ABSOLUTE => (R_X86_64_64, 0)
      end in
    Ok (Some (mkRela (fixup_offset f) (ELF64_RELA_TYPE_AND_SYMBOL reloc_type (symtab_index symbol)) addend)).

(** The assertion on the type of the fixup assigns it, so it never fails. *)
Definition data_rela (f : Fixup) : res (option ELF64Rela) :=
  if negb (bool_decide (fixup_section f = DATA_SECTION)) then Ok None
  else
    symbol ← of_opt (symbols !! fixup_symbol f);
    ASSERT (negb (symtab_index symbol =? 0));;
    Ok (Some (mkRela (fixup_offset f) (ELF64_RELA_TYPE_AND_SYMBOL R_X86_64_64 (symtab_index symbol)) 0)).

Fixpoint write_relas (rela : Fixup -> res (option ELF64Rela)) (fixups : list Fixup) : elf unit :=
  match fixups with
  | [] => mret tt
  | f :: fixups =>
      r ← lift (rela f);
      match r with Some r => on_file (checked_fwrite (rela_bytes r)) | None => mret tt end;;
      write_relas rela fixups
  end.

Definition num_program_headers (t : ELFFileType) : Z := if is_exec t then 3 else 0.
Definition first_section_offset (t : ELFFileType) : Z :=
  u32 (HEADER_BYTES + SECTION_HEADER_BYTES * NUM_SECTIONS + PROGRAM_HEADER_BYTES * num_program_headers t).

Definition write_contents (fixups : list Fixup) : elf unit :=
  e ← get;
  let first := first_section_offset (elf_type e) in
  set_info TEXT_INDEX (s_offset first);;
  on_file (checked_fseek first);;
  set_info TEXT_INDEX (s_address (u32 (0x8000000 + first)));;
  text_info ← info TEXT_INDEX;
  lift (ASSERT ((size text_info =? 0) || match contents text_info with Some _ => true | None => false end));;
  write_section text_info;;
  write_relas text_rela fixups;;
  let rela_text_offset := u32 (offset text_info + size text_info) in
  set_info RELA_TEXT_INDEX (s_offset rela_text_offset);;
  p ← on_file checked_ftell;
  set_info RELA_TEXT_INDEX (s_size (u32 (p - rela_text_offset)));;
  rela_text_info ← info RELA_TEXT_INDEX;
  let bss_offset := u32 (offset rela_text_info + size rela_text_info) in
  set_info BSS_INDEX (s_offset bss_offset);;
  let bss_address := u32 (align_to (virtual_address text_info) 0x1000000 + bss_offset) in
  set_info BSS_INDEX (s_address bss_address);;
  set_info DATA_INDEX (s_offset bss_offset);;
  set_info DATA_INDEX (s_address (u32 (align_to bss_address 0x1000000 + bss_offset)));;
  data_info ← info DATA_INDEX;
  lift (ASSERT (match contents data_info with Some _ => true | None => false end));;
  write_section data_info;;
  write_relas data_rela fixups;;
  let rela_data_offset := u32 (offset data_info + size data_info) in
  set_info RELA_DATA_INDEX (s_offset rela_data_offset);;
  p ← on_file checked_ftell;
  set_info RELA_DATA_INDEX (s_size (u32 (p - rela_data_offset)));;
  rela_data_info ← info RELA_DATA_INDEX;
  let shstrtab_offset := u32 (offset rela_data_info + size rela_data_info) in
  set_info SHSTRTAB_INDEX (s_offset shstrtab_offset);;
  set_info SHSTRTAB_INDEX (s_size (Z.of_nat (length SHSTRTAB_CONTENTS)));;
  on_file (checked_fwrite SHSTRTAB_CONTENTS);;
  set_info SYMTAB_INDEX (s_offset (u32 (shstrtab_offset + Z.of_nat (length SHSTRTAB_CONTENTS))));;
  on_file (checked_fwrite (symbol_bytes (mkELFSymbol 0 0 0 0 0 0)));;
  modify (fun e => w_curr_symbol e (u32 (curr_symbol_index e + 1))).

End Contents.

(** ** Symbols and strings *)

Definition add_symbol (type binding section : Z) (name : list Z) (value size : Z) : elf unit :=
  e ← get;
  (if is_exec (elf_type e) && bool_decide (name = bytes_of "_start")
   then modify (fun e => w_entry e (i32 value)) else mret tt);;
  (if binding =? STB_LOCAL then modify (fun e => w_last_local e (curr_symbol_index e)) else mret tt);;
  e ← get;
  let symbol := mkELFSymbol (next_string_index e) (ELF64_SYMBOL_TYPE_AND_BINDING type binding) 0 (u16 section)
                  (u64 (i32 value)) size in
  modify (fun e => w_next_string e (u32 (next_string_index e + (Z.of_nat (length name) + 1))));;
  modify (fun e => w_curr_symbol e (u32 (curr_symbol_index e + 1)));;
  on_file (checked_fwrite (symbol_bytes symbol)).

Definition finish_symtab_section : elf unit :=
  symtab_info ← info SYMTAB_INDEX;
  p ← on_file checked_ftell;
  set_info SYMTAB_INDEX (s_size (u32 (p - offset symtab_info)));;
  symtab_info ← info SYMTAB_INDEX;
  set_info STRTAB_INDEX (s_offset (u32 (offset symtab_info + size symtab_info)));;
  on_file (checked_fwrite [0]).

(** [fprintf] of [%.*s] stops at a NUL. *)
Fixpoint until_nul (l : list Z) : list Z :=
  match l with [] => [] | c :: l => if c =? 0 then [] else c :: until_nul l end.
Definition add_string (s : list Z) : elf unit :=
  on_file (checked_fwrite (until_nul s));; on_file (checked_fwrite [0]).

(** ** Headers *)

Definition segment (s : SectionInfo) (in_file flags : Z) : ELFProgramHeader :=
  mkProgramHeader PT_LOAD flags (offset s) (virtual_address s) 0 in_file (size s) 0x1000.

Definition file_header (e : ELFFile) : ELFHeader :=
  mkHeader (ELF_MAGIC ++ [2; 1; 1] ++ replicate 9 0) (file_type_num (elf_type e)) EM_X86_64 1
    (if is_exec (elf_type e) then u64 (entry_point_virtual_address e) else 0)
    (if is_exec (elf_type e) then HEADER_BYTES + SECTION_HEADER_BYTES * NUM_SECTIONS else 0)
    HEADER_BYTES 0 HEADER_BYTES PROGRAM_HEADER_BYTES (num_program_headers (elf_type e))
    SECTION_HEADER_BYTES NUM_SECTIONS SHSTRTAB_INDEX.

(** The header of a section that has no other fields. *)
Definition section_header (name type flags address : Z) (s : SectionInfo) (link misc entry : Z) : ELFSectionHeader :=
  mkSectionHeader name type flags address (offset s) (size s) link misc 0 entry.

Definition write_section_header (h : ELFSectionHeader) : elf unit := on_file (checked_fwrite (section_header_bytes h)).

Definition write_section_headers : elf unit :=
  write_section_header (mkSectionHeader 0 SHT_NULL 0 0 0 0 0 0 0 0);;
  s ← info TEXT_INDEX;
  write_section_header (section_header TEXT_NAME SHT_PROGBITS (Z.lor SHF_ALLOC SHF_EXECINSTR) (virtual_address s) s 0 0 0);;
  s ← info RELA_TEXT_INDEX;
  write_section_header (section_header RELA_TEXT_NAME SHT_RELA 0 0 s SYMTAB_INDEX TEXT_INDEX RELA_BYTES);;
  s ← info BSS_INDEX;
  write_section_header (section_header BSS_NAME SHT_NOBITS (Z.lor SHF_ALLOC SHF_WRITE) (virtual_address s) s 0 0 0);;
  s ← info DATA_INDEX;
  write_section_header (section_header DATA_NAME SHT_PROGBITS (Z.lor SHF_ALLOC SHF_WRITE) (virtual_address s) s 0 0 0);;
  s ← info RELA_DATA_INDEX;
  write_section_header (section_header RELA_DATA_NAME SHT_RELA 0 0 s SYMTAB_INDEX DATA_INDEX RELA_BYTES);;
  s ← info SHSTRTAB_INDEX;
  write_section_header (section_header SHSTRTAB_NAME SHT_STRTAB 0 0 s 0 0 0);;
  e ← get;
  lift (ASSERT (negb (last_local_symbol_index e =? 0)));;
  s ← info SYMTAB_INDEX;
  write_section_header (section_header SYMTAB_NAME SHT_SYMTAB 0 0 s STRTAB_INDEX
    (u32 (last_local_symbol_index e + 1)) SYMBOL_BYTES);;
  s ← info STRTAB_INDEX;
  write_section_header (section_header STRTAB_NAME SHT_STRTAB 0 0 s 0 0 0).

Definition write_program_headers : elf unit :=
  on_file (checked_fseek (HEADER_BYTES + SECTION_HEADER_BYTES * NUM_SECTIONS));;
  s ← info TEXT_INDEX;
  on_file (checked_fwrite (program_header_bytes (segment s (size s) (Z.lor PF_R PF_X))));;
  s ← info BSS_INDEX;
  on_file (checked_fwrite (program_header_bytes (segment s 0 (Z.lor PF_R PF_W))));;
  s ← info DATA_INDEX;
  on_file (checked_fwrite (program_header_bytes (segment s (size s) (Z.lor PF_R PF_W)))).

Definition finish_strtab_section : elf unit :=
  strtab_info ← info STRTAB_INDEX;
  p ← on_file checked_ftell;
  set_info STRTAB_INDEX (s_size (u32 (p - offset strtab_info)));;
  e ← get;
  (if is_exec (elf_type e) then
     lift (ASSERT (negb (entry_point_virtual_address e =? -1)));;
     write_program_headers
   else mret tt);;
  on_file (checked_fseek 0);;
  p ← on_file checked_ftell;
  lift (ASSERT (p =? 0));;
  on_file (checked_fwrite (header_bytes (file_header e)));;
  on_file (checked_fseek HEADER_BYTES);;
  write_section_headers.

(** ** Object files *)

Definition symbol_section (s : AsmSymbol) : res Z :=
  if Asm.defined s then
    match sym_section s with
    | UNKNOWN_SECTION => UNREACHABLE
    | TEXT_SECTION => Ok TEXT_INDEX
    | BSS_SECTION => Ok BSS_INDEX
    | DATA_SECTION => Ok DATA_INDEX
    end
  else Ok SHN_UNDEF.
Definition symbol_binding (s : AsmSymbol) : Z :=
  if Asm.defined s then match sym_linkage s with ASM_GLOBAL_LINKAGE => STB_GLOBAL | ASM_LOCAL_LINKAGE => STB_LOCAL end
  else STB_GLOBAL.

Fixpoint add_symbols (l : list AsmSymbol) : elf unit :=
  match l with
  | [] => mret tt
  | s :: l =>
      section ← lift (symbol_section s);
      add_symbol STT_FUNC (symbol_binding s) section (bytes_of (sym_name s)) (sym_offset s) (sym_size s);;
      add_symbols l
  end.
Fixpoint add_strings (l : list (list Z)) : elf unit :=
  match l with [] => mret tt | s :: l => add_string s;; add_strings l end.

(** The bytes of a section of the module; [None] before anything is allocated. *)
Definition allocated (l : list Z) : option (list Z) := match l with [] => None | _ => Some l end.

Definition object_file (m : AsmModule) : elf unit :=
  set_info TEXT_INDEX (s_size (u32 (Z.of_nat (length (text_bytes m)))));;
  set_info TEXT_INDEX (s_contents (Some (text_bytes m)));;
  set_info BSS_INDEX (s_size (bss_size m));;
  set_info DATA_INDEX (s_size (u32 (Z.of_nat (length (asm_data m)))));;
  set_info DATA_INDEX (s_contents (Some (asm_data m)));;
  write_contents (symbols m) (fixups m);;
  add_symbols (symbols m);;
  add_symbol STT_FILE STB_LOCAL SHN_ABS (bytes_of (input_file_name m)) 0 0;;
  finish_symtab_section;;
  add_strings ((fun s => bytes_of (sym_name s)) <$> symbols m);;
  add_string (bytes_of (input_file_name m));;
  finish_strtab_section.

(** The exit code and the file that was written. *)
Definition write_elf_object_file (opened : option FILE) (m : AsmModule) : res (ExitCode * option FILE) :=
  match opened with
  | None => Ok (EXIT_CODE_IO_ERROR, None)
  | Some out =>
      '(_, e) ← object_file m (init_elf_file out ET_REL);
      Ok (EXIT_CODE_SUCCESS, Some (output_file e))
  end.

(** ** The linker's tables *)

Record Relocation := mkReloc { reloc_type : Z; reloc_section_index : Z; reloc_section_offset : Z; reloc_addend : Z }.

(** The last fields have no value while [l_defined] is false. *)
Record Symbol := mkSymbol {
  l_defined : bool;
  l_name : list Z;
  relocs : list Relocation;
  l_binding : Z;
  l_section_index : Z;
  l_section_offset : Z;
  l_size : Z
}.

(** The input file and what was linked so far. *)
Record Link := mkLink {
  input_file : FILE;
  l_text : list Z;
  l_data : list Z;
  l_bss_size : Z;
  symbol_table : list Symbol
}.
Definition w_input (k : Link) x := mkLink x (l_text k) (l_data k) (l_bss_size k) (symbol_table k).
Definition w_table (k : Link) x := mkLink (input_file k) (l_text k) (l_data k) (l_bss_size k) x.

Abbreviation link := (st Link).
Definition on_input {A} (m : stream A) : link A := zoom input_file (fun f k => w_input k f) m.

Definition read_at (position n : Z) : link (list Z) :=
  on_input (checked_fseek position);; on_input (checked_fread n).

(** The C string in [buffer] from [i] on. *)
Definition string_at (buffer : list Z) (i : Z) : res (list Z) :=
  let s := drop (Z.to_nat i) buffer in
  if (0 <=? i) && existsb (Z.eqb 0) s then Ok (until_nul s) else Stop Undef.

(** ** Relocations of a file *)

Definition add_reloc (r : Relocation) (s : Symbol) : Symbol :=
  mkSymbol (l_defined s) (l_name s) (relocs s ++ [r]) (l_binding s) (l_section_index s) (l_section_offset s) (l_size s).

Fixpoint process_relas (n : nat) (file_symbols : list Z) (existing_section_size section : Z) : link unit :=
  match n with
  | O => mret tt
  | S n =>
      l ← on_input (checked_fread RELA_BYTES);
      rela ← lift (of_opt (read_rela l));
      symbol ← lift (ref file_symbols (u32 (ELF64_RELA_SYMBOL (type_and_symbol rela))));
      k ← get;
      s ← lift (ref (symbol_table k) symbol);
      let reloc := mkReloc (u32 (ELF64_RELA_TYPE (type_and_symbol rela))) section
                     (u32 (existing_section_size + rela_section_offset rela)) (i32 (rela_addend rela)) in
      table ← lift (store (symbol_table k) symbol (add_reloc reloc s));
      put (w_table k table);;
      process_relas n file_symbols existing_section_size section
  end.

Definition process_rela_section (rela_header : option ELFSectionHeader) (file_symbols : list Z)
    (initial_location existing_section_size corresponding_section_index : Z) : link unit :=
  match rela_header with
  | None => mret tt
  | Some h =>
      lift (PRECONDITION (sh_type h =? SHT_RELA));;
      lift (PRECONDITION (entry_size h =? RELA_BYTES));;
      on_input (checked_fseek (u64 (initial_location + section_location h)));;
      process_relas (Z.to_nat (u32 (section_size h / entry_size h))) file_symbols existing_section_size
        corresponding_section_index
  end.

(** ** Sections of a file *)

(** The headers found by name, with the indices of the allocated sections. *)
Record Found := mkFound {
  text_header : option ELFSectionHeader; text_section_index : Z;
  symtab_header : option ELFSectionHeader; strtab_header : option ELFSectionHeader;
  rela_text_header : option ELFSectionHeader; rela_data_header : option ELFSectionHeader;
  data_header : option ELFSectionHeader; data_section_index : Z;
  bss_header : option ELFSectionHeader; bss_section_index : Z
}.
Definition nothing_found : Found := mkFound None SHN_UNDEF None None None None None SHN_UNDEF None SHN_UNDEF.

(** [None] for relocations of another section. *)
Definition find_section (f : Found) (i : Z) (name : list Z) (h : ELFSectionHeader) : option Found :=
  if bool_decide (name = bytes_of ".text") then
    Some (mkFound (Some h) i (symtab_header f) (strtab_header f) (rela_text_header f) (rela_data_header f)
            (data_header f) (data_section_index f) (bss_header f) (bss_section_index f))
  else if bool_decide (name = bytes_of ".symtab") then
    Some (mkFound (text_header f) (text_section_index f) (Some h) (strtab_header f) (rela_text_header f)
            (rela_data_header f) (data_header f) (data_section_index f) (bss_header f) (bss_section_index f))
  else if bool_decide (name = bytes_of ".strtab") then
    Some (mkFound (text_header f) (text_section_index f) (symtab_header f) (Some h) (rela_text_header f)
            (rela_data_header f) (data_header f) (data_section_index f) (bss_header f) (bss_section_index f))
  else if bool_decide (take 5 name = bytes_of ".rela") then
    if bool_decide (name = bytes_of ".rela.text") then
      Some (mkFound (text_header f) (text_section_index f) (symtab_header f) (strtab_header f) (Some h)
              (rela_data_header f) (data_header f) (data_section_index f) (bss_header f) (bss_section_index f))
    else if bool_decide (name = bytes_of ".rela.data") then
      Some (mkFound (text_header f) (text_section_index f) (symtab_header f) (strtab_header f) (rela_text_header f)
              (Some h) (data_header f) (data_section_index f) (bss_header f) (bss_section_index f))
    else None
  else if bool_decide (name = bytes_of ".bss") then
    Some (mkFound (text_header f) (text_section_index f) (symtab_header f) (strtab_header f) (rela_text_header f)
            (rela_data_header f) (data_header f) (data_section_index f) (Some h) i)
  else if bool_decide (name = bytes_of ".data") then
    Some (mkFound (text_header f) (text_section_index f) (symtab_header f) (strtab_header f) (rela_text_header f)
            (rela_data_header f) (Some h) i (bss_header f) (bss_section_index f))
  else Some f.

Fixpoint find_sections (shstrtab : list Z) (f : Found) (i : Z) (headers : list ELFSectionHeader) : res (option Found) :=
  match headers with
  | [] => Ok (Some f)
  | h :: headers =>
      name ← string_at shstrtab (shstrtab_index_for_name h);
      match find_section f i name h with
      | Some f => find_sections shstrtab f (i + 1) headers
      | None => Ok None
      end
  end.

(** ** Symbols of a file *)

Definition is_global (name : list Z) (s : Symbol) : bool :=
  (l_binding s =? STB_GLOBAL) && bool_decide (l_name s = name).
Fixpoint find_symbol (name : list Z) (i : Z) (l : list Symbol) : option Z :=
  match l with
  | [] => None
  | s :: l => if is_global name s then Some i else find_symbol name (i + 1) l
  end.

(** A section of the file: its index in the file, its index in the output and what
    the output had of it before. *)
Definition placed_in (f : Found) (text bss data section : Z) : option (Z * Z) :=
  if section =? text_section_index f then Some (TEXT_INDEX, text)
  else if section =? bss_section_index f then Some (BSS_INDEX, bss)
  else if section =? data_section_index f then Some (DATA_INDEX, data)
  else None.

(** One symbol: its index in the table, nothing for symbols that are skipped, or
    the exit code of a second definition. *)
Definition process_symbol (f : Found) (existing_text existing_bss existing_data : Z) (strtab : list Z)
    (symtab_index : Z) (s : ELF64Symbol) : link (ExitCode + option Z) :=
  symbol_name ← lift (string_at strtab (strtab_index_for_name s));
  let type := ELF64_SYMBOL_TYPE (type_and_binding s) in
  let binding := ELF64_SYMBOL_BINDING (type_and_binding s) in
  let place := placed_in f existing_text existing_bss existing_data (st_section s) in
  if (symtab_index =? 0) || (type =? STT_FILE) || (type =? STT_SECTION) && negb (bool_decide (is_Some place))
  then mret (inr None)
  else
    k ← get;
    let found := if binding =? STB_GLOBAL then find_symbol symbol_name 0 (symbol_table k) else None in
    let new := Z.of_nat (length (symbol_table k)) in
    if st_section s =? SHN_UNDEF then
      match found with
      | Some i => mret (inr (Some i))
      | None =>
          put (w_table k (symbol_table k ++ [mkSymbol false symbol_name [] binding 0 0 0]));;
          mret (inr (Some (u32 new)))
      end
    else
      match place with
      | Some (section_index, existing) =>
          let definition relocs :=
            mkSymbol true symbol_name relocs binding section_index (u32 (existing + value s)) (u32 (st_size s)) in
          match found with
          | None => put (w_table k (symbol_table k ++ [definition []]));; mret (inr (Some (u32 new)))
          | Some i =>
              old ← lift (ref (symbol_table k) i);
              if l_defined old then mret (inl EXIT_CODE_LINKER_ERROR)
              else
                table ← lift (store (symbol_table k) i (definition (relocs old)));
                put (w_table k table);;
                mret (inr (Some i))
          end
      | None => lift UNREACHABLE
      end.

(** The loop over the symbol table; [file_symbols] starts out zeroed. *)
Fixpoint process_symbols (f : Found) (existing_text existing_bss existing_data : Z) (strtab : list Z)
    (symtab_index : Z) (n : nat) : link (ExitCode + list Z) :=
  match n with
  | O => mret (inr [])
  | S n =>
      l ← on_input (checked_fread SYMBOL_BYTES);
      s ← lift (of_opt (read_elf_symbol l));
      r ← process_symbol f existing_text existing_bss existing_data strtab symtab_index s;
      match r with
      | inl e => mret (inl e)
      | inr i =>
          rest ← process_symbols f existing_text existing_bss existing_data strtab (symtab_index + 1) n;
          mret (match rest with inl e => inl e | inr l => inr (default 0 i :: l) end)
      end
  end.

(** ** A file of the linker's input *)

Fixpoint read_headers (n : nat) (l : list Z) : res (list ELFSectionHeader) :=
  match n with
  | O => Ok []
  | S n =>
      h ← of_opt (read_section_header l);
      rest ← read_headers n (drop (Z.to_nat SECTION_HEADER_BYTES) l);
      Ok (h :: rest)
  end.

(** The bytes of a section of the file, when it is there. *)
Definition section_bytes (initial_location : Z) (h : option ELFSectionHeader) : link (list Z) :=
  match h with
  | Some h =>
      if section_size h =? 0 then mret []
      else read_at (u64 (initial_location + section_location h)) (section_size h)
  | None => mret []
  end.

(** From the section headers on. *)
Definition process_sections (initial_location : Z) (f : Found) : link ExitCode :=
  match text_header f, symtab_header f, strtab_header f with
  | Some text, Some symtab, Some strtab =>
      lift (ASSERT (sh_type text =? SHT_PROGBITS));;
      lift (ASSERT (sh_type symtab =? SHT_SYMTAB));;
      lift (ASSERT (entry_size symtab =? SYMBOL_BYTES));;
      lift (ASSERT (sh_type strtab =? SHT_STRTAB));;
      names ← read_at (u64 (initial_location + section_location strtab)) (section_size strtab);
      k ← get;
      let existing_text := u32 (Z.of_nat (length (l_text k))) in
      let existing_data := u32 (Z.of_nat (length (l_data k))) in
      let existing_bss := l_bss_size k in
      text_bytes ← section_bytes initial_location (Some text);
      data_bytes ← section_bytes initial_location (data_header f);
      modify (fun k => mkLink (input_file k) (l_text k ++ text_bytes) (l_data k ++ data_bytes)
        (match bss_header f with Some h => u32 (l_bss_size k + section_size h) | None => l_bss_size k end)
        (symbol_table k));;
      let symbols_in_symtab := u32 (section_size symtab / entry_size symtab) in
      on_input (checked_fseek (u64 (initial_location + section_location symtab)));;
      r ← process_symbols f existing_text existing_bss existing_data names 0 (Z.to_nat symbols_in_symtab);
      match r with
      | inl e => mret e
      | inr file_symbols =>
          process_rela_section (rela_text_header f) file_symbols initial_location existing_text TEXT_INDEX;;
          process_rela_section (rela_data_header f) file_symbols initial_location existing_data DATA_INDEX;;
          mret EXIT_CODE_SUCCESS
      end
  | _, _, _ => mret EXIT_CODE_LINKER_ERROR
  end.

(** A file that cannot be read, or of another architecture, returns [false], which
    is the number of [EXIT_CODE_SUCCESS]. *)
Definition process_elf_file : link ExitCode :=
  p ← on_input checked_ftell;
  let initial_location := u32 p in
  l ← on_input (fread HEADER_BYTES);
  if negb (Z.of_nat (length l) =? HEADER_BYTES) then mret EXIT_CODE_SUCCESS
  else
    header ← lift (of_opt (read_header l));
    lift (ASSERT (shstrtab_index header <? sht_entries header));;
    lift (ASSERT (bool_decide (take 4 (identifier header) = ELF_MAGIC)));;
    if negb (target_architecture header =? EM_X86_64) then mret EXIT_CODE_SUCCESS
    else
      lift (ASSERT (section_header_size header =? SECTION_HEADER_BYTES));;
      l ← read_at (u32 (initial_location + u32 (sht_location header))) (SECTION_HEADER_BYTES * sht_entries header);
      headers ← lift (read_headers (Z.to_nat (sht_entries header)) l);
      shstrtab_header ← lift (ref headers (shstrtab_index header));
      lift (ASSERT (sh_type shstrtab_header =? SHT_STRTAB));;
      shstrtab ← read_at (u64 (initial_location + section_location shstrtab_header)) (section_size shstrtab_header);
      found ← lift (find_sections shstrtab nothing_found 0 headers);
      match found with
      | None => mret EXIT_CODE_UNIMPLEMENTED
      | Some f => process_sections initial_location f
      end.

(** ** Archives *)

Definition AR_HEADER_BYTES : Z := 60.
Record ArFileHeader := mkAr { ar_name : list Z; ar_size : list Z; ar_magic : list Z }.
Definition read_ar_header (l : list Z) : ArFileHeader := mkAr (take 16 l) (take 10 (drop 48 l)) (drop 58 l).

(** The name without its trailing spaces; a name of spaces only is not terminated. *)
Fixpoint trim (l : list Z) : list Z :=
  match l with
  | [] => []
  | c :: l => match trim l with [] => if c =? 32 then [] else [c] | t => c :: t end
  end.

(** [loop] runs once for a member; the exit code of the first failure. *)
Fixpoint process_members (fuel : nat) : link ExitCode :=
  match fuel with
  | O => lift (Stop NoFuel)
  | S n =>
      p ← on_input checked_ftell;
      (if p mod 2 =? 1 then on_input (checked_fseek_cur 1) else mret tt);;
      l ← on_input (fread AR_HEADER_BYTES);
      if negb (Z.of_nat (length l) =? AR_HEADER_BYTES) then mret EXIT_CODE_SUCCESS
      else
        let header := read_ar_header l in
        file_start ← on_input checked_ftell;
        lift (ASSERT (bool_decide (ar_magic header = [0x60; 0x0A])));;
        (if bool_decide (trim (ar_name header) = []) then lift (Stop Undef) else mret tt);;
        let filename := until_nul (trim (ar_name header)) in
        file_size_bytes ← lift (atol (ar_size header ++ [0]));
        result ← (if negb (bool_decide (filename = bytes_of "/")) && negb (bool_decide (filename = bytes_of "//"))
                  then process_elf_file else mret EXIT_CODE_SUCCESS);
        if decide (result = EXIT_CODE_SUCCESS) then
          on_input (checked_fseek (file_start + file_size_bytes));;
          process_members n
        else mret result
  end.

Definition process_input : link ExitCode :=
  type ← on_input file_type;
  match type with
  | ELF_FILE_TYPE => process_elf_file
  | AR_FILE_TYPE =>
      on_input (checked_fseek (Z.of_nat (length AR_GLOBAL_HEADER)));;
      k ← get;
      process_members (S (length (file_bytes (input_file k))))
  | UNKNOWN_FILE_TYPE => lift UNREACHABLE
  end.

(** The loop over the inputs; [None] is a file that does not open. *)
Fixpoint process_inputs (inputs : list (option (list Z))) : link ExitCode :=
  match inputs with
  | [] => mret EXIT_CODE_SUCCESS
  | None :: _ => mret EXIT_CODE_IO_ERROR
  | Some bytes :: inputs =>
      modify (fun k => w_input k (mkFile bytes 0));;
      result ← process_input;
      if decide (result = EXIT_CODE_SUCCESS) then process_inputs inputs else mret result
  end.

(** ** Executables *)

Definition final_value (type symbol_mem_location reloc_mem_location addend : Z) : res Z :=
  if type =? R_X86_64_PC32 then Ok (u32 (symbol_mem_location + addend - i32 reloc_mem_location))
  else if (type =? R_X86_64_64) || (type =? R_X86_64_32S) || (type =? R_X86_64_32)
  then Ok (u32 (symbol_mem_location + addend))
  else UNIMPLEMENTED.

(** Always four bytes, whatever the type. *)
Definition apply_reloc (symbol_mem_location : Z) (r : Relocation) : elf unit :=
  s ← info (reloc_section_index r);
  let reloc_mem_location := u32 (virtual_address s + reloc_section_offset r) in
  x ← lift (final_value (reloc_type r) symbol_mem_location reloc_mem_location (reloc_addend r));
  on_file (checked_fseek (u32 (reloc_mem_location - virtual_address s + offset s)));;
  on_file (checked_fwrite (le_bytes x 4)).

Fixpoint apply_relocs (symbol_mem_location : Z) (l : list Relocation) : elf unit :=
  match l with
  | [] => mret tt
  | r :: l => apply_reloc symbol_mem_location r;; apply_relocs symbol_mem_location l
  end.

Definition symbol_type (section : Z) : res Z :=
  if section =? TEXT_INDEX then Ok STT_FUNC
  else if (section =? BSS_INDEX) || (section =? DATA_INDEX) then Ok STT_OBJECT
  else UNREACHABLE.

(** A defined symbol: its entry in the table, then its relocations. *)
Definition place_symbol (s : Symbol) : elf unit :=
  section ← info (l_section_index s);
  let symbol_mem_location := u32 (virtual_address section + l_section_offset s) in
  type ← lift (symbol_type (l_section_index s));
  add_symbol type (l_binding s) (l_section_index s) (l_name s) symbol_mem_location (l_size s);;
  prev_location ← on_file checked_ftell;
  apply_relocs symbol_mem_location (relocs s);;
  on_file (checked_fseek prev_location).

Fixpoint place_symbols (l : list Symbol) : elf ExitCode :=
  match l with
  | [] => mret EXIT_CODE_SUCCESS
  | s :: l =>
      if l_defined s then place_symbol s;; place_symbols l
      else if bool_decide (relocs s = []) then place_symbols l
      else mret EXIT_CODE_LINKER_ERROR
  end.

Definition executable (k : Link) : elf ExitCode :=
  set_info TEXT_INDEX (s_size (u32 (Z.of_nat (length (l_text k)))));;
  set_info TEXT_INDEX (s_contents (allocated (l_text k)));;
  set_info BSS_INDEX (s_size (l_bss_size k));;
  set_info DATA_INDEX (s_size (u32 (Z.of_nat (length (l_data k)))));;
  set_info DATA_INDEX (s_contents (Some (l_data k)));;
  write_contents [] [];;
  result ← place_symbols (symbol_table k);
  if decide (result = EXIT_CODE_SUCCESS) then
    finish_symtab_section;;
    add_strings (l_name <$> symbol_table k);;
    finish_strtab_section;;
    mret EXIT_CODE_SUCCESS
  else mret result.

Definition link_elf_executable (opened : option FILE) (inputs : list (option (list Z)))
    : res (ExitCode * option FILE) :=
  match opened with
  | None => Ok (EXIT_CODE_IO_ERROR, None)
  | Some out =>
      '(result, k) ← process_inputs inputs (mkLink empty_file [] [] 0 []);
      if decide (result = EXIT_CODE_SUCCESS) then
        '(result, e) ← executable k (init_elf_file out ET_EXEC);
        Ok (result, Some (output_file e))
      else Ok (result, Some out)
  end.
