(* ===== verification/ElfSound.v ===== *)
(** * The linker reads what the object writer writes

    The structures of the format are read back as they were written; the bytes of an
    object file and of an executable; reading an object file links its sections,
    symbols and relocations. *)

From S2P Require Import Prelude Maths LibC Lex Stream Asm Elf.

Local Open Scope Z_scope.

(** ** Structures *)

Lemma encode_cons w x l : encode ((w, x) :: l) = le_bytes x w ++ encode l.
Proof. done. Qed.
Lemma encode_app l l' : encode (l ++ l') = encode l ++ encode l'.
Proof. unfold encode. apply bind_app. Qed.

Lemma encode_length l : length (encode l) = sum_list (fst <$> l).
Proof.
  induction l as [|[w x] l IH]; [done |]. rewrite encode_cons, length_app, le_bytes_length, IH. done.
Qed.

Lemma decode_encode l rest :
  decode (fst <$> l) (encode l ++ rest) = (fun '(w, x) => x mod 2 ^ (8 * Z.of_nat w)) <$> l.
Proof.
  induction l as [|[w x] l IH]; [done |]. cbn [fmap list_fmap decode fst]. rewrite encode_cons, <- app_assoc.
  rewrite take_app_length' by (by rewrite le_bytes_length). rewrite drop_app_length' by (by rewrite le_bytes_length).
  by rewrite le_value_bytes, IH.
Qed.

(** The values of a structure fit its fields. *)
Definition fits (l : list (nat * Z)) : Prop := Forall (fun '(w, x) => 0 <= x < 2 ^ (8 * Z.of_nat w)) l.

Lemma decode_fits l rest : fits l -> decode (fst <$> l) (encode l ++ rest) = snd <$> l.
Proof.
  intros H. rewrite decode_encode. apply list_fmap_ext. intros i [w x] E.
  unfold fits in H. rewrite Forall_lookup in H. specialize (H i _ E). cbn in H. by apply Z.mod_small.
Qed.

Lemma read_symbol_bytes s rest : 
  fits [(4, strtab_index_for_name s); (1, type_and_binding s); (1, reserved s); (2, st_section s);
        (8, value s); (8, st_size s)]%nat ->
  read_elf_symbol (symbol_bytes s ++ rest) = Some s.
Proof. intros H. unfold read_elf_symbol, symbol_bytes. pose proof (decode_fits _ rest H) as E. cbn [fmap list_fmap fst] in E. rewrite E. by destruct s. Qed.

Lemma read_section_header_bytes h rest :
  fits [(4, shstrtab_index_for_name h); (4, sh_type h); (8, sh_flags h); (8, sh_virtual_address h);
        (8, section_location h); (8, section_size h); (4, linked_section h); (4, misc_info h);
        (8, sh_alignment h); (8, entry_size h)]%nat ->
  read_section_header (section_header_bytes h ++ rest) = Some h.
Proof. intros H. unfold read_section_header, section_header_bytes. pose proof (decode_fits _ rest H) as E. cbn [fmap list_fmap fst] in E. rewrite E. by destruct h. Qed.

Lemma read_rela_bytes r rest : 0 <= rela_section_offset r < 2 ^ 64 -> 0 <= type_and_symbol r < 2 ^ 64 ->
  0 <= rela_addend r < 2 ^ 63 -> read_rela (rela_bytes r ++ rest) = Some r.
Proof.
  intros H1 H2 H3. unfold read_rela, rela_bytes.
  assert (H : fits [(8, rela_section_offset r); (8, type_and_symbol r); (8, rela_addend r)]%nat).
  { repeat constructor; cbn; lia. }
  pose proof (decode_fits _ rest H) as E. cbn [fmap list_fmap fst] in E. rewrite E.
  cbn [snd]. rewrite sgn_small by lia. by destruct r.
Qed.

Lemma read_header_bytes h rest : length (identifier h) = 16%nat -> Forall (fun b => 0 <= b < 256) (identifier h) ->
  fits [(2, object_file_type h); (2, target_architecture h); (4, elf_version h); (8, entry_point h);
     (8, pht_location h); (8, sht_location h); (4, architecture_specific_flags h); (2, header_size h);
     (2, program_header_size h); (2, pht_entries h); (2, section_header_size h); (2, sht_entries h);
     (2, shstrtab_index h)]%nat ->
  read_header (header_bytes h ++ rest) = Some h.
Proof.
  intros Hl Hb H. unfold read_header, header_bytes. rewrite encode_app, <- app_assoc.
  assert (Ei : encode ((fun b => (1%nat, b)) <$> identifier h) = identifier h).
  { clear - Hb. induction Hb as [|b l Hb _ IH]; [done |]. cbn [fmap list_fmap]. rewrite encode_cons, IH.
    unfold le_bytes. cbn. f_equal. rewrite Z.shiftr_0_r. change 255 with (Z.ones 8). rewrite Z.land_ones by lia. by apply Z.mod_small. }
  rewrite Ei, drop_app_length' by done. rewrite take_app_length' by done.
  pose proof (decode_fits _ rest H) as E. cbn [fmap list_fmap fst] in E. rewrite E. by destruct h.
Qed.

Lemma header_length h : length (identifier h) = 16%nat -> length (header_bytes h) = 64%nat.
Proof.
  intros H. unfold header_bytes. rewrite encode_app, length_app.
  assert (E : length (encode ((fun b => (1%nat, b)) <$> identifier h)) = length (identifier h)).
  { rewrite encode_length. clear H. induction (identifier h) as [|b l IH]; [done |]. cbn in *. by rewrite IH. }
  rewrite E, H. by rewrite encode_length.
Qed.
Lemma section_header_length h : length (section_header_bytes h) = 64%nat.
Proof. unfold section_header_bytes. by rewrite encode_length. Qed.
Lemma program_header_length h : length (program_header_bytes h) = 56%nat.
Proof. unfold program_header_bytes. by rewrite encode_length. Qed.
Lemma symbol_length s : length (symbol_bytes s) = 24%nat.
Proof. unfold symbol_bytes. by rewrite encode_length. Qed.
Lemma rela_length r : length (rela_bytes r) = 24%nat.
Proof. unfold rela_bytes. by rewrite encode_length. Qed.

(** ** Writing at the end of a file *)

(** The file with the zeros up to its position. *)
Definition content (f : FILE) : list Z := file_bytes f ++ replicate (Z.to_nat (file_pos f) - length (file_bytes f)) 0.
Definition at_end (f : FILE) : Prop := Z.of_nat (length (file_bytes f)) <= file_pos f.
Definition appended (f : FILE) (d : list Z) : FILE :=
  match d with [] => f | _ => mkFile (content f ++ d) (file_pos f + Z.of_nat (length d)) end.

Lemma content_length f : at_end f -> Z.of_nat (length (content f)) = file_pos f.
Proof. unfold at_end, content. intros H. rewrite length_app, length_replicate. lia. Qed.

Lemma fwrite_appended f d : at_end f -> checked_fwrite d f = Ok (tt, appended f d).
Proof.
  intros H. destruct d as [|x d]; [done |]. destruct f as [l p]. unfold at_end in H. cbn in H.
  rewrite fwrite_run by (done || lia). unfold appended, content. cbn [file_bytes file_pos].
  rewrite overwrite_past by lia. by rewrite <- app_assoc.
Qed.

Lemma content_appended f d : at_end f -> content (appended f d) = content f ++ d.
Proof.
  intros H. pose proof (content_length f H). destruct d as [|x d]; [by rewrite app_nil_r |].
  unfold appended, content at 1. cbn [file_bytes file_pos].
  replace (_ - _)%nat with 0%nat by (rewrite length_app; cbn; lia). by rewrite app_nil_r.
Qed.
Lemma appended_pos f d : file_pos (appended f d) = file_pos f + Z.of_nat (length d).
Proof. destruct d; cbn; [lia | done]. Qed.
Lemma appended_at_end f d : at_end f -> at_end (appended f d).
Proof.
  intros H. destruct d as [|x d]; [done |]. unfold at_end, appended. cbn [file_bytes file_pos].
  rewrite length_app. pose proof (content_length f H). lia.
Qed.
Lemma appended_app f a b : at_end f -> appended (appended f a) b = appended f (a ++ b).
Proof.
  intros H. destruct b as [|y b]; [by rewrite app_nil_r |]. destruct a as [|x a]; [done |].
  unfold appended at 1. rewrite content_appended, appended_pos by done.
  change ((x :: a) ++ y :: b) with (x :: (a ++ y :: b)). unfold appended. f_equal; [by rewrite <- app_assoc |].
  change (x :: a ++ y :: b) with ((x :: a) ++ (y :: b)). rewrite length_app. lia.
Qed.

(** ** The contents of the sections *)

Definition file_at (f : FILE) (d : list Z) (e : ELFFile) : Prop := at_end f /\ output_file e = appended f d.

Lemma write_run x f d e : file_at f d e ->
  on_file (checked_fwrite x) e = Ok (tt, w_file e (appended f (d ++ x))).
Proof.
  intros [Hf He]. unfold on_file, zoom. rewrite He, fwrite_appended by (by apply appended_at_end).
  by rewrite appended_app.
Qed.
Lemma ftell_run f d e : file_at f d e ->
  on_file checked_ftell e = Ok (file_pos f + Z.of_nat (length d), e).
Proof.
  intros [Hf He]. unfold on_file, zoom, checked_ftell, mbind, st_bind, get, mret, st_ret.
  rewrite He, appended_pos, <- He. do 2 f_equal. by destruct e.
Qed.
Lemma file_at_w f d e : at_end f -> file_at f d (w_file e (appended f d)).
Proof. done. Qed.

Fixpoint relas_of (rela : Fixup -> res (option ELF64Rela)) (fixups : list Fixup) : res (list ELF64Rela) :=
  match fixups with
  | [] => Ok []
  | f :: fixups =>
      r ← rela f; rest ← relas_of rela fixups;
      Ok (match r with Some r => r :: rest | None => rest end)
  end.
Definition relas_bytes (l : list ELF64Rela) : list Z := l ≫= rela_bytes.

Lemma relas_bytes_cons r l : relas_bytes (r :: l) = rela_bytes r ++ relas_bytes l.
Proof. done. Qed.
Lemma relas_bytes_length l : length (relas_bytes l) = (24 * length l)%nat.
Proof. induction l as [|r l IH]; [done |]. rewrite relas_bytes_cons, length_app, rela_length, IH. cbn [length]. lia. Qed.

Lemma w_file_same e f : output_file e = f -> w_file e f = e.
Proof. intros <-. by destruct e. Qed.

Lemma write_relas_run rela fixups : forall l f d e, relas_of rela fixups = Ok l -> file_at f d e ->
  write_relas rela fixups e = Ok (tt, w_file e (appended f (d ++ relas_bytes l))).
Proof.
  induction fixups as [|x fixups IH]; intros l f d e Hl He; cbn [relas_of write_relas] in *.
  { injection Hl as <-. cbn. rewrite app_nil_r. destruct He as [_ He]. by rewrite w_file_same. }
  apply res_bind_Ok in Hl as (r & Er & Hl). apply res_bind_Ok in Hl as (rest & Erest & [= <-]).
  erewrite st_bind_run; [| unfold lift; by rewrite Er]. destruct r as [r|].
  - erewrite st_bind_run; [| by apply write_run]. destruct He as [Hf He].
    rewrite (IH rest f (d ++ rela_bytes r)) by done. by rewrite relas_bytes_cons, <- app_assoc.
  - erewrite st_bind_run; [| done]. by apply IH.
Qed.

Lemma write_section_run s l f d e : contents s = Some l \/ (contents s = None /\ l = []) -> size s = Z.of_nat (length l) ->
  file_at f d e -> write_section s e = Ok (tt, w_file e (appended f (d ++ l))).
Proof.
  intros Hc Hs He. unfold write_section. rewrite Hs. destruct (Z.eqb_spec (Z.of_nat (length l)) 0) as [E|E].
  { destruct l; [| done]. rewrite app_nil_r. destruct He as [_ He]. by rewrite w_file_same. }
  destruct Hc as [-> | [_ ->]]; [| done]. rewrite Z.leb_refl, Nat2Z.id, take_ge by done. by apply write_run.
Qed.

Abbreviation len l := (Z.of_nat (length l)).

(** The sections before and after [write_contents]. *)
Definition sized (tc : option (list Z)) (text data : list Z) (bss : Z) : list SectionInfo :=
  [no_section; mkSection (len text) 0 0 tc; no_section; mkSection bss 0 0 None;
   mkSection (len data) 0 0 (Some data); no_section; no_section; no_section; no_section].

Section Layout.
Context (F : Z) (text data : list Z) (rt rd : list ELF64Rela).
Definition rela_text_at : Z := F + len text.
Definition data_at : Z := rela_text_at + 24 * len rt.
Definition rela_data_at : Z := data_at + len data.
Definition shstrtab_at : Z := rela_data_at + 24 * len rd.
Definition symtab_at : Z := shstrtab_at + 66.
Definition text_address : Z := 0x8000000 + F.
Definition bss_address : Z := 0x9000000 + data_at.
Definition data_address : Z := u32 (align_to bss_address 0x1000000 + data_at).
End Layout.

Definition laid_out (F : Z) (tc : option (list Z)) text data bss rt rd : list SectionInfo :=
  [no_section; mkSection (len text) F (text_address F) tc; mkSection (24 * len rt) (rela_text_at F text) 0 None;
   mkSection bss (data_at F text rt) (bss_address F text rt) None;
   mkSection (len data) (data_at F text rt) (data_address F text rt) (Some data);
   mkSection (24 * len rd) (rela_data_at F text data rt) 0 None;
   mkSection 66 (shstrtab_at F text data rt rd) 0 None;
   mkSection 0 (symtab_at F text data rt rd) 0 None; no_section].

Definition contents_bytes (text data : list Z) (rt rd : list ELF64Rela) : list Z :=
  text ++ relas_bytes rt ++ data ++ relas_bytes rd ++ SHSTRTAB_CONTENTS ++ replicate 24 0.

Definition first_of (t : ELFFileType) : Z := if is_exec t then 808 else 640.
Lemma first_of_ok t : first_section_offset t = first_of t.
Proof. by destruct t. Qed.

(** A step of the writer on explicit section infos. *)
Ltac enorm := cbv [w_sections w_file w_curr_symbol w_next_string w_last_local w_entry section_info output_file elf_type
  entry_point_virtual_address next_string_index curr_symbol_index last_local_symbol_index
  s_offset s_size s_address s_contents size offset virtual_address contents no_section
  insert list_insert TEXT_INDEX RELA_TEXT_INDEX BSS_INDEX DATA_INDEX RELA_DATA_INDEX SHSTRTAB_INDEX SYMTAB_INDEX
  STRTAB_INDEX Z.to_nat Pos.to_nat Pos.iter_op Nat.add].
Ltac istep := erewrite st_bind_run; [| reflexivity]; enorm.

Lemma write_contents_run syms fix_ t entry text data bss rt rd tc :
  relas_of (text_rela syms) fix_ = Ok rt -> relas_of (data_rela syms) fix_ = Ok rd ->
  len text + len data + 24 * (len rt + len rd) + 2000 < 2 ^ 31 ->
  (tc = Some text \/ tc = None /\ text = []) ->
  write_contents syms fix_ (mkELF empty_file t entry 1 0 0 (sized tc text data bss)) =
    Ok (tt, mkELF (appended (mkFile [] (first_of t)) (contents_bytes text data rt rd)) t entry 1 1 0
              (laid_out (first_of t) tc text data bss rt rd)).
Proof.
  intros Hrt Hrd Hn Htc. unfold write_contents, sized. set (F := first_of t).
  istep. rewrite first_of_ok. fold F.
  assert (HF : 640 <= F <= 808) by (unfold F; destruct t; cbn; lia).
  istep. set (f := mkFile [] F).
  assert (Hf : at_end f) by (unfold f, at_end; cbn; lia).
  erewrite st_bind_run.
  2: { unfold on_file, zoom. rewrite fseek_run by (cbn; lia). reflexivity. }
  enorm. istep. istep.
  erewrite st_bind_run.
  2: { assert (G : ((len text =? 0) || match tc with Some _ => true | None => false end) = true)
         by (destruct Htc as [-> | [-> ->]]; [apply orb_true_r | done]). cbn [size contents]. rewrite G. reflexivity. }
  rewrite (wrap_small 32 (134217728 + F)) by lia.
  erewrite st_bind_run; [| apply (write_section_run _ text f []); [done | done | done]]. cbn [app].
  erewrite st_bind_run; [| apply (write_relas_run _ _ rt f text); [done | done]]. enorm.
  rewrite (wrap_small 32 (F + len text)) by lia. istep.
  erewrite st_bind_run; [| apply (ftell_run f (text ++ relas_bytes rt)); done].
  replace (u32 (file_pos f + len (text ++ relas_bytes rt) - (F + len text))) with (24 * len rt)
    by (rewrite wrap_small; rewrite length_app, relas_bytes_length; cbn [f file_pos]; lia).
  istep. istep.
  replace (u32 (F + len text + 24 * len rt)) with (data_at F text rt)
    by (rewrite wrap_small; unfold data_at, rela_text_at; lia).
  assert (HD : 640 <= data_at F text rt < 2 ^ 31 - 1192) by (unfold data_at, rela_text_at; lia).
  istep. istep.
  replace (u32 (align_to (134217728 + F) 16777216 + data_at F text rt)) with (bss_address F text rt).
  2: { unfold bss_address. replace (align_to (134217728 + F) 16777216) with 0x9000000 by (unfold F; destruct t; reflexivity).
       rewrite wrap_small by lia. done. }
  istep. istep. change (u32 (align_to (bss_address F text rt) 16777216 + data_at F text rt)) with (data_address F text rt).
  istep. istep.
  erewrite st_bind_run; [| apply (write_section_run _ data f (text ++ relas_bytes rt)); [by left | done | done]]. enorm.
  erewrite st_bind_run; [| apply (write_relas_run _ _ rd f ((text ++ relas_bytes rt) ++ data)); [done | done]]. enorm.
  replace (u32 (data_at F text rt + len data)) with (rela_data_at F text data rt)
    by (rewrite wrap_small; unfold rela_data_at; lia).
  istep. erewrite st_bind_run; [| apply (ftell_run f (((text ++ relas_bytes rt) ++ data) ++ relas_bytes rd)); done].
  replace (u32 (_ - rela_data_at F text data rt)) with (24 * len rd).
  2: { unfold rela_data_at, data_at, rela_text_at. rewrite wrap_small; rewrite !length_app, !relas_bytes_length; cbn [f file_pos]; lia. }
  istep. istep.
  replace (u32 (rela_data_at F text data rt + 24 * len rd)) with (shstrtab_at F text data rt rd)
    by (rewrite wrap_small; unfold shstrtab_at, rela_data_at, data_at, rela_text_at; lia).
  istep. istep. change (len SHSTRTAB_CONTENTS) with 66.
  erewrite st_bind_run; [| apply (write_run SHSTRTAB_CONTENTS f (((text ++ relas_bytes rt) ++ data) ++ relas_bytes rd)); done]. enorm.
  replace (u32 (shstrtab_at F text data rt rd + 66)) with (symtab_at F text data rt rd)
    by (rewrite wrap_small; unfold symtab_at, shstrtab_at, rela_data_at, data_at, rela_text_at; lia).
  istep.
  erewrite st_bind_run; [| apply (write_run _ f ((((text ++ relas_bytes rt) ++ data) ++ relas_bytes rd) ++ SHSTRTAB_CONTENTS)); done].
  enorm. unfold modify. enorm. unfold contents_bytes, laid_out. rewrite <- !app_assoc. done.
Qed.

(** ** Symbols and strings of an object file *)

Definition name_of (s : AsmSymbol) : list Z := bytes_of (sym_name s).
Definition section_of (s : AsmSymbol) : Z := match symbol_section s with Ok x => x | Stop _ => 0 end.
Definition strings_bytes (l : list (list Z)) : list Z := l ≫= (fun n => n ++ [0]).

Definition elf_symbol (next : Z) (s : AsmSymbol) : ELF64Symbol :=
  mkELFSymbol next (ELF64_SYMBOL_TYPE_AND_BINDING STT_FUNC (symbol_binding s)) 0 (section_of s) (sym_offset s) (sym_size s).
Fixpoint elf_symbols (next : Z) (l : list AsmSymbol) : list ELF64Symbol :=
  match l with
  | [] => []
  | s :: l => elf_symbol next s :: elf_symbols (next + (len (name_of s) + 1)) l
  end.
Definition symbols_bytes (l : list ELF64Symbol) : list Z := l ≫= symbol_bytes.

(** The symbols a compiler produces: placed, with numbers in range and C strings
    for names. *)
Record symbol_ok (s : AsmSymbol) : Prop := {
  ok_section : exists x, symbol_section s = Ok x;
  ok_offset : 0 <= sym_offset s < 2 ^ 31;
  ok_size : 0 <= sym_size s < 2 ^ 32;
  ok_name : Forall (fun c => 0 < c < 256) (name_of s)
}.

Lemma section_bound s x : symbol_section s = Ok x -> 0 <= x < 5.
Proof.
  unfold symbol_section. destruct (Asm.defined s); [destruct (sym_section s) |]; try done; intros [= <-]; cbv; split; congruence.
Qed.

Lemma strings_cons n l : strings_bytes (n :: l) = (n ++ [0]) ++ strings_bytes l.
Proof. done. Qed.

Lemma add_symbol_rel type binding section name v sz f d en nx cu la infos : at_end f ->
  0 <= section < 2 ^ 16 -> 0 <= v < 2 ^ 31 -> 0 <= nx -> nx + (len name + 1) < 2 ^ 31 -> 0 <= cu < 2 ^ 31 ->
  add_symbol type binding section name v sz (mkELF (appended f d) ET_REL en nx cu la infos) =
    Ok (tt, mkELF (appended f (d ++ symbol_bytes (mkELFSymbol nx (ELF64_SYMBOL_TYPE_AND_BINDING type binding) 0 section v sz)))
              ET_REL en (nx + (len name + 1)) (cu + 1) (if binding =? STB_LOCAL then cu else la) infos).
Proof.
  intros Hf Hs Hv Hx Hnx Hcu. unfold add_symbol. istep. cbn [is_exec andb]. istep.
  destruct (binding =? STB_LOCAL).
  all: unfold modify at 1; istep; istep; istep; istep; unfold modify; enorm;
    rewrite (wrap_small 16 section) by lia; rewrite (sgn_small 32 v) by lia; rewrite (wrap_small 64 v) by lia;
    rewrite (wrap_small 32 (nx + (len name + 1))), (wrap_small 32 (cu + 1)) by lia;
    rewrite (write_run _ f d) by done; done.
Qed.

Lemma add_symbols_run f en infos l : forall d nx cu la, at_end f -> Forall symbol_ok l -> 0 <= nx ->
  nx + len (strings_bytes (name_of <$> l)) < 2 ^ 31 -> 0 <= cu -> cu + len l < 2 ^ 31 ->
  exists la', add_symbols l (mkELF (appended f d) ET_REL en nx cu la infos) =
    Ok (tt, mkELF (appended f (d ++ symbols_bytes (elf_symbols nx l))) ET_REL en
              (nx + len (strings_bytes (name_of <$> l))) (cu + len l) la' infos).
Proof.
  induction l as [|s l IH]; intros d nx cu la Hf Hok Hx Hnx Hcu Hl.
  { exists la. cbn. by rewrite app_nil_r, !Z.add_0_r. }
  apply Forall_cons in Hok as [[[x Hsec] Ho _ _] Hok]. cbn [fmap list_fmap] in *. rewrite strings_cons, !length_app in *.
  cbn [length] in *. pose proof (section_bound s x Hsec).
  destruct (IH (d ++ symbol_bytes (elf_symbol nx s)) (nx + (len (name_of s) + 1)) (cu + 1)
    (if symbol_binding s =? STB_LOCAL then cu else la)) as [la' E]; [done | done | lia | lia | lia | lia |].
  exists la'. cbn [add_symbols]. erewrite st_bind_run; [| unfold lift; by rewrite Hsec].
  erewrite st_bind_run; [| apply add_symbol_rel; [done | lia | lia | done | unfold name_of in *; lia | lia]].
  assert (Es : section_of s = x) by (unfold section_of; by rewrite Hsec).
  unfold elf_symbol in E. rewrite Es in E. unfold name_of at 1 in E. rewrite E.
  cbn [elf_symbols]. unfold elf_symbol. rewrite Es. unfold symbols_bytes. cbn [mbind list_bind]. rewrite <- app_assoc.
  do 3 f_equal; unfold name_of; lia.
Qed.

Lemma until_nul_name n : Forall (fun c => 0 < c < 256) n -> until_nul n = n.
Proof. induction 1 as [|c n Hc _ IH]; [done |]. cbn. rewrite IH. by destruct (Z.eqb_spec c 0); [lia |]. Qed.

Lemma add_string_run f d n e : file_at f d e -> Forall (fun c => 0 < c < 256) n ->
  add_string n e = Ok (tt, w_file e (appended f (d ++ (n ++ [0])))).
Proof.
  intros He Hn. unfold add_string. rewrite until_nul_name by done.
  erewrite st_bind_run; [| by apply write_run]. destruct He as [Hf He].
  rewrite (write_run [0] f (d ++ n)) by done. by rewrite <- app_assoc.
Qed.
Lemma add_strings_run f l : forall d e, file_at f d e -> Forall (Forall (fun c => 0 < c < 256)) l ->
  add_strings l e = Ok (tt, w_file e (appended f (d ++ strings_bytes l))).
Proof.
  induction l as [|n l IH]; intros d e He Hl; cbn [add_strings].
  { cbn. rewrite app_nil_r. destruct He as [_ He]. by rewrite w_file_same. }
  apply Forall_cons in Hl as [Hn Hl]. erewrite st_bind_run; [| by apply add_string_run].
  destruct He as [Hf He]. rewrite (IH (d ++ (n ++ [0]))) by done. by rewrite strings_cons, <- !app_assoc.
Qed.

(** ** Headers over the room left for them *)

Lemma fwrite_over a d n D : (0 < length d)%nat ->
  checked_fwrite d (mkFile (a ++ replicate (length d + n) 0 ++ D) (len a)) =
    Ok (tt, mkFile ((a ++ d) ++ replicate n 0 ++ D) (len (a ++ d))).
Proof.
  intros Hd. assert (Hn : d <> []) by (intros ->; cbn in Hd; lia).
  rewrite fwrite_run by (done || lia). rewrite Nat2Z.id, replicate_add, <- app_assoc.
  rewrite overwrite_middle by (by rewrite length_replicate). rewrite <- app_assoc, length_app. do 3 f_equal. lia.
Qed.

Definition section_headers (s1 s2 s3 s4 s5 s6 s7 s8 : SectionInfo) (local_symbols : Z) : list ELFSectionHeader :=
  [mkSectionHeader 0 SHT_NULL 0 0 0 0 0 0 0 0;
   section_header TEXT_NAME SHT_PROGBITS (Z.lor SHF_ALLOC SHF_EXECINSTR) (virtual_address s1) s1 0 0 0;
   section_header RELA_TEXT_NAME SHT_RELA 0 0 s2 SYMTAB_INDEX TEXT_INDEX RELA_BYTES;
   section_header BSS_NAME SHT_NOBITS (Z.lor SHF_ALLOC SHF_WRITE) (virtual_address s3) s3 0 0 0;
   section_header DATA_NAME SHT_PROGBITS (Z.lor SHF_ALLOC SHF_WRITE) (virtual_address s4) s4 0 0 0;
   section_header RELA_DATA_NAME SHT_RELA 0 0 s5 SYMTAB_INDEX DATA_INDEX RELA_BYTES;
   section_header SHSTRTAB_NAME SHT_STRTAB 0 0 s6 0 0 0;
   section_header SYMTAB_NAME SHT_SYMTAB 0 0 s7 STRTAB_INDEX local_symbols SYMBOL_BYTES;
   section_header STRTAB_NAME SHT_STRTAB 0 0 s8 0 0 0].
Definition headers_bytes (l : list ELFSectionHeader) : list Z := l ≫= section_header_bytes.

Lemma write_section_header_run h a n D t en nx cu la infos :
  write_section_header h (mkELF (mkFile (a ++ replicate (64 + n) 0 ++ D) (len a)) t en nx cu la infos) =
    Ok (tt, mkELF (mkFile ((a ++ section_header_bytes h) ++ replicate n 0 ++ D) (len (a ++ section_header_bytes h)))
              t en nx cu la infos).
Proof.
  unfold write_section_header, on_file, zoom. cbn [output_file].
  rewrite <- (section_header_length h) at 1. rewrite fwrite_over by (rewrite section_header_length; lia). done.
Qed.

(** One header, and the next step. *)
Ltac header_step n :=
  erewrite st_bind_run; [| apply (write_section_header_run _ _ n)]; erewrite st_bind_run; [| reflexivity].

Lemma write_section_headers_run s0 s1 s2 s3 s4 s5 s6 s7 s8 a D t en nx cu la : 0 < la < 2 ^ 31 ->
  write_section_headers (mkELF (mkFile (a ++ replicate 576 0 ++ D) (len a)) t en nx cu la [s0; s1; s2; s3; s4; s5; s6; s7; s8]) =
    Ok (tt, mkELF (mkFile (a ++ headers_bytes (section_headers s1 s2 s3 s4 s5 s6 s7 s8 (la + 1)) ++ D)
                     (len (a ++ headers_bytes (section_headers s1 s2 s3 s4 s5 s6 s7 s8 (la + 1)))))
              t en nx cu la [s0; s1; s2; s3; s4; s5; s6; s7; s8]).
Proof.
  intros Hla. unfold write_section_headers.
  header_step 512%nat. header_step 448%nat. header_step 384%nat. header_step 320%nat. header_step 256%nat.
  header_step 192%nat. header_step 128%nat.
  erewrite st_bind_run; [| unfold lift; cbn [last_local_symbol_index]; destruct (Z.eqb_spec la 0); [lia | reflexivity]].
  erewrite st_bind_run; [| reflexivity].
  header_step 64%nat. change (replicate 64 0) with (replicate (64 + 0) 0). rewrite write_section_header_run.
  cbn [last_local_symbol_index].
  rewrite (wrap_small 32 (la + 1)) by lia. unfold headers_bytes, section_headers. cbn [mbind list_bind app].
  rewrite <- !app_assoc. cbn [replicate app]. rewrite ?app_nil_r. done.
Qed.

(** ** Object files *)

(** The section infos of a finished object file. *)
Definition object_sections (text data : list Z) (bss : Z) rt rd (symbols strings : list Z) : list SectionInfo :=
  let symtab := symtab_at 640 text data rt rd in
  [no_section; mkSection (len text) 640 (text_address 640) (Some text);
   mkSection (24 * len rt) (rela_text_at 640 text) 0 None;
   mkSection bss (data_at 640 text rt) (bss_address 640 text rt) None;
   mkSection (len data) (data_at 640 text rt) (data_address 640 text rt) (Some data);
   mkSection (24 * len rd) (rela_data_at 640 text data rt) 0 None;
   mkSection 66 (shstrtab_at 640 text data rt rd) 0 None;
   mkSection (24 + len symbols) symtab 0 None;
   mkSection (len strings) (symtab + 24 + len symbols) 0 None].

Definition object_header : ELFHeader :=
  mkHeader ([0x7F; 69; 76; 70; 2; 1; 1] ++ replicate 9 0) 1 62 1 0 0 64 0 64 56 0 64 9 6.
Definition file_symbol (next : Z) : ELF64Symbol := mkELFSymbol next (ELF64_SYMBOL_TYPE_AND_BINDING STT_FILE STB_LOCAL) 0 SHN_ABS 0 0.

Definition names_of (m : AsmModule) : list Z := strings_bytes (name_of <$> symbols m).
Definition object_symbols (m : AsmModule) : list Z :=
  symbols_bytes (elf_symbols 1 (symbols m)) ++ symbol_bytes (file_symbol (1 + len (names_of m))).
Definition object_strings (m : AsmModule) : list Z :=
  [0] ++ names_of m ++ (bytes_of (input_file_name m) ++ [0]).
Definition object_infos (m : AsmModule) rt rd : list SectionInfo :=
  object_sections (text_bytes m) (asm_data m) (bss_size m) rt rd (object_symbols m) (object_strings m).
Definition headers_of (l : list SectionInfo) (local_symbols : Z) : list ELFSectionHeader :=
  let s i := default no_section (l !! i) in
  section_headers (s 1%nat) (s 2%nat) (s 3%nat) (s 4%nat) (s 5%nat) (s 6%nat) (s 7%nat) (s 8%nat) local_symbols.

(** An object file: the header, the section headers, the sections in order. *)
Definition object_bytes (m : AsmModule) rt rd : list Z :=
  header_bytes object_header ++ headers_bytes (headers_of (object_infos m rt rd) (2 + len (symbols m))) ++
  contents_bytes (text_bytes m) (asm_data m) rt rd ++ object_symbols m ++ object_strings m.

(** What the compiler hands over: relocations that [rt] and [rd] describe, symbols in
    range, everything below 2 GiB. *)
Record module_ok (m : AsmModule) rt rd : Prop := {
  ok_rt : relas_of (text_rela (symbols m)) (fixups m) = Ok rt;
  ok_rd : relas_of (data_rela (symbols m)) (fixups m) = Ok rd;
  ok_symbols : Forall symbol_ok (symbols m);
  ok_file : Forall (fun c => 0 < c < 256) (bytes_of (input_file_name m));
  ok_total : len (text_bytes m) + len (asm_data m) + 24 * (len rt + len rd) + 24 * len (symbols m) +
             len (object_strings m) + 2000 < 2 ^ 31
}.

Lemma elf_symbols_length l : forall n, length (elf_symbols n l) = length l.
Proof. induction l as [|s l IH]; intros n; [done |]. cbn. by rewrite IH. Qed.
Lemma symbols_bytes_length l : length (symbols_bytes l) = (24 * length l)%nat.
Proof.
  induction l as [|s l IH]; [done |]. unfold symbols_bytes in *. cbn [mbind list_bind].
  rewrite length_app, symbol_length, IH. cbn [length]. lia.
Qed.

Lemma finish_symtab_run f d t en nx cu la s0 s1 s2 s3 s4 s5 s6 o v c : at_end f ->
  0 <= o <= file_pos f + len d -> file_pos f + len d < 2 ^ 31 ->
  finish_symtab_section (mkELF (appended f d) t en nx cu la [s0; s1; s2; s3; s4; s5; s6; mkSection 0 o v c; no_section]) =
    Ok (tt, mkELF (appended f (d ++ [0])) t en nx cu la
      [s0; s1; s2; s3; s4; s5; s6; mkSection (file_pos f + len d - o) o v c; mkSection 0 (file_pos f + len d) 0 None]).
Proof.
  intros Hf Ho Hp. unfold finish_symtab_section. istep.
  erewrite st_bind_run; [| by apply (ftell_run f d)]. istep. istep.
  rewrite (wrap_small 32 (file_pos f + len d - o)) by lia.
  rewrite (wrap_small 32 (o + _)) by lia. istep. rewrite (write_run [0] f d) by done. enorm.
  by replace (o + (file_pos f + len d - o)) with (file_pos f + len d) by lia.
Qed.

Lemma object_file_header en nx cu la l out : file_header (mkELF out ET_REL en nx cu la l) = object_header.
Proof. done. Qed.

Lemma headers_length s1 s2 s3 s4 s5 s6 s7 s8 n : length (headers_bytes (section_headers s1 s2 s3 s4 s5 s6 s7 s8 n)) = 576%nat.
Proof.
  unfold headers_bytes, section_headers. cbn [mbind list_bind].
  repeat rewrite length_app, section_header_length. done.
Qed.

(** The position after the headers is the offset of the text. *)
Lemma finish_strtab_run D en nx cu la s0 s1 s2 s3 s4 s5 s6 s7 o v c : 0 < la < 2 ^ 31 ->
  0 <= o <= 640 + len D -> len D < 2 ^ 31 - 1000 -> D <> [] ->
  finish_strtab_section (mkELF (appended (mkFile [] 640) D) ET_REL en nx cu la
                           [s0; s1; s2; s3; s4; s5; s6; s7; mkSection 0 o v c]) =
    Ok (tt, mkELF (mkFile (header_bytes object_header ++
                           headers_bytes (section_headers s1 s2 s3 s4 s5 s6 s7 (mkSection (640 + len D - o) o v c) (la + 1)) ++ D)
                     640)
              ET_REL en nx cu la [s0; s1; s2; s3; s4; s5; s6; s7; mkSection (640 + len D - o) o v c]).
Proof.
  intros Hla Ho HD Hne. destruct D as [|x D]; [done |]. cbn [length] in *. unfold finish_strtab_section. istep.
  erewrite st_bind_run; [| apply (ftell_run (mkFile [] 640) (x :: D)); by split; [unfold at_end; cbn; lia |]].
  cbn [file_pos]. rewrite (wrap_small 32 (640 + _ - o)) by (cbn [length]; lia).
  change (Z.of_nat (S (length D))) with (len (x :: D)) in *. istep. istep. cbn [is_exec]. istep.
  erewrite st_bind_run. 2: { unfold on_file, zoom. rewrite fseek_run by lia. reflexivity. }
  istep. istep. rewrite object_file_header.
  pose proof (header_length object_header eq_refl) as Hh.
  assert (E0 : file_bytes (appended (mkFile [] 640) (x :: D)) = [] ++ replicate (length (header_bytes object_header) + 576) 0 ++ x :: D)
    by (rewrite Hh; done).
  pose proof (fwrite_over [] (header_bytes object_header) 576 (x :: D) ltac:(lia)) as Ew. rewrite <- E0 in Ew.
  change (len (@nil Z)) with 0 in Ew.
  erewrite st_bind_run. 2: { unfold on_file, zoom. enorm. rewrite Ew. reflexivity. }
  erewrite st_bind_run. 2: { unfold on_file, zoom. rewrite fseek_run by (unfold HEADER_BYTES; lia). reflexivity. }
  enorm. cbn [file_bytes app].
  replace HEADER_BYTES with (len (header_bytes object_header)) by (rewrite Hh; done).
  rewrite write_section_headers_run by done. rewrite length_app, headers_length, Hh. done.
Qed.

Lemma elf_symbols_bytes_length n l : length (symbols_bytes (elf_symbols n l)) = (24 * length l)%nat.
Proof. by rewrite symbols_bytes_length, elf_symbols_length. Qed.

Lemma object_symbols_length m : length (object_symbols m) = (24 * length (symbols m) + 24)%nat.
Proof. unfold object_symbols. by rewrite length_app, elf_symbols_bytes_length, symbol_length. Qed.

Lemma contents_bytes_length text data rt rd F :
  640 + len (contents_bytes text data rt rd) = symtab_at F text data rt rd + 24 - F + 640.
Proof.
  unfold contents_bytes, symtab_at, shstrtab_at, rela_data_at, data_at, rela_text_at.
  rewrite !length_app, !relas_bytes_length, length_replicate. change (length SHSTRTAB_CONTENTS) with 66%nat. lia.
Qed.

Lemma object_file_run m rt rd : module_ok m rt rd ->
  exists e, object_file m (init_elf_file empty_file ET_REL) = Ok (tt, e) /\
    output_file e = mkFile (object_bytes m rt rd) 640.
Proof.
  intros [Hrt Hrd Hsym Hname Hn]. unfold object_strings in Hn. rewrite !length_app in Hn. cbn [length] in Hn.
  set (text := text_bytes m) in *. set (data := asm_data m) in *.
  set (f := mkFile [] 640). assert (Hf : at_end f) by (unfold f, at_end; cbn; lia).
  unfold object_file, init_elf_file. fold text data. cbn [replicate].
  rewrite (wrap_small 32 (len text)), (wrap_small 32 (len data)) by lia.
  do 5 istep.
  erewrite st_bind_run;
    [| apply (write_contents_run (symbols m) (fixups m) ET_REL 0 text data (bss_size m) rt rd (Some text)); [done | done | lia | by left]].
  change (first_of ET_REL) with 640. fold f. unfold names_of in Hn.
  destruct (add_symbols_run f 0 (laid_out 640 (Some text) text data (bss_size m) rt rd) (symbols m) (contents_bytes text data rt rd) 1 1 0)
    as [la' E]; [done | done | lia | lia | lia | lia |].
  erewrite st_bind_run; [| exact E]. clear E.
  erewrite st_bind_run; [| apply add_symbol_rel; [done | unfold SHN_ABS; lia | lia | lia | lia | lia]].
  change (STB_LOCAL =? STB_LOCAL) with true. cbn [negb].
  pose proof (contents_bytes_length text data rt rd 640) as Hc. pose proof (object_symbols_length m) as Ho.
  unfold laid_out. rewrite <- app_assoc.
  change (symbols_bytes (elf_symbols 1 (symbols m)) ++ symbol_bytes _) with (object_symbols m).
  assert (Ep : file_pos f + len (contents_bytes text data rt rd ++ object_symbols m) =
               symtab_at 640 text data rt rd + 24 + len (object_symbols m)) by (rewrite length_app; cbn [f file_pos]; lia).
  assert (Es : 640 <= symtab_at 640 text data rt rd) by (unfold symtab_at, shstrtab_at, rela_data_at, data_at, rela_text_at; lia).
  assert (Hp : file_pos f + len (contents_bytes text data rt rd ++ object_symbols m) + len (object_strings m) < 2 ^ 31 - 1000).
  { rewrite Ep, Ho. unfold object_strings, symtab_at, shstrtab_at, rela_data_at, data_at, rela_text_at, names_of.
    rewrite !length_app. cbn [length]. lia. }
  erewrite st_bind_run; [| apply finish_symtab_run; [done | lia | lia]]. rewrite Ep.
  erewrite st_bind_run; [| eapply (add_strings_run f); [done |]].
  2: { rewrite Forall_fmap. eapply Forall_impl; [exact Hsym |]. intros s Hs. apply (ok_name s Hs). }
  erewrite st_bind_run; [| eapply (add_string_run f); [done | done]]. enorm.
  rewrite <- !app_assoc.
  change ([0] ++ strings_bytes _ ++ bytes_of (input_file_name m) ++ [0]) with (object_strings m).
  rewrite (length_app _ (object_symbols m)) in Hp, Ep.
  rewrite finish_strtab_run; [| lia | rewrite !length_app; cbn [f file_pos] in *; lia
    | rewrite !length_app; cbn [f file_pos] in *; lia | ].
  2: { intros E. apply (f_equal length) in E. rewrite !length_app in E. unfold object_strings in E. rewrite length_app in E. cbn in E. lia. }
  eexists. split; [done |]. cbn [output_file]. unfold object_bytes, headers_of, object_infos, object_sections. fold text data.
  cbn [lookup list_lookup default id].
  replace (2 + len (symbols m)) with (1 + len (symbols m) + 1) by lia.
  replace (symtab_at 640 text data rt rd + 24 + len (object_symbols m) - symtab_at 640 text data rt rd)
    with (24 + len (object_symbols m)) by lia.
  replace (640 + len (contents_bytes text data rt rd ++ object_symbols m ++ object_strings m) - _) with (len (object_strings m))
    by (rewrite !length_app; cbn [f file_pos] in *; lia).
  done.
Qed.


(** A call of an external function from a local one, and a word of data that holds the
    address of the first. *)
Definition sample : AsmModule :=
  mkAsmModule "a.s" [] [0xE8; 0; 0; 0; 0; 0xC3] [1; 2; 3; 4; 0; 0; 0; 0; 0; 0; 0; 0] 8
    [mkAsmSymbol "f" TEXT_SECTION true ASM_LOCAL_LINKAGE 1 0 6; mkAsmSymbol "g" UNKNOWN_SECTION false ASM_GLOBAL_LINKAGE 2 0 0]
    [mkFixup FIXUP_RELATIVE TEXT_SECTION 1 5 4 1; mkFixup FIXUP_ABSOLUTE DATA_SECTION 4 0 8 0].

Lemma sample_ok : module_ok sample [mkRela 1 (2 * 2 ^ 32 + 2) 4294967292] [mkRela 4 (2 ^ 32 + 1) 0].
Proof.
  constructor; [reflexivity | reflexivity | | | cbn; lia].
  - apply Forall_cons; split; [| apply Forall_cons; split; [| by apply Forall_nil]].
    all: constructor; [by eexists | cbn; lia | cbn; lia | by apply (bool_decide_unpack _); vm_compute].
  - by apply (bool_decide_unpack _); vm_compute.
Qed.

