(* ===== verification/ElfLink.v ===== *)
(** * Linking what the compiler wrote

    [process_elf_file] of [elf.c] on the bytes of an object file ([ElfSound.v]), on
    its own or as a member of an archive, against a specification on the module: its
    sections after what was linked before, its symbols merged by name, a relocation of
    the symbol for each fixup that the assembler left. *)

From S2P Require Import Prelude Maths LibC Lex Stream Asm Elf ElfSound.

Local Open Scope Z_scope.

(** ** What linking a module means *)

Section LinkSpec.
Context (text_base bss_base data_base : Z).

(** The section of the output and where the module starts in it. *)
Definition section_start (s : AsmSymbolSection) : Z * Z :=
  match s with
  | TEXT_SECTION => (TEXT_INDEX, text_base)
  | BSS_SECTION => (BSS_INDEX, bss_base)
  | DATA_SECTION => (DATA_INDEX, data_base)
  | UNKNOWN_SECTION => (0, 0)
  end.

Definition defined_entry (s : AsmSymbol) (rs : list Relocation) : Symbol :=
  mkSymbol true (name_of s) rs (symbol_binding s) (section_start (sym_section s)).1
    ((section_start (sym_section s)).2 + sym_offset s) (sym_size s).
Definition undefined_entry (s : AsmSymbol) : Symbol := mkSymbol false (name_of s) [] STB_GLOBAL 0 0 0.

(** The entry of the same global name. *)
Definition existing (table : list Symbol) (s : AsmSymbol) : option Z :=
  if symbol_binding s =? STB_GLOBAL then find_symbol (name_of s) 0 table else None.

(** A symbol's entry; [None] for a second definition. *)
Definition link_symbol (table : list Symbol) (s : AsmSymbol) : option (Z * list Symbol) :=
  match existing table s with
  | None => Some (len table, table ++ [if Asm.defined s then defined_entry s [] else undefined_entry s])
  | Some i =>
      if Asm.defined s then
        old ← table !! Z.to_nat i;
        if l_defined old then None else Some (i, <[Z.to_nat i := defined_entry s (relocs old)]> table)
      else Some (i, table)
  end.

Fixpoint link_symbols (table : list Symbol) (l : list AsmSymbol) : option (list Z * list Symbol) :=
  match l with
  | [] => Some ([], table)
  | s :: l =>
      '(i, table) ← link_symbol table s;
      '(ix, table) ← link_symbols table l;
      Some (i :: ix, table)
  end.
End LinkSpec.

(** Is the fixup left to the linker? *)
Definition external (syms : list AsmSymbol) (f : Fixup) : bool :=
  bool_decide (fixup_section f = TEXT_SECTION) &&
  negb (bool_decide (fixup_type f = FIXUP_RELATIVE) &&
        match syms !! fixup_symbol f with
        | Some s => Asm.defined s && bool_decide (sym_section s = TEXT_SECTION)
        | None => false
        end).
Definition in_data (f : Fixup) : bool := bool_decide (fixup_section f = DATA_SECTION).

(** The relocation of a fixup: the distance to the end of the instruction is its
    addend. *)
Definition text_reloc (base : Z) (f : Fixup) : Relocation :=
  match fixup_type f with
  | FIXUP_RELATIVE => mkReloc R_X86_64_PC32 TEXT_INDEX (base + fixup_offset f) (fixup_offset f - next_instr_offset f)
  | FIXUP_ABSOLUTE => mkReloc R_X86_64_64 TEXT_INDEX (base + fixup_offset f) 0
  end.
Definition data_reloc (base : Z) (f : Fixup) : Relocation := mkReloc R_X86_64_64 DATA_INDEX (base + fixup_offset f) 0.

Definition link_fixup (reloc : Fixup -> Relocation) (indices : list Z) (table : list Symbol) (f : Fixup) : list Symbol :=
  match indices !! fixup_symbol f with
  | Some i => alter (add_reloc (reloc f)) (Z.to_nat i) table
  | None => table
  end.
Definition link_fixups (keep : Fixup -> bool) reloc indices (l : list Fixup) (table : list Symbol) : list Symbol :=
  foldl (link_fixup reloc indices) table (filter keep l).

Definition link_module (k : Link) (m : AsmModule) : option Link :=
  let text_base := len (l_text k) in
  let data_base := len (l_data k) in
  '(indices, table) ← link_symbols text_base (l_bss_size k) data_base (symbol_table k) (symbols m);
  let table := link_fixups (external (symbols m)) (text_reloc text_base) indices (fixups m) table in
  let table := link_fixups in_data (data_reloc data_base) indices (fixups m) table in
  Some (mkLink (input_file k) (l_text k ++ text_bytes m) (l_data k ++ asm_data m) (l_bss_size k + bss_size m) table).

(** ** Reading parts of the file *)

Lemma on_input_run {A} (x : stream A) k f a g : input_file k = f -> x f = Ok (a, g) -> on_input x k = Ok (a, w_input k g).
Proof. intros <- E. unfold on_input, zoom. by rewrite E. Qed.

(** The part [d] of the input. *)
Definition part (k : Link) (a d c : list Z) : Prop := file_bytes (input_file k) = a ++ d ++ c.

Lemma read_at_run k a d c p : part k a d c -> p = len a -> p < 2 ^ 63 ->
  read_at p (len d) k = Ok (d, w_input k (mkFile (a ++ d ++ c) (len (a ++ d)))).
Proof.
  intros H -> Hp. unfold read_at.
  erewrite st_bind_run; [| eapply (on_input_run _ k _ tt); [reflexivity | apply fseek_run; lia]].
  rewrite H. erewrite on_input_run; [| reflexivity | apply fread_run]. done.
Qed.

Lemma part_w k f a d c : file_bytes f = a ++ d ++ c -> part (w_input k f) a d c.
Proof. done. Qed.

Lemma string_at_middle a n c : Forall (fun c => 0 < c < 256) n -> string_at (a ++ (n ++ [0]) ++ c) (len a) = Ok n.
Proof.
  intros H. unfold string_at. rewrite Nat2Z.id, drop_app_length.
  replace (0 <=? len a) with true by (symmetry; apply Z.leb_le; lia). cbn [andb].
  assert (E : existsb (Z.eqb 0) ((n ++ [0]) ++ c) = true).
  { apply existsb_exists. exists 0. split; [| done]. apply list_elem_of_In. set_solver. }
  rewrite E. f_equal. clear E. induction H as [|x n Hx _ IH]; [done |]. cbn. rewrite IH. by destruct (Z.eqb_spec x 0); [lia |].
Qed.

(** Numbers that fit their fields. *)
Ltac fits_tac := unfold fits; rewrite !Forall_cons; split_and!; cbn; try lia; by apply Forall_nil.

(** ** Symbols *)

Lemma find_symbol_bounds n l : forall i j, find_symbol n i l = Some j -> i <= j < i + len l.
Proof.
  induction l as [|s l IH]; intros i j H; [done |]. cbn [find_symbol length] in *. destruct (is_global n s).
  - injection H as <-. lia.
  - apply IH in H. lia.
Qed.

Lemma existing_bounds table s i : existing table s = Some i -> 0 <= i < len table.
Proof. unfold existing. intros H. case_match; [| done]. apply find_symbol_bounds in H. lia. Qed.

Lemma ref_lookup {A} (l : list A) i x : l !! Z.to_nat i = Some x -> 0 <= i -> ref l i = Ok x.
Proof. intros H Hi. unfold ref. destruct (Z.ltb_spec i 0); [lia |]. by rewrite H. Qed.
Lemma store_insert {A} (l : list A) i x : 0 <= i < len l -> store l i x = Ok (<[Z.to_nat i := x]> l).
Proof. intros H. unfold store. destruct (Z.leb_spec 0 i), (Z.ltb_spec i (len l)); done || lia. Qed.
Lemma lookup_Z {A} (l : list A) i : 0 <= i < len l -> exists x, l !! Z.to_nat i = Some x.
Proof. intros H. apply lookup_lt_is_Some_2. lia. Qed.

(** The sections of an object file are where the writer puts them. *)
Record indices_ok (f : Found) : Prop := {
  ok_text : text_section_index f = TEXT_INDEX;
  ok_bss : bss_section_index f = BSS_INDEX;
  ok_data : data_section_index f = DATA_INDEX
}.

Lemma placed_in_object f tb bb db s x : indices_ok f -> symbol_section s = Ok x -> Asm.defined s = true ->
  placed_in f tb bb db x = Some (section_start tb bb db (sym_section s)).
Proof.
  intros [H1 H2 H3] Hx Hd. unfold symbol_section in Hx. rewrite Hd in Hx. unfold placed_in. rewrite H1, H2, H3.
  destruct (sym_section s); try done; injection Hx as <-; done.
Qed.

Lemma func_type b : b = 0 \/ b = 1 -> ELF64_SYMBOL_TYPE (ELF64_SYMBOL_TYPE_AND_BINDING STT_FUNC b) = STT_FUNC /\
  ELF64_SYMBOL_BINDING (ELF64_SYMBOL_TYPE_AND_BINDING STT_FUNC b) = b.
Proof. by intros [-> | ->]. Qed.
Lemma symbol_binding_cases s : symbol_binding s = 0 \/ symbol_binding s = 1.
Proof. unfold symbol_binding. destruct (Asm.defined s), (sym_linkage s); auto. Qed.

Section Symbols.
Context (f : Found) (tb bb db : Z) (strtab : list Z).
Hypothesis Hf : indices_ok f.
Hypothesis Htb : 0 <= tb < 2 ^ 31.
Hypothesis Hbb : 0 <= bb < 2 ^ 31.
Hypothesis Hdb : 0 <= db < 2 ^ 31.

Lemma process_symbol_run idx nx s k : string_at strtab nx = Ok (name_of s) -> symbol_ok s -> idx <> 0 ->
  len (symbol_table k) < 2 ^ 31 ->
  process_symbol f tb bb db strtab idx (elf_symbol nx s) k =
    match link_symbol tb bb db (symbol_table k) s with
    | Some (i, t) => Ok (inr (Some i), w_table k t)
    | None => Ok (inl EXIT_CODE_LINKER_ERROR, k)
    end.
Proof.
  intros Hn [[x Hx] Ho Hs _] Hi Hk. unfold process_symbol, elf_symbol. cbn [strtab_index_for_name type_and_binding st_section value st_size].
  destruct (func_type (symbol_binding s) (symbol_binding_cases s)) as [-> ->].
  erewrite st_bind_run; [| unfold lift; by rewrite Hn].
  destruct (Z.eqb_spec idx 0); [done |]. cbn [orb andb].
  change (STT_FUNC =? STT_FILE) with false. change (STT_FUNC =? STT_SECTION) with false. cbn [orb andb].
  erewrite st_bind_run; [| reflexivity]. fold (existing (symbol_table k) s).
  assert (Es : section_of s = x) by (unfold section_of; by rewrite Hx). rewrite Es.
  unfold link_symbol. destruct (Asm.defined s) eqn:Hd.
  - rewrite (placed_in_object f tb bb db s x Hf Hx Hd).
    assert (Ex : x <> 0 /\ 0 <= (section_start tb bb db (sym_section s)).2 < 2 ^ 31).
    { unfold symbol_section in Hx. rewrite Hd in Hx. destruct (sym_section s); try done; injection Hx as <-; done. }
    destruct (section_start tb bb db (sym_section s)) as [section base] eqn:E. cbn [snd] in Ex.
    unfold SHN_UNDEF. destruct (Z.eqb_spec x 0); [lia |].
    rewrite (wrap_small 32 (base + _)), (wrap_small 32 (sym_size s)) by lia.
    unfold defined_entry. rewrite E. cbn [fst snd].
    destruct (existing (symbol_table k) s) as [i|] eqn:Ei.
    + apply existing_bounds in Ei. destruct (lookup_Z _ _ Ei) as [old Eo]. rewrite Eo. cbn [mbind option_bind].
      erewrite st_bind_run; [| unfold lift; by rewrite (ref_lookup _ _ _ Eo) by lia].
      destruct (l_defined old); [done |].
      erewrite st_bind_run; [| unfold lift; by rewrite store_insert by lia]. done.
    + erewrite st_bind_run; [| reflexivity]. by rewrite (wrap_small 32 (len _)) by lia.
  - assert (Eb : symbol_binding s = STB_GLOBAL) by (unfold symbol_binding; by rewrite Hd).
    assert (x = 0) as -> by (unfold symbol_section in Hx; rewrite Hd in Hx; by injection Hx).
    cbn [Z.eqb SHN_UNDEF]. destruct (existing (symbol_table k) s) as [i|] eqn:Ei; [by destruct k |].
    erewrite st_bind_run; [| reflexivity]. rewrite (wrap_small 32 (len _)) by lia. unfold undefined_entry. by rewrite Eb.
Qed.

Lemma link_symbol_table table s i t : link_symbol tb bb db table s = Some (i, t) ->
  (length table <= length t <= length table + 1)%nat /\ 0 <= i < len t.
Proof.
  unfold link_symbol. destruct (existing table s) as [j|] eqn:E.
  - apply existing_bounds in E. destruct (Asm.defined s).
    + destruct (lookup_Z _ _ E) as [old Eo]. rewrite Eo. cbn [mbind option_bind]. destruct (l_defined old); [done |].
      intros [= <- <-]. rewrite length_insert. lia.
    + intros [= <- <-]. lia.
  - intros [= <- <-]. rewrite length_app. cbn [length]. lia.
Qed.

Lemma link_symbols_table l : forall table ix t, link_symbols tb bb db table l = Some (ix, t) ->
  (length table <= length t)%nat /\ length ix = length l /\ Forall (fun i => 0 <= i < len t) ix.
Proof.
  induction l as [|s l IH]; intros table ix t H; cbn [link_symbols] in H.
  { injection H as <- <-. done. }
  destruct (link_symbol tb bb db table s) as [[i t1]|] eqn:E; [| done]. cbn [mbind option_bind] in H.
  destruct (link_symbols tb bb db t1 l) as [[ix1 t2]|] eqn:E2; [| done]. injection H as <- <-.
  apply link_symbol_table in E as [H1 H2]. apply IH in E2 as (H3 & H4 & H5).
  repeat split; [lia | cbn; lia |]. constructor; [lia | done].
Qed.

(** The file at a symbol table. *)
Lemma symbol_step k a s c n idx : input_file k = mkFile (a ++ symbol_bytes s ++ c) (len a) ->
  read_elf_symbol (symbol_bytes s) = Some s ->
  process_symbols f tb bb db strtab idx (S n) k =
    (r ← process_symbol f tb bb db strtab idx s;
     match r with
     | inl e => mret (inl e)
     | inr i => rest ← process_symbols f tb bb db strtab (idx + 1) n;
                mret (match rest with inl e => inl e | inr l => inr (default 0 i :: l) end)
     end) (w_input k (mkFile (a ++ symbol_bytes s ++ c) (len (a ++ symbol_bytes s)))).
Proof.
  intros Hk Hs. cbn [process_symbols].
  erewrite st_bind_run; [| eapply on_input_run; [exact Hk |]; apply (fread_run a (symbol_bytes s) c)].
  erewrite st_bind_run; [| unfold lift, of_opt; by rewrite Hs]. done.
Qed.

Lemma elf_symbol_read nx s : symbol_ok s -> 0 <= nx < 2 ^ 31 -> read_elf_symbol (symbol_bytes (elf_symbol nx s)) = Some (elf_symbol nx s).
Proof.
  intros [[x Hx] Ho Hs _] Hn. rewrite <- (app_nil_r (symbol_bytes _)). apply read_symbol_bytes.
  pose proof (section_bound s x Hx). assert (Es : section_of s = x) by (unfold section_of; by rewrite Hx).
  unfold elf_symbol. rewrite Es. cbn [strtab_index_for_name type_and_binding reserved st_section value st_size].
  assert (0 <= ELF64_SYMBOL_TYPE_AND_BINDING STT_FUNC (symbol_binding s) < 256) by (destruct (symbol_binding_cases s) as [-> | ->]; done).
  fits_tac.
Qed.

Definition linked (k : Link) bytes pos t : Link := w_table (w_input k (mkFile bytes pos)) t.

Lemma process_symbols_run l n bytes k : forall nx idx a c pre post p t, bytes = a ++ symbols_bytes (elf_symbols nx l) ++ c ->
  strtab = pre ++ strings_bytes (name_of <$> l) ++ post -> nx = len pre -> p = len a ->
  len strtab < 2 ^ 31 -> Forall symbol_ok l -> 0 < idx -> len t + len l < 2 ^ 31 ->
  match link_symbols tb bb db t l with
  | Some (ix, t') => 
      process_symbols f tb bb db strtab idx (length l + n) (linked k bytes p t) =
        (rest ← process_symbols f tb bb db strtab (idx + len l) n;
         mret (match rest with inl e => inl e | inr r => inr (ix ++ r) end))
        (linked k bytes (len (a ++ symbols_bytes (elf_symbols nx l))) t')
  | None => exists k', process_symbols f tb bb db strtab idx (length l + n) (linked k bytes p t) =
              Ok (inl EXIT_CODE_LINKER_ERROR, k')
  end.
Proof.
  induction l as [|s l IH]; intros nx idx a c pre post p t Hb Hs -> -> Hlen Hok Hidx Ht.
  { cbn. rewrite app_nil_r, Z.add_0_r. unfold mbind, st_bind. by destruct (process_symbols _ _ _ _ _ _ _ _) as [[[|] ?]|]. }
  apply Forall_cons in Hok as [Hso Hok]. cbn [elf_symbols link_symbols length Nat.add fmap list_fmap] in *.
  unfold symbols_bytes in Hb. cbn [mbind list_bind] in Hb. fold (symbols_bytes (elf_symbols (len pre + (len (name_of s) + 1)) l)) in Hb.
  rewrite strings_cons in Hs. rewrite <- app_assoc in Hb.
  assert (Hpre : len pre < 2 ^ 31) by (rewrite Hs, length_app in Hlen; lia).
  set (es := elf_symbol (len pre) s) in *. set (rest := symbols_bytes _) in Hb |- *.
  assert (Hin : input_file (linked k bytes (len a) t) = mkFile (a ++ symbol_bytes es ++ rest ++ c) (len a)) by (rewrite Hb; done).
  rewrite (symbol_step _ a es (rest ++ c) _ _ Hin (elf_symbol_read (len pre) s Hso ltac:(lia))).
  assert (Hn : string_at strtab (len pre) = Ok (name_of s)) by (rewrite Hs, <- app_assoc; apply string_at_middle, Hso).
  pose proof (process_symbol_run idx (len pre) s (linked k bytes (len (a ++ symbol_bytes es)) t) Hn Hso ltac:(lia) ltac:(cbn; lia)) as E.
  rewrite <- Hb. change (w_input (linked k bytes (len a) t) _) with (linked k bytes (len (a ++ symbol_bytes es)) t).
  change (symbol_table (linked k bytes _ t)) with t in E.
  destruct (link_symbol tb bb db t s) as [[i t1]|] eqn:El; cbn [mbind option_bind].
  2: { eexists. erewrite st_bind_run; [| exact E]. done. }
  pose proof (link_symbol_table _ _ _ _ El) as [Hl _].
  erewrite st_bind_run; [| exact E]. cbn [default id].
  specialize (IH (len pre + (len (name_of s) + 1)) (idx + 1) (a ++ symbol_bytes es) c (pre ++ name_of s ++ [0]) post
    _ t1 ltac:(by rewrite Hb, <- !app_assoc) ltac:(by rewrite Hs, <- !app_assoc) ltac:(rewrite !length_app; cbn [length]; lia) eq_refl Hlen Hok ltac:(lia) ltac:(lia)).
  change (w_table (linked k bytes _ t) t1) with (linked k bytes (len (a ++ symbol_bytes es)) t1).
  destruct (link_symbols tb bb db t1 l) as [[ix t2]|]; cbn [mbind option_bind].
  - rewrite <- app_assoc in IH. change (symbols_bytes (es :: _)) with (symbol_bytes es ++ rest).
    replace (idx + Z.of_nat (S (length l))) with (idx + 1 + len l) by lia.
    unfold mbind, st_bind in *. rewrite IH. fold rest.
    by destruct (process_symbols f tb bb db strtab (idx + 1 + len l) n _) as [[[x|x] y]|e].
  - destruct IH as [k' IH]. eexists. erewrite st_bind_run; [| exact IH]. done.
Qed.
End Symbols.

(** ** Relocations *)

Lemma rela_type_and_symbol t s : 0 <= t < 2 ^ 32 -> 0 <= s < 2 ^ 32 ->
  ELF64_RELA_SYMBOL (ELF64_RELA_TYPE_AND_SYMBOL t s) = s /\ ELF64_RELA_TYPE (ELF64_RELA_TYPE_AND_SYMBOL t s) = t /\
  0 <= ELF64_RELA_TYPE_AND_SYMBOL t s < 2 ^ 64.
Proof.
  intros Ht Hs. unfold ELF64_RELA_SYMBOL, ELF64_RELA_TYPE, ELF64_RELA_TYPE_AND_SYMBOL.
  assert (Em : 0xFFFFFFFF = Z.ones 32) by done. rewrite Em, Z.land_ones, (Z.mod_small t) by lia.
  assert (E : Z.lor (u64 (Z.shiftl s 32)) t = s * 2 ^ 32 + t).
  { rewrite Z.shiftl_mul_pow2 by lia. rewrite wrap_small by lia. rewrite <- Z.add_nocarry_lor; [done |].
    apply Z.bits_inj'. intros i Hi. rewrite Z.land_spec, Z.bits_0, Z.mul_pow2_bits by lia.
    destruct (Z.ltb_spec i 32); [by rewrite Z.testbit_neg_r by lia |].
    rewrite <- (wrap_small 32 t), wrap_testbit by lia. destruct (Z.ltb_spec i 32); [lia |].
    by rewrite andb_false_r. }
  rewrite E, Z.shiftr_div_pow2, Z.land_ones by lia. rewrite Z.div_add_l, Z.div_small by lia.
  rewrite (Z.add_comm (s * 2 ^ 32)), Z.mod_add, Z.mod_small by lia. repeat split; lia.
Qed.

Record fixup_ok (f : Fixup) : Prop := {
  ok_fixup_offset : 0 <= fixup_offset f < 2 ^ 31;
  ok_next_instr : 0 <= next_instr_offset f < 2 ^ 31
}.

Section Relas.
Context (rela : Fixup -> res (option ELF64Rela)) (keep : Fixup -> bool) (reloc : Fixup -> Relocation).
Context (base section : Z) (n_symbols : nat).
Hypothesis Hbase : 0 <= base < 2 ^ 31.
Hypothesis Hn : Z.of_nat n_symbols < 2 ^ 31.

(** The writer's entry for a fixup is the relocation of the specification. *)
Definition written (f : Fixup) (r : option ELF64Rela) : Prop :=
  match r with
  | Some r =>
      keep f = true /\ (fixup_symbol f < n_symbols)%nat /\
      reloc f = mkReloc (reloc_type (reloc f)) section (base + fixup_offset f) (reloc_addend (reloc f)) /\
      0 <= reloc_type (reloc f) < 2 ^ 31 /\ - 2 ^ 31 <= reloc_addend (reloc f) < 2 ^ 31 /\
      r = mkRela (fixup_offset f) (ELF64_RELA_TYPE_AND_SYMBOL (reloc_type (reloc f)) (Z.of_nat (fixup_symbol f) + 1))
            (u32 (reloc_addend (reloc f)))
  | None => keep f = false
  end.
Hypothesis Hwritten : forall f r, fixup_ok f -> rela f = Ok r -> written f r.

Lemma link_fixup_length (indices : list Z) t f : length (link_fixup reloc indices t f) = length t.
Proof. unfold link_fixup. destruct (indices !! fixup_symbol f); [apply length_alter | done]. Qed.
Lemma link_fixups_length (indices : list Z) l : forall t, length (link_fixups keep reloc indices l t) = length t.
Proof.
  unfold link_fixups. intros t. set (l' := filter keep l). clearbody l'. revert t.
  induction l' as [|f l' IH]; intros t; [done |]. cbn [foldl]. by rewrite IH, link_fixup_length.
Qed.

Lemma link_fixups_cons (indices : list Z) f l t : link_fixups keep reloc indices (f :: l) t =
  link_fixups keep reloc indices l (if keep f then link_fixup reloc indices t f else t).
Proof. unfold link_fixups. rewrite filter_cons. destruct (keep f); by case_decide. Qed.

Lemma alter_insert_lookup {A} (g : A -> A) (l : list A) (i : nat) x : l !! i = Some x -> <[i := g x]> l = alter g i l.
Proof.
  revert i. induction l as [|y l IH]; intros [|i] H; [done | done | by injection H as -> |].
  cbn in *. f_equal. by apply IH.
Qed.

(** One entry: its relocation goes to the symbol. *)
Lemma process_rela_step k bytes a c f r indices tail t n : fixup_ok f -> written f (Some r) ->
  bytes = a ++ rela_bytes r ++ c -> length indices = n_symbols -> Forall (fun i => 0 <= i < len t) indices ->
  process_relas (S n) (0 :: indices ++ tail) base section (linked k bytes (len a) t) =
    process_relas n (0 :: indices ++ tail) base section
      (linked k bytes (len (a ++ rela_bytes r)) (link_fixup reloc indices t f)).
Proof.
  intros [Ho _] (_ & Hs & Hr & Ht & Ha & ->) Hb Hi Hall. set (r := mkRela _ _ _) in *. cbn [process_relas].
  destruct (rela_type_and_symbol (reloc_type (reloc f)) (Z.of_nat (fixup_symbol f) + 1)) as (E1 & E2 & E3); [lia | lia |].
  erewrite st_bind_run; [| eapply on_input_run; [reflexivity |]; rewrite Hb; apply (fread_run a (rela_bytes r) c)].
  assert (Er : read_rela (rela_bytes r) = Some r).
  { rewrite <- (app_nil_r (rela_bytes r)). pose proof (wrap_bound 32 (reloc_addend (reloc f)) ltac:(lia)).
    apply read_rela_bytes; cbn [r rela_section_offset type_and_symbol rela_addend]; lia. }
  erewrite st_bind_run; [| unfold lift, of_opt; by rewrite Er].
  cbn [r type_and_symbol rela_section_offset rela_addend]. rewrite E1, E2.
  rewrite (wrap_small 32 (Z.of_nat (fixup_symbol f) + 1)), (wrap_small 32 (reloc_type _)), (wrap_small 32 (base + _)) by lia.
  destruct (lookup_lt_is_Some_2 indices (fixup_symbol f)) as [i Ei]; [lia |].
  assert (Hrange : 0 <= i < len t) by (rewrite Forall_lookup in Hall; by apply (Hall _ _ Ei)).
  destruct (lookup_Z t i Hrange) as [s Es].
  assert (Eref : ref (0 :: indices ++ tail) (Z.of_nat (fixup_symbol f) + 1) = Ok i).
  { apply ref_lookup; [| lia]. replace (Z.to_nat _) with (S (fixup_symbol f)) by lia. change ((indices ++ tail) !! fixup_symbol f = Some i).
    rewrite lookup_app_l by lia. done. }
  erewrite st_bind_run; [| unfold lift; by rewrite Eref]. erewrite st_bind_run; [| reflexivity].
  erewrite st_bind_run; [| unfold lift; rewrite (ref_lookup _ i s); [reflexivity | exact Es | lia]].
  assert (Ea : i32 (u32 (reloc_addend (reloc f))) = reloc_addend (reloc f)).
  { rewrite (sgn_wrap_congr 32 _ (reloc_addend (reloc f))) by (apply wrap_wrap; lia). apply sgn_small; lia. }
  rewrite Ea, <- Hr. erewrite st_bind_run; [| unfold lift; rewrite store_insert by done; reflexivity].
  change (symbol_table _) with t. rewrite (alter_insert_lookup (add_reloc (reloc f)) t _ s Es).
  erewrite st_bind_run; [| reflexivity]. unfold link_fixup. rewrite Ei, Hb. done.
Qed.

Lemma link_fixup_indices (indices : list Z) t f : Forall (fun i => 0 <= i < len t) indices ->
  Forall (fun i => 0 <= i < len (link_fixup reloc indices t f)) indices.
Proof. by rewrite link_fixup_length. Qed.

Lemma process_relas_run k bytes c indices tail l : forall rs a t, relas_of rela l = Ok rs -> Forall fixup_ok l ->
  bytes = a ++ relas_bytes rs ++ c -> length indices = n_symbols -> Forall (fun i => 0 <= i < len t) indices ->
  process_relas (length rs) (0 :: indices ++ tail) base section (linked k bytes (len a) t) =
    Ok (tt, linked k bytes (len (a ++ relas_bytes rs)) (link_fixups keep reloc indices l t)).
Proof.
  induction l as [|f l IH]; intros rs a t Hrs Hok Hb Hi Hall; cbn [relas_of] in Hrs.
  { injection Hrs as <-. cbn. by rewrite app_nil_r. }
  apply Forall_cons in Hok as [Hf Hok]. apply res_bind_Ok in Hrs as (r & Er & Hrs).
  apply res_bind_Ok in Hrs as (rest & Erest & [= <-]). pose proof (Hwritten f r Hf Er) as Hw. rewrite link_fixups_cons.
  destruct r as [r|].
  - pose proof Hw as [-> _]. cbn [length]. rewrite relas_bytes_cons, <- app_assoc in Hb.
    rewrite (process_rela_step k bytes a (relas_bytes rest ++ c) f r) by done.
    rewrite (IH rest (a ++ rela_bytes r)); [| done | done | by rewrite Hb, <- app_assoc | done | by apply link_fixup_indices].
    by rewrite relas_bytes_cons, <- app_assoc.
  - rewrite Hw. by apply IH.
Qed.

Lemma process_rela_section_run k bytes c indices tail l rs a t p h initial : relas_of rela l = Ok rs -> Forall fixup_ok l ->
  bytes = a ++ relas_bytes rs ++ c -> length indices = n_symbols -> Forall (fun i => 0 <= i < len t) indices ->
  sh_type h = SHT_RELA -> entry_size h = RELA_BYTES -> section_size h = 24 * len rs -> 24 * len rs < 2 ^ 31 ->
  u64 (initial + section_location h) = len a -> len a < 2 ^ 31 ->
  process_rela_section (Some h) (0 :: indices ++ tail) initial base section (linked k bytes p t) =
    Ok (tt, linked k bytes (len (a ++ relas_bytes rs)) (link_fixups keep reloc indices l t)).
Proof.
  intros Hrs Hok Hb Hi Hall Ht He Hs Hlen Hu Ha. unfold process_rela_section. rewrite Ht, He, Hs, Hu.
  do 2 (erewrite st_bind_run; [| reflexivity]).
  erewrite st_bind_run; [| eapply on_input_run; [reflexivity | apply fseek_run; lia]].
  replace (u32 (24 * len rs / RELA_BYTES)) with (len rs).
  2: { unfold RELA_BYTES. rewrite Z.mul_comm, Z.div_mul by lia. symmetry. apply wrap_small. lia. }
  rewrite Nat2Z.id. by apply (process_relas_run k bytes c).
Qed.
End Relas.

(** The assembler numbers the symbols from one. *)
Definition numbered (l : list AsmSymbol) : Prop := forall i s, l !! i = Some s -> symtab_index s = Z.of_nat i + 1.

Lemma text_rela_written syms base f r : numbered syms -> 0 <= base -> fixup_ok f -> text_rela syms f = Ok r ->
  written (external syms) (text_reloc base) base TEXT_INDEX (length syms) f r.
Proof.
  intros Hnum Hb [Ho Hne] H. unfold text_rela in H. apply res_bind_Ok in H as (s & Es & H).
  assert (El : syms !! fixup_symbol f = Some s) by (unfold of_opt in Es; destruct (syms !! fixup_symbol f); [by injection Es as -> | done]).
  pose proof (lookup_lt_Some _ _ _ El) as Hlt. pose proof (Hnum _ _ El) as En.
  unfold written, external, text_reloc. rewrite El.
  destruct (bool_decide (fixup_section f = TEXT_SECTION)); cbn [negb andb] in *; [| by injection H as <-].
  rewrite <- andb_assoc in H. destruct (bool_decide (fixup_type f = FIXUP_RELATIVE) && _); cbn [negb]; [by injection H as <- |].
  destruct (negb (symtab_index s =? 0)); [| done]. cbn [ASSERT] in H. rewrite En in H.
  destruct (fixup_type f); injection H as <-; cbn [reloc_type reloc_addend]; unfold R_X86_64_PC32, R_X86_64_64; repeat split; lia.
Qed.

Lemma data_rela_written syms base f r : numbered syms -> 0 <= base -> fixup_ok f -> data_rela syms f = Ok r ->
  written in_data (data_reloc base) base DATA_INDEX (length syms) f r.
Proof.
  intros Hnum Hb [Ho Hne] H. unfold data_rela in H. unfold written, in_data, data_reloc.
  destruct (bool_decide (fixup_section f = DATA_SECTION)); cbn [negb] in H; [| by injection H as <-].
  apply res_bind_Ok in H as (s & Es & H).
  assert (El : syms !! fixup_symbol f = Some s) by (unfold of_opt in Es; destruct (syms !! fixup_symbol f); [by injection Es as -> | done]).
  pose proof (lookup_lt_Some _ _ _ El) as Hlt. pose proof (Hnum _ _ El) as En.
  destruct (negb (symtab_index s =? 0)); [| done]. cbn [ASSERT] in H. rewrite En in H.
  injection H as <-. cbn [reloc_type reloc_addend]. unfold R_X86_64_64. repeat split; try lia.
Qed.

(** ** Where the parts of an object file are *)

Definition at_offset (bytes : list Z) (o : Z) (d : list Z) : Prop := exists a c, bytes = a ++ d ++ c /\ len a = o.

Lemma at_offset_app bytes o d1 d2 : at_offset bytes o (d1 ++ d2) -> at_offset bytes o d1 /\ at_offset bytes (o + len d1) d2.
Proof.
  intros (a & c & -> & <-). split.
  - exists a, (d2 ++ c). by rewrite <- app_assoc.
  - exists (a ++ d1), c. rewrite <- !app_assoc, length_app. split; [done | lia].
Qed.

(** The parts of an object file that starts at [o]. *)
Record object_at (bytes : list Z) (o : Z) (m : AsmModule) (rt rd : list ELF64Rela) : Prop := {
  at_header : at_offset bytes o (header_bytes object_header);
  at_headers : at_offset bytes (o + 64) (headers_bytes (headers_of (object_infos m rt rd) (2 + len (symbols m))));
  at_text : at_offset bytes (o + 640) (text_bytes m);
  at_rela_text : at_offset bytes (o + rela_text_at 640 (text_bytes m)) (relas_bytes rt);
  at_data : at_offset bytes (o + data_at 640 (text_bytes m) rt) (asm_data m);
  at_rela_data : at_offset bytes (o + rela_data_at 640 (text_bytes m) (asm_data m) rt) (relas_bytes rd);
  at_shstrtab : at_offset bytes (o + shstrtab_at 640 (text_bytes m) (asm_data m) rt rd) SHSTRTAB_CONTENTS;
  at_symtab : at_offset bytes (o + symtab_at 640 (text_bytes m) (asm_data m) rt rd) (replicate 24 0 ++ object_symbols m);
  at_strtab : at_offset bytes (o + (symtab_at 640 (text_bytes m) (asm_data m) rt rd + 24 + len (object_symbols m))) (object_strings m)
}.

Lemma object_is_at pre m rt rd post : object_at (pre ++ object_bytes m rt rd ++ post) (len pre) m rt rd.
Proof.
  assert (H : at_offset (pre ++ object_bytes m rt rd ++ post) (len pre) (object_bytes m rt rd)) by (by exists pre, post).
  set (bytes := pre ++ _ ++ _) in *. clearbody bytes. unfold object_bytes, contents_bytes in H. rewrite <- !app_assoc in H.
  apply at_offset_app in H as [H1 H]. rewrite (header_length object_header eq_refl) in H. change (Z.of_nat 64) with 64 in H.
  apply at_offset_app in H as [H2 H]. unfold headers_of in H. rewrite headers_length in H. rewrite <- Z.add_assoc in H.
  change (64 + Z.of_nat 576) with 640 in H.
  apply at_offset_app in H as [H3 H]. apply at_offset_app in H as [H4 H]. rewrite relas_bytes_length in H.
  apply at_offset_app in H as [H5 H]. apply at_offset_app in H as [H6 H]. rewrite relas_bytes_length in H.
  apply at_offset_app in H as [H7 H]. change (len SHSTRTAB_CONTENTS) with 66 in H.
  rewrite app_assoc in H. apply at_offset_app in H as [H8 H9]. rewrite length_app, length_replicate in H9.
  unfold symtab_at, shstrtab_at, rela_data_at, data_at, rela_text_at.
  constructor; [exact H1 | exact H2 | exact H3 | ..].
  all: unfold symtab_at, shstrtab_at, rela_data_at, data_at, rela_text_at.
  - replace (len pre + (640 + len (text_bytes m))) with (len pre + 640 + len (text_bytes m)) by lia. exact H4.
  - match type of H5 with at_offset _ ?x _ => replace (len pre + _) with x by lia end. exact H5.
  - match type of H6 with at_offset _ ?x _ => replace (len pre + _) with x by lia end. exact H6.
  - match type of H7 with at_offset _ ?x _ => replace (len pre + _) with x by lia end. exact H7.
  - match type of H8 with at_offset _ ?x _ => replace (len pre + _) with x by lia end. exact H8.
  - match type of H9 with at_offset _ ?x _ => replace (len pre + _) with x by lia end. exact H9.
Qed.

Lemma read_part k bytes o d p p' t : at_offset bytes o d -> p' = o -> o < 2 ^ 63 ->
  exists q, read_at p' (len d) (linked k bytes p t) = Ok (d, linked k bytes q t).
Proof.
  intros (a & c & -> & <-) -> Ho. eexists. apply (read_at_run (linked k (a ++ d ++ c) p t) a d c); done.
Qed.

Definition header_fits (h : ELFSectionHeader) : Prop :=
  fits [(4, shstrtab_index_for_name h); (4, sh_type h); (8, sh_flags h); (8, sh_virtual_address h);
        (8, section_location h); (8, section_size h); (4, linked_section h); (4, misc_info h);
        (8, sh_alignment h); (8, entry_size h)]%nat.

Lemma read_headers_run l : forall n, n = length l -> Forall header_fits l -> read_headers n (headers_bytes l) = Ok l.
Proof.
  induction l as [|h l IH]; intros n -> H; [done |]. apply Forall_cons in H as [Hh H]. cbn [length read_headers].
  unfold headers_bytes. cbn [mbind list_bind]. fold (headers_bytes l). rewrite read_section_header_bytes by done. cbn [of_opt mbind res_bind].
  change (Z.to_nat SECTION_HEADER_BYTES) with 64%nat. rewrite drop_app_length' by (by rewrite section_header_length). by rewrite IH.
Qed.

Lemma section_header_fits name type flags address s link misc entry : 0 <= name < 2 ^ 32 -> 0 <= type < 2 ^ 32 ->
  0 <= flags < 2 ^ 32 -> 0 <= address < 2 ^ 32 -> 0 <= offset s < 2 ^ 32 -> 0 <= size s < 2 ^ 32 -> 0 <= link < 2 ^ 32 ->
  0 <= misc < 2 ^ 32 -> 0 <= entry < 2 ^ 32 -> header_fits (section_header name type flags address s link misc entry).
Proof.
  intros. unfold header_fits, section_header.
  cbn [shstrtab_index_for_name sh_type sh_flags sh_virtual_address section_location section_size linked_section misc_info
       sh_alignment entry_size]. fits_tac.
Qed.

Lemma object_headers_fit m rt rd : module_ok m rt rd -> 0 <= bss_size m < 2 ^ 31 ->
  Forall header_fits (headers_of (object_infos m rt rd) (2 + len (symbols m))).
Proof.
  intros [_ _ _ _ Hn] Hb. pose proof (object_symbols_length m) as Ho.
  assert (Hd : 0 <= data_address 640 (text_bytes m) rt < 2 ^ 32) by (apply wrap_bound; lia).
  unfold headers_of, object_infos, object_sections, section_headers. cbn [lookup list_lookup default id].
  unfold text_address, bss_address, symtab_at, shstrtab_at, rela_data_at, data_at, rela_text_at.
  apply Forall_cons. split. { unfold header_fits, SHT_NULL. fits_tac. }
  repeat match goal with |- Forall header_fits (_ :: _) => apply Forall_cons; split end.
  all: try match goal with |- Forall _ [] => by apply Forall_nil end.
  all: apply section_header_fits; cbn [offset size virtual_address]; try (cbn; lia); try lia.
  all: cbv; split; congruence.
Qed.

Definition object_found (s1 s2 s3 s4 s5 s6 s7 s8 : SectionInfo) (n : Z) : Found :=
  let h i := section_headers s1 s2 s3 s4 s5 s6 s7 s8 n !! i in
  mkFound (h 1%nat) TEXT_INDEX (h 7%nat) (h 8%nat) (h 2%nat) (h 5%nat) (h 4%nat) DATA_INDEX (h 3%nat) BSS_INDEX.

Lemma find_object_sections s1 s2 s3 s4 s5 s6 s7 s8 n :
  find_sections SHSTRTAB_CONTENTS nothing_found 0 (section_headers s1 s2 s3 s4 s5 s6 s7 s8 n) =
    Ok (Some (object_found s1 s2 s3 s4 s5 s6 s7 s8 n)).
Proof. reflexivity. Qed.

Lemma section_part k bytes o h d p t : at_offset bytes (o + section_location h) d -> section_size h = len d ->
  0 <= o + section_location h < 2 ^ 32 ->
  exists q, section_bytes o (Some h) (linked k bytes p t) = Ok (d, linked k bytes q t).
Proof.
  intros H Hs Ho. unfold section_bytes. rewrite Hs. destruct (Z.eqb_spec (len d) 0) as [E|E].
  - destruct d; [| done]. by exists p.
  - rewrite wrap_small by lia. eapply read_part; [exact H | done | lia].
Qed.

(** ** The symbol table of an object file *)

Lemma skip_symbol f tb bb db strtab idx s k n : string_at strtab (strtab_index_for_name s) = Ok n ->
  idx = 0 \/ ELF64_SYMBOL_TYPE (type_and_binding s) = STT_FILE ->
  process_symbol f tb bb db strtab idx s k = Ok (inr None, k).
Proof.
  intros Hn H. unfold process_symbol. erewrite st_bind_run; [| unfold lift; by rewrite Hn].
  assert (E : (idx =? 0) || (ELF64_SYMBOL_TYPE (type_and_binding s) =? STT_FILE) = true).
  { destruct H as [-> | ->]; [done | apply orb_true_r]. }
  by rewrite E.
Qed.

Lemma file_symbol_run f tb bb db strtab idx n k a c name : 0 <= n < 2 ^ 31 -> 0 < idx -> string_at strtab n = Ok name ->
  input_file k = mkFile (a ++ symbol_bytes (file_symbol n) ++ c) (len a) ->
  exists q, process_symbols f tb bb db strtab idx 1 k = Ok (inr [0], w_input k (mkFile (a ++ symbol_bytes (file_symbol n) ++ c) q)).
Proof.
  intros Hn Hi Hs Hk.
  assert (Hr : read_elf_symbol (symbol_bytes (file_symbol n)) = Some (file_symbol n)).
  { rewrite <- (app_nil_r (symbol_bytes _)). apply read_symbol_bytes. unfold file_symbol, SHN_ABS.
    change (ELF64_SYMBOL_TYPE_AND_BINDING STT_FILE STB_LOCAL) with 4.
    cbn [strtab_index_for_name type_and_binding reserved st_section value st_size]. fits_tac. }
  eexists. rewrite (symbol_step f tb bb db strtab k a _ c 0 idx Hk Hr).
  erewrite st_bind_run; [| eapply skip_symbol; [exact Hs | by right]]. done.
Qed.

Lemma symtab_run m k bytes f tb bb db so t : indices_ok f -> 0 <= tb < 2 ^ 31 -> 0 <= bb < 2 ^ 31 -> 0 <= db < 2 ^ 31 ->
  Forall symbol_ok (symbols m) -> Forall (fun c => 0 < c < 256) (bytes_of (input_file_name m)) ->
  at_offset bytes so (replicate 24 0 ++ object_symbols m) -> len (object_strings m) < 2 ^ 31 -> len t + len (symbols m) < 2 ^ 31 ->
  match link_symbols tb bb db t (symbols m) with
  | Some (ix, t') => exists q, process_symbols f tb bb db (object_strings m) 0 (S (length (symbols m) + 1)) (linked k bytes so t) =
      Ok (inr (0 :: ix ++ [0]), linked k bytes q t')
  | None => exists k', process_symbols f tb bb db (object_strings m) 0 (S (length (symbols m) + 1)) (linked k bytes so t) =
      Ok (inl EXIT_CODE_LINKER_ERROR, k')
  end.
Proof.
  intros Hf Htb Hbb Hdb Hok Hname (a & c & Hb & <-) Hlen Ht. unfold object_symbols in Hb.
  set (null := mkELFSymbol 0 0 0 0 0 0). set (file := file_symbol (1 + len (names_of m))) in *.
  set (syms := symbols_bytes (elf_symbols 1 (symbols m))) in *.
  assert (Hb' : bytes = a ++ symbol_bytes null ++ (syms ++ symbol_bytes file) ++ c) by (rewrite Hb, <- !app_assoc; done).
  assert (Hin : input_file (linked k bytes (len a) t) = mkFile (a ++ symbol_bytes null ++ (syms ++ symbol_bytes file) ++ c) (len a)) by (rewrite Hb'; done).
  rewrite (symbol_step f tb bb db (object_strings m) _ a null _ _ _ Hin eq_refl).
  assert (E0 : process_symbol f tb bb db (object_strings m) 0 null (linked k bytes (len (a ++ symbol_bytes null)) t) =
    Ok (inr None, linked k bytes (len (a ++ symbol_bytes null)) t)) by (apply (skip_symbol _ _ _ _ _ _ _ _ []); [done | by left]).
  rewrite <- Hb'. change (w_input (linked k bytes (len a) t) _) with (linked k bytes (len (a ++ symbol_bytes null)) t).
  pose proof (process_symbols_run f tb bb db (object_strings m) Hf Htb Hbb Hdb (symbols m) 1 bytes k 1 1
    (a ++ symbol_bytes null) (symbol_bytes file ++ c) [0] (bytes_of (input_file_name m) ++ [0]) _ t
    ltac:(rewrite Hb', <- !app_assoc; done) eq_refl eq_refl eq_refl Hlen Hok ltac:(lia) Ht) as H.
  destruct (link_symbols tb bb db t (symbols m)) as [[ix t']|].
  2: { destruct H as [k' H]. exists k'. erewrite st_bind_run; [| exact E0]. cbv beta iota. erewrite st_bind_run; [| exact H]. done. }
  fold syms in H.
  assert (Hin' : input_file (linked k bytes (len ((a ++ symbol_bytes null) ++ syms)) t') =
    mkFile (((a ++ symbol_bytes null) ++ syms) ++ symbol_bytes file ++ c) (len ((a ++ symbol_bytes null) ++ syms)))
    by (rewrite Hb', <- !app_assoc; done).
  destruct (file_symbol_run f tb bb db (object_strings m) (1 + len (symbols m)) (1 + len (names_of m))
    (linked k bytes (len ((a ++ symbol_bytes null) ++ syms)) t') ((a ++ symbol_bytes null) ++ syms) c (bytes_of (input_file_name m)))
    as [q Eq].
  { unfold object_strings in Hlen. rewrite !length_app in Hlen. cbn [length] in Hlen. lia. }
  { lia. }
  { unfold object_strings. replace (1 + len (names_of m)) with (len ([0] ++ names_of m)) by (rewrite length_app; cbn [length]; lia).
    rewrite app_assoc, <- (app_nil_r (bytes_of _ ++ [0])). by apply string_at_middle. }
  { exact Hin'. }
  assert (Eb : bytes = ((a ++ symbol_bytes null) ++ syms) ++ symbol_bytes (file_symbol (1 + len (names_of m))) ++ c)
    by (rewrite Hb', <- !app_assoc; done).
  rewrite <- Eb in Eq.
  assert (H' : process_symbols f tb bb db (object_strings m) 1 (length (symbols m) + 1) (linked k bytes (len (a ++ symbol_bytes null)) t) =
    Ok (inr (ix ++ [0]), linked k bytes q t')) by (rewrite H; erewrite st_bind_run; [| exact Eq]; done).
  exists q. erewrite st_bind_run; [| exact E0]. cbv beta iota. erewrite st_bind_run; [| exact H']. done.
Qed.

(** ** An object file *)

(** A module that can be linked after [k], in a file where it starts at [o]. *)
Record linkable (k : Link) (m : AsmModule) (rt rd : list ELF64Rela) (o : Z) : Prop := {
  lk_module : module_ok m rt rd;
  lk_numbered : numbered (symbols m);
  lk_fixups : Forall fixup_ok (fixups m);
  lk_start : 0 <= o;
  lk_room : o + len (text_bytes m) + len (asm_data m) + 24 * (len rt + len rd) + 24 * len (symbols m) +
            len (object_strings m) + 2000 < 2 ^ 31;
  lk_text : len (l_text k) < 2 ^ 31;
  lk_data : len (l_data k) < 2 ^ 31;
  lk_bss : 0 <= bss_size m /\ 0 <= l_bss_size k /\ l_bss_size k + bss_size m < 2 ^ 31;
  lk_table : len (symbol_table k) + len (symbols m) < 2 ^ 31
}.

(** The state after the sections are copied. *)
Definition copied (k : Link) (m : AsmModule) : Link :=
  mkLink (input_file k) (l_text k ++ text_bytes m) (l_data k ++ asm_data m) (l_bss_size k + bss_size m) (symbol_table k).

Lemma seek_linked k bytes p t x : 0 <= x < 2 ^ 32 -> on_input (checked_fseek (u64 x)) (linked k bytes p t) = Ok (tt, linked k bytes x t).
Proof. intros H. rewrite wrap_small by lia. erewrite on_input_run; [| reflexivity | apply fseek_run; lia]. done. Qed.

Lemma layout_bounds k m rt rd o : linkable k m rt rd o ->
  let end_ := symtab_at 640 (text_bytes m) (asm_data m) rt rd in
  0 <= rela_text_at 640 (text_bytes m) <= data_at 640 (text_bytes m) rt /\
  data_at 640 (text_bytes m) rt <= rela_data_at 640 (text_bytes m) (asm_data m) rt <= shstrtab_at 640 (text_bytes m) (asm_data m) rt rd /\
  shstrtab_at 640 (text_bytes m) (asm_data m) rt rd <= end_ /\
  o + end_ + 24 + len (object_symbols m) + len (object_strings m) < 2 ^ 31.
Proof.
  intros [_ _ _ _ Hn _ _ _ _]. rewrite object_symbols_length. cbv zeta.
  unfold symtab_at, shstrtab_at, rela_data_at, data_at, rela_text_at. lia.
Qed.

Section Object.
Context (k : Link) (m : AsmModule) (rt rd : list ELF64Rela) (o : Z) (bytes : list Z).
Hypothesis Hk : linkable k m rt rd o.
Hypothesis Hat : object_at bytes o m rt rd.

Definition found_object : Found :=
  let s i := default no_section (object_infos m rt rd !! i) in
  object_found (s 1%nat) (s 2%nat) (s 3%nat) (s 4%nat) (s 5%nat) (s 6%nat) (s 7%nat) (s 8%nat) (2 + len (symbols m)).

(** The relocations, once the symbols are known. *)
Lemma object_relas ix t q : length ix = length (symbols m) -> Forall (fun i => 0 <= i < len t) ix ->
  exists q', (process_rela_section (rela_text_header found_object) (0 :: ix ++ [0]) o (len (l_text k)) TEXT_INDEX;;
     process_rela_section (rela_data_header found_object) (0 :: ix ++ [0]) o (len (l_data k)) DATA_INDEX;;
     mret EXIT_CODE_SUCCESS) (linked (copied k m) bytes q t) =
  Ok (EXIT_CODE_SUCCESS, linked (copied k m) bytes q'
    (link_fixups in_data (data_reloc (len (l_data k))) ix (fixups m)
      (link_fixups (external (symbols m)) (text_reloc (len (l_text k))) ix (fixups m) t))).
Proof.
  intros Hix Hall. destruct Hk as [[Hrt Hrd _ _ _] Hnum Hfix Ho Hroom Htext Hdata _ Htab].
  destruct (layout_bounds _ _ _ _ _ Hk) as (B1 & B2 & B3 & B4).
  destruct (at_rela_text _ _ _ _ _ Hat) as (a & c & Hb & Ha). destruct (at_rela_data _ _ _ _ _ Hat) as (a' & c' & Hb' & Ha').
  eexists. erewrite st_bind_run.
  2: { apply (process_rela_section_run (text_rela (symbols m)) (external (symbols m)) (text_reloc (len (l_text k)))
         (len (l_text k)) TEXT_INDEX (length (symbols m)) ltac:(lia) ltac:(lia)
         (fun f r Hf Hr => text_rela_written _ (len (l_text k)) _ _ Hnum ltac:(lia) Hf Hr) (copied k m) bytes c ix [0] (fixups m) rt a);
       [done | done | done | done | done | done | done | done | lia | | lia].
       cbn. rewrite Ha, wrap_small by lia. done. }
  erewrite st_bind_run.
  2: { apply (process_rela_section_run (data_rela (symbols m)) in_data (data_reloc (len (l_data k)))
         (len (l_data k)) DATA_INDEX (length (symbols m)) ltac:(lia) ltac:(lia)
         (fun f r Hf Hr => data_rela_written _ (len (l_data k)) _ _ Hnum ltac:(lia) Hf Hr) (copied k m) bytes c' ix [0] (fixups m) rd a');
       [done | done | done | done | by rewrite link_fixups_length | done | done | done | lia | | lia].
       cbn. rewrite Ha', wrap_small by lia. done. }
  done.
Qed.
Lemma object_indices : indices_ok found_object.
Proof. done. Qed.

(** The result of linking: the state of the specification, or a second definition. *)
Definition outcome (r : res (ExitCode * Link)) : Prop :=
  match link_module k m with
  | Some k' => exists q, r = Ok (EXIT_CODE_SUCCESS, linked k' bytes q (symbol_table k'))
  | None => exists k', r = Ok (EXIT_CODE_LINKER_ERROR, k')
  end.

Lemma symbols_count : Z.to_nat (u32 ((24 + len (object_symbols m)) / SYMBOL_BYTES)) = S (length (symbols m) + 1).
Proof.
  destruct Hk as [[_ _ _ _ Hn] _ _ _ _ _ _ _ _]. rewrite object_symbols_length. unfold SYMBOL_BYTES.
  replace (24 + Z.of_nat (24 * length (symbols m) + 24)) with ((len (symbols m) + 2) * 24) by lia.
  rewrite Z.div_mul, wrap_small by lia. lia.
Qed.

Lemma object_headers : exists th sy st bh,
  (text_header found_object = Some th /\ sh_type th = SHT_PROGBITS) /\
  (symtab_header found_object = Some sy /\ sh_type sy = SHT_SYMTAB /\ entry_size sy = SYMBOL_BYTES /\
   section_location sy = symtab_at 640 (text_bytes m) (asm_data m) rt rd /\ section_size sy = 24 + len (object_symbols m)) /\
  (strtab_header found_object = Some st /\ sh_type st = SHT_STRTAB /\
   section_location st = symtab_at 640 (text_bytes m) (asm_data m) rt rd + 24 + len (object_symbols m) /\
   section_size st = len (object_strings m)) /\
  (bss_header found_object = Some bh /\ section_size bh = bss_size m).
Proof. do 4 eexists. done. Qed.

Lemma text_part p t : exists q, section_bytes o (text_header found_object) (linked k bytes p t) = Ok (text_bytes m, linked k bytes q t).
Proof.
  pose proof (layout_bounds _ _ _ _ _ Hk) as B. cbv zeta in B. pose proof (lk_start _ _ _ _ _ Hk). pose proof (lk_room _ _ _ _ _ Hk).
  apply section_part; [apply (at_text _ _ _ _ _ Hat) | done | cbn; lia].
Qed.
Lemma data_part p t : exists q, section_bytes o (data_header found_object) (linked k bytes p t) = Ok (asm_data m, linked k bytes q t).
Proof.
  pose proof (layout_bounds _ _ _ _ _ Hk) as B. cbv zeta in B. pose proof (lk_start _ _ _ _ _ Hk).
  apply section_part; [apply (at_data _ _ _ _ _ Hat) | done | cbn; lia].
Qed.

Lemma object_sections_run p : outcome (process_sections o found_object (linked k bytes p (symbol_table k))).
Proof.
  destruct (layout_bounds _ _ _ _ _ Hk) as (B1 & B2 & B3 & B4). pose proof (lk_module _ _ _ _ _ Hk) as [_ _ Hsym Hname _].
  pose proof (lk_start _ _ _ _ _ Hk). pose proof (lk_text _ _ _ _ _ Hk). pose proof (lk_data _ _ _ _ _ Hk).
  pose proof (lk_bss _ _ _ _ _ Hk) as (? & ? & ?). pose proof (lk_room _ _ _ _ _ Hk). pose proof (lk_table _ _ _ _ _ Hk).
  destruct object_headers as (th & sy & str & bh & [Et Et1] & (Esy & Es1 & Es2 & Es3 & Es4) & (Estr & Er1 & Er2 & Er3) & [Eb Eb1]).
  unfold process_sections. rewrite Esy, Estr, Eb. destruct (text_header found_object) eqn:Eth; [| done]. injection Et as ->.
  rewrite Et1, Es1, Es2, Er1, Er3, Er2, Es3, Es4. rewrite <- Eth. do 4 (erewrite st_bind_run; [| reflexivity]).
  destruct (read_part k bytes _ _ p (u64 (o + (symtab_at 640 (text_bytes m) (asm_data m) rt rd + 24 + len (object_symbols m)))) (symbol_table k)
    (at_strtab _ _ _ _ _ Hat)) as [q1 E1]; [by rewrite wrap_small by lia | lia |].
  erewrite st_bind_run; [| exact E1]. erewrite st_bind_run; [| reflexivity]. cbn [linked w_table w_input l_text l_data l_bss_size].
  rewrite (wrap_small 32 (len (l_text k))), (wrap_small 32 (len (l_data k))) by lia.
  destruct (text_part q1 (symbol_table k)) as [q2 E2]. erewrite st_bind_run; [| exact E2].
  destruct (data_part q2 (symbol_table k)) as [q3 E3]. erewrite st_bind_run; [| exact E3].
  erewrite st_bind_run; [| reflexivity]. cbn [linked w_table w_input l_text l_data l_bss_size symbol_table input_file].
  rewrite Eb1, (wrap_small 32 (l_bss_size k + bss_size m)), symbols_count by lia.
  change (mkLink _ _ _ _ _) with (linked (copied k m) bytes q3 (symbol_table k)).
  erewrite st_bind_run; [| apply seek_linked; lia].
  pose proof (symtab_run m (copied k m) bytes found_object (len (l_text k)) (l_bss_size k) (len (l_data k)) _ (symbol_table k)
    object_indices ltac:(lia) ltac:(lia) ltac:(lia) Hsym Hname (at_symtab _ _ _ _ _ Hat) ltac:(lia) ltac:(lia)) as Hs.
  unfold outcome, link_module. destruct (link_symbols _ _ _ (symbol_table k) (symbols m)) as [[ix t']|] eqn:El; cbn [mbind option_bind].
  - destruct Hs as [q4 Hs]. erewrite st_bind_run; [| exact Hs]. cbv beta iota.
    pose proof (link_symbols_table _ _ _ _ _ _ _ El) as (_ & Hl & Hall).
    destruct (object_relas ix t' q4 Hl Hall) as [q5 E5]. exists q5. exact E5.
  - destruct Hs as [k' Hs]. exists k'. erewrite st_bind_run; [| exact Hs]. done.
Qed.
Lemma object_header_fields : forall rest, read_header (header_bytes object_header ++ rest) = Some object_header.
Proof.
  intros rest. apply read_header_bytes; [done | |].
  - repeat (apply Forall_cons; split; [lia |]). by apply Forall_nil.
  - unfold object_header. cbn [object_file_type target_architecture elf_version entry_point pht_location sht_location
      architecture_specific_flags header_size program_header_size pht_entries section_header_size sht_entries shstrtab_index].
    fits_tac.
Qed.

Lemma process_object : outcome (process_elf_file (linked k bytes o (symbol_table k))).
Proof.
  destruct (layout_bounds _ _ _ _ _ Hk) as (B1 & B2 & B3 & B4). pose proof (lk_start _ _ _ _ _ Hk).
  unfold process_elf_file. erewrite st_bind_run; [| reflexivity]. cbn [linked w_table w_input input_file file_pos].
  rewrite (wrap_small 32 o) by lia.
  destruct (at_header _ _ _ _ _ Hat) as (a & c & Hb & Ha).
  assert (Eh : on_input (fread HEADER_BYTES) (linked k bytes o (symbol_table k)) =
    Ok (header_bytes object_header, linked k bytes (o + 64) (symbol_table k))).
  { unfold on_input, zoom. cbn [linked w_table w_input input_file]. unfold fread, mbind, st_bind, get, put, mret, st_ret.
    cbn [file_bytes file_pos]. rewrite Hb, <- Ha, Nat2Z.id, drop_app_length. by rewrite take_app_length' by done. }
  erewrite st_bind_run; [| exact Eh]. change (len (header_bytes object_header) =? HEADER_BYTES) with true. cbn [negb].
  erewrite st_bind_run.
  2: { unfold lift. rewrite <- (app_nil_r (header_bytes object_header)), object_header_fields. reflexivity. }
  do 2 (erewrite st_bind_run; [| reflexivity]). change (target_architecture object_header =? EM_X86_64) with true. cbn [negb].
  erewrite st_bind_run; [| reflexivity].
  change (u32 (sht_location object_header)) with 64. rewrite (wrap_small 32 (o + 64)) by lia.
  set (hs := headers_of (object_infos m rt rd) (2 + len (symbols m))).
  destruct (read_part k bytes _ _ (o + 64) (o + 64) (symbol_table k) (at_headers _ _ _ _ _ Hat)) as [q1 E1]; [done | lia |].
  fold hs in E1. assert (Eb : len (headers_bytes hs) = SECTION_HEADER_BYTES * sht_entries object_header)
    by (unfold hs, headers_of; by rewrite headers_length).
  rewrite Eb in E1. erewrite st_bind_run; [| exact E1].
  erewrite st_bind_run; [| unfold lift; rewrite (read_headers_run hs); [reflexivity | done |]].
  2: { apply object_headers_fit; [apply (lk_module _ _ _ _ _ Hk) | pose proof (lk_bss _ _ _ _ _ Hk); lia]. }
  do 2 (erewrite st_bind_run; [| reflexivity]).
  destruct (read_part k bytes _ _ q1 (u64 (o + shstrtab_at 640 (text_bytes m) (asm_data m) rt rd)) (symbol_table k)
    (at_shstrtab _ _ _ _ _ Hat)) as [q2 E2]; [by rewrite wrap_small by lia | lia |].
  erewrite st_bind_run; [| exact E2].
  erewrite st_bind_run; [| unfold lift; unfold hs, headers_of; rewrite find_object_sections; reflexivity].
  apply object_sections_run.
Qed.
End Object.

Lemma object_written m rt rd : module_ok m rt rd ->
  write_elf_object_file (Some empty_file) m = Ok (EXIT_CODE_SUCCESS, Some (mkFile (object_bytes m rt rd) 640)).
Proof.
  intros H. destruct (object_file_run m rt rd H) as (e & E & Ho). unfold write_elf_object_file.
  rewrite E. cbn [mbind res_bind]. by rewrite Ho.
Qed.

Lemma linked_input k bytes p q : input_file k = mkFile bytes p -> linked k bytes q (symbol_table k) = w_input k (mkFile bytes q).
Proof. by destruct k. Qed.
Lemma w_input_same k f : input_file k = f -> w_input k f = k.
Proof. intros <-. by destruct k. Qed.

Lemma process_object_at k m rt rd pre post : linkable k m rt rd (len pre) ->
  input_file k = mkFile (pre ++ object_bytes m rt rd ++ post) (len pre) ->
  match link_module k m with
  | Some k' => exists p, process_elf_file k = Ok (EXIT_CODE_SUCCESS, w_input k' (mkFile (pre ++ object_bytes m rt rd ++ post) p))
  | None => exists k', process_elf_file k = Ok (EXIT_CODE_LINKER_ERROR, k')
  end.
Proof.
  intros Hk Hin. pose proof (process_object k m rt rd (len pre) _ Hk (object_is_at pre m rt rd post)) as H.
  rewrite (linked_input k _ _ _ Hin), (w_input_same k _ Hin) in H. unfold outcome in H.
  destruct (link_module k m) as [k'|]; [| exact H]. destruct H as [q Hq]. exists q. rewrite Hq. by destruct k'.
Qed.

(** C5: the linker reads what the object writer writes. The bytes of an object file,
    alone or inside an archive, are linked as the module says: the text and the data
    after those linked before, the symbols merged by name, a relocation for each fixup
    that the assembler left; a second definition of a symbol is an error. *)
Theorem linker_reads_object m rt rd : module_ok m rt rd ->
  exists bytes, write_elf_object_file (Some empty_file) m = Ok (EXIT_CODE_SUCCESS, Some (mkFile bytes 640)) /\
  forall pre post k, linkable k m rt rd (len pre) -> input_file k = mkFile (pre ++ bytes ++ post) (len pre) ->
   match link_module k m with
   | Some k' => exists p, process_elf_file k = Ok (EXIT_CODE_SUCCESS, w_input k' (mkFile (pre ++ bytes ++ post) p))
   | None => exists k', process_elf_file k = Ok (EXIT_CODE_LINKER_ERROR, k')
   end.
Proof.
  intros Hm. exists (object_bytes m rt rd). split; [by apply object_written |].
  intros pre post k. apply process_object_at.
Qed.

Lemma sample_linkable f t : linkable (mkLink f t [] 0 []) sample [mkRela 1 (2 * 2 ^ 32 + 2) 4294967292] [mkRela 4 (2 ^ 32 + 1) 0] 0 <->
  len t < 2 ^ 31.
Proof.
  split; [by intros [] |]. intros Ht. constructor; [apply sample_ok | | | lia | cbn; lia | done | cbn; lia | cbn; lia | cbn; lia].
  - intros [|[|i]] s [= <-]; done.
  - apply Forall_cons; split; [| apply Forall_cons; split; [| by apply Forall_nil]]; constructor; cbn; lia.
Qed.

Lemma linker_reads_object_witness : exists bytes p,
  write_elf_object_file (Some empty_file) sample = Ok (EXIT_CODE_SUCCESS, Some (mkFile bytes 640)) /\
  process_elf_file (mkLink (mkFile bytes 0) [0x90] [] 0 []) =
    Ok (EXIT_CODE_SUCCESS, mkLink (mkFile bytes p) [0x90; 0xE8; 0; 0; 0; 0; 0xC3] [1; 2; 3; 4; 0; 0; 0; 0; 0; 0; 0; 0] 8
      [mkSymbol true (bytes_of "f") [mkReloc R_X86_64_64 DATA_INDEX 4 0] STB_LOCAL TEXT_INDEX 1 6;
       mkSymbol false (bytes_of "g") [mkReloc R_X86_64_PC32 TEXT_INDEX 2 (-4)] STB_GLOBAL 0 0 0]).
Proof.
  destruct (linker_reads_object sample _ _ sample_ok) as (bytes & E & H).
  destruct (H [] [] (mkLink (mkFile bytes 0) [0x90] [] 0 [])) as [p Hp].
  - apply sample_linkable. cbn. lia.
  - cbn. by rewrite app_nil_r.
  - exists bytes, p. split; [exact E |]. cbn [app] in Hp. rewrite app_nil_r in Hp. exact Hp.
Defined.
