(* ===== verification/ElfExec.v ===== *)
(** * Executables

    [link_elf_executable] of [elf.c]: the inputs are linked one after the other, and
    the executable holds their sections with every relocated place set to the address
    of its symbol. *)

From S2P Require Import Prelude Maths LibC Lex Stream Asm Elf ElfSound ElfLink.

Local Open Scope Z_scope.

(** ** Inputs *)

(** A module with the relocations that the writer gives it. *)
Definition Input : Type := AsmModule * list ELF64Rela * list ELF64Rela.
Definition input_bytes (i : Input) : list Z := let '(m, rt, rd) := i in object_bytes m rt rd.

Fixpoint link_inputs (k : Link) (l : list Input) : option Link :=
  match l with
  | [] => Some k
  | (m, _, _) :: l => k' ← link_module k m; link_inputs k' l
  end.
Fixpoint linkable_inputs (k : Link) (l : list Input) : Prop :=
  match l with
  | [] => True
  | (m, rt, rd) :: l => linkable k m rt rd 0 /\ match link_module k m with Some k' => linkable_inputs k' l | None => True end
  end.

Lemma linkable_input k f m rt rd o : linkable k m rt rd o -> linkable (w_input k f) m rt rd o.
Proof. by intros []. Qed.
Lemma link_module_input k f m : link_module (w_input k f) m = (fun k' => w_input k' f) <$> link_module k m.
Proof.
  unfold link_module. cbn [w_input l_text l_data l_bss_size symbol_table input_file].
  by destruct (link_symbols _ _ _ _ _) as [[ix t]|].
Qed.
Lemma link_inputs_input l : forall k f, link_inputs (w_input k f) l = (fun k' => w_input k' f) <$> link_inputs k l.
Proof.
  induction l as [|[[m rt] rd] l IH]; intros k f; [done |]. cbn [link_inputs]. rewrite link_module_input.
  destruct (link_module k m) as [k'|]; [| done]. cbn. apply IH.
Qed.
Lemma linkable_inputs_input l : forall k f, linkable_inputs k l -> linkable_inputs (w_input k f) l.
Proof.
  induction l as [|[[m rt] rd] l IH]; intros k f; [done |]. cbn [linkable_inputs]. intros [H1 H2]. split; [by apply linkable_input |].
  rewrite link_module_input. destruct (link_module k m) as [k'|]; [| done]. cbn. by apply IH.
Qed.

Lemma object_file_type m rt rd k : input_file k = mkFile (object_bytes m rt rd) 0 ->
  on_input file_type k = Ok (ELF_FILE_TYPE, k).
Proof.
  intros H. unfold on_input, zoom. rewrite H.
  assert (E : file_type (mkFile (object_bytes m rt rd) 0) = Ok (ELF_FILE_TYPE, mkFile (object_bytes m rt rd) 0)) by reflexivity.
  rewrite E. f_equal. f_equal. by apply w_input_same.
Qed.

Lemma process_inputs_run l : forall k, linkable_inputs k l ->
  match link_inputs k l with
  | Some k' => exists f, process_inputs ((fun i => Some (input_bytes i)) <$> l) k = Ok (EXIT_CODE_SUCCESS, w_input k' f)
  | None => exists k', process_inputs ((fun i => Some (input_bytes i)) <$> l) k = Ok (EXIT_CODE_LINKER_ERROR, k')
  end.
Proof.
  induction l as [|[[m rt] rd] l IH]; intros k; cbn [linkable_inputs link_inputs fmap list_fmap process_inputs].
  { intros _. exists (input_file k). by rewrite w_input_same. }
  intros [Hk Hl]. set (f0 := mkFile (object_bytes m rt rd) 0). set (k0 := w_input k f0).
  pose proof (process_object_at k0 m rt rd [] [] (linkable_input _ _ _ _ _ _ Hk) ltac:(cbn [app]; by rewrite app_nil_r)) as H.
  cbn [app] in H. rewrite app_nil_r in H. unfold k0 in H. rewrite link_module_input in H. fold k0 in H.
  assert (Ep : process_input k0 = process_elf_file k0).
  { unfold process_input. erewrite st_bind_run; [| by apply (object_file_type m rt rd)]. done. }
  destruct (link_module k m) as [k'|]; cbn [mbind option_bind fmap option_fmap option_map] in *.
  - destruct H as [q H]. specialize (IH (w_input (w_input k' f0) (mkFile (object_bytes m rt rd) q))).
    rewrite !link_inputs_input in IH.
    assert (Hl' : linkable_inputs (w_input (w_input k' f0) (mkFile (object_bytes m rt rd) q)) l) by (by repeat apply linkable_inputs_input).
    specialize (IH Hl'). destruct (link_inputs k' l) as [k2|]; cbn in IH.
    + destruct IH as [f IH]. exists f. erewrite st_bind_run; [| reflexivity]. erewrite st_bind_run; [| etransitivity; [exact Ep | exact H]].
      cbv beta iota. case_decide; [exact IH | done].
    + destruct IH as [k2 IH]. exists k2. erewrite st_bind_run; [| reflexivity]. erewrite st_bind_run; [| etransitivity; [exact Ep | exact H]].
      case_decide; [exact IH | done].
  - destruct H as [k' H]. exists k'. erewrite st_bind_run; [| reflexivity]. erewrite st_bind_run; [| etransitivity; [exact Ep | exact H]].
    case_decide; [done | done].
Qed.

(** ** Patching *)

Lemma overwrite_app_l a d i x : overwrite (a ++ d) (length a + i) x = a ++ overwrite d i x.
Proof.
  unfold overwrite. rewrite length_app. replace (length a + i - (length a + length d))%nat with (i - length d)%nat by lia.
  rewrite <- app_assoc, take_app_ge by lia. rewrite drop_app_ge by lia.
  replace (length a + i - length a)%nat with i by lia. replace (length a + i + length x - length a)%nat with (i + length x)%nat by lia.
  by rewrite <- app_assoc.
Qed.
Lemma overwrite_app_r d e i x : (i + length x <= length d)%nat -> overwrite (d ++ e) i x = overwrite d i x ++ e.
Proof.
  intros H. unfold overwrite. rewrite length_app. replace (i - _)%nat with 0%nat by lia. replace (i - _)%nat with 0%nat by lia.
  cbn [replicate]. rewrite !app_nil_r, take_app_le, drop_app_le by lia. by rewrite !app_assoc.
Qed.

(** A program's sections in the executable, where its first section is at 808. *)
Section Image.
Context (T D : list Z) (bss : Z).

Definition exec_infos : list SectionInfo := laid_out 808 (allocated T) T D bss [] [].
Definition address_of (section : Z) : Z := virtual_address (default no_section (exec_infos !! Z.to_nat section)).
Definition symbol_address (s : Symbol) : Z := u32 (address_of (l_section_index s) + l_section_offset s).

(** The place of a relocation in the contents, and its address. *)
Definition place (r : Relocation) : Z := (if reloc_section_index r =? TEXT_INDEX then 0 else len T) + reloc_section_offset r.
Definition place_address (r : Relocation) : Z := address_of (reloc_section_index r) + reloc_section_offset r.

(** S + A - P for a relative relocation and S + A for the others. *)
Definition reloc_value (S : Z) (r : Relocation) : Z :=
  u32 (S + reloc_addend r - (if reloc_type r =? R_X86_64_PC32 then place_address r else 0)).
Definition patch (S : Z) (d : list Z) (r : Relocation) : list Z :=
  overwrite d (Z.to_nat (place r)) (le_bytes (reloc_value S r) 4).
Definition patch_symbol (d : list Z) (s : Symbol) : list Z := foldl (patch (symbol_address s)) d (relocs s).

Record reloc_ok (r : Relocation) : Prop := {
  ok_reloc_type : reloc_type r ∈ [R_X86_64_64; R_X86_64_PC32; R_X86_64_32; R_X86_64_32S];
  ok_reloc_place : (reloc_section_index r = TEXT_INDEX /\ reloc_section_offset r + 4 <= len T) \/
    (reloc_section_index r = DATA_INDEX /\ reloc_section_offset r + 4 <= len D);
  ok_reloc_offset : 0 <= reloc_section_offset r
}.
Record entry_ok (s : Symbol) : Prop := {
  ok_entry_defined : l_defined s = true;
  ok_entry_section : l_section_index s ∈ [TEXT_INDEX; BSS_INDEX; DATA_INDEX];
  ok_entry_relocs : Forall reloc_ok (relocs s);
  ok_entry_name : Forall (fun c => 0 < c < 256) (l_name s)
}.

Hypothesis Hsize : len T + len D + 2000 < 2 ^ 31.

Lemma place_bounds r : reloc_ok r -> 0 <= place r /\ place r + 4 <= len T + len D.
Proof.
  intros [_ H Ho]. unfold place. destruct H as [[-> H] | [-> H]]; [change (TEXT_INDEX =? TEXT_INDEX) with true | change (DATA_INDEX =? TEXT_INDEX) with false];
    cbv iota; lia.
Qed.

Lemma patch_length S d r : reloc_ok r -> len T + len D <= len d -> length (patch S d r) = length d.
Proof. intros Hr Hd. apply place_bounds in Hr. unfold patch. apply overwrite_length. rewrite le_bytes_length. lia. Qed.
Lemma patches_length S l : forall d, Forall reloc_ok l -> len T + len D <= len d -> length (foldl (patch S) d l) = length d.
Proof.
  induction l as [|r l IH]; intros d H Hd; [done |]. apply Forall_cons in H as [Hr H]. cbn [foldl].
  rewrite IH; [by apply patch_length | done | by rewrite patch_length].
Qed.
Lemma patch_app S d e r : reloc_ok r -> len T + len D <= len d -> patch S (d ++ e) r = patch S d r ++ e.
Proof. intros Hr Hd. apply place_bounds in Hr. unfold patch. apply overwrite_app_r. rewrite le_bytes_length. lia. Qed.
Lemma patches_app S l e : forall d, Forall reloc_ok l -> len T + len D <= len d ->
  foldl (patch S) (d ++ e) l = foldl (patch S) d l ++ e.
Proof.
  induction l as [|r l IH]; intros d H Hd; [done |]. apply Forall_cons in H as [Hr H]. cbn [foldl].
  rewrite patch_app by done. apply IH; [done | by rewrite patch_length].
Qed.

(** ** The relocations of a symbol *)

(** The file of an executable: room for the headers, then its contents. *)
Definition image (d : list Z) (p en nx cu la : Z) : ELFFile :=
  mkELF (mkFile (replicate 808 0 ++ d) p) ET_EXEC en nx cu la exec_infos.

Lemma info_of section p en nx cu la d : section ∈ [TEXT_INDEX; BSS_INDEX; DATA_INDEX] ->
  info section (image d p en nx cu la) = Ok (default no_section (exec_infos !! Z.to_nat section), image d p en nx cu la).
Proof. intros H. repeat (apply elem_of_cons in H as [-> | H]; [reflexivity |]). by apply elem_of_nil in H. Qed.

Lemma final_value_run r S : reloc_ok r ->
  final_value (reloc_type r) S (u32 (place_address r)) (reloc_addend r) = Ok (reloc_value S r).
Proof.
  intros [Ht _ _]. unfold final_value, reloc_value. destruct (Z.eqb_spec (reloc_type r) R_X86_64_PC32) as [E|E].
  - f_equal. assert (E' : u32 (i32 (u32 (place_address r))) = u32 (place_address r)) by (rewrite wrap_sgn, wrap_wrap by lia; done).
    unfold wrap in *. by rewrite Zminus_mod, E', <- Zminus_mod.
  - rewrite Z.sub_0_r. repeat (apply elem_of_cons in Ht as [Er | Ht]; [rewrite Er in *; (done || congruence) |]). by apply elem_of_nil in Ht.
Qed.

Lemma section_places r : reloc_ok r ->
  reloc_section_index r ∈ [TEXT_INDEX; BSS_INDEX; DATA_INDEX] /\
  offset (default no_section (exec_infos !! Z.to_nat (reloc_section_index r))) + reloc_section_offset r = 808 + place r.
Proof.
  intros [_ [[E _] | [E _]] _]; unfold place; rewrite E; (split; [set_solver |]).
  - change (offset _) with 808. change (TEXT_INDEX =? TEXT_INDEX) with true. cbv iota. lia.
  - change (offset _) with (data_at 808 T []). change (DATA_INDEX =? TEXT_INDEX) with false. cbv iota.
    unfold data_at, rela_text_at. cbn [length]. lia.
Qed.

Lemma apply_reloc_run S r d p en nx cu la : reloc_ok r -> len T + len D <= len d ->
  exists p', apply_reloc S r (image d p en nx cu la) = Ok (tt, image (patch S d r) p' en nx cu la).
Proof.
  intros Hr Hd. destruct (section_places r Hr) as [Hs Ho]. pose proof (place_bounds r Hr) as Hp. unfold apply_reloc.
  erewrite st_bind_run; [| by apply info_of].
  fold (address_of (reloc_section_index r)). fold (place_address r).
  erewrite st_bind_run; [| unfold lift; by rewrite final_value_run].
  set (o := offset _) in *.
  replace (u32 (u32 (place_address r) - address_of (reloc_section_index r) + o)) with (808 + place r).
  2: { rewrite <- Ho. rewrite <- (wrap_small 32 (o + reloc_section_offset r)) by lia.
       replace (o + reloc_section_offset r) with (place_address r - (address_of (reloc_section_index r) - o)) by (unfold place_address; lia).
       replace (u32 (place_address r) - address_of (reloc_section_index r) + o) with (u32 (place_address r) - (address_of (reloc_section_index r) - o)) by lia.
       unfold wrap. by rewrite (Zminus_mod (place_address r mod _)), Zmod_mod, <- Zminus_mod. }
  unfold image. erewrite st_bind_run. 2: { unfold on_file, zoom. rewrite fseek_run by lia. reflexivity. }
  eexists. unfold on_file, zoom. cbn [w_file output_file file_bytes]. rewrite fwrite_run by (done || lia).
  unfold patch. replace (Z.to_nat (808 + place r)) with (length (replicate 808 0) + Z.to_nat (place r))%nat by (rewrite length_replicate; lia).
  rewrite overwrite_app_l. done.
Qed.

Lemma apply_relocs_run S l : forall d p en nx cu la, Forall reloc_ok l -> len T + len D <= len d ->
  exists p', apply_relocs S l (image d p en nx cu la) = Ok (tt, image (foldl (patch S) d l) p' en nx cu la).
Proof.
  induction l as [|r l IH]; intros d p en nx cu la H Hd; [by eexists |]. apply Forall_cons in H as [Hr H].
  cbn [apply_relocs foldl]. destruct (apply_reloc_run S r d p en nx cu la Hr Hd) as [p1 E1].
  erewrite st_bind_run; [| exact E1]. apply IH; [done | by rewrite patch_length].
Qed.

(** ** The symbols of an executable *)

Definition type_of (s : Symbol) : Z := if l_section_index s =? TEXT_INDEX then STT_FUNC else STT_OBJECT.
Definition exec_symbol (next : Z) (s : Symbol) : ELF64Symbol :=
  mkELFSymbol next (ELF64_SYMBOL_TYPE_AND_BINDING (type_of s) (l_binding s)) 0 (l_section_index s)
    (u64 (i32 (symbol_address s))) (l_size s).
Fixpoint exec_symbols (next : Z) (l : list Symbol) : list ELF64Symbol :=
  match l with
  | [] => []
  | s :: l => exec_symbol next s :: exec_symbols (next + (len (l_name s) + 1)) l
  end.
(** The address of [_start], and the number of the last local symbol. *)
Definition new_entry (en : Z) (s : Symbol) : Z := if bool_decide (l_name s = bytes_of "_start") then i32 (symbol_address s) else en.
Fixpoint last_local (cu la : Z) (l : list Symbol) : Z :=
  match l with
  | [] => la
  | s :: l => last_local (cu + 1) (if l_binding s =? STB_LOCAL then cu else la) l
  end.

(** At the end of the file. *)
Definition image_end (d : list Z) := image d (808 + len d).

Lemma add_symbol_exec s d en nx cu la : (0 < length d)%nat -> l_section_index s ∈ [TEXT_INDEX; BSS_INDEX; DATA_INDEX] ->
  0 <= nx -> nx + (len (l_name s) + 1) < 2 ^ 31 -> 0 <= cu < 2 ^ 31 -> len d < 2 ^ 31 ->
  add_symbol (type_of s) (l_binding s) (l_section_index s) (l_name s) (symbol_address s) (l_size s) (image_end d en nx cu la) =
    Ok (tt, image_end (d ++ symbol_bytes (exec_symbol nx s)) (new_entry en s) (nx + (len (l_name s) + 1)) (cu + 1)
              (if l_binding s =? STB_LOCAL then cu else la)).
Proof.
  intros Hd Hs Hx Hnx Hcu Hl.
  assert (Es : u16 (l_section_index s) = l_section_index s).
  { repeat (apply elem_of_cons in Hs as [-> | Hs]; [done |]). by apply elem_of_nil in Hs. }
  assert (Ew : forall x, checked_fwrite (symbol_bytes x) (mkFile (replicate 808 0 ++ d) (808 + len d)) =
    Ok (tt, mkFile (replicate 808 0 ++ d ++ symbol_bytes x) (808 + len (d ++ symbol_bytes x)))).
  { intros x. rewrite fwrite_run by (done || lia).
    replace (Z.to_nat (808 + len d)) with (length (replicate 808 0 ++ d)) by (rewrite length_app, length_replicate; lia).
    rewrite overwrite_end, <- app_assoc. do 3 f_equal. rewrite length_app. lia. }
  unfold add_symbol, image_end, image. erewrite st_bind_run; [| reflexivity]. cbn [elf_type is_exec andb].
  unfold new_entry. destruct (bool_decide (l_name s = _)), (l_binding s =? STB_LOCAL).
  all: unfold modify; do 5 istep; rewrite Es, (wrap_small 32 (nx + _)), (wrap_small 32 (cu + 1)) by lia;
    unfold on_file, zoom; enorm; fold (exec_symbol nx s); by rewrite Ew.
Qed.

Lemma place_symbol_run s d en nx cu la : len T + len D < len d -> entry_ok s ->
  0 <= nx -> nx + (len (l_name s) + 1) < 2 ^ 31 -> 0 <= cu < 2 ^ 31 -> len d < 2 ^ 31 ->
  place_symbol s (image_end d en nx cu la) =
    Ok (tt, image_end (patch_symbol d s ++ symbol_bytes (exec_symbol nx s)) (new_entry en s) (nx + (len (l_name s) + 1)) (cu + 1)
              (if l_binding s =? STB_LOCAL then cu else la)).
Proof.
  intros Hd [_ Hs Hr _] Hx Hnx Hcu Hl. unfold place_symbol.
  erewrite st_bind_run; [| by apply info_of]. fold (address_of (l_section_index s)). fold (symbol_address s).
  erewrite st_bind_run.
  2: { unfold lift. assert (E : symbol_type (l_section_index s) = Ok (type_of s)).
       { unfold type_of. repeat (apply elem_of_cons in Hs as [-> | Hs]; [done |]). by apply elem_of_nil in Hs. }
       rewrite E. reflexivity. }
  erewrite st_bind_run; [| apply add_symbol_exec; (done || lia)].
  erewrite st_bind_run; [| reflexivity].
  set (d1 := d ++ symbol_bytes (exec_symbol nx s)).
  assert (Hd1 : len d1 = len d + 24) by (unfold d1; rewrite length_app, symbol_length; lia).
  destruct (apply_relocs_run (symbol_address s) (relocs s) d1 (808 + len d1) (new_entry en s) (nx + (len (l_name s) + 1)) (cu + 1)
    (if l_binding s =? STB_LOCAL then cu else la) Hr ltac:(unfold d1; rewrite length_app; lia)) as [p' E].
  erewrite st_bind_run; [| exact E]. unfold on_file, zoom. unfold image at 1.
  rewrite fseek_run by (cbn [file_pos output_file image image_end]; lia).
  cbn [output_file image image_end w_file file_bytes file_pos]. unfold image_end, image, patch_symbol.
  unfold d1. rewrite patches_app by (done || lia).
  rewrite !length_app, patches_length by (done || lia). done.
Qed.

(** A symbol of the program: defined, or a name that nothing refers to. *)
Definition unused (s : Symbol) : Prop := l_defined s = false /\ relocs s = [].
Definition placed (l : list Symbol) : list Symbol := filter l_defined l.

Lemma placed_cons s l : placed (s :: l) = if l_defined s then s :: placed l else placed l.
Proof. unfold placed. rewrite filter_cons. destruct (l_defined s); by case_decide. Qed.

Lemma placed_ok l : Forall (fun s => entry_ok s \/ unused s) l -> Forall entry_ok (placed l).
Proof.
  induction 1 as [|s l H _ IH]; [by apply Forall_nil |]. rewrite placed_cons. destruct (l_defined s) eqn:E; [| done].
  constructor; [| done]. destruct H as [H|[H _]]; [done | congruence].
Qed.

Lemma patch_symbols_app l e : forall d, Forall entry_ok l -> len T + len D <= len d ->
  foldl patch_symbol (d ++ e) l = foldl patch_symbol d l ++ e /\ length (foldl patch_symbol d l) = length d.
Proof.
  induction l as [|s l IH]; intros d H Hd; [done |]. apply Forall_cons in H as [[_ _ Hr _] H]. cbn [foldl].
  unfold patch_symbol at 2 4 6. rewrite patches_app by done.
  destruct (IH (foldl (patch (symbol_address s)) d (relocs s)) H) as [-> ->]; [by rewrite patches_length |].
  by rewrite patches_length.
Qed.

Lemma place_symbols_run l : forall d en nx cu la, len T + len D < len d -> Forall (fun s => entry_ok s \/ unused s) l ->
  0 <= nx -> nx + len (strings_bytes (l_name <$> placed l)) < 2 ^ 31 -> 0 <= cu -> cu + len l < 2 ^ 31 ->
  len d + 24 * len l < 2 ^ 31 ->
  place_symbols l (image_end d en nx cu la) =
    Ok (EXIT_CODE_SUCCESS, image_end (foldl patch_symbol d (placed l) ++ symbols_bytes (exec_symbols nx (placed l)))
      (foldl new_entry en (placed l)) (nx + len (strings_bytes (l_name <$> placed l))) (cu + len (placed l))
      (last_local cu la (placed l))).
Proof.
  induction l as [|s l IH]; intros d en nx cu la Hd H Hx Hnx Hcu Hcl Hl.
  { cbn. by rewrite app_nil_r, !Z.add_0_r. }
  apply Forall_cons in H as [Hs H]. cbn [place_symbols]. rewrite placed_cons in *. cbn [length] in *.
  destruct (l_defined s) eqn:Edef.
  2: { destruct Hs as [[? _ _ _] | [_ ->]]; [congruence |]. cbn [bool_decide]. by rewrite IH by (done || lia). }
  destruct Hs as [Hs | [? _]]; [| congruence].
  cbn [fmap list_fmap foldl last_local exec_symbols] in *. rewrite strings_cons, !length_app in *. cbn [length] in *.
  erewrite st_bind_run; [| apply place_symbol_run; (done || lia)].
  pose proof (ok_entry_relocs s Hs) as Hr.
  assert (Hp : length (patch_symbol d s) = length d) by (unfold patch_symbol; apply patches_length; (done || lia)).
  rewrite IH; [| rewrite length_app, symbol_length; lia | done | lia | lia | lia | lia | rewrite length_app, symbol_length; lia].
  destruct (patch_symbols_app (placed l) (symbol_bytes (exec_symbol nx s)) (patch_symbol d s)) as [-> _]; [by apply placed_ok | lia |].
  rewrite <- app_assoc. change (symbols_bytes (exec_symbol nx s :: _)) with
    (symbol_bytes (exec_symbol nx s) ++ symbols_bytes (exec_symbols (nx + (len (l_name s) + 1)) (placed l))).
  do 2 f_equal. f_equal; lia.
Qed.

(** A reference to a symbol that no input defines stops the linker. *)
Lemma place_symbols_undefined l1 s l2 d en nx cu la : len T + len D < len d -> Forall (fun s => entry_ok s \/ unused s) l1 ->
  l_defined s = false -> relocs s <> [] ->
  0 <= nx -> nx + len (strings_bytes (l_name <$> placed l1)) < 2 ^ 31 -> 0 <= cu -> cu + len l1 < 2 ^ 31 ->
  len d + 24 * len l1 < 2 ^ 31 ->
  exists e, place_symbols (l1 ++ s :: l2) (image_end d en nx cu la) = Ok (EXIT_CODE_LINKER_ERROR, e).
Proof.
  intros Hd H Hs Hr. revert d en nx cu la Hd. induction l1 as [|s1 l IH]; intros d en nx cu la Hd Hx Hnx Hcu Hcl Hl.
  { cbn [app place_symbols]. rewrite Hs. rewrite bool_decide_false by done. by eexists. }
  apply Forall_cons in H as [H1 H]. cbn [app place_symbols]. rewrite placed_cons in *. cbn [length] in *.
  destruct (l_defined s1) eqn:Edef.
  2: { destruct H1 as [[? _ _ _] | [_ ->]]; [congruence |]. cbn [bool_decide]. apply IH; (done || lia). }
  destruct H1 as [H1 | [? _]]; [| congruence].
  cbn [fmap list_fmap] in *. rewrite strings_cons, !length_app in *. cbn [length] in *.
  pose proof (ok_entry_relocs s1 H1) as Hr1.
  assert (Hp : length (patch_symbol d s1) = length d) by (unfold patch_symbol; apply patches_length; (done || lia)).
  edestruct (IH H) as [e E]; [| | | | | | exists e; erewrite st_bind_run; [exact E | apply place_symbol_run; (done || lia)]].
  all: try rewrite length_app, symbol_length; lia.
Qed.
End Image.

(** ** The headers of an executable *)

Definition exec_header (en : Z) : ELFHeader :=
  mkHeader ([0x7F; 69; 76; 70; 2; 1; 1] ++ replicate 9 0) 2 62 1 (u64 en) 640 64 0 64 56 3 64 9 6.
(** The text is readable and executable, the uninitialized and the initialized data
    are writable. *)
Definition program_headers (s1 s3 s4 : SectionInfo) : list Z :=
  program_header_bytes (segment s1 (size s1) 5) ++ program_header_bytes (segment s3 0 6) ++
  program_header_bytes (segment s4 (size s4) 6).

Lemma program_headers_length s1 s3 s4 : length (program_headers s1 s3 s4) = 168%nat.
Proof. unfold program_headers. by rewrite !length_app, !program_header_length. Qed.

Lemma write_program_headers_run Dx en nx cu la s0 s1 s2 s3 s4 s5 s6 s7 s8 p :
  write_program_headers (mkELF (mkFile (replicate 808 0 ++ Dx) p) ET_EXEC en nx cu la [s0; s1; s2; s3; s4; s5; s6; s7; s8]) =
    Ok (tt, mkELF (mkFile (replicate 640 0 ++ program_headers s1 s3 s4 ++ Dx) 808) ET_EXEC en nx cu la
              [s0; s1; s2; s3; s4; s5; s6; s7; s8]).
Proof.
  unfold write_program_headers. erewrite st_bind_run.
  2: { unfold on_file, zoom. rewrite fseek_run by (unfold HEADER_BYTES, SECTION_HEADER_BYTES, NUM_SECTIONS; lia). reflexivity. }
  cbn [w_file output_file file_bytes elf_type entry_point_virtual_address next_string_index curr_symbol_index
       last_local_symbol_index section_info].
  change (replicate 808 0 ++ Dx) with (replicate 640 0 ++ replicate (56 + 112) 0 ++ Dx).
  change (HEADER_BYTES + SECTION_HEADER_BYTES * NUM_SECTIONS) with (len (replicate 640 0)).
  erewrite st_bind_run; [| reflexivity].
  assert (W : forall h a n, on_file (checked_fwrite (program_header_bytes h))
      (mkELF (mkFile (a ++ replicate (56 + n) 0 ++ Dx) (len a)) ET_EXEC en nx cu la [s0; s1; s2; s3; s4; s5; s6; s7; s8]) =
    Ok (tt, mkELF (mkFile ((a ++ program_header_bytes h) ++ replicate n 0 ++ Dx) (len (a ++ program_header_bytes h)))
      ET_EXEC en nx cu la [s0; s1; s2; s3; s4; s5; s6; s7; s8])).
  { intros h a n. unfold on_file, zoom. cbn [output_file]. rewrite <- (program_header_length h) at 1.
    rewrite fwrite_over by (rewrite program_header_length; lia). done. }
  erewrite st_bind_run; [| apply (W _ _ 112%nat)]. erewrite st_bind_run; [| reflexivity].
  erewrite st_bind_run; [| apply (W _ _ 56%nat)]. erewrite st_bind_run; [| reflexivity].
  change (replicate 56 0) with (replicate (56 + 0) 0). rewrite W. change (replicate 0 0 ++ Dx) with Dx.
  rewrite !length_app, !program_header_length. unfold program_headers. rewrite <- !app_assoc. done.
Qed.

Lemma finish_strtab_exec Dx en nx cu la s0 s1 s2 s3 s4 s5 s6 s7 o v c : 0 < la < 2 ^ 31 -> en <> -1 ->
  0 <= o <= 808 + len Dx -> len Dx < 2 ^ 31 - 1000 -> Dx <> [] ->
  finish_strtab_section (mkELF (appended (mkFile [] 808) Dx) ET_EXEC en nx cu la
                           [s0; s1; s2; s3; s4; s5; s6; s7; mkSection 0 o v c]) =
    Ok (tt, mkELF (mkFile (header_bytes (exec_header en) ++
                           headers_bytes (section_headers s1 s2 s3 s4 s5 s6 s7 (mkSection (808 + len Dx - o) o v c) (la + 1)) ++
                           program_headers s1 s3 s4 ++ Dx) 640)
              ET_EXEC en nx cu la [s0; s1; s2; s3; s4; s5; s6; s7; mkSection (808 + len Dx - o) o v c]).
Proof.
  intros Hla Hen Ho HD Hne. destruct Dx as [|x D]; [done |]. unfold finish_strtab_section. istep.
  erewrite st_bind_run; [| apply (ftell_run (mkFile [] 808) (x :: D)); by split; [unfold at_end; cbn; lia |]].
  cbn [file_pos]. rewrite (wrap_small 32 (808 + _ - o)) by lia.
  set (s8 := mkSection (808 + len (x :: D) - o) o v c).
  istep. istep. cbn [is_exec]. fold s8.
  erewrite st_bind_run.
  2: { erewrite st_bind_run; [| unfold lift; destruct (Z.eqb_spec en (-1)); [done | reflexivity]].
       change (appended (mkFile [] 808) (x :: D)) with (mkFile (replicate 808 0 ++ x :: D) (808 + len (x :: D))).
       apply write_program_headers_run. }
  set (D' := program_headers s1 s3 s4 ++ x :: D).
  erewrite st_bind_run. 2: { unfold on_file, zoom. rewrite fseek_run by lia. reflexivity. }
  istep. istep. unfold file_header. cbn [elf_type is_exec entry_point_virtual_address].
  change (mkHeader _ _ _ _ _ _ _ _ _ _ _ _ _ _) with (exec_header en).
  pose proof (header_length (exec_header en) eq_refl) as Hh.
  pose proof (fwrite_over [] (header_bytes (exec_header en)) 576 D' ltac:(lia)) as Ew. rewrite Hh in Ew.
  change (len (@nil Z)) with 0 in Ew. change ([] ++ replicate (64 + 576) 0 ++ D') with (replicate 640 0 ++ D') in Ew.
  erewrite st_bind_run. 2: { unfold on_file, zoom. cbn [output_file file_bytes]. rewrite Ew. reflexivity. }
  erewrite st_bind_run. 2: { unfold on_file, zoom. rewrite fseek_run by (unfold HEADER_BYTES; lia). reflexivity. }
  enorm. cbn [file_bytes app].
  replace HEADER_BYTES with (len (header_bytes (exec_header en))) by (rewrite Hh; done).
  rewrite write_section_headers_run by done. rewrite length_app, headers_length, Hh. done.
Qed.

(** ** The executable of what was linked *)

Section Program.
Context (k : Link).
Abbreviation T := (l_text k).
Abbreviation D := (l_data k).
Definition program : list Symbol := placed (symbol_table k).

Definition image_contents : list Z := foldl (patch_symbol T D (l_bss_size k)) (contents_bytes T D [] []) program.
Definition image_symbols : list Z := symbols_bytes (exec_symbols T D (l_bss_size k) 1 program).
Definition image_strings : list Z := [0] ++ strings_bytes (l_name <$> symbol_table k).
Definition image_entry : Z := foldl (new_entry T D (l_bss_size k)) 0 program.
Definition image_sections : list SectionInfo :=
  let symtab := symtab_at 808 T D [] [] in
  take 7 (exec_infos T D (l_bss_size k)) ++
  [mkSection (24 + len image_symbols) symtab 0 None; mkSection (len image_strings) (symtab + 24 + len image_symbols) 0 None].

(** An executable: the header, the section headers, the program headers, the sections
    with the relocated places, the symbol table and the strings. *)
Definition exec_bytes : list Z :=
  let s i := default no_section (image_sections !! i) in
  header_bytes (exec_header image_entry) ++ headers_bytes (headers_of image_sections (last_local 1 0 program + 1)) ++
  program_headers (s 1%nat) (s 3%nat) (s 4%nat) ++ image_contents ++ image_symbols ++ image_strings.

Record program_ok : Prop := {
  ok_program_size : len T + len D + 24 * len (symbol_table k) + len image_strings + 3000 < 2 ^ 31;
  ok_program_symbols : Forall (fun s => entry_ok T D s \/ unused s) (symbol_table k);
  ok_program_names : Forall (fun s => Forall (fun c => 0 < c < 256) (l_name s)) (symbol_table k);
  ok_program_local : Exists (fun s => l_binding s = STB_LOCAL) program;
  ok_program_entry : image_entry <> -1
}.

Lemma last_local_bound l : forall cu la, 0 <= la < cu -> cu + len l < 2 ^ 31 ->
  (0 < la \/ Exists (fun s => l_binding s = STB_LOCAL) l) -> 0 < last_local cu la l < 2 ^ 31 - 1.
Proof.
  induction l as [|s l IH]; intros cu la Hla Hcu H; cbn [last_local length] in *.
  { destruct H as [H | H%Exists_nil]; [lia | done]. }
  apply IH; destruct (Z.eqb_spec (l_binding s) STB_LOCAL) as [E|E]; try lia.
  destruct H as [H | H]; [by left |]. apply Exists_cons in H as [H | H]; [congruence | by right].
Qed.

Lemma placed_length l : (length (placed l) <= length l)%nat.
Proof. apply length_filter. Qed.
Lemma placed_strings l : (length (strings_bytes (l_name <$> placed l)) <= length (strings_bytes (l_name <$> l)))%nat.
Proof.
  induction l as [|s l IH]; [done |]. rewrite placed_cons. cbn [fmap list_fmap]. rewrite strings_cons, length_app.
  destruct (l_defined s); [cbn [fmap list_fmap]; rewrite strings_cons, length_app; lia | lia].
Qed.
Lemma exec_symbols_length l tt_ dd bb : forall n, length (exec_symbols tt_ dd bb n l) = length l.
Proof. induction l as [|s l IH]; intros n; [done |]. cbn. by rewrite IH. Qed.

Lemma image_appended d : d <> [] -> mkFile (replicate 808 0 ++ d) (808 + len d) = appended (mkFile [] 808) d.
Proof. by destruct d. Qed.

(** Up to the last symbol. *)
Definition rest_of_executable : elf ExitCode :=
  finish_symtab_section;; add_strings (l_name <$> symbol_table k);; finish_strtab_section;; mret EXIT_CODE_SUCCESS.
Definition placed_image : ELFFile :=
  image_end T D (l_bss_size k) (image_contents ++ image_symbols) image_entry
    (1 + len (strings_bytes (l_name <$> program))) (1 + len program) (last_local 1 0 program).

Lemma program_contents_length : len (contents_bytes T D [] []) = len T + len D + 90.
Proof.
  pose proof (contents_bytes_length T D [] [] 808) as Hc. revert Hc.
  unfold symtab_at, shstrtab_at, rela_data_at, data_at, rela_text_at. cbn [length]. lia.
Qed.

Lemma executable_placed : program_ok -> executable k (init_elf_file empty_file ET_EXEC) = rest_of_executable placed_image.
Proof.
  intros [Hn Hsym _ _ _]. unfold image_strings in Hn. rewrite length_app in Hn. cbn [length] in Hn.
  pose proof (placed_length (symbol_table k)) as Hpl. pose proof (placed_strings (symbol_table k)) as Hps.
  unfold executable, init_elf_file. cbn [replicate]. rewrite (wrap_small 32 (len T)), (wrap_small 32 (len D)) by lia.
  do 5 istep.
  erewrite st_bind_run;
    [| apply (write_contents_run [] [] ET_EXEC 0 T D (l_bss_size k) [] [] (allocated T));
       [done | done | cbn [length]; lia | destruct T; [by right | by left]]].
  change (first_of ET_EXEC) with 808. fold (exec_infos T D (l_bss_size k)).
  pose proof program_contents_length as Hcl.
  assert (Hne : contents_bytes T D [] [] <> []) by (intros E; rewrite E in Hcl; cbn in Hcl; lia).
  rewrite <- image_appended by done. change (mkELF (mkFile _ _) _ _ _ _ _ _) with
    (image_end T D (l_bss_size k) (contents_bytes T D [] []) 0 1 1 0).
  erewrite st_bind_run; [| apply place_symbols_run; (done || lia)].
  case_decide; [reflexivity | done].
Qed.

Lemma image_lengths : program_ok -> len image_contents = len T + len D + 90 /\ len image_symbols = 24 * len program /\
  len program <= len (symbol_table k) /\ 0 < last_local 1 0 program < 2 ^ 31 - 1.
Proof.
  intros [Hn Hsym _ Hloc _]. unfold image_strings in Hn. rewrite length_app in Hn. cbn [length] in Hn.
  pose proof (placed_length (symbol_table k)) as Hpl. fold program in Hpl. split; [| split; [| split; [lia |]]].
  - destruct (patch_symbols_app T D (l_bss_size k) program [] (contents_bytes T D [] [])) as [_ E];
      [by apply placed_ok | rewrite program_contents_length; lia |]. unfold image_contents. rewrite E. apply program_contents_length.
  - unfold image_symbols. rewrite symbols_bytes_length, exec_symbols_length. lia.
  - apply last_local_bound; [lia | lia | by right].
Qed.

Lemma executable_run : program_ok ->
  exists e, executable k (init_elf_file empty_file ET_EXEC) = Ok (EXIT_CODE_SUCCESS, e) /\ output_file e = mkFile exec_bytes 640.
Proof.
  intros Hk. rewrite executable_placed by done. destruct (image_lengths Hk) as (HC & HY & Hpl & Hla).
  destruct Hk as [Hn _ Hnames _ Hen].
  assert (Es : symtab_at 808 T D [] [] = 808 + len T + len D + 66) by (unfold symtab_at, shstrtab_at, rela_data_at, data_at, rela_text_at; cbn [length]; lia).
  assert (HCne : image_contents ++ image_symbols <> []).
  { intros E. apply (f_equal length) in E. rewrite length_app in E. cbn [length] in E. lia. }
  unfold rest_of_executable, placed_image, image_end, image. rewrite image_appended by done. unfold exec_infos, laid_out.
  erewrite st_bind_run.
  2: { apply (finish_symtab_run (mkFile [] 808)); [unfold at_end; cbn; lia | rewrite length_app; cbn [file_pos]; lia
         | rewrite length_app; cbn [file_pos]; lia]. }
  erewrite st_bind_run.
  2: { apply (add_strings_run (mkFile [] 808) (l_name <$> symbol_table k) ((image_contents ++ image_symbols) ++ [0]));
         [by split; [unfold at_end; cbn; lia |] | by rewrite Forall_fmap]. }
  enorm. rewrite <- !app_assoc. change ([0] ++ strings_bytes _) with image_strings.
  change (file_pos (mkFile [] 808)) with 808.
  replace (808 + len (image_contents ++ image_symbols) - symtab_at 808 T D [] []) with (24 + len image_symbols)
    by (rewrite length_app; lia).
  replace (808 + len (image_contents ++ image_symbols)) with (symtab_at 808 T D [] [] + 24 + len image_symbols)
    by (rewrite length_app; lia).
  eexists. erewrite st_bind_run.
  2: { apply finish_strtab_exec; [lia | done | rewrite !length_app; lia | rewrite !length_app; lia |].
       intros E. rewrite app_assoc in E. by apply app_eq_nil in E as [? _]. }
  split; [reflexivity |]. cbn [output_file]. unfold exec_bytes, headers_of, image_sections, exec_infos, laid_out.
  cbn [take app lookup list_lookup default id].
  replace (808 + len (image_contents ++ image_symbols ++ image_strings) - _) with (len image_strings)
    by (rewrite !length_app; lia).
  done.
Qed.

(** The relocations of the program with the addresses of their symbols. *)
Definition program_relocs : list (Z * Relocation) :=
  program ≫= (fun s => (fun r => (symbol_address T D (l_bss_size k) s, r)) <$> relocs s).
Definition patch_pair (d : list Z) (p : Z * Relocation) : list Z := patch T D (l_bss_size k) p.1 d p.2.

Lemma image_contents_relocs : image_contents = foldl patch_pair (contents_bytes T D [] []) program_relocs.
Proof.
  unfold image_contents, program_relocs. generalize (contents_bytes T D [] []) as d. induction program as [|s l IH]; intros d; [done |].
  cbn [foldl mbind list_bind]. rewrite foldl_app, IH. f_equal. unfold patch_symbol. revert d.
  induction (relocs s) as [|r rs IHr]; intros d; [done |]. cbn [foldl fmap list_fmap]. by rewrite IHr.
Qed.

Definition covers (r : Relocation) (i : Z) : Prop := place T r <= i < place T r + 4.

Lemma overwrite_lookup d p x i : (p + length x <= length d)%nat ->
  overwrite d p x !! i = if decide (p <= i < p + length x)%nat then x !! (i - p)%nat else d !! i.
Proof.
  intros H. unfold overwrite. replace (p - length d)%nat with 0%nat by lia. cbn [replicate]. rewrite app_nil_r.
  assert (Ht : length (take p d) = p) by (rewrite length_take; lia).
  case_decide as Hi.
  - rewrite lookup_app_r by lia. rewrite Ht. rewrite lookup_app_l by lia. done.
  - destruct (decide (i < p)%nat).
    + rewrite lookup_app_l by lia. by rewrite lookup_take_lt.
    + rewrite lookup_app_r by lia. rewrite Ht, lookup_app_r by lia. rewrite lookup_drop. f_equal. lia.
Qed.

Lemma patch_pair_lookup d p i : reloc_ok T D p.2 -> len T + len D <= len d ->
  patch_pair d p !! i = if decide (covers p.2 (Z.of_nat i)) then le_bytes (reloc_value T D (l_bss_size k) p.1 p.2) 4 !! (i - Z.to_nat (place T p.2))%nat
                        else d !! i.
Proof.
  intros Hr Hd. pose proof (place_bounds T D p.2 Hr) as Hp. unfold patch_pair, patch, covers.
  rewrite overwrite_lookup by (rewrite le_bytes_length; lia). rewrite le_bytes_length. do 2 case_decide; (done || lia).
Qed.

Lemma patch_pairs_other l i : forall d, Forall (fun p => reloc_ok T D p.2) l -> len T + len D <= len d ->
  Forall (fun p => ~ covers p.2 (Z.of_nat i)) l -> foldl patch_pair d l !! i = d !! i.
Proof.
  induction l as [|p l IH]; intros d Hok Hd Hc; [done |]. apply Forall_cons in Hok as [Hp Hok]. apply Forall_cons in Hc as [Hi Hc].
  cbn [foldl]. rewrite IH; [| done | unfold patch_pair; by rewrite patch_length | done].
  rewrite patch_pair_lookup by done. by case_decide.
Qed.

Lemma patch_pairs_length l : forall d, Forall (fun p => reloc_ok T D p.2) l -> len T + len D <= len d ->
  length (foldl patch_pair d l) = length d.
Proof.
  induction l as [|p l IH]; intros d Hok Hd; [done |]. apply Forall_cons in Hok as [Hp Hok]. cbn [foldl].
  assert (E : length (patch_pair d p) = length d) by (unfold patch_pair; by rewrite patch_length).
  rewrite IH by (done || lia). done.
Qed.

(** Another relocation of the program writes elsewhere. *)
Definition apart (p q : Z * Relocation) : Prop :=
  p = q \/ place T p.2 + 4 <= place T q.2 \/ place T q.2 + 4 <= place T p.2.

Lemma patch_pairs_hit q i l : forall d, Forall (fun p => reloc_ok T D p.2) l -> len T + len D <= len d ->
  q ∈ l -> Forall (fun p => apart p q) l -> covers q.2 (Z.of_nat i) ->
  foldl patch_pair d l !! i = le_bytes (reloc_value T D (l_bss_size k) q.1 q.2) 4 !! (i - Z.to_nat (place T q.2))%nat.
Proof.
  induction l as [|p l IH] using rev_ind; intros d Hok Hd Hq Ha Hi; [by apply elem_of_nil in Hq |].
  apply Forall_app in Hok as [Hok [Hp _]%Forall_cons]. apply Forall_app in Ha as [Ha [Hpq _]%Forall_cons].
  rewrite foldl_snoc, (patch_pair_lookup _ p i Hp) by (rewrite patch_pairs_length by done; lia).
  case_decide as Hc.
  - destruct Hpq as [-> | Hpq]; [done |]. unfold covers in *. lia.
  - apply elem_of_app in Hq as [Hq | Hq%list_elem_of_singleton]; [by apply IH | congruence].
Qed.

Lemma program_relocs_ok : program_ok -> Forall (fun p => reloc_ok T D p.2) program_relocs.
Proof.
  intros H. unfold program_relocs, program. pose proof (placed_ok T D _ (ok_program_symbols H)) as Hp.
  induction Hp as [|s l [_ _ Hr _] _ IH]; [by apply Forall_nil |]. cbn [mbind list_bind].
  apply Forall_app. split; [| exact IH]. by rewrite Forall_fmap.
Qed.

Lemma contents_room : len T + len D <= len (contents_bytes T D [] []).
Proof. pose proof (contents_bytes_length T D [] [] 808) as H. revert H. unfold symtab_at, shstrtab_at, rela_data_at, data_at, rela_text_at. cbn [length]. lia. Qed.
End Program.

Lemma no_link_input (l : list Input) : linkable_inputs (mkLink empty_file [] [] 0 []) l -> forall out,
  match link_inputs (mkLink empty_file [] [] 0 []) l with
  | Some k => exists f, link_elf_executable (Some out) ((fun i => Some (input_bytes i)) <$> l) =
      ('(result, e) ← executable (w_input k f) (init_elf_file out ET_EXEC); Ok (result, Some (output_file e)))
  | None => link_elf_executable (Some out) ((fun i => Some (input_bytes i)) <$> l) = Ok (EXIT_CODE_LINKER_ERROR, Some out)
  end.
Proof.
  intros Hl out. pose proof (process_inputs_run l _ Hl) as H. unfold link_elf_executable.
  destruct (link_inputs _ l) as [k|].
  - destruct H as [f H]. exists f. rewrite H. cbn [mbind res_bind]. by case_decide.
  - destruct H as [k H]. rewrite H. cbn [mbind res_bind]. by case_decide.
Qed.

(** C4: linking object files that the writer made gives the executable of the
    program they make together: its headers, the texts and data one after the other
    with every relocated place patched, the defined symbols with their addresses and
    the names; a symbol that two inputs define stops the linker with its error code
    and leaves the output alone. *)
Theorem link_executable (l : list Input) : linkable_inputs (mkLink empty_file [] [] 0 []) l ->
  let result := link_elf_executable (Some empty_file) ((fun i => Some (input_bytes i)) <$> l) in
  match link_inputs (mkLink empty_file [] [] 0 []) l with
  | Some k => program_ok k -> result = Ok (EXIT_CODE_SUCCESS, Some (mkFile (exec_bytes k) 640))
  | None => result = Ok (EXIT_CODE_LINKER_ERROR, Some empty_file)
  end.
Proof.
  intros Hl. pose proof (no_link_input l Hl empty_file) as H. cbv zeta. destruct (link_inputs _ l) as [k|]; [| exact H].
  intros Hk. destruct H as [f H]. rewrite H. change (executable (w_input k f)) with (executable k).
  destruct (executable_run k Hk) as (e & E & Ho). rewrite E. cbn [mbind res_bind]. by rewrite Ho.
Qed.

Lemma exec_bytes_contents k : exists a c, exec_bytes k = a ++ image_contents k ++ c /\ length a = 808%nat.
Proof.
  unfold exec_bytes. cbv zeta. do 2 eexists. split; [by rewrite !(app_assoc _ _ (image_contents k ++ _)) |].
  rewrite !length_app, program_headers_length, header_length by done. unfold headers_of. by rewrite headers_length.
Qed.

Lemma image_contents_length k : program_ok k -> length (image_contents k) = length (contents_bytes (l_text k) (l_data k) [] []).
Proof. intros Hk. rewrite image_contents_relocs. apply patch_pairs_length; [by apply program_relocs_ok | apply contents_room]. Qed.

(** The place of a relocation among the patched contents. *)
Lemma patched_place k q : program_ok k -> q ∈ program_relocs k -> Forall (fun p => apart k p q) (program_relocs k) ->
  take 4 (drop (Z.to_nat (place (l_text k) q.2)) (image_contents k)) =
    le_bytes (reloc_value (l_text k) (l_data k) (l_bss_size k) q.1 q.2) 4 /\
  (Z.to_nat (place (l_text k) q.2) + 4 <= length (image_contents k))%nat.
Proof.
  intros Hk Hq Ha. pose proof (program_relocs_ok k Hk) as Hok. pose proof (contents_room k) as Hroom.
  assert (Hr : reloc_ok (l_text k) (l_data k) q.2) by (rewrite Forall_forall in Hok; by apply Hok).
  pose proof (place_bounds _ _ _ Hr) as Hp. rewrite image_contents_length by done. split; [| lia].
  apply list_eq_same_length with 4%nat; [by rewrite le_bytes_length | |].
  { rewrite length_take, length_drop, image_contents_length by done. lia. }
  intros i x y Hi Hx Hy. rewrite lookup_take_lt in Hx by lia. rewrite lookup_drop, image_contents_relocs in Hx.
  rewrite (patch_pairs_hit k q) in Hx by (done || (unfold covers; lia)).
  replace (_ + i - _)%nat with i in Hx by lia. congruence.
Qed.

(** C6: in the executable the linker writes, the four bytes at every relocated place
    hold S + A - P for a relative relocation and S + A for an absolute one, S the
    address of the symbol, A the addend and P the address of the place; every other
    byte of the sections is the inputs' byte. *)
Theorem relocated_places k : program_ok k ->
  exists e, executable k (init_elf_file empty_file ET_EXEC) = Ok (EXIT_CODE_SUCCESS, e) /\
  (forall q, q ∈ program_relocs k -> Forall (fun p => apart k p q) (program_relocs k) ->
     take 4 (drop (808 + Z.to_nat (place (l_text k) q.2)) (file_bytes (output_file e))) =
       le_bytes (reloc_value (l_text k) (l_data k) (l_bss_size k) q.1 q.2) 4) /\
  (forall i x, contents_bytes (l_text k) (l_data k) [] [] !! i = Some x ->
     Forall (fun p => ~ covers k p.2 (Z.of_nat i)) (program_relocs k) -> file_bytes (output_file e) !! (808 + i)%nat = Some x).
Proof.
  intros Hk. destruct (executable_run k Hk) as (e & E & Ho). exists e. split; [exact E |]. rewrite Ho. cbn [file_bytes].
  destruct (exec_bytes_contents k) as (a & c & -> & <-). split.
  - intros q Hq Ha. destruct (patched_place k q Hk Hq Ha) as [Hp Hl]. rewrite <- Hp.
    rewrite drop_app_ge by lia. replace (length a + _ - length a)%nat with (Z.to_nat (place (l_text k) q.2)) by lia.
    rewrite drop_app_le by lia. rewrite take_app_le by (rewrite length_drop; lia). done.
  - intros i x Hx Hi. pose proof (lookup_lt_Some _ _ _ Hx). rewrite lookup_app_r by lia.
    replace (length a + i - length a)%nat with i by lia. rewrite lookup_app_l by (rewrite image_contents_length by done; lia).
    rewrite image_contents_relocs, patch_pairs_other; [exact Hx | by apply program_relocs_ok | apply contents_room | exact Hi].
Qed.

(** ** A program of two files *)

(** [_start] calls [g] of the second file, whose data holds its address. *)
Definition main_module : AsmModule :=
  mkAsmModule "m.s" [] [0xE8; 0; 0; 0; 0; 0xC3] [] 0
    [mkAsmSymbol "_start" TEXT_SECTION true ASM_GLOBAL_LINKAGE 1 0 6; mkAsmSymbol "L" TEXT_SECTION true ASM_LOCAL_LINKAGE 2 5 1;
     mkAsmSymbol "g" UNKNOWN_SECTION false ASM_GLOBAL_LINKAGE 3 0 0]
    [mkFixup FIXUP_RELATIVE TEXT_SECTION 1 5 4 2].
Definition g_module : AsmModule :=
  mkAsmModule "g.s" [] [0xC3] [0; 0; 0; 0; 0; 0; 0; 0] 16
    [mkAsmSymbol "g" TEXT_SECTION true ASM_GLOBAL_LINKAGE 1 0 1]
    [mkFixup FIXUP_ABSOLUTE DATA_SECTION 0 0 8 0].
Definition two_inputs : list Input :=
  [(main_module, [mkRela 1 (3 * 2 ^ 32 + 2) 4294967292], []); (g_module, [], [mkRela 0 (2 ^ 32 + 1) 0])].
Definition main_linked : Link :=
  mkLink empty_file [0xE8; 0; 0; 0; 0; 0xC3] [] 0
    [mkSymbol true (bytes_of "_start") [] STB_GLOBAL TEXT_INDEX 0 6; mkSymbol true (bytes_of "L") [] STB_LOCAL TEXT_INDEX 5 1;
     mkSymbol false (bytes_of "g") [mkReloc R_X86_64_PC32 TEXT_INDEX 1 (-4)] STB_GLOBAL 0 0 0].
Definition two_linked : Link :=
  mkLink empty_file [0xE8; 0; 0; 0; 0; 0xC3; 0xC3] [0; 0; 0; 0; 0; 0; 0; 0] 16
    [mkSymbol true (bytes_of "_start") [] STB_GLOBAL TEXT_INDEX 0 6; mkSymbol true (bytes_of "L") [] STB_LOCAL TEXT_INDEX 5 1;
     mkSymbol true (bytes_of "g") [mkReloc R_X86_64_PC32 TEXT_INDEX 1 (-4); mkReloc R_X86_64_64 DATA_INDEX 0 0] STB_GLOBAL TEXT_INDEX 6 1].

Lemma two_inputs_linked : link_inputs (mkLink empty_file [] [] 0 []) two_inputs = Some two_linked.
Proof. reflexivity. Qed.

Ltac names_tac := by apply (bool_decide_unpack _); vm_compute.

Lemma two_inputs_linkable : linkable_inputs (mkLink empty_file [] [] 0 []) two_inputs.
Proof.
  cbn [linkable_inputs two_inputs]. split.
  { constructor; [constructor | | | | | | | |].
    1, 2: reflexivity.
    1: repeat (apply Forall_cons; split); try by apply Forall_nil. 
    1-3: constructor; [by eexists | cbn; lia | cbn; lia | names_tac].
    1: names_tac. all: try (cbn; lia).
    - intros [|[|[|i]]] s [= <-]; done.
    - apply Forall_cons; split; [constructor; cbn; lia | by apply Forall_nil]. }
  change (link_module _ main_module) with (Some main_linked). cbv iota. split; [| by destruct (link_module _ _)].
  constructor; [constructor | | | | | | | |].
  1, 2: reflexivity.
  1: apply Forall_cons; split; [| by apply Forall_nil]; constructor; [by eexists | cbn; lia | cbn; lia | names_tac].
  1: names_tac. all: try (cbn; lia).
  - intros [|i] s [= <-]; done.
  - apply Forall_cons; split; [constructor; cbn; lia | by apply Forall_nil].
Qed.

Lemma two_linked_ok : program_ok two_linked.
Proof.
  constructor; [cbn; lia | | | |].
  - apply Forall_cons; split; [| apply Forall_cons; split; [| apply Forall_cons; split; [| by apply Forall_nil]]].
    all: left; constructor; [done | set_solver | | names_tac].
    1, 2: by apply Forall_nil.
    apply Forall_cons; split; [| apply Forall_cons; split; [| by apply Forall_nil]].
    all: constructor; [set_solver | | cbn; lia].
    + left. cbn. lia.
    + right. cbn. lia.
  - apply Forall_cons; split; [names_tac | apply Forall_cons; split; [names_tac | apply Forall_cons; split; [names_tac | by apply Forall_nil]]].
  - apply Exists_cons. right. apply Exists_cons. by left.
  - by vm_compute.
Qed.

Lemma link_executable_witness :
  link_elf_executable (Some empty_file) ((fun i => Some (input_bytes i)) <$> two_inputs) =
    Ok (EXIT_CODE_SUCCESS, Some (mkFile (exec_bytes two_linked) 640)) /\
  take 7 (drop 808 (exec_bytes two_linked)) = [0xE8; 1; 0; 0; 0; 0xC3; 0xC3].
Proof.
  split; [| by vm_compute]. pose proof (link_executable two_inputs two_inputs_linkable) as H.
  rewrite two_inputs_linked in H. exact (H two_linked_ok).
Defined.

Lemma two_linked_relocs : program_relocs two_linked =
  [(0x8000000 + 814, mkReloc R_X86_64_PC32 TEXT_INDEX 1 (-4)); (0x8000000 + 814, mkReloc R_X86_64_64 DATA_INDEX 0 0)].
Proof. reflexivity. Qed.

Lemma relocated_places_witness : exists e,
  executable two_linked (init_elf_file empty_file ET_EXEC) = Ok (EXIT_CODE_SUCCESS, e) /\
  take 4 (drop 809 (file_bytes (output_file e))) = [1; 0; 0; 0].
Proof.
  destruct (relocated_places two_linked two_linked_ok) as (e & E & H & _). exists e. split; [exact E |].
  specialize (H (0x8000000 + 814, mkReloc R_X86_64_PC32 TEXT_INDEX 1 (-4))). rewrite two_linked_relocs in H. apply H; [by left |].
  apply Forall_cons; split; [by left | apply Forall_cons; split; [right; right; by vm_compute | by apply Forall_nil]].
Defined.

(** ** Behaviours of the code worth knowing *)

(** Inputs whose symbols are all global do not link: the writer of section headers
    asserts that a local symbol was added, and the linker drops the file symbols. *)
Example link_without_locals :
  link_elf_executable (Some empty_file) [Some (object_bytes g_module [] [mkRela 0 (2 ^ 32 + 1) 0])] = ICE.
Proof. by vm_compute. Qed.

(** A program without [_start] links, with 0 for its entry point. *)
Definition no_start : AsmModule :=
  mkAsmModule "n.s" [] [0xC3] [] 0 [mkAsmSymbol "L" TEXT_SECTION true ASM_LOCAL_LINKAGE 1 0 1] [].
Example link_without_start : exists f, link_elf_executable (Some empty_file) [Some (object_bytes no_start [] [])] =
  Ok (EXIT_CODE_SUCCESS, Some f) /\ entry_point <$> read_header (file_bytes f) = Some 0.
Proof. eexists. split; [by vm_compute | reflexivity]. Qed.

(** The name of an undefined symbol that nothing uses is among the strings but not
    counted by the symbols, so the names after it are wrong: the entry of [L] says
    ["x"]. *)
Definition extra_name : AsmModule :=
  mkAsmModule "n.s" [] [0xC3] [] 0
    [mkAsmSymbol "x" UNKNOWN_SECTION false ASM_GLOBAL_LINKAGE 1 0 0; mkAsmSymbol "L" TEXT_SECTION true ASM_LOCAL_LINKAGE 2 0 1] [].
Example name_of_next_symbol : exists k, link_inputs (mkLink empty_file [] [] 0 []) [(extra_name, [], [])] = Some k /\
  string_at (image_strings k) (strtab_index_for_name (exec_symbol (l_text k) (l_data k) 0 1 (default (mkSymbol true [] [] 0 0 0 0) (head (program k))))) =
    Ok (bytes_of "x") /\ l_name <$> head (program k) = Some (bytes_of "L").
Proof. eexists. split; [reflexivity |]. split; by vm_compute. Qed.

(** A file that is too short, and one of another architecture, count as linked. *)
Example short_file_links : process_elf_file (mkLink (mkFile ELF_MAGIC 0) [] [] 0 []) =
  Ok (EXIT_CODE_SUCCESS, mkLink (mkFile ELF_MAGIC 4) [] [] 0 []).
Proof. reflexivity. Qed.
Example other_architecture_links : exists k,
  process_elf_file (mkLink (mkFile (header_bytes (mkHeader (ELF_MAGIC ++ replicate 12 0) 1 40 1 0 0 64 0 64 56 0 64 9 6)) 0) [] [] 0 []) =
    Ok (EXIT_CODE_SUCCESS, k) /\ l_text k = [].
Proof. eexists. split; [by vm_compute | done]. Qed.

(** The addend -4 of a call is stored as an unsigned 32-bit number in the file. *)
Example addend_zero_extended :
  rela_addend <$> (match text_rela (symbols main_module) (mkFixup FIXUP_RELATIVE TEXT_SECTION 1 5 4 2) with Ok (Some r) => Some r | _ => None end) =
    Some 4294967292.
Proof. reflexivity. Qed.

(** The assertion that a fixup of the data is absolute is an assignment: a relative
    one is written as an absolute relocation. *)
Example relative_data_fixup :
  data_rela (symbols g_module) (mkFixup FIXUP_RELATIVE DATA_SECTION 0 4 4 0) = Ok (Some (mkRela 0 (2 ^ 32 + 1) 0)).
Proof. reflexivity. Qed.
