(* ===== verification/Ast.v ===== *)
(** * The syntax tree ([src/src/syntax/ast.h])

    The inductive types follow the structs of the header: a tag with its union
    is one type with a constructor per tag, a [next] chain is a list, a pointer
    that may be NULL is an option. [INVALID_STRING] is [None]. The characters of a
    string literal are given without the terminator the lexer stores behind them.
    [expr_size] and its companions count nodes; they bound every recursion over
    the tree. *)

From Stdlib Require Import SpecFloat.
From S2P Require Import Prelude.

(** [NumericSuffix] values are those of the lexer. *)
Record IntLiteral := mkIntLiteral { int_value : Z; int_suffix : Z }.
Record FloatLiteral := mkFloatLiteral { float_value : spec_float; float_suffix : Z }.

Inductive ASTStorageClassSpecifier :=
| TYPEDEF_SPECIFIER | EXTERN_SPECIFIER | STATIC_SPECIFIER | AUTO_SPECIFIER | REGISTER_SPECIFIER.
Inductive ASTTypeQualifier := CONST_QUALIFIER | RESTRICT_QUALIFIER | VOLATILE_QUALIFIER.
Inductive ASTFunctionSpecifier := INLINE_SPECIFIER.

#[export] Instance ASTStorageClassSpecifier_eq_dec : EqDecision ASTStorageClassSpecifier.
Proof. solve_decision. Defined.

Inductive ASTExpr :=
| INT_LITERAL_EXPR (int_literal : IntLiteral)
| FLOAT_LITERAL_EXPR (float_literal : FloatLiteral)
| STRING_LITERAL_EXPR (string_literal : list Z)
| IDENTIFIER_EXPR (identifier : string)
| STRUCT_DOT_FIELD_EXPR (struct_expr : ASTExpr) (field_name : string)
| STRUCT_ARROW_FIELD_EXPR (struct_expr : ASTExpr) (field_name : string)
| INDEX_EXPR (arg1 arg2 : ASTExpr)
| FUNCTION_CALL_EXPR (callee : ASTExpr) (arg_list : list ASTExpr)
| POST_INCREMENT_EXPR (unary_arg : ASTExpr)
| POST_DECREMENT_EXPR (unary_arg : ASTExpr)
| PRE_INCREMENT_EXPR (unary_arg : ASTExpr)
| PRE_DECREMENT_EXPR (unary_arg : ASTExpr)
| ADDRESS_OF_EXPR (unary_arg : ASTExpr)
| DEREF_EXPR (unary_arg : ASTExpr)
| UNARY_PLUS_EXPR (unary_arg : ASTExpr)
| UNARY_MINUS_EXPR (unary_arg : ASTExpr)
| BIT_NOT_EXPR (unary_arg : ASTExpr)
| LOGICAL_NOT_EXPR (unary_arg : ASTExpr)
| CAST_EXPR (cast_type : ASTTypeName) (arg : ASTExpr)
| SIZEOF_EXPR_EXPR (unary_arg : ASTExpr)
| SIZEOF_TYPE_EXPR (type : ASTTypeName)
| MULTIPLY_EXPR (arg1 arg2 : ASTExpr)
| DIVIDE_EXPR (arg1 arg2 : ASTExpr)
| MODULO_EXPR (arg1 arg2 : ASTExpr)
| ADD_EXPR (arg1 arg2 : ASTExpr)
| MINUS_EXPR (arg1 arg2 : ASTExpr)
| LEFT_SHIFT_EXPR (arg1 arg2 : ASTExpr)
| RIGHT_SHIFT_EXPR (arg1 arg2 : ASTExpr)
| LESS_THAN_EXPR (arg1 arg2 : ASTExpr)
| GREATER_THAN_EXPR (arg1 arg2 : ASTExpr)
| LESS_THAN_OR_EQUAL_EXPR (arg1 arg2 : ASTExpr)
| GREATER_THAN_OR_EQUAL_EXPR (arg1 arg2 : ASTExpr)
| EQUAL_EXPR (arg1 arg2 : ASTExpr)
| NOT_EQUAL_EXPR (arg1 arg2 : ASTExpr)
| BIT_AND_EXPR (arg1 arg2 : ASTExpr)
| BIT_XOR_EXPR (arg1 arg2 : ASTExpr)
| BIT_OR_EXPR (arg1 arg2 : ASTExpr)
| LOGICAL_AND_EXPR (arg1 arg2 : ASTExpr)
| LOGICAL_OR_EXPR (arg1 arg2 : ASTExpr)
| CONDITIONAL_EXPR (arg1 arg2 arg3 : ASTExpr)
| COMPOUND_EXPR (type_name : ASTTypeName) (initializer_element_list : list ASTInitializerElement)
| ASSIGN_EXPR (arg1 arg2 : ASTExpr)
| MULTIPLY_ASSIGN_EXPR (arg1 arg2 : ASTExpr)
| DIVIDE_ASSIGN_EXPR (arg1 arg2 : ASTExpr)
| MODULO_ASSIGN_EXPR (arg1 arg2 : ASTExpr)
| ADD_ASSIGN_EXPR (arg1 arg2 : ASTExpr)
| MINUS_ASSIGN_EXPR (arg1 arg2 : ASTExpr)
| LEFT_SHIFT_ASSIGN_EXPR (arg1 arg2 : ASTExpr)
| RIGHT_SHIFT_ASSIGN_EXPR (arg1 arg2 : ASTExpr)
| BIT_AND_ASSIGN_EXPR (arg1 arg2 : ASTExpr)
| BIT_XOR_ASSIGN_EXPR (arg1 arg2 : ASTExpr)
| BIT_OR_ASSIGN_EXPR (arg1 arg2 : ASTExpr)
| COMMA_EXPR (arg1 arg2 : ASTExpr)
| BUILTIN_VA_ARG_EXPR (va_list_expr : ASTExpr) (type_name : ASTTypeName)
with ASTTypeName :=
| mkTypeName (decl_specifier_list : list ASTDeclSpecifier) (declarator : option ASTDeclarator)
with ASTDeclSpecifier :=
| STORAGE_CLASS_SPECIFIER (storage_class_specifier : ASTStorageClassSpecifier)
| TYPE_SPECIFIER (type_specifier : ASTTypeSpecifier)
| TYPE_QUALIFIER (type_qualifier : ASTTypeQualifier)
| FUNCTION_SPECIFIER (function_specifier : ASTFunctionSpecifier)
with ASTTypeSpecifier :=
| NAMED_TYPE_SPECIFIER (name : string)
| STRUCT_TYPE_SPECIFIER (name : option string) (field_list : list ASTFieldDecl) (attribute : option string)
| UNION_TYPE_SPECIFIER (name : option string) (field_list : list ASTFieldDecl) (attribute : option string)
| ENUM_TYPE_SPECIFIER (name : option string) (enumerator_list : list ASTEnumerator)
with ASTFieldDecl :=
| mkFieldDecl (decl_specifier_list : list ASTDeclSpecifier)
    (field_declarator_list : list ASTFieldDeclarator)
with ASTFieldDeclarator :=
| BITFIELD_FIELD_DECLARATOR (declarator : option ASTDeclarator) (width : ASTExpr)
| NORMAL_FIELD_DECLARATOR (declarator : ASTDeclarator)
with ASTEnumerator :=
| mkEnumerator (name : string) (value : option ASTExpr)
with ASTDeclarator :=
| POINTER_DECLARATOR (pointee : option ASTDeclarator)
| DIRECT_DECLARATOR (direct_declarator : ASTDirectDeclarator)
with ASTDirectDeclarator :=
| DECLARATOR (declarator : ASTDeclarator)
| IDENTIFIER_DECLARATOR (name : option string)
| ARRAY_DECLARATOR (element_declarator : ASTDirectDeclarator) (array_length : option ASTExpr)
| FUNCTION_DECLARATOR (declarator : ASTDirectDeclarator) (parameters : list ASTParameterDecl)
with ASTParameterDecl :=
| PARAMETER_DECL (decl_specifier_list : list ASTDeclSpecifier) (declarator : option ASTDeclarator)
| ELLIPSIS_DECL
with ASTInitializer :=
| EXPR_INITIALIZER (expr : ASTExpr)
| BRACE_INITIALIZER (initializer_element_list : list ASTInitializerElement)
with ASTInitializerElement :=
| mkInitElement (designator_list : list ASTDesignator) (init : ASTInitializer)
with ASTDesignator :=
| INDEX_DESIGNATOR (index_expr : ASTExpr)
| FIELD_DESIGNATOR (field_name : string).

Record ASTInitDeclarator := mkInitDeclarator {
  id_declarator : ASTDeclarator;
  id_initializer : option ASTInitializer
}.
Record ASTDecl := mkDecl {
  d_specifiers : list ASTDeclSpecifier;
  d_init_declarators : list ASTInitDeclarator
}.

Inductive ASTForInit := FOR_INIT_DECL (decl : ASTDecl) | FOR_INIT_EXPR (expr : option ASTExpr).

Inductive ASTStatement :=
| EMPTY_STATEMENT
| LABELED_STATEMENT (label_name : string) (statement : ASTStatement)
| CASE_STATEMENT (expr : ASTExpr) (statement : ASTStatement)
| COMPOUND_STATEMENT (block_item_list : list ASTBlockItem)
| EXPR_STATEMENT (expr : ASTExpr)
| IF_STATEMENT (condition : ASTExpr) (then_statement : ASTStatement) (else_statement : option ASTStatement)
| SWITCH_STATEMENT (expr : ASTExpr) (statement : ASTStatement)
| WHILE_STATEMENT (expr : ASTExpr) (statement : ASTStatement)
| DO_WHILE_STATEMENT (expr : ASTExpr) (statement : ASTStatement)
| FOR_STATEMENT (init : ASTForInit) (condition update_expr : option ASTExpr) (body : ASTStatement)
| GOTO_STATEMENT (goto_label : string)
| CONTINUE_STATEMENT
| BREAK_STATEMENT
| RETURN_STATEMENT (expr : option ASTExpr)
with ASTBlockItem :=
| BLOCK_ITEM_DECL (decl : ASTDecl)
| BLOCK_ITEM_STATEMENT (statement : ASTStatement).

Record ASTFunctionDef := mkFunctionDef {
  f_specifiers : list ASTDeclSpecifier;
  f_declarator : ASTDeclarator;
  f_old_style_param_decl_list : list ASTDecl;
  f_body : ASTStatement
}.
Inductive ASTToplevel := FUNCTION_DEF (function_def : ASTFunctionDef) | DECL (decl : ASTDecl).

(** ** Sizes *)

Local Open Scope nat_scope.

Fixpoint expr_size (e : ASTExpr) : nat :=
  match e with
  | INT_LITERAL_EXPR _ | FLOAT_LITERAL_EXPR _ | STRING_LITERAL_EXPR _ | IDENTIFIER_EXPR _ => 1
  | STRUCT_DOT_FIELD_EXPR a _ | STRUCT_ARROW_FIELD_EXPR a _ | POST_INCREMENT_EXPR a
  | POST_DECREMENT_EXPR a | PRE_INCREMENT_EXPR a | PRE_DECREMENT_EXPR a | ADDRESS_OF_EXPR a
  | DEREF_EXPR a | UNARY_PLUS_EXPR a | UNARY_MINUS_EXPR a | BIT_NOT_EXPR a | LOGICAL_NOT_EXPR a
  | SIZEOF_EXPR_EXPR a => S (expr_size a)
  | INDEX_EXPR a b | MULTIPLY_EXPR a b | DIVIDE_EXPR a b | MODULO_EXPR a b | ADD_EXPR a b
  | MINUS_EXPR a b | LEFT_SHIFT_EXPR a b | RIGHT_SHIFT_EXPR a b | LESS_THAN_EXPR a b
  | GREATER_THAN_EXPR a b | LESS_THAN_OR_EQUAL_EXPR a b | GREATER_THAN_OR_EQUAL_EXPR a b
  | EQUAL_EXPR a b | NOT_EQUAL_EXPR a b | BIT_AND_EXPR a b | BIT_XOR_EXPR a b | BIT_OR_EXPR a b
  | LOGICAL_AND_EXPR a b | LOGICAL_OR_EXPR a b | ASSIGN_EXPR a b | MULTIPLY_ASSIGN_EXPR a b
  | DIVIDE_ASSIGN_EXPR a b | MODULO_ASSIGN_EXPR a b | ADD_ASSIGN_EXPR a b | MINUS_ASSIGN_EXPR a b
  | LEFT_SHIFT_ASSIGN_EXPR a b | RIGHT_SHIFT_ASSIGN_EXPR a b | BIT_AND_ASSIGN_EXPR a b
  | BIT_XOR_ASSIGN_EXPR a b | BIT_OR_ASSIGN_EXPR a b | COMMA_EXPR a b => S (expr_size a + expr_size b)
  | CONDITIONAL_EXPR a b c => S (expr_size a + expr_size b + expr_size c)
  | FUNCTION_CALL_EXPR a l => S (expr_size a + sum_list_with expr_size l)
  | CAST_EXPR t a | BUILTIN_VA_ARG_EXPR a t => S (type_name_size t + expr_size a)
  | SIZEOF_TYPE_EXPR t => S (type_name_size t)
  | COMPOUND_EXPR t l => S (S (type_name_size t + sum_list_with element_size l))
  end
with type_name_size (t : ASTTypeName) : nat :=
  match t with
  | mkTypeName l d =>
      S (sum_list_with specifier_size l + match d with Some d => declarator_size d | None => 0 end)
  end
with specifier_size (s : ASTDeclSpecifier) : nat :=
  match s with TYPE_SPECIFIER t => S (type_specifier_size t) | _ => 1 end
with type_specifier_size (t : ASTTypeSpecifier) : nat :=
  match t with
  | NAMED_TYPE_SPECIFIER _ => 1
  | STRUCT_TYPE_SPECIFIER _ l _ | UNION_TYPE_SPECIFIER _ l _ => S (sum_list_with field_decl_size l)
  | ENUM_TYPE_SPECIFIER _ l => S (sum_list_with enumerator_size l)
  end
with field_decl_size (f : ASTFieldDecl) : nat :=
  match f with
  | mkFieldDecl l d => S (sum_list_with specifier_size l + sum_list_with field_declarator_size d)
  end
with field_declarator_size (f : ASTFieldDeclarator) : nat :=
  match f with
  | BITFIELD_FIELD_DECLARATOR d w =>
      S (match d with Some d => declarator_size d | None => 0 end + expr_size w)
  | NORMAL_FIELD_DECLARATOR d => S (declarator_size d)
  end
with enumerator_size (e : ASTEnumerator) : nat :=
  match e with mkEnumerator _ v => S (match v with Some v => expr_size v | None => 0 end) end
with declarator_size (d : ASTDeclarator) : nat :=
  match d with
  | POINTER_DECLARATOR p => S (match p with Some d => declarator_size d | None => 0 end)
  | DIRECT_DECLARATOR d => S (direct_size d)
  end
with direct_size (d : ASTDirectDeclarator) : nat :=
  match d with
  | DECLARATOR d => S (declarator_size d)
  | IDENTIFIER_DECLARATOR _ => 1
  | ARRAY_DECLARATOR d n => S (direct_size d + match n with Some n => expr_size n | None => 0 end)
  | FUNCTION_DECLARATOR d l => S (direct_size d + sum_list_with param_size l)
  end
with param_size (p : ASTParameterDecl) : nat :=
  match p with
  | PARAMETER_DECL l d =>
      S (sum_list_with specifier_size l + match d with Some d => declarator_size d | None => 0 end)
  | ELLIPSIS_DECL => 1
  end
with initializer_size (i : ASTInitializer) : nat :=
  match i with
  | EXPR_INITIALIZER e => S (expr_size e)
  | BRACE_INITIALIZER l => S (sum_list_with element_size l)
  end
with element_size (i : ASTInitializerElement) : nat :=
  match i with mkInitElement l i => S (sum_list_with designator_size l + initializer_size i) end
with designator_size (d : ASTDesignator) : nat :=
  match d with INDEX_DESIGNATOR e => S (expr_size e) | FIELD_DESIGNATOR _ => 1 end.

Definition opt_size {A} (f : A -> nat) (o : option A) : nat := match o with Some x => f x | None => 0 end.
Definition specifiers_size (l : list ASTDeclSpecifier) : nat := sum_list_with specifier_size l.

Definition decl_size (d : ASTDecl) : nat :=
  specifiers_size (d_specifiers d) +
  sum_list_with (fun i => declarator_size (id_declarator i) + opt_size initializer_size (id_initializer i))
    (d_init_declarators d).

Fixpoint statement_size (s : ASTStatement) : nat :=
  match s with
  | EMPTY_STATEMENT | GOTO_STATEMENT _ | CONTINUE_STATEMENT | BREAK_STATEMENT => 0
  | LABELED_STATEMENT _ s => statement_size s
  | COMPOUND_STATEMENT l => sum_list_with block_item_size l
  | EXPR_STATEMENT e => expr_size e
  | IF_STATEMENT e s1 s2 =>
      expr_size e + statement_size s1 + match s2 with Some s => statement_size s | None => 0 end
  | CASE_STATEMENT e s | SWITCH_STATEMENT e s | WHILE_STATEMENT e s | DO_WHILE_STATEMENT e s =>
      expr_size e + statement_size s
  | FOR_STATEMENT i c u s =>
      match i with FOR_INIT_DECL d => decl_size d | FOR_INIT_EXPR e => opt_size expr_size e end +
      opt_size expr_size c + opt_size expr_size u + statement_size s
  | RETURN_STATEMENT e => opt_size expr_size e
  end
with block_item_size (i : ASTBlockItem) : nat :=
  match i with BLOCK_ITEM_DECL d => decl_size d | BLOCK_ITEM_STATEMENT s => statement_size s end.

Definition toplevel_size (t : ASTToplevel) : nat :=
  match t with
  | FUNCTION_DEF f => specifiers_size (f_specifiers f) + declarator_size (f_declarator f) + statement_size (f_body f)
  | DECL d => decl_size d
  end.
