(* ===== verification/Parse.v ===== *)
(** * The parser

    [src/src/syntax/parse.c] with the grammar [parse.peg], a parsing expression
    grammar from which [src/dsl/peg.py] generates the parser. The combinators below are
    the code that [peg.py] generates for each operator, the grammar is that of
    [parse.peg] with the actions of [parse.c]. Rules that begin again at a later token
    are called through the record [Grammar]; [grammar_at n] has [n] levels of them left.
    A position is an index into the tokens; reading at the end of the tokens, which
    [ARRAY_REF] does not check, is undefined. *)

From S2P Require Import Prelude Reader Lex Ast.

Local Open Scope nat_scope.

Definition symbol_name (l : list Z) : string :=
  foldr (fun c s => String (Ascii.ascii_of_nat (Z.to_nat c)) s) EmptyString l.

(** ** The state *)

(** The static variables of the generated code, for error messages. *)
Record Longest := mkLongest {
  longest_parse_length : nat;
  longest_parse_pos : SourceLoc;
  unexpected_token : TokenType
}.
Definition no_longest : Longest := mkLongest 0 (mkLoc None 0) TOK_INVALID.

Record Parser := mkParser {
  position : nat;
  defined_types : list (list Z);
  longest : Longest
}.
Definition set_position (x : nat) (p : Parser) : Parser := mkParser x (defined_types p) (longest p).
Definition set_types (x : list (list Z)) (p : Parser) : Parser := mkParser (position p) x (longest p).
Definition set_longest (x : Longest) (p : Parser) : Parser := mkParser (position p) (defined_types p) x.

Definition builtin_types : list (list Z) :=
  bytes_of <$> ["void"; "char"; "short"; "int"; "long"; "float"; "double"; "signed"; "unsigned"; "_Bool"; "_Complex"]%string.

Definition type_table_add_entry (name : list Z) : st Parser unit :=
  modify (fun p => set_types (defined_types p ++ [name]) p).
Definition type_table_look_up_name (name : list Z) : st Parser bool :=
  p ← get; mret (bool_decide (name ∈ defined_types p)).

(** A [ParserResult]: [None] is [failure]. *)
Abbreviation parser A := (st Parser (option A)).
Definition success {A} (a : A) : parser A := mret (Some a).
Definition failure {A} : parser A := mret None.

Section Parse.
Context (toks : list SourceToken).

Definition read_token : st Parser SourceToken :=
  p ← get; t ← lift (of_opt (toks !! position p)); modify (set_position (S (position p)));; mret t.
Definition back_up : st Parser unit := modify (fun p => set_position (position p - 1) p).
Definition current_token : st Parser SourceToken := p ← get; lift (of_opt (toks !! position p)).
Definition at_tokens_end : st Parser bool := p ← get; mret (length toks <=? position p).

(** ** The combinators of the generator *)

Definition note_unexpected (t : SourceToken) : st Parser unit :=
  p ← get;
  if longest_parse_length (longest p) <? position p
  then put (set_longest (mkLongest (position p) (range_start (source_range t)) (tok_t (token t))) p)
  else mret tt.

(** A token of a type. *)
Definition tok (t : TokenType) : parser Token :=
  e ← at_tokens_end;
  if (e : bool) then failure
  else
    r ← read_token;
    if decide (tok_t (token r) = t) then success (token r)
    else back_up;; note_unexpected r;; failure.

Definition is_keyword (k : string) (t : Token) : bool :=
  match tok_t t, tok_u t with TOK_SYMBOL, U_symbol s => bool_decide (s = bytes_of k) | _, _ => false end.
Definition keyword (k : string) : parser unit :=
  e ← at_tokens_end;
  if (e : bool) then failure
  else
    r ← read_token;
    if is_keyword k (token r) then success tt
    else back_up;; note_unexpected r;; failure.

(** One part of a sequence, and the rest of it. *)
Definition part {A B} (p : parser A) (f : A -> parser B) : parser B :=
  r ← p; match r with Some a => f a | None => failure end.
Local Notation "x <~ p ; q" := (part p (fun x => q)) (at level 20, p at level 100, q at level 200, right associativity, only parsing).
(** [seq]: a failure goes back to where the sequence started. *)
Definition seq {A} (p : parser A) : parser A :=
  start ← get; r ← p;
  match r with
  | Some a => success a
  | None => modify (set_position (position start));; failure
  end.
(** [or]: the first alternative that succeeds. [which] is [or] on alternatives that
    say which of them they are. *)
Fixpoint or {A} (l : list (parser A)) : parser A :=
  match l with
  | [] => failure
  | p :: l =>
      start ← get; r ← p;
      match r with
      | Some a => success a
      | None => modify (set_position (position start));; or l
      end
  end.
Definition as_ {A B} (f : A -> B) (p : parser A) : parser B := part p (fun a => success (f a)).
Definition opt {A} (p : parser A) : parser (option A) := r ← p; success r.

(** The loops go round at most once per token. *)
Fixpoint fold_loop {A B} (n : nat) (f : A -> B -> res A) (next : parser B) (curr : A) : parser A :=
  match n with
  | O => lift (Stop NoFuel)
  | S n =>
      r ← next;
      match r with
      | Some b => curr ← lift (f curr b); fold_loop n f next curr
      | None => success curr
      end
  end.
Definition fold {A B} (f : A -> B -> res A) (initial : parser A) (next : parser B) : parser A :=
  part initial (fun curr => fold_loop (S (length toks)) f next curr).

(** A list goes on after its separator and does not return to it when no element
    follows. *)
Fixpoint list_loop {A} (n : nat) (p : parser A) (separator : parser unit) (acc : list A) : parser (list A) :=
  match n with
  | O => lift (Stop NoFuel)
  | S n =>
      r ← separator;
      match r with
      | None => success acc
      | Some _ =>
          r ← p;
          match r with
          | None => success acc
          | Some a => list_loop n p separator (acc ++ [a])
          end
      end
  end.
Definition list_from {A} (p : parser A) (separator : parser unit) (a : A) : parser (list A) :=
  list_loop (S (length toks)) p separator [a].
Definition list_of {A} (p : parser A) (separator : parser unit) : parser (list A) :=
  r ← p; match r with None => success [] | Some a => list_from p separator a end.
Definition nonempty_list {A} (p : parser A) : parser (list A) := part p (list_from p (success tt)).

(** ** Tokens with their contents *)

Definition token_symbol (t : Token) : res string :=
  match tok_u t with U_symbol s => Ok (symbol_name s) | _ => Stop Undef end.
Definition symbol : parser string := t <~ tok TOK_SYMBOL; n ← lift (token_symbol t); success n.

Definition build_constant (t : Token) : res ASTExpr :=
  match tok_t t, tok_u t with
  | TOK_INT_LITERAL, U_int_literal v s => Ok (INT_LITERAL_EXPR (mkIntLiteral v s))
  | TOK_FLOAT_LITERAL, U_float_literal v s => Ok (FLOAT_LITERAL_EXPR (mkFloatLiteral v s))
  | TOK_STRING_LITERAL, U_string_literal _ s => Ok (STRING_LITERAL_EXPR (default [] s))
  | TOK_INT_LITERAL, _ | TOK_FLOAT_LITERAL, _ | TOK_STRING_LITERAL, _ => Stop Undef
  | _, _ => UNREACHABLE
  end.
Definition constant : parser ASTExpr :=
  t <~ or [tok TOK_INT_LITERAL; tok TOK_FLOAT_LITERAL; tok TOK_STRING_LITERAL]; e ← lift (build_constant t); success e.

(** A name that is neither [sizeof] nor a type. *)
Definition identifier_name : parser string :=
  r ← read_token;
  match tok_t (token r), tok_u (token r) with
  | TOK_SYMBOL, U_symbol name =>
      if decide (name = bytes_of "sizeof") then back_up;; failure
      else
        t ← type_table_look_up_name name;
        if (t : bool) then back_up;; failure else success (symbol_name name)
  | TOK_SYMBOL, _ => lift (Stop Undef)
  | _, _ => back_up;; failure
  end.
Definition identifier : parser ASTExpr := as_ IDENTIFIER_EXPR identifier_name.

(** A name that is a type. *)
Definition named_type : parser string :=
  e ← at_tokens_end;
  if (e : bool) then failure
  else
    r ← read_token;
    match tok_t (token r), tok_u (token r) with
    | TOK_SYMBOL, U_symbol name =>
        t ← type_table_look_up_name name;
        if (t : bool) then success (symbol_name name) else back_up;; failure
    | TOK_SYMBOL, _ => lift (Stop Undef)
    | _, _ => back_up;; failure
    end.

(** ** What begins again at a later token *)

Record Grammar := mkGrammar {
  g_expr : parser ASTExpr;
  g_assignment_expr : parser ASTExpr;
  g_conditional_expr : parser ASTExpr;
  g_cast_expr : parser ASTExpr;
  g_unary_expr : parser ASTExpr;
  g_type_name : parser ASTTypeName;
  g_initializer_list : parser (list ASTInitializerElement);
  g_declarator : parser ASTDeclarator;
  g_abstract_declarator : parser ASTDeclarator;
  g_parameter_list : parser (list ASTParameterDecl);
  g_field_decl : parser ASTFieldDecl;
  g_statement : parser ASTStatement;
  g_block_item_list : parser (list ASTBlockItem)
}.

Section Rules.
Context (G : Grammar).

(** ** Expressions *)

(** [argument_expr_list], [build_argument]. *)
Definition comma : parser unit := as_ (fun _ => tt) (tok TOK_COMMA).
Definition argument_expr_list : parser (list ASTExpr) := list_of (seq (g_assignment_expr G)) comma.

Definition primary_expr : parser ASTExpr :=
  or [identifier; constant;
      seq (_ <~ tok TOK_LROUND; e <~ g_expr G; _ <~ tok TOK_RROUND; success e)].

(** The [WhichResult] of [build_postfix_expr], from 0 to 5. *)
Inductive PostfixTail :=
| TailIndex (e : ASTExpr) | TailCall (args : list ASTExpr) | TailDot (name : string) | TailArrow (name : string)
| TailIncrement | TailDecrement.
Definition build_postfix_expr (curr : ASTExpr) (which : PostfixTail) : res ASTExpr :=
  Ok match which with
     | TailIndex e => INDEX_EXPR curr e
     | TailCall args => FUNCTION_CALL_EXPR curr args
     | TailDot name => STRUCT_DOT_FIELD_EXPR curr name
     | TailArrow name => STRUCT_ARROW_FIELD_EXPR curr name
     | TailIncrement => POST_INCREMENT_EXPR curr
     | TailDecrement => POST_DECREMENT_EXPR curr
     end.
Definition postfix_tail : parser PostfixTail :=
  or [as_ TailIndex (seq (_ <~ tok TOK_LSQUARE; e <~ g_expr G; _ <~ tok TOK_RSQUARE; success e));
      as_ TailCall (seq (_ <~ tok TOK_LROUND; l <~ argument_expr_list; _ <~ tok TOK_RROUND; success l));
      as_ TailDot (seq (_ <~ tok TOK_DOT; n <~ symbol; success n));
      as_ TailArrow (seq (_ <~ tok TOK_ARROW; n <~ symbol; success n));
      as_ (fun _ => TailIncrement) (tok TOK_INCREMENT);
      as_ (fun _ => TailDecrement) (tok TOK_DECREMENT)].

Definition postfix_expr : parser ASTExpr :=
  or [seq (_ <~ keyword "__builtin_va_arg"; _ <~ tok TOK_LROUND; e <~ g_assignment_expr G; _ <~ tok TOK_COMMA;
           t <~ g_type_name G; _ <~ tok TOK_RROUND; success (BUILTIN_VA_ARG_EXPR e t));
      fold build_postfix_expr primary_expr postfix_tail;
      seq (_ <~ tok TOK_LROUND; t <~ g_type_name G; _ <~ tok TOK_RROUND; _ <~ tok TOK_LCURLY;
           l <~ g_initializer_list G; _ <~ opt (tok TOK_COMMA); _ <~ tok TOK_RCURLY; success (COMPOUND_EXPR t l))].

Definition build_unary_expr (t : Token) (arg : ASTExpr) : res ASTExpr :=
  match tok_t t with
  | TOK_INCREMENT => Ok (PRE_INCREMENT_EXPR arg)
  | TOK_DECREMENT => Ok (PRE_DECREMENT_EXPR arg)
  | TOK_AMPERSAND => Ok (ADDRESS_OF_EXPR arg)
  | TOK_ASTERISK => Ok (DEREF_EXPR arg)
  | TOK_PLUS => Ok (UNARY_PLUS_EXPR arg)
  | TOK_MINUS => Ok (UNARY_MINUS_EXPR arg)
  | TOK_BIT_NOT => Ok (BIT_NOT_EXPR arg)
  | TOK_LOGICAL_NOT => Ok (LOGICAL_NOT_EXPR arg)
  | _ => UNREACHABLE
  end.
Definition unary_operator : parser Token :=
  or [tok TOK_AMPERSAND; tok TOK_ASTERISK; tok TOK_PLUS; tok TOK_MINUS; tok TOK_BIT_NOT; tok TOK_LOGICAL_NOT].
Definition with_operator (operator : parser Token) (arg : parser ASTExpr) : parser ASTExpr :=
  seq (t <~ operator; e <~ arg; x ← lift (build_unary_expr t e); success x).

Definition unary_expr : parser ASTExpr :=
  or [postfix_expr;
      with_operator (tok TOK_INCREMENT) (g_unary_expr G);
      with_operator (tok TOK_DECREMENT) (g_unary_expr G);
      with_operator unary_operator (g_cast_expr G);
      seq (_ <~ keyword "sizeof"; e <~ g_unary_expr G; success (SIZEOF_EXPR_EXPR e));
      seq (_ <~ keyword "sizeof"; _ <~ tok TOK_LROUND; t <~ g_type_name G; _ <~ tok TOK_RROUND; success (SIZEOF_TYPE_EXPR t))].

Definition cast_expr : parser ASTExpr :=
  or [unary_expr;
      seq (_ <~ tok TOK_LROUND; t <~ g_type_name G; _ <~ tok TOK_RROUND; e <~ g_cast_expr G; success (CAST_EXPR t e))].

Record BinaryTail := mkTail { operator : TokenType; tail_expr : ASTExpr }.
Definition binary_tail (operator : parser Token) (arg : parser ASTExpr) : parser BinaryTail :=
  seq (t <~ operator; e <~ arg; success (mkTail (tok_t t) e)).
Definition build_binary_head (curr : ASTExpr) (tail : BinaryTail) : res ASTExpr :=
  let e := tail_expr tail in
  match operator tail with
  | TOK_ASTERISK => Ok (MULTIPLY_EXPR curr e)
  | TOK_PLUS_ASSIGN => Ok (ADD_ASSIGN_EXPR curr e)
  | TOK_DIVIDE => Ok (DIVIDE_EXPR curr e)
  | TOK_MODULO => Ok (MODULO_EXPR curr e)
  | TOK_PLUS => Ok (ADD_EXPR curr e)
  | TOK_MINUS => Ok (MINUS_EXPR curr e)
  | TOK_LEFT_SHIFT => Ok (LEFT_SHIFT_EXPR curr e)
  | TOK_RIGHT_SHIFT => Ok (RIGHT_SHIFT_EXPR curr e)
  | TOK_LESS_THAN => Ok (LESS_THAN_EXPR curr e)
  | TOK_GREATER_THAN => Ok (GREATER_THAN_EXPR curr e)
  | TOK_LESS_THAN_OR_EQUAL => Ok (LESS_THAN_OR_EQUAL_EXPR curr e)
  | TOK_GREATER_THAN_OR_EQUAL => Ok (GREATER_THAN_OR_EQUAL_EXPR curr e)
  | TOK_EQUAL => Ok (EQUAL_EXPR curr e)
  | TOK_NOT_EQUAL => Ok (NOT_EQUAL_EXPR curr e)
  | TOK_AMPERSAND => Ok (BIT_AND_EXPR curr e)
  | TOK_BIT_XOR => Ok (BIT_XOR_EXPR curr e)
  | TOK_BIT_OR => Ok (BIT_OR_EXPR curr e)
  | TOK_LOGICAL_AND => Ok (LOGICAL_AND_EXPR curr e)
  | TOK_LOGICAL_OR => Ok (LOGICAL_OR_EXPR curr e)
  | TOK_ASSIGN => Ok (ASSIGN_EXPR curr e)
  | TOK_MULTIPLY_ASSIGN => Ok (MULTIPLY_ASSIGN_EXPR curr e)
  | TOK_DIVIDE_ASSIGN => Ok (DIVIDE_ASSIGN_EXPR curr e)
  | TOK_MODULO_ASSIGN => Ok (MODULO_ASSIGN_EXPR curr e)
  | TOK_MINUS_ASSIGN => Ok (MINUS_ASSIGN_EXPR curr e)
  | TOK_LEFT_SHIFT_ASSIGN => Ok (LEFT_SHIFT_ASSIGN_EXPR curr e)
  | TOK_RIGHT_SHIFT_ASSIGN => Ok (RIGHT_SHIFT_ASSIGN_EXPR curr e)
  | TOK_BIT_AND_ASSIGN => Ok (BIT_AND_ASSIGN_EXPR curr e)
  | TOK_BIT_XOR_ASSIGN => Ok (BIT_XOR_ASSIGN_EXPR curr e)
  | TOK_BIT_OR_ASSIGN => Ok (BIT_OR_ASSIGN_EXPR curr e)
  | TOK_COMMA => Ok (COMMA_EXPR curr e)
  | _ => UNREACHABLE
  end.

(** The operators of one level between operands of the next. *)
Definition binary_level (operators : list TokenType) (operand : parser ASTExpr) : parser ASTExpr :=
  fold build_binary_head operand (or ((fun t => binary_tail (tok t) operand) <$> operators)).
Definition multiplicative_expr := binary_level [TOK_ASTERISK; TOK_DIVIDE; TOK_MODULO] cast_expr.
Definition additive_expr := binary_level [TOK_PLUS; TOK_MINUS] multiplicative_expr.
Definition shift_expr := binary_level [TOK_LEFT_SHIFT; TOK_RIGHT_SHIFT] additive_expr.
Definition relational_expr :=
  binary_level [TOK_LESS_THAN; TOK_GREATER_THAN; TOK_LESS_THAN_OR_EQUAL; TOK_GREATER_THAN_OR_EQUAL] shift_expr.
Definition equality_expr := binary_level [TOK_EQUAL; TOK_NOT_EQUAL] relational_expr.
Definition single_level (operator : TokenType) (operand : parser ASTExpr) : parser ASTExpr :=
  fold build_binary_head operand (binary_tail (tok operator) operand).
Definition and_expr := single_level TOK_AMPERSAND equality_expr.
Definition xor_expr := single_level TOK_BIT_XOR and_expr.
Definition or_expr := single_level TOK_BIT_OR xor_expr.
Definition logical_and_expr := single_level TOK_LOGICAL_AND or_expr.
Definition logical_or_expr := single_level TOK_LOGICAL_OR logical_and_expr.

Definition conditional_expr : parser ASTExpr :=
  or [seq (a <~ logical_or_expr; _ <~ tok TOK_QUESTION_MARK; b <~ g_expr G; _ <~ tok TOK_COLON;
           c <~ g_conditional_expr G; success (CONDITIONAL_EXPR a b c));
      logical_or_expr].

Definition assignment_operator : parser Token :=
  or [tok TOK_ASSIGN; tok TOK_MULTIPLY_ASSIGN; tok TOK_DIVIDE_ASSIGN; tok TOK_MODULO_ASSIGN; tok TOK_PLUS_ASSIGN;
      tok TOK_MINUS_ASSIGN; tok TOK_LEFT_SHIFT_ASSIGN; tok TOK_RIGHT_SHIFT_ASSIGN; tok TOK_BIT_AND_ASSIGN;
      tok TOK_BIT_XOR_ASSIGN; tok TOK_BIT_OR_ASSIGN].
Definition assignment_expr : parser ASTExpr :=
  fold build_binary_head conditional_expr (binary_tail assignment_operator (g_assignment_expr G)).
Definition expr : parser ASTExpr := single_level TOK_COMMA assignment_expr.

(** ** Declarators *)

Definition type_qualifier : parser ASTTypeQualifier :=
  or [as_ (fun _ => CONST_QUALIFIER) (keyword "const"); as_ (fun _ => RESTRICT_QUALIFIER) (keyword "restrict");
      as_ (fun _ => VOLATILE_QUALIFIER) (keyword "volatile")].
Definition no_separator : parser unit := success tt.

(** A [PointerResult]: the number of pointers from [first] to [last]; the tree has no
    qualifiers of pointers. *)
Definition single_pointer : parser unit :=
  seq (_ <~ tok TOK_ASTERISK; _ <~ opt (list_of type_qualifier no_separator); success tt).
Definition build_next_pointer (pointers : nat) (pointer : unit) : res nat := Ok (S pointers).
Definition pointer : parser nat := fold build_next_pointer (as_ (fun _ => 1%nat) (seq single_pointer)) single_pointer.

Fixpoint pointers_to (n : nat) (pointee : option ASTDeclarator) : option ASTDeclarator :=
  match n with O => pointee | S n => Some (POINTER_DECLARATOR (pointers_to n pointee)) end.
Definition build_pointee_declarator (opt_pointer : option nat) (declarator : ASTDirectDeclarator) : ASTDeclarator :=
  match opt_pointer with
  | Some (S n) => POINTER_DECLARATOR (pointers_to n (Some (DIRECT_DECLARATOR declarator)))
  | _ => DIRECT_DECLARATOR declarator
  end.
Definition build_terminal_pointer (pointers : nat) : ASTDeclarator :=
  POINTER_DECLARATOR (pointers_to (pointers - 1) None).

(** The dimensions of an array, the last of them innermost. *)
Fixpoint array_of (head : ASTDirectDeclarator) (lengths : list (option ASTExpr)) : ASTDirectDeclarator :=
  match lengths with [] => head | n :: lengths => ARRAY_DECLARATOR (array_of head lengths) n end.
Fixpoint array_tail (fuel : nat) (start : nat) (head : ASTDirectDeclarator) (lengths : list (option ASTExpr))
    : parser ASTDirectDeclarator :=
  match fuel with
  | O => lift (Stop NoFuel)
  | S n =>
      t ← current_token;
      if decide (tok_t (token t) = TOK_LSQUARE) then
        _ ← read_token;
        length_expr ← expr;
        t ← read_token;
        if decide (tok_t (token t) = TOK_RSQUARE) then array_tail n start head (lengths ++ [length_expr])
        else modify (set_position start);; failure
      else success (array_of head lengths)
  end.
Definition direct_declarator_tail (head : ASTDirectDeclarator) : parser ASTDirectDeclarator :=
  p ← get;
  t ← read_token;
  match tok_t (token t) with
  | TOK_LSQUARE => back_up;; array_tail (S (length toks)) (position p) head []
  | TOK_LROUND =>
      params ← g_parameter_list G;
      match params with
      | None => modify (set_position (position p));; failure
      | Some params =>
          t ← read_token;
          if decide (tok_t (token t) = TOK_RROUND) then success (FUNCTION_DECLARATOR head params)
          else modify (set_position (position p));; failure
      end
  | _ => back_up;; success head
  end.

Definition direct_declarator_head : parser ASTDirectDeclarator :=
  or [seq (n <~ symbol; success (IDENTIFIER_DECLARATOR (Some n)));
      seq (_ <~ tok TOK_LROUND; d <~ g_declarator G; _ <~ tok TOK_RROUND; success (DECLARATOR d))].
Definition direct_declarator : parser ASTDirectDeclarator := part direct_declarator_head direct_declarator_tail.
Definition declarator : parser ASTDeclarator :=
  or [seq (p <~ opt pointer; d <~ direct_declarator; success (build_pointee_declarator p d));
      seq (p <~ pointer; success (build_terminal_pointer p))].

Definition optional_declarator (d : option ASTDirectDeclarator) : ASTDirectDeclarator :=
  default (IDENTIFIER_DECLARATOR None) d.
Definition direct_abstract_declarator_head : parser ASTDirectDeclarator :=
  seq (d <~ opt (seq (_ <~ tok TOK_LROUND; d <~ g_abstract_declarator G; _ <~ tok TOK_RROUND; success (DECLARATOR d)));
       success (optional_declarator d)).
Definition direct_abstract_declarator : parser ASTDirectDeclarator := part direct_abstract_declarator_head direct_declarator_tail.
Definition abstract_declarator : parser ASTDeclarator :=
  or [seq (p <~ opt pointer; d <~ direct_abstract_declarator; success (build_pointee_declarator p d));
      seq (p <~ pointer; success (build_terminal_pointer p))].

(** ** Declaration specifiers *)

Definition storage_class_specifier : parser ASTDeclSpecifier :=
  as_ STORAGE_CLASS_SPECIFIER
    (or [as_ (fun _ => TYPEDEF_SPECIFIER) (keyword "typedef"); as_ (fun _ => EXTERN_SPECIFIER) (keyword "extern");
         as_ (fun _ => STATIC_SPECIFIER) (keyword "static"); as_ (fun _ => AUTO_SPECIFIER) (keyword "auto");
         as_ (fun _ => REGISTER_SPECIFIER) (keyword "register")]).
Definition function_specifier : parser ASTDeclSpecifier :=
  as_ (fun _ => FUNCTION_SPECIFIER INLINE_SPECIFIER) (seq (keyword "inline")).

Definition attribute : parser string :=
  seq (_ <~ keyword "__attribute__"; _ <~ tok TOK_LROUND; _ <~ tok TOK_LROUND; n <~ symbol; _ <~ tok TOK_RROUND;
       _ <~ tok TOK_RROUND; success n).

(** [which] is 0 for a struct and 1 for a union. *)
Definition struct_or_union : parser bool :=
  or [as_ (fun _ => true) (keyword "struct"); as_ (fun _ => false) (keyword "union")].
Definition build_struct_or_union (is_struct : bool) (opt_name : option string) (l : list ASTFieldDecl) (a : option string) : ASTTypeSpecifier :=
  if is_struct then STRUCT_TYPE_SPECIFIER opt_name l a else UNION_TYPE_SPECIFIER opt_name l a.
Definition build_struct_or_union_tagged_named_type (is_struct : bool) (name : string) : ASTTypeSpecifier :=
  build_struct_or_union is_struct (Some name) [] None.
Definition struct_or_union_specifier : parser ASTTypeSpecifier :=
  or [seq (s <~ struct_or_union; n <~ opt symbol; _ <~ tok TOK_LCURLY; l <~ list_of (g_field_decl G) no_separator;
           _ <~ tok TOK_RCURLY; a <~ opt attribute; success (build_struct_or_union s n l a));
      seq (s <~ struct_or_union; n <~ symbol; success (build_struct_or_union_tagged_named_type s n))].

Definition enumerator : parser ASTEnumerator :=
  seq (n <~ symbol; v <~ opt (seq (_ <~ tok TOK_ASSIGN; e <~ assignment_expr; success e)); success (mkEnumerator n v)).
Definition enumerator_list : parser (list ASTEnumerator) := list_of enumerator comma.
Definition build_enum (opt_name : option string) (l : list ASTEnumerator) : ASTTypeSpecifier := ENUM_TYPE_SPECIFIER opt_name l.
Definition enum_specifier : parser ASTTypeSpecifier :=
  or [seq (_ <~ keyword "enum"; n <~ opt symbol; _ <~ tok TOK_LCURLY; l <~ enumerator_list; _ <~ opt (tok TOK_COMMA);
           _ <~ tok TOK_RCURLY; success (build_enum n l));
      seq (_ <~ keyword "enum"; n <~ symbol; success (ENUM_TYPE_SPECIFIER (Some n) []))].

Definition type_specifier : parser ASTDeclSpecifier :=
  as_ TYPE_SPECIFIER (seq (or [as_ NAMED_TYPE_SPECIFIER (seq named_type); struct_or_union_specifier; enum_specifier])).
Definition decl_specifiers : parser (list ASTDeclSpecifier) :=
  nonempty_list (or [storage_class_specifier; type_specifier; as_ TYPE_QUALIFIER type_qualifier; function_specifier]).

Definition type_name : parser ASTTypeName :=
  seq (l <~ decl_specifiers; d <~ opt abstract_declarator; success (mkTypeName l d)).

Definition parameter_decl : parser ASTParameterDecl :=
  or [seq (l <~ decl_specifiers; d <~ declarator; success (PARAMETER_DECL l (Some d)));
      seq (l <~ decl_specifiers; d <~ abstract_declarator; success (PARAMETER_DECL l (Some d)));
      seq (_ <~ tok TOK_ELLIPSIS; success ELLIPSIS_DECL)].
Definition parameter_list : parser (list ASTParameterDecl) := list_of parameter_decl comma.

Definition field_declarator : parser ASTFieldDeclarator :=
  or [seq (d <~ opt declarator; _ <~ tok TOK_COLON; e <~ expr; success (BITFIELD_FIELD_DECLARATOR d e));
      seq (d <~ declarator; success (NORMAL_FIELD_DECLARATOR d))].
Definition field_decl : parser ASTFieldDecl :=
  seq (l <~ decl_specifiers; d <~ list_of field_declarator comma; _ <~ tok TOK_SEMICOLON; success (mkFieldDecl l d)).

(** ** Initialisers *)

Definition initializer : parser ASTInitializer :=
  or [seq (e <~ assignment_expr; success (EXPR_INITIALIZER e));
      seq (_ <~ tok TOK_LCURLY; l <~ g_initializer_list G; _ <~ opt (tok TOK_COMMA); _ <~ tok TOK_RCURLY;
           success (BRACE_INITIALIZER l))].
Definition designator : parser ASTDesignator :=
  or [seq (_ <~ tok TOK_LSQUARE; e <~ expr; _ <~ tok TOK_RSQUARE; success (INDEX_DESIGNATOR e));
      seq (_ <~ tok TOK_DOT; n <~ symbol; success (FIELD_DESIGNATOR n))].
Definition initializer_element : parser ASTInitializerElement :=
  seq (l <~ opt (seq (l <~ list_of designator no_separator; _ <~ tok TOK_ASSIGN; success l));
       i <~ initializer; success (mkInitElement (default [] l) i)).
Definition initializer_list : parser (list ASTInitializerElement) := list_of initializer_element comma.

(** ** Declarations *)

(** [None] for the name of an abstract declarator; a null declarator is dereferenced. *)
Fixpoint declarator_name (d : ASTDeclarator) : res (option string) :=
  match d with
  | POINTER_DECLARATOR (Some d) => declarator_name d
  | POINTER_DECLARATOR None => Stop Undef
  | DIRECT_DECLARATOR d => direct_declarator_name d
  end
with direct_declarator_name (d : ASTDirectDeclarator) : res (option string) :=
  match d with
  | IDENTIFIER_DECLARATOR n => Ok n
  | ARRAY_DECLARATOR d _ => direct_declarator_name d
  | FUNCTION_DECLARATOR d _ => direct_declarator_name d
  | DECLARATOR d => declarator_name d
  end.

Definition is_typedef (s : ASTDeclSpecifier) : bool :=
  match s with STORAGE_CLASS_SPECIFIER TYPEDEF_SPECIFIER => true | _ => false end.
Fixpoint add_typedef_names (l : list ASTInitDeclarator) : st Parser unit :=
  match l with
  | [] => mret tt
  | d :: l =>
      n ← lift (declarator_name (id_declarator d));
      match n with Some n => type_table_add_entry (bytes_of n) | None => mret tt end;;
      add_typedef_names l
  end.
Definition build_decl (specifiers : list ASTDeclSpecifier) (init_declarators : list ASTInitDeclarator) : st Parser ASTDecl :=
  (if existsb is_typedef specifiers then add_typedef_names init_declarators else mret tt);;
  mret (mkDecl specifiers init_declarators).

Definition init_declarator : parser ASTInitDeclarator :=
  seq (d <~ declarator; i <~ opt (seq (_ <~ tok TOK_ASSIGN; i <~ initializer; success i)); success (mkInitDeclarator d i)).
Definition decl : parser ASTDecl :=
  seq (l <~ decl_specifiers; d <~ opt (list_of init_declarator comma); _ <~ tok TOK_SEMICOLON;
       x ← build_decl l (default [] d); success x).

(** ** Statements *)

Definition labeled_statement : parser ASTStatement :=
  or [seq (n <~ identifier_name; _ <~ tok TOK_COLON; s <~ g_statement G; success (LABELED_STATEMENT n s));
      seq (_ <~ keyword "case"; e <~ expr; _ <~ tok TOK_COLON; s <~ g_statement G; success (CASE_STATEMENT e s))].
Definition compound_statement : parser ASTStatement :=
  seq (_ <~ tok TOK_LCURLY; l <~ g_block_item_list G; _ <~ tok TOK_RCURLY; success (COMPOUND_STATEMENT l)).
Definition build_expr_statement (opt_expr : option ASTExpr) : ASTStatement :=
  match opt_expr with None => EMPTY_STATEMENT | Some e => EXPR_STATEMENT e end.
Definition expr_statement : parser ASTStatement :=
  seq (e <~ opt expr; _ <~ tok TOK_SEMICOLON; success (build_expr_statement e)).
Definition selection_statement : parser ASTStatement :=
  or [seq (_ <~ keyword "if"; _ <~ tok TOK_LROUND; e <~ expr; _ <~ tok TOK_RROUND; s <~ g_statement G;
           s2 <~ opt (seq (_ <~ keyword "else"; s <~ g_statement G; success s)); success (IF_STATEMENT e s s2));
      seq (_ <~ keyword "switch"; _ <~ tok TOK_LROUND; e <~ expr; _ <~ tok TOK_RROUND; s <~ g_statement G;
           success (SWITCH_STATEMENT e s))].
Definition iteration_statement : parser ASTStatement :=
  or [seq (_ <~ keyword "while"; _ <~ tok TOK_LROUND; e <~ expr; _ <~ tok TOK_RROUND; s <~ g_statement G;
           success (WHILE_STATEMENT e s));
      seq (_ <~ keyword "do"; s <~ g_statement G; _ <~ keyword "while"; _ <~ tok TOK_LROUND; e <~ expr;
           _ <~ tok TOK_RROUND; _ <~ tok TOK_SEMICOLON; success (DO_WHILE_STATEMENT e s));
      seq (_ <~ keyword "for"; _ <~ tok TOK_LROUND; i <~ opt expr; _ <~ tok TOK_SEMICOLON; c <~ opt expr;
           _ <~ tok TOK_SEMICOLON; u <~ opt expr; _ <~ tok TOK_RROUND; s <~ g_statement G;
           success (FOR_STATEMENT (FOR_INIT_EXPR i) c u s));
      seq (_ <~ keyword "for"; _ <~ tok TOK_LROUND; d <~ decl; c <~ opt expr; _ <~ tok TOK_SEMICOLON; u <~ opt expr;
           _ <~ tok TOK_RROUND; s <~ g_statement G; success (FOR_STATEMENT (FOR_INIT_DECL d) c u s))].
Definition jump_statement : parser ASTStatement :=
  or [seq (_ <~ keyword "goto"; n <~ identifier_name; _ <~ tok TOK_SEMICOLON; success (GOTO_STATEMENT n));
      seq (_ <~ keyword "continue"; _ <~ tok TOK_SEMICOLON; success CONTINUE_STATEMENT);
      seq (_ <~ keyword "break"; _ <~ tok TOK_SEMICOLON; success BREAK_STATEMENT);
      seq (_ <~ keyword "return"; e <~ opt expr; _ <~ tok TOK_SEMICOLON; success (RETURN_STATEMENT e))].
Definition statement : parser ASTStatement :=
  or [labeled_statement; compound_statement; jump_statement; selection_statement; iteration_statement; expr_statement].

Definition block_item : parser ASTBlockItem := or [as_ BLOCK_ITEM_DECL decl; as_ BLOCK_ITEM_STATEMENT statement].
Definition block_item_list : parser (list ASTBlockItem) := list_of (seq block_item) no_separator.

(** ** Translation units *)

Definition function_definition : parser ASTFunctionDef :=
  seq (l <~ decl_specifiers; d <~ declarator; p <~ opt (list_of decl no_separator); b <~ compound_statement;
       success (mkFunctionDef l d (default [] p) b)).
Definition external_decl : parser ASTToplevel := seq (or [as_ FUNCTION_DEF function_definition; as_ DECL decl]).
Definition translation_unit : parser (list ASTToplevel) := list_of external_decl no_separator.

Definition rules : Grammar :=
  mkGrammar expr assignment_expr conditional_expr cast_expr unary_expr type_name initializer_list declarator
    abstract_declarator parameter_list field_decl statement block_item_list.
End Rules.

Definition no_levels : Grammar :=
  let p {A} : parser A := lift (Stop NoFuel) in mkGrammar p p p p p p p p p p p p p.
Fixpoint grammar_at (n : nat) : Grammar := match n with O => no_levels | S n => rules (grammar_at n) end.

(** Every call through the record is past another token. *)
Definition grammar : Grammar := grammar_at (S (length toks)).

(** ** Entry points *)

Inductive ParseError := UnexpectedToken (pos : SourceLoc) (t : TokenType) | UnknownParseError.
Definition parse_error (l : Longest) : ParseError :=
  if decide (unexpected_token l = TOK_INVALID) then UnknownParseError
  else UnexpectedToken (longest_parse_pos l) (unexpected_token l).

(** What is reported or built, and the static variables afterwards. *)
Definition finish {A} (r : option A) (p : Parser) : res ((ParseError + A) * Longest) :=
  if decide (position p = length toks) then
    match r with Some a => Ok (inr a, longest p) | None => Stop Undef end
  else Ok (inl (parse_error (longest p)), longest p).

Definition parse_toplevel (l : Longest) : res ((ParseError + list ASTToplevel) * Longest) :=
  '(r, p) ← translation_unit grammar (mkParser 0 builtin_types l); finish r p.
Definition parse_expr (l : Longest) : res ((ParseError + ASTExpr) * Longest) :=
  '(r, p) ← expr grammar (mkParser 0 [] l); finish r p.

End Parse.
