(* ===== verification/ParseSound.v ===== *)
(** * The parser ends

    Every rule gets past the token it starts at or leaves the position where it is, so
    the loops and the recursion of the parser end within the fuel they get, and no
    action meets a token it does not know. *)

From S2P Require Import Prelude Reader Lex Ast Parse.

Local Open Scope nat_scope.

Section Ends.
Context (toks : list SourceToken).

(** The tokens that are left. *)
Definition left (s : Parser) : nat := length toks - position s.

(** [p] ends on at most [n] tokens without an internal error; its results satisfy [Q]; a
    strict one reads a token when it succeeds. *)
Definition good {A} (Q : A -> Prop) (n : nat) (strict : bool) (p : parser A) : Prop := forall s, left s <= n ->
  match p s with
  | Ok (Some a, s') => Q a /\ (if strict then left s' < left s else left s' <= left s)
  | Ok (None, s') => left s' <= left s
  | Stop Undef => True
  | Stop _ => False
  end.
Definition fine {A} (n : nat) (strict : bool) (p : parser A) : Prop := good (fun _ => True) n strict p.

Lemma good_weaken {A} (Q Q' : A -> Prop) n m (b b' : bool) p : m <= n -> (b' = true -> b = true) -> (forall a, Q a -> Q' a) ->
  good Q n b p -> good Q' m b' p.
Proof.
  intros Hm Hb HQ H s Hs. specialize (H s ltac:(lia)). destruct (p s) as [[[a|] s']|e]; [| done | done].
  destruct H as [H1 H2]. split; [by apply HQ |]. destruct b, b'; lia.
Qed.
Lemma fine_weaken {A} n m (p : parser A) b : m <= n -> fine n b p -> fine m b p.
Proof. intros H. by apply good_weaken. Qed.
Lemma fine_loose {A} n (p : parser A) : fine n true p -> fine n false p.
Proof. by apply good_weaken. Qed.
Lemma good_fine {A} Q n b (p : parser A) : good Q n b p -> fine n b p.
Proof. by apply good_weaken. Qed.

(** ** Names of declarators *)

Definition ends {A} (r : res A) : Prop := match r with Ok _ | Stop Undef => True | Stop _ => False end.
Fixpoint declarator_name_ends (d : ASTDeclarator) : ends (declarator_name d)
with direct_declarator_name_ends (d : ASTDirectDeclarator) : ends (direct_declarator_name d).
Proof.
  - destruct d as [[d|] | d]; [exact (declarator_name_ends d) | exact I | exact (direct_declarator_name_ends d)].
  - destruct d as [d | name | d l | d l]; [exact (declarator_name_ends d) | exact I | exact (direct_declarator_name_ends d) ..].
Qed.

(** ** The combinators *)

Lemma good_success {A} (Q : A -> Prop) n a : Q a -> good Q n false (success a).
Proof. intros H s Hs. by split. Qed.
Lemma fine_success {A} n (a : A) : fine n false (success a).
Proof. by apply good_success. Qed.
Lemma fine_failure {A} n b : @fine A n b failure.
Proof. intros s Hs. cbn. lia. Qed.
Lemma fine_undef {A} n b : @fine A n b (lift (Stop Undef)).
Proof. done. Qed.
Lemma good_lift {A B} (Q : B -> Prop) n b (x : res A) (f : A -> parser B) a : x = Ok a -> good Q n b (f a) -> good Q n b (y ← lift x; f y).
Proof. intros -> H s Hs. exact (H s Hs). Qed.

Lemma good_part_strict {A B} (P : A -> Prop) (Q : B -> Prop) n b (p : parser A) (f : A -> parser B) : good P n true p ->
  (forall m a, m < n -> P a -> good Q m false (f a)) -> good Q n b (part p f).
Proof.
  intros Hp Hf s Hs. specialize (Hp s Hs). unfold part, mbind, st_bind. destruct (p s) as [[[a|] s']|e]; [| exact Hp | exact Hp].
  destruct Hp as [Ha Hl]. specialize (Hf (left s') a ltac:(lia) Ha s' ltac:(lia)).
  destruct (f a s') as [[[x|] s'']|e]; [destruct Hf; split; [done | destruct b; lia] | lia | done].
Qed.
Lemma good_part_loose {A B} (P : A -> Prop) (Q : B -> Prop) n b (p : parser A) (f : A -> parser B) : good P n false p ->
  (forall a, P a -> good Q n b (f a)) -> good Q n b (part p f).
Proof.
  intros Hp Hf s Hs. specialize (Hp s Hs). unfold part, mbind, st_bind. destruct (p s) as [[[a|] s']|e]; [| exact Hp | exact Hp].
  destruct Hp as [Ha Hl]. specialize (Hf a Ha s' ltac:(lia)).
  destruct (f a s') as [[[x|] s'']|e]; [destruct Hf; split; [done | destruct b; lia] | lia | done].
Qed.
Lemma good_seq {A} (Q : A -> Prop) n b (p : parser A) : good Q n b p -> good Q n b (seq p).
Proof.
  intros Hp s Hs. specialize (Hp s Hs). unfold seq, mbind, st_bind, get. destruct (p s) as [[[a|] s']|e]; [done | | done].
  unfold left. cbn. lia.
Qed.
Lemma good_or {A} (Q : A -> Prop) n b (l : list (parser A)) : Forall (good Q n b) l -> good Q n b (or l).
Proof.
  induction 1 as [|p l Hp _ IH]; [intros s Hs; cbn; lia |]. intros s Hs. specialize (Hp s Hs).
  cbn [or]. unfold mbind, st_bind, get. destruct (p s) as [[[a|] s']|e]; [done | | done].
  specialize (IH (set_position (position s) s')). unfold modify. unfold left in *. cbn [set_position position] in *. by apply IH.
Qed.
Lemma good_as {A B} (P : A -> Prop) n b (f : A -> B) (p : parser A) : good P n b p -> fine n b (as_ f p).
Proof.
  intros Hp. unfold as_. destruct b.
  - eapply good_part_strict; [exact Hp |]. intros. apply fine_success.
  - eapply good_part_loose; [exact Hp |]. intros. apply fine_success.
Qed.
Lemma fine_opt {A} n b (p : parser A) : fine n b p -> fine n false (opt p).
Proof.
  intros Hp s Hs. specialize (Hp s Hs). unfold opt, mbind, st_bind. destruct (p s) as [[[a|] s']|e]; [| done | done].
  destruct Hp as [_ Hp]. split; [done |]. destruct b; lia.
Qed.

Lemma fine_list_loop {A} n (p : parser A) sep : fine n true p -> fine n false sep -> forall k s acc, left s <= n -> left s < k ->
  match list_loop k p sep acc s with
  | Ok (Some _, s') => left s' <= left s
  | Ok (None, _) => False
  | Stop Undef => True
  | Stop _ => False
  end.
Proof.
  intros Hp Hsep. induction k as [|k IH]; intros s acc Hs Hk; [lia |]. cbn [list_loop]. specialize (Hsep s Hs).
  unfold mbind, st_bind. destruct (sep s) as [[[u|] s1]|e]; [| cbn; lia | done]. destruct Hsep as [_ H1].
  specialize (Hp s1 ltac:(lia)). destruct (p s1) as [[[a|] s2]|e]; [| cbn; lia | done]. destruct Hp as [_ H2].
  specialize (IH s2 (acc ++ [a]) ltac:(lia) ltac:(lia)). destruct (list_loop k p sep (acc ++ [a]) s2) as [[[x|] s3]|e]; [lia | done | done].
Qed.
Lemma left_bound s : left s < S (length toks).
Proof. unfold left. lia. Qed.
Lemma fine_list_of {A} n (p : parser A) sep : fine n true p -> fine n false sep -> fine n false (list_of toks p sep).
Proof.
  intros Hp Hsep s Hs. unfold list_of. pose proof (Hp s Hs) as H1. unfold mbind, st_bind.
  destruct (p s) as [[[a|] s1]|e]; [| done | done]. destruct H1 as [_ H1]. unfold list_from.
  pose proof (fine_list_loop n p sep Hp Hsep (S (length toks)) s1 [a] ltac:(lia) (left_bound s1)) as H2.
  destruct (list_loop _ _ _ _ _) as [[[x|] s2]|e]; [split; [done | lia] | done | done].
Qed.
Lemma fine_nonempty_list {A} n (p : parser A) : fine n true p -> fine n true (nonempty_list toks p).
Proof.
  intros Hp s Hs. unfold nonempty_list, part. pose proof (Hp s Hs) as H1. unfold mbind, st_bind.
  destruct (p s) as [[[a|] s1]|e]; [| done | done]. destruct H1 as [_ H1]. unfold list_from.
  pose proof (fine_list_loop n p (success tt) Hp (fine_success n tt) (S (length toks)) s1 [a] ltac:(lia) (left_bound s1)) as H2.
  destruct (list_loop _ _ _ _ _) as [[[x|] s2]|e]; [split; [done | lia] | done | done].
Qed.

Lemma fine_fold {A B} (P : B -> Prop) n (f : A -> B -> res A) (initial : parser A) (next : parser B) :
  fine n true initial -> good P n true next -> (forall a b, P b -> exists c, f a b = Ok c) -> fine n true (fold toks f initial next).
Proof.
  intros Hi Hn Hf s Hs. unfold fold, part. pose proof (Hi s Hs) as H1. unfold mbind, st_bind.
  destruct (initial s) as [[[a|] s1]|e]; [| done | done]. destruct H1 as [_ H1].
  assert (L : forall k s a, left s <= n -> left s < k ->
    match fold_loop k f next a s with Ok (Some _, s') => left s' <= left s | Ok (None, _) => False | Stop Undef => True | Stop _ => False end).
  { induction k as [|k IH]; intros s0 a0 Hs0 Hk; [lia |]. cbn [fold_loop]. pose proof (Hn s0 Hs0) as H2.
    unfold mbind, st_bind. destruct (next s0) as [[[b|] s2]|e]; [| cbn; lia | done]. destruct H2 as [Hb H2].
    destruct (Hf a0 b Hb) as [c Ec]. unfold lift. rewrite Ec. specialize (IH s2 c ltac:(lia) ltac:(lia)).
    destruct (fold_loop k f next c s2) as [[[x|] s3]|e]; [lia | done | done]. }
  specialize (L (S (length toks)) s1 a ltac:(lia) (left_bound s1)).
  destruct (fold_loop _ _ _ _ _) as [[[x|] s2]|e]; [split; [done | lia] | done | done].
Qed.

(** ** Tokens *)

Lemma read_token_run s : match read_token toks s with
  | Ok (t, s') => left s' < left s /\ position s' = S (position s) /\ toks !! position s = Some t
  | Stop Undef => True | Stop _ => False end.
Proof.
  unfold read_token, mbind, st_bind, get, lift, of_opt. destruct (toks !! position s) as [t|] eqn:E; [| done].
  apply lookup_lt_Some in E as Hl. unfold modify, mret, st_ret, left. cbn. split; [lia | done].
Qed.
Lemma current_token_run s : (exists t, current_token toks s = Ok (t, s)) \/ current_token toks s = Stop Undef.
Proof.
  unfold current_token, mbind, st_bind, get, lift, of_opt. destruct (toks !! position s) as [t|]; [left; by exists t | by right].
Qed.
Lemma back_up_run s : exists s', back_up s = Ok (tt, s') /\ position s' = position s - 1.
Proof. by eexists. Qed.
Lemma note_run t s : exists s', note_unexpected t s = Ok (tt, s') /\ position s' = position s.
Proof. unfold note_unexpected, mbind, st_bind, get. destruct (_ <? _); by eexists. Qed.

Lemma good_tok n t : good (fun x => tok_t x = t) n true (tok toks t).
Proof.
  intros s Hs. unfold tok, at_tokens_end, mbind, st_bind, get, mret, st_ret. destruct (length toks <=? position s); [cbn; lia |].
  pose proof (read_token_run s) as H. destruct (read_token toks s) as [[r s']|e]; [| done]. destruct H as (H1 & H2 & H3).
  case_decide; [done |]. unfold back_up, modify.
  destruct (note_run r (set_position (position s' - 1) s')) as (s2 & -> & E). cbn in *. unfold left in *. lia.
Qed.
Lemma fine_keyword n k : fine n true (keyword toks k).
Proof.
  intros s Hs. unfold keyword, at_tokens_end, mbind, st_bind, get, mret, st_ret. destruct (length toks <=? position s); [cbn; lia |].
  pose proof (read_token_run s) as H. destruct (read_token toks s) as [[r s']|e]; [| done]. destruct H as (H1 & H2 & H3).
  destruct (is_keyword k (token r)); [done |]. unfold back_up, modify.
  destruct (note_run r (set_position (position s' - 1) s')) as (s2 & -> & E). cbn in *. unfold left in *. lia.
Qed.
Lemma fine_symbol n : fine n true (symbol toks).
Proof.
  unfold symbol. eapply good_part_strict; [apply good_tok |]. intros m a Hm Ha s Hs. unfold token_symbol.
  destruct (tok_u a); done.
Qed.

(** ** Rules *)

Record fine_grammar (n : nat) (G : Grammar) : Prop := mkFineGrammar {
  fine_g_expr : fine n true (g_expr G);
  fine_g_assignment_expr : fine n true (g_assignment_expr G);
  fine_g_conditional_expr : fine n true (g_conditional_expr G);
  fine_g_cast_expr : fine n true (g_cast_expr G);
  fine_g_unary_expr : fine n true (g_unary_expr G);
  fine_g_type_name : fine n true (g_type_name G);
  fine_g_initializer_list : fine n false (g_initializer_list G);
  fine_g_declarator : fine n true (g_declarator G);
  fine_g_abstract_declarator : fine n false (g_abstract_declarator G);
  fine_g_parameter_list : fine n false (g_parameter_list G);
  fine_g_field_decl : fine n true (g_field_decl G);
  fine_g_statement : fine n true (g_statement G);
  fine_g_block_item_list : fine n false (g_block_item_list G)
}.

(** The rules that begin again do so with fewer tokens left. *)
Definition below (n : nat) (G : Grammar) : Prop := forall m, m < n -> fine_grammar m G.
Lemma below_weaken m n G : m <= n -> below n G -> below m G.
Proof. intros H HG k Hk. apply HG. lia. Qed.

Lemma fine_part_strict {A B} n b (p : parser A) (f : A -> parser B) : fine n true p ->
  (forall m a, m < n -> fine m false (f a)) -> fine n b (part p f).
Proof. intros Hp Hf. eapply good_part_strict; [exact Hp |]. intros m a Hm _. by apply Hf. Qed.
Lemma fine_part_loose {A B} n b (p : parser A) (f : A -> parser B) : fine n false p ->
  (forall a, fine n b (f a)) -> fine n b (part p f).
Proof. intros Hp Hf. eapply good_part_loose; [exact Hp |]. intros a _. by apply Hf. Qed.
Lemma fine_seq {A} n b (p : parser A) : fine n b p -> fine n b (seq p).
Proof. apply good_seq. Qed.
Lemma fine_as {A B} n b (f : A -> B) (p : parser A) : fine n b p -> fine n b (as_ f p).
Proof. apply good_as. Qed.
Lemma fine_or_nil {A} n b : fine n b (or ([] : list (parser A))).
Proof. by apply good_or. Qed.
Lemma fine_or_cons {A} n b (p : parser A) l : fine n b p -> fine n b (or l) -> fine n b (or (p :: l)).
Proof.
  intros Hp Hl s Hs. specialize (Hp s Hs). cbn [or]. unfold mbind, st_bind, get. destruct (p s) as [[[a|] s']|e]; [done | | done].
  specialize (Hl (set_position (position s) s')). unfold modify. unfold left in *. cbn [set_position position] in *. by apply Hl.
Qed.
Lemma fine_tok n t : fine n true (tok toks t).
Proof. eapply good_fine, good_tok. Qed.
Lemma fine_comma n : fine n true (comma toks).
Proof. apply fine_as, fine_tok. Qed.
Lemma fine_no_separator n : fine n false no_separator.
Proof. apply fine_success. Qed.

Create HintDb parse_rules.
#[local] Hint Resolve fine_tok fine_keyword fine_symbol fine_comma fine_no_separator fine_success : parse_rules.
#[local] Hint Resolve fine_g_expr fine_g_assignment_expr fine_g_conditional_expr fine_g_cast_expr fine_g_unary_expr fine_g_type_name fine_g_initializer_list fine_g_declarator fine_g_abstract_declarator fine_g_parameter_list fine_g_field_decl fine_g_statement fine_g_block_item_list : parse_rules.

(** A rule that is known, at the level of the hypothesis or at a lower one. *)
Ltac known_rule :=
  solve [ eauto 3 with parse_rules
        | match goal with H : below ?n _ |- fine ?m _ _ => pose proof (below_weaken m n _ ltac:(lia) H); eauto 3 with parse_rules end
        | match goal with H : below _ _ |- fine ?m _ _ => pose proof (H m ltac:(lia)); eauto 3 with parse_rules end ].
(** Takes a rule apart. *)
Ltac fine_rule :=
  lazymatch goal with
  | |- fine _ _ (seq _) => apply fine_seq; fine_rule
  | |- fine _ _ (as_ _ _) => apply fine_as; fine_rule
  | |- fine _ _ (or []) => apply fine_or_nil
  | |- fine _ _ (or (_ :: _)) => apply fine_or_cons; fine_rule
  | |- fine _ _ (opt _) => first [apply (fine_opt _ true); solve [fine_rule] | apply (fine_opt _ false); solve [fine_rule]]
  | |- fine _ _ (list_of _ _ _) => apply fine_list_of; fine_rule
  | |- fine _ _ (nonempty_list _ _) => apply fine_nonempty_list; fine_rule
  | |- fine _ _ (part _ _) =>
      first [ apply fine_part_strict; [solve [fine_rule] | intros; fine_rule]
            | apply fine_part_loose; [solve [fine_rule] | intros; fine_rule] ]
  | |- fine _ _ (success _) => apply fine_success
  | |- fine _ _ _ => first [known_rule | apply fine_loose; known_rule]
  end.

Ltac alternatives :=
  lazymatch goal with
  | |- fine _ _ (or []) => apply fine_or_nil
  | |- fine _ _ (or (_ :: _)) => apply fine_or_cons; [| alternatives]
  end.

Section Rules.
Context (G : Grammar).

Lemma fine_argument_expr_list n : fine_grammar n G -> fine n false (argument_expr_list toks G).
Proof. intros HG. unfold argument_expr_list. fine_rule. Qed.

(** *** Expressions *)

Lemma fine_constant n : fine n true (constant toks).
Proof.
  eapply (good_part_strict (fun t => tok_t t = TOK_INT_LITERAL \/ tok_t t = TOK_FLOAT_LITERAL \/ tok_t t = TOK_STRING_LITERAL)).
  - apply good_or. repeat constructor; (eapply good_weaken; [| | | apply good_tok]; [done | done | tauto]).
  - intros m a Hm [E|[E|E]] s Hs; unfold build_constant; rewrite E; destruct (tok_u a); done.
Qed.
Lemma fine_named n : fine n true (named_type toks).
Proof.
  intros s Hs. unfold named_type, at_tokens_end, type_table_look_up_name, mbind, st_bind, get, mret, st_ret.
  destruct (length toks <=? position s); [cbn; lia |].
  pose proof (read_token_run s) as H. destruct (read_token toks s) as [[r s']|e]; [| done]. destruct H as (H1 & H2 & H3).
  unfold back_up, modify, failure, success, lift.
  destruct (tok_t (token r)); try (cbn; unfold left in *; cbn; lia).
  destruct (tok_u (token r)); try done. destruct (bool_decide _); [done |]. cbn. unfold left in *. cbn. lia.
Qed.
Lemma fine_identifier_name n : fine n true (identifier_name toks).
Proof.
  intros s Hs. unfold identifier_name, type_table_look_up_name, mbind, st_bind, get, mret, st_ret.
  pose proof (read_token_run s) as H. destruct (read_token toks s) as [[r s']|e]; [| done]. destruct H as (H1 & H2 & H3).
  unfold back_up, modify, failure, success, lift.
  destruct (tok_t (token r)); try (cbn; unfold left in *; cbn; lia).
  destruct (tok_u (token r)); try done. case_decide; [cbn; unfold left in *; cbn; lia |].
  destruct (bool_decide _); [| done]. cbn. unfold left in *. cbn. lia.
Qed.
Lemma fine_identifier n : fine n true (identifier toks).
Proof. apply fine_as, fine_identifier_name. Qed.
#[local] Hint Resolve fine_argument_expr_list fine_constant fine_named fine_identifier_name fine_identifier : parse_rules.

Lemma fine_primary_expr n : below n G -> fine n true (primary_expr toks G).
Proof. intros HG. unfold primary_expr. fine_rule. Qed.
#[local] Hint Resolve fine_primary_expr : parse_rules.
Lemma fine_postfix_tail n : below n G -> fine n true (postfix_tail toks G).
Proof. intros HG. unfold postfix_tail. fine_rule. Qed.
Lemma fine_postfix_expr n : below n G -> fine n true (postfix_expr toks G).
Proof.
  intros HG. unfold postfix_expr. apply fine_or_cons; [fine_rule |]. apply fine_or_cons; [| fine_rule].
  eapply fine_fold; [by apply fine_primary_expr | by apply fine_postfix_tail |]. intros a b _. by eexists.
Qed.

Definition known_unary (t : Token) : Prop := forall e, exists x, build_unary_expr t e = Ok x.
Lemma good_unary_tok n t : (forall x, tok_t x = t -> known_unary x) -> good known_unary n true (tok toks t).
Proof. intros H. eapply good_weaken; [| | exact H | apply good_tok]; done. Qed.
Lemma fine_with_operator n op arg : good known_unary n true op -> (forall m, m < n -> fine m true arg) -> fine n true (with_operator op arg).
Proof.
  intros Hop Harg. apply fine_seq. eapply good_part_strict; [exact Hop |]. intros m t Hm Ht.
  apply fine_part_loose; [by apply fine_loose, Harg |]. intros e. destruct (Ht e) as [x E].
  eapply good_lift; [exact E |]. apply fine_success.
Qed.
Ltac unary_tok := apply good_unary_tok; intros x E e; unfold build_unary_expr; rewrite E; by eexists.
Lemma good_unary_operator n : good known_unary n true (unary_operator toks).
Proof. apply good_or. repeat constructor; unary_tok. Qed.
Lemma fine_unary_expr n : below n G -> fine n true (unary_expr toks G).
Proof.
  intros HG. unfold unary_expr. alternatives; try solve [fine_rule].
  - by apply fine_postfix_expr.
  - apply fine_with_operator; [unary_tok |]. intros m Hm. known_rule.
  - apply fine_with_operator; [unary_tok |]. intros m Hm. known_rule.
  - apply fine_with_operator; [apply good_unary_operator |]. intros m Hm. known_rule.
Qed.
#[local] Hint Resolve fine_unary_expr : parse_rules.
Lemma fine_cast_expr n : below n G -> fine n true (cast_expr toks G).
Proof. intros HG. unfold cast_expr. fine_rule. Qed.

Definition known_tail (t : TokenType) : Prop := forall c e, exists x, build_binary_head c (mkTail t e) = Ok x.
Lemma good_binary_tail n op arg : good (fun x => known_tail (tok_t x)) n true op -> (forall m, m < n -> fine m true arg) ->
  good (fun t => known_tail (operator t)) n true (binary_tail op arg).
Proof.
  intros Hop Harg. apply good_seq. eapply good_part_strict; [exact Hop |]. intros m t Hm Ht.
  eapply good_part_loose; [apply fine_loose; by apply Harg |]. intros e _. by apply good_success.
Qed.
Lemma good_tail_tok n t : known_tail t -> good (fun x => known_tail (tok_t x)) n true (tok toks t).
Proof. intros H. eapply good_weaken; [| | | apply good_tok]; [done | done | by intros a ->]. Qed.
Lemma fine_level n initial next : fine n true initial -> good (fun t => known_tail (operator t)) n true next ->
  fine n true (fold toks build_binary_head initial next).
Proof. intros Hi Hn. eapply fine_fold; [exact Hi | exact Hn |]. intros a [t e] H. apply H. Qed.
Lemma fine_binary_level n ops operand : Forall known_tail ops -> fine n true operand -> fine n true (binary_level toks ops operand).
Proof.
  intros Hops Ho. apply fine_level; [done |]. apply good_or. apply Forall_fmap. eapply Forall_impl; [exact Hops |].
  intros t Ht. apply good_binary_tail; [by apply good_tail_tok |]. intros m Hm. eapply fine_weaken; [| exact Ho]. lia.
Qed.
Lemma fine_single_level n op operand : known_tail op -> fine n true operand -> fine n true (single_level toks op operand).
Proof.
  intros Hop Ho. apply fine_level; [done |].
  apply good_binary_tail; [by apply good_tail_tok |]. intros m Hm. eapply fine_weaken; [| exact Ho]. lia.
Qed.
Lemma fine_logical_or_expr n : below n G -> fine n true (logical_or_expr toks G).
Proof.
  intros HG. repeat (apply fine_single_level; [intros ??; by eexists |]).
  repeat (apply fine_binary_level; [repeat constructor; intros ??; by eexists |]). by apply fine_cast_expr.
Qed.
#[local] Hint Resolve fine_logical_or_expr : parse_rules.
Lemma fine_conditional_expr n : below n G -> fine n true (conditional_expr toks G).
Proof. intros HG. unfold conditional_expr. fine_rule. Qed.
Lemma good_assignment_operator n : good (fun x => known_tail (tok_t x)) n true (assignment_operator toks).
Proof. apply good_or. repeat (apply Forall_cons; split; [apply good_tail_tok; intros ??; by eexists |]). constructor. Qed.
Lemma fine_assignment_expr n : below n G -> fine n true (assignment_expr toks G).
Proof.
  intros HG. apply fine_level; [by apply fine_conditional_expr |]. apply good_binary_tail; [apply good_assignment_operator |].
  intros m Hm. known_rule.
Qed.
#[local] Hint Resolve fine_assignment_expr : parse_rules.
Lemma fine_expr n : below n G -> fine n true (expr toks G).
Proof. intros HG. apply fine_single_level; [intros ??; by eexists |]. by apply fine_assignment_expr. Qed.
#[local] Hint Resolve fine_expr : parse_rules.

(** *** Declarators and specifiers *)

Lemma fine_type_qualifier n : fine n true (type_qualifier toks).
Proof. unfold type_qualifier. fine_rule. Qed.
#[local] Hint Resolve fine_type_qualifier : parse_rules.
Lemma fine_single_pointer n : fine n true (single_pointer toks).
Proof. unfold single_pointer. fine_rule. Qed.
Lemma fine_pointer n : fine n true (pointer toks).
Proof.
  eapply fine_fold; [apply fine_as, fine_seq, fine_single_pointer | apply fine_single_pointer |]. intros a b _. by eexists.
Qed.
#[local] Hint Resolve fine_pointer : parse_rules.

Lemma array_tail_ends n k start head : below n G -> forall lengths s, left s <= n -> left s < k -> left s <= length toks - start ->
  match array_tail toks G k start head lengths s with
  | Ok (_, s') => left s' <= length toks - start
  | Stop Undef => True
  | Stop _ => False
  end.
Proof.
  intros HG. induction k as [|k IH]; intros lengths s Hs Hk Hl; [lia |]. cbn [array_tail].
  unfold mbind, st_bind. destruct (current_token_run s) as [[t ->] | ->]; [| done].
  case_decide; [| exact Hl]. pose proof (read_token_run s) as H1. destruct (read_token toks s) as [[r s1]|e]; [| done].
  destruct H1 as [H1 _]. pose proof (fine_expr n HG s1 ltac:(lia)) as H2.
  destruct (expr toks G s1) as [[x s2]|e]; [| done]. assert (left s2 <= left s1) by (destruct x; lia).
  pose proof (read_token_run s2) as H3. destruct (read_token toks s2) as [[r' s3]|e]; [| done]. destruct H3 as [H3 _].
  case_decide; [| unfold modify, failure; cbn; unfold left; cbn; lia]. apply IH; lia.
Qed.
Lemma fine_direct_declarator_tail n head : below n G -> fine n false (direct_declarator_tail toks G head).
Proof.
  intros HG s Hs. unfold direct_declarator_tail, mbind, st_bind, get.
  pose proof (read_token_run s) as H1. destruct (read_token toks s) as [[t s1]|e]; [| done]. destruct H1 as (H1 & H2 & H3).
  assert (Hback : left (set_position (position s1 - 1) s1) <= left s) by (unfold left; cbn; lia).
  unfold back_up, modify, success, failure. destruct (tok_t (token t)); try exact (conj I Hback).
  - pose proof (fine_g_parameter_list _ _ (HG (left s1) ltac:(lia)) s1 ltac:(lia)) as H4.
    destruct (g_parameter_list G s1) as [[[l|] s2]|e]; [| cbn; unfold left; cbn; lia | done]. destruct H4 as [_ H4].
    pose proof (read_token_run s2) as H5. destruct (read_token toks s2) as [[r s3]|e]; [| done]. destruct H5 as [H5 _].
    case_decide; [split; [done | lia] | cbn; unfold left; cbn; lia].
  - pose proof (array_tail_ends n (S (length toks)) (position s) head HG [] (set_position (position s1 - 1) s1)) as H4.
    specialize (H4 ltac:(unfold left in *; cbn; lia) (left_bound _) ltac:(unfold left in *; cbn; lia)).
    destruct (array_tail _ _ _ _ _ _ _) as [[[x|] s2]|e]; [split; [done | exact H4] | exact H4 | exact H4].
Qed.

Lemma fine_direct_declarator n : below n G -> fine n true (direct_declarator toks G).
Proof.
  intros HG. apply fine_part_strict; [unfold direct_declarator_head; fine_rule |].
  intros m d Hm. apply fine_direct_declarator_tail. eapply below_weaken; [| exact HG]. lia.
Qed.
#[local] Hint Resolve fine_direct_declarator : parse_rules.
Lemma fine_declarator n : below n G -> fine n true (declarator toks G).
Proof. intros HG. unfold declarator. fine_rule. Qed.
#[local] Hint Resolve fine_declarator : parse_rules.
Lemma fine_direct_abstract_declarator n : below n G -> fine n false (direct_abstract_declarator toks G).
Proof.
  intros HG. apply fine_part_loose; [unfold direct_abstract_declarator_head; fine_rule |].
  intros d. by apply fine_direct_declarator_tail.
Qed.
#[local] Hint Resolve fine_direct_abstract_declarator : parse_rules.
Lemma fine_abstract_declarator n : below n G -> fine n false (abstract_declarator toks G).
Proof. intros HG. unfold abstract_declarator. fine_rule. Qed.
#[local] Hint Resolve fine_abstract_declarator : parse_rules.

Lemma fine_storage_class_specifier n : fine n true (storage_class_specifier toks).
Proof. unfold storage_class_specifier. fine_rule. Qed.
Lemma fine_attribute n : fine n true (attribute toks).
Proof. unfold attribute. fine_rule. Qed.
Lemma fine_struct_or_union n : fine n true (struct_or_union toks).
Proof. unfold struct_or_union. fine_rule. Qed.
#[local] Hint Resolve fine_storage_class_specifier fine_attribute fine_struct_or_union : parse_rules.
Lemma fine_struct_or_union_specifier n : below n G -> fine n true (struct_or_union_specifier toks G).
Proof. intros HG. unfold struct_or_union_specifier. fine_rule. Qed.
Lemma fine_enumerator n : below n G -> fine n true (enumerator toks G).
Proof. intros HG. unfold enumerator. fine_rule. Qed.
#[local] Hint Resolve fine_struct_or_union_specifier fine_enumerator : parse_rules.
Lemma fine_enumerator_list n : below n G -> fine n false (enumerator_list toks G).
Proof. intros HG. unfold enumerator_list. fine_rule. Qed.
#[local] Hint Resolve fine_enumerator_list : parse_rules.
Lemma fine_enum_specifier n : below n G -> fine n true (enum_specifier toks G).
Proof. intros HG. unfold enum_specifier. fine_rule. Qed.
#[local] Hint Resolve fine_enum_specifier : parse_rules.
Lemma fine_type_specifier n : below n G -> fine n true (type_specifier toks G).
Proof. intros HG. unfold type_specifier. fine_rule. Qed.
#[local] Hint Resolve fine_type_specifier : parse_rules.
Lemma fine_decl_specifiers n : below n G -> fine n true (decl_specifiers toks G).
Proof. intros HG. unfold decl_specifiers, function_specifier. fine_rule. Qed.
#[local] Hint Resolve fine_decl_specifiers : parse_rules.
Lemma fine_type_name n : below n G -> fine n true (type_name toks G).
Proof. intros HG. unfold type_name. fine_rule. Qed.
Lemma fine_parameter_list n : below n G -> fine n false (parameter_list toks G).
Proof. intros HG. unfold parameter_list, parameter_decl. fine_rule. Qed.
Lemma fine_field_declarator n : below n G -> fine n true (field_declarator toks G).
Proof. intros HG. unfold field_declarator. fine_rule. Qed.
#[local] Hint Resolve fine_field_declarator : parse_rules.
Lemma fine_field_decl n : below n G -> fine n true (field_decl toks G).
Proof. intros HG. unfold field_decl. fine_rule. Qed.

(** *** Initialisers and declarations *)

Lemma fine_initializer n : below n G -> fine n true (initializer toks G).
Proof. intros HG. unfold initializer. fine_rule. Qed.
Lemma fine_designator n : below n G -> fine n true (designator toks G).
Proof. intros HG. unfold designator. fine_rule. Qed.
#[local] Hint Resolve fine_initializer fine_designator : parse_rules.
Lemma fine_initializer_list n : below n G -> fine n false (initializer_list toks G).
Proof. intros HG. unfold initializer_list, initializer_element. fine_rule. Qed.

Lemma add_typedef_names_ends l : forall s,
  match add_typedef_names l s with Ok (_, s') => position s' = position s | Stop e => e = Undef end.
Proof.
  induction l as [|d l IH]; intros s; [done |]. cbn [add_typedef_names]. unfold mbind, st_bind, lift.
  pose proof (declarator_name_ends (id_declarator d)) as H. destruct (declarator_name _) as [[x|]|[]]; try done; [| apply IH].
  unfold type_table_add_entry, modify. specialize (IH (set_types (defined_types s ++ [bytes_of x]) s)).
  destruct (add_typedef_names l _) as [[u s']|e]; done.
Qed.
Lemma fine_build_decl n l d : fine n false (x ← build_decl l d; success x).
Proof.
  intros s Hs. unfold build_decl, mbind, st_bind. destruct (existsb is_typedef l); [| by split].
  pose proof (add_typedef_names_ends d s) as H. destruct (add_typedef_names d s) as [[u s']|e]; [| by rewrite H].
  split; [done |]. unfold left. lia.
Qed.
Lemma fine_init_declarator n : below n G -> fine n true (init_declarator toks G).
Proof. intros HG. unfold init_declarator. fine_rule. Qed.
#[local] Hint Resolve fine_init_declarator fine_build_decl : parse_rules.
Lemma fine_decl n : below n G -> fine n true (decl toks G).
Proof. intros HG. unfold decl. fine_rule. Qed.
#[local] Hint Resolve fine_decl : parse_rules.

(** *** Statements and translation units *)

Lemma fine_labeled_statement n : below n G -> fine n true (labeled_statement toks G).
Proof. intros HG. unfold labeled_statement. fine_rule. Qed.
Lemma fine_compound_statement n : below n G -> fine n true (compound_statement toks G).
Proof. intros HG. unfold compound_statement. fine_rule. Qed.
Lemma fine_expr_statement n : below n G -> fine n true (expr_statement toks G).
Proof. intros HG. unfold expr_statement. fine_rule. Qed.
Lemma fine_selection_statement n : below n G -> fine n true (selection_statement toks G).
Proof. intros HG. unfold selection_statement. fine_rule. Qed.
Lemma fine_iteration_statement n : below n G -> fine n true (iteration_statement toks G).
Proof. intros HG. unfold iteration_statement. fine_rule. Qed.
Lemma fine_jump_statement n : below n G -> fine n true (jump_statement toks G).
Proof. intros HG. unfold jump_statement. fine_rule. Qed.
#[local] Hint Resolve fine_labeled_statement fine_compound_statement fine_expr_statement fine_selection_statement
  fine_iteration_statement fine_jump_statement : parse_rules.
Lemma fine_statement n : below n G -> fine n true (statement toks G).
Proof. intros HG. unfold statement. fine_rule. Qed.
#[local] Hint Resolve fine_statement : parse_rules.
Lemma fine_block_item_list n : below n G -> fine n false (block_item_list toks G).
Proof. intros HG. unfold block_item_list, block_item. fine_rule. Qed.
Lemma fine_function_definition n : below n G -> fine n true (function_definition toks G).
Proof. intros HG. unfold function_definition. fine_rule. Qed.
#[local] Hint Resolve fine_function_definition : parse_rules.
Lemma fine_translation_unit n : below n G -> fine n false (translation_unit toks G).
Proof. intros HG. unfold translation_unit, external_decl. fine_rule. Qed.

Lemma fine_rules n : below n G -> fine_grammar n (rules toks G).
Proof.
  intros HG. split; [by apply fine_expr | by apply fine_assignment_expr | by apply fine_conditional_expr | by apply fine_cast_expr
    | by apply fine_unary_expr | by apply fine_type_name | by apply fine_initializer_list | by apply fine_declarator
    | by apply fine_abstract_declarator | by apply fine_parameter_list | by apply fine_field_decl | by apply fine_statement
    | by apply fine_block_item_list].
Qed.
End Rules.

(** ** The whole parser *)

Lemma fine_grammar_at n : below n (grammar_at toks n).
Proof.
  induction n as [|n IH]; intros m Hm; [lia |]. apply fine_rules. eapply below_weaken; [| exact IH]. lia.
Qed.
Lemma fine_grammar_whole : below (S (length toks)) (grammar toks).
Proof. apply fine_grammar_at. Qed.

Lemma whole_ends {A} b (p : parser A) l types : fine (length toks) b p ->
  ends ('(r, s) ← p (mkParser 0 types l); finish toks r s).
Proof.
  intros Hp. specialize (Hp (mkParser 0 types l) ltac:(unfold left; cbn; lia)).
  destruct (p _) as [[[a|] s']|e]; cbn; [| | by destruct e]; unfold finish; by case_decide.
Qed.
End Ends.

(** C13: parsing ends: whatever the tokens are and whatever an earlier parse has left in
    the static variables, [parse_toplevel] and [parse_expr] return a tree or an error, or
    read past the end of the tokens; they do not run forever, no recursion of the grammar
    is without progress and no action meets a token or an alternative it does not know. *)
Theorem parse_terminates (toks : list SourceToken) (l : Longest) :
  match parse_toplevel toks l with Ok _ => True | Stop e => e = Undef end /\
  match parse_expr toks l with Ok _ => True | Stop e => e = Undef end.
Proof.
  assert (H : forall A (r : res A), ends r -> match r with Ok _ => True | Stop e => e = Undef end) by (by intros A [a|[]]).
  pose proof (below_weaken _ (length toks) _ _ (Nat.le_succ_diag_r _) (fine_grammar_whole toks)) as HG. split; apply H.
  - by eapply whole_ends, fine_translation_unit.
  - by eapply whole_ends, fine_expr.
Qed.

(** ** What the parser accepts and what it does not notice *)

Definition tokens_of (s : string) : list SourceToken :=
  match lex 3000 (bytes_of s) [mkAdjustment NORMAL_ADJUSTMENT 0 (mkLoc None 0)] with Ok (_, l, _) => l | Stop _ => [] end.
Definition accepts (s : string) : bool :=
  match parse_toplevel (tokens_of s) no_longest with Ok (inr _, _) => true | _ => false end.

Example accepts_program : accepts "typedef struct P { int x, y; } P; int f(P *p, int n) { for (int i = 0; i < n; i++) if (p[i].x > 3) return (int)sizeof(P); return -1; }" = true.
Proof. vm_compute. reflexivity. Qed.
(** A list has taken its separator before it finds that no element follows. *)
Example accepts_trailing_comma : accepts "int g(int a, );" && accepts "enum { A,, } e;" && accepts "int a[] = { 1,, };" && accepts "int x = f(1, );" && accepts "int a, ;" = true.
Proof. vm_compute. reflexivity. Qed.
(** The list of designators before [=] may be empty. *)
Example accepts_no_designator : accepts "int a[] = { = 3 };" = true.
Proof. vm_compute. reflexivity. Qed.
(** [identifier] and [direct_declarator_tail] read without looking for the end. *)
Example reads_past_end : parse_toplevel (tokens_of "int main(void) {") no_longest = Stop Undef /\ parse_toplevel (tokens_of "int x") no_longest = Stop Undef.
Proof. split; vm_compute; reflexivity. Qed.
(** The name of a declarator that is only pointers is asked for. *)
Example typedef_without_name : parse_toplevel (tokens_of "typedef int *;") no_longest = Stop Undef.
Proof. vm_compute. reflexivity. Qed.
(** A compound literal is not a primary expression. *)
Example compound_literal_operators : accepts "int *p = (int[]){ 1 };" = true /\ accepts "int x = (int[]){ 1 }[0];" = false.
Proof. split; vm_compute; reflexivity. Qed.
(** A name that was once a type stays one. *)
Example type_names_stay : accepts "typedef int T; int f(void) { int T; T = 1; return T; }" = false /\ accepts "int f(void) { int T; T = 1; return T; }" = true.
Proof. split; vm_compute; reflexivity. Qed.
(** The static variables of an earlier parse, here of the expression of a directive, are
    what the next error is reported from. *)
Example error_of_earlier_parse :
  match parse_expr (tokens_of "1 + 2 + 3 + 4 + ;") no_longest with
  | Ok (_, l) => match parse_toplevel (tokens_of "int f } ;") l with Ok (inl e, _) => e = parse_error l | _ => False end
  | Stop _ => False
  end.
Proof. vm_compute. reflexivity. Qed.
