(* ===== verification/ParseExpr.v ===== *)
(** * Expressions are read with their precedence

    [print_at k e] prints an expression with parentheses only where its operator binds
    less tightly than the place, of level [k], it stands in; the parser reads it back. The
    grammar is not ambiguous to a parsing expression grammar, which takes the first
    alternative that fits, so this shows that its alternatives are in the right order:
    precedence, associativity and the extent of every operator are those of C. Casts,
    compound literals and the operators that take a type are left out. *)

From S2P Require Import Prelude Reader Lex Ast Parse.

Local Open Scope nat_scope.

(** ** Printing *)

(** The levels of the grammar from the tightest: postfix, unary and cast expressions, the
    ten levels of binary operators, conditional, assignment and comma. *)
Definition continuations (k : nat) : list TokenType :=
  match k with
  | 0 => [TOK_LSQUARE; TOK_LROUND; TOK_DOT; TOK_ARROW; TOK_INCREMENT; TOK_DECREMENT]
  | 3 => [TOK_ASTERISK; TOK_DIVIDE; TOK_MODULO]
  | 4 => [TOK_PLUS; TOK_MINUS]
  | 5 => [TOK_LEFT_SHIFT; TOK_RIGHT_SHIFT]
  | 6 => [TOK_LESS_THAN; TOK_GREATER_THAN; TOK_LESS_THAN_OR_EQUAL; TOK_GREATER_THAN_OR_EQUAL]
  | 7 => [TOK_EQUAL; TOK_NOT_EQUAL]
  | 8 => [TOK_AMPERSAND]
  | 9 => [TOK_BIT_XOR]
  | 10 => [TOK_BIT_OR]
  | 11 => [TOK_LOGICAL_AND]
  | 12 => [TOK_LOGICAL_OR]
  | 13 => [TOK_QUESTION_MARK]
  | 14 => [TOK_ASSIGN; TOK_MULTIPLY_ASSIGN; TOK_DIVIDE_ASSIGN; TOK_MODULO_ASSIGN; TOK_PLUS_ASSIGN; TOK_MINUS_ASSIGN;
           TOK_LEFT_SHIFT_ASSIGN; TOK_RIGHT_SHIFT_ASSIGN; TOK_BIT_AND_ASSIGN; TOK_BIT_XOR_ASSIGN; TOK_BIT_OR_ASSIGN]
  | 15 => [TOK_COMMA]
  | _ => []
  end.

(** The operator of a binary expression, its level and its operands. *)
Definition binary_view (e : ASTExpr) : option (nat * TokenType * ASTExpr * ASTExpr) :=
  match e with
  | MULTIPLY_EXPR a b => Some (3, TOK_ASTERISK, a, b)
  | DIVIDE_EXPR a b => Some (3, TOK_DIVIDE, a, b)
  | MODULO_EXPR a b => Some (3, TOK_MODULO, a, b)
  | ADD_EXPR a b => Some (4, TOK_PLUS, a, b)
  | MINUS_EXPR a b => Some (4, TOK_MINUS, a, b)
  | LEFT_SHIFT_EXPR a b => Some (5, TOK_LEFT_SHIFT, a, b)
  | RIGHT_SHIFT_EXPR a b => Some (5, TOK_RIGHT_SHIFT, a, b)
  | LESS_THAN_EXPR a b => Some (6, TOK_LESS_THAN, a, b)
  | GREATER_THAN_EXPR a b => Some (6, TOK_GREATER_THAN, a, b)
  | LESS_THAN_OR_EQUAL_EXPR a b => Some (6, TOK_LESS_THAN_OR_EQUAL, a, b)
  | GREATER_THAN_OR_EQUAL_EXPR a b => Some (6, TOK_GREATER_THAN_OR_EQUAL, a, b)
  | EQUAL_EXPR a b => Some (7, TOK_EQUAL, a, b)
  | NOT_EQUAL_EXPR a b => Some (7, TOK_NOT_EQUAL, a, b)
  | BIT_AND_EXPR a b => Some (8, TOK_AMPERSAND, a, b)
  | BIT_XOR_EXPR a b => Some (9, TOK_BIT_XOR, a, b)
  | BIT_OR_EXPR a b => Some (10, TOK_BIT_OR, a, b)
  | LOGICAL_AND_EXPR a b => Some (11, TOK_LOGICAL_AND, a, b)
  | LOGICAL_OR_EXPR a b => Some (12, TOK_LOGICAL_OR, a, b)
  | ASSIGN_EXPR a b => Some (14, TOK_ASSIGN, a, b)
  | MULTIPLY_ASSIGN_EXPR a b => Some (14, TOK_MULTIPLY_ASSIGN, a, b)
  | DIVIDE_ASSIGN_EXPR a b => Some (14, TOK_DIVIDE_ASSIGN, a, b)
  | MODULO_ASSIGN_EXPR a b => Some (14, TOK_MODULO_ASSIGN, a, b)
  | ADD_ASSIGN_EXPR a b => Some (14, TOK_PLUS_ASSIGN, a, b)
  | MINUS_ASSIGN_EXPR a b => Some (14, TOK_MINUS_ASSIGN, a, b)
  | LEFT_SHIFT_ASSIGN_EXPR a b => Some (14, TOK_LEFT_SHIFT_ASSIGN, a, b)
  | RIGHT_SHIFT_ASSIGN_EXPR a b => Some (14, TOK_RIGHT_SHIFT_ASSIGN, a, b)
  | BIT_AND_ASSIGN_EXPR a b => Some (14, TOK_BIT_AND_ASSIGN, a, b)
  | BIT_XOR_ASSIGN_EXPR a b => Some (14, TOK_BIT_XOR_ASSIGN, a, b)
  | BIT_OR_ASSIGN_EXPR a b => Some (14, TOK_BIT_OR_ASSIGN, a, b)
  | COMMA_EXPR a b => Some (15, TOK_COMMA, a, b)
  | _ => None
  end.
Definition unary_view (e : ASTExpr) : option (TokenType * ASTExpr) :=
  match e with
  | PRE_INCREMENT_EXPR a => Some (TOK_INCREMENT, a)
  | PRE_DECREMENT_EXPR a => Some (TOK_DECREMENT, a)
  | ADDRESS_OF_EXPR a => Some (TOK_AMPERSAND, a)
  | DEREF_EXPR a => Some (TOK_ASTERISK, a)
  | UNARY_PLUS_EXPR a => Some (TOK_PLUS, a)
  | UNARY_MINUS_EXPR a => Some (TOK_MINUS, a)
  | BIT_NOT_EXPR a => Some (TOK_BIT_NOT, a)
  | LOGICAL_NOT_EXPR a => Some (TOK_LOGICAL_NOT, a)
  | _ => None
  end.

(** The level of an expression. *)
Definition level_of (e : ASTExpr) : nat :=
  match binary_view e, e with
  | Some (k, _, _, _), _ => k
  | _, CONDITIONAL_EXPR _ _ _ => 13
  | _, SIZEOF_EXPR_EXPR _ => 1
  | _, _ => match unary_view e with Some _ => 1 | None => 0 end
  end.
(** Assignments associate to the right and the other operators to the left. *)
Definition left_level (k : nat) : nat := if decide (k = 14) then 13 else k.
Definition right_level (k : nat) : nat := if decide (k = 14) then 14 else k - 1.

Definition punct (t : TokenType) : Token := mkToken t U_none.
Definition name_token (s : string) : Token := mkToken TOK_SYMBOL (U_symbol (bytes_of s)).
Definition parenthesised (b : bool) (l : list Token) : list Token :=
  if b then punct TOK_LROUND :: l ++ [punct TOK_RROUND] else l.
Fixpoint separated {A} (f : A -> list Token) (l : list A) : list Token :=
  match l with
  | [] => []
  | [a] => f a
  | a :: l => f a ++ punct TOK_COMMA :: separated f l
  end.

(** The printing of [e] without parentheses around it. *)
Fixpoint print (e : ASTExpr) : list Token :=
  let at_level k a := parenthesised (k <? level_of a) (print a) in
  let binary k t a b := at_level (left_level k) a ++ punct t :: at_level (right_level k) b in
  let unary t a := punct t :: at_level 1 a in
  match e with
  | INT_LITERAL_EXPR (mkIntLiteral v s) => [mkToken TOK_INT_LITERAL (U_int_literal v s)]
  | FLOAT_LITERAL_EXPR (mkFloatLiteral v s) => [mkToken TOK_FLOAT_LITERAL (U_float_literal v s)]
  | STRING_LITERAL_EXPR s => [mkToken TOK_STRING_LITERAL (U_string_literal true (Some s))]
  | IDENTIFIER_EXPR n => [name_token n]
  | STRUCT_DOT_FIELD_EXPR a n => at_level 0 a ++ [punct TOK_DOT; name_token n]
  | STRUCT_ARROW_FIELD_EXPR a n => at_level 0 a ++ [punct TOK_ARROW; name_token n]
  | INDEX_EXPR a b => at_level 0 a ++ punct TOK_LSQUARE :: at_level 15 b ++ [punct TOK_RSQUARE]
  | FUNCTION_CALL_EXPR f l => at_level 0 f ++ punct TOK_LROUND :: separated (fun a => at_level 14 a) l ++ [punct TOK_RROUND]
  | POST_INCREMENT_EXPR a => at_level 0 a ++ [punct TOK_INCREMENT]
  | POST_DECREMENT_EXPR a => at_level 0 a ++ [punct TOK_DECREMENT]
  | SIZEOF_EXPR_EXPR a => name_token "sizeof" :: at_level 1 a
  | CONDITIONAL_EXPR a b c => at_level 12 a ++ punct TOK_QUESTION_MARK :: at_level 15 b ++ punct TOK_COLON :: at_level 13 c
  | PRE_INCREMENT_EXPR a => unary TOK_INCREMENT a
  | PRE_DECREMENT_EXPR a => unary TOK_DECREMENT a
  | ADDRESS_OF_EXPR a => unary TOK_AMPERSAND a
  | DEREF_EXPR a => unary TOK_ASTERISK a
  | UNARY_PLUS_EXPR a => unary TOK_PLUS a
  | UNARY_MINUS_EXPR a => unary TOK_MINUS a
  | BIT_NOT_EXPR a => unary TOK_BIT_NOT a
  | LOGICAL_NOT_EXPR a => unary TOK_LOGICAL_NOT a
  | MULTIPLY_EXPR a b => binary 3 TOK_ASTERISK a b
  | DIVIDE_EXPR a b => binary 3 TOK_DIVIDE a b
  | MODULO_EXPR a b => binary 3 TOK_MODULO a b
  | ADD_EXPR a b => binary 4 TOK_PLUS a b
  | MINUS_EXPR a b => binary 4 TOK_MINUS a b
  | LEFT_SHIFT_EXPR a b => binary 5 TOK_LEFT_SHIFT a b
  | RIGHT_SHIFT_EXPR a b => binary 5 TOK_RIGHT_SHIFT a b
  | LESS_THAN_EXPR a b => binary 6 TOK_LESS_THAN a b
  | GREATER_THAN_EXPR a b => binary 6 TOK_GREATER_THAN a b
  | LESS_THAN_OR_EQUAL_EXPR a b => binary 6 TOK_LESS_THAN_OR_EQUAL a b
  | GREATER_THAN_OR_EQUAL_EXPR a b => binary 6 TOK_GREATER_THAN_OR_EQUAL a b
  | EQUAL_EXPR a b => binary 7 TOK_EQUAL a b
  | NOT_EQUAL_EXPR a b => binary 7 TOK_NOT_EQUAL a b
  | BIT_AND_EXPR a b => binary 8 TOK_AMPERSAND a b
  | BIT_XOR_EXPR a b => binary 9 TOK_BIT_XOR a b
  | BIT_OR_EXPR a b => binary 10 TOK_BIT_OR a b
  | LOGICAL_AND_EXPR a b => binary 11 TOK_LOGICAL_AND a b
  | LOGICAL_OR_EXPR a b => binary 12 TOK_LOGICAL_OR a b
  | ASSIGN_EXPR a b => binary 14 TOK_ASSIGN a b
  | MULTIPLY_ASSIGN_EXPR a b => binary 14 TOK_MULTIPLY_ASSIGN a b
  | DIVIDE_ASSIGN_EXPR a b => binary 14 TOK_DIVIDE_ASSIGN a b
  | MODULO_ASSIGN_EXPR a b => binary 14 TOK_MODULO_ASSIGN a b
  | ADD_ASSIGN_EXPR a b => binary 14 TOK_PLUS_ASSIGN a b
  | MINUS_ASSIGN_EXPR a b => binary 14 TOK_MINUS_ASSIGN a b
  | LEFT_SHIFT_ASSIGN_EXPR a b => binary 14 TOK_LEFT_SHIFT_ASSIGN a b
  | RIGHT_SHIFT_ASSIGN_EXPR a b => binary 14 TOK_RIGHT_SHIFT_ASSIGN a b
  | BIT_AND_ASSIGN_EXPR a b => binary 14 TOK_BIT_AND_ASSIGN a b
  | BIT_XOR_ASSIGN_EXPR a b => binary 14 TOK_BIT_XOR_ASSIGN a b
  | BIT_OR_ASSIGN_EXPR a b => binary 14 TOK_BIT_OR_ASSIGN a b
  | COMMA_EXPR a b => binary 15 TOK_COMMA a b
  | CAST_EXPR _ _ | SIZEOF_TYPE_EXPR _ | COMPOUND_EXPR _ _ | BUILTIN_VA_ARG_EXPR _ _ => []
  end.
Definition print_at (k : nat) (e : ASTExpr) : list Token := parenthesised (k <? level_of e) (print e).

(** The expressions that are printed: without the operators that take a type, and with
    names that are neither types nor the two that the parser keeps for itself. *)
Definition free_name (types : list (list Z)) (s : string) : bool :=
  negb (bool_decide (bytes_of s ∈ bytes_of "sizeof" :: bytes_of "__builtin_va_arg" :: types)).
Fixpoint printable (types : list (list Z)) (e : ASTExpr) : bool :=
  match e with
  | INT_LITERAL_EXPR _ | FLOAT_LITERAL_EXPR _ | STRING_LITERAL_EXPR _ => true
  | IDENTIFIER_EXPR n => free_name types n
  | CAST_EXPR _ _ | SIZEOF_TYPE_EXPR _ | COMPOUND_EXPR _ _ | BUILTIN_VA_ARG_EXPR _ _ => false
  | FUNCTION_CALL_EXPR f l => printable types f && forallb (printable types) l
  | CONDITIONAL_EXPR a b c => printable types a && printable types b && printable types c
  | STRUCT_DOT_FIELD_EXPR a _ | STRUCT_ARROW_FIELD_EXPR a _ | POST_INCREMENT_EXPR a | POST_DECREMENT_EXPR a
  | PRE_INCREMENT_EXPR a | PRE_DECREMENT_EXPR a | ADDRESS_OF_EXPR a | DEREF_EXPR a
  | UNARY_PLUS_EXPR a | UNARY_MINUS_EXPR a | BIT_NOT_EXPR a | LOGICAL_NOT_EXPR a | SIZEOF_EXPR_EXPR a => printable types a
  | INDEX_EXPR a b | MULTIPLY_EXPR a b | DIVIDE_EXPR a b | MODULO_EXPR a b
  | ADD_EXPR a b | MINUS_EXPR a b | LEFT_SHIFT_EXPR a b | RIGHT_SHIFT_EXPR a b
  | LESS_THAN_EXPR a b | GREATER_THAN_EXPR a b | LESS_THAN_OR_EQUAL_EXPR a b | GREATER_THAN_OR_EQUAL_EXPR a b
  | EQUAL_EXPR a b | NOT_EQUAL_EXPR a b | BIT_AND_EXPR a b | BIT_XOR_EXPR a b
  | BIT_OR_EXPR a b | LOGICAL_AND_EXPR a b | LOGICAL_OR_EXPR a b | ASSIGN_EXPR a b
  | MULTIPLY_ASSIGN_EXPR a b | DIVIDE_ASSIGN_EXPR a b | MODULO_ASSIGN_EXPR a b | ADD_ASSIGN_EXPR a b
  | MINUS_ASSIGN_EXPR a b | LEFT_SHIFT_ASSIGN_EXPR a b | RIGHT_SHIFT_ASSIGN_EXPR a b | BIT_AND_ASSIGN_EXPR a b
  | BIT_XOR_ASSIGN_EXPR a b | BIT_OR_ASSIGN_EXPR a b | COMMA_EXPR a b => printable types a && printable types b
  end.

Lemma print_binary e k t a b : binary_view e = Some (k, t, a, b) ->
  print e = print_at (left_level k) a ++ punct t :: print_at (right_level k) b.
Proof. destruct e; try discriminate; by intros [= <- <- <- <-]. Qed.
Lemma print_unary e t a : unary_view e = Some (t, a) -> print e = punct t :: print_at 1 a.
Proof. destruct e; try discriminate; by intros [= <- <-]. Qed.
Lemma printable_binary types e k t a b : binary_view e = Some (k, t, a, b) -> printable types e = printable types a && printable types b.
Proof. destruct e; try discriminate; by intros [= <- <- <- <-]. Qed.
Lemma printable_unary types e t a : unary_view e = Some (t, a) -> printable types e = printable types a.
Proof. destruct e; try discriminate; by intros [= <- <-]. Qed.
Lemma level_binary e k t a b : binary_view e = Some (k, t, a, b) -> level_of e = k.
Proof. unfold level_of. by intros ->. Qed.
Lemma level_unary e t a : unary_view e = Some (t, a) -> level_of e = 1.
Proof. destruct e; by try discriminate. Qed.
Lemma level_bound e : level_of e <= 15.
Proof. destruct e; cbn; lia. Qed.
Lemma length_print_at k e : length (print e) <= length (print_at k e).
Proof. unfold print_at, parenthesised. destruct (_ <? _); [| done]. cbn. rewrite length_app. lia. Qed.

(** ** Runs of parsers *)

Section Reading.
Context (toks : list SourceToken) (types : list (list Z)).

Definition at_pos (i : nat) (s : Parser) : Prop := position s = i /\ defined_types s = types.
Definition next (i : nat) : option Token := token <$> toks !! i.

(** [p] reads [a] from [i] up to [j]; fails at [i]; fails, but may stay further on. *)
Definition gives {A} (p : parser A) (i : nat) (a : A) (j : nat) : Prop :=
  forall s, at_pos i s -> exists s', p s = Ok (Some a, s') /\ at_pos j s'.
Definition fails {A} (p : parser A) (i : nat) : Prop :=
  forall s, at_pos i s -> exists s', p s = Ok (None, s') /\ at_pos i s'.
Definition stuck {A} (p : parser A) (i : nat) : Prop :=
  forall s, at_pos i s -> exists j s', p s = Ok (None, s') /\ at_pos j s'.

Lemma fails_stuck {A} (p : parser A) i : fails p i -> stuck p i.
Proof. intros H s Hs. destruct (H s Hs) as (s' & E & Hs'). by exists i, s'. Qed.
Lemma gives_success {A} (a : A) i : gives (success a) i a i.
Proof. intros s Hs. by exists s. Qed.
Lemma gives_lift {A B} (x : res A) (f : A -> parser B) y i b j : x = Ok y -> gives (f y) i b j -> gives (z ← lift x; f z) i b j.
Proof. by intros ->. Qed.
Lemma gives_part {A B} (p : parser A) (f : A -> parser B) i a j b k : gives p i a j -> gives (f a) j b k -> gives (part p f) i b k.
Proof.
  intros Hp Hf s Hs. destruct (Hp s Hs) as (s1 & E1 & H1). destruct (Hf s1 H1) as (s2 & E2 & H2). exists s2. split; [| done].
  unfold part, mbind, st_bind. by rewrite E1.
Qed.
Lemma fails_part {A B} (p : parser A) (f : A -> parser B) i : fails p i -> fails (part p f) i.
Proof. intros Hp s Hs. destruct (Hp s Hs) as (s1 & E1 & H1). exists s1. split; [| done]. unfold part, mbind, st_bind. by rewrite E1. Qed.
Lemma stuck_part {A B} (p : parser A) (f : A -> parser B) i a j : gives p i a j -> stuck (f a) j -> stuck (part p f) i.
Proof.
  intros Hp Hf s Hs. destruct (Hp s Hs) as (s1 & E1 & H1). destruct (Hf s1 H1) as (k & s2 & E2 & H2). exists k, s2. split; [| done].
  unfold part, mbind, st_bind. by rewrite E1.
Qed.
Lemma gives_seq {A} (p : parser A) i a j : gives p i a j -> gives (seq p) i a j.
Proof. intros Hp s Hs. destruct (Hp s Hs) as (s1 & E1 & H1). exists s1. split; [| done]. unfold seq, mbind, st_bind, get. by rewrite E1. Qed.
Lemma fails_seq {A} (p : parser A) i : stuck p i -> fails (seq p) i.
Proof.
  intros Hp s Hs. destruct (Hp s Hs) as (j & s1 & E1 & H1). exists (set_position (position s) s1). split.
  - unfold seq, mbind, st_bind, get. by rewrite E1.
  - destruct Hs, H1. by split.
Qed.
Lemma gives_or_here {A} (p : parser A) l i a j : gives p i a j -> gives (or (p :: l)) i a j.
Proof. intros Hp s Hs. destruct (Hp s Hs) as (s1 & E1 & H1). exists s1. split; [| done]. cbn. unfold mbind, st_bind, get. by rewrite E1. Qed.
Lemma gives_or_next {A} (p : parser A) l i a j : fails p i -> gives (or l) i a j -> gives (or (p :: l)) i a j.
Proof.
  intros Hp Hl s Hs. destruct (Hp s Hs) as (s1 & E1 & H1). destruct (Hl (set_position (position s) s1)) as (s2 & E2 & H2).
  - destruct Hs, H1. by split.
  - exists s2. split; [| done]. cbn. unfold mbind, st_bind, get. by rewrite E1.
Qed.
Lemma fails_or {A} (l : list (parser A)) i : Forall (fun p => fails p i) l -> fails (or l) i.
Proof.
  induction 1 as [|p l Hp _ IH]; intros s Hs; [by exists s |].
  destruct (Hp s Hs) as (s1 & E1 & H1). destruct (IH (set_position (position s) s1)) as (s2 & E2 & H2).
  - destruct Hs, H1. by split.
  - exists s2. split; [| done]. cbn. unfold mbind, st_bind, get. by rewrite E1.
Qed.
Lemma gives_as {A B} (f : A -> B) p i a j : gives p i a j -> gives (as_ f p) i (f a) j.
Proof. intros Hp. eapply gives_part; [exact Hp | apply gives_success]. Qed.
Lemma fails_as {A B} (f : A -> B) p i : fails p i -> fails (as_ f p) i.
Proof. apply fails_part. Qed.

(** *** Loops *)

(** The loop of a fold has come to [e] at [j]. *)
Definition folds {A B} (f : A -> B -> res A) (tail : parser B) (p : parser A) (i : nat) (e : A) (j : nat) : Prop :=
  forall s, at_pos i s -> exists s' k, p s = fold_loop k f tail e s' /\ at_pos j s' /\ length toks - j < k.
Lemma folds_initial {A B} (f : A -> B -> res A) initial (tail : parser B) i e j :
  gives initial i e j -> folds f tail (fold toks f initial tail) i e j.
Proof.
  intros Hp s Hs. destruct (Hp s Hs) as (s1 & E1 & H1). exists s1, (S (length toks)). split; [| split; [done | lia]].
  unfold fold, part, mbind, st_bind. by rewrite E1.
Qed.
Lemma folds_next {A B} (f : A -> B -> res A) (tail : parser B) p i e j b k e' :
  folds f tail p i e j -> gives tail j b k -> f e b = Ok e' -> j < length toks -> j < k -> folds f tail p i e' k.
Proof.
  intros Hp Ht Hf Hj Hjk s Hs. destruct (Hp s Hs) as (s1 & [|n] & E1 & H1 & Hn); [lia |]. destruct (Ht s1 H1) as (s2 & E2 & H2).
  exists s2, n. rewrite E1. cbn [fold_loop]. unfold mbind, st_bind, lift. rewrite E2, Hf. split; [done |]. split; [done | lia].
Qed.
Lemma folds_gives {A B} (f : A -> B -> res A) (tail : parser B) p i e j : folds f tail p i e j -> fails tail j -> gives p i e j.
Proof.
  intros Hp Ht s Hs. destruct (Hp s Hs) as (s1 & [|n] & E1 & H1 & Hn); [lia |]. destruct (Ht s1 H1) as (s2 & E2 & H2).
  exists s2. rewrite E1. cbn [fold_loop]. unfold mbind, st_bind. by rewrite E2.
Qed.
Lemma fails_fold {A B} (f : A -> B -> res A) initial (tail : parser B) i : fails initial i -> fails (fold toks f initial tail) i.
Proof. apply fails_part. Qed.

(** *** Tokens *)

Lemma gives_tok i t ty : next i = Some t -> tok_t t = ty -> gives (tok toks ty) i t (S i).
Proof.
  unfold next. intros Ht <- s [<- Hs]. destruct (toks !! position s) as [r|] eqn:E; [| done]. injection Ht as <-.
  exists (set_position (S (position s)) s). split; [| by split]. apply lookup_lt_Some in E as Hl.
  unfold tok, at_tokens_end, read_token, mbind, st_bind, get, mret, st_ret, lift, of_opt, modify. rewrite (proj2 (Nat.leb_gt _ _) Hl), E.
  by rewrite decide_True.
Qed.
Lemma note_unexpected_at t i s : at_pos i s -> exists s', note_unexpected t s = Ok (tt, s') /\ at_pos i s'.
Proof. intros Hs. unfold note_unexpected, mbind, st_bind, get. destruct (_ <? _); [by eexists | by exists s]. Qed.
Lemma fails_tok i ty : (forall t, next i = Some t -> tok_t t <> ty) -> fails (tok toks ty) i.
Proof.
  intros H s Hs. unfold tok, at_tokens_end, mbind, st_bind, get, mret, st_ret. destruct Hs as [<- Hs].
  destruct (length toks <=? position s) eqn:El; [by exists s |]. apply Nat.leb_gt in El.
  apply lookup_lt_is_Some_2 in El as [r E]. unfold read_token, mbind, st_bind, get, lift, of_opt, modify. rewrite E. cbn.
  rewrite decide_False; [| apply H; unfold next; by rewrite E].
  unfold back_up, modify. cbn. rewrite Nat.sub_0_r.
  edestruct (note_unexpected_at r (position s) (set_position (position s) (set_position (S (position s)) s))) as (s' & E' & H'); [by split |].
  exists s'. split; [| done]. rewrite E'. done.
Qed.

Lemma next_bound i t : next i = Some t -> i < length toks.
Proof. unfold next. intros H. destruct (toks !! i) eqn:E; [| done]. by apply lookup_lt_Some in E. Qed.
Lemma next_inv i t : next i = Some t -> exists r, toks !! i = Some r /\ token r = t.
Proof. unfold next. destruct (toks !! i) as [r|]; [| done]. intros [= E]. by exists r. Qed.

Lemma gives_keyword i t k : next i = Some t -> is_keyword k t = true -> gives (keyword toks k) i tt (S i).
Proof.
  intros Ht Hk s [<- Hs]. apply next_bound in Ht as Hl. apply next_inv in Ht as (r & E & <-).
  exists (set_position (S (position s)) s). split; [| by split].
  unfold keyword, at_tokens_end, read_token, mbind, st_bind, get, mret, st_ret, lift, of_opt, modify. rewrite (proj2 (Nat.leb_gt _ _) Hl), E.
  cbn. by rewrite Hk.
Qed.
Lemma fails_keyword i k : (forall t, next i = Some t -> is_keyword k t = false) -> fails (keyword toks k) i.
Proof.
  intros H s [<- Hs]. unfold keyword, at_tokens_end, mbind, st_bind, get, mret, st_ret.
  destruct (length toks <=? position s) eqn:El; [by exists s |]. apply Nat.leb_gt in El.
  apply lookup_lt_is_Some_2 in El as [r E]. unfold read_token, mbind, st_bind, get, lift, of_opt, modify. rewrite E. cbn.
  rewrite H by (unfold next; by rewrite E).
  unfold back_up, modify. cbn. rewrite Nat.sub_0_r.
  edestruct (note_unexpected_at r (position s) (set_position (position s) (set_position (S (position s)) s))) as (s' & E' & H'); [by split |].
  exists s'. split; [| done]. rewrite E'. done.
Qed.

Lemma symbol_name_bytes_of s : symbol_name (bytes_of s) = s.
Proof.
  induction s as [|c s IH]; [done |]. unfold symbol_name, bytes_of in *. cbn in *. rewrite IH. f_equal.
  by rewrite Nat2Z.id, Ascii.ascii_nat_embedding.
Qed.
Lemma gives_symbol i n : next i = Some (name_token n) -> gives (symbol toks) i n (S i).
Proof.
  intros H. eapply gives_part; [by eapply gives_tok |]. eapply (gives_lift _ _ n); [| apply gives_success].
  unfold token_symbol. cbn [name_token tok_u]. by rewrite symbol_name_bytes_of.
Qed.
Lemma gives_identifier i n : next i = Some (name_token n) -> free_name types n = true -> gives (identifier toks) i (IDENTIFIER_EXPR n) (S i).
Proof.
  intros Ht Hf. apply gives_as. intros s [<- Hs]. apply next_inv in Ht as (r & E & Er).
  exists (set_position (S (position s)) s). split; [| by split].
  unfold identifier_name, read_token, mbind, st_bind, get, mret, st_ret, lift, of_opt, modify. rewrite E, Er. cbn.
  apply negb_true_iff, bool_decide_eq_false in Hf. rewrite !not_elem_of_cons in Hf. destruct Hf as (H1 & H2 & H3).
  rewrite decide_False by done. unfold type_table_look_up_name, mbind, st_bind, get, mret, st_ret. cbn. rewrite Hs, bool_decide_eq_false_2 by done.
  exact (f_equal (fun x => Ok (Some x, _)) (symbol_name_bytes_of n)).
Qed.
Lemma fails_identifier i t : next i = Some t -> tok_t t <> TOK_SYMBOL \/ t = name_token "sizeof" -> fails (identifier toks) i.
Proof.
  intros Ht Hn. apply fails_as. intros s [<- Hs]. apply next_inv in Ht as (r & E & <-).
  exists (set_position (position s) s). split; [| by split].
  unfold identifier_name, read_token, mbind, st_bind, get, mret, st_ret, lift, of_opt, modify. rewrite E.
  assert (Hback : back_up (set_position (S (position s)) s) = Ok (tt, set_position (position s) s)).
  { unfold back_up, modify. cbn. by rewrite Nat.sub_0_r. }
  destruct Hn as [Hn | Hn]; [| rewrite Hn; cbn [name_token tok_t tok_u]; rewrite decide_True by done; by rewrite Hback].
  destruct (tok_t (token r)); try done; by rewrite Hback.
Qed.
Definition literal (t : Token) (e : ASTExpr) : Prop :=
  build_constant t = Ok e /\ (tok_t t = TOK_INT_LITERAL \/ tok_t t = TOK_FLOAT_LITERAL \/ tok_t t = TOK_STRING_LITERAL).
Lemma gives_constant i t e : next i = Some t -> literal t e -> gives (constant toks) i e (S i).
Proof.
  intros Ht [He Hl]. eapply gives_part; [| eapply gives_lift; [exact He | apply gives_success]].
  assert (F : forall ty, tok_t t <> ty -> fails (tok toks ty) i) by (intros ty Hy; apply fails_tok; intros t'; rewrite Ht; by intros [= <-]).
  destruct Hl as [E|[E|E]].
  - by eapply gives_or_here, gives_tok.
  - apply gives_or_next; [apply F; by rewrite E |]. by eapply gives_or_here, gives_tok.
  - apply gives_or_next; [apply F; by rewrite E |]. apply gives_or_next; [apply F; by rewrite E |]. by eapply gives_or_here, gives_tok.
Qed.

(** ** Levels *)

Definition level_parser (G : Grammar) (k : nat) : parser ASTExpr :=
  match k with
  | 0 => postfix_expr toks G | 1 => unary_expr toks G | 2 => cast_expr toks G | 3 => multiplicative_expr toks G
  | 4 => additive_expr toks G | 5 => shift_expr toks G | 6 => relational_expr toks G | 7 => equality_expr toks G
  | 8 => and_expr toks G | 9 => xor_expr toks G | 10 => or_expr toks G | 11 => logical_and_expr toks G
  | 12 => logical_or_expr toks G | 13 => conditional_expr toks G | 14 => assignment_expr toks G | _ => expr toks G
  end.
(** No operator of a level below [k] goes on from [i]. *)
Definition stops (k i : nat) : Prop := forall t l, next i = Some t -> l < k -> ~ (tok_t t ∈ continuations l).
Lemma stops_weaken k l i : l <= k -> stops k i -> stops l i.
Proof. intros H Hk t m Ht Hm. apply (Hk t m Ht). lia. Qed.
Lemma stops_type k l i ty : stops k i -> l < k -> ty ∈ continuations l -> forall t, next i = Some t -> tok_t t <> ty.
Proof. intros H Hl Hy t Ht <-. by apply (H t l Ht Hl). Qed.

Section Ladder.
Context (G : Grammar).

Lemma fails_tail k l i ty p : stops k i -> l < k -> ty ∈ continuations l -> fails (binary_tail (tok toks ty) p) i.
Proof. intros H Hl Hy. apply fails_seq, fails_stuck, fails_part, fails_tok. by eapply stops_type. Qed.
Lemma fails_tails k l i p : stops k i -> l < k -> fails (or ((fun t => binary_tail (tok toks t) p) <$> continuations l)) i.
Proof.
  intros H Hl. apply fails_or, Forall_fmap, Forall_forall. intros ty Hy. by apply (fails_tail k l).
Qed.
Lemma fails_assignment_tail k i p : stops k i -> 14 < k -> fails (binary_tail (assignment_operator toks) p) i.
Proof.
  intros H Hk. apply fails_seq, fails_stuck, fails_part, fails_or.
  repeat (apply Forall_cons; split; [apply fails_tok; apply (stops_type k 14); [done | done | cbn; set_solver] |]). constructor.
Qed.
Lemma fails_postfix_tail i : stops 1 i -> fails (postfix_tail toks G) i.
Proof.
  intros H. apply fails_or.
  assert (F : forall ty, ty ∈ continuations 0 -> fails (tok toks ty) i) by (intros ty Hy; by apply fails_tok, (stops_type 1 0); [| lia |]).
  repeat (apply Forall_cons; split); try constructor; apply fails_as; try apply fails_seq, fails_stuck, fails_part; apply F; cbn; set_solver.
Qed.

(** The folds of the levels of binary operators and of the comma. *)
Definition tails (k : nat) : parser BinaryTail :=
  match k with
  | 8 | 9 | 10 | 11 | 12 | 15 => binary_tail (tok toks (hd TOK_INVALID (continuations k))) (level_parser G (k - 1))
  | _ => or ((fun t => binary_tail (tok toks t) (level_parser G (k - 1))) <$> continuations k)
  end.
Definition left_associative (k : nat) : Prop := 3 <= k <= 12 \/ k = 15.
Lemma level_folds k : left_associative k -> level_parser G k = fold toks build_binary_head (level_parser G (k - 1)) (tails k).
Proof. intros H. assert (k < 16) as Hk by (unfold left_associative in H; lia). do 16 (destruct k as [|k]; [try reflexivity; unfold left_associative in H; lia |]). lia. Qed.
Lemma fails_level_tails k i : left_associative k -> stops (S k) i -> fails (tails k) i.
Proof.
  intros H Hs. assert (k < 16) as Hk by (unfold left_associative in H; lia).
  do 16 (destruct k as [|k]; [first [apply (fails_tails _ _ _ _ Hs); lia | eapply (fails_tail _ _ _ _ _ Hs); [apply Nat.lt_succ_diag_r | cbn; set_solver]] |]). lia.
Qed.
Lemma gives_level_tail k i t b j : left_associative k -> next i = Some t -> tok_t t ∈ continuations k ->
  gives (level_parser G (k - 1)) (S i) b j -> gives (tails k) i (mkTail (tok_t t) b) j.
Proof.
  intros H Ht Hy Hb. assert (k < 16) as Hk by (unfold left_associative in H; lia).
  assert (T : gives (binary_tail (tok toks (tok_t t)) (level_parser G (k - 1))) i (mkTail (tok_t t) b) j).
  { apply gives_seq. eapply gives_part; [by eapply gives_tok |]. eapply gives_part; [exact Hb | apply gives_success]. }
  assert (O : forall l, tok_t t ∈ l -> gives (or ((fun t => binary_tail (tok toks t) (level_parser G (k - 1))) <$> l)) i (mkTail (tok_t t) b) j).
  { induction l as [|ty l IH]; intros Hl; [by apply not_elem_of_nil in Hl |]. destruct (decide (ty = tok_t t)) as [-> | Hne]; [by apply gives_or_here |].
    apply gives_or_next; [| apply IH; set_solver]. apply fails_seq, fails_stuck, fails_part, fails_tok. intros t'. rewrite Ht. by intros [= <-] <-. }
  unfold left_associative in H. do 16 (destruct k as [|k]; [first [by apply O | apply list_elem_of_singleton in Hy; rewrite Hy in *; exact T | lia] |]). lia.
Qed.

(** What stands at [i] is not the operator that takes a type. *)
Definition plain_start (i : nat) : Prop := forall t, next i = Some t -> is_keyword "__builtin_va_arg" t = false.

(** The parser of level [k] comes from [i] to [j] with [e]: in its loop where it is one
    that goes on with the operators of its level. *)
Definition reaches (k i : nat) (e : ASTExpr) (j : nat) : Prop :=
  match k with
  | 0 => plain_start i /\ folds build_postfix_expr (postfix_tail toks G) (fold toks build_postfix_expr (primary_expr toks G) (postfix_tail toks G)) i e j
  | 1 | 2 | 13 | 14 => stops (S k) j -> gives (level_parser G k) i e j
  | _ => folds build_binary_head (tails k) (level_parser G k) i e j
  end.
Lemma reaches_folds k i e j : left_associative k -> reaches k i e j = folds build_binary_head (tails k) (level_parser G k) i e j.
Proof. intros H. unfold left_associative in H. do 16 (destruct k as [|k]; [first [reflexivity | lia] |]). lia. Qed.

Lemma reaches_gives k i e j : k <= 15 -> reaches k i e j -> stops (S k) j -> gives (level_parser G k) i e j.
Proof.
  intros Hk H Hs. destruct (decide (left_associative k)) as [Ha | Ha].
  - rewrite reaches_folds in H by done. eapply folds_gives; [exact H |]. by apply fails_level_tails.
  - assert (k = 0 \/ k = 1 \/ k = 2 \/ k = 13 \/ k = 14) as [-> | Hk'] by (unfold left_associative in Ha; lia).
    + destruct H as [Hp H]. apply gives_or_next.
      * by apply fails_seq, fails_stuck, fails_part, fails_keyword.
      * apply gives_or_here. eapply folds_gives; [exact H |]. by apply fails_postfix_tail.
    + destruct Hk' as [-> | [-> | [-> | ->]]]; by apply H.
Qed.
Lemma gives_reaches k i e j : k < 15 -> gives (level_parser G k) i e j -> reaches (S k) i e j.
Proof.
  intros Hk H. destruct (decide (left_associative (S k))) as [Ha | Ha].
  - rewrite reaches_folds, level_folds by done. apply folds_initial. cbn [Nat.sub]. by rewrite Nat.sub_0_r.
  - assert (k = 0 \/ k = 1 \/ k = 12 \/ k = 13) as [-> | [-> | [-> | ->]]] by (unfold left_associative in Ha; lia); intros Hs.
    + by apply gives_or_here.
    + by apply gives_or_here.
    + apply gives_or_next; [| by apply gives_or_here]. apply fails_seq. eapply stuck_part; [exact H |].
      apply fails_stuck, fails_part, fails_tok, (stops_type 14 13); [done | lia | cbn; set_solver].
    + eapply folds_gives; [by apply folds_initial |]. apply (fails_assignment_tail 15); [exact Hs | lia].
Qed.
(** A tighter expression stands for a looser one, where none of the operators between
    follows it. *)
Lemma reaches_climb l k i e j : l <= k -> k <= 15 -> stops k j -> reaches l i e j -> reaches k i e j.
Proof.
  intros H. induction H as [|k H IH]; intros Hk Hs Hr; [done |]. apply gives_reaches; [lia |]. apply reaches_gives; [lia | | done].
  apply IH; [lia | | done]. eapply stops_weaken; [| exact Hs]. lia.
Qed.
Lemma primary_reaches i e j : plain_start i -> gives (primary_expr toks G) i e j -> reaches 0 i e j.
Proof. intros Hp H. split; [done |]. by apply folds_initial. Qed.

(** An operator that associates to the left. *)
Lemma reaches_left k i a m t b j e : left_associative k -> reaches k i a m -> next m = Some t -> tok_t t ∈ continuations k ->
  gives (level_parser G (k - 1)) (S m) b j -> S m <= j -> build_binary_head a (mkTail (tok_t t) b) = Ok e -> reaches k i e j.
Proof.
  intros Hk Ha Ht Hy Hb Hj He. rewrite reaches_folds in * by done. eapply folds_next; [exact Ha | by apply gives_level_tail | exact He | | lia].
  by eapply next_bound.
Qed.

(** *** Where no expression starts *)

Definition starts_nothing (t : Token) : Prop :=
  t = name_token "sizeof" \/ tok_t t ∉ [TOK_SYMBOL; TOK_INT_LITERAL; TOK_FLOAT_LITERAL; TOK_STRING_LITERAL; TOK_LROUND].
Lemma fails_other i t ty : next i = Some t -> tok_t t <> ty -> fails (tok toks ty) i.
Proof. intros Ht Hy. apply fails_tok. intros t'. rewrite Ht. by intros [= <-]. Qed.
Lemma fails_primary i t : next i = Some t -> starts_nothing t -> fails (primary_expr toks G) i.
Proof.
  intros Ht H. assert (F : forall ty, ty ∈ [TOK_INT_LITERAL; TOK_FLOAT_LITERAL; TOK_STRING_LITERAL; TOK_LROUND] -> fails (tok toks ty) i).
  { intros ty Hy. eapply fails_other; [exact Ht |]. intros E. destruct H as [-> | H].
    - rewrite <- E in Hy. set_solver.
    - apply H. rewrite E. set_solver. }
  apply fails_or. repeat (apply Forall_cons; split); [| | | by constructor].
  - eapply fails_identifier; [exact Ht |]. destruct H as [H | H]; [by right | left; intros E; apply H; rewrite E; set_solver].
  - apply fails_part, fails_or. repeat (apply Forall_cons; split); [apply F; set_solver .. | by constructor].
  - apply fails_seq, fails_stuck, fails_part, F. set_solver.
Qed.
Lemma fails_postfix i t : next i = Some t -> starts_nothing t -> fails (postfix_expr toks G) i.
Proof.
  intros Ht H. apply fails_or. repeat (apply Forall_cons; split); [| | | by constructor].
  - apply fails_seq, fails_stuck, fails_part, fails_keyword. intros t'. rewrite Ht. intros [= <-]. destruct H as [-> | H]; [done |].
    unfold is_keyword. destruct (tok_t t); try done. set_solver.
  - apply fails_fold. by eapply fails_primary.
  - apply fails_seq, fails_stuck, fails_part. eapply fails_other; [exact Ht |]. destruct H as [-> | H]; [done |]. intros E. rewrite E in H. set_solver.
Qed.
Lemma fails_assignment i : next i = Some (punct TOK_RROUND) -> fails (assignment_expr toks G) i.
Proof.
  intros Ht. assert (N : forall ty, ty <> TOK_RROUND -> fails (tok toks ty) i) by (intros ty Hy; eapply fails_other; [exact Ht | cbn; congruence]).
  assert (K : forall k, fails (keyword toks k) i) by (intros k; apply fails_keyword; intros t'; rewrite Ht; by intros [= <-]).
  assert (U : fails (cast_expr toks G) i).
  { apply fails_or. repeat (apply Forall_cons; split); [| by apply fails_seq, fails_stuck, fails_part, N | by constructor].
    apply fails_or. apply Forall_cons. split; [eapply fails_postfix; [exact Ht |]; right; set_solver |].
    repeat (apply Forall_cons; split); try constructor; try (by apply fails_seq, fails_stuck, fails_part, K); try (by apply fails_seq, fails_stuck, fails_part, N).
    apply fails_seq, fails_stuck, fails_part, fails_or. repeat (apply Forall_cons; split); try constructor; by apply N. }
  assert (O : fails (logical_or_expr toks G) i) by (do 10 apply fails_fold; exact U).
  apply fails_fold, fails_or. repeat (apply Forall_cons; split); [by apply fails_seq, fails_stuck, fails_part | exact O | by constructor].
Qed.
End Ladder.

(** ** Printed expressions *)

(** The tokens [l] stand at [i]. *)
Definition seg (i : nat) (l : list Token) : Prop := forall k t, l !! k = Some t -> next (i + k) = Some t.
Lemma seg_cons i t l : seg i (t :: l) -> next i = Some t /\ seg (S i) l.
Proof.
  intros H. split; [specialize (H 0 t eq_refl); by rewrite Nat.add_0_r in H |]. intros k u Hk. specialize (H (S k) u Hk).
  by rewrite <- Nat.add_succ_comm in H.
Qed.
Lemma seg_app i l1 l2 : seg i (l1 ++ l2) -> seg i l1 /\ seg (i + length l1) l2.
Proof.
  intros H. split; intros k t Hk; [apply H; by apply lookup_app_l_Some |]. rewrite <- Nat.add_assoc. apply H.
  rewrite lookup_app_r by lia. by replace (length l1 + k - length l1) with k by lia.
Qed.

Definition one_level : bool :=
  forallb (fun k => forallb (fun t => forallb (fun l => (k =? l) || negb (bool_decide (t ∈ continuations l))) (List.seq 0 16))
    (continuations k)) (List.seq 0 16).
Lemma continuations_level t k l : t ∈ continuations k -> t ∈ continuations l -> k = l.
Proof.
  intros Hk Hl. assert (Hb : forall m, t ∈ continuations m -> In m (List.seq 0 16)).
  { intros m Hm. apply in_seq. destruct (le_lt_dec 16 m) as [H|]; [| lia]. exfalso.
    do 16 (destruct m as [|m]; [lia |]). by apply not_elem_of_nil in Hm. }
  assert (C : one_level = true) by (vm_compute; reflexivity). unfold one_level in C. rewrite forallb_forall in C. specialize (C k (Hb k Hk)).
  rewrite forallb_forall in C. specialize (C t (proj1 (list_elem_of_In _ _) Hk)).
  rewrite forallb_forall in C. specialize (C l (Hb l Hl)). apply orb_true_iff in C as [C | C]; [by apply Nat.eqb_eq in C |].
  apply negb_true_iff, bool_decide_eq_false in C. done.
Qed.
Lemma stops_operator k i t : next i = Some t -> tok_t t ∈ continuations k -> stops k i.
Proof. intros Ht Hk t' l Ht' Hl H. rewrite Ht in Ht'. injection Ht' as <-. pose proof (continuations_level _ _ _ Hk H). lia. Qed.
Lemma stops_closing k i t : next i = Some t -> (forall l, tok_t t ∉ continuations l) -> stops k i.
Proof. intros Ht Hk t' l Ht' Hl H. rewrite Ht in Ht'. injection Ht' as <-. by apply (Hk l). Qed.
Lemma closing ty l : ty ∈ [TOK_RROUND; TOK_RSQUARE; TOK_COLON] -> ty ∉ continuations l.
Proof. intros H Hl. do 16 (destruct l as [|l]; [set_solver |]). set_solver. Qed.

(** What a printed expression promises: at every level, with [n] levels of recursion for
    the tokens that are left. *)
Definition reads_bare (e : ASTExpr) : Prop := forall n i, seg i (print e) -> length toks - i < n ->
  stops (level_of e) (i + length (print e)) -> reaches (grammar_at toks n) (level_of e) i e (i + length (print e)).
Definition reads (e : ASTExpr) : Prop := forall k n i, k <= 15 -> seg i (print_at k e) -> length toks - i < n ->
  stops k (i + length (print_at k e)) -> reaches (grammar_at toks n) k i e (i + length (print_at k e)).

Lemma reads_gives e k n i : reads e -> k <= 15 -> seg i (print_at k e) -> length toks - i < n -> stops (S k) (i + length (print_at k e)) ->
  gives (level_parser (grammar_at toks n) k) i e (i + length (print_at k e)).
Proof.
  intros H Hk Hi Hn Hs. apply reaches_gives; [done | | done]. apply H; try done. eapply stops_weaken; [| exact Hs]. lia.
Qed.
Lemma bare_reads e : reads_bare e -> reads e.
Proof.
  intros H k n i Hk Hi Hn Hs. unfold print_at, parenthesised in *. destruct (k <? level_of e) eqn:E.
  - apply seg_cons in Hi as [H1 Hi]. apply seg_app in Hi as [H2 H3]. apply seg_cons in H3 as [H3 _]. destruct n as [|n]; [lia |].
    rewrite Nat.add_comm. cbn [length]. rewrite length_app. cbn [length]. replace (S (length (print e) + 1) + i) with (S (S i + length (print e))) by lia.
    assert (R : reaches (grammar_at toks (S n)) 0 i e (S (S i + length (print e)))).
    { apply primary_reaches; [intros t; rewrite H1; by intros [= <-] |].
      assert (B : gives (level_parser (grammar_at toks n) 15) (S i) e (S i + length (print e))).
      { assert (C : forall k, stops k (S i + length (print e))) by (intros k'; eapply stops_closing; [exact H3 |]; intros l; apply closing; set_solver).
        apply reaches_gives; [done | | apply C]. eapply reaches_climb; [apply level_bound | done | apply C |]. apply H; [done | | apply C].
        apply next_bound in H1. lia. }
      apply gives_or_next; [eapply fails_identifier; [exact H1 | by left] |]. apply gives_or_next.
      { apply fails_part, fails_or. repeat (apply Forall_cons; split); [by eapply fails_other .. | by constructor]. }
      apply gives_or_here, gives_seq. eapply gives_part; [by eapply gives_tok |]. eapply gives_part; [exact B |].
      eapply gives_part; [by eapply gives_tok | apply gives_success]. }
    eapply reaches_climb; [apply Nat.le_0_l | done | | exact R]. eapply stops_weaken; [| replace (S (S i + length (print e))) with
      (i + length (punct TOK_LROUND :: print e ++ [punct TOK_RROUND])) by (cbn; rewrite length_app; cbn; lia); exact Hs]. lia.
  - apply Nat.ltb_ge in E. eapply reaches_climb; [exact E | done | exact Hs |]. apply H; [done | done |]. eapply stops_weaken; [exact E | exact Hs].
Qed.

Lemma binary_level_cases e k t a b : binary_view e = Some (k, t, a, b) ->
  t ∈ continuations k /\ (k = 14 \/ left_associative k) /\ build_binary_head a (mkTail t b) = Ok e.
Proof. unfold left_associative. destruct e; try discriminate; intros [= <- <- <- <-]; cbn; (split; [set_solver | split; [lia | done]]). Qed.
Lemma bare_left_associative e k t a b : binary_view e = Some (k, t, a, b) -> left_associative k -> reads a -> reads b -> reads_bare e.
Proof.
  intros He Hk Ha Hb n i Hi Hn Hs. pose proof He as (Ht & _ & Hbuild)%binary_level_cases. rewrite (level_binary _ _ _ _ _ He) in *.
  rewrite (print_binary _ _ _ _ _ He) in *. assert (Hl : left_level k = k /\ right_level k = k - 1 /\ 3 <= k <= 15).
  { unfold left_level, right_level, left_associative in *. rewrite !decide_False by lia. lia. }
  destruct Hl as (El & Er & Hk'). rewrite El, Er in *. apply seg_app in Hi as [H1 H2]. apply seg_cons in H2 as [H2 H3].
  rewrite length_app in *. cbn [length] in *. rewrite Nat.add_assoc, <- Nat.add_succ_comm in *.
  eapply (reaches_left _ k i a _ (punct t) b); [done | | exact H2 | exact Ht | | lia | exact Hbuild].
  - apply Ha; [lia | done | done |]. by eapply stops_operator.
  - apply reads_gives; [done | lia | done | lia |]. by replace (S (k - 1)) with k by lia.
Qed.
Lemma gives_one_of i t l : next i = Some t -> tok_t t ∈ l -> gives (or (tok toks <$> l)) i t (S i).
Proof.
  intros Ht. induction l as [|ty l IH]; intros Hl; [by apply not_elem_of_nil in Hl |]. destruct (decide (tok_t t = ty)) as [E | E].
  - by apply gives_or_here, gives_tok.
  - apply gives_or_next; [by eapply fails_other | apply IH; set_solver].
Qed.
Lemma gives_assignment_operator i t : next i = Some t -> tok_t t ∈ continuations 14 -> gives (assignment_operator toks) i t (S i).
Proof. intros Ht Hy. exact (gives_one_of i t _ Ht Hy). Qed.
Lemma bare_assignment e t a b : binary_view e = Some (14, t, a, b) -> reads a -> reads b -> reads_bare e.
Proof.
  intros He Ha Hb n i Hi Hn Hs. pose proof He as (Ht & _ & Hbuild)%binary_level_cases. rewrite (level_binary _ _ _ _ _ He) in *.
  rewrite (print_binary _ _ _ _ _ He) in *. change (left_level 14) with 13 in *. change (right_level 14) with 14 in *.
  apply seg_app in Hi as [H1 H2]. apply seg_cons in H2 as [H2 H3].
  rewrite length_app in *. cbn [length] in *. rewrite Nat.add_assoc, <- Nat.add_succ_comm in *. destruct n as [|n]; [lia |]. intros Hs'.
  pose proof (next_bound _ _ H2) as Hl. pose proof (reads_gives a 13 (S n) i Ha ltac:(lia) H1 Hn ltac:(by eapply stops_operator)) as Ga.
  pose proof (reads_gives b 14 n _ Hb ltac:(lia) H3 ltac:(lia) Hs') as Gb.
  eapply folds_gives; [| eapply (fails_assignment_tail 15); [exact Hs' | lia]].
  eapply folds_next; [eapply folds_initial; exact Ga | | exact Hbuild | done | lia].
  apply gives_seq. eapply gives_part; [by eapply gives_assignment_operator |]. eapply gives_part; [exact Gb | apply gives_success].
Qed.
Lemma bare_conditional a b c : reads a -> reads b -> reads c -> reads_bare (CONDITIONAL_EXPR a b c).
Proof.
  intros Ha Hb Hc n i Hi Hn Hs. change (print _) with
    (print_at 12 a ++ punct TOK_QUESTION_MARK :: print_at 15 b ++ punct TOK_COLON :: print_at 13 c) in *.
  apply seg_app in Hi as [H1 H2]. apply seg_cons in H2 as [H2 H3]. apply seg_app in H3 as [H3 H4]. apply seg_cons in H4 as [H4 H5].
  intros Hs'. destruct n as [|n]; [lia |]. pose proof (next_bound _ _ H2) as Hl. pose proof (next_bound _ _ H4) as Hl'.
  repeat (rewrite length_app in Hs'; cbn [length] in Hs'). 
  assert (Hj : i + (length (print_at 12 a) + S (length (print_at 15 b) + S (length (print_at 13 c)))) =
    S (S (i + length (print_at 12 a)) + length (print_at 15 b)) + length (print_at 13 c)) by lia. rewrite Hj in Hs'.
  pose proof (reads_gives a 12 (S n) i Ha ltac:(lia) H1 Hn ltac:(by eapply stops_operator; [exact H2 | cbn; set_solver])) as Ga.
  pose proof (reads_gives b 15 n _ Hb ltac:(lia) H3 ltac:(lia) ltac:(eapply stops_closing; [exact H4 |]; intros l; apply closing; set_solver)) as Gb.
  pose proof (reads_gives c 13 n _ Hc ltac:(lia) H5 ltac:(lia) Hs') as Gc.
  repeat (rewrite length_app; cbn [length]). rewrite Hj.
  apply gives_or_here, gives_seq. eapply gives_part; [exact Ga |]. eapply gives_part; [by eapply gives_tok |].
  eapply gives_part; [exact Gb |]. eapply gives_part; [by eapply gives_tok |]. eapply gives_part; [exact Gc | apply gives_success].
Qed.

(** *** Unary operators *)

Lemma unary_cases e t a : unary_view e = Some (t, a) ->
  build_unary_expr (punct t) a = Ok e /\
  (t = TOK_INCREMENT \/ t = TOK_DECREMENT \/ t ∈ [TOK_AMPERSAND; TOK_ASTERISK; TOK_PLUS; TOK_MINUS; TOK_BIT_NOT; TOK_LOGICAL_NOT]).
Proof. destruct e; try discriminate; intros [= <- <-]; (split; [done |]); first [by left | by right; left | right; right; set_solver]. Qed.
Lemma gives_with_operator op arg i t a j e : gives op i t (S i) -> gives arg (S i) a j -> build_unary_expr t a = Ok e ->
  gives (with_operator op arg) i e j.
Proof.
  intros Ho Ha He. apply gives_seq. eapply gives_part; [exact Ho |]. eapply gives_part; [exact Ha |].
  eapply gives_lift; [exact He | apply gives_success].
Qed.
Lemma fails_with_operator op arg i : fails op i -> fails (with_operator op arg) i.
Proof. intros H. by apply fails_seq, fails_stuck, fails_part. Qed.
Lemma gives_unary_operator i t : next i = Some (punct t) -> t ∈ [TOK_AMPERSAND; TOK_ASTERISK; TOK_PLUS; TOK_MINUS; TOK_BIT_NOT; TOK_LOGICAL_NOT] ->
  gives (unary_operator toks) i (punct t) (S i).
Proof. intros Ht Hy. exact (gives_one_of i (punct t) _ Ht Hy). Qed.
Lemma stops_after_unary i : stops 1 i -> stops 3 i.
Proof. intros H t l Ht Hl. destruct l as [|[|[|l]]]; [apply (H t 0 Ht); lia | by apply not_elem_of_nil .. | lia]. Qed.
Lemma bare_unary e t a : unary_view e = Some (t, a) -> reads a -> reads_bare e.
Proof.
  intros He Ha n i Hi Hn Hs. pose proof He as (Hbuild & Ht)%unary_cases. rewrite (level_unary _ _ _ He) in *.
  rewrite (print_unary _ _ _ He) in *. apply seg_cons in Hi as [H1 H2]. cbn [length] in *. rewrite <- Nat.add_succ_comm in *. intros _.
  pose proof (next_bound _ _ H1) as Hl. destruct n as [|n]; [lia |]. pose proof (stops_after_unary _ Hs) as Hs3.
  pose proof (reads_gives a 1 n _ Ha ltac:(lia) H2 ltac:(lia) ltac:(eapply stops_weaken; [| exact Hs3]; lia)) as Gu.
  assert (Gc : gives (cast_expr toks (grammar_at toks n)) (S i) a (S i + length (print_at 1 a))) by (by apply gives_or_here).
  apply gives_or_next.
  { eapply fails_postfix; [exact H1 |]. right. destruct Ht as [-> | [-> | Ht]]; [set_solver .. |]. set_solver. }
  destruct Ht as [-> | [-> | Ht]].
  - apply gives_or_here. eapply gives_with_operator; [by eapply gives_tok | exact Gu | exact Hbuild].
  - apply gives_or_next; [by eapply fails_with_operator, fails_other |].
    apply gives_or_here. eapply gives_with_operator; [by eapply gives_tok | exact Gu | exact Hbuild].
  - do 2 (apply gives_or_next; [eapply fails_with_operator, fails_other; [exact H1 | cbn; intros ->; set_solver] |]).
    apply gives_or_here. eapply gives_with_operator; [by apply gives_unary_operator | exact Gc | exact Hbuild].
Qed.
Lemma bare_sizeof a : reads a -> reads_bare (SIZEOF_EXPR_EXPR a).
Proof.
  intros Ha n i Hi Hn Hs. change (print _) with (name_token "sizeof" :: print_at 1 a) in *.
  apply seg_cons in Hi as [H1 H2]. cbn [length] in *. rewrite <- Nat.add_succ_comm in *. intros _.
  pose proof (next_bound _ _ H1) as Hl. destruct n as [|n]; [lia |].
  pose proof (reads_gives a 1 n _ Ha ltac:(lia) H2 ltac:(lia) ltac:(eapply stops_weaken; [| apply stops_after_unary, Hs]; lia)) as Gu.
  assert (F : forall ty, ty <> TOK_SYMBOL -> fails (tok toks ty) i) by (intros ty Hy; eapply fails_other; [exact H1 | by cbn; congruence]).
  apply gives_or_next; [eapply fails_postfix; [exact H1 | by left] |].
  do 2 (apply gives_or_next; [by apply fails_with_operator, F |]). apply gives_or_next.
  { apply fails_with_operator, fails_or. repeat (apply Forall_cons; split); [by apply F .. | by constructor]. }
  apply gives_or_here, gives_seq. eapply gives_part; [by eapply gives_keyword |]. eapply gives_part; [exact Gu | apply gives_success].
Qed.

(** *** Postfix operators *)

Lemma fails_postfix_head {A} i t ty (f : Token -> parser A) (g : A -> PostfixTail) : next i = Some t -> tok_t t <> ty ->
  fails (as_ g (seq (part (tok toks ty) f))) i.
Proof. intros Ht Hy. apply fails_as, fails_seq, fails_stuck, fails_part. by eapply fails_other. Qed.
(** An operand and one more operator. *)
Lemma bare_postfix e a n i l tail j : reads a -> level_of e = 0 -> print e = print_at 0 a ++ l -> seg i (print e) -> length toks - i < n ->
  (exists t l', l = punct t :: l' /\ t ∈ continuations 0) ->
  gives (postfix_tail toks (grammar_at toks n)) (i + length (print_at 0 a)) tail j -> j = i + length (print e) ->
  build_postfix_expr a tail = Ok e -> reaches (grammar_at toks n) (level_of e) i e (i + length (print e)).
Proof.
  intros Ha Hlevel Hp Hi Hn (t & l' & -> & Ht) Ht' -> He. rewrite Hlevel. rewrite Hp in *. apply seg_app in Hi as [H1 H2].
  apply seg_cons in H2 as [H2 _].
  pose proof (Ha 0 n i ltac:(lia) H1 Hn ltac:(by eapply stops_operator)) as [Hs R]. split; [done |].
  eapply folds_next; [exact R | exact Ht' | exact He | by eapply next_bound | rewrite length_app; cbn; lia].
Qed.
Lemma bare_field e a name arrow : e = (if arrow : bool then STRUCT_ARROW_FIELD_EXPR a name else STRUCT_DOT_FIELD_EXPR a name) ->
  reads a -> reads_bare e.
Proof.
  intros He Ha n i Hi Hn _. assert (Hlevel : level_of e = 0) by (rewrite He; by destruct arrow). set (ty := if arrow then TOK_ARROW else TOK_DOT).
  assert (Hp : print e = print_at 0 a ++ [punct ty; name_token name]) by (rewrite He; by destruct arrow).
  pose proof Hi as Hi'. rewrite Hp in Hi'. apply seg_app in Hi' as [_ [H1 [H2 _]%seg_cons]%seg_cons].
  eapply (bare_postfix _ a n i _ (if arrow then TailArrow name else TailDot name) _ Ha Hlevel Hp Hi Hn).
  - eexists _, _. split; [done | destruct arrow; cbn; set_solver].
  - do 2 (apply gives_or_next; [eapply fails_postfix_head; [exact H1 | by destruct arrow] |]).
    assert (G : forall g : string -> PostfixTail, gives (as_ g (seq (part (tok toks ty) (fun _ => part (symbol toks) success))))
      (i + length (print_at 0 a)) (g name) (S (S (i + length (print_at 0 a))))).
    { intros g. apply gives_as, gives_seq. eapply gives_part; [by eapply gives_tok |]. eapply gives_part; [by apply gives_symbol | apply gives_success]. }
    destruct arrow; [apply gives_or_next; [by eapply fails_postfix_head |] |]; apply gives_or_here, G.
  - rewrite Hp, length_app. cbn. lia.
  - rewrite He. by destruct arrow.
Qed.
Lemma bare_step e a up : e = (if up : bool then POST_INCREMENT_EXPR a else POST_DECREMENT_EXPR a) -> reads a -> reads_bare e.
Proof.
  intros He Ha n i Hi Hn _. assert (Hlevel : level_of e = 0) by (rewrite He; by destruct up). set (ty := if up then TOK_INCREMENT else TOK_DECREMENT).
  assert (Hp : print e = print_at 0 a ++ [punct ty]) by (rewrite He; by destruct up).
  pose proof Hi as Hi'. rewrite Hp in Hi'. apply seg_app in Hi' as [_ [H1 _]%seg_cons].
  eapply (bare_postfix _ a n i _ (if up then TailIncrement else TailDecrement) _ Ha Hlevel Hp Hi Hn).
  - eexists _, _. split; [done | destruct up; cbn; set_solver].
  - do 4 (apply gives_or_next; [eapply fails_postfix_head; [exact H1 | by destruct up] |]).
    destruct up; [| apply gives_or_next; [by eapply fails_as, fails_other |]]; apply gives_or_here;
      [eapply (gives_as (fun _ => TailIncrement)) | eapply (gives_as (fun _ => TailDecrement))]; by eapply gives_tok.
  - rewrite Hp, length_app. cbn. lia.
  - rewrite He. by destruct up.
Qed.
Lemma bare_index a b : reads a -> reads b -> reads_bare (INDEX_EXPR a b).
Proof.
  intros Ha Hb n i Hi Hn _. assert (Hp : print (INDEX_EXPR a b) = print_at 0 a ++ punct TOK_LSQUARE :: print_at 15 b ++ [punct TOK_RSQUARE]) by done.
  pose proof Hi as Hi'. rewrite Hp in Hi'. apply seg_app in Hi' as [_ [H1 [H2 [H3 _]%seg_cons]%seg_app]%seg_cons].
  pose proof (next_bound _ _ H1) as Hl. destruct n as [|n]; [lia |].
  pose proof (reads_gives b 15 n _ Hb ltac:(lia) H2 ltac:(lia) ltac:(eapply stops_closing; [exact H3 |]; intros l; apply closing; set_solver)) as Gb.
  eapply (bare_postfix (INDEX_EXPR a b) a (S n) i _ (TailIndex b) (S (S (i + length (print_at 0 a)) + length (print_at 15 b))) Ha eq_refl Hp Hi Hn).
  - eexists _, _. split; [done | cbn; set_solver].
  - apply gives_or_here, (gives_as TailIndex), gives_seq. eapply gives_part; [by eapply gives_tok |]. eapply gives_part; [exact Gb |].
    eapply gives_part; [by eapply gives_tok | apply gives_success].
  - rewrite Hp, !length_app. cbn. rewrite length_app. cbn. lia.
  - done.
Qed.

Fixpoint more_arguments (l : list ASTExpr) : list Token :=
  match l with [] => [] | b :: l => punct TOK_COMMA :: print_at 14 b ++ more_arguments l end.
Lemma separated_cons a l : separated (print_at 14) (a :: l) = print_at 14 a ++ more_arguments l.
Proof.
  revert a. induction l as [|b l IH]; intros a; [by rewrite app_nil_r |].
  change (separated _ (a :: b :: l)) with (print_at 14 a ++ punct TOK_COMMA :: separated (print_at 14) (b :: l)). by rewrite IH.
Qed.
Lemma gives_comma i : next i = Some (punct TOK_COMMA) -> gives (comma toks) i tt (S i).
Proof. intros H. eapply (gives_as (fun _ => tt)). by eapply gives_tok. Qed.
Lemma fails_comma i : next i = Some (punct TOK_RROUND) -> fails (comma toks) i.
Proof. intros H. apply fails_as. by eapply fails_other. Qed.
(** What follows an argument. *)
Lemma stops_argument i l : seg i (more_arguments l ++ [punct TOK_RROUND]) -> stops 15 i.
Proof.
  intros H. destruct l as [|b l].
  - apply seg_cons in H as [H _]. eapply stops_closing; [exact H |]. intros m. apply closing. set_solver.
  - apply seg_cons in H as [H _]. eapply stops_operator; [exact H | cbn; set_solver].
Qed.
Lemma gives_more_arguments n l : Forall reads l -> forall acc i k, seg i (more_arguments l ++ [punct TOK_RROUND]) ->
  length toks - i < S n -> length toks - i < k ->
  gives (list_loop k (seq (assignment_expr toks (grammar_at toks n))) (comma toks) acc) i (acc ++ l)
    (i + length (more_arguments l)).
Proof.
  induction 1 as [|b l Hb _ IH]; intros acc i [|k] Hi Hn Hk s Hs; [lia | | lia |].
  - apply seg_cons in Hi as [H1 _]. destruct (fails_comma i H1 s Hs) as (s1 & E1 & Hs1). exists s1. rewrite app_nil_r, Nat.add_0_r.
    split; [| done]. cbn [list_loop]. unfold mbind, st_bind. by rewrite E1.
  - cbn [more_arguments app] in *. rewrite <- app_assoc in Hi. apply seg_cons in Hi as [H1 [H2 H3]%seg_app]. pose proof (next_bound _ _ H1) as Hl.
    destruct (gives_comma i H1 s Hs) as (s1 & E1 & Hs1).
    pose proof (reads_gives b 14 n _ Hb ltac:(lia) H2 ltac:(lia) (stops_argument _ _ H3)) as Gb.
    destruct (gives_seq _ _ _ _ Gb s1 Hs1) as (s2 & E2 & Hs2).
    destruct (IH (acc ++ [b]) _ k H3 ltac:(lia) ltac:(lia) s2 Hs2) as (s3 & E3 & Hs3). exists s3. split.
    + cbn [list_loop]. unfold mbind, st_bind in *. rewrite E1. cbn [level_parser] in E2. rewrite E2, E3. by rewrite <- app_assoc.
    + cbn [length]. rewrite length_app. by replace (i + S (length (print_at 14 b) + length (more_arguments l)))
        with (S i + length (print_at 14 b) + length (more_arguments l)) by lia.
Qed.
Lemma gives_arguments n i l : Forall reads l -> seg i (separated (print_at 14) l ++ [punct TOK_RROUND]) -> length toks - i < n ->
  gives (argument_expr_list toks (grammar_at toks (S n))) i l (i + length (separated (print_at 14) l)).
Proof.
  intros Hall Hi Hn s Hs. unfold argument_expr_list, list_of. cbn [grammar_at rules g_assignment_expr]. unfold mbind, st_bind.
  destruct Hall as [|a l Ha Hl].
  - apply seg_cons in Hi as [H1 _]. destruct (fails_seq _ _ (fails_stuck _ _ (fails_assignment (grammar_at toks n) i H1)) s Hs) as (s1 & E1 & Hs1).
    rewrite E1, Nat.add_0_r. by exists s1.
  - rewrite separated_cons, <- app_assoc in Hi. apply seg_app in Hi as [H1 H2]. pose proof (stops_argument _ _ H2) as Hstop.
    destruct (gives_seq _ _ _ _ (reads_gives a 14 n i Ha ltac:(lia) H1 Hn Hstop) s Hs) as (s1 & E1 & Hs1). cbn [level_parser] in E1.
    rewrite E1. rewrite separated_cons, length_app, Nat.add_assoc. apply (gives_more_arguments n l Hl [a] _ (S (length toks)) H2 ltac:(lia) ltac:(lia) s1 Hs1).
Qed.
Lemma bare_call f l : reads f -> Forall reads l -> reads_bare (FUNCTION_CALL_EXPR f l).
Proof.
  intros Hf Hl n i Hi Hn _. assert (Hp : print (FUNCTION_CALL_EXPR f l) =
    print_at 0 f ++ punct TOK_LROUND :: separated (print_at 14) l ++ [punct TOK_RROUND]) by done.
  pose proof Hi as Hi'. rewrite Hp in Hi'. apply seg_app in Hi' as [_ [H1 H2]%seg_cons]. pose proof H2 as [_ [H3 _]%seg_cons]%seg_app.
  pose proof (next_bound _ _ H1) as Hb. destruct n as [|n]; [lia |].
  eapply (bare_postfix (FUNCTION_CALL_EXPR f l) f (S n) i _ (TailCall l) (S (S (i + length (print_at 0 f)) + length (separated (print_at 14) l)))
    Hf eq_refl Hp Hi Hn).
  - eexists _, _. split; [done | cbn; set_solver].
  - apply gives_or_next; [by eapply fails_postfix_head |]. apply gives_or_here, (gives_as TailCall), gives_seq.
    eapply gives_part; [by eapply gives_tok |]. eapply gives_part; [apply gives_arguments; [done | done | lia] |].
    eapply gives_part; [by eapply gives_tok | apply gives_success].
  - rewrite Hp, !length_app. cbn. rewrite length_app. cbn. lia.
  - done.
Qed.

(** *** Atoms *)

Lemma bare_identifier name : free_name types name = true -> reads_bare (IDENTIFIER_EXPR name).
Proof.
  intros Hf n i Hi Hn _. apply seg_cons in Hi as [H _]. rewrite Nat.add_comm. apply primary_reaches.
  - intros t. rewrite H. intros [= <-]. unfold is_keyword, name_token. cbn [tok_t tok_u]. apply bool_decide_eq_false_2. intros E.
    apply negb_true_iff, bool_decide_eq_false in Hf. rewrite E in Hf. set_solver.
  - by apply gives_or_here, gives_identifier.
Qed.
Lemma bare_literal e t : print e = [t] -> level_of e = 0 -> literal t e -> reads_bare e.
Proof.
  intros Hp Hlevel Ht n i Hi Hn _. rewrite Hlevel, Hp in *. apply seg_cons in Hi as [H _]. rewrite Nat.add_comm. destruct Ht as [Hb Ht].
  apply primary_reaches.
  - intros t'. rewrite H. intros [= <-]. unfold is_keyword. by destruct Ht as [-> | [-> | ->]].
  - apply gives_or_next; [eapply fails_identifier; [exact H |]; left; by destruct Ht as [-> | [-> | ->]] |]. by apply gives_or_here, (gives_constant i t).
Qed.

(** *** All of them *)

Lemma argument_length a l : In a l -> length (print a) <= length (separated (print_at 14) l).
Proof.
  destruct l as [|b l]; [done |]. rewrite separated_cons, length_app. pose proof (length_print_at 14 a). intros [-> | Ha]; [lia |].
  induction l as [|c l IH]; [done |]. cbn. rewrite length_app. destruct Ha as [-> | Ha]; [lia |]. specialize (IH Ha). lia.
Qed.
Lemma printable_reads e : printable types e = true -> reads e.
Proof.
  induction e as [e IH] using (well_founded_induction (Wf_nat.well_founded_ltof _ (fun e => length (print e)))). unfold Wf_nat.ltof in IH. intros He.
  assert (IH' : forall a k l l', print e = l ++ print_at k a ++ l' -> l <> [] \/ l' <> [] -> printable types a = true -> reads a).
  { intros a k l l' Hp Hl. apply IH. rewrite Hp, !length_app. pose proof (length_print_at k a). destruct l, l'; cbn; try lia. by destruct Hl. }
  apply bare_reads. destruct (binary_view e) as [[[[k t] a] b]|] eqn:Hb.
  { rewrite (printable_binary _ _ _ _ _ _ Hb), andb_true_iff in He. destruct He as [He1 He2].
    pose proof (print_binary _ _ _ _ _ Hb) as Hp.
    pose proof (IH' a _ [] _ Hp ltac:(by right) He1) as Ha.
    pose proof (IH' b (right_level k) (print_at (left_level k) a ++ [punct t]) [] ltac:(by rewrite Hp, app_nil_r, <- app_assoc) ltac:(left; by destruct (print_at _ a)) He2) as Hb'.
    destruct (binary_level_cases _ _ _ _ _ Hb) as (_ & [-> | Hk] & _); [by eapply bare_assignment | by eapply bare_left_associative]. }
  destruct (unary_view e) as [[t a]|] eqn:Hu.
  { rewrite (printable_unary _ _ _ _ Hu) in He. eapply bare_unary; [exact Hu |].
    apply (IH' a 1 [punct t] []); [by rewrite (print_unary _ _ _ Hu), app_nil_r | by left | done]. }
  destruct e; try discriminate; cbn [printable] in He; rewrite ?andb_true_iff in He.
  - destruct int_literal. by eapply bare_literal; [done.. | split; [done | by left]].
  - destruct float_literal. by eapply bare_literal; [done.. | split; [done | by right; left]].
  - by eapply bare_literal; [done.. | split; [done | by right; right]].
  - by apply bare_identifier.
  - apply (bare_field _ e field_name false eq_refl). by apply (IH' e 0 [] _ eq_refl); [right |].
  - apply (bare_field _ e field_name true eq_refl). by apply (IH' e 0 [] _ eq_refl); [right |].
  - destruct He as [He1 He2]. apply bare_index; [by apply (IH' e1 0 [] _ eq_refl); [right |] |].
    apply (IH' e2 15 (print_at 0 e1 ++ [punct TOK_LSQUARE]) [punct TOK_RSQUARE]); [by rewrite <- app_assoc | by right | done].
  - destruct He as [He1 He2]. apply bare_call; [by apply (IH' e 0 [] _ eq_refl); [right |] |]. apply List.Forall_forall.
    rewrite forallb_forall in He2. intros a Ha. apply IH; [| by apply He2]. apply argument_length in Ha.
    change (print _) with (print_at 0 e ++ punct TOK_LROUND :: separated (print_at 14) arg_list ++ [punct TOK_RROUND]) at 2.
    rewrite length_app. cbn [length]. rewrite length_app. lia.
  - apply (bare_step _ e true eq_refl). by apply (IH' e 0 [] _ eq_refl); [right |].
  - apply (bare_step _ e false eq_refl). by apply (IH' e 0 [] _ eq_refl); [right |].
  - apply bare_sizeof. apply (IH' e 1 [name_token "sizeof"] []); [by rewrite app_nil_r | by left | done].
  - destruct He as [[He1 He2] He3]. apply bare_conditional; [by apply (IH' e1 12 [] _ eq_refl); [right |] | |].
    + apply (IH' e2 15 (print_at 12 e1 ++ [punct TOK_QUESTION_MARK]) (punct TOK_COLON :: print_at 13 e3)); [by rewrite <- app_assoc | by right | done].
    + apply (IH' e3 13 (print_at 12 e1 ++ punct TOK_QUESTION_MARK :: print_at 15 e2 ++ [punct TOK_COLON]) []); [| left; by destruct (print_at 12 e1) | done].
      rewrite app_nil_r, <- app_assoc. cbn. by rewrite <- app_assoc.
Qed.
End Reading.

(** C7: expressions are read with the precedence and the associativity of C: the tokens of
    an expression printed with only the parentheses that its operators need are parsed to
    that expression, for all thirty binary operators, the unary and postfix ones, calls and
    the conditional operator; the grammar never takes a wrong alternative or stops early. *)
Theorem parse_expr_print (e : ASTExpr) (toks : list SourceToken) (l : Longest) (Hprintable : printable [] e = true)
    (Htoks : token <$> toks = print e) :
  exists l', parse_expr toks l = Ok (inr e, l').
Proof.
  assert (Hseg : seg toks 0 (print_at 15 e)).
  { intros k t. unfold print_at, parenthesised, next. rewrite (proj2 (Nat.ltb_ge _ _) (level_bound e)), <- Htoks, list_lookup_fmap. done. }
  assert (Hlen : length (print_at 15 e) = length toks).
  { unfold print_at, parenthesised. rewrite (proj2 (Nat.ltb_ge _ _) (level_bound e)), <- Htoks. apply length_fmap. }
  destruct (reads_gives toks [] e 15 (S (length toks)) 0 (printable_reads toks [] e Hprintable) (Nat.le_refl _) Hseg ltac:(lia)) with (s := mkParser 0 [] l)
    as (s' & E & [Hpos _]).
  - intros t k Ht. apply next_bound in Ht. lia.
  - by split.
  - exists (longest s'). unfold parse_expr. cbn [level_parser] in E. unfold grammar. rewrite E. cbn. unfold finish.
    rewrite decide_True; [done |]. rewrite Hpos. lia.
Qed.

(** [a = b ? f(x, -y) : (1 + 2) * *p[i].next - sizeof c, d++] *)
Definition sample_expr : ASTExpr :=
  let v (s : string) := IDENTIFIER_EXPR s in
  let int n := INT_LITERAL_EXPR (mkIntLiteral n 0%Z) in
  COMMA_EXPR
    (ASSIGN_EXPR (v "a") (CONDITIONAL_EXPR (v "b") (FUNCTION_CALL_EXPR (v "f") [v "x"; UNARY_MINUS_EXPR (v "y")])
      (MINUS_EXPR (MULTIPLY_EXPR (ADD_EXPR (int 1%Z) (int 2%Z)) (DEREF_EXPR (STRUCT_DOT_FIELD_EXPR (INDEX_EXPR (v "p") (v "i")) "next")))
        (SIZEOF_EXPR_EXPR (v "c")))))
    (POST_INCREMENT_EXPR (v "d")).
Lemma parse_expr_print_witness :
  exists l', parse_expr ((fun t => mkSourceToken t (mkRange (mkLoc None 0) (mkLoc None 0))) <$> print sample_expr) no_longest = Ok (inr sample_expr, l').
Proof.
  apply parse_expr_print; [reflexivity | reflexivity].
Defined.
