(* ===== verification/Preprocess.v ===== *)
(** * The preprocessor ([src/src/syntax/preprocess.c])

    [preprocess] turns a file into one text, following includes, evaluating
    conditionals and expanding macros character by character; adjustments map
    positions of the text to the files. A computation on the state [PP] returns
    false after an error has been reported. The file system is a pair of
    parameters; so is [parse_expr], which is generated from the grammar. Arrays
    used as stacks are lists with the top first. The entries of [macro_env] are
    values; the list of mapped files, which is only kept to unmap them, is left
    out. Messages are logged without their arguments. [fuel] bounds the nesting of
    includes and expansions. *)

From S2P Require Import Prelude Reader Ast.
From S2P Require LibC Strings Lex.

Local Open Scope Z_scope.

(** ** Data *)

(** [value] is NULL for an argument whose expansion failed. *)
Record Macro := mkMacro {
  m_name : list Z;
  m_value : option (list Z);
  arg_names : list (list Z);
  variadic : bool
}.

Inductive Position := THEN | ELSE.
#[export] Instance Position_eq_dec : EqDecision Position.
Proof. solve_decision. Defined.
Record PPCondScope := mkScope { condition : bool; scope_position : Position }.

(** [out_freed]: the block of [out_chars] has been released. *)
Record PP := mkPP {
  pp_reader : Reader;
  out_chars : list Z;
  out_freed : bool;
  out_adjustments : list Adjustment;
  macro_depth : Z;
  pp_scope_stack : list PPCondScope;
  macro_env : list Macro;
  curr_macro_params : list Macro
}.

Definition set_reader (p : PP) x :=
  mkPP x (out_chars p) (out_freed p) (out_adjustments p) (macro_depth p) (pp_scope_stack p) (macro_env p) (curr_macro_params p).
Definition set_out (p : PP) x freed :=
  mkPP (pp_reader p) x freed (out_adjustments p) (macro_depth p) (pp_scope_stack p) (macro_env p) (curr_macro_params p).
Definition set_adjustments (p : PP) x :=
  mkPP (pp_reader p) (out_chars p) (out_freed p) x (macro_depth p) (pp_scope_stack p) (macro_env p) (curr_macro_params p).
Definition set_depth (p : PP) x :=
  mkPP (pp_reader p) (out_chars p) (out_freed p) (out_adjustments p) x (pp_scope_stack p) (macro_env p) (curr_macro_params p).
Definition set_stack (p : PP) x :=
  mkPP (pp_reader p) (out_chars p) (out_freed p) (out_adjustments p) (macro_depth p) x (macro_env p) (curr_macro_params p).
Definition set_env (p : PP) x :=
  mkPP (pp_reader p) (out_chars p) (out_freed p) (out_adjustments p) (macro_depth p) (pp_scope_stack p) x (curr_macro_params p).
Definition set_params (p : PP) x :=
  mkPP (pp_reader p) (out_chars p) (out_freed p) (out_adjustments p) (macro_depth p) (pp_scope_stack p) (macro_env p) x.

Abbreviation pp := (st PP).

Definition on_reader {A} (m : st Reader A) : pp A := zoom pp_reader (fun r p => set_reader p r) m.
Definition the_reader : pp Reader := p ← get; mret (pp_reader p).
Definition error (range : SourceRange) (msg : string) : pp unit := on_reader (emit_error range msg).

(** [ARRAY_APPEND] and [ARRAY_APPEND_ELEMS] on [out_chars]. *)
Definition append_out (l : list Z) : pp unit :=
  p ← get;
  if out_freed p then lift (Stop Undef) else put (set_out p (out_chars p ++ l) false).

(** ** C strings *)

(** What [strlen] sees of a buffer that is terminated behind its end. *)
Fixpoint cstr (l : list Z) : list Z :=
  match l with [] => [] | c :: l => if c =? 0 then [] else c :: cstr l end.
(** [strndup(buf + start, len)] for a buffer without a terminator. *)
Definition strndup (buf : list Z) (start len : Z) : res (list Z) :=
  let l := drop (Z.to_nat start) buf in
  if len <=? Z.of_nat (length l) then Ok (cstr (take (Z.to_nat len) l))
  else if existsb (fun c => c =? 0) l then Ok (cstr l) else Stop Undef.
(** The [len] characters at [buf + start]. *)
Definition slice (buf : list Z) (start len : Z) : res (list Z) :=
  let l := drop (Z.to_nat start) buf in
  if len <=? Z.of_nat (length l) then Ok (take (Z.to_nat len) l) else Stop Undef.
(** [strneq(symbol.chars, name, symbol.len)]: is the symbol an initial part of the
    name? *)
Definition names (symbol : list Z) (name : string) : res bool :=
  Strings.strneq symbol (Lex.bytes_of name ++ [0]) (Z.of_nat (length symbol)).
Definition string_of (l : list Z) : string :=
  foldr (fun c s => String (Ascii.ascii_of_nat (Z.to_nat c)) s) EmptyString l.

(** An INVALID_STRING has a length that no name has. *)
Definition look_up_macro (env : list Macro) (name : option (list Z)) : option Macro :=
  match name with
  | Some name => snd <$> list_find (fun m => m_name m = name) env
  | None => None
  end.

(** ** White space, comments and literals *)

Definition line_comment_body (_ : unit) : st Reader (unit + unit) :=
  r ← get;
  if negb (peek_char r =? 10) && negb (at_end r) then advance;; mret (inl tt) else mret (inr tt).

Definition block_comment_body (_ : unit) : st Reader (unit + unit) :=
  r ← get;
  if at_end r then mret (inr tt)
  else
    c ← read_char;
    if c =? 42 then
      d ← read_char;
      if d =? 47 then mret (inr tt) else modify back_up;; mret (inl tt)
    else mret (inl tt).

(** One turn; the state is [initially_at_start_of_line] and the newlines kept. *)
Definition skip_body (skip_newline : bool) (s : bool * list Z) : st Reader (bool * list Z + list Z) :=
  let '(initially, out) := s in
  r ← get;
  if at_end r then mret (inr out)
  else if peek_char r =? 10 then
    if negb skip_newline then mret (inr out)
    else advance;; mret (inl (true, out ++ [10]))
  else if (peek_char r =? 32) || (peek_char r =? 9) then advance;; mret (inl (initially, out))
  else if peek_char r =? 47 then
    let comment_start := reader_source_loc r in
    advance;;
    c ← peek;
    if c =? 47 then
      loop_st (S (length (buffer r))) line_comment_body tt;;
      mret (inl (initially, out))
    else if c =? 42 then
      advance;;
      loop_st (S (length (buffer r))) block_comment_body tt;;
      r ← get;
      (if at_end r then emit_error (point_range comment_start) "Unterminated /* comment" else mret tt);;
      mret (inl (initially, out))
    else
      modify back_up;;
      modify (fun r => set_at_start r initially);;
      mret (inr out)
  else
    modify (fun r => set_at_start r initially);;
    mret (inr out).

(** The newlines to append to [out_chars]. *)
Definition skip_whitespace_and_comments_from_reader (skip_newline : bool) : st Reader (list Z) :=
  r ← get;
  loop_st (S (length (buffer r))) (skip_body skip_newline) (at_start_of_line r, []).

Definition skip_whitespace_and_comments (skip_newline : bool) : pp unit :=
  newlines ← on_reader (skip_whitespace_and_comments_from_reader skip_newline);
  match newlines with [] => mret tt | _ => append_out newlines end.

Definition literal_body (start_char : Z) (start : SourceLoc) (_ : unit) : st Reader (unit + bool) :=
  r ← get;
  if peek_char r =? start_char then mret (inr true)
  else if at_end r then
    emit_error (point_range start)
      (if start_char =? 34 then "Unterminated string literal" else "Unterminated character literal");;
    mret (inr false)
  else expect_char 92;; advance;; mret (inl tt).

(** The literal with its quotes, or nothing after an error. *)
Definition append_string_or_char_literal (start_char : Z) : st Reader (option (list Z)) :=
  r ← get;
  let literal_start := u32 (position r - 1) in
  closed ← loop_st (S (length (buffer r))) (literal_body start_char (reader_source_loc r)) tt;
  if (closed : bool) then
    advance;;
    r ← get;
    l ← lift (slice (buffer r) literal_start (u32 (position r - literal_start)));
    mret (Some l)
  else mret None.

(** ** Conditionals *)

Definition start_pp_if (cond : bool) : pp unit :=
  modify (fun p => set_stack p
    (mkScope (match pp_scope_stack p with
              | top :: _ => if negb (condition top) then false else cond
              | [] => cond
              end) THEN :: pp_scope_stack p)).

Definition ignoring_chars (p : PP) : bool :=
  match pp_scope_stack p with [] => false | top :: _ => negb (condition top) end.

(** ** Adjustments *)

Definition append_adjustment (a : Adjustment) : pp unit :=
  modify (fun p => set_adjustments p (out_adjustments p ++ [a])).
Definition replace_last_adjustment (a : Adjustment) : pp unit :=
  modify (fun p => set_adjustments p (removelast (out_adjustments p) ++ [a])).

(** Append an adjustment, or replace the last one when it is at the same place;
    inside a macro only the ends of the macro count. *)
Definition put_adjustment (type : AdjustmentType) (location : Z) (source_loc : SourceLoc) : pp unit :=
  p ← get;
  match last (out_adjustments p) with
  | None => append_adjustment (mkAdjustment type location source_loc)
  | Some prev =>
      match adj_type prev, type with
      | BEGIN_MACRO_ADJUSTMENT, NORMAL_ADJUSTMENT => mret tt
      | prev_type, _ =>
          if Reader.location prev =? location then
            let type := match prev_type, type with
                        | END_MACRO_ADJUSTMENT, NORMAL_ADJUSTMENT => END_MACRO_ADJUSTMENT
                        | _, _ => type
                        end in
            replace_last_adjustment (mkAdjustment type location source_loc)
          else append_adjustment (mkAdjustment type location source_loc)
      end
  end.

Definition add_adjustment_to (type : AdjustmentType) (source_loc : SourceLoc) : pp unit :=
  p ← get;
  let location := u32 (Z.of_nat (length (out_chars p))) in
  nested ←
    match type with
    | BEGIN_MACRO_ADJUSTMENT =>
        let depth := u32 (macro_depth p + 1) in
        modify (fun p => set_depth p depth);; mret (negb (depth =? 1))
    | END_MACRO_ADJUSTMENT =>
        lift (ASSERT (negb (macro_depth p =? 0)));;
        let depth := u32 (macro_depth p - 1) in
        modify (fun p => set_depth p depth);; mret (negb (depth =? 0))
    | NORMAL_ADJUSTMENT => mret false
    end;
  if (nested : bool) then mret tt else put_adjustment type location source_loc.

Definition add_adjustment (type : AdjustmentType) : pp unit :=
  r ← the_reader; add_adjustment_to type (reader_source_loc r).

(** ** Files *)

Section Preprocess.
(** What [map_file_into_memory] finds, which files [fopen] opens, the generated
    parser of expressions (without its diagnostics). *)
Context (map_file : string -> option (list Z)) (file_exists : string -> bool)
  (parse_expr : list Lex.SourceToken -> option ASTExpr) (include_dirs : list string).

(** The directory part of a path, with its slash. *)
Definition base_path (including_file : list Z) : list Z :=
  match list_find (fun c => c = 47) (rev including_file) with
  | None => Lex.bytes_of "./"
  | Some (i, _) => take (length including_file - i) including_file
  end.

Fixpoint try_include_dirs (dirs : list string) (include_path : string) : option string :=
  match dirs with
  | [] => None
  | d :: dirs =>
      if file_exists (d +:+ include_path) then Some (d +:+ include_path) else try_include_dirs dirs include_path
  end.

Definition look_up_include_path (including_file : list Z) (include_path : list Z) : option string :=
  let path := string_of include_path in
  if bool_decide (head include_path = Some 47) then
    if file_exists path then Some path else None
  else
    let potential_path := string_of (base_path including_file) +:+ path in
    if file_exists potential_path then Some potential_path else try_include_dirs include_dirs path.

(** [preprocess_aux] on the reader that is now in the state. *)
Variable preprocess_aux_rec : pp bool.

(** Run on another text; the error log goes on. *)
Definition with_reader {A} (text : list Z) (start_of_line : bool) (name : string) (m : pp A) : pp A :=
  old ← the_reader;
  modify (fun p => set_reader p (set_stderr (reader_init text [] start_of_line (Some name)) (stderr old)));;
  a ← m;
  modify (fun p => set_reader p (set_stderr old (stderr (pp_reader p))));;
  mret a.

Definition preprocess_file (input_filename : string) (blame_source_range : SourceRange) : pp bool :=
  match map_file input_filename with
  | None =>
      match filename (range_start blame_source_range) with
      | None => on_reader (modify (fun r => set_stderr r (stderr r ++ [(blame_source_range, "Failed to open input file")])))
      | Some _ => error blame_source_range "File not found"
      end;;
      mret false
  | Some text =>
      with_reader text true input_filename (add_adjustment NORMAL_ADJUSTMENT;; preprocess_aux_rec)
  end.

(** ** Strings *)

Definition preprocess_string (s : option (list Z)) : pp bool :=
  text ← lift (of_opt s);
  p ← get;
  modify (fun q => set_stack (set_adjustments q []) []);;
  ret ← with_reader text false "??" preprocess_aux_rec;
  modify (fun q => set_stack (set_adjustments q (out_adjustments p)) (pp_scope_stack p));;
  mret ret.

(** A failed expansion gives NULL and leaves a freed buffer. *)
Definition macroexpand (s : option (list Z)) : pp (option (list Z)) :=
  p ← get;
  modify (fun q => set_out q [] false);;
  ok ← preprocess_string s;
  q ← get;
  if (ok : bool) then
    append_out [0];;
    modify (fun q => set_out q (out_chars p) (out_freed p));;
    mret (Some (cstr (out_chars q)))
  else
    put (set_out q (out_chars q) true);;
    mret None.

(** ** Conditions *)

Definition binop (f : Z -> Z -> res Z) (a b : pp (Z * bool)) : pp (Z * bool) :=
  '(x, o1) ← a; '(y, o2) ← b; z ← lift (f x y); mret (z, o1 && o2).
Definition truth (b : bool) : Z := if b then 1 else 0.
Definition nonzero (x : Z) : bool := negb (x =? 0).

(** The value as an [unsigned long], and whether no operation was unsupported. *)
Fixpoint eval_pp_expr (e : ASTExpr) : pp (Z * bool) :=
  let unary (f : Z -> Z) (a : pp (Z * bool)) := '(x, o) ← a; mret (f x, o) in
  let bin (f : Z -> Z -> Z) a b := binop (fun x y => Ok (f x y)) a b in
  match e with
  | INT_LITERAL_EXPR l => mret (int_value l, true)
  | UNARY_PLUS_EXPR a => eval_pp_expr a
  | UNARY_MINUS_EXPR a => unary (fun x => u64 (- x)) (eval_pp_expr a)
  | BIT_NOT_EXPR a => unary (bnot 64) (eval_pp_expr a)
  | LOGICAL_NOT_EXPR a => unary (fun x => truth (x =? 0)) (eval_pp_expr a)
  | MULTIPLY_EXPR a b => bin (fun x y => u64 (x * y)) (eval_pp_expr a) (eval_pp_expr b)
  | DIVIDE_EXPR a b => binop (fun x y => if y =? 0 then Stop Undef else Ok (x / y)) (eval_pp_expr a) (eval_pp_expr b)
  | MODULO_EXPR a b => binop (fun x y => if y =? 0 then Stop Undef else Ok (x mod y)) (eval_pp_expr a) (eval_pp_expr b)
  | ADD_EXPR a b => bin (fun x y => u64 (x + y)) (eval_pp_expr a) (eval_pp_expr b)
  | MINUS_EXPR a b => bin (fun x y => u64 (x - y)) (eval_pp_expr a) (eval_pp_expr b)
  | LEFT_SHIFT_EXPR a b => binop (shl 64) (eval_pp_expr a) (eval_pp_expr b)
  | RIGHT_SHIFT_EXPR a b => binop (shr 64) (eval_pp_expr a) (eval_pp_expr b)
  | LESS_THAN_EXPR a b => bin (fun x y => truth (x <? y)) (eval_pp_expr a) (eval_pp_expr b)
  | GREATER_THAN_EXPR a b => bin (fun x y => truth (y <? x)) (eval_pp_expr a) (eval_pp_expr b)
  | LESS_THAN_OR_EQUAL_EXPR a b => bin (fun x y => truth (x <=? y)) (eval_pp_expr a) (eval_pp_expr b)
  | GREATER_THAN_OR_EQUAL_EXPR a b => bin (fun x y => truth (y <=? x)) (eval_pp_expr a) (eval_pp_expr b)
  | EQUAL_EXPR a b => bin (fun x y => truth (x =? y)) (eval_pp_expr a) (eval_pp_expr b)
  | NOT_EQUAL_EXPR a b => bin (fun x y => truth (negb (x =? y))) (eval_pp_expr a) (eval_pp_expr b)
  | BIT_AND_EXPR a b => bin Z.land (eval_pp_expr a) (eval_pp_expr b)
  | BIT_XOR_EXPR a b => bin Z.lxor (eval_pp_expr a) (eval_pp_expr b)
  | BIT_OR_EXPR a b => bin Z.lor (eval_pp_expr a) (eval_pp_expr b)
  | LOGICAL_AND_EXPR a b =>
      '(x, o) ← eval_pp_expr a;
      if nonzero x then '(y, o') ← eval_pp_expr b; mret (truth (nonzero y), o && o') else mret (0, o)
  | LOGICAL_OR_EXPR a b =>
      '(x, o) ← eval_pp_expr a;
      if nonzero x then mret (1, o) else '(y, o') ← eval_pp_expr b; mret (truth (nonzero y), o && o')
  | COMMA_EXPR _ b => eval_pp_expr b
  | CONDITIONAL_EXPR c a b =>
      '(x, o) ← eval_pp_expr c;
      '(y, o') ← (if nonzero x then eval_pp_expr a else eval_pp_expr b);
      mret (y, o && o')
  | _ =>
      r ← the_reader;
      error (point_range (reader_source_loc r)) "Unsupported operation in preprocessor conditional";;
      mret (1, false)
  end.

(** The operand of [defined]: the character that replaces it. *)
Definition eval_defined : pp (option (list Z)) :=
  on_reader (skip_whitespace_and_comments_from_reader false);;
  bracketed ← on_reader (expect_char 40);
  (if (bracketed : bool) then on_reader (skip_whitespace_and_comments_from_reader false);; mret tt else mret tt);;
  macro_name ← on_reader read_symbol;
  closed ← (if (bracketed : bool) then
              on_reader (skip_whitespace_and_comments_from_reader false);; on_reader (expect_char 41)
            else mret true);
  if (closed : bool) then
    p ← get;
    mret (Some [if look_up_macro (macro_env p) macro_name is Some _ then 49 else 48; 32])
  else
    r ← the_reader;
    error (point_range (reader_source_loc r)) "Unexpected char in `defined' in preprocessor condition";;
    mret None.

(** One turn of the loop that collects the condition; white space is dropped. *)
Definition condition_body (condition_chars : list Z) : pp (list Z + option (list Z)) :=
  newlines ← on_reader (skip_whitespace_and_comments_from_reader false);
  let condition_chars := condition_chars ++ newlines in
  r ← the_reader;
  let c := peek_char r in
  if initial_ident_char c then
    ident ← on_reader read_symbol;
    let ident := default [] ident in
    is_defined ← lift (Strings.strneq (Lex.bytes_of "defined" ++ [0]) ident (Z.of_nat (length ident)));
    if (is_defined : bool) then
      o ← eval_defined;
      mret match o with Some l => inl (condition_chars ++ l) | None => inr None end
    else mret (inl (condition_chars ++ ident))
  else if (c =? 39) || (c =? 34) then
    on_reader advance;;
    o ← on_reader (append_string_or_char_literal c);
    mret match o with Some l => inl (condition_chars ++ l) | None => inr None end
  else if c =? 10 then mret (inr (Some condition_chars))
  else on_reader advance;; mret (inl (condition_chars ++ [u8 c])).

(** [okay], and [*result]. *)
Definition eval_pp_condition : pp (bool * bool) :=
  r ← the_reader;
  let start_loc := reader_source_loc r in
  skip_whitespace_and_comments false;;
  o ← loop_st (S (S (length (buffer r)))) condition_body [];
  match o with
  | None => mret (false, false)
  | Some condition_chars =>
      expanded ← macroexpand (Some (cstr condition_chars));
      text ← lift (of_opt expanded);
      '(_, tokens, log) ← lift (Lex.lex (S (S (length text))) text [mkAdjustment NORMAL_ADJUSTMENT 0 start_loc]);
      on_reader (modify (fun r => set_stderr r (stderr r ++ log)));;
      match parse_expr tokens with
      | None => mret (false, false)
      | Some e => '(x, okay) ← eval_pp_expr e; mret (okay, nonzero x)
      end
  end.

(** ** Directives *)

(** [while (!at_end(reader) && peek_char(reader) != '\n') advance(reader)] *)
Definition skip_line_body (_ : unit) : st Reader (unit + unit) :=
  r ← get;
  if negb (at_end r) && negb (peek_char r =? 10) then advance;; mret (inl tt) else mret (inr tt).

Definition pp_if : pp bool :=
  p ← get;
  if ignoring_chars p then
    on_reader (loop_st (S (length (buffer (pp_reader p)))) skip_line_body tt);;
    start_pp_if false;;
    mret true
  else
    '(okay, cond) ← eval_pp_condition;
    if (okay : bool) then start_pp_if cond;; mret true else mret false.

Definition pp_ifdef (defined : bool) (directive_range : SourceRange) : pp bool :=
  skip_whitespace_and_comments false;;
  macro_name ← on_reader read_symbol;
  match macro_name with
  | None =>
      error directive_range (if defined then "Expected identifier after #ifdef" else "Expected identifier after #ifndef");;
      mret false
  | Some _ =>
      p ← get;
      start_pp_if (Bool.eqb defined (if look_up_macro (macro_env p) macro_name is Some _ then true else false));;
      mret true
  end.

Definition set_top (s : PPCondScope) : pp unit := modify (fun p => set_stack p (s :: tail (pp_scope_stack p))).

Definition pp_elif (directive_range : SourceRange) : pp bool :=
  p ← get;
  match pp_scope_stack p with
  | [] => error directive_range "#elif without #if";; mret false
  | top_scope :: _ =>
      if negb (condition top_scope) then
        '(okay, cond) ← eval_pp_condition;
        if (okay : bool) then
          (if bool_decide (scope_position top_scope = THEN) && cond then set_top (mkScope true THEN) else mret tt);;
          mret true
        else mret false
      else set_top (mkScope false ELSE);; mret true
  end.

(** [ARRAY_LAST] of an empty stack is outside the array. *)
Definition pp_else (directive_range : SourceRange) : pp bool :=
  p ← get;
  match pp_scope_stack p with
  | [] => lift (Stop Undef)
  | scope :: parents =>
      if bool_decide (scope_position scope = ELSE) then
        error directive_range "Duplicate #else clause for preprocessor conditional";; mret false
      else
        let cond := negb (condition scope) in
        set_top (mkScope (match parents with
                          | parent_scope :: _ => if negb (condition parent_scope) then false else cond
                          | [] => cond
                          end) ELSE);;
        mret true
  end.

Definition pp_endif (directive_range : SourceRange) : pp bool :=
  p ← get;
  match pp_scope_stack p with
  | [] => error directive_range "Unmatched #endif";; mret false
  | _ :: parents => put (set_stack p parents);; mret true
  end.

(** [while (!at_end(reader) && read_char(reader) != terminator)] *)
Definition include_body (terminator : Z) (_ : unit) : st Reader (unit + unit) :=
  r ← get;
  if at_end r then mret (inr tt)
  else c ← read_char; mret (if c =? terminator then inr tt else inl tt).

Definition pp_include : pp bool :=
  skip_whitespace_and_comments false;;
  r ← the_reader;
  let include_path_loc := reader_source_loc r in
  c ← on_reader read_char;
  if negb (c =? 60) && negb (c =? 34) then
    r ← the_reader;
    error (point_range (reader_source_loc r)) "Expected filename after #include";; mret false
  else
    r ← the_reader;
    let start_index := position r in
    on_reader (loop_st (S (length (buffer r))) (include_body (if c =? 60 then 62 else 34)) tt);;
    r ← the_reader;
    if at_end r then error (point_range include_path_loc) "Unterminated include path";; mret false
    else
      let include_path_range := range_from r include_path_loc in
      let end_index := u32 (position r - 1) in
      include_path ← lift (slice (buffer r) start_index (u32 (end_index - start_index)));
      including_file ← lift (of_opt (Lex.chars_of (reader_filename r)));
      match look_up_include_path including_file include_path with
      | None => error include_path_range "File not found";; mret false
      | Some includee_path =>
          success ← preprocess_file includee_path include_path_range;
          if (success : bool) then skip_whitespace_and_comments false;; mret true else mret false
      end.

(** The parameters of a macro, one per turn: the state is the names so far; the
    result the names and whether the macro is variadic. *)
Definition param_body (args : list (list Z)) : pp (list (list Z) + option (list (list Z) * bool)) :=
  skip_whitespace_and_comments false;;
  r ← the_reader;
  let c := peek_char r in
  if c =? 10 then
    error (point_range (reader_source_loc r)) "Unexpected newline in macro definition argument list";; mret (inr None)
  else if c =? 46 then
    on_reader advance;;
    d ← on_reader read_char;
    dots ← (if d =? 46 then e ← on_reader read_char; mret (e =? 46) else mret false);
    if negb dots then
      r ← the_reader;
      error (point_range (reader_prev_source_loc r)) "Unexpected char in variadic macro argument list";; mret (inr None)
    else
      skip_whitespace_and_comments false;;
      d ← on_reader read_char;
      if d =? 41 then mret (inr (Some (args, true)))
      else
        r ← the_reader;
        error (point_range (reader_prev_source_loc r)) "Unexpected char after ellipsis in variadic macro argument list";;
        mret (inr None)
  else
    let arg_name_loc := reader_source_loc r in
    arg_name ← on_reader read_symbol;
    match arg_name with
    | None =>
        error (point_range arg_name_loc) "Unexpected character while processing macro argument list";; mret (inr None)
    | Some arg_name =>
        skip_whitespace_and_comments false;;
        next ← on_reader read_char;
        if next =? 41 then mret (inr (Some (args ++ [arg_name], false)))
        else if negb (next =? 44) then
          r ← the_reader;
          error (point_range (reader_prev_source_loc r)) "Expected comma after macro argument name";; mret (inr None)
        else mret (inl (args ++ [arg_name]))
    end.

(** [while (peek_char(reader) != '\n')] *)
Definition value_body (chars : list Z) : st Reader (list Z + list Z) :=
  c ← peek;
  if c =? 10 then mret (inr chars)
  else c ← read_char; mret (inl (chars ++ [u8 c])).

Fixpoint replace_macro (env : list Macro) (m : Macro) : list Macro :=
  match env with
  | [] => []
  | x :: env => if bool_decide (m_name x = m_name m) then m :: env else x :: replace_macro env m
  end.
(** [ARRAY_REMOVE] of the first macro of that name. *)
Fixpoint remove_macro (env : list Macro) (name : list Z) : list Macro :=
  match env with
  | [] => []
  | x :: env => if bool_decide (m_name x = name) then env else x :: remove_macro env name
  end.

(** Enter the macro, or redefine the one of that name. *)
Definition define_macro (m : Macro) (macro_name_range : SourceRange) : pp bool :=
  p ← get;
  match look_up_macro (macro_env p) (Some (m_name m)) with
  | Some macro =>
      if negb (Nat.eqb (length (arg_names macro)) (length (arg_names m))) then
        error macro_name_range "Redefined macro has different number of arguments";; mret false
      else put (set_env p (replace_macro (macro_env p) m));; mret true
  | None => put (set_env p (macro_env p ++ [m]));; mret true
  end.

Definition pp_define : pp bool :=
  skip_whitespace_and_comments false;;
  r ← the_reader;
  let macro_name_loc := reader_source_loc r in
  macro_name ← on_reader read_symbol;
  match macro_name with
  | None => error (point_range macro_name_loc) "Expected identifier after #define";; mret false
  | Some macro_name =>
      r ← the_reader;
      let macro_name_range := range_from r macro_name_loc in
      bracket ← on_reader (expect_char 40);
      params ← (if (bracket : bool) then loop_st (S (length (buffer r))) param_body []
                else mret (Some ([], false)));
      match params with
      | None => mret false
      | Some (arg_names, variadic) =>
          skip_whitespace_and_comments false;;
          r ← the_reader;
          chars ← on_reader (loop_st (S (length (buffer r))) value_body []);
          define_macro (mkMacro macro_name (Some (cstr chars)) arg_names variadic) macro_name_range
      end
  end.

Definition pp_undef (directive_range : SourceRange) : pp bool :=
  skip_whitespace_and_comments false;;
  macro_name ← on_reader read_symbol;
  match macro_name with
  | None => error directive_range "Expected identifier after #undef";; mret false
  | Some macro_name =>
      modify (fun p => set_env p (remove_macro (macro_env p) macro_name));;
      skip_whitespace_and_comments false;;
      mret true
  end.

(** [while (peek_char(reader) != '\n') advance(reader)] *)
Definition error_body (_ : unit) : st Reader (unit + unit) :=
  c ← peek; if c =? 10 then mret (inr tt) else advance;; mret (inl tt).

Definition pp_error : pp bool :=
  on_reader advance;;
  r ← the_reader;
  let error_message_start := reader_source_loc r in
  let start := position r in
  on_reader (loop_st (S (length (buffer r))) error_body tt);;
  r ← the_reader;
  msg ← lift (strndup (buffer r) start (u32 (position r - start)));
  error (mkRange error_message_start (reader_source_loc r)) (string_of msg);;
  mret false.

(** The directives of an included group. *)
Definition active_directive (directive : list Z) (directive_range : SourceRange) : pp bool :=
  let named name := lift (names directive name) in
  b ← named "include"%string; if (b : bool) then pp_include else
  b ← named "define"%string; if (b : bool) then pp_define else
  b ← named "undef"%string; if (b : bool) then pp_undef directive_range else
  b ← named "line"%string; if (b : bool) then lift UNIMPLEMENTED else
  b ← named "error"%string; if (b : bool) then pp_error else
  b ← named "pragma"%string; if (b : bool) then lift UNIMPLEMENTED else
  error directive_range "Invalid preprocessor directive";; mret false.

(** The directive itself; conditionals count even where text is ignored. *)
Definition directive_named (directive : list Z) (directive_range : SourceRange) : pp bool :=
  let named name := lift (names directive name) in
  b ← named "if"%string; if (b : bool) then pp_if else
  b ← named "ifdef"%string; if (b : bool) then pp_ifdef true directive_range else
  b ← named "ifndef"%string; if (b : bool) then pp_ifdef false directive_range else
  b ← named "elif"%string; if (b : bool) then pp_elif directive_range else
  b ← named "else"%string; if (b : bool) then pp_else directive_range else
  b ← named "endif"%string; if (b : bool) then pp_endif directive_range else
  p ← get;
  if ignoring_chars p then mret true else active_directive directive directive_range.

(** The rest of the line must be empty; the newline is skipped. *)
Definition finish_directive : pp bool :=
  skip_whitespace_and_comments false;;
  p ← get;
  let r := pp_reader p in
  if negb (ignoring_chars p) && negb (at_end r) && negb (peek_char r =? 10) then
    error (point_range (reader_source_loc r)) "Extraneous text after preprocessing directive";; mret false
  else
    on_reader advance;;
    add_adjustment NORMAL_ADJUSTMENT;;
    mret true.

Definition handle_pp_directive : pp bool :=
  skip_whitespace_and_comments false;;
  empty ← on_reader (expect_char 10);
  if (empty : bool) then mret true
  else
    r ← the_reader;
    let directive_start := reader_source_loc r in
    directive ← on_reader read_symbol;
    match directive with
    | None => error (point_range directive_start) "Expected preprocessor directive";; mret false
    | Some directive =>
        r ← the_reader;
        okay ← directive_named directive (range_from r directive_start);
        if (okay : bool) then finish_directive else mret false
    end.

(** ** Function-like macros *)

Definition bracket_depth (depth c : Z) : Z :=
  if c =? 40 then u32 (depth + 1) else if c =? 41 then u32 (depth - 1) else depth.
(** Inside brackets: the depth and the characters so far. *)
Definition bracket_body (s : Z * list Z) : st Reader (Z * list Z + list Z) :=
  let '(depth, chars) := s in
  r ← get;
  if (depth =? 0) || at_end r then mret (inr chars)
  else c ← read_char; mret (inl (bracket_depth depth c, chars ++ [u8 c])).

(** The span of the arguments, up to the bracket that closes it. *)
Definition span_body (start_loc : SourceLoc) (chars : list Z) : st Reader (list Z + option (list Z)) :=
  r ← get;
  if at_end r then
    emit_error (point_range start_loc) "Unterminated function-like macro invocation";; mret (inr None)
  else
    c ← read_char;
    if c =? 40 then
      l ← loop_st (S (length (buffer r))) bracket_body (1, [c]);
      mret (inl (chars ++ l))
    else if (c =? 34) || (c =? 39) then
      o ← append_string_or_char_literal c;
      mret match o with Some l => inl (chars ++ l) | None => inr None end
    else if c =? 41 then mret (inr (Some chars))
    else mret (inl (chars ++ [u8 c])).

(** A computation on the reader of the arguments. *)
Definition on_args {A} (args_reader : Reader) (m : st Reader A) : pp (A * Reader) :=
  r ← the_reader;
  '(a, args_reader) ← lift (m (set_stderr args_reader (stderr r)));
  on_reader (modify (fun r => set_stderr r (stderr args_reader)));;
  mret (a, args_reader).

(** One turn of the loop that divides the span: the reader, the start of the
    current argument and the expanded arguments before it. *)
Definition args_body (s : Reader * Z * list (option (list Z)))
  : pp (Reader * Z * list (option (list Z)) + option (list (option (list Z)))) :=
  let '(args_reader, curr_arg_start, arg_values) := s in
  '(_, args_reader) ← on_args args_reader (skip_whitespace_and_comments_from_reader false);
  '(c, args_reader) ← on_args args_reader read_char;
  if c =? 40 then
    '(_, args_reader) ← on_args args_reader (loop_st (S (length (buffer args_reader))) bracket_body (1, []));
    mret (inl (args_reader, curr_arg_start, arg_values))
  else if (c =? 39) || (c =? 34) then
    '(o, args_reader) ← on_args args_reader (append_string_or_char_literal c);
    mret match o with Some _ => inl (args_reader, curr_arg_start, arg_values) | None => inr None end
  else if (c =? EOF) || (c =? 44) then
    let curr_arg_end := u32 (position args_reader - 1) in
    arg_values ←
      (if curr_arg_end =? curr_arg_start then mret arg_values
       else
         arg_value ← lift (strndup (buffer args_reader) curr_arg_start (u32 (curr_arg_end - curr_arg_start)));
         expanded ← macroexpand (Some arg_value);
         mret (arg_values ++ [expanded]));
    if c =? EOF then mret (inr (Some arg_values))
    else
      '(_, args_reader) ← on_args args_reader (skip_whitespace_and_comments_from_reader false);
      mret (inl (args_reader, position args_reader, arg_values))
  else mret (inl (args_reader, curr_arg_start, arg_values)).

(** The arguments beyond the named ones, with commas between them. *)
Fixpoint va_args_value (args : list (option (list Z))) : res (list Z) :=
  match args with
  | [] => Ok []
  | [a] => of_opt a
  | a :: args => a ← of_opt a; l ← va_args_value args; Ok (a ++ 44 :: l)
  end.

Definition param_macro (name : list Z) (value : option (list Z)) : Macro := mkMacro name value [] false.

Definition substitute_macro_params (macro : Macro) : pp bool :=
  r ← the_reader;
  let start_loc := reader_source_loc r in
  o ← on_reader (loop_st (S (length (buffer r))) (span_body start_loc) []);
  match o with
  | None => mret false
  | Some macro_args_str =>
      o ← loop_st (S (S (length macro_args_str))) args_body
            (reader_init macro_args_str [] false (Some "??"%string), 0, []);
      match o with
      | None => mret false
      | Some arg_values =>
          let n := length (arg_names macro) in
          let given := length arg_values in
          if (negb (variadic macro) && negb (Nat.eqb given n)) || (variadic macro && Nat.ltb given n) then
            r ← the_reader;
            error (range_from r start_loc) "Wrong number of parameters to function-like macro";; mret false
          else
            let new_macro_params := zip_with param_macro (arg_names macro) arg_values in
            va_args ← (if Nat.ltb n given then
                         v ← lift (va_args_value (drop n arg_values));
                         mret [param_macro (Lex.bytes_of "__VA_ARGS__") (Some (cstr v))]
                       else mret []);
            modify (fun p => set_params p (new_macro_params ++ va_args));;
            mret true
      end
  end.

(** ** The main loop *)

Definition skip_to_directive_body (_ : unit) : st Reader (unit + unit) :=
  r ← get;
  if at_end r then mret (inr tt)
  else
    let c := peek_char r in
    if (c =? 32) || (c =? 9) then
      advance;; modify (fun r' => set_at_start r' (at_start_of_line r));; mret (inl tt)
    else if (c =? 35) && at_start_of_line r then mret (inr tt)
    else advance;; mret (inl tt).
Definition skip_to_next_directive : st Reader unit :=
  r ← get; loop_st (S (length (buffer r))) skip_to_directive_body tt.

(** Blanks at the end of a text, taken off by [##]. *)
Fixpoint drop_blanks (l : list Z) : list Z :=
  match l with 32 :: l => drop_blanks l | _ => l end.
Definition strip_blanks (l : list Z) : list Z := rev (drop_blanks (rev l)).

(** [##]: the output loses its trailing blanks, the input its leading ones. *)
Definition paste (start_loc : SourceLoc) : pp bool :=
  p ← get;
  if macro_depth p =? 0 then
    error (range_from (pp_reader p) start_loc) "The '##' operator is only allowed in a macro definition";; mret false
  else
    (if out_freed p then lift (Stop Undef) else put (set_out p (strip_blanks (out_chars p)) false));;
    skip_whitespace_and_comments false;;
    mret true.

Fixpoint escape_quotes (l : list Z) : list Z :=
  match l with [] => [] | c :: l => (if c =? 34 then [92; c] else [c]) ++ escape_quotes l end.

(** [#] before a parameter: the argument as a string literal. *)
Definition stringify : pp bool :=
  skip_whitespace_and_comments false;;
  r ← the_reader;
  let expected_arg_name_loc := reader_source_loc r in
  arg_name ← on_reader read_symbol;
  match arg_name with
  | None => error (point_range expected_arg_name_loc) "Expected identifier after '#' operator";; mret false
  | Some _ =>
      p ← get;
      match look_up_macro (curr_macro_params p) arg_name with
      | None => error (point_range expected_arg_name_loc) "Argument to '#' does not name a macro parameter";; mret false
      | Some macro =>
          value ← lift (of_opt (m_value macro));
          append_out ([34] ++ escape_quotes value ++ [34]);;
          mret true
      end
  end.

Definition ident_rest_body (_ : unit) : st Reader (unit + unit) :=
  c ← peek; if ident_char c then read_char;; mret (inl tt) else mret (inr tt).

(** A symbol: a parameter, a macro, or itself. *)
Definition expand_symbol (start_loc : SourceLoc) (symbol : list Z) : pp bool :=
  p ← get;
  let macro := match look_up_macro (curr_macro_params p) (Some symbol) with
               | Some m => Some m
               | None => look_up_macro (macro_env p) (Some symbol)
               end in
  match macro with
  | None => append_out symbol;; mret true
  | Some macro =>
      let old_params := curr_macro_params p in
      if Nat.eqb (length (arg_names macro)) 0 && negb (variadic macro) then
        modify (fun p => set_params p []);;
        add_adjustment_to BEGIN_MACRO_ADJUSTMENT start_loc;;
        okay ← preprocess_string (m_value macro);
        if (okay : bool) then
          modify (fun p => set_params p old_params);;
          add_adjustment END_MACRO_ADJUSTMENT;;
          mret true
        else mret false
      else
        skip_whitespace_and_comments true;;
        bracket ← on_reader (expect_char 40);
        if negb bracket then append_out symbol;; mret true
        else
          add_adjustment_to BEGIN_MACRO_ADJUSTMENT start_loc;;
          okay ← substitute_macro_params macro;
          if negb okay then mret false
          else
            okay ← preprocess_string (m_value macro);
            if negb okay then mret false
            else
              modify (fun p => set_params p old_params);;
              r ← the_reader;
              let next_char := peek_char r in
              (if negb (next_char =? 32) && negb (next_char =? 10) && negb (next_char =? EOF)
               then append_out [32] else mret tt);;
              add_adjustment END_MACRO_ADJUSTMENT;;
              mret true
  end.

(** An identifier whose first character has been read. *)
Definition expand_ident (start_loc : SourceLoc) : pp bool :=
  r ← the_reader;
  let symbol_start := u32 (position r - 1) in
  on_reader (loop_st (S (length (buffer r))) ident_rest_body tt);;
  r ← the_reader;
  symbol ← lift (slice (buffer r) symbol_start (u32 (position r - symbol_start)));
  expand_symbol start_loc symbol.

(** Skip what is ignored before the next token, leaving a blank for it. *)
Definition skip_before_token : pp bool :=
  p ← get;
  okay ←
    (if ignoring_chars p then
       on_reader skip_to_next_directive;;
       r ← the_reader;
       if at_end r then
         error (point_range (mkLoc (Some "<unknown>"%string) 0)) "Unterminated preprocessor conditional";; mret false
       else mret true
     else skip_whitespace_and_comments true;; mret true);
  if negb okay then mret false
  else
    q ← get;
    let consumed := u32 (position (pp_reader q) - position (pp_reader p)) in
    let produced := u32 (Z.of_nat (length (out_chars q)) - Z.of_nat (length (out_chars p))) in
    if produced <? consumed then
      (if Nat.eqb (length (out_chars q)) (length (out_chars p)) then append_out [32] else mret tt);;
      add_adjustment NORMAL_ADJUSTMENT;;
      mret true
    else mret true.

(** The token at the cursor. *)
Definition next_token : pp bool :=
  r ← the_reader;
  let start_loc := reader_source_loc r in
  let start_of_line := at_start_of_line r in
  c ← on_reader read_char;
  if (c =? 39) || (c =? 34) then
    o ← on_reader (append_string_or_char_literal c);
    match o with Some l => append_out l;; mret true | None => mret false end
  else if c =? 35 then
    second ← on_reader (expect_char 35);
    if (second : bool) then paste start_loc
    else if start_of_line : bool then handle_pp_directive
    else
      p ← get;
      if macro_depth p =? 0 then
        error (point_range start_loc) "Unexpected preprocessor directive (not at start of line)";; mret false
      else stringify
  else if c =? EOF then mret true
  else if initial_ident_char c then expand_ident start_loc
  else append_out [u8 c];; mret true.

(** One turn of [while (!at_end(reader))]. *)
Definition aux_body (_ : unit) : pp (unit + bool) :=
  r ← the_reader;
  if at_end r then mret (inr true)
  else
    okay ← skip_before_token;
    if negb okay then mret (inr false)
    else
      okay ← next_token;
      mret (if (okay : bool) then inl tt else inr false).

End Preprocess.

(** [fuel] is for the nesting of files and expansions. *)
Fixpoint preprocess_aux (map_file : string -> option (list Z)) (file_exists : string -> bool)
    (parse_expr : list Lex.SourceToken -> option ASTExpr) (include_dirs : list string) (fuel : nat) : pp bool :=
  match fuel with
  | O => lift (Stop NoFuel)
  | S fuel =>
      r ← the_reader;
      loop_st (S (length (buffer r)))
        (aux_body map_file file_exists parse_expr include_dirs
           (preprocess_aux map_file file_exists parse_expr include_dirs fuel)) tt
  end.

Definition predefined (name value : string) : Macro :=
  mkMacro (Lex.bytes_of name) (Some (Lex.bytes_of value)) [] false.

Definition initial_pp : PP :=
  mkPP (reader_init [] [] false None) [] false [] 0 []
    [predefined "__STDC__" "1"; predefined "__STDC_VERSION__" "199901L"] [].

(** The text, its adjustments and the log of errors. *)
Definition preprocess (map_file : string -> option (list Z)) (file_exists : string -> bool)
    (parse_expr : list Lex.SourceToken -> option ASTExpr) (include_dirs : list string)
    (fuel : nat) (input_filename : string)
  : res (bool * list Z * list Adjustment * list (SourceRange * string)) :=
  '(ret, p) ← preprocess_file map_file (preprocess_aux map_file file_exists parse_expr include_dirs fuel)
                input_filename (point_range (mkLoc None 0)) initial_pp;
  Ok (ret, out_chars p, out_adjustments p, stderr (pp_reader p)).
