(* ===== verification/PreprocessSpec.v ===== *)
(** * What the preprocessor computes

    A reference semantics of preprocessing by rules on texts ([run]): white space
    and comments ([white]), literals, macros with and without parameters,
    [#define], [#undef], [#include] and nested conditionals; before it, lemmas on
    the operations of the preprocessor in front of a known text. *)

From S2P Require Import Prelude Reader Ast Preprocess.
From S2P Require LibC Strings Lex.

Local Open Scope Z_scope.

(** ** The reader on texts without line splices *)

(** No backslash is followed by a newline. *)
Fixpoint spliceless (l : list Z) : bool :=
  match l with
  | [] => true
  | c :: l => negb ((c =? 92) && (match l with d :: _ => d =? 10 | [] => false end)) && spliceless l
  end.

(** The reader stands between [pre] and [suf], at the start of a line or not. *)
Record cursor (r : Reader) (pre suf : list Z) (sol : bool) : Prop := {
  cur_at : at_ r pre suf;
  cur_spliceless : spliceless suf = true;
  cur_sol : at_start_of_line r = sol
}.

Lemma spliceless_no_splice l : spliceless l = true -> no_splice l.
Proof. intros H l' ->. by cbn in H. Qed.
Lemma spliceless_tail c l : spliceless (c :: l) = true -> spliceless l = true.
Proof. cbn. intros H. by bsplit. Qed.
Lemma spliceless_app a b : spliceless (a ++ b) = true -> spliceless b = true.
Proof. induction a as [|c a IH]; [done |]. intros H%spliceless_tail. by apply IH. Qed.

Lemma advance_sol r r' : advance_reader r = Ok r' -> at_start_of_line r' = (peek_char r =? 10).
Proof.
  unfold advance_reader. intros H. apply res_bind_Ok in H as (r1 & E & H). injection H as <-.
  transitivity (at_start_of_line r1); [unfold adjust; by repeat case_match |].
  revert E. generalize (S (length (buffer (set_at_start r (peek_char r =? 10))))). intros n.
  remember (set_at_start r (peek_char r =? 10)) as r0 eqn:E0.
  assert (H0 : at_start_of_line r0 = (peek_char r =? 10)) by (by rewrite E0). rewrite <- H0. clear E0 H0.
  revert r0. induction n as [|n IH]; intros r0; [done |]. cbn. unfold advance_body.
  intros E. repeat case_match; simplify_eq; try done. by rewrite (IH _ E).
Qed.

Section Cursor.
Context {r : Reader} {pre : list Z} {sol : bool}.

Lemma cur_end : cursor r pre [] sol -> at_end r = true.
Proof. intros []. by eapply at_end_nil. Qed.
Lemma cur_peek_end : cursor r pre [] sol -> peek_char r = -1.
Proof. intros []. by eapply peek_nil. Qed.

Context {c : Z} {suf : list Z} (H : cursor r pre (c :: suf) sol).

Lemma cur_byte : is_u 8 c.
Proof. destruct H. by eapply at_head_byte. Qed.
Lemma cur_not_end : at_end r = false.
Proof. destruct H. by eapply at_end_cons. Qed.
Lemma cur_peek : peek_char r = i8 c.
Proof. destruct H. by eapply peek_cons. Qed.
Lemma cur_peek_eqb d : 0 <= d < 128 -> (peek_char r =? d) = (c =? d).
Proof. intros Hd. rewrite cur_peek. apply i8_eqb_ascii; [apply cur_byte | done]. Qed.

Lemma cur_advance : exists r', advance r = Ok (tt, r') /\ cursor r' (pre ++ [c]) suf (c =? 10) /\ same_text r r'.
Proof.
  pose proof cur_peek_eqb 10 as Hp. destruct H as [Hat Hs _].
  destruct (advance_plain r pre c suf Hat) as (r' & E & Hat' & Hst); [by eapply spliceless_no_splice, spliceless_tail |].
  exists r'. split; [unfold advance; by rewrite E |]. split; [| done].
  constructor; [done | by eapply spliceless_tail | rewrite (advance_sol _ _ E); apply Hp; lia].
Qed.

Lemma cur_read_char : exists r', read_char r = Ok (i8 c, r') /\ cursor r' (pre ++ [c]) suf (c =? 10) /\ same_text r r'.
Proof.
  destruct cur_advance as (r' & E & H'). exists r'. split; [| done].
  unfold read_char, peek, mbind, st_bind. by rewrite E, cur_peek.
Qed.

Lemma cur_expect d : 0 <= d < 128 -> exists r', expect_char d r = Ok (c =? d, r') /\ same_text r r' /\
  (if c =? d then cursor r' (pre ++ [c]) suf (c =? 10) else r' = r).
Proof.
  intros Hd. unfold expect_char, peek, mbind, st_bind. rewrite cur_peek_eqb by done.
  destruct (c =? d); [| by exists r].
  destruct cur_advance as (r' & E & H' & Hst). exists r'. by rewrite E.
Qed.

End Cursor.

Lemma cur_back_up {r pre c suf sol} b : cursor r (pre ++ [c]) suf sol -> spliceless (c :: suf) = true ->
  cursor (set_at_start (back_up r) b) pre (c :: suf) b.
Proof.
  intros [Hat _ _] Hs. constructor; [| done | done].
  apply back_up_at in Hat. destruct Hat. by constructor.
Qed.
Lemma cur_set_sol {r pre suf sol} b : cursor r pre suf sol -> cursor (set_at_start r b) pre suf b.
Proof. intros [[] Hs _]. by constructor. Qed.
Lemma cur_back_up' {r pre c suf sol} : cursor r (pre ++ [c]) suf sol -> spliceless (c :: suf) = true ->
  exists sol', cursor (back_up r) pre (c :: suf) sol'.
Proof. intros [Hat _ _] Hs. eexists. constructor; [by apply back_up_at in Hat | done | done]. Qed.

(** Reading at the end of the text. *)
Lemma end_advance r : at_end r = true -> Z.of_nat (length (buffer r)) < 2 ^ 31 -> position r < 2 ^ 31 ->
  exists r', advance r = Ok (tt, r') /\ at_end r' = true /\ same_text r r' /\ position r' = position r + 1.
Proof.
  intros He Hb Hp. unfold at_end in He. bsplit. unfold advance, advance_reader. cbn [loop buffer set_at_start].
  unfold advance_body. cbn [position set_at_start].
  assert (E : u32 (position r + 1) = position r + 1) by (apply wrap_small; lia).
  rewrite E. unfold at_end at 1. cbn [buffer set_position set_at_start position].
  destruct (Z.leb_spec (Z.of_nat (length (buffer r))) (position r + 1)); [| lia]. cbn [mbind res_bind].
  eexists. split; [done |]. set (r1 := set_position _ _).
  match goal with |- context [adjust r1 ?d] => destruct (adjust_same r1 d) as (E1 & E2 & E3) end.
  split; [unfold at_end; rewrite E1, E2; cbn; by zcases |]. split; [by rewrite <- E3 | by rewrite E2].
Qed.
Lemma end_peek r : at_end r = true -> peek_char r = -1.
Proof. unfold peek_char. by intros ->. Qed.
Lemma end_read_char r : at_end r = true -> Z.of_nat (length (buffer r)) < 2 ^ 31 -> position r < 2 ^ 31 ->
  exists r', read_char r = Ok (-1, r') /\ at_end r' = true /\ same_text r r' /\ position r' = position r + 1.
Proof.
  intros He Hb Hp. destruct (end_advance r He Hb Hp) as (r' & E & H'). exists r'. split; [| done].
  unfold read_char, peek, mbind, st_bind. by rewrite E, (end_peek _ He).
Qed.

Lemma cur_len {r pre suf sol} : cursor r pre suf sol ->
  position r = Z.of_nat (length (buffer r)) - Z.of_nat (length suf) /\ Z.of_nat (length (buffer r)) < 2 ^ 31 /\
  buffer r = pre ++ suf /\ position r = Z.of_nat (length pre).
Proof. intros [[E P L _] _ _]. rewrite P, E, length_app in *. split; [lia | done]. Qed.

(** ** Names of directives *)

Lemma ident_char_bound c : ident_char c = true -> 0 < c < 128.
Proof. unfold ident_char, initial_ident_char. intros H. repeat (apply orb_true_iff in H as [H|H]); bsplit; lia. Qed.

(** One comparison of [strncmp] inside two names. *)
Lemma cmp_char_at s1 c s2 t2 : ident_char c = true -> Forall (fun c => ident_char c = true) t2 ->
  Z.of_nat (length s1) < 2 ^ 32 ->
  LibC.cmp_char (s1 ++ c :: s2) ((s1 ++ t2) ++ [0]) (Z.of_nat (length s1)) =
  match t2 with
  | d :: _ => if c =? d then Ok (inl (Z.of_nat (length (s1 ++ [c])))) else if c <? d then Ok (inr (-1)) else Ok (inr 1)
  | [] => Ok (inr 1)
  end.
Proof.
  intros Hc Ht Hl. pose proof (ident_char_bound c Hc). unfold LibC.cmp_char, ref. zcases. rewrite Nat2Z.id.
  rewrite (list_lookup_middle s1 s2 c) by done. rewrite <- app_assoc. rewrite lookup_app_r by done. rewrite Nat.sub_diag.
  cbn [of_opt mbind res_bind]. destruct t2 as [|d t2]; cbn [lookup list_lookup app of_opt mbind res_bind].
  - rewrite i8_ascii by lia. change (i8 0) with 0. zcases. done.
  - apply Forall_cons in Ht as [Hd _]. pose proof (ident_char_bound d Hd). rewrite !i8_ascii by lia.
    destruct (Z.eqb_spec c d), (Z.ltb_spec c d), (Z.ltb_spec d c); try lia; try done.
    destruct (Z.eqb_spec c 0); [lia |]. rewrite wrap_small by lia. rewrite length_app. cbn. do 2 f_equal. lia.
Qed.

Lemma strneq_prefix s t : Forall (fun c => ident_char c = true) s -> Forall (fun c => ident_char c = true) t ->
  Z.of_nat (length s) < 2 ^ 32 ->
  Strings.strneq s (t ++ [0]) (Z.of_nat (length s)) = Ok (bool_decide (s `prefix_of` t)).
Proof.
  intros Hs Ht Hl. unfold Strings.strneq, LibC.strncmp.
  enough (G : forall s2 s1 t2 fuel, s = s1 ++ s2 -> t = s1 ++ t2 -> (length s2 < fuel)%nat ->
    (r ← loop fuel (fun i => if i <? Z.of_nat (length s) then LibC.cmp_char s (t ++ [0]) i else Ok (inr 0)) (Z.of_nat (length s1));
     Ok (r =? 0)) = Ok (bool_decide (s2 `prefix_of` t2))).
  { by apply (G s [] t); [| | lia]. }
  induction s2 as [|c s2 IH]; intros s1 t2 [|fuel] Es Et Hf; cbn in Hf; try lia.
  - cbn [loop]. rewrite Es, app_nil_r at 1. zcases. rewrite bool_decide_eq_true_2; [done | apply prefix_nil].
  - cbn [loop]. assert (L : Z.of_nat (length s1) < Z.of_nat (length s)) by (rewrite Es, length_app; cbn; lia).
    destruct (Z.ltb_spec (Z.of_nat (length s1)) (Z.of_nat (length s))); [| lia].
    assert (Hc := Hs). rewrite Es in Hc. apply Forall_app in Hc as [_ Hc]. apply Forall_cons in Hc as [Hc _].
    assert (Ht2 := Ht). rewrite Et in Ht2. apply Forall_app in Ht2 as [_ Ht2].
    pose proof (cmp_char_at s1 c s2 t2 Hc Ht2 ltac:(lia)) as Ec. rewrite <- Es, <- Et in Ec. rewrite Ec. destruct t2 as [|d t2].
    + cbn. by rewrite bool_decide_eq_false_2 by (intros [k [=]]).
    + destruct (Z.eqb_spec c d) as [<-|Hd].
      * rewrite (IH (s1 ++ [c]) t2); [| by rewrite <- app_assoc | by rewrite <- app_assoc | lia].
        f_equal. apply bool_decide_ext. split; [intros [k ->]; by exists k | intros [k [= ->]]; by exists k].
      * destruct (c <? d); cbn; by rewrite bool_decide_eq_false_2 by (intros [k [=]]; lia).
Qed.

(** ** White space *)

(** The inside of a block comment: it is not closed early. *)
Inductive comment_text : list Z -> Prop :=
| comment_nil : comment_text []
| comment_other c b : c <> 42 -> comment_text b -> comment_text (c :: b)
| comment_star b : head b <> Some 47 -> comment_text b -> comment_text (42 :: b).

(** [white nl l w n]: in front of [l], [w] is white space that contains the
    newlines [n] outside of comments; none unless [nl]. *)
Inductive white (nl : bool) (l : list Z) : list Z -> list Z -> Prop :=
| white_nil : white nl l [] []
| white_blank c w n : c = 32 \/ c = 9 -> white nl l w n -> white nl l (c :: w) n
| white_newline w n : nl = true -> white nl l w n -> white nl l (10 :: w) (10 :: n)
| white_line s w n : Forall (fun c => c <> 10) s -> (head (w ++ l) = Some 10 \/ w ++ l = []) -> white nl l w n ->
    white nl l (47 :: 47 :: s ++ w) n
| white_block b w n : comment_text b -> w ++ l <> [] -> white nl l w n ->
    white nl l (47 :: 42 :: b ++ 42 :: 47 :: w) n.

(** What white space does not go on with. *)
Definition stops (nl : bool) (l : list Z) : Prop :=
  match l with
  | [] => True
  | c :: l => c <> 32 /\ c <> 9 /\ (c = 10 -> nl = false) /\ (c = 47 -> head l <> Some 47 /\ head l <> Some 42)
  end.

Lemma run_bind {S A B} {m : st S A} {f : A -> st S B} {s a s1 x} :
  m s = Ok (a, s1) -> f a s1 = x -> (m ≫= f) s = x.
Proof. intros E <-. by apply st_bind_run. Qed.

Ltac reads H := 
  match type of H with
  | exists r, _ /\ _ /\ _ =>
      let r := fresh "r" in let E := fresh "E" in let C := fresh "C" in let T := fresh "T" in
      destruct H as (r & E & C & T)
  end.

Lemma line_comment_loop s : forall r pre l sol fuel, cursor r pre (s ++ l) sol -> Forall (fun c => c <> 10) s ->
  (head l = Some 10 \/ l = []) -> (length s < fuel)%nat ->
  exists r', loop_st fuel line_comment_body tt r = Ok (tt, r') /\ (exists sol', cursor r' (pre ++ s) l sol') /\ same_text r r'.
Proof.
  induction s as [|c s IH]; intros r pre l sol [|fuel] C Hs Hl Hf; cbn in Hf; try lia.
  - exists r. rewrite app_nil_r. split; [| split; [by exists sol | done]]. apply loop_st_done.
    unfold line_comment_body, mbind, st_bind, get. cbn in C. destruct Hl as [Hl| ->].
    + destruct l as [|d l]; [done |]. injection Hl as ->. by rewrite (cur_peek_eqb C) by lia.
    + rewrite (cur_end C). by rewrite andb_false_r.
  - apply Forall_cons in Hs as [Hc Hs]. cbn [app] in C. pose proof (cur_advance C) as A. reads A.
    destruct (IH _ _ _ _ fuel C0 Hs Hl ltac:(lia)) as (r' & E' & (sol' & C') & T').
    exists r'. rewrite <- app_assoc in C'. split; [| split; [by exists sol' | by transitivity r0]].
    rewrite <- E'. apply loop_st_next. unfold line_comment_body, mbind, st_bind, get.
    rewrite (cur_not_end C), (cur_peek_eqb C) by lia. destruct (Z.eqb_spec c 10); [done |]. cbn [negb andb]. by rewrite E.
Qed.

Lemma block_comment_loop b : forall r pre l sol fuel, cursor r pre (b ++ 42 :: 47 :: l) sol -> comment_text b ->
  (length b < fuel)%nat ->
  exists r', loop_st fuel block_comment_body tt r = Ok (tt, r') /\ cursor r' (pre ++ b ++ [42; 47]) l false /\ same_text r r'.
Proof.
  induction b as [|c b IH]; intros r pre l sol [|fuel] C Hb Hf; cbn in Hf; try lia; cbn [app] in C.
  - pose proof (cur_read_char C) as A. reads A. pose proof (cur_read_char C0) as A. reads A.
    exists r1. rewrite <- app_assoc in C1. split; [| split; [done | by transitivity r0]].
    apply loop_st_done. unfold block_comment_body. eapply run_bind; [done |]. rewrite (cur_not_end C).
    eapply run_bind; [done |]. change (i8 42 =? 42) with true. cbv iota. eapply run_bind; [done |]. done.
  - pose proof (cur_read_char C) as A. reads A.
    assert (Hb' : comment_text b) by (by inversion Hb).
    destruct (Z.eqb_spec c 42) as [->|Hc].
    + (* a star: the next character is read and put back *)
      assert (Hn : exists d l', b ++ 42 :: 47 :: l = d :: l' /\ d <> 47).
      { destruct b as [|d b]; [by exists 42, (47 :: l) |]. exists d, (b ++ 42 :: 47 :: l). split; [done |].
        inversion Hb; [done |]. intros ->. by apply H0. }
      destruct Hn as (d & l' & El & Hd). rewrite El in C0. pose proof (cur_read_char C0) as A. reads A.
      destruct (cur_back_up' C1 (cur_spliceless _ _ _ _ C0)) as (sol' & C2). rewrite <- El in C2.
      destruct (IH _ _ _ _ fuel C2 Hb' ltac:(lia)) as (r' & E' & C' & T').
      exists r'. rewrite <- app_assoc in C'. split; [| split; [done |]].
      * rewrite <- E'. apply loop_st_next. unfold block_comment_body. eapply run_bind; [done |]. rewrite (cur_not_end C).
        eapply run_bind; [done |]. change (i8 42 =? 42) with true. cbv iota. eapply run_bind; [done |].
        rewrite (i8_eqb_ascii d 47 (cur_byte C0)) by lia. destruct (Z.eqb_spec d 47); [done |].
        by eapply run_bind.
      * transitivity r0; [done |]. transitivity r1; [done |]. transitivity (back_up r1); [apply back_up_same | done].
    + destruct (IH _ _ _ _ fuel C0 Hb' ltac:(lia)) as (r' & E' & C' & T').
      exists r'. rewrite <- app_assoc in C'. split; [| split; [done | by transitivity r0]].
      rewrite <- E'. apply loop_st_next. unfold block_comment_body. eapply run_bind; [done |]. rewrite (cur_not_end C).
      eapply run_bind; [done |]. rewrite (i8_eqb_ascii c 42 (cur_byte C)) by lia. by destruct (Z.eqb_spec c 42).
Qed.

(** The state of the white space loop after [w]: the flag, the newlines. *)
Definition after_white (initially : bool) (n : list Z) : bool := initially || negb (Nat.eqb (length n) 0).

Lemma skip_loop nl l w n : white nl l w n -> stops nl l ->
  forall r pre sol initially out fuel, cursor r pre (w ++ l) sol -> (length w < fuel)%nat ->
  exists r', loop_st fuel (skip_body nl) (initially, out) r = Ok (out ++ n, r') /\
    (exists sol', cursor r' (pre ++ w) l sol' /\ (l <> [] -> head l <> Some 10 -> sol' = after_white initially n)) /\ same_text r r'.
Proof.
  intros Hw Hl. induction Hw as [|c w n Hc Hw IH|w n Hnl Hw IH|s w n Hs Hh Hw IH|b w n Hb Hne Hw IH];
    intros r pre sol initially out [|fuel] C Hf; cbn [length] in Hf; try lia; cbn [app] in C.
  - rewrite !app_nil_r. destruct l as [|c l].
    + exists r. split; [| split; [by exists sol | done]]. apply loop_st_done. unfold skip_body, mbind, st_bind, get.
      by rewrite (cur_end C).
    + destruct Hl as (H1 & H2 & H3 & H4).
      assert (Hp : forall d, 0 <= d < 128 -> (peek_char r =? d) = (c =? d)) by (by apply (cur_peek_eqb C)).
      destruct (decide (c = 10)) as [->|N10].
      { exists r. split; [| split; [exists sol; split; [done | by intros _ []] | done]]. apply loop_st_done.
        unfold skip_body, mbind, st_bind, get. rewrite (cur_not_end C), Hp by lia. rewrite H3 by done. done. }
      destruct (decide (c = 47)) as [->|N47].
      * pose proof (cur_advance C) as A. reads A.
        exists (set_at_start (back_up r0) initially). split.
        -- apply loop_st_done. unfold skip_body. eapply run_bind; [done |]. rewrite (cur_not_end C), !Hp by lia.
           cbn [Z.eqb Pos.eqb orb]. cbv zeta iota. eapply run_bind; [done |]. eapply run_bind; [done |].
           destruct H4 as [H47 H42]; [done |].
           assert (Hq : forall d, d = 47 \/ d = 42 -> (peek_char r0 =? d) = false).
           { intros d Hd. destruct l as [|e l]; [rewrite (cur_peek_end C0); destruct Hd; by subst |].
             rewrite (cur_peek_eqb C0) by lia. destruct (Z.eqb_spec e d) as [->|]; [| done].
             destruct Hd; subst; done. }
           rewrite !Hq by tauto. by eapply run_bind; [done |]; eapply run_bind.
        -- split; [| transitivity r0; [done | apply (back_up_same r0)]]. exists initially. split; [| intros _ _].
           ++ apply (cur_back_up initially C0). by destruct C.
           ++ unfold after_white. by rewrite orb_false_r.
      * exists (set_at_start r initially). split; [| split; [exists initially; split; [by apply (cur_set_sol _ C) |] | done]].
        -- apply loop_st_done. unfold skip_body. eapply run_bind; [done |]. rewrite (cur_not_end C), !Hp by lia.
           destruct (Z.eqb_spec c 10), (Z.eqb_spec c 32), (Z.eqb_spec c 9), (Z.eqb_spec c 47); done.
        -- intros _ _. unfold after_white. by rewrite orb_false_r.
  - (* a blank *)
    pose proof (cur_advance C) as A. reads A.
    destruct (IH r0 _ _ initially out fuel C0 ltac:(lia)) as (r' & E' & (sol' & C' & S') & T').
    exists r'. rewrite <- app_assoc in C'. split; [| split; [by exists sol' | by transitivity r0]].
    rewrite <- E'. apply loop_st_next. unfold skip_body. eapply run_bind; [done |].
    rewrite (cur_not_end C), !(cur_peek_eqb C) by lia.
    destruct Hc; subst c; cbn [Z.eqb Pos.eqb orb]; cbv iota; by eapply run_bind.
  - (* a newline *)
    pose proof (cur_advance C) as A. reads A.
    destruct (IH r0 _ _ true (out ++ [10]) fuel C0 ltac:(lia)) as (r' & E' & (sol' & C' & S') & T').
    exists r'. rewrite <- app_assoc in C', E'. cbn [app] in E'. split; [| split; [exists sol'; split; [done |] | by transitivity r0]].
    + rewrite <- E'. apply loop_st_next. unfold skip_body. eapply run_bind; [done |].
      rewrite (cur_not_end C), !(cur_peek_eqb C) by lia. subst nl. cbn. by eapply run_bind.
    + intros G1 G2. rewrite (S' G1 G2). unfold after_white. cbn. by rewrite orb_true_r.
  - (* a line comment *)
    pose proof (cur_advance C) as A. reads A.
    rewrite <- app_assoc in C0. assert (C0' := C0). change (47 :: s ++ w ++ l) with ((47 :: s) ++ (w ++ l)) in C0'.
    destruct (line_comment_loop _ r0 _ (w ++ l) _ (S (length (buffer r0))) C0') as (r1 & E1 & (sol1 & C1) & T1);
      [by apply Forall_cons | done | |].
    { pose proof (cur_len C0') as (_ & _ & -> & _). rewrite !length_app. lia. }
    destruct (IH r1 _ _ initially out fuel C1) as (r' & E' & (sol' & C' & S') & T').
    { rewrite length_app in Hf. lia. }
    exists r'. replace (((pre ++ [47]) ++ 47 :: s) ++ w) with (pre ++ 47 :: 47 :: s ++ w) in C'
      by (by rewrite <- !app_assoc; cbn).
    split; [| split; [by exists sol' | transitivity r0; [done | by transitivity r1]]].
    rewrite <- E'. apply loop_st_next. unfold skip_body. eapply run_bind; [done |].
    rewrite (cur_not_end C), !(cur_peek_eqb C) by lia. cbn [Z.eqb Pos.eqb orb]. cbv zeta iota.
    eapply run_bind; [done |]. eapply run_bind; [done |]. rewrite (cur_peek_eqb C0) by lia. cbn [Z.eqb Pos.eqb].
    replace (length (buffer r)) with (length (buffer r0)) by (f_equal; apply T). eapply run_bind; [done |]. done.
  - (* a block comment *)
    pose proof (cur_advance C) as A. reads A. pose proof (cur_advance C0) as A. reads A.
    replace ((b ++ 42 :: 47 :: w) ++ l) with (b ++ 42 :: 47 :: (w ++ l)) in C1 by (by rewrite <- app_assoc; cbn).
    destruct (block_comment_loop _ r1 _ (w ++ l) _ (S (length (buffer r1))) C1 Hb) as (r2 & E2 & C2 & T2).
    { pose proof (cur_len C1) as (_ & _ & -> & _). rewrite !length_app. lia. }
    destruct (IH r2 _ _ initially out fuel C2) as (r' & E' & (sol' & C' & S') & T').
    { rewrite length_app in Hf. cbn in Hf. lia. }
    exists r'. replace ((((pre ++ [47]) ++ [42]) ++ b ++ [42; 47]) ++ w) with (pre ++ 47 :: 42 :: b ++ 42 :: 47 :: w) in C'
      by (by rewrite <- !app_assoc; cbn).
    split; [| split; [by exists sol' |]].
    2: { transitivity r0; [done |]. transitivity r1; [done |]. by transitivity r2. }
    rewrite <- E'. apply loop_st_next. unfold skip_body. eapply run_bind; [done |].
    rewrite (cur_not_end C), !(cur_peek_eqb C) by lia. cbn [Z.eqb Pos.eqb orb]. cbv zeta iota.
    eapply run_bind; [done |]. eapply run_bind; [done |]. rewrite !(cur_peek_eqb C0) by lia. cbn [Z.eqb Pos.eqb].
    eapply run_bind; [done |]. replace (length (buffer r)) with (length (buffer r1)) by (f_equal; transitivity (buffer r0); [apply T0 | apply T]).
    eapply run_bind; [done |]. eapply run_bind; [done |].
    destruct (w ++ l) as [|d m] eqn:Em; [done |]. rewrite (cur_not_end C2). by eapply run_bind.
Qed.

(** ** Operations of the preprocessor on a known text *)

(** The file, macros, parameters and conditionals of [p], and the text in front of it. *)
Record sees (p : PP) (fn : option string) (ms ps : list Macro) (st : list PPCondScope) (suf : list Z) (sol : bool) : Prop := {
  sees_cursor : exists pre s, cursor (pp_reader p) pre suf s /\ (suf <> [] -> s = sol);
  sees_file : reader_filename (pp_reader p) = fn;
  sees_env : macro_env p = ms;
  sees_params : curr_macro_params p = ps;
  sees_stack : pp_scope_stack p = st;
  sees_out : out_freed p = false
}.

(** From [p] to [p'], [out] is written and no error reported. *)
Record grows (p p' : PP) (out : list Z) : Prop := {
  grows_out : out_chars p' = out_chars p ++ out;
  grows_depth : macro_depth p' = macro_depth p;
  grows_log : stderr (pp_reader p') = stderr (pp_reader p)
}.

Lemma grows_refl p : grows p p [].
Proof. constructor; [by rewrite app_nil_r | done | done]. Qed.
Lemma grows_trans p q s a b c : grows p q a -> grows q s b -> c = a ++ b -> grows p s c.
Proof. intros [A1 A2 A3] [B1 B2 B3] ->. constructor; [by rewrite B1, A1, app_assoc | congruence | congruence]. Qed.

Lemma pp_reader_run {A} (m : st Reader A) p a r : m (pp_reader p) = Ok (a, r) ->
  on_reader m p = Ok (a, set_reader p r).
Proof. unfold on_reader, zoom. by intros ->. Qed.

Lemma sees_move {p fn ms ps st suf sol pre suf' sol' r} : sees p fn ms ps st suf sol -> cursor r pre suf' sol' ->
  same_text (pp_reader p) r -> sees (set_reader p r) fn ms ps st suf' sol'.
Proof. intros [] C T. constructor; try done; [by exists pre, sol' | cbn; destruct T; naive_solver]. Qed.
Lemma grows_reader p r : same_text (pp_reader p) r -> grows p (set_reader p r) [].
Proof. intros T. constructor; cbn; [by rewrite app_nil_r | done | apply T]. Qed.

Lemma append_out_run p l : out_freed p = false -> append_out l p = Ok (tt, set_out p (out_chars p ++ l) false).
Proof. intros E. unfold append_out, mbind, st_bind, get. by rewrite E. Qed.
Lemma sees_append {p fn ms ps st suf sol} l : sees p fn ms ps st suf sol -> sees (set_out p l false) fn ms ps st suf sol.
Proof. intros []. by constructor. Qed.
Lemma grows_append p l : grows p (set_out p (out_chars p ++ l) false) l.
Proof. by constructor. Qed.

Lemma sees_adjust {p fn ms ps st suf sol} a : sees p fn ms ps st suf sol -> sees (set_adjustments p a) fn ms ps st suf sol.
Proof. intros []. by constructor. Qed.
Lemma sees_depth {p fn ms ps st suf sol} d : sees p fn ms ps st suf sol -> sees (set_depth p d) fn ms ps st suf sol.
Proof. intros []. by constructor. Qed.

Lemma append_adjustment_run a q : exists l, append_adjustment a q = Ok (tt, set_adjustments q l).
Proof. by exists (out_adjustments q ++ [a]). Qed.
Lemma replace_adjustment_run a q : exists l, replace_last_adjustment a q = Ok (tt, set_adjustments q l).
Proof. by exists (removelast (out_adjustments q) ++ [a]). Qed.

Lemma put_adjustment_run type location loc q : exists l,
  put_adjustment type location loc q = Ok (tt, set_adjustments q l).
Proof.
  unfold put_adjustment. rewrite (st_bind_run get _ q q q) by done.
  repeat case_match; try (exists (out_adjustments q); by destruct q).
  all: apply append_adjustment_run || apply replace_adjustment_run.
Qed.

(** Adjustments only change the adjustments and the depth. *)
Lemma adjustment_to_run type loc p :
  let d := match type with
           | BEGIN_MACRO_ADJUSTMENT => u32 (macro_depth p + 1)
           | END_MACRO_ADJUSTMENT => u32 (macro_depth p - 1)
           | NORMAL_ADJUSTMENT => macro_depth p
           end in
  (type = END_MACRO_ADJUSTMENT -> macro_depth p <> 0) ->
  exists a, add_adjustment_to type loc p = Ok (tt, set_depth (set_adjustments p a) d).
Proof.
  intros d Hd. unfold add_adjustment_to. rewrite (st_bind_run get _ p p p) by done. subst d.
  set (location := u32 _). set (put := put_adjustment type location loc).
  assert (Hput : forall (nested : bool) d, exists a,
    (if nested then mret tt else put) (set_depth p d) = Ok (tt, set_depth (set_adjustments p a) d)).
  { intros [] d; [exists (out_adjustments p); by destruct p |].
    destruct (put_adjustment_run type location loc (set_depth p d)) as [a E]. by exists a. }
  destruct type; cbv zeta.
  - destruct (Hput false (macro_depth p)) as [a E]. exists a. rewrite <- E.
    rewrite (st_bind_run _ _ p false p) by done. by destruct p.
  - set (d := u32 (macro_depth p + 1)). destruct (Hput (negb (d =? 1)) d) as [a E]. exists a. by rewrite <- E.
  - set (d := u32 (macro_depth p - 1)). destruct (Hput (negb (d =? 0)) d) as [a E]. exists a. rewrite <- E.
    apply (st_bind_run _ (fun nested : bool => if nested then mret tt else put)). unfold mbind, st_bind, lift, ASSERT.
    destruct (Z.eqb_spec (macro_depth p) 0); [by destruct Hd | done].
Qed.

Lemma adjustment_run p : exists a, add_adjustment NORMAL_ADJUSTMENT p = Ok (tt, set_adjustments p a).
Proof.
  unfold add_adjustment. rewrite (st_bind_run the_reader _ p (pp_reader p) p) by done.
  destruct (adjustment_to_run NORMAL_ADJUSTMENT (reader_source_loc (pp_reader p)) p) as [a ->]; [done |].
  exists a. by destruct p.
Qed.

(** White space, at the level of the preprocessor. *)
Lemma white_length nl l w n : white nl l w n -> (length n <= length w)%nat /\
  (length n = length w -> n = [] -> w = []) /\ (nl = false -> n = []).
Proof.
  intros Hw. split; [| split].
  - induction Hw; cbn in *; rewrite ?length_app in *; cbn; lia.
  - intros E ->. by destruct w.
  - induction Hw; intros; try done; auto. congruence.
Qed.

Lemma reader_skip nl l w n r pre sol : white nl l w n -> stops nl l -> cursor r pre (w ++ l) sol ->
  exists r' sol', skip_whitespace_and_comments_from_reader nl r = Ok (n, r') /\ cursor r' (pre ++ w) l sol' /\
    (l <> [] -> head l <> Some 10 -> sol' = after_white sol n) /\ same_text r r'.
Proof.
  intros Hw Hl C. destruct (skip_loop nl l w n Hw Hl r pre sol sol [] (S (length (buffer r))) C)
    as (r' & E & (sol' & C' & S') & T).
  { pose proof (cur_len C) as (_ & _ & -> & _). rewrite !length_app. lia. }
  exists r', sol'. split; [| done]. unfold skip_whitespace_and_comments_from_reader. eapply run_bind; [done |].
  destruct C as [_ _ ->]. exact E.
Qed.

Lemma pp_skip nl l w n p fn ms ps st sol : white nl l w n -> stops nl l -> sees p fn ms ps st (w ++ l) sol ->
  exists p' sol', skip_whitespace_and_comments nl p = Ok (tt, p') /\ sees p' fn ms ps st l sol' /\ grows p p' n /\
    (head l <> Some 10 -> sol' = after_white sol n) /\ reader_filename (pp_reader p') = reader_filename (pp_reader p) /\
    position (pp_reader p') = position (pp_reader p) + Z.of_nat (length w).
Proof.
  intros Hw Hl S. destruct (sees_cursor _ _ _ _ _ _ _ S) as (pre & s & C & Es).
  destruct (reader_skip _ _ _ _ _ _ _ Hw Hl C) as (r' & sol' & E & C' & S' & T).
  assert (Hpos : position r' = position (pp_reader p) + Z.of_nat (length w)).
  { pose proof (cur_len C') as (_ & _ & _ & ->). pose proof (cur_len C) as (_ & _ & _ & ->). rewrite length_app. lia. }
  assert (Hs : exists sol2, sees (set_reader p r') fn ms ps st l sol2 /\ (head l <> Some 10 -> sol2 = after_white sol n)).
  { destruct (decide (head l = Some 10)) as [E10|N10]; [exists sol'; split; [by eapply sees_move | done] |].
    exists (after_white sol n). split; [| done]. destruct S. constructor; try done; [| cbn; destruct T; naive_solver]. exists (pre ++ w), sol'.
    split; [done |]. intros Hne. rewrite S' by done. f_equal. apply Es. by destruct w. }
  destruct Hs as (sol2 & S2 & E2).
  assert (Hrun : skip_whitespace_and_comments nl p =
    match n with [] => mret tt | _ => append_out n end (set_reader p r')).
  { unfold skip_whitespace_and_comments. eapply run_bind; [by apply pp_reader_run | done]. }
  assert (G : grows p (set_reader p r') []) by (by apply grows_reader).
  assert (Hf : reader_filename r' = reader_filename (pp_reader p)) by apply T.
  destruct n as [|c n].
  - exists (set_reader p r'), sol2. done.
  - rewrite append_out_run in Hrun by apply S. eexists _, sol2. split; [exact Hrun |].
    split; [by apply sees_append |]. split; [| done]. eapply grows_trans; [done | apply grows_append | done].
Qed.

(** ** One turn of the loop *)

(** What white space before a token leaves: its newlines, or else a blank. *)
Definition separator (w n : list Z) : list Z :=
  match n with [] => match w with [] => [] | _ => [32] end | _ => n end.

Lemma position_bound p fn ms ps st suf sol : sees p fn ms ps st suf sol -> 0 <= position (pp_reader p) < 2 ^ 31.
Proof.
  intros [(pre & s & C & _) _ _ _ _ _]. pose proof (cur_len C) as (E1 & L & E2 & E3).
  rewrite E3 in *. split; [lia |]. rewrite E2, length_app in *. lia.
Qed.

Lemma separator_turn q n w p : out_freed q = false -> (length n <= length w)%nat ->
  (length n = length w -> n = [] -> w = []) -> Z.of_nat (length w) < 2 ^ 31 ->
  position (pp_reader q) = position (pp_reader p) + Z.of_nat (length w) -> grows p q n ->
  let consumed := u32 (position (pp_reader q) - position (pp_reader p)) in
  let produced := u32 (Z.of_nat (length (out_chars q)) - Z.of_nat (length (out_chars p))) in
  exists a o, (if produced <? consumed then
      (if Nat.eqb (length (out_chars q)) (length (out_chars p)) then append_out [32] else mret tt);;
      add_adjustment NORMAL_ADJUSTMENT;;
      mret true
    else mret true : pp bool) q = Ok (true, set_adjustments (set_out q (out_chars q ++ o) false) a) /\ n ++ o = separator w n.
Proof.
  intros Hf H1 H2 H3 Hp [G _ _] consumed produced.
  assert (Ec : consumed = Z.of_nat (length w)) by (unfold consumed; rewrite Hp; rewrite wrap_small; lia).
  assert (Ep : produced = Z.of_nat (length n)).
  { unfold produced. rewrite G, length_app. rewrite wrap_small; lia. }
  rewrite Ec, Ep. destruct (Z.ltb_spec (Z.of_nat (length n)) (Z.of_nat (length w))).
  - rewrite G. rewrite length_app. destruct n as [|c n]; cbn [length].
    + rewrite Nat.add_0_r, Nat.eqb_refl. cbn [length app]. 
      set (q1 := set_out q (out_chars q ++ [32]) false). destruct (adjustment_run q1) as [a E]. exists a, [32]. split.
      * eapply run_bind; [by apply append_out_run |]. eapply run_bind; [exact E |]. subst q1. rewrite G. done.
      * by destruct w.
    + destruct (Nat.eqb_spec (length (out_chars p) + S (length n)) (length (out_chars p))); [lia |].
      destruct (adjustment_run q) as [a E]. exists a, []. split; [| by rewrite app_nil_r].
      eapply run_bind; [done |]. eapply run_bind; [exact E |]. rewrite app_nil_r, <- G.
      destruct q; cbn in *; by subst.
  - exists (out_adjustments q), []. rewrite !app_nil_r. split.
    + destruct q; cbn in *. by subst.
    + destruct n; [| done]. rewrite H2; [done | | done]. cbn in *. lia.
Qed.

Lemma skip_turn l w n p fn ms ps st sol : white true l w n -> stops true l -> sees p fn ms ps st (w ++ l) sol ->
  ignoring_chars p = false ->
  exists p', skip_before_token p = Ok (true, p') /\ sees p' fn ms ps st l (after_white sol n) /\ grows p p' (separator w n).
Proof.
  intros Hw Hl S Hi. destruct (pp_skip _ _ _ _ _ _ _ _ _ _ Hw Hl S) as (q & sol' & E & Sq & G & Es & Ef & Hp).
  destruct (white_length _ _ _ _ Hw) as (W1 & W2 & _).
  destruct (separator_turn q n w p) as (a & o & E' & Eo); try done.
  { apply Sq. }
  { pose proof (position_bound _ _ _ _ _ _ _ Sq). pose proof (position_bound _ _ _ _ _ _ _ S). lia. }
  rewrite Es in Sq by (destruct l; [done |]; intros [= ->]; by destruct Hl as (_ & _ & Hl & _); specialize (Hl eq_refl)).
  eexists. split; [| split].
  - unfold skip_before_token. eapply run_bind; [done |]. rewrite Hi. eapply run_bind; [eapply run_bind; [exact E | done] |].
    cbn [negb]. cbv iota. eapply run_bind; [done |]. exact E'.
  - by apply sees_adjust, sees_append.
  - eapply grows_trans; [exact G | | by rewrite <- Eo]. constructor; done.
Qed.

(** String and character literals. *)
Inductive literal_text (q : Z) : list Z -> Prop :=
| literal_nil : literal_text q []
| literal_char c b : c <> q -> c <> 92 -> literal_text q b -> literal_text q (c :: b)
| literal_escape c b : literal_text q b -> literal_text q (92 :: c :: b).

Lemma literal_loop q b : (q = 34 \/ q = 39) -> literal_text q b -> forall r pre l sol loc fuel,
  cursor r pre (b ++ q :: l) sol -> (length b < fuel)%nat ->
  exists r', loop_st fuel (literal_body q loc) tt r = Ok (true, r') /\ (exists sol', cursor r' (pre ++ b) (q :: l) sol') /\
    same_text r r'.
Proof.
  intros Hq Hb. induction Hb as [|c b Hcq Hc Hb IH|c b Hb IH]; intros r pre l sol loc [|fuel] C Hf;
    cbn [length] in Hf; try lia; cbn [app] in C.
  - exists r. rewrite app_nil_r. split; [| split; [by exists sol | done]]. apply loop_st_done. unfold literal_body.
    eapply run_bind; [done |]. rewrite (cur_peek_eqb C) by lia. by rewrite Z.eqb_refl.
  - destruct (cur_expect C 92) as (r0 & E0 & _ & H0); [lia |]. destruct (Z.eqb_spec c 92); [done |]. subst r0.
    pose proof (cur_advance C) as A. reads A.
    destruct (IH _ _ _ _ loc fuel C0 ltac:(lia)) as (r' & E' & (sol' & C') & T').
    exists r'. rewrite <- app_assoc in C'. split; [| split; [by exists sol' | by transitivity r0]].
    rewrite <- E'. apply loop_st_next. unfold literal_body. eapply run_bind; [done |].
    rewrite (cur_peek_eqb C) by lia. destruct (Z.eqb_spec c q); [done |]. rewrite (cur_not_end C).
    eapply run_bind; [exact E0 |]. by eapply run_bind; [exact E |].
  - destruct (cur_expect C 92) as (r0 & E0 & T0 & H0); [lia |]. cbn [Z.eqb Pos.eqb] in H0, E0.
    pose proof (cur_advance H0) as A. reads A.
    destruct (IH _ _ _ _ loc fuel C0 ltac:(lia)) as (r' & E' & (sol' & C') & T').
    exists r'. rewrite <- !app_assoc in C'. split; [| split; [by exists sol' | transitivity r0; [done | by transitivity r1]]].
    rewrite <- E'. apply loop_st_next. unfold literal_body. eapply run_bind; [done |].
    rewrite (cur_peek_eqb C) by lia. destruct (Z.eqb_spec 92 q); [lia |]. rewrite (cur_not_end C).
    eapply run_bind; [exact E0 |]. by eapply run_bind; [exact E |].
Qed.

(** The text between two positions of the cursor. *)
Lemma slice_at r pre mid suf sol : cursor r (pre ++ mid) suf sol ->
  slice (buffer r) (Z.of_nat (length pre)) (u32 (position r - Z.of_nat (length pre))) = Ok mid.
Proof.
  intros C. pose proof (cur_len C) as (_ & L & Eb & Ep). unfold slice.
  rewrite Ep, Eb in *. rewrite !length_app in *. rewrite wrap_small by lia.
  rewrite Nat2Z.id, <- app_assoc, drop_app_length. rewrite length_app. zcases.
  f_equal. replace (Z.to_nat _) with (length mid) by lia. by rewrite take_app_length.
Qed.

Lemma read_literal q b r pre l sol : (q = 34 \/ q = 39) -> literal_text q b -> cursor r (pre ++ [q]) (b ++ q :: l) sol ->
  exists r', append_string_or_char_literal q r = Ok (Some (q :: b ++ [q]), r') /\
    cursor r' (pre ++ q :: b ++ [q]) l false /\ same_text r r'.
Proof.
  intros Hq Hb C. destruct (literal_loop q b Hq Hb r _ l sol (reader_source_loc r) (S (length (buffer r))) C)
    as (r1 & E1 & (sol1 & C1) & T1).
  { pose proof (cur_len C) as (_ & _ & -> & _). rewrite !length_app. lia. }
  pose proof (cur_advance C1) as A. reads A. destruct (Z.eqb_spec q 10); [lia |].
  replace (((pre ++ [q]) ++ b) ++ [q]) with (pre ++ q :: b ++ [q]) in C0 by (by rewrite <- !app_assoc; cbn).
  exists r0. split; [| split; [done | by transitivity r1]].
  unfold append_string_or_char_literal. eapply run_bind; [done |].
  assert (Es : u32 (position r - 1) = Z.of_nat (length pre)).
  { pose proof (cur_len C) as (_ & L & Eb & ->). rewrite Eb, !length_app in *. cbn in *. rewrite wrap_small; lia. }
  rewrite Es. cbv zeta. eapply run_bind; [exact E1 |]. cbv iota. eapply run_bind; [exact E |]. eapply run_bind; [done |].
  unfold mbind, st_bind, lift. by rewrite (slice_at _ _ _ _ _ C0).
Qed.

Lemma ident_rest_loop s r pre rest sol : cursor r pre (s ++ rest) sol -> Forall (fun c => ident_char c = true) s ->
  (match rest with c :: _ => ident_char c = false | [] => True end) -> forall fuel, (length s < fuel)%nat ->
  exists r', loop_st fuel ident_rest_body tt r = Ok (tt, r') /\ (exists sol', cursor r' (pre ++ s) rest sol' /\ (s <> [] -> sol' = false) /\ (s = [] -> sol' = sol)) /\ same_text r r'.
Proof.
  intros C Hs Hr. revert r pre sol C. induction s as [|c s IH]; intros r pre sol C [|fuel] Hf; cbn in Hf; try lia.
  - exists r. rewrite app_nil_r. split; [| split; [by exists sol | done]]. apply loop_st_done.
    unfold ident_rest_body. eapply run_bind; [done |]. destruct rest as [|d rest].
    + by rewrite (cur_peek_end C).
    + by rewrite (cur_peek C), (ident_char_i8 d (cur_byte C)), Hr.
  - apply Forall_cons in Hs as [Hc Hs]. cbn [app] in C. pose proof (cur_read_char C) as A. reads A.
    destruct (IH Hs _ _ _ C0 fuel ltac:(lia)) as (r' & E' & (sol' & C' & S1 & S2) & T').
    exists r'. rewrite <- app_assoc in C'. split; [| split; [| by transitivity r0]].
    + rewrite <- E'. apply loop_st_next. unfold ident_rest_body. eapply run_bind; [done |].
      rewrite (cur_peek C), (ident_char_i8 c (cur_byte C)), Hc. by eapply run_bind.
    + exists sol'. split; [done |]. split; [intros _ | done]. destruct s; [| by apply S1].
      rewrite S2 by done. destruct (Z.eqb_spec c 10); [by subst | done].
Qed.

(** ** Reference semantics *)

Definition is_name (s : list Z) : Prop :=
  match s with c :: s => initial_ident_char c = true /\ Forall (fun c => ident_char c = true) s | [] => False end.
Definition ends_name (l : list Z) : Prop := match l with c :: _ => ident_char c = false | [] => True end.

(** A text that a reader can hold: bytes, no line splices, a length in 31 bits. *)
Record text_ok (l : list Z) : Prop := {
  text_bytes : Forall (is_u 8) l;
  text_spliceless : spliceless l = true;
  text_small : Z.of_nat (length l) < 2 ^ 31
}.

(** Does the innermost open conditional, if any, leave text out? *)
Definition ignoring (st : list PPCondScope) : bool :=
  match st with [] => false | top :: _ => negb (condition top) end.

(** What [skip_to_next_directive] goes to: a [#] that only blanks precede on its line. *)
Fixpoint next_directive (sol : bool) (l : list Z) : list Z :=
  match l with
  | [] => []
  | c :: l' =>
      if (c =? 32) || (c =? 9) then next_directive sol l'
      else if (c =? 35) && sol then l
      else next_directive (c =? 10) l'
  end.

Definition object_macro (name value : list Z) : Macro := mkMacro name (Some value) [] false.
Definition defined (ms : list Macro) (name : list Z) : bool :=
  if look_up_macro ms (Some name) is Some _ then true else false.
(** [#define] of a name: the macro of that name is replaced. *)
Definition define (ms : list Macro) (m : Macro) : list Macro :=
  if defined ms (m_name m) then replace_macro ms m else ms ++ [m].

Local Notation "'text' s" := (Lex.bytes_of s%string) (at level 10, s at level 9).
Definition conditional_names : list (list Z) :=
  [text "if"; text "ifdef"; text "ifndef"; text "elif"; text "else"; text "endif"].

Definition blank (c : Z) : Prop := c = 32 \/ c = 9.

(** The parameters of a macro, up to the bracket that closes them. *)
Inductive parameters : list Z -> list (list Z) -> Prop :=
| parameters_one w x w' : Forall blank w -> is_name x -> Forall blank w' -> parameters (w ++ x ++ w' ++ [41]) [x]
| parameters_more w x w' tl xs : Forall blank w -> is_name x -> Forall blank w' -> parameters tl xs ->
    parameters (w ++ x ++ w' ++ 44 :: tl) (x :: xs).

(** A directive [name] followed by [tl]: its effect on the macros and the open
    conditionals, and what is left of [tl]. *)
Inductive directive (ms : list Macro) (st : list PPCondScope) :
    list Z -> list Z -> list Macro -> list PPCondScope -> list Z -> Prop :=
| dir_ifdef (positive : bool) w x rest :
    white false (x ++ rest) w [] -> is_name x -> ends_name rest ->
    directive ms st (if positive then text "ifdef" else text "ifndef") (w ++ x ++ rest) ms
      (mkScope (negb (ignoring st) && Bool.eqb positive (defined ms x)) THEN :: st) rest
| dir_if_ignored s l :
    ignoring st = true -> Forall (fun c => c <> 10) s ->
    directive ms st (text "if") (s ++ 10 :: l) ms (mkScope false THEN :: st) (10 :: l)
| dir_elif_taken pos parents rest :
    st = mkScope true pos :: parents ->
    directive ms st (text "elif") rest ms (mkScope false ELSE :: parents) rest
| dir_else b parents rest :
    st = mkScope b THEN :: parents ->
    directive ms st (text "else") rest ms (mkScope (negb (ignoring parents) && negb b) ELSE :: parents) rest
| dir_endif top parents rest :
    st = top :: parents -> directive ms st (text "endif") rest ms parents rest
| dir_define w x w' v l :
    ignoring st = false -> white false (x ++ w' ++ v ++ 10 :: l) w [] -> is_name x ->
    ends_name (w' ++ v ++ 10 :: l) -> head (w' ++ v ++ 10 :: l) <> Some 40 ->
    white false (v ++ 10 :: l) w' [] -> stops false (v ++ 10 :: l) -> Forall (fun c => c <> 10 /\ c <> 0) v ->
    (forall m, look_up_macro ms (Some x) = Some m -> arg_names m = []) ->
    directive ms st (text "define") (w ++ x ++ w' ++ v ++ 10 :: l) (define ms (object_macro x v)) st (10 :: l)
| dir_define_function w x a xs w' v l :
    ignoring st = false -> white false (x ++ 40 :: a ++ w' ++ v ++ 10 :: l) w [] -> is_name x ->
    parameters a xs ->
    white false (v ++ 10 :: l) w' [] -> stops false (v ++ 10 :: l) -> Forall (fun c => c <> 10 /\ c <> 0) v ->
    (forall m, look_up_macro ms (Some x) = Some m -> length (arg_names m) = length xs) ->
    directive ms st (text "define") (w ++ x ++ 40 :: a ++ w' ++ v ++ 10 :: l) (define ms (mkMacro x (Some v) xs false)) st (10 :: l)
| dir_undef w x w' rest :
    ignoring st = false -> white false (x ++ w' ++ rest) w [] -> is_name x -> ends_name (w' ++ rest) ->
    white false rest w' [] -> stops false rest ->
    directive ms st (text "undef") (w ++ x ++ w' ++ rest) (remove_macro ms x) st rest
| dir_ignored name rest :
    ignoring st = true -> is_name name -> Forall (fun s => ~ name `prefix_of` s) conditional_names ->
    directive ms st name rest ms st rest.

(** A token that is copied. *)
Definition ordinary (c : Z) : Prop :=
  c <> 34 /\ c <> 39 /\ c <> 35 /\ c <> 255 /\ initial_ident_char c = false.

(** The macro a name stands for. *)
Definition meaning (ms ps : list Macro) (x : list Z) : option Macro :=
  match look_up_macro ps (Some x) with Some m => Some m | None => look_up_macro ms (Some x) end.

(** The arguments of a macro: texts without brackets, quotes, commas, slashes or
    the byte that reads as EOF, not empty, divided by commas; blanks after a comma
    are not part of the argument. *)
Definition plain (r : list Z) : Prop :=
  r <> [] /\ Forall (fun c => c <> 0 /\ c <> 40 /\ c <> 41 /\ c <> 44 /\ c <> 34 /\ c <> 39 /\ c <> 47 /\ c <> 255) r.
Inductive arguments : list Z -> list (list Z) -> Prop :=
| arguments_one r : plain r -> arguments r [r]
| arguments_more r w tl raws : plain r -> Forall blank w -> stops false tl -> arguments tl raws ->
    arguments (r ++ 44 :: w ++ tl) (r :: raws).

(** [Start]: white space may come. [Token]: the cursor is at a token. *)
Inductive phase := Start | Token.

(** An argument, its expansion, and how the preprocessor stands at its end. *)
Record Arg := mkArg { arg_text : list Z; arg_value : list Z; arg_phase : phase; arg_sol : bool }.

(** The blank that separates an expansion from what follows. *)
Definition trailing_blank (l : list Z) : list Z :=
  match l with
  | [] => []
  | c :: _ => if (c =? 32) || (c =? 10) || (c =? 255) then [] else [32]
  end.

Definition name_of_strings : option string := Some "??"%string.

Section Run.
(** The files there are, and where they are looked for. *)
Context (map_file : string -> option (list Z)) (file_exists : string -> bool) (include_dirs : list string).

(** [run n fn ms ps st ph sol l ms' st' ph' sol' l' out]: in the file [fn], with the
    macros [ms], the parameters [ps] and the open conditionals [st], the text [l] is
    preprocessed up to [l'], writing [out]; [sol] tells whether [l] is at the start of
    a line. Macros are nested at most [n] deep. *)
Inductive run : nat -> option string -> list Macro -> list Macro -> list PPCondScope -> phase -> bool -> list Z ->
    list Macro -> list PPCondScope -> phase -> bool -> list Z -> list Z -> Prop :=
| run_stop n fn ms ps st ph sol l : run n fn ms ps st ph sol l ms st ph sol l []
| run_white n fn ms ps st sol w nls l ms' st' ph' sol' l' out :
    ignoring st = false -> white true l w nls -> stops true l -> w ++ l <> [] ->
    run n fn ms ps st Token (after_white sol nls) l ms' st' ph' sol' l' out ->
    run n fn ms ps st Start sol (w ++ l) ms' st' ph' sol' l' (separator w nls ++ out)
| run_skip n fn ms ps st sol l l1 ms' st' ph' sol' l' out :
    ignoring st = true -> next_directive sol l = 35 :: l1 ->
    run n fn ms ps st Token true (35 :: l1) ms' st' ph' sol' l' out ->
    run n fn ms ps st Start sol l ms' st' ph' sol' l' ((if decide (l = 35 :: l1) then [] else [32]) ++ out)
| run_literal n fn ms ps st sol q b l ms' st' ph' sol' l' out :
    q = 34 \/ q = 39 -> literal_text q b ->
    run n fn ms ps st Start false l ms' st' ph' sol' l' out ->
    run n fn ms ps st Token sol (q :: b ++ q :: l) ms' st' ph' sol' l' ((q :: b ++ [q]) ++ out)
| run_char n fn ms ps st sol c l ms' st' ph' sol' l' out :
    ordinary c ->
    run n fn ms ps st Start (c =? 10) l ms' st' ph' sol' l' out ->
    run n fn ms ps st Token sol (c :: l) ms' st' ph' sol' l' (c :: out)
| run_name n fn ms ps st sol x l ms' st' ph' sol' l' out :
    is_name x -> ends_name l -> meaning ms ps x = None ->
    run n fn ms ps st Start false l ms' st' ph' sol' l' out ->
    run n fn ms ps st Token sol (x ++ l) ms' st' ph' sol' l' (x ++ out)
| run_object n fn ms ps st sol x l m v ph1 sol1 out1 ms' st' ph' sol' l' out :
    is_name x -> ends_name l -> meaning ms ps x = Some m ->
    arg_names m = [] -> variadic m = false -> m_value m = Some v -> text_ok v ->
    run n name_of_strings ms [] [] Start false v ms [] ph1 sol1 [] out1 ->
    run (S n) fn ms ps st Start false l ms' st' ph' sol' l' out ->
    run (S n) fn ms ps st Token sol (x ++ l) ms' st' ph' sol' l' (out1 ++ out)
| run_call n fn ms ps st sol x w nls a l m v (args : list Arg) ph1 sol1 out1 ms' st' ph' sol' l' out :
    is_name x -> ends_name (w ++ 40 :: a ++ 41 :: l) -> meaning ms ps x = Some m ->
    arg_names m <> [] -> variadic m = false -> m_value m = Some v -> text_ok v ->
    white true (40 :: a ++ 41 :: l) w nls ->
    arguments a (map arg_text args) -> length args = length (arg_names m) ->
    (forall r, r ∈ map arg_text args -> text_ok r) ->
    (forall g, g ∈ args ->
      run n name_of_strings ms ps [] Start false (arg_text g) ms [] (arg_phase g) (arg_sol g) [] (arg_value g)) ->
    run n name_of_strings ms (zip_with param_macro (arg_names m) (map (fun g => Some (cstr (arg_value g))) args)) []
      Start false v ms [] ph1 sol1 [] out1 ->
    run (S n) fn ms ps st Start false l ms' st' ph' sol' l' out ->
    run (S n) fn ms ps st Token sol (x ++ w ++ 40 :: a ++ 41 :: l) ms' st' ph' sol' l'
      (nls ++ out1 ++ trailing_blank l ++ out)
| run_include n fn ms ps st w w1 q path w2 l f file v ms1 st1 ph1 sol1 out1 ms' st' ph' sol' l' out :
    ignoring st = false ->
    white false (text "include" ++ w1 ++ (if q : bool then 60 else 34) :: path ++ (if q then 62 else 34) :: w2 ++ 10 :: l) w [] ->
    white false ((if q then 60 else 34) :: path ++ (if q then 62 else 34) :: w2 ++ 10 :: l) w1 [] ->
    white false (10 :: l) w2 [] -> Forall (fun c => c <> (if q then 62 else 34)) path ->
    fn = Some f -> look_up_include_path file_exists include_dirs (text f) path = Some file ->
    map_file file = Some v -> text_ok v -> ignoring st1 = false ->
    run n (Some file) ms ps st Start true v ms1 st1 ph1 sol1 [] out1 ->
    run (S n) fn ms1 ps st1 Start true l ms' st' ph' sol' l' out ->
    run (S n) fn ms ps st Token true
      (35 :: w ++ text "include" ++ w1 ++ (if q then 60 else 34) :: path ++ (if q then 62 else 34) :: w2 ++ 10 :: l)
      ms' st' ph' sol' l' (out1 ++ out)
| run_directive n fn ms ps st w name tl ms1 st1 w1 c l ms' st' ph' sol' l' out :
    white false (name ++ tl) w [] -> is_name name -> ends_name tl ->
    directive ms st name tl ms1 st1 (w1 ++ c :: l) ->
    white false (c :: l) w1 [] -> stops false (c :: l) -> (ignoring st1 = false -> c = 10) ->
    run n fn ms1 ps st1 Start (c =? 10) l ms' st' ph' sol' l' out ->
    run n fn ms ps st Token true (35 :: w ++ name ++ tl) ms' st' ph' sol' l' out.

(** ** Nested conditionals *)

Lemma run_trans n fn ms ps st ph sol l ms1 st1 ph1 sol1 l1 out1 ms2 st2 ph2 sol2 l2 out2 :
  run n fn ms ps st ph sol l ms1 st1 ph1 sol1 l1 out1 -> run n fn ms1 ps st1 ph1 sol1 l1 ms2 st2 ph2 sol2 l2 out2 ->
  run n fn ms ps st ph sol l ms2 st2 ph2 sol2 l2 (out1 ++ out2).
Proof.
  intros R. revert ms2 st2 ph2 sol2 l2 out2. induction R; intros ms3 st3 ph3 sol3 l3 out3 Rest;
    rewrite <- ?app_assoc; cbn [app]; [done | eauto using run ..].
Qed.

(** A line of text, or a conditional of either form with its groups. *)
Inductive Opening := O_if (condition : list Z) | O_ifdef (positive : bool) (blanks name : list Z).
Inductive Part := Line (s : list Z) | Conditional (o : Opening) (then_ : list Part) (else_ : option (list Part)).

Definition opening_text (o : Opening) : list Z :=
  match o with
  | O_if s => text "if" ++ s
  | O_ifdef positive w x => (if positive then text "ifdef" else text "ifndef") ++ w ++ x
  end.
Definition else_line : list Z := 35 :: text "else" ++ [10].
Definition endif_line : list Z := 35 :: text "endif" ++ [10].

Fixpoint part_text (p : Part) : list Z :=
  match p with
  | Line s => s ++ [10]
  | Conditional o a b =>
      35 :: opening_text o ++ 10 :: flat_map part_text a ++
      match b with Some b => else_line ++ flat_map part_text b | None => [] end ++ endif_line
  end.
Definition parts_text (l : list Part) : list Z := flat_map part_text l.

Definition blank_directive (s : list Z) : Prop := forall l, next_directive true (s ++ 10 :: l) = next_directive true l.
Definition opening_ok (o : Opening) : Prop :=
  match o with
  | O_if s => Forall (fun c => c <> 10) s /\ ends_name (s ++ [10])
  | O_ifdef _ w x => Forall blank w /\ w <> [] /\ is_name x
  end.
(** Lines that are no directives, conditionals that are well formed. *)
Inductive part_ok : Part -> Prop :=
| line_ok s : blank_directive s -> part_ok (Line s)
| conditional_ok o a b : opening_ok o -> Forall part_ok a -> (forall b', b = Some b' -> Forall part_ok b') ->
    part_ok (Conditional o a b).

Definition blanks (l : list Z) : Prop := Forall (fun c => c = 32) l.

(** A run through ignored text from the start of a line. *)
Definition skips n fn ms ps st (l l' : list Z) : Prop :=
  exists out, run n fn ms ps st Start true l ms st Token true l' out /\ blanks out.

Lemma skips_line n fn ms ps st s l l' : blank_directive s -> ignoring st = true ->
  skips n fn ms ps st l l' -> skips n fn ms ps st (s ++ 10 :: l) l'.
Proof.
  intros Hs Hi (out & R & Hb). inversion R; subst; try congruence.
  eexists. split; [eapply run_skip; [done | by rewrite Hs | done] |].
  apply Forall_app in Hb as [_ Hb]. apply Forall_app. split; [| done].
  match goal with |- Forall _ (if ?d then _ else _) => destruct d end; [constructor | by repeat constructor].
Qed.

Lemma start_directive n fn ms ps st l ms' st' ph' sol' l' out : ignoring st = true ->
  run n fn ms ps st Token true (35 :: l) ms' st' ph' sol' l' out ->
  run n fn ms ps st Start true (35 :: l) ms' st' ph' sol' l' out.
Proof.
  intros Hi R. pose proof (run_skip n fn ms ps st true (35 :: l) l _ _ _ _ _ _ Hi eq_refl R) as H.
  by rewrite decide_True in H.
Qed.

Lemma skip_text n fn ms ps st sol l l1 ms' st' ph' sol' l' out : ignoring st = true ->
  next_directive sol l = 35 :: l1 -> l <> 35 :: l1 ->
  run n fn ms ps st Token true (35 :: l1) ms' st' ph' sol' l' out ->
  run n fn ms ps st Start sol l ms' st' ph' sol' l' (32 :: out).
Proof.
  intros Hi El Hl R. pose proof (run_skip n fn ms ps st sol l l1 _ _ _ _ _ _ Hi El R) as H.
  by rewrite decide_False in H.
Qed.

(** The opening line of a conditional. *)
Lemma opening_run n fn ms ps st o l ms' st' ph' sol' l' out : opening_ok o -> (forall s, o = O_if s -> ignoring st = true) ->
  let c := match o with O_if _ => false
           | O_ifdef positive _ x => negb (ignoring st) && Bool.eqb positive (defined ms x) end in
  run n fn ms ps (mkScope c THEN :: st) Start true l ms' st' ph' sol' l' out ->
  run n fn ms ps st Token true (35 :: opening_text o ++ 10 :: l) ms' st' ph' sol' l' out.
Proof.
  intros Ho Hi c R. destruct o as [s|positive w x]; cbn [opening_text].
  - destruct Ho as [Hs He]. rewrite <- app_assoc.
    eapply (run_directive n fn ms ps st [] (text "if") (s ++ 10 :: l) _ _ [] 10 l); [constructor | | | | constructor | done | done | exact R].
    + by split; [| repeat constructor].
    + destruct s; [done | exact He].
    + apply (dir_if_ignored ms st s l); [by eapply Hi | done].
  - destruct Ho as (Hw & Hw' & Hx). rewrite <- !app_assoc.
    eapply (run_directive n fn ms ps st [] (if positive then text "ifdef" else text "ifndef") (w ++ x ++ 10 :: l) _ _ [] 10 l);
      [constructor | | | | constructor | done | done | exact R].
    + by destruct positive; (split; [| repeat constructor]).
    + destruct Hw as [|d w Hd Hw]; [done |]. cbn. by destruct Hd; subst.
    + apply (dir_ifdef ms st positive w x (10 :: l)); try done.
      clear - Hw. induction Hw; constructor; done.
Qed.

Lemma else_run n fn ms ps b parents l ms' st' ph' sol' l' out :
  run n fn ms ps (mkScope (negb (ignoring parents) && negb b) ELSE :: parents) Start true l ms' st' ph' sol' l' out ->
  run n fn ms ps (mkScope b THEN :: parents) Token true (else_line ++ l) ms' st' ph' sol' l' out.
Proof.
  intros R. unfold else_line. cbn [app]. rewrite <- app_assoc.
  eapply (run_directive n fn ms ps _ [] (text "else") (10 :: l) _ _ [] 10 l); [constructor | | done | | constructor | done | done | exact R].
  - by split; [| repeat constructor].
  - by apply dir_else.
Qed.

Lemma endif_run n fn ms ps top parents l ms' st' ph' sol' l' out :
  run n fn ms ps parents Start true l ms' st' ph' sol' l' out ->
  run n fn ms ps (top :: parents) Token true (endif_line ++ l) ms' st' ph' sol' l' out.
Proof.
  intros R. unfold endif_line. cbn [app]. rewrite <- app_assoc.
  eapply (run_directive n fn ms ps _ [] (text "endif") (10 :: l) _ _ [] 10 l); [constructor | | done | | constructor | done | done | exact R].
  - by split; [| repeat constructor].
  - by eapply dir_endif.
Qed.

(** The same from a directive. *)
Definition passes n fn ms ps st (l l' : list Z) : Prop :=
  exists out, run n fn ms ps st Token true l ms st Token true l' out /\ blanks out.

Lemma skips_here n fn ms ps st l : ignoring st = true -> skips n fn ms ps st (35 :: l) (35 :: l).
Proof. intros Hi. exists []. split; [apply start_directive; [done | constructor] | constructor]. Qed.

Lemma skips_passes n fn ms ps st l l1 l2 : skips n fn ms ps st l l1 -> passes n fn ms ps st l1 l2 ->
  skips n fn ms ps st l l2.
Proof.
  intros (b & R & Hb) (c & R2 & Hc). exists (b ++ c). split; [by eapply run_trans | by apply Forall_app].
Qed.

Lemma passes_endif n fn ms ps top st l l' : skips n fn ms ps st l l' ->
  exists out, run n fn ms ps (top :: st) Token true (endif_line ++ l) ms st Token true l' out /\ blanks out.
Proof. intros (b & R & Hb). exists b. split; [by apply endif_run | done]. Qed.

Fixpoint part_size (p : Part) : nat :=
  match p with
  | Line _ => 1
  | Conditional _ a b =>
      S (list_sum (map part_size a) + match b with Some b => list_sum (map part_size b) | None => 0 end)
  end.
Definition parts_size (l : list Part) : nat := list_sum (map part_size l).

Lemma parts_size_cons p l : parts_size (p :: l) = (part_size p + parts_size l)%nat.
Proof. done. Qed.
Lemma part_size_pos p : (1 <= part_size p)%nat.
Proof. destruct p; cbn; lia. Qed.

(** The groups of an ignored conditional, from the line after its opening line. *)
Lemma skip_groups n fn ms ps st a b rest l' :
  (forall st' rest l', ignoring st' = true -> skips n fn ms ps st' rest l' -> skips n fn ms ps st' (parts_text a ++ rest) l') ->
  (forall st' rest l' b', b = Some b' -> ignoring st' = true -> skips n fn ms ps st' rest l' -> skips n fn ms ps st' (parts_text b' ++ rest) l') ->
  ignoring st = true -> skips n fn ms ps st rest l' ->
  exists out, run n fn ms ps (mkScope false THEN :: st) Start true
    (parts_text a ++ match b with Some b => else_line ++ parts_text b | None => [] end ++ endif_line ++ rest)
    ms st Token true l' out /\ blanks out.
Proof.
  intros Ha Hb Hi Hr. set (top := mkScope false THEN).
  assert (Hend : forall top, exists out, run n fn ms ps (top :: st) Token true (endif_line ++ rest) ms st Token true l' out /\ blanks out)
    by (intros; by apply passes_endif).
  assert (Hjoin : forall top l l1, skips n fn ms ps (top :: st) l l1 ->
    (exists out, run n fn ms ps (top :: st) Token true l1 ms st Token true l' out /\ blanks out) ->
    exists out, run n fn ms ps (top :: st) Start true l ms st Token true l' out /\ blanks out).
  { intros t l l1 (c & R & Hc) (d & R' & Hd). exists (c ++ d). split; [by eapply run_trans | by apply Forall_app]. }
  destruct b as [b|].
  - destruct (Hjoin (mkScope false ELSE) (parts_text b ++ endif_line ++ rest) (endif_line ++ rest)) as (out & R & Ho).
    { apply (Hb _ _ _ b); [done | done | by apply skips_here]. }
    { apply Hend. }
    eapply Hjoin; [apply Ha; [done | by apply skips_here] |].
    exists out. split; [| done].
    apply (else_run n fn ms ps false st (parts_text b ++ endif_line ++ rest)). by rewrite Hi.
  - eapply Hjoin; [apply Ha; [done | by apply skips_here] | apply Hend].
Qed.

(** Ignored parts are passed over, conditionals and all. *)
Lemma skips_parts m : forall l n fn ms ps st rest l', (parts_size l <= m)%nat -> Forall part_ok l -> ignoring st = true ->
  skips n fn ms ps st rest l' -> skips n fn ms ps st (parts_text l ++ rest) l'.
Proof.
  induction m as [|m IH]; intros l n fn ms ps st rest l' Hm Hl Hi Hr; (destruct Hl as [|p l Hp Hl]; [done |]).
  { rewrite parts_size_cons in Hm. pose proof (part_size_pos p). lia. }
  rewrite parts_size_cons in Hm. pose proof (part_size_pos p).
  unfold parts_text. cbn [flat_map]. rewrite <- app_assoc. fold (parts_text l).
  assert (Hrest : skips n fn ms ps st (parts_text l ++ rest) l').
  { apply IH; try done. lia. }
  destruct Hp as [s Hs|o a b Ho Ha Hb].
  - cbn [part_text]. rewrite <- app_assoc. by apply skips_line.
  - cbn [part_size] in Hm. fold (parts_size a) in Hm.
    destruct (skip_groups n fn ms ps st a b (parts_text l ++ rest) l') as (out & R & Hb'); try done.
    + intros. apply IH; try done. lia.
    + intros st' rest' l1 b' -> ? ?. fold (parts_size b') in Hm. apply IH; [lia | by apply Hb | done | done].
    + exists out. split; [| done]. cbn [part_text app]. apply start_directive; [done |].
      repeat (rewrite <- app_assoc || cbn [app]). rewrite app_comm_cons.
      apply opening_run; [done | done |]. rewrite Hi. cbn [negb andb].
      replace (match o with O_if _ => false | O_ifdef _ _ _ => false end) with false by (by destruct o).
      fold (parts_text a). destruct b as [b|]; [| exact R]. rewrite <- app_assoc in R. exact R.
Qed.

(** [#ifdef] and [#ifndef] with the groups [a] and [b]: the one that is selected
    runs, the other is passed over. *)
Lemma conditional_then n fn ms ps st positive w x a b l ms1 out : ignoring st = false ->
  opening_ok (O_ifdef positive w x) -> Bool.eqb positive (defined ms x) = true -> Forall part_ok b ->
  run n fn ms ps (mkScope true THEN :: st) Start true (a ++ else_line ++ parts_text b ++ endif_line ++ l)
    ms1 (mkScope true THEN :: st) Token true (else_line ++ parts_text b ++ endif_line ++ l) out ->
  exists z, blanks z /\
    run n fn ms ps st Token true
      (35 :: opening_text (O_ifdef positive w x) ++ 10 :: a ++ else_line ++ parts_text b ++ endif_line ++ l)
      ms1 st Start true l (out ++ z).
Proof.
  intros Hi Ho Hc Hb R.
  destruct (skips_parts _ b n fn ms1 ps (mkScope false ELSE :: st) (endif_line ++ l) (endif_line ++ l) (Nat.le_refl _) Hb eq_refl)
    as (z & Rz & Hz); [by apply skips_here |].
  exists z. split; [done |]. eapply opening_run; [done | done |]. cbn beta iota. rewrite Hi, Hc. cbn [negb andb].
  eapply run_trans; [exact R |]. apply else_run. rewrite andb_false_r. rewrite <- (app_nil_r z).
  eapply run_trans; [exact Rz |]. apply endif_run. constructor.
Qed.

Lemma conditional_else n fn ms ps st positive w x a b l ms1 out : ignoring st = false ->
  opening_ok (O_ifdef positive w x) -> Bool.eqb positive (defined ms x) = false -> Forall part_ok a ->
  run n fn ms ps (mkScope true ELSE :: st) Start true (b ++ endif_line ++ l)
    ms1 (mkScope true ELSE :: st) Token true (endif_line ++ l) out ->
  exists z, blanks z /\
    run n fn ms ps st Token true
      (35 :: opening_text (O_ifdef positive w x) ++ 10 :: parts_text a ++ else_line ++ b ++ endif_line ++ l)
      ms1 st Start true l (z ++ out).
Proof.
  intros Hi Ho Hc Ha R. set (tail := else_line ++ b ++ endif_line ++ l).
  destruct (skips_parts _ a n fn ms ps (mkScope false THEN :: st) tail tail (Nat.le_refl _) Ha eq_refl)
    as (z & Rz & Hz); [by apply skips_here |].
  exists z. split; [done |]. eapply opening_run; [done | done |]. cbn beta iota. rewrite Hi, Hc. cbn [negb andb].
  eapply run_trans; [exact Rz |]. apply else_run. rewrite Hi. cbn [negb andb]. rewrite <- (app_nil_r out).
  eapply run_trans; [exact R |]. apply endif_run. constructor.
Qed.

End Run.
