(* ===== verification/PreprocessSound.v ===== *)
(** * The preprocessor implements its semantics

    One turn of the loop of [preprocess_aux] for each rule of [run], and the
    simulation: a text that the rules preprocess is preprocessed by the code, with
    the same output and no error, with fuel for the nesting depth. *)

From S2P Require Import Prelude Reader Ast Preprocess PreprocessSpec.
From S2P Require LibC Strings Lex.

Local Open Scope Z_scope.
Local Notation "'text' s" := (Lex.bytes_of s%string) (at level 10, s at level 9).

(** ** The character loop implements the semantics *)

Lemma loop_st_S {S A R} n (body : A -> st S (A + R)) a s :
  loop_st (Datatypes.S n) body a s =
  match body a s with
  | Ok (inl a', s') => loop_st n body a' s'
  | Ok (inr r, s') => Ok (r, s')
  | Stop e => Stop e
  end.
Proof.
  destruct (body a s) as [[[a'|r] s']|e] eqn:E; [by apply loop_st_next | by apply loop_st_done | by apply loop_st_stop].
Qed.

Section Sound.
Context (map_file : string -> option (list Z)) (file_exists : string -> bool)
  (parse_expr : list Lex.SourceToken -> option ASTExpr) (include_dirs : list string).

Abbreviation aux := (preprocess_aux map_file file_exists parse_expr include_dirs).
Abbreviation body rec := (aux_body map_file file_exists parse_expr include_dirs rec).
Abbreviation token rec := (next_token map_file file_exists parse_expr include_dirs rec).
Abbreviation run := (run map_file file_exists include_dirs).

(** The rest of the loop, from the middle of a turn for [Token]. *)
Definition exec (rec : pp bool) (ph : phase) (k : nat) : pp bool :=
  match ph with
  | Start => loop_st (S k) (body rec) tt
  | Token => okay ← token rec; if (okay : bool) then loop_st k (body rec) tt else mret false
  end.

Lemma exec_token rec k p p' : token rec p = Ok (true, p') -> exec rec Token (S k) p = exec rec Start k p'.
Proof. intros E. cbn. by rewrite (st_bind_run _ _ _ _ _ E). Qed.

Lemma exec_start rec k p p' : at_end (pp_reader p) = false -> skip_before_token p = Ok (true, p') ->
  exec rec Start k p = exec rec Token k p'.
Proof.
  intros He E. cbn [exec]. rewrite loop_st_S. unfold aux_body.
  rewrite (st_bind_run the_reader _ p (pp_reader p) p) by done. rewrite He.
  rewrite (st_bind_run _ _ _ _ _ E). cbn [negb]. unfold mbind, st_bind.
  by destruct (token rec p') as [[[] s]|e].
Qed.

(** The turns a text needs at most. *)
Definition cost (ph : phase) (l : list Z) : nat :=
  match ph with Start => length l | Token => Nat.max 1 (length l) end.

(** The loop gets from the text [l] to [l']. *)
Definition reaches (rec : pp bool) ph p l ph' p' l' : Prop :=
  forall k, (cost ph l <= k)%nat -> exists k', exec rec ph k p = exec rec ph' k' p' /\ (cost ph' l' <= k')%nat.

Lemma reaches_trans rec ph1 p1 l1 ph2 p2 l2 ph3 p3 l3 :
  reaches rec ph1 p1 l1 ph2 p2 l2 -> reaches rec ph2 p2 l2 ph3 p3 l3 -> reaches rec ph1 p1 l1 ph3 p3 l3.
Proof.
  intros H1 H2 k Hk. destruct (H1 k Hk) as (k1 & -> & Hk1). by apply H2.
Qed.
Lemma reaches_token rec p l p' l' : token rec p = Ok (true, p') -> (length l' < length l)%nat ->
  reaches rec Token p l Start p' l'.
Proof.
  intros E Hl k Hk. cbn in Hk. destruct k as [|k]; [lia |]. exists k. split; [by apply exec_token | cbn; lia].
Qed.
Lemma reaches_start rec p l p' l' : at_end (pp_reader p) = false -> skip_before_token p = Ok (true, p') ->
  (cost Token l' <= length l)%nat -> reaches rec Start p l Token p' l'.
Proof. intros He E Hl k Hk. exists k. split; [by apply exec_start | cbn in *; lia]. Qed.

(** [m] preprocesses the whole of the text. *)
Definition completes (m : pp bool) fn ms ps st v sol ms' st' out (n : nat) : Prop :=
  forall p, sees p fn ms ps st v sol -> macro_depth p + Z.of_nat n < 2 ^ 32 -> 0 <= macro_depth p ->
  exists p', m p = Ok (true, p') /\ macro_env p' = ms' /\ curr_macro_params p' = ps /\ pp_scope_stack p' = st' /\
    out_freed p' = false /\ grows p p' out.

Lemma sees_string p fn ms ps st l sol v ps' : sees p fn ms ps st l sol -> text_ok v ->
  sees (set_reader (set_stack (set_adjustments (set_params p ps') []) [])
          (set_stderr (reader_init v [] false (Some "??"%string)) (stderr (pp_reader p))))
    name_of_strings ms ps' [] v false.
Proof.
  intros [] []. constructor; try done. exists [], false. split; [| done]. by repeat constructor.
Qed.

Lemma preprocess_string_run rec p fn ms ps st l sol v out n : text_ok v ->
  completes rec name_of_strings ms ps [] v false ms [] out n ->
  sees p fn ms ps st l sol -> macro_depth p + Z.of_nat n < 2 ^ 32 -> 0 <= macro_depth p ->
  exists p', preprocess_string rec (Some v) p = Ok (true, p') /\ sees p' fn ms ps st l sol /\ grows p p' out.
Proof.
  intros Hv Hc S Hd Hd0. pose proof (sees_string _ _ _ _ _ _ _ _ ps S Hv) as S0.
  replace (set_params p ps) with p in S0 by (destruct p, S; cbn in *; by subst).
  destruct (Hc _ S0 Hd Hd0) as (p1 & E & E1 & E2 & E3 & E4 & [G1 G2 G3]). cbn in G1, G2, G3.
  eexists. split; [| split].
  - unfold preprocess_string. eapply run_bind; [done |]. eapply run_bind; [done |]. eapply run_bind; [done |].
    eapply run_bind.
    { unfold with_reader. eapply run_bind; [done |]. eapply run_bind; [done |]. eapply run_bind; [exact E |].
      eapply run_bind; done. }
    eapply run_bind; done.
  - destruct S as [(pre & s & C & Es) ? ? ? ? ?]. constructor; cbn; try done. exists pre, s. split; [| done].
    rewrite G3. destruct (pp_reader p). exact C.
  - constructor; cbn; done.
Qed.

(** *** Tokens *)

Lemma token_literal rec q b p fn ms ps st l sol : q = 34 \/ q = 39 -> literal_text q b ->
  sees p fn ms ps st (q :: b ++ q :: l) sol ->
  exists p', token rec p = Ok (true, p') /\ sees p' fn ms ps st l false /\ grows p p' (q :: b ++ [q]).
Proof.
  intros Hq Hb S. destruct (sees_cursor _ _ _ _ _ _ _ S) as (pre & s & C & _).
  pose proof (cur_read_char C) as A. reads A.
  destruct (read_literal q b r pre l _ Hq Hb C0) as (r1 & E1 & C1 & T1).
  set (p1 := set_reader (set_reader p r) r1).
  assert (S1 : sees p1 fn ms ps st l false) by (subst p1; eapply (sees_move (p := set_reader p r)); [by eapply sees_move | done | done]).
  exists (set_out p1 (out_chars p1 ++ q :: b ++ [q]) false). split; [| split; [by apply sees_append |]].
  - unfold next_token. eapply run_bind; [done |]. eapply run_bind; [by apply pp_reader_run |].
    rewrite !(i8_eqb_ascii q) by (by eapply cur_byte || lia).
    replace ((q =? 39) || (q =? 34)) with true by (destruct Hq; by subst).
    rewrite i8_ascii by lia. eapply run_bind; [by apply (pp_reader_run _ (set_reader p r)) |].
    eapply run_bind; [apply append_out_run; apply S | done].
  - constructor; cbn; [done | done |]. destruct T, T1; naive_solver congruence.
Qed.
Lemma token_char rec c p fn ms ps st l sol : ordinary c -> sees p fn ms ps st (c :: l) sol ->
  exists p', token rec p = Ok (true, p') /\ sees p' fn ms ps st l (c =? 10) /\ grows p p' [c].
Proof.
  intros (N1 & N2 & N3 & N4 & N5) S. destruct (sees_cursor _ _ _ _ _ _ _ S) as (pre & s & C & _).
  pose proof (cur_byte C) as B. pose proof (cur_read_char C) as A. reads A.
  exists (set_out (set_reader p r) (out_chars p ++ [c]) false). split; [| split].
  - unfold next_token. eapply run_bind; [done |]. eapply run_bind; [by apply pp_reader_run |].
    rewrite !(i8_eqb_ascii c) by (done || lia). rewrite initial_ident_char_i8, N5 by done.
    destruct (Z.eqb_spec c 39), (Z.eqb_spec c 34), (Z.eqb_spec c 35); try done. cbn [orb].
    destruct (Z.eqb_spec (i8 c) EOF) as [E'|].
    { apply (f_equal u8) in E'. rewrite Lex.u8_i8 in E' by done. done. }
    rewrite Lex.u8_i8 by done. eapply run_bind; [apply append_out_run; apply S | done].
  - apply sees_append. by eapply sees_move.
  - constructor; cbn; [done | done | apply T].
Qed.

Lemma is_name_first x : is_name x -> exists c s, x = c :: s /\ initial_ident_char c = true /\
  Forall (fun c => ident_char c = true) s.
Proof. destruct x as [|c s]; [done |]. intros []. by exists c, s. Qed.

Lemma initial_ident_not c d : initial_ident_char c = true -> initial_ident_char d = false -> (c =? d) = false.
Proof. intros H1 H2. destruct (Z.eqb_spec c d); [congruence | done]. Qed.

Lemma token_ident rec x p fn ms ps st l sol : is_name x -> ends_name l -> sees p fn ms ps st (x ++ l) sol ->
  exists r, token rec p = expand_symbol rec (reader_source_loc (pp_reader p)) x (set_reader p r) /\
    sees (set_reader p r) fn ms ps st l false /\ grows p (set_reader p r) [].
Proof.
  intros (c & s & -> & Hc & Hs)%is_name_first Hl S. destruct (sees_cursor _ _ _ _ _ _ _ S) as (pre & s0 & C & _).
  cbn [app] in C. pose proof (cur_byte C) as B. pose proof (cur_read_char C) as A. reads A.
  rewrite (initial_ident_not c 10 Hc) in C0 by done.
  destruct (ident_rest_loop s r _ l false C0 Hs Hl (Datatypes.S (length (buffer r)))) as (r1 & E1 & (sol1 & C1 & S1 & S2) & T1).
  { pose proof (cur_len C0) as (_ & _ & -> & _). rewrite !length_app. lia. }
  assert (sol1 = false) as -> by (destruct s; [by apply S2 | by apply S1]).
  rewrite <- app_assoc in C1. cbn [app] in C1.
  assert (T2 : same_text (pp_reader p) r1) by (by transitivity r).
  exists r1. split; [| split; [by eapply sees_move | by apply grows_reader]].
  unfold next_token. eapply run_bind; [done |]. eapply run_bind; [by apply pp_reader_run |].
  rewrite !(i8_eqb_ascii c) by (done || lia). rewrite initial_ident_char_i8, Hc by done.
  rewrite !(initial_ident_not c) by done. cbn [orb].
  destruct (Z.eqb_spec (i8 c) EOF) as [E'|].
  { apply (f_equal u8) in E'. rewrite Lex.u8_i8 in E' by done. by subst c. }
  unfold expand_ident. eapply run_bind; [done |]. cbn [pp_reader set_reader].
  assert (Ep : u32 (position r - 1) = Z.of_nat (length pre)).
  { pose proof (cur_len C0) as (_ & L & Eb & ->). rewrite Eb, !length_app in *. cbn in *. rewrite wrap_small; lia. }
  rewrite Ep. cbv zeta. eapply run_bind; [by apply (pp_reader_run _ (set_reader p r)) |].
  eapply run_bind; [done |]. cbn [pp_reader set_reader]. eapply run_bind; [| done].
  unfold lift. by rewrite (slice_at _ _ _ _ _ C1).
Qed.

Lemma token_name rec x p fn ms ps st l sol : is_name x -> ends_name l -> meaning ms ps x = None ->
  sees p fn ms ps st (x ++ l) sol ->
  exists p', token rec p = Ok (true, p') /\ sees p' fn ms ps st l false /\ grows p p' x.
Proof.
  intros Hx Hl Hm S. destruct (token_ident rec _ _ _ _ _ _ _ _ Hx Hl S) as (r & -> & S1 & G).
  exists (set_out (set_reader p r) (out_chars p ++ x) false). split; [| split; [by apply sees_append |]].
  - unfold expand_symbol. eapply run_bind; [done |]. cbn [curr_macro_params macro_env set_reader].
    destruct S. subst. unfold meaning in Hm. cbv zeta. rewrite Hm.
    eapply run_bind; [by apply append_out_run | done].
  - eapply grows_trans; [exact G | apply (grows_append (set_reader p r)) | done].
Qed.

Lemma look_up_self env x m : look_up_macro env (Some x) = Some m -> m_name m = x.
Proof.
  cbn. intros H. apply fmap_Some in H as ([i m'] & E & ->). by apply list_find_Some in E as (_ & E & _).
Qed.

(** A macro without parameters. *)
Lemma token_object rec x p fn ms ps st l sol m v out n : is_name x -> ends_name l -> meaning ms ps x = Some m ->
  arg_names m = [] -> variadic m = false -> m_value m = Some v -> text_ok v ->
  completes rec name_of_strings ms [] [] v false ms [] out n ->
  sees p fn ms ps st (x ++ l) sol -> macro_depth p + Z.of_nat (S n) < 2 ^ 32 -> 0 <= macro_depth p ->
  exists p', token rec p = Ok (true, p') /\ sees p' fn ms ps st l false /\ grows p p' out.
Proof.
  intros Hx Hl Hm Ha Hv Ev Tv Hc S Hd Hd0. destruct (token_ident rec _ _ _ _ _ _ _ _ Hx Hl S) as (r & -> & S1 & G).
  set (q := set_reader p r) in *. set (loc := reader_source_loc (pp_reader p)).
  destruct (adjustment_to_run BEGIN_MACRO_ADJUSTMENT loc (set_params q [])) as [a1 E1]; [done |].
  cbn [macro_depth set_params] in E1. set (q1 := set_depth _ _) in E1.
  assert (Ed : u32 (macro_depth q + 1) = macro_depth p + 1) by (subst q; cbn; rewrite wrap_small; lia).
  assert (Sq : sees q1 fn ms [] st l false) by (destruct S1; by constructor).
  assert (Dq : macro_depth q1 = macro_depth p + 1) by (subst q1; cbn; exact Ed).
  destruct (preprocess_string_run rec q1 fn ms [] st l false v out n Tv Hc Sq) as (q2 & E2 & S2 & G2); [lia | lia |].
  destruct (adjustment_to_run END_MACRO_ADJUSTMENT (reader_source_loc (pp_reader q2)) (set_params q2 ps)) as [a3 E3].
  { intros _. cbn. destruct G2 as [_ -> _]. lia. }
  cbn [macro_depth set_params] in E3. eexists. split; [| split].
  - unfold expand_symbol. eapply run_bind; [done |].
    replace (curr_macro_params q) with ps by (by destruct S1). replace (macro_env q) with ms by (by destruct S1).
    unfold meaning in Hm. cbv zeta. rewrite Hm, Ha, Hv. cbn [Nat.eqb length negb andb]. rewrite Ev.
    eapply run_bind; [done |]. eapply run_bind; [exact E1 |]. eapply run_bind; [exact E2 |]. cbv iota.
    eapply run_bind; [done |]. eapply run_bind; [| done]. unfold add_adjustment. eapply run_bind; [done |]. exact E3.
  - apply sees_depth, sees_adjust. destruct S2. by constructor.
  - destruct G as [_ _ L1], G2 as [O2 D2 L2]. constructor; cbn; [exact O2 | | by rewrite L2].
    rewrite D2, Dq. rewrite wrap_small; lia.
Qed.

(** *** Calls of macros with parameters *)

Lemma macroexpand_run rec p fn ms ps st l sol v out n : text_ok v ->
  completes rec name_of_strings ms ps [] v false ms [] out n ->
  sees p fn ms ps st l sol -> macro_depth p + Z.of_nat n < 2 ^ 32 -> 0 <= macro_depth p ->
  exists p', macroexpand rec (Some v) p = Ok (Some (cstr out), p') /\ sees p' fn ms ps st l sol /\ grows p p' [].
Proof.
  intros Hv Hc S Hd Hd0. set (q := set_out p [] false).
  assert (Sq : sees q fn ms ps st l sol) by (by apply sees_append).
  destruct (preprocess_string_run rec q fn ms ps st l sol v out n Hv Hc Sq Hd Hd0) as (q1 & E & S1 & [G1 G2 G3]).
  cbn in G1. eexists. split; [| split].
  - unfold macroexpand. eapply run_bind; [done |]. eapply run_bind; [done |]. eapply run_bind; [exact E |].
    eapply run_bind; [done |]. cbv iota. eapply run_bind; [apply append_out_run; apply S1 |]. eapply run_bind; [done |].
    by rewrite G1.
  - destruct S1, S. constructor; cbn; done.
  - constructor; cbn; [by rewrite app_nil_r | done | done].
Qed.

(** The span of the arguments. *)
Definition in_span (c : Z) : Prop := c <> 40 /\ c <> 41 /\ c <> 34 /\ c <> 39.
Lemma span_loop loc a : forall r pre l sol out fuel, cursor r pre (a ++ 41 :: l) sol -> Forall in_span a ->
  (length a < fuel)%nat ->
  exists r', loop_st fuel (span_body loc) out r = Ok (Some (out ++ a), r') /\ cursor r' (pre ++ a ++ [41]) l false /\ same_text r r'.
Proof.
  induction a as [|c a IH]; intros r pre l sol out [|fuel] C Hs Hf; cbn [length] in Hf; try lia; cbn [app] in C;
    pose proof (cur_read_char C) as A; reads A.
  - exists r0. rewrite app_nil_r. split; [| done]. apply loop_st_done. unfold span_body. eapply run_bind; [done |].
    rewrite (cur_not_end C). by eapply run_bind; [exact E |].
  - apply Forall_cons in Hs as [(N1 & N2 & N3 & N4) Hs].
    destruct (IH _ _ _ _ (out ++ [c]) fuel C0 Hs ltac:(lia)) as (r' & E' & C' & T').
    rewrite <- app_assoc in C', E'. cbn [app] in E'. exists r'. split; [| split; [done | by transitivity r0]].
    rewrite <- E'. apply loop_st_next. unfold span_body. eapply run_bind; [done |]. rewrite (cur_not_end C).
    eapply run_bind; [exact E |]. rewrite !(i8_eqb_ascii c) by (by eapply cur_byte || lia).
    destruct (Z.eqb_spec c 40), (Z.eqb_spec c 34), (Z.eqb_spec c 39), (Z.eqb_spec c 41); try done.
    cbn [orb]. by rewrite (Lex.u8_i8 c (cur_byte C)).
Qed.

Lemma arguments_span a raws : arguments a raws -> Forall in_span a.
Proof.
  assert (P : forall r, plain r -> Forall in_span r).
  { intros r [_ H]. eapply Forall_impl; [exact H |]. unfold in_span. intros c. tauto. }
  induction 1 as [r Hr|r w tl raws Hr Hw Hs Ha IH]; [by apply P |].
  apply Forall_app. split; [by apply P |]. apply Forall_cons. split; [by unfold in_span |].
  apply Forall_app. split; [| done]. eapply Forall_impl; [exact Hw |]. unfold blank, in_span. lia.
Qed.

Lemma white_blanks nl l w : Forall blank w -> white nl l w [].
Proof. induction 1; constructor; done. Qed.

(** Blanks at the front. *)
Lemma split_blanks l : exists w l', l = w ++ l' /\ Forall blank w /\ (match l' with c :: _ => ~ blank c | [] => True end).
Proof.
  induction l as [|c l (w & l' & -> & Hw & Hl)]; [by exists [], [] |].
  destruct (decide (c = 32 \/ c = 9)) as [Hc|Hc]; [exists (c :: w), l' | exists [], (c :: w ++ l')].
  - by split; [| split; [by apply Forall_cons |]].
  - done.
Qed.

Lemma on_args_run {A} (m : st Reader A) p ar a ar' : m (set_stderr ar (stderr (pp_reader p))) = Ok (a, ar') ->
  stderr ar' = stderr (pp_reader p) -> on_args ar m p = Ok ((a, ar'), p).
Proof.
  intros E Es. unfold on_args. eapply run_bind; [done |]. eapply run_bind; [unfold lift; by rewrite E |].
  eapply run_bind; [done |]. rewrite Es. by destruct p as [[] ].
Qed.

Lemma cursor_stderr r pre l sol e : cursor r pre l sol -> cursor (set_stderr r e) pre l sol.
Proof. intros [[] ? ?]. by repeat constructor. Qed.

Lemma cstr_id s : Forall (fun c => c <> 0) s -> cstr s = s.
Proof. induction 1 as [|c s Hc Hs IH]; [done |]. cbn. destruct (Z.eqb_spec c 0); [done |]. by rewrite IH. Qed.
Lemma strndup_at pre s suf : Forall (fun c => c <> 0) s -> Z.of_nat (length (pre ++ s)) < 2 ^ 31 ->
  strndup (pre ++ s ++ suf) (Z.of_nat (length pre)) (u32 (Z.of_nat (length (pre ++ s)) - Z.of_nat (length pre))) = Ok s.
Proof.
  intros Hs Hl. unfold strndup. rewrite Nat2Z.id, drop_app_length. rewrite !length_app in *. rewrite wrap_small by lia. zcases.
  f_equal. replace (Z.to_nat _) with (length s) by lia. rewrite take_app_length.
  by apply cstr_id.
Qed.

Definition arg_char (c : Z) : Prop :=
  c <> 0 /\ c <> 40 /\ c <> 41 /\ c <> 44 /\ c <> 34 /\ c <> 39 /\ c <> 47 /\ c <> 255.

(** The start of a turn: blanks, then a character. *)
Lemma args_turn_start {B} p ar pre w c tl sol (f : Z * Reader -> pp B) : Forall blank w -> c <> 32 -> c <> 9 -> c <> 47 ->
  cursor ar pre (w ++ c :: tl) sol ->
  exists ar', ('(_, ar) ← on_args ar (skip_whitespace_and_comments_from_reader false); on_args ar read_char ≫= f) p =
      f (i8 c, ar') p /\ (exists sol', cursor ar' (pre ++ w ++ [c]) tl sol').
Proof.
  intros Hw N1 N2 N3 C. apply (cursor_stderr _ _ _ _ (stderr (pp_reader p))) in C.
  assert (Hst : stops false (c :: tl)) by (by cbn; split_and!).
  destruct (reader_skip false (c :: tl) w [] _ _ _ (white_blanks _ _ _ Hw) Hst C) as (r1 & sol1 & E1 & C1 & _ & T1).
  apply (cursor_stderr _ _ _ _ (stderr (pp_reader p))) in C1. pose proof (cur_read_char C1) as A. reads A.
  exists r. split; [| eexists; by rewrite <- app_assoc in C0].
  erewrite st_bind_run; [| apply on_args_run; [exact E1 | apply T1]]. cbv beta iota.
  erewrite st_bind_run; [| apply on_args_run; [exact E | apply T]]. done.
Qed.

Lemma args_char_turn rec p ar pre w c tl sol start vals : Forall blank w -> arg_char c -> ~ blank c ->
  cursor ar pre (w ++ c :: tl) sol ->
  exists ar', args_body rec (ar, start, vals) p = Ok (inl (ar', start, vals), p) /\
    (exists sol', cursor ar' (pre ++ w ++ [c]) tl sol').
Proof.
  intros Hw (N0 & N1 & N2 & N3 & N4 & N5 & N6 & N7) Hb C. unfold blank in Hb.
  assert (B : is_u 8 c).
  { destruct C as [[E _ _ B] _ _]. rewrite E in B. rewrite !Forall_app, Forall_cons in B. tauto. }
  unfold args_body.
  match goal with |- context [on_args _ read_char ≫= ?f] => 
    destruct (args_turn_start p ar pre w c tl sol f Hw ltac:(tauto) ltac:(tauto) N6 C) as (ar' & E & C') end.
  exists ar'. split; [| done]. etransitivity; [exact E |].
  rewrite (i8_eqb_ascii c 40), (i8_eqb_ascii c 39), (i8_eqb_ascii c 34), (i8_eqb_ascii c 44) by (done || lia).
  destruct (Z.eqb_spec c 40), (Z.eqb_spec c 39), (Z.eqb_spec c 34), (Z.eqb_spec c 44); try done.
  destruct (Z.eqb_spec (i8 c) EOF) as [E'|]; [| done].
  apply (f_equal u8) in E'. by rewrite Lex.u8_i8 in E'.
Qed.

(** The characters of an argument up to its trailing blanks. *)
Lemma args_scan rec p start vals n : forall s ar pre rest sol, (length s <= n)%nat -> Forall arg_char s ->
  cursor ar pre (s ++ rest) sol ->
  exists k ar' pre' w, (k <= length s)%nat /\
    (forall m, loop_st (k + m) (args_body rec) (ar, start, vals) p = loop_st m (args_body rec) (ar', start, vals) p) /\
    Forall blank w /\ pre' ++ w = pre ++ s /\ (exists sol', cursor ar' pre' (w ++ rest) sol').
Proof.
  induction n as [|n IH]; intros s ar pre rest sol Hn Hs C.
  - destruct s; [| cbn in Hn; lia]. exists 0%nat, ar, pre, []. rewrite app_nil_r. split_and!; try done. by exists sol.
  - destruct (split_blanks s) as (w & s1 & -> & Hw & Hs1). apply Forall_app in Hs as [_ Hs]. destruct s1 as [|c s1].
    + exists 0%nat, ar, pre, w. rewrite app_nil_r in *. split_and!; try done; [lia | by exists sol].
    + apply Forall_cons in Hs as [Hc Hs]. rewrite <- app_assoc in C. cbn [app] in C.
      destruct (args_char_turn rec p ar pre w c (s1 ++ rest) sol start vals Hw Hc Hs1 C) as (ar1 & E1 & sol1 & C1).
      rewrite length_app in Hn. cbn in Hn.
      destruct (IH s1 ar1 _ rest sol1 ltac:(lia) Hs C1) as (k & ar' & pre' & w' & Hk & Hloop & Hw' & Epre & C').
      exists (Datatypes.S k), ar', pre', w'. rewrite length_app. cbn [length]. split_and!; try done; [lia | |].
      * intros m. cbn [Nat.add]. rewrite (loop_st_next _ _ _ _ _ _ E1). apply Hloop.
      * rewrite Epre, <- !app_assoc. done.
Qed.

Lemma args_end_turn rec p fn ms ps st l sol0 n ar pre pre0 w raw sol vals val : Forall blank w -> raw <> [] ->
  pre ++ w = pre0 ++ raw -> Forall (fun c => c <> 0) raw -> text_ok raw ->
  completes rec name_of_strings ms ps [] raw false ms [] val n ->
  sees p fn ms ps st l sol0 -> macro_depth p + Z.of_nat n < 2 ^ 32 -> 0 <= macro_depth p ->
  cursor ar pre w sol ->
  exists p', args_body rec (ar, Z.of_nat (length pre0), vals) p = Ok (inr (Some (vals ++ [Some (cstr val)])), p') /\
    sees p' fn ms ps st l sol0 /\ grows p p' [].
Proof.
  intros Hw Hraw Epre Hz Tr Hc S Hd Hd0 C. apply (cursor_stderr _ _ _ _ (stderr (pp_reader p))) in C.
  rewrite <- (app_nil_r w) in C.
  destruct (reader_skip false [] w [] _ _ _ (white_blanks _ _ _ Hw) I C) as (r1 & sol1 & E1 & C1 & _ & T1).
  apply (cursor_stderr _ _ _ _ (stderr (pp_reader p))) in C1.
  destruct (cur_len C1) as (P1 & P2 & P3 & P4). cbn [length] in P1.
  destruct (end_read_char _ (cur_end C1) P2) as (r2 & E2 & _ & T2 & Ep); [lia |].
  destruct (macroexpand_run rec p fn ms ps st l sol0 raw val n Tr Hc S Hd Hd0) as (p' & E & S' & G).
  exists p'. split; [| done]. unfold args_body.
  erewrite st_bind_run; [| apply on_args_run; [exact E1 | apply T1]]. cbv beta iota.
  erewrite st_bind_run; [| apply on_args_run; [exact E2 | apply T2]]. cbv beta iota.
  change (EOF) with (-1). cbn [Z.eqb Pos.eqb orb].
  assert (Hpos : u32 (position r2 - 1) = Z.of_nat (length (pre ++ w))).
  { rewrite Ep, P4. rewrite app_nil_r in P3. rewrite P3 in P2. rewrite wrap_small; lia. }
  cbv zeta. rewrite Hpos, Epre. destruct (Z.eqb_spec (Z.of_nat (length (pre0 ++ raw))) (Z.of_nat (length pre0))) as [E0|_].
  { rewrite length_app in E0. destruct raw; [done |]. cbn in E0. lia. }
  erewrite (st_bind_run _ _ _ (vals ++ [Some (cstr val)]) p'); [done |].
  assert (Eb : buffer r2 = pre0 ++ raw ++ []).
  { destruct T2 as (-> & _). rewrite P3, !app_nil_r. by rewrite Epre. }
  rewrite Eb. eapply run_bind; [unfold lift; rewrite strndup_at; [done | done |] |].
  { rewrite <- Epre. rewrite P3, app_nil_r in P2. done. }
  eapply run_bind; [exact E | done].
Qed.

Lemma args_comma_turn rec p fn ms ps st l sol0 n ar pre pre0 w w' tl raw sol vals val : Forall blank w -> raw <> [] ->
  pre ++ w = pre0 ++ raw -> Forall (fun c => c <> 0) raw -> text_ok raw -> Forall blank w' -> stops false tl ->
  completes rec name_of_strings ms ps [] raw false ms [] val n ->
  sees p fn ms ps st l sol0 -> macro_depth p + Z.of_nat n < 2 ^ 32 -> 0 <= macro_depth p ->
  cursor ar pre (w ++ 44 :: w' ++ tl) sol ->
  exists p' ar', args_body rec (ar, Z.of_nat (length pre0), vals) p =
      Ok (inl (ar', Z.of_nat (length (pre ++ w ++ 44 :: w')), vals ++ [Some (cstr val)]), p') /\
    sees p' fn ms ps st l sol0 /\ grows p p' [] /\ (exists sol', cursor ar' (pre ++ w ++ 44 :: w') tl sol').
Proof.
  intros Hw Hraw Epre Hz Tr Hw' Htl Hc S Hd Hd0 C.
  destruct (macroexpand_run rec p fn ms ps st l sol0 raw val n Tr Hc S Hd Hd0) as (p' & E & S' & G).
  assert (H44 : 44 <> 32 /\ 44 <> 9 /\ 44 <> 47) by lia. destruct H44 as (H1 & H2 & H3).
  unfold args_body. match goal with |- context [on_args _ read_char ≫= ?f] =>
    destruct (args_turn_start p ar pre w 44 _ sol f Hw H1 H2 H3 C) as (ar1 & E1 & sol1 & C1) end.
  destruct (cur_len C1) as (_ & P2 & P3 & P4).
  apply (cursor_stderr _ _ _ _ (stderr (pp_reader p'))) in C1.
  destruct (reader_skip false tl w' [] _ _ _ (white_blanks _ _ _ Hw') Htl C1) as (ar2 & sol2 & E2 & C2 & _ & T2).
  exists p', ar2. split; [| split; [done |]; split; [done |]].
  - etransitivity; [exact E1 |]. change (i8 44) with 44. unfold EOF. cbn [Z.eqb Pos.eqb orb].
    assert (Hpos : u32 (position ar1 - 1) = Z.of_nat (length (pre0 ++ raw))).
    { rewrite P4, <- Epre. rewrite P3 in P2. rewrite !length_app in *. cbn in *. rewrite wrap_small; lia. }
    cbv zeta. rewrite Hpos. destruct (Z.eqb_spec (Z.of_nat (length (pre0 ++ raw))) (Z.of_nat (length pre0))) as [E0|_].
    { rewrite length_app in E0. destruct raw; [done |]. cbn in E0. lia. }
    erewrite (st_bind_run _ _ _ (vals ++ [Some (cstr val)]) p').
    + erewrite st_bind_run; [| apply on_args_run; [exact E2 | apply T2]]. cbv beta iota.
      destruct (cur_len C2) as (_ & _ & _ & ->). by rewrite <- !app_assoc.
    + assert (Eb : buffer ar1 = pre0 ++ raw ++ 44 :: w' ++ tl).
      { rewrite P3, <- !app_assoc. cbn [app]. rewrite (app_assoc pre), Epre. by rewrite <- app_assoc. }
      rewrite Eb. eapply run_bind; [unfold lift; rewrite strndup_at; [done | done |] |].
      { rewrite P3, <- !app_assoc in P2. rewrite (app_assoc pre), Epre in P2. rewrite length_app in P2. lia. }
      eapply run_bind; [exact E | done].
  - exists sol2. by rewrite <- !app_assoc in C2.
Qed.

Lemma plain_chars r : plain r -> r <> [] /\ Forall arg_char r /\ Forall (fun c => c <> 0) r.
Proof.
  intros [H1 H2]. split; [done |]. split; [exact H2 |]. eapply Forall_impl; [exact H2 |]. cbn. tauto.
Qed.

Lemma args_loop rec fn ms ps st l sol0 n a : forall args, arguments a (map arg_text args) ->
  (forall r, r ∈ map arg_text args -> text_ok r) ->
  (forall g, g ∈ args -> completes rec name_of_strings ms ps [] (arg_text g) false ms [] (arg_value g) n) ->
  forall p ar pre sol vals fuel,
  sees p fn ms ps st l sol0 -> macro_depth p + Z.of_nat n < 2 ^ 32 -> 0 <= macro_depth p ->
  cursor ar pre a sol -> (length a < fuel)%nat ->
  exists p', loop_st fuel (args_body rec) (ar, Z.of_nat (length pre), vals) p =
      Ok (Some (vals ++ map (fun g => Some (cstr (arg_value g))) args), p') /\
    sees p' fn ms ps st l sol0 /\ grows p p' [].
Proof.
  intros args Ha. remember (map arg_text args) as raws eqn:Er. revert args Er.
  induction Ha as [r Hr|r w tl raws Hr Hw Hs Ha IH]; intros args Er Ht Hc p ar pre sol vals fuel S Hd Hd0 C Hf.
  - destruct args as [|g [|g' args]]; [done | | done]. injection Er as ->. destruct (plain_chars _ Hr) as (R1 & R2 & R3).
    rewrite <- (app_nil_r (arg_text g)) in C.
    destruct (args_scan rec p (Z.of_nat (length pre)) vals _ (arg_text g) ar pre [] sol (Nat.le_refl _) R2 C)
      as (k & ar1 & pre1 & w1 & Hk & Hloop & Hw1 & Epre & sol1 & C1). rewrite app_nil_r in C1.
    destruct (args_end_turn rec p fn ms ps st l sol0 n ar1 pre1 pre w1 (arg_text g) sol1 vals (arg_value g))
      as (p' & E & S' & G'); try done; [apply Ht, list_elem_of_singleton; done | apply Hc, list_elem_of_singleton; done |].
    exists p'. split; [| done]. replace fuel with (k + Datatypes.S (fuel - k - 1))%nat by lia. rewrite Hloop.
    by apply loop_st_done.
  - destruct args as [|g args]; [done |]. injection Er as -> ->. destruct (plain_chars _ Hr) as (R1 & R2 & R3).
    cbn [map] in Ht. rewrite length_app in Hf. cbn [length] in Hf. rewrite length_app in Hf.
    destruct (args_scan rec p (Z.of_nat (length pre)) vals _ (arg_text g) ar pre _ sol (Nat.le_refl _) R2 C)
      as (k & ar1 & pre1 & w1 & Hk & Hloop & Hw1 & Epre & sol1 & C1).
    destruct (args_comma_turn rec p fn ms ps st l sol0 n ar1 pre1 pre w1 w tl (arg_text g) sol1 vals (arg_value g))
      as (p1 & ar2 & E & S1 & G1 & sol2 & C2); try done; [apply Ht; by constructor | apply Hc; by constructor |].
    destruct (IH args eq_refl) with (p := p1) (ar := ar2) (pre := pre1 ++ w1 ++ 44 :: w) (sol := sol2)
      (vals := vals ++ [Some (cstr (arg_value g))]) (fuel := (fuel - k - 1)%nat) as (p' & E' & S' & G'); try done.
    { intros r Hin. apply Ht. by constructor. } { intros g' Hin. apply Hc. by constructor. }
    { by rewrite (grows_depth _ _ _ G1). } { by rewrite (grows_depth _ _ _ G1). } { lia. }
    exists p'. split; [| split; [done | by eapply grows_trans]].
    replace fuel with (k + Datatypes.S (fuel - k - 1))%nat at 1 by lia. rewrite Hloop.
    rewrite (loop_st_next _ _ _ _ _ _ E), E'. by rewrite <- app_assoc.
Qed.

Lemma spliceless_prefix a b : spliceless (a ++ b) = true -> spliceless a = true.
Proof.
  induction a as [|c a IH]; [done |]. cbn [app spliceless]. intros H. bsplit. rewrite IH by done. rewrite andb_true_r.
  destruct a; [by rewrite andb_false_r | cbn in H; by rewrite H].
Qed.

Lemma sees_text p fn ms ps st a l sol : sees p fn ms ps st (a ++ l) sol -> text_ok a.
Proof.
  intros [(pre & s & C & _) _ _ _ _ _]. destruct (cur_len C) as (_ & L & E & _). destruct C as [[_ _ _ B] Hs _].
  rewrite E in *. rewrite !Forall_app in B. rewrite !length_app in L. constructor; [tauto | by eapply spliceless_prefix | lia].
Qed.

Definition arg_params (m : Macro) (args : list Arg) : list Macro :=
  zip_with param_macro (arg_names m) (map (fun g => Some (cstr (arg_value g))) args).

Lemma substitute_run rec m p fn ms ps st a l sol n args : arguments a (map arg_text args) ->
  length args = length (arg_names m) -> variadic m = false ->
  (forall r, r ∈ map arg_text args -> text_ok r) ->
  (forall g, g ∈ args -> completes rec name_of_strings ms ps [] (arg_text g) false ms [] (arg_value g) n) ->
  sees p fn ms ps st (a ++ 41 :: l) sol -> macro_depth p + Z.of_nat n < 2 ^ 32 -> 0 <= macro_depth p ->
  exists p', substitute_macro_params rec m p = Ok (true, p') /\ sees p' fn ms (arg_params m args) st l false /\ grows p p' [].
Proof.
  intros Ha Hlen Hv Ht Hc S Hd Hd0. destruct (sees_cursor _ _ _ _ _ _ _ S) as (pre & s & C & _).
  destruct (span_loop (reader_source_loc (pp_reader p)) a _ _ _ _ [] (Datatypes.S (length (buffer (pp_reader p)))) C)
    as (r & E & C1 & T); [by eapply arguments_span | |].
  { pose proof (cur_len C) as (_ & _ & -> & _). rewrite !length_app. lia. }
  set (q := set_reader p r). pose proof (sees_move S C1 T) as Sq. fold q in Sq.
  pose proof (sees_text _ _ _ _ _ _ _ _ S) as Ta.
  destruct (args_loop rec fn ms ps st l false n a args Ha Ht Hc q (reader_init a [] false (Some "??"%string)) [] false []
    (Datatypes.S (Datatypes.S (length a))) Sq) as (q' & E' & S' & G'); try done.
  { destruct Ta. constructor; [by repeat constructor | done | done]. } { lia. }
  exists (set_params q' (arg_params m args)). split; [| split].
  - unfold substitute_macro_params. eapply run_bind; [done |]. eapply run_bind; [by apply pp_reader_run |]. cbv iota. cbn [app].
    eapply run_bind; [exact E' |]. cbv iota zeta. rewrite app_nil_l, length_map, Hlen, Nat.eqb_refl, Hv. cbn [negb andb orb].
    rewrite Nat.ltb_irrefl. eapply run_bind; [done |]. rewrite app_nil_r. done.
  - destruct S'. by constructor.
  - apply (grows_trans p q _ [] []); [by apply grows_reader | | done]. destruct G'. by constructor.
Qed.

(** The blank after an expansion. *)
Lemma trailing_run p fn ms ps st l sol : sees p fn ms ps st l sol ->
  let next_char := peek_char (pp_reader p) in
  exists p', (if negb (next_char =? 32) && negb (next_char =? 10) && negb (next_char =? EOF)
              then append_out [32] else mret tt) p = Ok (tt, p') /\
    sees p' fn ms ps st l sol /\ grows p p' (trailing_blank l) /\ macro_depth p' = macro_depth p.
Proof.
  intros S next_char. destruct (sees_cursor _ _ _ _ _ _ _ S) as (pre & s & C & _). subst next_char.
  destruct l as [|c l]; unfold trailing_blank.
  - rewrite (cur_peek_end C). exists p. split; [done |]. split; [done |]. split; [apply grows_refl | done].
  - rewrite !(cur_peek_eqb C) by lia. pose proof (cur_byte C) as B.
    replace (peek_char (pp_reader p) =? EOF) with (c =? 255).
    2: { rewrite (cur_peek C). unfold EOF, is_u in *. unfold sgn. rewrite wrap_small by lia. zcases. }
    destruct (c =? 32), (c =? 10), (c =? 255); cbn [negb andb orb];
      try (exists p; split; [done |]; split; [done |]; split; [apply grows_refl | done]).
    exists (set_out p (out_chars p ++ [32]) false). split; [apply append_out_run, S |].
    split; [by apply sees_append |]. split; [apply grows_append | done].
Qed.

Lemma token_call rec x w nls a p fn ms ps st l sol m v args out n : is_name x -> ends_name (w ++ 40 :: a ++ 41 :: l) ->
  meaning ms ps x = Some m -> arg_names m <> [] -> variadic m = false -> m_value m = Some v -> text_ok v ->
  white true (40 :: a ++ 41 :: l) w nls ->
  arguments a (map arg_text args) -> length args = length (arg_names m) ->
  (forall r, r ∈ map arg_text args -> text_ok r) ->
  (forall g, g ∈ args -> completes rec name_of_strings ms ps [] (arg_text g) false ms [] (arg_value g) n) ->
  completes rec name_of_strings ms (arg_params m args) [] v false ms [] out n ->
  sees p fn ms ps st (x ++ w ++ 40 :: a ++ 41 :: l) sol -> macro_depth p + Z.of_nat (S n) < 2 ^ 32 -> 0 <= macro_depth p ->
  exists p', token rec p = Ok (true, p') /\ sees p' fn ms ps st l false /\ grows p p' (nls ++ out ++ trailing_blank l).
Proof.
  intros Hx Hl Hm Hn Hv Ev Tv Hw Ha Hlen Ht Hargs Hc S Hd Hd0.
  destruct (token_ident rec _ _ _ _ _ _ _ _ Hx Hl S) as (r & -> & S1 & G1).
  set (q := set_reader p r) in *. set (loc := reader_source_loc (pp_reader p)).
  assert (Hst : stops true (40 :: a ++ 41 :: l)) by (by cbn; split_and!).
  destruct (pp_skip true _ w nls q _ _ _ _ _ Hw Hst S1) as (q1 & sol1 & E1 & S2 & G2 & _).
  destruct (sees_cursor _ _ _ _ _ _ _ S2) as (pre & s & C & _). destruct (cur_expect C 40) as (r2 & E2 & T2 & C2); [lia |].
  cbn [Z.eqb Pos.eqb] in E2, C2. pose proof (sees_move S2 C2 T2) as S3. set (q2 := set_reader q1 r2) in *.
  destruct (adjustment_to_run BEGIN_MACRO_ADJUSTMENT loc q2) as [a1 E3]; [done |]. set (q3 := set_depth _ _) in E3.
  assert (Dq : macro_depth q2 = macro_depth p) by (transitivity (macro_depth q1); [done | rewrite (grows_depth _ _ _ G2); apply G1]).
  assert (D3 : macro_depth q3 = macro_depth p + 1) by (cbn; change (macro_depth q1) with (macro_depth q2); rewrite Dq, wrap_small; lia).
  assert (Sq3 : sees q3 fn ms ps st (a ++ 41 :: l) (40 =? 10)) by (by apply sees_depth, sees_adjust).
  destruct (substitute_run rec m q3 fn ms ps st a l _ n args Ha Hlen Hv Ht Hargs Sq3) as (q4 & E4 & S4 & G4); [lia | lia |].
  destruct (preprocess_string_run rec q4 fn ms _ st l false v out n Tv Hc S4) as (q5 & E5 & S5 & G5);
    [rewrite (grows_depth _ _ _ G4); lia | rewrite (grows_depth _ _ _ G4); lia |].
  set (q6 := set_params q5 ps). assert (S6 : sees q6 fn ms ps st l false) by (destruct S5; by constructor).
  destruct (trailing_run q6 fn ms ps st l false S6) as (q7 & E7 & S7 & G7 & D7).
  assert (D6 : macro_depth q7 = macro_depth p + 1).
  { rewrite D7. cbn. rewrite (grows_depth _ _ _ G5), (grows_depth _ _ _ G4). done. }
  destruct (adjustment_to_run END_MACRO_ADJUSTMENT (reader_source_loc (pp_reader q7)) q7) as [a8 E8]; [intros _; lia |].
  eexists. split; [| split; [exact (sees_depth (u32 (macro_depth q7 - 1)) (sees_adjust a8 S7)) |]].
  - unfold expand_symbol. eapply run_bind; [done |].
    replace (curr_macro_params q) with ps by (by destruct S1). replace (macro_env q) with ms by (by destruct S1).
    unfold meaning in Hm. cbv zeta. rewrite Hm, Hv. destruct (arg_names m) as [|] eqn:En; [done |]. cbn [Nat.eqb length andb].
    eapply run_bind; [exact E1 |]. eapply run_bind; [by apply pp_reader_run |]. cbn [negb]. cbv iota.
    eapply run_bind; [exact E3 |]. eapply run_bind; [exact E4 |]. cbn [negb]. cbv iota. rewrite Ev.
    eapply run_bind; [exact E5 |]. cbn [negb]. cbv iota. eapply run_bind; [done |]. eapply run_bind; [done |].
    eapply run_bind; [exact E7 |]. eapply run_bind; [| done]. unfold add_adjustment. eapply run_bind; [done |]. exact E8.
  - assert (G : grows q3 q7 (out ++ trailing_blank l)).
    { assert (G8 : grows q5 q7 (trailing_blank l)) by (destruct G7; by constructor).
      eapply grows_trans; [exact G4 | | done]. eapply grows_trans; [exact G5 | exact G8 | done]. }
    assert (G0 : grows p q1 nls) by (eapply grows_trans; [exact G1 | exact G2 | done]).
    destruct G as [O _ L], G0 as [O0 _ L0]. constructor; cbn.
    + rewrite O. change (out_chars q3) with (out_chars q1). by rewrite O0, <- app_assoc.
    + rewrite D6, wrap_small; lia.
    + rewrite L, <- L0. apply T2.
Qed.

(** *** Directives *)

(** The state at a text, whatever the flag of the reader. *)
Definition sees_line (p : PP) fn ms ps st l : Prop := exists sol, sees p fn ms ps st l sol.

Lemma sees_move_at p fn ms ps st suf sol pre suf' r : sees p fn ms ps st suf sol -> at_ r pre suf' ->
  spliceless suf' = true -> same_text (pp_reader p) r -> sees_line (set_reader p r) fn ms ps st suf'.
Proof. intros S A H T. exists (at_start_of_line r). eapply sees_move; [done | | done]. by constructor. Qed.

Lemma sees_spliceless p fn ms ps st l sol : sees p fn ms ps st l sol -> spliceless l = true.
Proof. intros [(? & ? & [] & _) _ _ _ _ _]. done. Qed.

Lemma line_skip l w p fn ms ps st : white false l w [] -> stops false l -> sees_line p fn ms ps st (w ++ l) ->
  exists p', skip_whitespace_and_comments false p = Ok (tt, p') /\ sees_line p' fn ms ps st l /\ grows p p' [].
Proof.
  intros Hw Hl [sol S]. destruct (pp_skip _ _ _ _ _ _ _ _ _ _ Hw Hl S) as (p' & sol' & E & S' & G & _).
  exists p'. split; [done |]. split; [by exists sol' | done].
Qed.

Lemma stops_name x l : is_name x -> stops false (x ++ l).
Proof.
  intros (c & s & -> & Hc & _)%is_name_first. cbn.
  split_and!; [by intros -> | by intros -> | done | intros ->; done].
Qed.

Lemma line_symbol x l p fn ms ps st : is_name x -> ends_name l -> sees_line p fn ms ps st (x ++ l) ->
  exists p', on_reader read_symbol p = Ok (Some x, p') /\ sees_line p' fn ms ps st l /\ grows p p' [].
Proof.
  intros (c & s & -> & Hc & Hs)%is_name_first Hl [sol S]. destruct (sees_cursor _ _ _ _ _ _ _ S) as (pre & s0 & C & _).
  pose proof (sees_spliceless _ _ _ _ _ _ _ S) as Hsp. apply spliceless_app in Hsp.
  destruct (read_symbol_at _ _ _ _ _ (cur_at _ _ _ _ C) Hc Hs Hl) as (r & E & A & T); [by apply spliceless_no_splice |].
  exists (set_reader p r). split; [by apply pp_reader_run |]. split; [by eapply sees_move_at | by apply grows_reader].
Qed.

Lemma line_expect d c l p fn ms ps st : 0 <= d < 128 -> sees_line p fn ms ps st (c :: l) -> c <> d ->
  on_reader (expect_char d) p = Ok (false, p).
Proof.
  intros Hd [sol S] Hc. destruct (sees_cursor _ _ _ _ _ _ _ S) as (pre & s0 & C & _).
  unfold on_reader, zoom. rewrite (expect_char_no _ _ _ _ _ (cur_at _ _ _ _ C)) by done.
  destruct p. done.
Qed.

Lemma line_env p fn ms ps st l : sees_line p fn ms ps st l -> macro_env p = ms /\ pp_scope_stack p = st /\
  ignoring_chars p = ignoring st.
Proof. intros [sol []]. split; [done |]. split; [done |]. unfold ignoring_chars. by subst. Qed.

(** A change of the macros or of the open conditionals. *)
Lemma line_set_stack p fn ms ps st l st' : sees_line p fn ms ps st l -> sees_line (set_stack p st') fn ms ps st' l.
Proof. intros [sol []]. exists sol. by constructor. Qed.
Lemma line_set_env p fn ms ps st l ms' : sees_line p fn ms ps st l -> sees_line (set_env p ms') fn ms' ps st l.
Proof. intros [sol []]. exists sol. by constructor. Qed.
Lemma grows_same p p' : out_chars p' = out_chars p -> macro_depth p' = macro_depth p -> pp_reader p' = pp_reader p ->
  grows p p' [].
Proof. intros E1 E2 E3. constructor; [by rewrite app_nil_r | done | by rewrite E3]. Qed.

Ltac line L := 
  match type of L with
  | exists p, _ /\ _ /\ _ =>
      let p := fresh "p" in let E := fresh "E" in let S := fresh "S" in let G := fresh "G" in
      destruct L as (p & E & S & G)
  end.

Definition performs (m : pp bool) p fn ms' ps st' rest : Prop :=
  exists p', m p = Ok (true, p') /\ sees_line p' fn ms' ps st' rest /\ grows p p' [].

Lemma grows_nil p q s : grows p q [] -> grows q s [] -> grows p s [].
Proof. intros. by eapply grows_trans. Qed.

Lemma start_pp_if_run cond p fn ms ps st l : sees_line p fn ms ps st l ->
  start_pp_if cond p = Ok (tt, set_stack p (mkScope (negb (ignoring st) && cond) THEN :: st)).
Proof.
  intros (_ & E & _)%line_env. unfold start_pp_if, modify. rewrite E. destruct st as [|[[] ] st]; done.
Qed.

Lemma pp_ifdef_run positive range w x rest p fn ms ps st :
  white false (x ++ rest) w [] -> is_name x -> ends_name rest -> sees_line p fn ms ps st (w ++ x ++ rest) ->
  performs (pp_ifdef positive range) p fn ms ps
    (mkScope (negb (ignoring st) && Bool.eqb positive (defined ms x)) THEN :: st) rest.
Proof.
  intros Hw Hx Hr S. pose proof (line_skip _ _ _ _ _ _ _ Hw (stops_name _ _ Hx) S) as L. line L.
  pose proof (line_symbol _ _ _ _ _ _ _ Hx Hr S0) as L. line L.
  eexists. split; [| split].
  - unfold pp_ifdef. eapply run_bind; [exact E |]. eapply run_bind; [exact E0 |]. cbv iota. eapply run_bind; [done |].
    eapply run_bind; [by apply (start_pp_if_run _ _ _ _ _ _ _ S1) | done].
  - destruct (line_env _ _ _ _ _ _ S1) as (-> & _). by eapply line_set_stack.
  - eapply grows_nil; [done |]. eapply grows_nil; [done |]. by apply grows_same.
Qed.

Lemma skip_line_loop s : forall r pre l sol fuel, cursor r pre (s ++ 10 :: l) sol -> Forall (fun c => c <> 10) s ->
  (length s < fuel)%nat ->
  exists r', loop_st fuel skip_line_body tt r = Ok (tt, r') /\ at_ r' (pre ++ s) (10 :: l) /\ same_text r r'.
Proof.
  induction s as [|c s IH]; intros r pre l sol [|fuel] C Hs Hf; cbn [length] in Hf; try lia; cbn [app] in C.
  - exists r. rewrite app_nil_r. split; [| split; [apply C | done]]. apply loop_st_done.
    unfold skip_line_body, mbind, st_bind, get. rewrite (cur_not_end C), (cur_peek_eqb C) by lia. done.
  - apply Forall_cons in Hs as [Hc Hs]. pose proof (cur_advance C) as A. reads A.
    destruct (IH _ _ _ _ fuel C0 Hs ltac:(lia)) as (r' & E' & A' & T').
    exists r'. rewrite <- app_assoc in A'. split; [| split; [done | by transitivity r0]].
    rewrite <- E'. apply loop_st_next. unfold skip_line_body, mbind, st_bind, get.
    rewrite (cur_not_end C), (cur_peek_eqb C) by lia. destruct (Z.eqb_spec c 10); [done |]. cbn [negb andb]. by rewrite E.
Qed.

Lemma pp_if_ignored rec s l p fn ms ps st : ignoring st = true -> Forall (fun c => c <> 10) s ->
  sees_line p fn ms ps st (s ++ 10 :: l) ->
  performs (pp_if parse_expr rec) p fn ms ps (mkScope false THEN :: st) (10 :: l).
Proof.
  intros Hi Hs S. destruct S as [sol S]. destruct (sees_cursor _ _ _ _ _ _ _ S) as (pre & s0 & C & _).
  destruct (skip_line_loop s _ _ _ _ (Datatypes.S (length (buffer (pp_reader p)))) C Hs) as (r & E & A & T).
  { pose proof (cur_len C) as (_ & _ & -> & _). rewrite !length_app. lia. }
  pose proof (sees_spliceless _ _ _ _ _ _ _ S) as Hsp. apply spliceless_app in Hsp.
  pose proof (sees_move_at _ _ _ _ _ _ _ _ _ _ S A Hsp T) as S1.
  eexists. split; [| split].
  - unfold pp_if. eapply run_bind; [done |]. destruct (line_env p fn ms ps st (s ++ 10 :: l)) as (_ & _ & ->); [by exists sol |].
    rewrite Hi. eapply run_bind; [by apply pp_reader_run |]. eapply run_bind; [by apply (start_pp_if_run _ _ _ _ _ _ _ S1) | done].
  - rewrite andb_false_r. by eapply line_set_stack.
  - eapply grows_nil; [by apply grows_reader |]. by apply grows_same.
Qed.
Lemma pp_elif_taken rec range pos parents p fn ms ps rest : sees_line p fn ms ps (mkScope true pos :: parents) rest ->
  performs (pp_elif parse_expr rec range) p fn ms ps (mkScope false ELSE :: parents) rest.
Proof.
  intros S. pose proof (line_env _ _ _ _ _ _ S) as (_ & E & _). eexists. split; [| split].
  - unfold pp_elif. eapply run_bind; [done |]. rewrite E. cbn [condition negb]. eapply run_bind; done.
  - rewrite E. by eapply line_set_stack.
  - by apply grows_same.
Qed.

Lemma pp_else_run range b parents p fn ms ps rest : sees_line p fn ms ps (mkScope b THEN :: parents) rest ->
  performs (pp_else range) p fn ms ps (mkScope (negb (ignoring parents) && negb b) ELSE :: parents) rest.
Proof.
  intros S. pose proof (line_env _ _ _ _ _ _ S) as (_ & E & _). eexists. split; [| split].
  - unfold pp_else. eapply run_bind; [done |]. rewrite E. cbn [scope_position condition bool_decide]. eapply run_bind; done.
  - rewrite E. cbn [tail]. replace (negb (ignoring parents) && negb b) with
      (match parents with parent :: _ => if negb (condition parent) then false else negb b | [] => negb b end)
      by (by destruct parents as [|[[] ] ?]). by eapply line_set_stack.
  - by apply grows_same.
Qed.

Lemma pp_endif_run range top parents p fn ms ps rest : sees_line p fn ms ps (top :: parents) rest ->
  performs (pp_endif range) p fn ms ps parents rest.
Proof.
  intros S. pose proof (line_env _ _ _ _ _ _ S) as (_ & E & _). eexists. split; [| split].
  - unfold pp_endif. eapply run_bind; [done |]. rewrite E. eapply run_bind; done.
  - by eapply line_set_stack.
  - by apply grows_same.
Qed.

Lemma value_loop v : forall r pre l sol out fuel, cursor r pre (v ++ 10 :: l) sol -> Forall (fun c => c <> 10 /\ c <> 0) v ->
  (length v < fuel)%nat ->
  exists r', loop_st fuel value_body out r = Ok (out ++ v, r') /\ at_ r' (pre ++ v) (10 :: l) /\ same_text r r'.
Proof.
  induction v as [|c v IH]; intros r pre l sol out [|fuel] C Hs Hf; cbn [length] in Hf; try lia; cbn [app] in C.
  - exists r. rewrite !app_nil_r. split; [| split; [apply C | done]]. apply loop_st_done.
    unfold value_body, mbind, st_bind, peek. rewrite (cur_peek_eqb C) by lia. done.
  - apply Forall_cons in Hs as [[Hc _] Hs]. pose proof (cur_read_char C) as A. reads A.
    destruct (IH _ _ _ _ (out ++ [c]) fuel C0 Hs ltac:(lia)) as (r' & E' & A' & T').
    rewrite <- app_assoc in A', E'. cbn [app] in E'. exists r'. split; [| split; [done | by transitivity r0]].
    rewrite <- E'. apply loop_st_next. unfold value_body. eapply run_bind; [done |].
    rewrite (cur_peek_eqb C) by lia. destruct (Z.eqb_spec c 10); [done |]. eapply run_bind; [exact E |].
    by rewrite (Lex.u8_i8 c (cur_byte C)).
Qed.

Lemma define_run m range p fn ms ps st l : sees_line p fn ms ps st l ->
  (forall m', look_up_macro ms (Some (m_name m)) = Some m' -> length (arg_names m') = length (arg_names m)) ->
  performs (define_macro m range) p fn (define ms m) ps st l.
Proof.
  intros S Hm. pose proof (line_env _ _ _ _ _ _ S) as (E & _). exists (set_env p (define ms m)).
  split; [| split; [by eapply line_set_env | by apply grows_same]].
  unfold define_macro. eapply run_bind; [done |]. rewrite E. unfold define, defined.
  destruct (look_up_macro ms (Some (m_name m))) as [m'|]; [| eapply run_bind; done].
  rewrite (Hm m' eq_refl), Nat.eqb_refl. cbn [negb]. eapply run_bind; done.
Qed.

(** The value of a macro, and the entry. *)
Lemma define_value x xs w' v l range p fn ms ps st :
  white false (v ++ 10 :: l) w' [] -> stops false (v ++ 10 :: l) -> Forall (fun c => c <> 10 /\ c <> 0) v ->
  (forall m, look_up_macro ms (Some x) = Some m -> length (arg_names m) = length xs) ->
  sees_line p fn ms ps st (w' ++ v ++ 10 :: l) ->
  performs (skip_whitespace_and_comments false;;
    r ← the_reader;
    chars ← on_reader (loop_st (Datatypes.S (length (buffer r))) value_body []);
    define_macro (mkMacro x (Some (cstr chars)) xs false) range) p fn (define ms (mkMacro x (Some v) xs false)) ps st (10 :: l).
Proof.
  intros Hw' Hv Hc Hm S1. pose proof (line_skip _ _ _ _ _ _ _ Hw' Hv S1) as L. line L.
  destruct S as [sol2 S2]. destruct (sees_cursor _ _ _ _ _ _ _ S2) as (pre & s0 & C & _).
  destruct (value_loop v _ _ _ _ [] (Datatypes.S (length (buffer (pp_reader p0)))) C Hc) as (r & E3 & A & T).
  { pose proof (cur_len C) as (_ & _ & -> & _). rewrite !length_app. lia. }
  pose proof (sees_spliceless _ _ _ _ _ _ _ S2) as Hsp. apply spliceless_app in Hsp.
  pose proof (sees_move_at _ _ _ _ _ _ _ _ _ _ S2 A Hsp T) as S3.
  destruct (define_run (mkMacro x (Some v) xs false) range _ _ _ _ _ _ S3) as (p4 & E4 & S4 & G4); [done |].
  exists p4. split; [| split; [done |]].
  - eapply run_bind; [exact E |]. eapply run_bind; [done |]. eapply run_bind; [by apply pp_reader_run |].
    cbn [app]. rewrite cstr_id by (eapply Forall_impl; [exact Hc |]; cbn; tauto). exact E4.
  - eapply grows_nil; [exact G |]. eapply grows_nil; [by apply grows_reader | done].
Qed.

Lemma pp_define_run w x w' v l p fn ms ps st :
  white false (x ++ w' ++ v ++ 10 :: l) w [] -> is_name x ->
  ends_name (w' ++ v ++ 10 :: l) -> head (w' ++ v ++ 10 :: l) <> Some 40 ->
  white false (v ++ 10 :: l) w' [] -> stops false (v ++ 10 :: l) -> Forall (fun c => c <> 10 /\ c <> 0) v ->
  (forall m, look_up_macro ms (Some x) = Some m -> arg_names m = []) ->
  sees_line p fn ms ps st (w ++ x ++ w' ++ v ++ 10 :: l) ->
  performs pp_define p fn (define ms (object_macro x v)) ps st (10 :: l).
Proof.
  intros Hw Hx He Hh Hw' Hv Hc Hm S.
  pose proof (line_skip _ _ _ _ _ _ _ Hw (stops_name _ _ Hx) S) as L. line L.
  pose proof (line_symbol _ _ _ _ _ _ _ Hx He S0) as L. line L.
  assert (Hb : on_reader (expect_char 40) p1 = Ok (false, p1)).
  { destruct (w' ++ v ++ 10 :: l) as [|c tl] eqn:El; [by destruct w', v |].
    apply (line_expect 40 c tl _ fn ms ps st); [lia | done | by intros ->]. }
  destruct (define_value x [] w' v l (range_from (pp_reader p1) (reader_source_loc (pp_reader p0))) p1 fn ms ps st Hw' Hv Hc)
    as (p4 & E4 & S4 & G4); [| done |].
  { intros m' Em. by rewrite (Hm m' Em). }
  exists p4. split; [| split; [done |]].
  - unfold pp_define. eapply run_bind; [exact E |]. eapply run_bind; [done |]. eapply run_bind; [exact E0 |]. cbv iota zeta.
    eapply run_bind; [done |]. eapply run_bind; [exact Hb |]. cbv iota. eapply run_bind; [done |]. cbv iota. exact E4.
  - eapply grows_nil; [exact G |]. by eapply grows_nil.
Qed.

Lemma line_blanks w l p fn ms ps st : Forall blank w -> stops false l -> sees_line p fn ms ps st (w ++ l) ->
  exists p', skip_whitespace_and_comments false p = Ok (tt, p') /\ sees_line p' fn ms ps st l /\ grows p p' [].
Proof. intros Hw. apply line_skip. by apply white_blanks. Qed.

Lemma line_read_char c l p fn ms ps st : sees_line p fn ms ps st (c :: l) ->
  exists p', on_reader read_char p = Ok (i8 c, p') /\ sees_line p' fn ms ps st l /\ grows p p' [].
Proof.
  intros [sol S]. destruct (sees_cursor _ _ _ _ _ _ _ S) as (pre & s & C & _). pose proof (cur_read_char C) as A. reads A.
  exists (set_reader p r). split; [by apply pp_reader_run |]. split; [| by apply grows_reader].
  eexists. by eapply sees_move.
Qed.

Lemma ends_blanks w c l : Forall blank w -> ident_char c = false -> ends_name (w ++ c :: l).
Proof. intros Hw Hc. destruct Hw as [|d w Hd Hw]; [done |]. cbn. by destruct Hd; subst. Qed.

(** One parameter, with the character that follows it. *)
Lemma param_turn w x w' c l xs p fn ms ps st : Forall blank w -> is_name x -> Forall blank w' -> c = 41 \/ c = 44 ->
  sees_line p fn ms ps st (w ++ x ++ w' ++ c :: l) ->
  exists p', param_body xs p = Ok ((if c =? 41 then inr (Some (xs ++ [x], false)) else inl (xs ++ [x])), p') /\
    sees_line p' fn ms ps st l /\ grows p p' [].
Proof.
  intros Hw Hx Hw' Hc S. pose proof (line_blanks _ _ _ _ _ _ _ Hw (stops_name _ _ Hx) S) as L. line L.
  assert (He : ends_name (w' ++ c :: l)) by (apply ends_blanks; [done | by destruct Hc; subst]).
  pose proof (line_symbol _ _ _ _ _ _ _ Hx He S0) as L. line L.
  assert (Hst : stops false (c :: l)) by (cbn; destruct Hc; subst; by split_and!).
  pose proof (line_blanks _ _ _ _ _ _ _ Hw' Hst S1) as L. line L. pose proof (line_read_char _ _ _ _ _ _ _ S2) as L. line L.
  exists p3. split; [| split; [done |]].
  2: { eapply grows_nil; [done |]. eapply grows_nil; [done |]. by eapply grows_nil. }
  unfold param_body. eapply run_bind; [exact E |]. eapply run_bind; [done |].
  assert (Hp : forall d, 0 <= d < 128 -> ident_char d = false -> (peek_char (pp_reader p0) =? d) = false).
  { intros d Hd Hi. destruct S0 as [sol0 S0]. destruct (sees_cursor _ _ _ _ _ _ _ S0) as (pre & s & C & _).
    destruct (is_name_first _ Hx) as (c0 & s0 & -> & Hc0 & _). cbn [app] in C. rewrite (cur_peek_eqb C) by done.
    apply initial_ident_not; [done |]. unfold ident_char in Hi. by bsplit. }
  cbv zeta. rewrite !Hp by done. eapply run_bind; [exact E0 |]. cbv iota. eapply run_bind; [exact E1 |].
  eapply run_bind; [exact E2 |]. destruct Hc; by subst c.
Qed.

Lemma params_loop a xs : parameters a xs -> forall p fn ms ps st l acc fuel,
  sees_line p fn ms ps st (a ++ l) -> (length a <= fuel)%nat ->
  exists p', loop_st fuel param_body acc p = Ok (Some (acc ++ xs, false), p') /\ sees_line p' fn ms ps st l /\ grows p p' [].
Proof.
  induction 1 as [w x w' Hw Hx Hw'|w x w' tl xs Hw Hx Hw' Hp IH]; intros p fn ms ps st l acc fuel S Hf;
    rewrite <- !app_assoc in S; cbn [app] in S; rewrite !length_app in Hf; cbn [length] in Hf.
  - destruct (param_turn w x w' 41 l acc p fn ms ps st) as (p1 & E & S1 & G1); try done; [by left |].
    exists p1. split; [| done]. destruct fuel as [|fuel]; [lia |]. by apply loop_st_done.
  - destruct (param_turn w x w' 44 (tl ++ l) acc p fn ms ps st) as (p1 & E & S1 & G1); try done; [by right |].
    destruct fuel as [|fuel]; [lia |].
    destruct (IH p1 fn ms ps st l (acc ++ [x]) fuel S1 ltac:(lia)) as (p2 & E2 & S2 & G2).
    exists p2. split; [| split; [done | by eapply grows_nil]].
    rewrite (loop_st_next _ _ _ _ _ _ E), E2. by rewrite <- app_assoc.
Qed.

Lemma pp_define_function_run w x a xs w' v l p fn ms ps st :
  white false (x ++ 40 :: a ++ w' ++ v ++ 10 :: l) w [] -> is_name x -> parameters a xs ->
  white false (v ++ 10 :: l) w' [] -> stops false (v ++ 10 :: l) -> Forall (fun c => c <> 10 /\ c <> 0) v ->
  (forall m, look_up_macro ms (Some x) = Some m -> length (arg_names m) = length xs) ->
  sees_line p fn ms ps st (w ++ x ++ 40 :: a ++ w' ++ v ++ 10 :: l) ->
  performs pp_define p fn (define ms (mkMacro x (Some v) xs false)) ps st (10 :: l).
Proof.
  intros Hw Hx Ha Hw' Hv Hc Hm S.
  pose proof (line_skip _ _ _ _ _ _ _ Hw (stops_name _ _ Hx) S) as L. line L.
  assert (He : ends_name (40 :: a ++ w' ++ v ++ 10 :: l)) by done.
  pose proof (line_symbol _ _ _ _ _ _ _ Hx He S0) as L. line L.
  destruct S1 as [sol1 S1]. destruct (sees_cursor _ _ _ _ _ _ _ S1) as (pre & s & C & _).
  destruct (cur_expect C 40) as (r & Eb & T & C2); [lia |]. cbn [Z.eqb Pos.eqb] in Eb, C2.
  pose proof (sees_move S1 C2 T) as S2. set (p2 := set_reader p1 r) in *.
  destruct (params_loop a xs Ha p2 fn ms ps st _ [] (Datatypes.S (length (buffer (pp_reader p1)))) (ex_intro _ _ S2))
    as (p3 & E3 & S3 & G3).
  { pose proof (cur_len C) as (_ & _ & -> & _). rewrite !length_app. cbn. rewrite !length_app. lia. }
  destruct (define_value x xs w' v l (range_from (pp_reader p1) (reader_source_loc (pp_reader p0))) p3 fn ms ps st Hw' Hv Hc)
    as (p4 & E4 & S4 & G4); [done.. |].
  exists p4. split; [| split; [done |]].
  - unfold pp_define. eapply run_bind; [exact E |]. eapply run_bind; [done |]. eapply run_bind; [exact E0 |]. cbv iota zeta.
    eapply run_bind; [done |]. eapply run_bind; [by apply pp_reader_run |]. cbv iota.
    eapply run_bind; [exact E3 |]. cbv iota. exact E4.
  - eapply grows_nil; [exact G |]. eapply grows_nil; [exact G0 |]. eapply (grows_nil p1 p2); [by apply grows_reader |].
    by eapply grows_nil.
Qed.

Lemma pp_undef_run range w x w' rest p fn ms ps st :
  white false (x ++ w' ++ rest) w [] -> is_name x -> ends_name (w' ++ rest) ->
  white false rest w' [] -> stops false rest -> sees_line p fn ms ps st (w ++ x ++ w' ++ rest) ->
  performs (pp_undef range) p fn (remove_macro ms x) ps st rest.
Proof.
  intros Hw Hx He Hw' Hv S.
  pose proof (line_skip _ _ _ _ _ _ _ Hw (stops_name _ _ Hx) S) as L. line L.
  pose proof (line_symbol _ _ _ _ _ _ _ Hx He S0) as L. line L.
  pose proof (line_env _ _ _ _ _ _ S1) as (Ee & _).
  pose proof (line_set_env _ _ _ _ _ _ (remove_macro ms x) S1) as S2.
  pose proof (line_skip _ _ _ _ _ _ _ Hw' Hv S2) as L. line L.
  exists p2. split; [| split; [done |]].
  - unfold pp_undef. eapply run_bind; [exact E |]. eapply run_bind; [exact E0 |]. cbv iota.
    eapply run_bind; [done |]. rewrite Ee. eapply run_bind; [exact E1 | done].
  - eapply grows_nil; [exact G |]. eapply grows_nil; [exact G0 |]. eapply grows_nil; [| exact G1]. by apply grows_same.
Qed.
(** One comparison of a directive with a known name. *)
Lemma named_run name s (p : PP) : Forall (fun c => ident_char c = true) name -> Forall (fun c => ident_char c = true) (text s) ->
  Z.of_nat (length name) < 2 ^ 32 ->
  lift (names name s) p = Ok (bool_decide (name `prefix_of` text s), p).
Proof. intros. unfold lift, names. by rewrite strneq_prefix. Qed.

Lemma is_name_ident x : is_name x -> Forall (fun c => ident_char c = true) x.
Proof.
  intros (c & s & -> & Hc & Hs)%is_name_first. apply Forall_cons. split; [| done].
  unfold ident_char. by rewrite Hc.
Qed.

Abbreviation named rec := (directive_named map_file file_exists parse_expr include_dirs rec).

Ltac test b := match goal with |- context [(lift (names ?n ?s) ≫= ?f) ?p] => rewrite (st_bind_run (lift (names n s)) f p b p) by (unfold lift; vm_compute; reflexivity) end; cbv iota.

Lemma directive_run rec range ms st name tl ms1 st1 rest p fn ps : directive ms st name tl ms1 st1 rest ->
  Z.of_nat (length name) < 2 ^ 32 -> sees_line p fn ms ps st tl ->
  performs (named rec name range) p fn ms1 ps st1 rest.
Proof.
  intros D Hlen S. destruct D as [positive w x rest Hw Hx Hr|s l Hi Hs|pos parents rest ->|b parents rest ->
    |top parents rest ->|w x w' v l Hi Hw Hx He Hh Hw' Hv Hc Hm|w x a xs w' v l Hi Hw Hx Ha Hw' Hv Hc Hm|w x w' rest Hi Hw Hx He Hw' Hv|name rest Hi Hn Hf].
  - unfold performs, directive_named. cbv zeta beta. destruct positive.
    + test false. test true. by apply (pp_ifdef_run _ _ w x rest).
    + test false. test false. test true. by apply (pp_ifdef_run _ _ w x rest).
  - unfold performs, directive_named. cbv zeta beta. test true. by apply (pp_if_ignored _ s l).
  - unfold performs, directive_named. cbv zeta beta. test false. test false. test false. test true. by eapply pp_elif_taken.
  - unfold performs, directive_named. cbv zeta beta. test false. test false. test false. test false. test true. by apply pp_else_run.
  - unfold performs, directive_named. cbv zeta beta. do 5 test false. test true. by eapply pp_endif_run.
  - destruct (pp_define_run w x w' v l p fn ms ps st) as (p' & E & H); try done. exists p'. split; [| done].
    unfold directive_named. cbv zeta beta. do 6 test false. eapply run_bind; [done |].
    destruct (line_env _ _ _ _ _ _ S) as (_ & _ & ->). rewrite Hi. unfold active_directive. cbv zeta beta. test false. by test true.
  - destruct (pp_define_function_run w x a xs w' v l p fn ms ps st) as (p' & E & H); try done. exists p'. split; [| done].
    unfold directive_named. cbv zeta beta. do 6 test false. eapply run_bind; [done |].
    destruct (line_env _ _ _ _ _ _ S) as (_ & _ & ->). rewrite Hi. unfold active_directive. cbv zeta beta. test false. by test true.
  - destruct (pp_undef_run range w x w' rest p fn ms ps st) as (p' & E & H); try done. exists p'. split; [| done].
    unfold directive_named. cbv zeta beta. do 6 test false. eapply run_bind; [done |].
    destruct (line_env _ _ _ _ _ _ S) as (_ & _ & ->). rewrite Hi. unfold active_directive. cbv zeta beta. do 2 test false. by test true.
  - exists p. split; [| split; [done | apply grows_refl]].
    unfold directive_named. unfold conditional_names in Hf. rewrite !Forall_cons in Hf.
    destruct Hf as (F1 & F2 & F3 & F4 & F5 & F6 & _). apply is_name_ident in Hn.
    repeat (eapply run_bind; [apply named_run; [done | by repeat constructor | done] |]; rewrite bool_decide_eq_false_2 by done; cbv iota).
    eapply run_bind; [done |]. destruct (line_env _ _ _ _ _ _ S) as (_ & _ & ->). by rewrite Hi.
Qed.

Lemma finish_run w c l p fn ms ps st : white false (c :: l) w [] -> stops false (c :: l) ->
  (ignoring st = false -> c = 10) -> sees_line p fn ms ps st (w ++ c :: l) ->
  exists p', finish_directive p = Ok (true, p') /\ sees p' fn ms ps st l (c =? 10) /\ grows p p' [].
Proof.
  intros Hw Hs Hc S. pose proof (line_skip _ _ _ _ _ _ _ Hw Hs S) as L. line L. destruct S0 as [sol S0].
  destruct (sees_cursor _ _ _ _ _ _ _ S0) as (pre & s0 & C & _). pose proof (cur_advance C) as A. reads A.
  pose proof (sees_move S0 C0 T) as S1. destruct (adjustment_run (set_reader p0 r)) as [a E1].
  eexists. split; [| split; [exact (sees_adjust a S1) |]].
  - unfold finish_directive. eapply run_bind; [exact E |]. eapply run_bind; [done |]. cbv zeta.
    replace (_ && negb (peek_char (pp_reader p0) =? 10)) with false.
    2: { destruct (line_env p0 fn ms ps st (c :: l)) as (_ & _ & ->); [by exists sol |].
         rewrite (cur_not_end C), (cur_peek_eqb C) by lia. destruct (ignoring st); [done |]. by rewrite Hc. }
    eapply run_bind; [by apply pp_reader_run |]. eapply run_bind; [exact E1 | done].
  - eapply grows_nil; [done |]. eapply grows_nil; [by apply grows_reader |]. by apply grows_same.
Qed.

Lemma token_directive_gen rec w name tl ms st ms1 st1 w1 c l p fn ps out :
  white false (name ++ tl) w [] -> is_name name -> ends_name tl ->
  (forall range p2, sees_line p2 fn ms ps st tl -> grows p p2 [] ->
    exists p3, named rec name range p2 = Ok (true, p3) /\ sees_line p3 fn ms1 ps st1 (w1 ++ c :: l) /\ grows p2 p3 out) ->
  white false (c :: l) w1 [] -> stops false (c :: l) -> (ignoring st1 = false -> c = 10) ->
  sees p fn ms ps st (35 :: w ++ name ++ tl) true ->
  exists p', token rec p = Ok (true, p') /\ sees p' fn ms1 ps st1 l (c =? 10) /\ grows p p' out.
Proof.
  intros Hw Hn Ht D Hw1 Hs Hc S. destruct (sees_cursor _ _ _ _ _ _ _ S) as (pre & s & C & Es).
  assert (s = true) as -> by (by apply Es). pose proof (cur_read_char C) as A. reads A.
  pose proof (sees_move S C0 T) as S0. set (p0 := set_reader p r) in *.
  assert (L0 : sees_line p0 fn ms ps st (w ++ name ++ tl)) by (by eexists).
  assert (Hne : exists c l', w ++ name ++ tl = c :: l' /\ c <> 35).
  { apply is_name_first in Hn as (c0 & s0 & -> & Hc0 & _).
    destruct Hw as [|d w n Hd|w n|s w n|b w n]; eexists _, _; (split; [done |]); try lia. by intros ->. }
  destruct Hne as (c0 & l0 & El & Hc0).
  assert (E35 : on_reader (expect_char 35) p0 = Ok (false, p0)).
  { eapply (line_expect 35 c0 l0); [lia | by rewrite <- El | done]. }
  pose proof (line_skip _ _ _ _ _ _ _ Hw (stops_name _ _ Hn) L0) as L. line L.
  assert (E10 : on_reader (expect_char 10) p1 = Ok (false, p1)).
  { destruct (is_name_first _ Hn) as (c1 & s1 & -> & Hc1 & _). eapply (line_expect 10 c1 (s1 ++ tl)); [lia | done | by intros ->]. }
  pose proof (line_symbol _ _ _ _ _ _ _ Hn Ht S1) as L. line L.
  assert (G2 : grows p p2 []) by (eapply grows_nil; [by apply grows_reader | by eapply grows_nil]).
  destruct (D (range_from (pp_reader p2) (reader_source_loc (pp_reader p1))) p2 S2 G2) as (p3 & E3 & S3 & G3).
  destruct (finish_run _ _ _ _ _ _ _ _ Hw1 Hs Hc S3) as (p4 & E4 & S4 & G4).
  exists p4. split; [| split; [done |]].
  - unfold next_token. eapply run_bind; [done |]. destruct C as [_ _ ->]. eapply run_bind; [by apply pp_reader_run |].
    change (i8 35) with 35. cbn [Z.eqb Pos.eqb orb]. eapply run_bind; [exact E35 |]. cbv iota.
    unfold handle_pp_directive. eapply run_bind; [exact E0 |]. eapply run_bind; [exact E10 |]. cbv iota.
    eapply run_bind; [done |]. eapply run_bind; [exact E1 |]. cbv iota. eapply run_bind; [done |].
    eapply run_bind; [exact E3 |]. cbv iota. exact E4.
  - eapply grows_trans; [exact G2 | | done]. eapply grows_trans; [exact G3 | exact G4 | by rewrite app_nil_r].
Qed.

Lemma token_directive rec w name tl ms st ms1 st1 w1 c l p fn ps :
  white false (name ++ tl) w [] -> is_name name -> ends_name tl ->
  directive ms st name tl ms1 st1 (w1 ++ c :: l) ->
  white false (c :: l) w1 [] -> stops false (c :: l) -> (ignoring st1 = false -> c = 10) ->
  sees p fn ms ps st (35 :: w ++ name ++ tl) true ->
  exists p', token rec p = Ok (true, p') /\ sees p' fn ms1 ps st1 l (c =? 10) /\ grows p p' [].
Proof.
  intros Hw Hn Ht D Hw1 Hs Hc S. apply (token_directive_gen rec w name tl ms st ms1 st1 w1 c l p fn ps []); try done.
  intros range p2 S2 _. eapply directive_run; [exact D | | exact S2].
  assert (T : text_ok (35 :: w ++ name)) by (apply (sees_text p fn ms ps st _ tl true); cbn; by rewrite <- app_assoc).
  destruct T as [_ _ L]. cbn in L. rewrite length_app in L. lia.
Qed.

(** [#include] of a file. *)
Lemma include_loop c s : forall r pre l sol fuel, 0 <= c < 128 -> cursor r pre (s ++ c :: l) sol ->
  Forall (fun d => d <> c) s -> (length s < fuel)%nat ->
  exists r', loop_st fuel (include_body c) tt r = Ok (tt, r') /\ (exists sol', cursor r' (pre ++ s ++ [c]) l sol') /\ same_text r r'.
Proof.
  induction s as [|d s IH]; intros r pre l sol [|fuel] Hc C Hs Hf; cbn [length] in Hf; try lia; cbn [app] in C;
    pose proof (cur_read_char C) as A; reads A.
  - exists r0. split; [| split; [by eexists | done]]. apply loop_st_done. unfold include_body. eapply run_bind; [done |].
    rewrite (cur_not_end C). eapply run_bind; [exact E |].
    rewrite (i8_eqb_ascii c c (cur_byte C)), Z.eqb_refl by lia. done.
  - apply Forall_cons in Hs as [Hd Hs]. destruct (IH _ _ _ _ fuel Hc C0 Hs ltac:(lia)) as (r' & E' & (sol' & C') & T').
    exists r'. rewrite <- app_assoc in C'. split; [| split; [by exists sol' | by transitivity r0]].
    rewrite <- E'. apply loop_st_next. unfold include_body. eapply run_bind; [done |]. rewrite (cur_not_end C).
    eapply run_bind; [exact E |]. rewrite (i8_eqb_ascii d c (cur_byte C)) by lia. by destruct (Z.eqb_spec d c).
Qed.

Lemma preprocess_file_run rec p fn ms ps st l sol file range v ms1 st1 out n : map_file file = Some v -> text_ok v ->
  completes rec (Some file) ms ps st v true ms1 st1 out n ->
  sees p fn ms ps st l sol -> macro_depth p + Z.of_nat n < 2 ^ 32 -> 0 <= macro_depth p ->
  exists p', preprocess_file map_file rec file range p = Ok (true, p') /\ sees p' fn ms1 ps st1 l sol /\ grows p p' out.
Proof.
  intros Ef [] Hc S Hd Hd0. set (q := set_reader p (set_stderr (reader_init v [] true (Some file)) (stderr (pp_reader p)))).
  assert (Sq : sees q (Some file) ms ps st v true).
  { destruct S. constructor; try done. exists [], true. split; [| done]. by repeat constructor. }
  destruct (adjustment_run q) as [a E1].
  destruct (Hc (set_adjustments q a) (sees_adjust a Sq) Hd Hd0) as (p1 & E & E1' & E2 & E3 & E4 & [G1 G2 G3]). cbn in G1, G2, G3.
  eexists. split; [| split].
  - unfold preprocess_file. rewrite Ef. unfold with_reader. eapply run_bind; [done |]. eapply run_bind; [done |].
    eapply run_bind; [eapply run_bind; [exact E1 | exact E] |]. eapply run_bind; done.
  - destruct S as [(pre & s & C & Es) ? ? ? ? ?]. constructor; cbn; try done. exists pre, s. split; [| done].
    rewrite G3. destruct (pp_reader p). exact C.
  - constructor; cbn; done.
Qed.

Lemma pp_include_run rec w1 (q : bool) path w2 l f file v ms1 st1 out n p ms ps st :
  let start_char := if q then 60 else 34 in let terminator := if q then 62 else 34 in
  white false (start_char :: path ++ terminator :: w2 ++ 10 :: l) w1 [] ->
  white false (10 :: l) w2 [] -> Forall (fun c => c <> terminator) path ->
  look_up_include_path file_exists include_dirs (text f) path = Some file ->
  map_file file = Some v -> text_ok v ->
  completes rec (Some file) ms ps st v true ms1 st1 out n ->
  sees_line p (Some f) ms ps st (w1 ++ start_char :: path ++ terminator :: w2 ++ 10 :: l) ->
  macro_depth p + Z.of_nat n < 2 ^ 32 -> 0 <= macro_depth p ->
  exists p', pp_include map_file file_exists include_dirs rec p = Ok (true, p') /\ sees_line p' (Some f) ms1 ps st1 (10 :: l) /\
    grows p p' out.
Proof.
  intros start_char terminator Hw1 Hw2 Hp El Ef Tv Hc S Hd Hd0.
  assert (Hq : 0 <= terminator < 128 /\ (start_char = 60 \/ start_char = 34) /\
    (if start_char =? 60 then 62 else 34) = terminator) by (subst start_char terminator; destruct q; cbn; lia).
  destruct Hq as (Ht & Hsc & Etm).
  assert (Hst : stops false (start_char :: path ++ terminator :: w2 ++ 10 :: l)) by (cbn; split_and!; try lia; done).
  pose proof (line_skip _ _ _ _ _ _ _ Hw1 Hst S) as L. line L. destruct S0 as [sol S0].
  destruct (sees_cursor _ _ _ _ _ _ _ S0) as (pre & s & C & _). pose proof (cur_read_char C) as A. reads A.
  destruct (include_loop terminator path _ _ _ _ (Datatypes.S (length (buffer r))) Ht C0 Hp) as (r1 & E1 & (sol1 & C1) & T1).
  { pose proof (cur_len C0) as (_ & _ & -> & _). rewrite !length_app. cbn. rewrite ?length_app. lia. }
  set (p1 := set_reader p0 r). set (p2 := set_reader p1 r1).
  assert (S2 : sees p2 (Some f) ms ps st (w2 ++ 10 :: l) sol1).
  { subst p2. eapply (sees_move (p := p1)); [by eapply sees_move | exact C1 | exact T1]. }
  assert (G2 : grows p p2 []).
  { eapply grows_nil; [exact G |]. apply (grows_reader p0 r1). by transitivity r. }
  set (range := range_from r1 (reader_source_loc (pp_reader p0))).
  destruct (preprocess_file_run rec p2 _ _ _ _ _ _ file range v ms1 st1 out n Ef Tv Hc S2) as (p3 & E3 & S3 & G3);
    [by rewrite (grows_depth _ _ _ G2).. |].
  assert (Hst10 : stops false (10 :: l)) by done.
  pose proof (line_skip (10 :: l) w2 p3 _ _ _ _ Hw2 Hst10 (ex_intro _ _ S3)) as L. line L.
  exists p4. split; [| split; [done |]].
  2: { eapply grows_trans; [exact G2 | | done]. eapply grows_trans; [exact G3 | exact G0 | by rewrite app_nil_r]. }
  unfold pp_include. eapply run_bind; [exact E |]. eapply run_bind; [done |]. eapply run_bind; [by apply pp_reader_run |].
  rewrite i8_ascii by lia. replace (negb (start_char =? 60) && negb (start_char =? 34)) with false by (destruct Hsc as [-> | ->]; done).
  cbv zeta iota. eapply run_bind; [done |]. cbn [pp_reader set_reader]. rewrite Etm.
  eapply run_bind; [by apply (pp_reader_run _ p1) |]. eapply run_bind; [done |]. cbn [pp_reader set_reader].
  assert (He : at_end r1 = false) by (destruct (w2 ++ 10 :: l) eqn:?; [by destruct w2 | by eapply cur_not_end]).
  rewrite He. cbv iota.
  assert (Es : slice (buffer r1) (position r) (u32 (u32 (position r1 - 1) - position r)) = Ok path).
  { destruct (cur_len C0) as (_ & L0 & _ & P0). destruct (cur_len C1) as (_ & L1 & B1 & P1).
    rewrite P0, P1. rewrite <- app_assoc in C1. assert (Eu : u32 (Z.of_nat (length ((pre ++ [start_char]) ++ path ++ [terminator])) - 1) =
      Z.of_nat (length ((pre ++ [start_char]) ++ path))).
    { rewrite B1, !length_app in L1. cbn in L1. rewrite !length_app. cbn. rewrite wrap_small; lia. }
    assert (Eb : buffer r1 = (pre ++ [start_char]) ++ path ++ terminator :: w2 ++ 10 :: l) by (rewrite B1; by rewrite <- !app_assoc).
    rewrite Eu. unfold slice. rewrite Eb, Nat2Z.id, drop_app_length.
    rewrite B1, !length_app in L1. cbn in L1.
    assert (Ed : u32 (Z.of_nat (length ((pre ++ [start_char]) ++ path)) - Z.of_nat (length (pre ++ [start_char]))) = Z.of_nat (length path)).
    { rewrite !length_app. cbn. rewrite wrap_small; lia. }
    rewrite Ed, Nat2Z.id. rewrite length_app. zcases. by rewrite take_app_length. }
  eapply run_bind; [unfold lift; rewrite Es; done |].
  eapply run_bind; [unfold lift; replace (reader_filename r1) with (Some f) by (symmetry; apply (sees_file _ _ _ _ _ _ _ S2)); done |].
  cbv zeta. match goal with |- context [look_up_include_path _ _ ?fs _] => change fs with (text f) end. rewrite El.
  eapply run_bind; [exact E3 |]. cbv iota. eapply run_bind; [exact E2 | done].
Qed.

Lemma token_include rec w w1 (q : bool) path w2 l f file v ms1 st1 out n p ms ps st : ignoring st = false ->
  let start_char := if q then 60 else 34 in let terminator := if q then 62 else 34 in
  white false (text "include" ++ w1 ++ start_char :: path ++ terminator :: w2 ++ 10 :: l) w [] ->
  white false (start_char :: path ++ terminator :: w2 ++ 10 :: l) w1 [] ->
  white false (10 :: l) w2 [] -> Forall (fun c => c <> terminator) path ->
  look_up_include_path file_exists include_dirs (text f) path = Some file ->
  map_file file = Some v -> text_ok v -> ignoring st1 = false ->
  completes rec (Some file) ms ps st v true ms1 st1 out n ->
  sees p (Some f) ms ps st (35 :: w ++ text "include" ++ w1 ++ start_char :: path ++ terminator :: w2 ++ 10 :: l) true ->
  macro_depth p + Z.of_nat n < 2 ^ 32 -> 0 <= macro_depth p ->
  exists p', token rec p = Ok (true, p') /\ sees p' (Some f) ms1 ps st1 l true /\ grows p p' out.
Proof.
  intros Hi start_char terminator Hw Hw1 Hw2 Hp El Ef Tv Hi1 Hc S Hd Hd0.
  apply (token_directive_gen rec w (text "include") (w1 ++ start_char :: path ++ terminator :: w2 ++ 10 :: l) ms st ms1 st1 [] 10 l);
    try done.
  - by vm_compute; repeat constructor.
  - destruct Hw1 as [|d ? ? Hd1| | |]; try done; [by destruct q | by destruct Hd1; subst].
  - intros range p2 S2 G2.
    destruct (pp_include_run rec w1 q path w2 l f file v ms1 st1 out n p2 ms ps st Hw1 Hw2 Hp El Ef Tv Hc S2)
      as (p3 & E3 & S3 & G3); [by rewrite (grows_depth _ _ _ G2).. |].
    exists p3. split; [| done]. unfold directive_named. cbv zeta beta. do 6 test false.
    eapply run_bind; [done |]. destruct (line_env _ _ _ _ _ _ S2) as (_ & _ & ->). rewrite Hi.
    unfold active_directive. cbv zeta beta. by test true.
  - constructor.
Qed.

(** *** Ignored text *)

Lemma next_directive_split l : forall sol l1, next_directive sol l = 35 :: l1 -> exists w, l = w ++ 35 :: l1.
Proof.
  induction l as [|c l IH]; intros sol l1; [done |]. cbn. repeat case_match; intros E.
  1, 3: destruct (IH _ _ E) as (w & ->); by exists (c :: w).
  injection E as -> ->. by exists [].
Qed.

Lemma skip_directive_loop l : forall r pre sol l1 fuel, cursor r pre l sol -> next_directive sol l = 35 :: l1 ->
  (length l < fuel)%nat ->
  exists r' pre', loop_st fuel skip_to_directive_body tt r = Ok (tt, r') /\ cursor r' pre' (35 :: l1) true /\ same_text r r'.
Proof.
  induction l as [|c l IH]; intros r pre sol l1 [|fuel] C El Hf; try done; cbn in Hf; [lia |].
  cbn in El. pose proof (cur_advance C) as A. reads A.
  assert (Hs : at_start_of_line r = sol) by (by destruct C).
  destruct ((c =? 32) || (c =? 9)) eqn:Hb.
  - pose proof (cur_set_sol sol C0) as C1.
    destruct (IH _ _ _ l1 fuel C1 El ltac:(lia)) as (r' & pre' & E' & C' & T').
    exists r', pre'. split; [| split; [done | transitivity r0; [done | apply T']]].
    rewrite <- E'. apply loop_st_next. unfold skip_to_directive_body. eapply run_bind; [done |].
    rewrite (cur_not_end C). cbv zeta. rewrite !(cur_peek_eqb C), Hb by lia. eapply run_bind; [exact E |].
    rewrite Hs. by eapply run_bind.
  - destruct ((c =? 35) && sol) eqn:Hd.
    + injection El as -> ->. bsplit. subst sol. exists r, pre. split; [| split; [by destruct C | done]]. 
      apply loop_st_done. unfold skip_to_directive_body. eapply run_bind; [done |].
      rewrite (cur_not_end C). cbv zeta. rewrite !(cur_peek_eqb C), Hs by lia. by subst.
    + destruct (IH _ _ _ l1 fuel C0 El ltac:(lia)) as (r' & pre' & E' & C' & T').
      exists r', pre'. split; [| split; [done | by transitivity r0]].
      rewrite <- E'. apply loop_st_next. unfold skip_to_directive_body. eapply run_bind; [done |].
      rewrite (cur_not_end C). cbv zeta. rewrite !(cur_peek_eqb C), Hb, Hs, Hd by lia. by eapply run_bind.
Qed.

Lemma skip_ignored p fn ms ps st sol l l1 : ignoring st = true -> next_directive sol l = 35 :: l1 ->
  sees p fn ms ps st l sol ->
  exists p', skip_before_token p = Ok (true, p') /\ sees p' fn ms ps st (35 :: l1) true /\
    grows p p' (if decide (l = 35 :: l1) then [] else [32]).
Proof.
  intros Hi El S. destruct (sees_cursor _ _ _ _ _ _ _ S) as (pre & s & C & Es).
  assert (s = sol) as -> by (apply Es; by intros ->).
  destruct (skip_directive_loop l _ _ _ l1 (Datatypes.S (length (buffer (pp_reader p)))) C El) as (r & pre' & E & C' & T).
  { pose proof (cur_len C) as (_ & _ & -> & _). rewrite length_app. lia. }
  pose proof (sees_move S C' T) as S1. set (q := set_reader p r) in *.
  destruct (next_directive_split _ _ _ El) as (w & Ew).
  assert (Hp : position (pp_reader q) = position (pp_reader p) + Z.of_nat (length w)).
  { destruct (cur_len C') as (A1 & _). destruct (cur_len C) as (B1 & _). cbn. rewrite A1, B1, Ew, length_app.
    destruct T as (-> & _). lia. }
  assert (G : grows p q []) by (by apply grows_reader).
  destruct (separator_turn q [] w p) as (a & o & E' & Eo); try done.
  { apply S1. } { cbn. lia. } { intros H _. by destruct w. }
  { pose proof (position_bound _ _ _ _ _ _ _ S1). pose proof (position_bound _ _ _ _ _ _ _ S). lia. }
  eexists. split; [| split; [exact (sees_adjust a (sees_append (out_chars q ++ o) S1)) |]].
  - unfold skip_before_token. eapply run_bind; [done |].
    replace (ignoring_chars p) with true by (destruct S; unfold ignoring_chars; by subst).
    eapply run_bind.
    { eapply run_bind; [apply (pp_reader_run skip_to_next_directive p tt r) |].
      - unfold skip_to_next_directive. by eapply run_bind.
      - eapply run_bind; [done |]. cbn [pp_reader set_reader]. by rewrite (cur_not_end C'). }
    cbn [negb]. cbv iota. eapply run_bind; [done |]. exact E'.
  - replace (if decide (l = 35 :: l1) then [] else [32]) with o; [by constructor; cbn; [| apply G | apply G] |].
    cbn in Eo. rewrite Eo. destruct (decide (l = 35 :: l1)) as [Hl|Hl]; subst l.
    + destruct w as [|c w]; [done |]. apply (f_equal length) in Hl. rewrite length_app in Hl. cbn in Hl. lia.
    + by destruct w.
Qed.

(** *** The simulation *)

Lemma directive_length ms st name tl ms' st' rest : directive ms st name tl ms' st' rest ->
  (length rest <= length tl)%nat.
Proof. destruct 1; repeat (rewrite length_app || cbn [length]); lia. Qed.

Lemma sees_not_end p fn ms ps st l sol : sees p fn ms ps st l sol -> l <> [] -> at_end (pp_reader p) = false.
Proof. intros [(pre & s & C & _) _ _ _ _ _] Hl. destruct l; [done |]. by eapply cur_not_end. Qed.

Lemma sees_ignoring p fn ms ps st l sol : sees p fn ms ps st l sol -> ignoring_chars p = ignoring st.
Proof. intros []. unfold ignoring_chars. by subst. Qed.

(** At the end of the text the loop returns. *)
Lemma exec_end rec ph k p fn ms ps st sol : sees p fn ms ps st [] sol -> (cost ph [] <= k)%nat ->
  exists p', exec rec ph k p = Ok (true, p') /\ macro_env p' = ms /\ curr_macro_params p' = ps /\ pp_scope_stack p' = st /\
    out_freed p' = false /\ grows p p' [].
Proof.
  intros S Hk. destruct S as [(pre & s & C & _) Hfn Hms Hps Hst Hof].
  assert (Hbody : forall q, at_end (pp_reader q) = true -> body rec tt q = Ok (inr true, q)).
  { intros q Hq. unfold aux_body. eapply run_bind; [done |]. by rewrite Hq. }
  destruct ph; cbn in Hk.
  - exists p. split; [| split_and!; try done; apply grows_refl].
    apply loop_st_done, Hbody. by eapply cur_end.
  - destruct k as [|k]; [lia |].
    destruct (cur_len C) as (P1 & P2 & _). cbn in P1.
    destruct (end_read_char (pp_reader p)) as (r & E & He & T & _); [by eapply cur_end | done | lia |].
    exists (set_reader p r). split; [| split_and!; try done; by apply grows_reader].
    rewrite (exec_token _ _ _ (set_reader p r)); [by apply loop_st_done, Hbody |].
    unfold next_token. eapply run_bind; [done |]. by eapply run_bind; [by apply pp_reader_run |].
Qed.

Lemma aux_sound N n fn ms ps st sol l ms' st' ph' sol' out :
  (forall rec p, rec = aux N -> sees p fn ms ps st l sol -> macro_depth p + Z.of_nat n < 2 ^ 32 -> 0 <= macro_depth p ->
    exists p', reaches rec Start p l ph' p' [] /\ sees p' fn ms' ps st' [] sol' /\ grows p p' out) ->
  forall p, sees p fn ms ps st l sol -> macro_depth p + Z.of_nat n < 2 ^ 32 -> 0 <= macro_depth p ->
  exists p', aux (S N) p = Ok (true, p') /\ macro_env p' = ms' /\ curr_macro_params p' = ps /\ pp_scope_stack p' = st' /\
    out_freed p' = false /\ grows p p' out.
Proof.
  intros H p Hs Hd Hd0. destruct (H (aux N) p eq_refl Hs Hd Hd0) as (p1 & R & S1 & G1).
  destruct (R (length (buffer (pp_reader p)))) as (k & E & Hk).
  { destruct Hs as [(pre & s & C & _) _ _ _ _ _]. destruct (cur_len C) as (_ & _ & -> & _). cbn. rewrite length_app. lia. }
  destruct (exec_end (aux N) ph' k p1 _ _ _ _ _ S1 Hk) as (p2 & E2 & H1 & H2 & H3 & H4 & G2).
  exists p2. split; [| split_and!; try done; eapply grows_trans; [done | done | by rewrite app_nil_r]].
  cbn [preprocess_aux]. eapply run_bind; [done |]. exact (eq_trans E E2).
Qed.

Lemma run_sound n fn ms ps st ph sol l ms' st' ph' sol' l' out :
  run n fn ms ps st ph sol l ms' st' ph' sol' l' out ->
  forall N p, (n <= N)%nat -> sees p fn ms ps st l sol -> macro_depth p + Z.of_nat n < 2 ^ 32 -> 0 <= macro_depth p ->
  exists p', reaches (aux N) ph p l ph' p' l' /\ sees p' fn ms' ps st' l' sol' /\ grows p p' out.
Proof.
  induction 1 as [| n fn ms ps st sol w nls l ms' st' ph' sol' l' out Hi Hw Hl Hne R IH
    | n fn ms ps st sol l l1 ms' st' ph' sol' l' out Hi El R IH
    | n fn ms ps st sol q b l ms' st' ph' sol' l' out Hq Hb R IH
    | n fn ms ps st sol c l ms' st' ph' sol' l' out Hc R IH
    | n fn ms ps st sol x l ms' st' ph' sol' l' out Hx Hl Hm R IH
    | n fn ms ps st sol x l m v ph1 sol1 out1 ms' st' ph' sol' l' out Hx Hl Hm Ha Hv Ev Tv R1 IH1 R IH
    | n fn ms ps st sol x w nls a l m v args ph1 sol1 out1 ms' st' ph' sol' l' out Hx Hl Hm Ha Hv Ev Tv Hw Harg Hlen Ht Rargs IHargs R1 IH1 R IH
    | n fn ms ps st w w1 q path w2 l f file v ms1 st1 ph1 sol1 out1 ms' st' ph' sol' l' out Hi Hw Hw1 Hw2 Hp Efn El Ef Tv Hi1 R1 IH1 R IH
    | n fn ms ps st w name tl ms1 st1 w1 c l ms' st' ph' sol' l' out Hw Hn Ht D Hw1 Hs Hc R IH];
    intros N p HN S Hd Hd0.
  - exists p. split; [| split; [done | apply grows_refl]]. intros k Hk. by exists k.
  - destruct (skip_turn l w nls p fn ms ps st sol Hw Hl S) as (p1 & E & S1 & G1).
    { by rewrite (sees_ignoring _ _ _ _ _ _ _ S). }
    destruct (IH N p1 HN S1) as (p2 & R2 & S2 & G2); [by rewrite (grows_depth _ _ _ G1).. |].
    exists p2. split; [| split; [done | by eapply grows_trans]]. eapply reaches_trans; [| exact R2].
    apply reaches_start; [by eapply sees_not_end | done |].
    cbn. rewrite length_app. destruct w, l; cbn in *; try done; lia.
  - destruct (skip_ignored _ _ _ _ _ _ _ _ Hi El S) as (p1 & E & S1 & G1).
    destruct (IH N p1 HN S1) as (p2 & R2 & S2 & G2); [by rewrite (grows_depth _ _ _ G1).. |].
    exists p2. split; [| split; [done | by eapply grows_trans]]. eapply reaches_trans; [| exact R2].
    destruct (next_directive_split _ _ _ El) as (w & ->).
    apply reaches_start; [eapply sees_not_end; [done | by destruct w] | done |].
    rewrite length_app. cbn. lia.
  - destruct (token_literal (aux N) q b p fn ms ps st l sol Hq Hb S) as (p1 & E & S1 & G1).
    destruct (IH N p1 HN S1) as (p2 & R2 & S2 & G2); [by rewrite (grows_depth _ _ _ G1).. |].
    exists p2. split; [| split; [done | by eapply grows_trans]]. eapply reaches_trans; [| exact R2].
    apply reaches_token; [done |]. cbn. rewrite length_app. cbn. lia.
  - destruct (token_char (aux N) c p fn ms ps st l sol Hc S) as (p1 & E & S1 & G1).
    destruct (IH N p1 HN S1) as (p2 & R2 & S2 & G2); [by rewrite (grows_depth _ _ _ G1).. |].
    exists p2. split; [| split; [done | by eapply grows_trans]]. eapply reaches_trans; [| exact R2].
    apply reaches_token; [done |]. cbn. lia.
  - destruct (token_name (aux N) x p fn ms ps st l sol Hx Hl Hm S) as (p1 & E & S1 & G1).
    destruct (IH N p1 HN S1) as (p2 & R2 & S2 & G2); [by rewrite (grows_depth _ _ _ G1).. |].
    exists p2. split; [| split; [done | by eapply grows_trans]]. eapply reaches_trans; [| exact R2].
    apply reaches_token; [done |]. rewrite length_app. destruct x; [done |]. cbn. lia.
  - destruct N as [|N]; [lia |].
    assert (Hc : completes (aux (Datatypes.S N)) name_of_strings ms [] [] v false ms [] out1 n).
    { intros p0. apply (aux_sound N n _ _ _ _ _ _ _ _ ph1 sol1). intros rec q -> Sq Hq Hq0. by apply IH1; [lia | ..]. }
    destruct (token_object (aux (Datatypes.S N)) x p fn ms ps st l sol m v out1 n Hx Hl Hm Ha Hv Ev Tv Hc S) as (p1 & E & S1 & G1); [done.. |].
    destruct (IH (Datatypes.S N) p1 HN S1) as (p2 & R2 & S2 & G2); [by rewrite (grows_depth _ _ _ G1).. |].
    exists p2. split; [| split; [done | by eapply grows_trans]]. eapply reaches_trans; [| exact R2].
    apply reaches_token; [done |]. rewrite length_app. destruct x; [done |]. cbn. lia.
  - destruct N as [|N]; [lia |].
    assert (Hargs : forall g, g ∈ args -> completes (aux (Datatypes.S N)) name_of_strings ms ps [] (arg_text g) false ms [] (arg_value g) n).
    { intros g Hg p0. apply (aux_sound N n _ _ _ _ _ _ _ _ (arg_phase g) (arg_sol g)). intros rec q -> Sq Hq Hq0.
      by apply (IHargs g Hg); [lia | ..]. }
    assert (Hc : completes (aux (Datatypes.S N)) name_of_strings ms (arg_params m args) [] v false ms [] out1 n).
    { intros p0. apply (aux_sound N n _ _ _ _ _ _ _ _ ph1 sol1). intros rec q -> Sq Hq Hq0. by apply IH1; [lia | ..]. }
    destruct (token_call (aux (Datatypes.S N)) x w nls a p fn ms ps st l sol m v args out1 n) as (p1 & E & S1 & G1); [done.. |].
    destruct (IH (Datatypes.S N) p1 HN S1) as (p2 & R2 & S2 & G2); [by rewrite (grows_depth _ _ _ G1).. |].
    exists p2. split; [| split; [done | eapply grows_trans; [done | done | by rewrite <- !app_assoc]]].
    eapply reaches_trans; [| exact R2].
    apply reaches_token; [done |]. rewrite !length_app. cbn. rewrite length_app. cbn. destruct x; [done |]. cbn. lia.
  - destruct N as [|N]; [lia |]. subst fn.
    assert (Hc : completes (aux (Datatypes.S N)) (Some file) ms ps st v true ms1 st1 out1 n).
    { intros p0. apply (aux_sound N n _ _ _ _ _ _ _ _ ph1 sol1). intros rec q0 -> Sq Hq Hq0. by apply IH1; [lia | ..]. }
    destruct (token_include (aux (Datatypes.S N)) w w1 q path w2 l f file v ms1 st1 out1 n p ms ps st) as (p1 & E & S1 & G1);
      try done; [lia |].
    destruct (IH (Datatypes.S N) p1 HN S1) as (p2 & R2 & S2 & G2); [by rewrite (grows_depth _ _ _ G1).. |].
    exists p2. split; [| split; [done | by eapply grows_trans]]. eapply reaches_trans; [| exact R2].
    apply reaches_token; [done |]. repeat (rewrite length_app || cbn [length]). lia.
  - destruct (token_directive (aux N) w name tl ms st ms1 st1 w1 c l p fn ps Hw Hn Ht D Hw1 Hs Hc S) as (p1 & E & S1 & G1).
    destruct (IH N p1 HN S1) as (p2 & R2 & S2 & G2); [by rewrite (grows_depth _ _ _ G1).. |].
    exists p2. split; [| split; [done | by eapply grows_trans]]. eapply reaches_trans; [| exact R2].
    apply reaches_token; [done |]. apply directive_length in D. cbn. rewrite !length_app in *. cbn in D. lia.
Qed.
(** The macros a translation starts with. *)
Abbreviation predefined_macros := (macro_env initial_pp).

(** Where [preprocess] enters the character loop. *)
Lemma preprocess_start file l : map_file file = Some l -> text_ok l ->
  exists p1, sees p1 (Some file) predefined_macros [] [] l true /\ macro_depth p1 = 0 /\
    out_chars p1 = [] /\ stderr (pp_reader p1) = [] /\
    forall fuel, preprocess map_file file_exists parse_expr include_dirs fuel file =
      '(ret, p) ← aux fuel p1; Ok (ret, out_chars p, out_adjustments p, stderr (pp_reader p)).
Proof.
  intros Hm Hl. set (p0 := set_reader initial_pp (set_stderr (reader_init l [] true (Some file)) [])).
  assert (S0 : sees p0 (Some file) predefined_macros [] [] l true).
  { destruct Hl. constructor; try done. exists [], true. split; [| done]. by repeat constructor. }
  destruct (adjustment_run p0) as [a E]. exists (set_adjustments p0 a). split; [exact (sees_adjust a S0) |].
  do 3 (split; [done |]). intros fuel. unfold preprocess, preprocess_file. rewrite Hm. unfold with_reader.
  erewrite (st_bind_run the_reader _ initial_pp) by done.
  erewrite (st_bind_run (modify _) _ initial_pp _ p0) by done.
  assert (Em : (add_adjustment NORMAL_ADJUSTMENT;; aux fuel) p0 = aux fuel (set_adjustments p0 a)) by (exact (st_bind_run _ (fun _ => aux fuel) _ _ _ E)).
  destruct (aux fuel (set_adjustments p0 a)) as [[ret p]|e].
  - by rewrite (st_bind_run _ _ p0 ret p) by (by rewrite Em).
  - by rewrite (st_bind_stop _ _ p0 e) by (by rewrite Em).
Qed.

(** A whole file. *)
Lemma preprocess_file_sound n file l ms' st' ph' sol' out fuel :
  run n (Some file) predefined_macros [] [] Start true l ms' st' ph' sol' [] out ->
  map_file file = Some l -> text_ok l -> (n <= fuel)%nat -> Z.of_nat n < 2 ^ 32 ->
  exists adjs, preprocess map_file file_exists parse_expr include_dirs (Datatypes.S fuel) file = Ok (true, out, adjs, []).
Proof.
  intros R Hm Hl Hn Hn'. destruct (preprocess_start file l Hm Hl) as (p1 & S1 & D1 & O1 & L1 & E).
  edestruct (aux_sound fuel n (Some file) predefined_macros [] [] true l ms' st' ph' sol' out) with (p := p1)
    as (p2 & E2 & _ & _ & _ & _ & [Go _ Gl]); [| exact S1 | lia | lia |].
  { intros rec p -> Sp Hd Hd0. by eapply run_sound. }
  exists (out_adjustments p2). rewrite E, E2. cbn. by rewrite Go, Gl, O1, L1.
Qed.

(** *** A macro that mentions itself *)

Lemma token_stops rec p : at_end (pp_reader p) = false -> forall p' e, skip_before_token p = Ok (true, p') ->
  token rec p' = Stop e -> body rec tt p = Stop e.
Proof.
  intros He p' e E1 E2. unfold aux_body. rewrite (st_bind_run the_reader _ p (pp_reader p) p) by done. rewrite He.
  rewrite (st_bind_run _ _ _ _ _ E1). cbn [negb]. cbv iota. by rewrite (st_bind_stop _ _ _ _ E2).
Qed.

(** The string [x] is preprocessed in a macro whose value is [x]. *)
Lemma self_reference_token rec x fn ms st m rest : is_name x -> text_ok x -> look_up_macro ms (Some x) = Some m ->
  arg_names m = [] -> variadic m = false -> m_value m = Some x -> ends_name rest ->
  (forall p, sees p name_of_strings ms [] [] x false -> rec p = Stop NoFuel) ->
  forall p sol, sees p fn ms [] st (x ++ rest) sol -> token rec p = Stop NoFuel.
Proof.
  intros Hx Tx Em Ha Hv Ev He Hrec p sol S.
  destruct (token_ident rec x p fn ms [] st rest _ Hx He S) as (r & -> & S2 & _). set (q := set_reader p r) in *.
  destruct (adjustment_to_run BEGIN_MACRO_ADJUSTMENT (reader_source_loc (pp_reader p)) (set_params q [])) as [a1 E2]; [done |].
  set (q1 := set_depth _ _) in E2. unfold expand_symbol.
  rewrite (st_bind_run get _ q q q) by done. cbv zeta.
  replace (curr_macro_params q) with (@nil Macro) by (by destruct S2). replace (macro_env q) with ms by (by destruct S2).
  change (look_up_macro [] (Some x)) with (@None Macro). cbv iota. rewrite Em. cbv iota. rewrite Ha, Hv, Ev. cbn [Nat.eqb length negb andb].
  rewrite (st_bind_run (modify _) _ q tt (set_params q [])) by done.
  rewrite (st_bind_run _ _ _ _ _ E2). apply st_bind_stop.
  assert (Sq : sees q1 fn ms [] st rest false) by (destruct S2; by constructor).
  pose proof (sees_string _ _ _ _ _ _ _ _ [] Sq Tx) as S0. apply Hrec in S0.
  unfold preprocess_string. rewrite (st_bind_run (lift _) _ q1 x q1) by done.
  rewrite (st_bind_run get _ q1 q1 q1) by done. rewrite (st_bind_run (modify _) _ q1 tt (set_stack (set_adjustments q1 []) [])) by done.
  apply st_bind_stop. unfold with_reader. rewrite (st_bind_run the_reader _ _ (pp_reader q1) (set_stack (set_adjustments q1 []) [])) by done.
  rewrite (st_bind_run (modify _) _ _ tt (set_reader (set_stack (set_adjustments q1 []) []) (set_stderr (reader_init x [] false (Some "??"%string)) (stderr (pp_reader q1))))) by done.
  apply st_bind_stop. exact S0.
Qed.

Lemma exec_start_stops rec k p p' e : at_end (pp_reader p) = false -> skip_before_token p = Ok (true, p') ->
  token rec p' = Stop e -> exec rec Start k p = Stop e.
Proof. intros He E1 E2. cbn [exec]. apply loop_st_stop. by eapply token_stops. Qed.

Lemma stops_name_nl x l : is_name x -> stops true (x ++ l).
Proof.
  intros (c & s & -> & Hc & _)%is_name_first. cbn.
  split_and!; [by intros -> | by intros -> | by intros -> | intros ->; done].
Qed.

Lemma self_reference_exec rec k x fn ms st m rest p sol : is_name x -> text_ok x -> look_up_macro ms (Some x) = Some m ->
  arg_names m = [] -> variadic m = false -> m_value m = Some x -> ends_name rest -> ignoring st = false ->
  (forall p, sees p name_of_strings ms [] [] x false -> rec p = Stop NoFuel) ->
  sees p fn ms [] st (x ++ rest) sol -> exec rec Start k p = Stop NoFuel.
Proof.
  intros Hx Tx Em Ha Hv Ev He Hi Hrec S.
  destruct (skip_turn (x ++ rest) [] [] p fn ms [] st sol) as (p1 & E1 & S1 & _);
    [constructor | by apply stops_name_nl | done | by rewrite (sees_ignoring _ _ _ _ _ _ _ S) |].
  eapply exec_start_stops; [eapply sees_not_end; [done | by destruct x] | done |].
  by eapply (self_reference_token rec x fn ms st m rest).
Qed.

Lemma self_reference_loops x ms m : is_name x -> text_ok x -> look_up_macro ms (Some x) = Some m ->
  arg_names m = [] -> variadic m = false -> m_value m = Some x ->
  forall N p, sees p name_of_strings ms [] [] x false -> aux N p = Stop NoFuel.
Proof.
  intros Hx Tx Em Ha Hv Ev. induction N as [|N IH]; intros p S; [done |].
  cbn [preprocess_aux]. rewrite (st_bind_run the_reader _ p (pp_reader p) p) by done.
  rewrite <- (app_nil_r x) in S. apply (self_reference_exec (aux N) _ x name_of_strings ms [] m [] p false); done.
Qed.

Lemma look_up_defined ms m : look_up_macro ms (Some (m_name m)) = None -> look_up_macro (ms ++ [m]) (Some (m_name m)) = Some m.
Proof.
  cbn. induction ms as [|m' ms IH]; cbn; [by rewrite decide_True |]. case_decide; [done |].
  intros E. destruct (list_find _ ms) as [[]|] eqn:Ef; [done |]. cbn in *.
  destruct (list_find _ (ms ++ [m])) as [[]|]; cbn in *; [by apply IH | by discriminate IH].
Qed.

(** [#define x x], then [x]. *)
Definition self_reference (x : list Z) : list Z := 35 :: text "define" ++ 32 :: x ++ 32 :: x ++ 10 :: x ++ [10].

Lemma self_reference_run n fn x : is_name x -> defined predefined_macros x = false ->
  run n fn predefined_macros [] [] Start true (self_reference x)
    (predefined_macros ++ [object_macro x x]) [] Start true (x ++ [10]) [].
Proof.
  intros Hx Hd. assert (Hl : look_up_macro predefined_macros (Some x) = None).
  { unfold defined in Hd. by destruct (look_up_macro predefined_macros (Some x)). }
  assert (Hb : white false (x ++ [32] ++ x ++ 10 :: x ++ [10]) [32] []) by (repeat constructor).
  assert (Hb' : white false (x ++ 10 :: x ++ [10]) [32] []) by (repeat constructor).
  replace (predefined_macros ++ [object_macro x x]) with (define predefined_macros (object_macro x x))
    by (unfold define; cbn [m_name object_macro]; by rewrite Hd).
  apply (run_white map_file file_exists include_dirs n fn predefined_macros [] [] true [] [] (self_reference x)); try done; [constructor |].
  eapply (run_directive map_file file_exists include_dirs n fn predefined_macros [] [] [] (text "define")
    ([32] ++ x ++ [32] ++ x ++ 10 :: x ++ [10]) _ [] [] 10 (x ++ [10]));
    [constructor | by split; [| repeat constructor] | done | | constructor | done | done | apply run_stop].
  apply (dir_define predefined_macros [] [32] x [32] x (x ++ [10])); try done.
  - by apply stops_name.
  - eapply Forall_impl; [apply (is_name_ident x Hx) |]. intros c Hc. apply ident_char_bound in Hc as Hb2.
    split; [| lia]. by intros ->.
  - intros m Hm. congruence.
Qed.

Lemma self_reference_stops file x fuel : is_name x -> defined predefined_macros x = false -> text_ok (self_reference x) ->
  map_file file = Some (self_reference x) ->
  preprocess map_file file_exists parse_expr include_dirs fuel file = Stop NoFuel.
Proof.
  intros Hx Hd Ht Hm. destruct (preprocess_start file _ Hm Ht) as (p1 & S1 & D1 & _ & _ & ->).
  enough (E : aux fuel p1 = Stop NoFuel) by (by rewrite E).
  destruct fuel as [|N]; [done |].
  assert (Hl : look_up_macro predefined_macros (Some x) = None).
  { unfold defined in Hd. by destruct (look_up_macro predefined_macros (Some x)). }
  destruct (run_sound 0 _ _ _ _ _ _ _ _ _ _ _ _ _ (self_reference_run 0 (Some file) x Hx Hd) N p1) as (p2 & R & S2 & _);
    [lia | exact S1 | lia | lia |].
  destruct (R (length (buffer (pp_reader p1)))) as (k & E & _).
  { destruct S1 as [(pre & s & C & _) _ _ _ _ _]. destruct (cur_len C) as (_ & _ & -> & _). cbn [cost]. rewrite length_app. lia. }
  cbn [preprocess_aux]. rewrite (st_bind_run the_reader _ p1 (pp_reader p1) p1) by done.
  etransitivity; [exact E |].
  assert (Em : look_up_macro (predefined_macros ++ [object_macro x x]) (Some x) = Some (object_macro x x)).
  { by apply (look_up_defined predefined_macros (object_macro x x)). }
  assert (Tx : text_ok x).
  { destruct Ht as [B Sp L]. unfold self_reference in *. rewrite app_comm_cons in B, Sp. rewrite app_comm_cons in L.
    apply Forall_app in B as [_ B]. apply spliceless_app in Sp. rewrite length_app in L. apply Forall_cons in B as [_ B].
    apply Forall_app in B as [B _]. apply spliceless_tail, spliceless_prefix in Sp. cbn [length] in L. rewrite length_app in L.
    constructor; [done | done | lia]. }
  apply (self_reference_exec (aux N) k x (Some file) (predefined_macros ++ [object_macro x x]) [] (object_macro x x) [10] p2 true);
    try reflexivity; try done. by apply (self_reference_loops x _ (object_macro x x)).
Qed.

End Sound.

(** ** Properties *)

(** C9: The character loop implements the reference semantics of preprocessing: a
    file whose text the rules [run] preprocess (white space and comments, literals,
    object-like and function-like macros with nested expansion, #define, #undef,
    #include, nested conditionals) is preprocessed to exactly that output, without
    an error, with one unit of fuel per level of nesting. *)
Theorem preprocess_refines map_file file_exists parse_expr include_dirs n file l ms' st' ph' sol' out fuel
    (R : run map_file file_exists include_dirs n (Some file) (macro_env initial_pp) [] [] Start true l ms' st' ph' sol' [] out)
    (Hm : map_file file = Some l) (Hl : text_ok l) (Hn : (n <= fuel)%nat) (Hn' : Z.of_nat n < 2 ^ 32) :
  exists adjs, preprocess map_file file_exists parse_expr include_dirs (Datatypes.S fuel) file = Ok (true, out, adjs, []).
Proof. by eapply preprocess_file_sound. Qed.

Ltac cut k := match goal with
  | |- run ?a ?b ?c ?d ?e ?f ?g ?h ?i ?j ?l ?m ?n ?o ?p ?q ?r =>
      let x := eval vm_compute in (take k l) in let y := eval vm_compute in (drop k l) in
      change (run a b c d e f g h i j (x ++ y) m n o p q r)
  end.

Lemma run_here mf fe id n fn ms ps st sol c l ms' st' ph' sol' l' out : ignoring st = false -> stops true (c :: l) ->
  run mf fe id n fn ms ps st Token sol (c :: l) ms' st' ph' sol' l' out ->
  run mf fe id n fn ms ps st Start sol (c :: l) ms' st' ph' sol' l' out.
Proof.
  intros Hi Hs R. apply (run_white mf fe id n fn ms ps st sol [] [] (c :: l) ms' st' ph' sol' l' out); try done; [constructor |].
  unfold after_white. by rewrite orb_false_r.
Qed.

(** The macros N and F, a conditional that selects a call of F. *)
Definition sample : list Z := text "#define N 4
#define F(x) x+N
#ifdef N
F(2);
#else
?
#endif
".

Ltac white_tac := lazymatch goal with
 | |- white _ _ [] _ => apply white_nil
 | |- white _ _ (10 :: _) _ => apply white_newline; [reflexivity | white_tac]
 | |- white _ _ (_ :: _) _ => apply white_blank; [(by left) || (by right) | white_tac]
 end.
Ltac here := apply run_here; [reflexivity | cbn; by split_and! |].
Ltac name_ok := split; [reflexivity | repeat constructor].
Ltac text_tac := constructor; [repeat (apply Forall_cons; split; [by split |]); by apply Forall_nil | reflexivity | reflexivity].
Lemma preprocess_refines_witness :
  exists adjs, preprocess (fun _ => Some sample) (fun _ => false) (fun _ => None) [] 3 "f" =
    Ok (true, text "2+4 ;
 ", adjs, []).
Proof.
  eapply (preprocess_refines (fun _ => Some sample) (fun _ => false) (fun _ => None) [] 2 "f" sample);
    [| reflexivity | text_tac | lia | done].
  unfold sample. cbn [Lex.bytes_of Lex.chars_of fmap option_fmap option_map default id String.list_ascii_of_string map].
  match goal with |- context [run _ _ _ _ _ _ _ _ _ _ ?l] => let y := eval vm_compute in l in change l with y end.
  match goal with |- run _ _ _ _ _ _ _ _ _ _ _ _ _ _ _ _ ?o => let y := eval vm_compute in o in change o with y end.
  here.
  eapply (run_directive _ _ _ _ _ _ _ _ [] (text "define") ([32] ++ [78] ++ [32] ++ [52] ++ 10 :: _) _ _ [] 10);
   [white_tac | name_ok | done | | white_tac | done | done |].
  { apply (dir_define _ _ [32] [78] [32] [52]); try done; try white_tac; try name_ok; try (repeat constructor; done). }
  here.
  eapply (run_directive _ _ _ _ _ _ _ _ [] (text "define") ([32] ++ [70] ++ 40 :: ([] ++ [120] ++ [] ++ [41]) ++ [32] ++ [120; 43; 78] ++ 10 :: _) _ _ [] 10);
   [white_tac | name_ok | done | | white_tac | done | done |].
  { apply (dir_define_function _ _ [32] [70] _ [[120]] [32] [120; 43; 78]); try done; try white_tac; try name_ok; try (repeat constructor; done). }
  here.
  eapply (run_directive _ _ _ _ _ _ _ _ [] (text "ifdef") ([32] ++ [78] ++ 10 :: _) _ _ [] 10);
   [white_tac | name_ok | done | | white_tac | done | done |].
  { apply (dir_ifdef _ _ true [32] [78]); try done; try white_tac; try name_ok. }
  here.
  match goal with |- run _ _ _ _ _ ?ms _ _ _ _ _ _ _ _ _ _ _ => let y := eval vm_compute in ms in change ms with y end.
  match goal with |- run _ _ _ _ _ _ _ ?st _ _ _ _ _ _ _ _ _ => let z := eval vm_compute in st in change st with z end.
  eapply (run_call _ _ _ 1 _ _ _ _ _ [70] [] [] [50] (text ";
#else
?
#endif
") _ [120; 43; 78] [mkArg [50] [50] Start false] Start false [50; 43; 52] _ _ _ _ _ [59; 10; 32]);
    [name_ok | done | reflexivity | done | reflexivity | reflexivity | text_tac | white_tac | | reflexivity | | | |].
  { apply arguments_one. split; [done |]. repeat constructor; done. }
  { intros r Hr. apply list_elem_of_singleton in Hr as ->. text_tac. }
  { intros g Hg. apply list_elem_of_singleton in Hg as ->. cbn. here. apply run_char; [by split_and! | apply run_stop]. }
  { here. apply (run_object _ _ _ 0 _ _ _ _ _ [120] _ (param_macro [120] (Some [50])) [50] Start false [50]);
      [name_ok | done | reflexivity | reflexivity | reflexivity | reflexivity | text_tac | |].
    { here. apply run_char; [by split_and! | apply run_stop]. }
    here. apply run_char; [by split_and! |].
    here. apply (run_object _ _ _ 0 _ _ _ _ _ [78] [] (object_macro [78] [52]) [52] Start false [52]);
      [name_ok | done | reflexivity | reflexivity | reflexivity | reflexivity | text_tac | | apply run_stop].
    here. apply run_char; [by split_and! | apply run_stop]. }
  here. apply run_char; [by split_and! |].
  apply (run_white _ _ _ _ _ _ _ _ _ [10] [10]); [done | white_tac | done | done |].
  eapply (run_directive _ _ _ _ _ _ _ _ [] (text "else") (10 :: _) _ _ [] 10);
    [white_tac | name_ok | done | by apply dir_else | white_tac | done | done |].
  apply (skip_text _ _ _ _ _ _ _ _ _ _ (text "endif" ++ [10])); [done | reflexivity | done |].
  eapply (run_directive _ _ _ _ _ _ _ _ [] (text "endif") (10 :: _) _ _ [] 10);
    [white_tac | name_ok | done | by eapply dir_endif | white_tac | done | done |].
  apply run_stop.
Defined.

(** A macro whose value is its own name is expanded forever: the file that
    defines x as x and uses it runs out of every fuel, for every name x that is not
    predefined (C99 6.10.3.4 stops at the nested name). *)
Theorem self_reference_diverges map_file file_exists parse_expr include_dirs file x fuel
    (Hx : is_name x) (Hd : defined (macro_env initial_pp) x = false) (Ht : text_ok (self_reference x))
    (Hm : map_file file = Some (self_reference x)) :
  preprocess map_file file_exists parse_expr include_dirs fuel file = Stop NoFuel.
Proof. by eapply self_reference_stops. Qed.

Lemma self_reference_diverges_witness :
  preprocess (fun _ => Some (self_reference (text "x"))) (fun _ => false) (fun _ => None) [] 100 "f" = Stop NoFuel.
Proof.
  apply (self_reference_diverges (fun _ => Some (self_reference (text "x"))) (fun _ => false) (fun _ => None) [] "f" (text "x"));
    [by split | reflexivity | | reflexivity].
  constructor; [| reflexivity | reflexivity]. vm_compute. repeat (apply Forall_cons; split; [by split |]). by apply Forall_nil.
Defined.

(** The text of a conditional with the selected group [s] and the ignored parts [u]. *)
Definition conditional_text (positive : bool) (w x s : list Z) (u : list Part) (selected : bool) (l : list Z) : list Z :=
  35 :: opening_text (O_ifdef positive w x) ++ 10 ::
  (if selected then s ++ else_line ++ parts_text u else parts_text u ++ else_line ++ s) ++ endif_line ++ l.


(** An undefined name; the ignored group holds a conditional that is not even an expression. *)
Definition ignored_sample : list Part :=
  [Line (text "a '"); Conditional (O_if (text " (")) [Line (text "b")] (Some [Line (text "  c # d")])].
Definition conditional_sample : PP :=
  set_reader initial_pp (reader_init (conditional_text true [32] (text "Q") (text "y
") ignored_sample false []) [] true (Some "f"%string)).


(** *** Divergences *)

(** The preprocessor on a text, with every expression a true condition: whether it
    returned true, the output, the messages. *)
Definition of_text (t : string) : res (bool * string * list string) :=
  '(ret, out, _, log) ← preprocess (fun _ => Some (text t)) (fun _ => false)
    (fun _ => Some (INT_LITERAL_EXPR (mkIntLiteral 1 0))) [] 6 "f";
  Ok (ret, string_of out, map snd log).

(** A function-like macro without arguments is copied without the white space
    behind it, so it joins the next token. *)
Example macro_name_joins_next_token : of_text "#define F(x) x
F y
" = Ok (true, "Fy
"%string, []).
Proof. by vm_compute. Qed.

(** A macro without parameters cannot be function-like. *)
Example no_empty_parameter_list : of_text "#define F() 1
" = Ok (false, ""%string, ["Unexpected character while processing macro argument list"%string]).
Proof. by vm_compute. Qed.

(** An empty argument is not counted. *)
Example empty_argument_dropped : of_text "#define F(a, b) b
F(,1)
" = Ok (false, ""%string, ["Wrong number of parameters to function-like macro"%string]).
Proof. by vm_compute. Qed.

(** An unterminated comment is reported, but the file is accepted. *)
Example unterminated_comment_accepted :
  of_text "a /* b" = Ok (true, "a "%string, ["Unterminated /* comment"%string]).
Proof. by vm_compute. Qed.

(** A comment that ends a macro's value is reported as unterminated at each use. *)
Example comment_ends_value : of_text "#define N 1 /* one */
N
" = Ok (true, "1 
"%string, ["Unterminated /* comment"%string]).
Proof. by vm_compute. Qed.

(** Any initial part of a directive's name is taken for the directive. *)
Example directive_prefix : of_text "#d N 1
N
" = Ok (true, "1
"%string, []).
Proof. by vm_compute. Qed.

(** #elif in a conditional that is itself ignored makes its group active. *)
Example elif_in_ignored_group : of_text "#ifdef A
#if 0
#elif 1
x
#endif
#endif
" = Ok (true, "x
"%string, []).
Proof. by vm_compute. Qed.

(** #else after an #elif that follows a selected group is a duplicate. *)
Example else_after_elif : of_text "#if 1
x
#elif 1
y
#else
z
#endif
" = Ok (false, "x
 "%string, ["Duplicate #else clause for preprocessor conditional"%string]).
Proof. by vm_compute. Qed.

(** #else without #if reads before the first element of the stack. *)
Example else_without_if : of_text "#else
" = Stop Undef.
Proof. by vm_compute. Qed.

(** A conditional that is still open at the end of the file is accepted when its
    last group is active. *)
Example unterminated_conditional_accepted : of_text "#ifdef __STDC__
x
" = Ok (true, "x
"%string, []).
Proof. by vm_compute. Qed.

(** -1 < 0 is false: conditions are computed unsigned. *)
Example condition_is_unsigned :
  match eval_pp_expr (LESS_THAN_EXPR (UNARY_MINUS_EXPR (INT_LITERAL_EXPR (mkIntLiteral 1 0)))
                       (INT_LITERAL_EXPR (mkIntLiteral 0 0))) initial_pp with
  | Ok (r, _) => r = (0, true)
  | Stop _ => False
  end.
Proof. by vm_compute. Qed.
