(* ===== verification/CType.v ===== *)
(** * C types ([src/src/ir_gen/c_type.h], [src/src/ir_gen/c_type.c])

    [CType] objects are compared by address and altered through pointers, so they
    live in a store: a [CType *] is an index into [ctypes], which only grows. The
    types embedded in [TypeEnv] are the first objects of the store. The IR types
    of arrays, which the code keeps in the pool of the module and alters when the
    length becomes known, are indices into [ir_types]; those of structs point
    into the struct types of the module. The size of an array type is
    uninitialised ([None]) until the array is complete. *)

From S2P Require Import Prelude Ast Lex Ir.

Local Open Scope Z_scope.

(** ** Data *)

Inductive IntKind := BOOL | CHAR | SHORT | INT | LONG | LONG_LONG.
Inductive FloatKind := FLOAT | DOUBLE | LONG_DOUBLE.

#[export] Instance IntKind_eq_dec : EqDecision IntKind.
Proof. solve_decision. Defined.
#[export] Instance FloatKind_eq_dec : EqDecision FloatKind.
Proof. solve_decision. Defined.

Record CDecl := mkCDecl { cd_name : option string; cd_type : nat }.

Inductive CType :=
| VOID_TYPE
| INTEGER_TYPE (type : IntKind) (is_signed : bool)
| FLOAT_TYPE (floatt : FloatKind)
| FUNCTION_TYPE (return_type : nat) (arg_type_array : list nat) (variable_arity : bool)
| STRUCT_TYPE (incomplete : bool) (fields : list CDecl) (ir_type : option nat)
| POINTER_TYPE (pointee_type : nat)
| ARRAY_TYPE (elem_type : nat) (incomplete : bool) (size : option Z) (ir_type : nat).

(** [TypeEnvEntry]s: a name and the object that holds the type. *)
Record TypeEnv := mkTypeEnv {
  ctypes : list CType;
  ir_types : list IrType;
  struct_types : list (string * nat);
  enum_types : list (string * nat);
  typedef_types : list (string * nat)
}.

Definition void_type := 0%nat.
Definition bool_type := 1%nat.
Definition char_type := 2%nat.
Definition unsigned_char_type := 3%nat.
Definition short_type := 4%nat.
Definition unsigned_short_type := 5%nat.
Definition int_type := 6%nat.
Definition unsigned_int_type := 7%nat.
Definition long_type := 8%nat.
Definition unsigned_long_type := 9%nat.
Definition long_long_type := 10%nat.
Definition unsigned_long_long_type := 11%nat.
Definition float_type := 12%nat.
Definition double_type := 13%nat.
Definition long_double_type := 14%nat.
Definition size_type := unsigned_long_type.
Definition int_ptr_type := unsigned_long_type.

Definition builtin_ctypes : list CType :=
  [VOID_TYPE; INTEGER_TYPE BOOL false; INTEGER_TYPE CHAR true; INTEGER_TYPE CHAR false;
   INTEGER_TYPE SHORT true; INTEGER_TYPE SHORT false; INTEGER_TYPE INT true; INTEGER_TYPE INT false;
   INTEGER_TYPE LONG true; INTEGER_TYPE LONG false; INTEGER_TYPE LONG_LONG true;
   INTEGER_TYPE LONG_LONG false; FLOAT_TYPE FLOAT; FLOAT_TYPE DOUBLE; FLOAT_TYPE LONG_DOUBLE].

Definition init_type_env : TypeEnv := mkTypeEnv builtin_ctypes [] [] [] [].

Definition set_ctypes (te : TypeEnv) x :=
  mkTypeEnv x (ir_types te) (struct_types te) (enum_types te) (typedef_types te).
Definition set_ir_types (te : TypeEnv) x :=
  mkTypeEnv (ctypes te) x (struct_types te) (enum_types te) (typedef_types te).
Definition set_struct_types (te : TypeEnv) x :=
  mkTypeEnv (ctypes te) (ir_types te) x (enum_types te) (typedef_types te).
Definition set_enum_types (te : TypeEnv) x :=
  mkTypeEnv (ctypes te) (ir_types te) (struct_types te) x (typedef_types te).
Definition set_typedef_types (te : TypeEnv) x :=
  mkTypeEnv (ctypes te) (ir_types te) (struct_types te) (enum_types te) x.

(** [*t] and [pool_alloc] of a type. *)
Definition ctype (te : TypeEnv) (t : nat) : res CType := of_opt (ctypes te !! t).
Definition new_ctype (c : CType) : st TypeEnv nat :=
  te ← get;
  put (set_ctypes te (ctypes te ++ [c]));;
  mret (length (ctypes te)).
Definition set_ctype (t : nat) (c : CType) : st TypeEnv unit :=
  modify (fun te => set_ctypes te (<[t := c]> (ctypes te))).

(** [emit_fatal_error_no_loc] exits with the internal error code. *)
Definition FATAL {A} : res A := ICE.

(** ** Operations *)

(** [for (i < arity)]: the argument types pairwise. *)
Fixpoint all_eq (eq : nat -> nat -> res bool) (l1 l2 : list nat) : res bool :=
  match l1, l2 with
  | x :: l1, y :: l2 =>
      e ← eq x y;
      if negb (e : bool) then Ok false else all_eq eq l1 l2
  | _, _ => Ok true
  end.

Section TypeEq.
Variable te : TypeEnv.

(** Types are a graph; [fuel] bounds the depth that is compared. *)
Fixpoint c_type_eq_aux (fuel : nat) (a b : nat) : res bool :=
  match fuel with
  | O => Stop NoFuel
  | S fuel =>
      ca ← ctype te a;
      cb ← ctype te b;
      match ca, cb with
      | VOID_TYPE, VOID_TYPE => Ok true
      | INTEGER_TYPE k1 s1, INTEGER_TYPE k2 s2 => Ok (bool_decide (k1 = k2) && Bool.eqb s1 s2)
      | FLOAT_TYPE f1, FLOAT_TYPE f2 => Ok (bool_decide (f1 = f2))
      | FUNCTION_TYPE r1 l1 _, FUNCTION_TYPE r2 l2 _ =>
          if negb (Nat.eqb (length l1) (length l2)) then Ok false
          else
            x ← c_type_eq_aux fuel r1 r2;
            if negb (x : bool) then Ok false
            else
              all_eq (c_type_eq_aux fuel) l1 l2
      | STRUCT_TYPE i1 _ t1, STRUCT_TYPE i2 _ t2 =>
          if negb (Bool.eqb i1 i2) then Ok false
          else if i1 then Ok (Nat.eqb a b)
          else t1 ← of_opt t1; t2 ← of_opt t2; Ok (Nat.eqb t1 t2)
      | POINTER_TYPE p1, POINTER_TYPE p2 =>
          ASSERT (negb (Nat.eqb a p1));;
          ASSERT (negb (Nat.eqb b p2));;
          c_type_eq_aux fuel p1 p2
      | ARRAY_TYPE e1 i1 s1 _, ARRAY_TYPE e2 i2 s2 _ =>
          same ← (if i1 && i2 then Ok true
                  else s1 ← of_opt s1; s2 ← of_opt s2; Ok (s1 =? s2));
          if (same : bool) then c_type_eq_aux fuel e1 e2 else Ok false
      | _, _ => Ok false
      end
  end.

(** No path through the types of the store is longer than the store. *)
Definition c_type_eq (a b : nat) : res bool := c_type_eq_aux (S (length (ctypes te))) a b.

Definition int_width (k : IntKind) : Z :=
  match k with BOOL | CHAR => 8 | SHORT => 16 | INT => 32 | LONG | LONG_LONG => 64 end.
Definition float_bits_of (f : FloatKind) : Z :=
  match f with FLOAT => 32 | DOUBLE => 64 | LONG_DOUBLE => 80 end.

(** The struct types are those of the module. *)
Definition c_type_to_ir_type (m : IrModule) (t : nat) : res IrType :=
  c ← ctype te t;
  match c with
  | VOID_TYPE => Ok IR_VOID
  | INTEGER_TYPE k _ => Ok (IR_INT (int_width k))
  | FLOAT_TYPE f => Ok (IR_FLOAT (float_bits_of f))
  | POINTER_TYPE _ => Ok IR_POINTER
  | ARRAY_TYPE _ _ _ i => of_opt (ir_types te !! i)
  | FUNCTION_TYPE _ _ _ => Ok (IR_FUNCTION IR_VOID false [])
  | STRUCT_TYPE incomplete _ i =>
      if incomplete : bool then FATAL
      else i ← of_opt i; of_opt (types m !! i)
  end.

Definition c_type_size (m : IrModule) (t : nat) : res Z :=
  i ← c_type_to_ir_type m t; size_of_ir_type i.

Definition int_rank (k : IntKind) : Z :=
  match k with BOOL => 0 | CHAR => 1 | SHORT => 2 | INT => 3 | LONG => 4 | LONG_LONG => 5 end.
Definition c_type_rank (t : nat) : res Z :=
  c ← ctype te t;
  match c with INTEGER_TYPE k _ => Ok (int_rank k) | _ => ICE end.

Definition c_type_num_fields (t : nat) : res Z :=
  c ← ctype te t;
  match c with
  | STRUCT_TYPE _ l _ => Ok (Z.of_nat (length l))
  | ARRAY_TYPE _ _ s _ => s ← of_opt s; Ok (u32 s)
  | _ => UNREACHABLE
  end.

(** [(i64)value] against the least and greatest value of the type. *)
Definition value_fits_in_type (t : nat) (value : Z) : res bool :=
  c ← ctype te t;
  match c with
  | INTEGER_TYPE k is_signed =>
      let w := int_width k in
      if is_signed : bool then
        let min := i64 (- i64 (Z.shiftl 1 (w - 1))) in
        let max := i64 (Z.shiftl 1 (w - 1) - 1) in
        Ok ((min <=? i64 value) && (i64 value <=? max))
      else if w =? 64 then Ok true
      else Ok ((0 <=? i64 value) && (i64 value <=? i64 (Z.shiftl 1 w - 1)))
  | _ => ICE
  end.

Fixpoint type_that_fits (types : list nat) (value : Z) : res nat :=
  match types with
  | [] => UNREACHABLE
  | t :: types =>
      b ← value_fits_in_type t value;
      if (b : bool) then Ok t else type_that_fits types value
  end.

Definition type_of_int_literal (l : IntLiteral) : res nat :=
  let value := int_value l in
  let suffix := int_suffix l in
  let u_suffix := negb (Z.land suffix UNSIGNED_SUFFIX =? 0) in
  let l_suffix := negb (Z.land suffix LONG_SUFFIX =? 0) in
  let ll_suffix := negb (Z.land suffix LONG_LONG_SUFFIX =? 0) in
  ASSERT (negb (l_suffix && ll_suffix));;
  if suffix =? NO_SUFFIX then type_that_fits [int_type; long_type; long_long_type] value
  else if u_suffix && negb l_suffix && negb ll_suffix then
    type_that_fits [unsigned_int_type; unsigned_long_type; unsigned_long_long_type] value
  else if negb u_suffix && l_suffix then type_that_fits [long_type; long_long_type] value
  else if u_suffix && l_suffix then
    type_that_fits [unsigned_long_type; unsigned_long_long_type] value
  else if negb u_suffix && ll_suffix then type_that_fits [long_long_type] value
  else if u_suffix && ll_suffix then type_that_fits [unsigned_long_long_type] value
  else UNREACHABLE.

Definition type_of_float_literal (l : FloatLiteral) : nat :=
  if float_suffix l =? FLOAT_SUFFIX then float_type
  else if float_suffix l =? LONG_SUFFIX then long_double_type
  else double_type.

Definition is_arithmetic_type (t : nat) : res bool :=
  c ← ctype te t;
  Ok match c with INTEGER_TYPE _ _ | FLOAT_TYPE _ => true | _ => false end.

Definition fatal_error_if_not_int (t : nat) : res unit :=
  c ← ctype te t;
  match c with INTEGER_TYPE _ _ => Ok tt | _ => FATAL end.

Definition fatal_error_if_type_not_eq (actual expected : nat) : res unit :=
  e ← c_type_eq actual expected;
  if (e : bool) then Ok tt else FATAL.

End TypeEq.

(** The first entry of that name. *)
Fixpoint search (types : list (string * nat)) (name : string) : option nat :=
  match types with
  | [] => None
  | (n, t) :: types => if String.eqb n name then Some t else search types name
  end.

Definition pointer_type (t : nat) : st TypeEnv nat := new_ctype (POINTER_TYPE t).

Definition decay_to_pointer (t : nat) : st TypeEnv nat :=
  te ← get;
  c ← lift (ctype te t);
  match c with ARRAY_TYPE e _ _ _ => pointer_type e | _ => mret t end.

(** The IR type of an array of arrays is one array of the innermost elements. *)
Definition array_type (m : IrModule) (t : nat) : st TypeEnv nat :=
  te ← get;
  elem_type ← lift (c_type_to_ir_type te m t);
  let ir := match elem_type with
            | IR_ARRAY e size => IR_ARRAY e size
            | e => IR_ARRAY e 0
            end in
  put (set_ir_types te (ir_types te ++ [ir]));;
  new_ctype (ARRAY_TYPE t true None (length (ir_types te))).

(** How many innermost elements an element has. *)
Definition inner_size (te : TypeEnv) (elem : CType) : res Z :=
  match elem with
  | ARRAY_TYPE _ _ _ i =>
      x ← of_opt (ir_types te !! i);
      match x with IR_ARRAY _ n => Ok n | _ => Stop Undef end
  | _ => Ok 1
  end.

Definition set_array_type_length (array : nat) (size : Z) : st TypeEnv unit :=
  te ← get;
  c ← lift (ctype te array);
  match c with
  | ARRAY_TYPE e _ _ i =>
      ce ← lift (ctype te e);
      inner ← lift (inner_size te ce);
      ir ← lift (of_opt (ir_types te !! i));
      match ir with
      | IR_ARRAY base _ =>
          put (set_ctypes (set_ir_types te (<[i := IR_ARRAY base (u64 (size * inner))]> (ir_types te)))
                 (<[array := ARRAY_TYPE e false (Some size) i]> (ctypes te)))
      | _ => lift (Stop Undef)
      end
  | _ => lift ICE
  end.

(** A new entry of the struct types; every struct starts out incomplete. *)
Definition struct_type (name : option string) : st TypeEnv nat :=
  t ← new_ctype (STRUCT_TYPE true [] None);
  modify (fun te => set_struct_types te
    (struct_types te ++ [(default "<anonymous struct>" name, t)]));;
  mret t.

Fixpoint matches_sequence (l : list ASTDeclSpecifier) (names : list string) : res bool :=
  match names with
  | [] => Ok (match l with [] => true | _ => false end)
  | str :: names =>
      match l with
      | [] => Ok false
      | TYPE_SPECIFIER (NAMED_TYPE_SPECIFIER name) :: l =>
          if String.eqb name str then matches_sequence l names else Ok false
      | TYPE_SPECIFIER _ :: l => Ok false
      | _ :: l => ICE
      end
  end.

(** The sequences in the order in which the code tries them. *)
Definition type_sequences : list (list string * nat) :=
  [(["void"], void_type);
   (["char"], char_type); (["signed"; "char"], char_type);
   (["unsigned"; "char"], unsigned_char_type);
   (["_Bool"], bool_type);
   (["short"], short_type); (["signed"; "short"], short_type);
   (["short"; "int"], short_type); (["signed"; "short"; "int"], short_type);
   (["unsigned"; "short"], unsigned_short_type);
   (["unsigned"; "short"; "int"], unsigned_short_type);
   (["int"], int_type); (["signed"], int_type); (["signed"; "int"], int_type);
   (["unsigned"], unsigned_int_type); (["unsigned"; "int"], unsigned_int_type);
   (["long"], long_type); (["signed"; "long"], long_type);
   (["long"; "int"], long_type); (["signed"; "long"; "int"], long_type);
   (["unsigned"; "long"], unsigned_long_type);
   (["unsigned"; "long"; "int"], unsigned_long_type);
   (["long"; "long"], long_long_type); (["signed"; "long"; "long"], long_long_type);
   (["long"; "long"; "int"], long_long_type);
   (["signed"; "long"; "long"; "int"], long_long_type);
   (["unsigned"; "long"; "long"], unsigned_long_long_type);
   (["unsigned"; "long"; "long"; "int"], unsigned_long_long_type);
   (["float"], float_type); (["double"], double_type);
   (["long"; "double"], long_double_type)]%string.

Fixpoint first_sequence (seqs : list (list string * nat)) (l : list ASTDeclSpecifier) : res (option nat) :=
  match seqs with
  | [] => Ok None
  | (names, t) :: seqs =>
      b ← matches_sequence l names;
      if (b : bool) then Ok (Some t) else first_sequence seqs l
  end.

Definition named_type_specifier_to_ctype (te : TypeEnv) (l : list ASTDeclSpecifier) : res nat :=
  match l with
  | TYPE_SPECIFIER (NAMED_TYPE_SPECIFIER name) :: _ =>
      o ← first_sequence type_sequences l;
      match o with
      | Some t => Ok t
      | None => match search (typedef_types te) name with Some t => Ok t | None => FATAL end
      end
  | TYPE_SPECIFIER _ :: _ => ICE
  | _ => Stop Undef
  end.

(** ** Well-formed stores *)

(** The types a type is made of; struct fields may point anywhere. *)
Definition components (c : CType) : list nat :=
  match c with
  | FUNCTION_TYPE r l _ => r :: l
  | POINTER_TYPE p => [p]
  | ARRAY_TYPE e _ _ _ => [e]
  | _ => []
  end.

(** Types are built from types that already exist. *)
Definition ranked (te : TypeEnv) : Prop :=
  forall t c u, ctypes te !! t = Some c -> u ∈ components c -> (u < t)%nat.

(** What a type needs from the store and the module: the IR type of a complete
    struct, a flat IR array type. *)
Definition ctype_ok (te : TypeEnv) (m : IrModule) (c : CType) : Prop :=
  match c with
  | STRUCT_TYPE incomplete l i =>
      Forall (fun f => (cd_type f < length (ctypes te))%nat) l /\
      (incomplete = false -> exists k n f s nf al,
         i = Some k /\ types m !! k = Some (IR_STRUCT n f s nf al))
  | ARRAY_TYPE _ incomplete s i =>
      (incomplete = false <-> is_Some s) /\
      exists b n, ir_types te !! i = Some (IR_ARRAY b n) /\ forall e k, b <> IR_ARRAY e k
  | _ => True
  end.

Lemma all_eq_refl eq l : (forall x, x ∈ l -> eq x x = Ok true) -> all_eq eq l l = Ok true.
Proof.
  induction l as [|x l IH]; intros H; [done |]. cbn. rewrite H by set_solver. cbn. apply IH. set_solver.
Qed.

Lemma all_eq_sym eq l1 l2 : (forall x y, x ∈ l1 -> y ∈ l2 -> eq x y = eq y x) -> all_eq eq l1 l2 = all_eq eq l2 l1.
Proof.
  revert l2. induction l1 as [|x l1 IH]; intros [|y l2] H; try done. cbn. rewrite (H x y) by set_solver.
  destruct (eq y x) as [[]|]; cbn; try done. apply IH. intros; apply H; set_solver.
Qed.

Lemma all_eq_ext eq eq' l1 l2 : (forall x y, x ∈ l1 -> eq x y = eq' x y) -> all_eq eq l1 l2 = all_eq eq' l1 l2.
Proof.
  revert l2. induction l1 as [|x l1 IH]; intros [|y l2] H; try done. cbn. rewrite H by set_solver.
  destruct (eq' x y) as [[]|]; cbn; try done. apply IH. intros; apply H; set_solver.
Qed.

Lemma all_eq_trans f l1 l2 l3 :
  (forall x y z, x ∈ l1 -> y ∈ l2 -> f x y = Ok true -> f y z = Ok true -> f x z = Ok true) ->
  length l1 = length l2 -> length l2 = length l3 ->
  all_eq f l1 l2 = Ok true -> all_eq f l2 l3 = Ok true -> all_eq f l1 l3 = Ok true.
Proof.
  revert l2 l3. induction l1 as [|x l1 IH]; intros [|y l2] [|z l3] H L1 L2 H1 H2; try done.
  cbn in H1, H2, L1, L2 |- *. mstep. destruct a, a0; try done.
  rewrite (H x y z) by (set_solver || done). cbn.
  apply (IH l2 l3); [intros u v w Hu Hv; apply (H u v w); set_solver | lia | lia | done | done].
Qed.

Section Compare.
Context (te : TypeEnv) (m : IrModule) (Hr : ranked te)
  (Hok : forall t c, ctypes te !! t = Some c -> ctype_ok te m c).

Lemma rank_lt t c u : ctypes te !! t = Some c -> u ∈ components c -> (u < t)%nat.
Proof. apply Hr. Qed.

(** Fuel above the index of the first type is enough. *)
Lemma c_type_eq_fuel a : forall n1 n2 b, (a < n1)%nat -> (a < n2)%nat ->
  c_type_eq_aux te n1 a b = c_type_eq_aux te n2 a b.
Proof.
  induction (lt_wf a) as [a _ IH]. intros [|n1] [|n2] b H1 H2; try lia. cbn. unfold ctype.
  destruct (ctypes te !! a) as [ca|] eqn:Ea; [cbn | done].
  destruct (ctypes te !! b) as [cb|] eqn:Eb; [cbn | done].
  assert (R : forall x y, x ∈ components ca -> c_type_eq_aux te n1 x y = c_type_eq_aux te n2 x y).
  { intros x y Hx. pose proof (rank_lt _ _ _ Ea Hx). apply IH; lia. }
  destruct ca, cb; try done; cbn in R.
  - case_match; [done |]. rewrite (R return_type) by set_solver.
    destruct (c_type_eq_aux te n2 _ _) as [[]|]; try done. cbn. apply all_eq_ext. set_solver.
  - rewrite R by set_solver. done.
  - match goal with |- (?m ≫= _) = _ => destruct m as [[]|]; [apply R; set_solver | done | done] end.
Qed.

Lemma c_type_eq_step a b n : (a < n)%nat -> (n <= S (length (ctypes te)))%nat ->
  c_type_eq_aux te n a b = c_type_eq te a b.
Proof.
  intros H H'. unfold c_type_eq. apply c_type_eq_fuel; lia.
Qed.

Lemma c_type_eq_refl a : (a < length (ctypes te))%nat -> c_type_eq te a a = Ok true.
Proof.
  unfold c_type_eq. induction (lt_wf a) as [a _ IH]. intros Ha.
  destruct (lookup_lt_is_Some_2 _ _ Ha) as [c Ec].
  cbn. unfold ctype. rewrite Ec. cbn.
  assert (R : forall x, x ∈ components c -> c_type_eq_aux te (length (ctypes te)) x x = Ok true).
  { intros x Hx. pose proof (rank_lt _ _ _ Ec Hx). rewrite (c_type_eq_fuel _ _ (S (length (ctypes te)))) by lia.
    apply IH; lia. }
  pose proof (Hok _ _ Ec) as Hc. destruct c as [| k s | f | r l v | i l t | p | e i s t]; cbn in R; try done.
  - by rewrite bool_decide_true, eqb_reflx.
  - by rewrite bool_decide_true.
  - rewrite Nat.eqb_refl. cbn. rewrite R by set_solver. cbn. apply all_eq_refl. set_solver.
  - rewrite eqb_reflx. cbn. destruct i; [by rewrite Nat.eqb_refl |].
    destruct Hc as [_ Hc]. destruct (Hc eq_refl) as (k & ? & ? & ? & ? & ? & -> & _). cbn. by rewrite Nat.eqb_refl.
  - pose proof (rank_lt _ _ p Ec ltac:(set_solver)). replace (Nat.eqb a p) with false by (symmetry; apply Nat.eqb_neq; lia).
    cbn. apply R; set_solver.
  - destruct Hc as [Hc _]. destruct i; cbn; [apply R; set_solver |].
    destruct (proj1 Hc eq_refl) as [x ->]. cbn. rewrite Z.eqb_refl. cbn. apply R; set_solver.
Qed.

Lemma c_type_eq_sym a : forall b, c_type_eq te a b = c_type_eq te b a.
Proof.
  unfold c_type_eq. induction (lt_wf a) as [a _ IH]. intros b. cbn. unfold ctype.
  destruct (ctypes te !! a) as [ca|] eqn:Ea, (ctypes te !! b) as [cb|] eqn:Eb; try done. cbn.
  apply lookup_lt_Some in Ea as La. apply lookup_lt_Some in Eb as Lb.
  assert (R : forall x y, x ∈ components ca -> y ∈ components cb ->
    c_type_eq_aux te (length (ctypes te)) x y = c_type_eq_aux te (length (ctypes te)) y x).
  { intros x y Hx Hy. pose proof (rank_lt _ _ _ Ea Hx). pose proof (rank_lt _ _ _ Eb Hy).
    rewrite (c_type_eq_fuel x _ (S (length (ctypes te)))), (c_type_eq_fuel y _ (S (length (ctypes te)))) by lia.
    apply IH; lia. }
  destruct ca, cb; try done; cbn in R.
  - rewrite (bool_decide_ext (type = type0) (type0 = type)) by naive_solver. destruct is_signed, is_signed0; done.
  - rewrite (bool_decide_ext (floatt = floatt0) (floatt0 = floatt)) by naive_solver. done.
  - rewrite Nat.eqb_sym. case_match; [done |]. rewrite (R return_type return_type0) by set_solver.
    destruct (c_type_eq_aux te _ return_type0 _) as [[]|]; try done. cbn. apply all_eq_sym. set_solver.
  - destruct incomplete, incomplete0; try done; cbn.
    + by rewrite Nat.eqb_sym.
    + destruct ir_type, ir_type0; cbn; try done. by rewrite Nat.eqb_sym.
  - destruct (negb (Nat.eqb a pointee_type)), (negb (Nat.eqb b pointee_type0)); try done. cbn. apply R; set_solver.
  - rewrite (R elem_type elem_type0) by set_solver.
    destruct incomplete, incomplete0, size, size0; cbn; try done; rewrite Z.eqb_sym; done.
Qed.

Lemma c_type_eq_trans a : forall b c, c_type_eq te a b = Ok true -> c_type_eq te b c = Ok true ->
  c_type_eq te a c = Ok true.
Proof.
  unfold c_type_eq. induction (lt_wf a) as [a _ IH]. intros b c. cbn. unfold ctype.
  destruct (ctypes te !! a) as [ca|] eqn:Ea, (ctypes te !! b) as [cb|] eqn:Eb,
    (ctypes te !! c) as [cc|] eqn:Ec; try done. cbn.
  apply lookup_lt_Some in Ea as La. apply lookup_lt_Some in Eb as Lb. apply lookup_lt_Some in Ec as Lc.
  set (eq := c_type_eq_aux te (length (ctypes te))).
  assert (R : forall x y z, x ∈ components ca -> y ∈ components cb -> eq x y = Ok true -> eq y z = Ok true ->
    eq x z = Ok true).
  { intros x y z Hx Hy. unfold eq. pose proof (rank_lt _ _ _ Ea Hx). pose proof (rank_lt _ _ _ Eb Hy).
    set (n := S (length (ctypes te))) in *. rewrite (c_type_eq_fuel x _ n y), (c_type_eq_fuel x _ n z) by lia.
    rewrite (c_type_eq_fuel y _ n z) by lia. apply IH; lia. }
  destruct ca, cb; try done; destruct cc; try done; cbn in R.
  - intros H1 H2. injection H1 as H1. injection H2 as H2. bsplit.
    repeat match goal with
    | H : bool_decide _ = true |- _ => apply bool_decide_eq_true in H
    | H : eqb _ _ = true |- _ => apply eqb_prop in H
    end. subst. by rewrite bool_decide_true, eqb_reflx.
  - intros H1 H2. injection H1 as H1. injection H2 as H2. apply bool_decide_eq_true in H1, H2. subst.
    by rewrite bool_decide_true.
  - destruct (Nat.eqb_spec (length arg_type_array) (length arg_type_array0)) as [L1|]; [cbn | done].
    destruct (Nat.eqb_spec (length arg_type_array0) (length arg_type_array1)) as [L2|]; [cbn | done].
    intros H1 H2. mstep. destruct a0, a1; try done. cbn in H1, H2.
    replace (Nat.eqb _ _) with true by (symmetry; apply Nat.eqb_eq; lia). cbn.
    fold eq in E, E0. fold eq in H1, H2. rewrite (R return_type return_type0 return_type1) by (set_solver || done). cbn.
    apply (all_eq_trans eq _ arg_type_array0); try done.
    intros x y z Hx Hy. apply (R x y z); set_solver.
  - destruct incomplete, incomplete0; try done; cbn; destruct incomplete1; try done; cbn.
    + intros H1 H2. injection H1 as ->%Nat.eqb_eq. injection H2 as ->%Nat.eqb_eq. by rewrite Nat.eqb_refl.
    + destruct ir_type, ir_type0; cbn; try done. destruct ir_type1; cbn; try done.
      intros H1 H2. injection H1 as ->%Nat.eqb_eq. injection H2 as ->%Nat.eqb_eq. by rewrite Nat.eqb_refl.
  - destruct (negb (Nat.eqb a pointee_type)), (negb (Nat.eqb b pointee_type0)),
      (negb (Nat.eqb c pointee_type1)); try done. cbn. apply R; set_solver.
  - intros H1 H2. mstep. destruct a0, a1; try done.
    pose proof (Hok _ _ Ea) as [Oa _]. pose proof (Hok _ _ Eb) as [Ob _]. pose proof (Hok _ _ Ec) as [Oc _].
    assert (X : (if incomplete && incomplete1 then Ok true
                 else s1 ← of_opt size; s2 ← of_opt size1; Ok (s1 =? s2)) = Ok true).
    { clear R. destruct incomplete, incomplete0, incomplete1, size, size0, size1; cbn in *; try done;
        try (exfalso; naive_solver);
        repeat match goal with H : Ok (_ =? _) = Ok true |- _ => injection H as ->%Z.eqb_eq end;
        by rewrite Z.eqb_refl. }
    rewrite X. cbn. eapply R; eauto; set_solver.
Qed.

End Compare.

(** The types embedded in the environment are where [init_type_env] put them. *)
Definition builtins (te : TypeEnv) : Prop :=
  forall t c, builtin_ctypes !! t = Some c -> ctypes te !! t = Some c.

Lemma builtin_ctype te t c : builtins te -> builtin_ctypes !! t = Some c -> ctype te t = Ok c.
Proof. intros H E. unfold ctype. by rewrite (H _ _ E). Qed.

Lemma ctype_Ok te t c : ctype te t = Ok c <-> ctypes te !! t = Some c.
Proof. unfold ctype. destruct (ctypes te !! t); cbn; naive_solver. Qed.

Lemma init_builtins : builtins init_type_env.
Proof. by intros t c E. Qed.

Lemma init_ranked : ranked init_type_env.
Proof.
  intros t c u E Hu. apply list_elem_of_lookup_2 in E. cbn in E.
  repeat (apply elem_of_cons in E as [-> | E]; [by apply elem_of_nil in Hu |]). by apply elem_of_nil in E.
Qed.

Lemma init_ok m t c : ctypes init_type_env !! t = Some c -> ctype_ok init_type_env m c.
Proof.
  intros E. apply list_elem_of_lookup_2 in E. cbn in E.
  repeat (apply elem_of_cons in E as [-> | E]; [done |]). by apply elem_of_nil in E.
Qed.

(** ** Integer literals *)

(** The greatest value of an integer type. *)
Definition int_max (k : IntKind) (is_signed : bool) : Z :=
  if is_signed then 2 ^ (int_width k - 1) - 1 else 2 ^ int_width k - 1.

(** C99 6.4.4.1.5, the column for decimal literals. *)
Definition decimal_types (u l ll : bool) : list (IntKind * bool) :=
  match u, l, ll with
  | false, false, false => [(INT, true); (LONG, true); (LONG_LONG, true)]
  | true, false, false => [(INT, false); (LONG, false); (LONG_LONG, false)]
  | false, true, _ => [(LONG, true); (LONG_LONG, true)]
  | true, true, _ => [(LONG, false); (LONG_LONG, false)]
  | false, false, true => [(LONG_LONG, true)]
  | true, false, true => [(LONG_LONG, false)]
  end.
Fixpoint first_fit (l : list (IntKind * bool)) (v : Z) : option (IntKind * bool) :=
  match l with
  | [] => None
  | (k, s) :: l => if v <=? int_max k s then Some (k, s) else first_fit l v
  end.

Definition suffix_of (u l ll : bool) : Z :=
  Z.lor (Z.lor (if u then UNSIGNED_SUFFIX else 0) (if l then LONG_SUFFIX else 0))
        (if ll then LONG_LONG_SUFFIX else 0).

(** The type object of an integer type. *)
Definition int_ctype (k : IntKind) (s : bool) : nat :=
  match k, s with
  | BOOL, _ => bool_type
  | CHAR, true => char_type | CHAR, false => unsigned_char_type
  | SHORT, true => short_type | SHORT, false => unsigned_short_type
  | INT, true => int_type | INT, false => unsigned_int_type
  | LONG, true => long_type | LONG, false => unsigned_long_type
  | LONG_LONG, true => long_long_type | LONG_LONG, false => unsigned_long_long_type
  end.

Lemma value_fits te k s v : builtins te -> k <> BOOL -> 0 <= v < 2 ^ 64 -> (v < 2 ^ 63 \/ s = false) ->
  value_fits_in_type te (int_ctype k s) v = Ok (v <=? int_max k s).
Proof.
  intros Hb Hk Hv Hs. unfold value_fits_in_type.
  rewrite (builtin_ctype _ _ (INTEGER_TYPE k s) Hb) by (destruct k, s; done). cbn.
  assert (E1 : i64 (- i64 (Z.shiftl 1 (int_width k - 1))) = - 2 ^ (int_width k - 1)) by (destruct k; done).
  assert (E2 : i64 (Z.shiftl 1 (int_width k - 1) - 1) = 2 ^ (int_width k - 1) - 1) by (destruct k; done).
  assert (E3 : int_width k <> 64 -> i64 (Z.shiftl 1 (int_width k) - 1) = 2 ^ int_width k - 1) by (by destruct k).
  rewrite E1, E2. clear E1 E2. destruct (Z.lt_ge_cases v (2 ^ 63)) as [L | G].
  - rewrite (i64_small v) by lia. destruct s; [destruct k; unfold int_max; cbn; f_equal; zcases; done |].
    destruct (Z.eqb_spec (int_width k) 64) as [E | E]; [destruct k; unfold int_max; cbn; f_equal; zcases; done |].
    rewrite E3 by done. destruct k; unfold int_max; cbn; try done; f_equal; zcases; done.
  - destruct Hs as [| ->]; [lia |].
    assert (N : i64 v < 0) by (unfold sgn, wrap; rewrite Z.mod_small by lia; zcases).
    revert N. generalize (i64 v). intros x N.
    destruct k; unfold int_max; cbn; try done; f_equal; zcases; done.
Qed.

Lemma type_that_fits_first te l v : builtins te -> Forall (fun '(k, s) => k <> BOOL /\ (v < 2 ^ 63 \/ s = false)) l ->
  0 <= v < 2 ^ 64 ->
  type_that_fits te ((fun '(k, s) => int_ctype k s) <$> l) v =
  match first_fit l v with Some (k, s) => Ok (int_ctype k s) | None => UNREACHABLE end.
Proof.
  intros Hb Hl Hv. induction Hl as [|[k s] l [Hk Hs] _ IH]; [done |]. cbn [type_that_fits fmap list_fmap first_fit].
  rewrite value_fits by done. unfold mbind, res_bind. destruct (v <=? int_max k s); [done |]. apply IH.
Qed.

(** An integer literal whose value its candidate types can hold gets the
    first type of the decimal column of the table of C99 6.4.4.1 in which it fits,
    whatever combination of suffixes it has. *)
Theorem int_literal_type te (u l ll : bool) v (Hb : builtins te) (Hsuf : l && ll = false)
    (Hv : 0 <= v < 2 ^ 64) (Hu : u = true \/ v < 2 ^ 63) :
  exists k s, first_fit (decimal_types u l ll) v = Some (k, s) /\
    type_of_int_literal te (mkIntLiteral v (suffix_of u l ll)) = Ok (int_ctype k s) /\
    ctype te (int_ctype k s) = Ok (INTEGER_TYPE k s) /\ 0 <= v <= int_max k s.
Proof.
  assert (F : exists k s, first_fit (decimal_types u l ll) v = Some (k, s) /\ k <> BOOL /\ v <= int_max k s).
  { destruct u, l, ll; cbn; destruct Hu; try done; unfold int_max; cbn; zcases; eexists _, _; split_and!; cbn; try done; lia. }
  destruct F as (k & s & E & Hk & Hm). exists k, s. split_and!; [done | | | lia | done].
  - assert (W : Forall (fun '(k, s) => k <> BOOL /\ (v < 2 ^ 63 \/ s = false)) (decimal_types u l ll)).
    { destruct u, l, ll; cbn; rewrite ?Forall_cons; naive_solver. }
    pose proof (type_that_fits_first te _ v Hb W Hv) as T. rewrite E in T. rewrite <- T.
    destruct u, l, ll; done.
  - apply builtin_ctype; [done |]. destruct k, s; done.
Qed.

Lemma int_literal_type_witness :
  exists k s, first_fit (decimal_types true false false) 5000000000 = Some (k, s) /\
    type_of_int_literal init_type_env (mkIntLiteral 5000000000 (suffix_of true false false)) = Ok (int_ctype k s) /\
    ctype init_type_env (int_ctype k s) = Ok (INTEGER_TYPE k s) /\ 0 <= 5000000000 <= int_max k s.
Proof.
  apply (int_literal_type init_type_env true false false 5000000000 init_builtins eq_refl).
  - lia.
  - by left.
Defined.

(** An unsuffixed literal above the range of [long long] is not rejected: from
    2^64 - 2^31 on it is an [int]. *)
Theorem huge_literal_is_int te v (Hb : builtins te) (Hv : 2 ^ 64 - 2 ^ 31 <= v < 2 ^ 64) :
  type_of_int_literal te (mkIntLiteral v NO_SUFFIX) = Ok int_type.
Proof.
  assert (E : i64 v = v - 2 ^ 64) by (unfold sgn, wrap; rewrite Z.mod_small by lia; zcases).
  change (type_that_fits te [int_type; long_type; long_long_type] v = Ok int_type).
  cbn [type_that_fits]. unfold value_fits_in_type.
  rewrite (builtin_ctype te int_type (INTEGER_TYPE INT true) Hb eq_refl), E. cbn [mbind res_bind int_width].
  change (i64 (- i64 (Z.shiftl 1 (32 - 1)))) with (- 2 ^ 31).
  change (i64 (Z.shiftl 1 (32 - 1) - 1)) with (2 ^ 31 - 1). cbn [mbind res_bind].
  rewrite (proj2 (Z.leb_le (- 2 ^ 31) _)), (proj2 (Z.leb_le _ (2 ^ 31 - 1))) by lia. done.
Qed.

Lemma huge_literal_is_int_witness :
  type_of_int_literal init_type_env (mkIntLiteral (2 ^ 64 - 1) NO_SUFFIX) = Ok int_type.
Proof. apply (huge_literal_is_int init_type_env _ init_builtins). lia. Defined.


Definition pointers_env : TypeEnv :=
  set_ctypes init_type_env (builtin_ctypes ++ [POINTER_TYPE int_type; POINTER_TYPE int_type; POINTER_TYPE int_type]).


(** ** Type specifiers *)

(** C99 6.7.2: what a list of type names means, whatever their order. *)
Definition count (s : string) (l : list string) : nat := length (filter (fun x => String.eqb s x = true) l).
Definition c99_type (l : list string) : option CType :=
  let n s := count s l in
  let only ss := forallb (fun x => existsb (String.eqb x) ss) l in
  let signs := (n "signed" + n "unsigned")%nat in
  let is_signed := Nat.eqb (n "unsigned") 0 in
  if bool_decide (l = ["void"]) then Some VOID_TYPE
  else if bool_decide (l = ["_Bool"]) then Some (INTEGER_TYPE BOOL false)
  else if bool_decide (l = ["float"]) then Some (FLOAT_TYPE FLOAT)
  else if Nat.eqb (n "double") 1 then
    if negb (only ["double"; "long"]) then None
    else match n "long" with O => Some (FLOAT_TYPE DOUBLE) | 1%nat => Some (FLOAT_TYPE LONG_DOUBLE) | _ => None end
  else if Nat.ltb 1 signs || Nat.ltb 1 (n "int") then None
  else if Nat.eqb (n "char") 1 then
    if only ["char"; "signed"; "unsigned"] then Some (INTEGER_TYPE CHAR is_signed) else None
  else if Nat.eqb (n "short") 1 then
    if only ["short"; "int"; "signed"; "unsigned"] then Some (INTEGER_TYPE SHORT is_signed) else None
  else if negb (only ["long"; "int"; "signed"; "unsigned"]) then None
  else match n "long" with
       | O => if bool_decide (l = []) then None else Some (INTEGER_TYPE INT is_signed)
       | 1%nat => Some (INTEGER_TYPE LONG is_signed)
       | 2%nat => Some (INTEGER_TYPE LONG_LONG is_signed)
       | _ => None
       end.

Definition named (names : list string) : list ASTDeclSpecifier :=
  (fun s => TYPE_SPECIFIER (NAMED_TYPE_SPECIFIER s)) <$> names.

Lemma matches_sequence_named l names : matches_sequence (named l) names = Ok (bool_decide (l = names)).
Proof.
  revert l. induction names as [|s names IH]; intros [|x l]; try done. cbn.
  destruct (String.eqb_spec x s) as [-> | N].
  - fold (named l). rewrite IH. f_equal. apply bool_decide_ext. naive_solver.
  - rewrite bool_decide_false by naive_solver. done.
Qed.

Lemma first_sequence_named seqs l :
  first_sequence seqs (named l) = Ok (snd <$> list_find (fun p => l = fst p) seqs ≫= fun p => Some (snd p)).
Proof.
  induction seqs as [|[names t] seqs IH]; [done |]. cbn. rewrite matches_sequence_named. cbn.
  destruct (decide (l = names)); [by rewrite bool_decide_true |].
  rewrite bool_decide_false, IH by done. destruct (list_find _ seqs) as [[? ?]|]; done.
Qed.

(** C30: The keyword sequences the compiler accepts have the types C99 6.7.2
    gives them, and a name that is not a typedef is accepted in no other
    sequence. *)
Theorem named_type_specifier_sound te names name rest (Hb : builtins te) (Hn : names = name :: rest)
    (Ht : search (typedef_types te) name = None) :
  match named_type_specifier_to_ctype te (named names) with
  | Ok t => exists c, ctype te t = Ok c /\ c99_type names = Some c /\ exists s, s ∈ type_sequences /\ names = s.1
  | Stop e => e = Exit EXIT_CODE_INTERNAL_COMPILER_ERROR /\ forall s, s ∈ type_sequences -> names <> s.1
  end.
Proof.
  subst names. cbn [named fmap list_fmap named_type_specifier_to_ctype]. fold (named rest).
  change (TYPE_SPECIFIER (NAMED_TYPE_SPECIFIER name) :: named rest) with (named (name :: rest)).
  rewrite first_sequence_named. cbn [mbind res_bind].
  destruct (list_find _ type_sequences) as [[i [l t]]|] eqn:E.
  - apply list_find_Some in E as (E & Ep & _). cbn in Ep. cbn.
    apply list_elem_of_lookup_2 in E as Hin. rewrite Ep.
    assert (G : exists c, builtin_ctypes !! t = Some c /\ c99_type l = Some c).
    { clear -Hin. unfold type_sequences in Hin.
      repeat (apply elem_of_cons in Hin as [[= -> ->] | Hin]; [eexists; split; vm_compute; reflexivity |]).
      by apply elem_of_nil in Hin. }
    destruct G as (c & G1 & G2). exists c. split_and!; [by apply builtin_ctype | done |].
    by exists (l, t).
  - cbn. rewrite Ht. split; [done |]. intros s Hs Es. apply list_find_None in E.
    rewrite Forall_forall in E. by apply (E s).
Qed.

Lemma named_type_specifier_sound_witness :
  match named_type_specifier_to_ctype init_type_env (named ["unsigned"; "long"; "int"]) with
  | Ok t => exists c, ctype init_type_env t = Ok c /\ c99_type ["unsigned"; "long"; "int"] = Some c /\
      exists s, s ∈ type_sequences /\ ["unsigned"; "long"; "int"] = s.1
  | Stop e => e = Exit EXIT_CODE_INTERNAL_COMPILER_ERROR /\
      forall s, s ∈ type_sequences -> ["unsigned"; "long"; "int"] <> s.1
  end.
Proof.
  exact (named_type_specifier_sound init_type_env ["unsigned"; "long"; "int"] "unsigned" ["long"; "int"]
    init_builtins eq_refl eq_refl).
Defined.

(** ** Arrays *)

Lemma type_wf_flat b k n s : type_wf (IR_ARRAY b k) -> size_of_ir_type (IR_ARRAY b k) = Ok s -> 0 < n -> n * s < 2 ^ 32 ->
  type_wf (IR_ARRAY b (u64 (n * k))) /\ size_of_ir_type (IR_ARRAY b (u64 (n * k))) = Ok (n * s).
Proof.
  intros (Hb & Hk & Hs) Es Hn Hlt. destruct (type_size_bounds b Hb) as (sb & _ & Eb & _ & Hsb & _).
  specialize (Hs sb Eb). cbn in Es. rewrite Eb in Es. destruct (Z.eqb_spec k 0); [lia |]. cbn in Es.
  rewrite (wrap_small 64), (wrap_small 32) in Es by nia. injection Es as <-.
  assert (0 < n * k) by nia. assert (n * k <= n * (k * sb)) by nia.
  rewrite (wrap_small 64 (n * k)) by lia. split.
  - split_and!; [done | done |]. intros s' E. rewrite Eb in E. injection E as <-. lia.
  - cbn. rewrite Eb. destruct (Z.eqb_spec (n * k) 0); [lia |]. cbn.
    rewrite (wrap_small 64), (wrap_small 32) by lia. f_equal. lia.
Qed.

Lemma type_wf_array b n s : type_wf b -> size_of_ir_type b = Ok s -> 0 < n -> n * s < 2 ^ 32 ->
  type_wf (IR_ARRAY b (u64 (n * 1))) /\ size_of_ir_type (IR_ARRAY b (u64 (n * 1))) = Ok (n * s).
Proof.
  intros Hb Es Hn Hlt. destruct (type_size_bounds b Hb) as (sb & _ & Eb & _ & Hsb & _).
  rewrite Eb in Es. injection Es as ->. assert (n <= n * s) by nia. rewrite Z.mul_1_r, (wrap_small 64) by lia. split.
  - split_and!; [done | done |]. intros s' E. rewrite Eb in E. injection E as <-. lia.
  - cbn. rewrite Eb. destruct (Z.eqb_spec n 0); [lia |]. cbn. by rewrite (wrap_small 64), (wrap_small 32) by lia.
Qed.

(** Only array types have IR array types. *)
Lemma ir_array_iff te m t c ir : ctype te t = Ok c -> ctype_ok te m c -> c_type_to_ir_type te m t = Ok ir ->
  match c with ARRAY_TYPE _ _ _ i => ir_types te !! i = Some ir | _ => forall e n, ir <> IR_ARRAY e n end.
Proof.
  intros Ec Hc E. unfold c_type_to_ir_type in E. rewrite Ec in E. cbn in E.
  destruct c; simplify_eq; try done.
  - destruct incomplete; [done |]. destruct Hc as [_ Hc].
    destruct (Hc eq_refl) as (k & ? & ? & ? & ? & ? & -> & Et). cbn in E. rewrite Et in E. by injection E as <-.
  - destruct (ir_types te !! ir_type) eqn:Ei; [by injection E as <- | done].
Qed.

Lemma c_type_to_ir_type_grow te m ct it u : (forall t c, ctypes te !! t = Some c -> ctype_ok te m c) ->
  (u < length (ctypes te))%nat ->
  c_type_to_ir_type (mkTypeEnv (ctypes te ++ ct) (ir_types te ++ it) (struct_types te) (enum_types te)
    (typedef_types te)) m u = c_type_to_ir_type te m u.
Proof.
  intros Hok Hu. unfold c_type_to_ir_type, ctype. cbn. rewrite lookup_app_l by done.
  destruct (ctypes te !! u) as [c|] eqn:E; [| done]. cbn. destruct c; try done.
  destruct (Hok _ _ E) as (_ & b & n & Ei & _). rewrite lookup_app_l by by eapply lookup_lt_Some. done.
Qed.

(** Declaring an array of [n] elements of a complete type gives a complete
    type whose IR type is a single flat array, of [n] times the element's size,
    and leaves the IR types of all existing types alone. *)
Theorem array_type_complete te m t n ir s (Hok : forall t c, ctypes te !! t = Some c -> ctype_ok te m c)
    (Hir : c_type_to_ir_type te m t = Ok ir) (Hwf : type_wf ir) (Hs : size_of_ir_type ir = Ok s)
    (Hn : 0 < n) (Hsize : n * s < 2 ^ 32) :
  exists a te1 te2, array_type m t te = Ok (a, te1) /\ set_array_type_length a n te1 = Ok (tt, te2) /\
    c_type_size te2 m a = Ok (n * s) /\
    (exists b k, c_type_to_ir_type te2 m a = Ok (IR_ARRAY b k) /\ type_wf (IR_ARRAY b k) /\
       forall e j, b <> IR_ARRAY e j) /\
    (forall u, (u < length (ctypes te))%nat -> c_type_to_ir_type te2 m u = c_type_to_ir_type te m u).
Proof.
  destruct (ctype te t) as [c|] eqn:Ec; [| unfold c_type_to_ir_type in Hir; by rewrite Ec in Hir].
  pose proof (proj1 (ctype_Ok te t c) Ec) as Et.
  pose proof (lookup_lt_Some _ _ _ Et) as Lt. pose proof (Hok _ _ Et) as Hc.
  pose proof (ir_array_iff te m t c ir Ec Hc Hir) as Ha.
  assert (W : exists b k j, (match ir with IR_ARRAY e z => IR_ARRAY e z | e => IR_ARRAY e 0 end) = IR_ARRAY b k /\
    j = (match c with ARRAY_TYPE _ _ _ _ => k | _ => 1 end) /\
    type_wf (IR_ARRAY b (u64 (n * j))) /\ size_of_ir_type (IR_ARRAY b (u64 (n * j))) = Ok (n * s) /\
    forall e j, b <> IR_ARRAY e j).
  { assert (B : (forall e k, ir <> IR_ARRAY e k) -> exists b k, match ir with IR_ARRAY e z => IR_ARRAY e z | e => IR_ARRAY e 0 end
      = IR_ARRAY b k /\ type_wf (IR_ARRAY b (u64 (n * 1))) /\ size_of_ir_type (IR_ARRAY b (u64 (n * 1))) = Ok (n * s) /\
      forall e j, b <> IR_ARRAY e j).
    { intros N. exists ir, 0. destruct (type_wf_array ir n s Hwf Hs Hn Hsize). split; [| done].
      destruct ir; try done. by destruct (N ir size). }
    destruct c; try (destruct (B Ha) as (b & k & B1 & B2); by exists b, k, 1).
    cbn in Hc. destruct Hc as (_ & b & k & Ei & Hb). rewrite Ei in Ha. injection Ha as <-.
    destruct (type_wf_flat b k n s Hwf Hs Hn Hsize). by exists b, k, k. }
  destruct W as (b & k & j & E1 & Ej & W1 & W2 & W3).
  set (ir1 := match ir with IR_ARRAY e z => IR_ARRAY e z | e => IR_ARRAY e 0 end) in E1.
  eexists (length (ctypes te)),
    (mkTypeEnv (ctypes te ++ [ARRAY_TYPE t true None (length (ir_types te))]) (ir_types te ++ [ir1])
       (struct_types te) (enum_types te) (typedef_types te)),
    (mkTypeEnv (ctypes te ++ [ARRAY_TYPE t false (Some n) (length (ir_types te))])
       (ir_types te ++ [IR_ARRAY b (u64 (n * j))]) (struct_types te) (enum_types te) (typedef_types te)).
  split_and!.
  - unfold array_type, mbind, st_bind. cbn [get]. rewrite Hir. done.
  - set (te1 := mkTypeEnv _ _ _ _ _).
    assert (M1 : ctype te1 (length (ctypes te)) = Ok (ARRAY_TYPE t true None (length (ir_types te)))).
    { apply ctype_Ok. by apply list_lookup_middle. }
    assert (M2 : ctype te1 t = Ok c) by (apply ctype_Ok; cbn; by rewrite lookup_app_l).
    assert (M3 : inner_size te1 c = Ok j).
    { destruct c; subst j; try done. cbn. rewrite lookup_app_l by (by eapply lookup_lt_Some). rewrite Ha. cbn.
      unfold ir1 in E1. destruct Hc as (_ & b' & k' & Ei & _). rewrite Ei in Ha. injection Ha as <-. by injection E1 as -> ->. }
    assert (M4 : ir_types te1 !! length (ir_types te) = Some (IR_ARRAY b k)) by (cbn; rewrite list_lookup_middle, E1; done).
    unfold set_array_type_length, mbind, st_bind, lift, get. rewrite M1, M2, M3, M4. cbn.
    unfold set_ctypes, set_ir_types. cbn. rewrite !insert_app_r_alt by lia. by rewrite !Nat.sub_diag.
  - unfold c_type_size, c_type_to_ir_type, ctype. cbn. rewrite list_lookup_middle by done. cbn.
    rewrite list_lookup_middle by done. done.
  - exists b, (u64 (n * j)). split_and!; [| done | done].
    unfold c_type_to_ir_type, ctype. cbn. rewrite list_lookup_middle by done. cbn. by rewrite list_lookup_middle by done.
  - intros u Hu. by apply c_type_to_ir_type_grow.
Qed.

Lemma array_type_complete_witness :
  exists a te1 te2, array_type ir_module_init int_type init_type_env = Ok (a, te1) /\
    set_array_type_length a 10 te1 = Ok (tt, te2) /\ c_type_size te2 ir_module_init a = Ok (10 * 4) /\
    (exists b k, c_type_to_ir_type te2 ir_module_init a = Ok (IR_ARRAY b k) /\ type_wf (IR_ARRAY b k) /\
       forall e j, b <> IR_ARRAY e j) /\
    (forall u, (u < length (ctypes init_type_env))%nat ->
       c_type_to_ir_type te2 ir_module_init u = c_type_to_ir_type init_type_env ir_module_init u).
Proof.
  apply (array_type_complete init_type_env ir_module_init int_type 10 (IR_INT 32) 4 (init_ok ir_module_init));
    [done | cbn; tauto | done | lia | lia].
Defined.
