(* ===== verification/Context.v ===== *)
(** * The state of IR generation ([src/src/ir_gen/context.h], [context.c])

    [gen] is a computation on the [IrGenContext]; [on_builder] and [on_types] run
    the builder of [Ir.v] and the type store of [CType.v] on their part of it. The
    chain of scopes is a list, the innermost first. Pointers to blocks and
    instructions are indices into the module. *)

From S2P Require Import Prelude Ast Ir CType.

Local Open Scope Z_scope.

(** ** Data *)

Record Term := mkTerm { t_ctype : nat; t_value : IrValue }.

Record Binding := mkBinding { b_name : option string; b_constant : bool; b_term : Term }.

Record InlineFunction := mkInline {
  inl_global : nat;
  inl_function_type : nat;
  inl_function_def : ASTFunctionDef
}.

(** A case label with the constant of its value, or the default label. *)
Record SwitchCase := mkCase { case_value : option nat; case_block : nat }.
Record GotoLabel := mkLabel { label_name : string; label_block : nat }.
Record GotoFixup := mkFixup { fixup_label : string; fixup_instr : nat }.

Record IrGenContext := mkContext {
  builder : IrBuilder;
  scope : list (list Binding);
  type_env : TypeEnv;
  current_function_type : option nat;
  inline_functions : list InlineFunction;
  case_labels : list SwitchCase;
  goto_labels : list GotoLabel;
  goto_fixups : list GotoFixup;
  break_target : option nat;
  continue_target : option nat;
  scratch_function : nat
}.

Inductive ExprContext := LVALUE_CONTEXT | RVALUE_CONTEXT | CONST_CONTEXT.
#[export] Instance ExprContext_eq_dec : EqDecision ExprContext.
Proof. solve_decision. Defined.

Definition set_builder (c : IrGenContext) x :=
  mkContext x (scope c) (type_env c) (current_function_type c) (inline_functions c)
    (case_labels c) (goto_labels c) (goto_fixups c) (break_target c) (continue_target c) (scratch_function c).
Definition set_scope (c : IrGenContext) x :=
  mkContext (builder c) x (type_env c) (current_function_type c) (inline_functions c)
    (case_labels c) (goto_labels c) (goto_fixups c) (break_target c) (continue_target c) (scratch_function c).
Definition set_type_env (c : IrGenContext) x :=
  mkContext (builder c) (scope c) x (current_function_type c) (inline_functions c)
    (case_labels c) (goto_labels c) (goto_fixups c) (break_target c) (continue_target c) (scratch_function c).
Definition set_function_type (c : IrGenContext) x :=
  mkContext (builder c) (scope c) (type_env c) x (inline_functions c)
    (case_labels c) (goto_labels c) (goto_fixups c) (break_target c) (continue_target c) (scratch_function c).
Definition set_inline_functions (c : IrGenContext) x :=
  mkContext (builder c) (scope c) (type_env c) (current_function_type c) x
    (case_labels c) (goto_labels c) (goto_fixups c) (break_target c) (continue_target c) (scratch_function c).
Definition set_case_labels (c : IrGenContext) x :=
  mkContext (builder c) (scope c) (type_env c) (current_function_type c) (inline_functions c)
    x (goto_labels c) (goto_fixups c) (break_target c) (continue_target c) (scratch_function c).
Definition set_goto_labels (c : IrGenContext) x :=
  mkContext (builder c) (scope c) (type_env c) (current_function_type c) (inline_functions c)
    (case_labels c) x (goto_fixups c) (break_target c) (continue_target c) (scratch_function c).
Definition set_goto_fixups (c : IrGenContext) x :=
  mkContext (builder c) (scope c) (type_env c) (current_function_type c) (inline_functions c)
    (case_labels c) (goto_labels c) x (break_target c) (continue_target c) (scratch_function c).
Definition set_targets (c : IrGenContext) x y :=
  mkContext (builder c) (scope c) (type_env c) (current_function_type c) (inline_functions c)
    (case_labels c) (goto_labels c) (goto_fixups c) x y (scratch_function c).

(** ** Computations *)

Abbreviation gen := (st IrGenContext).

Definition on_builder {A} (m : st IrBuilder A) : gen A :=
  zoom builder (fun b c => set_builder c b) m.
Definition on_types {A} (m : st TypeEnv A) : gen A :=
  zoom type_env (fun te c => set_type_env c te) m.

(** Reads the types, or the types and the module. *)
Definition ask {A} (f : TypeEnv -> res A) : gen A := c ← get; lift (f (type_env c)).
Definition ask_ir {A} (f : TypeEnv -> IrModule -> res A) : gen A :=
  c ← get; lift (f (type_env c) (module (builder c))).

Definition kind (t : nat) : gen CType := ask (fun te => ctype te t).
Definition ir_type_of (t : nat) : gen IrType := ask_ir (fun te m => c_type_to_ir_type te m t).
Definition size_of (t : nat) : gen Z := ask_ir (fun te m => c_type_size te m t).
Definition types_eq (a b : nat) : gen bool := ask (fun te => c_type_eq te a b).
Definition gen_array_type (t : nat) : gen nat :=
  c ← get; on_types (array_type (module (builder c)) t).
Definition fatal {A} : gen A := lift FATAL.

(** [builder->current_block = b] and [builder->current_function = f]. *)
Definition set_current_block (b : option nat) : gen unit :=
  on_builder (modify (fun x => mkBuilder (module x) (current_function x) b)).
Definition get_current_block : gen (option nat) := c ← get; mret (current_block (builder c)).

(** ** Scopes *)

Definition push_scope : gen unit := modify (fun c => set_scope c ([] :: scope c)).
Definition pop_scope : gen unit :=
  c ← get;
  match scope c with
  | [] => lift ICE
  | _ :: parent => put (set_scope c parent)
  end.

(** A computation in a scope of its own. *)
Definition with_scope (body : gen unit) : gen unit := push_scope;; body;; pop_scope.

Definition find_binding (bindings : list Binding) (name : string) : option Binding :=
  snd <$> list_find (fun b => b_name b = Some name) bindings.
Fixpoint binding_for_name (scopes : list (list Binding)) (name : string) : option Binding :=
  match scopes with
  | [] => None
  | s :: parent =>
      match find_binding s name with Some b => Some b | None => binding_for_name parent name end
  end.

(** [ARRAY_APPEND(&ctx->scope->bindings)] *)
Definition add_binding (b : Binding) : gen unit :=
  c ← get;
  match scope c with
  | [] => lift (Stop Undef)
  | s :: parent => put (set_scope c ((s ++ [b]) :: parent))
  end.
