(* ===== verification/Convert.v ===== *)
(** * Conversions between C types ([src/src/ir_gen/convert.c]) *)

From S2P Require Import Prelude Ast Ir CType Context.

Local Open Scope Z_scope.

Definition bit_width_of (t : IrType) : Z := match t with IR_INT w => w | _ => 0 end.
Definition float_width_of (t : IrType) : Z := match t with IR_FLOAT w => w | _ => 0 end.

Definition convert_type (term : Term) (target_type : nat) : gen Term :=
  same ← types_eq (t_ctype term) target_type;
  if (same : bool) then mret term
  else
    from ← kind (t_ctype term);
    to ← kind target_type;
    let build op ty := on_builder (build_type_instr op (t_value term) ty) in
    converted ←
      match from, to with
      | INTEGER_TYPE _ is_signed, INTEGER_TYPE _ _ =>
          ty ← ir_type_of target_type;
          old ← ir_type_of (t_ctype term);
          if bit_width_of ty <? bit_width_of old then build OP_TRUNC ty
          else if is_signed : bool then build OP_SEXT ty
          else build OP_ZEXT ty
      | FLOAT_TYPE _, FLOAT_TYPE _ =>
          ty ← ir_type_of target_type;
          old ← ir_type_of (t_ctype term);
          if float_width_of ty <? float_width_of old then build OP_TRUNCF ty else build OP_EXTF ty
      | INTEGER_TYPE _ is_signed, FLOAT_TYPE _ =>
          ty ← ir_type_of target_type;
          build (if is_signed : bool then OP_SINT_TO_FLOAT else OP_UINT_TO_FLOAT) ty
      | FLOAT_TYPE _, INTEGER_TYPE _ is_signed =>
          ty ← ir_type_of target_type;
          if negb is_signed then lift UNIMPLEMENTED else build OP_FLOAT_TO_SINT ty
      | INTEGER_TYPE _ _, POINTER_TYPE _ =>
          old ← ir_type_of (t_ctype term);
          let width := bit_width_of old in
          value ← (if width <? 64 then build OP_ZEXT (IR_INT 64)
                   else if negb (width =? 64) then lift UNIMPLEMENTED
                   else mret (t_value term));
          ty ← ir_type_of target_type;
          on_builder (build_type_instr OP_CAST value ty)
      | POINTER_TYPE _, INTEGER_TYPE _ _ =>
          ty ← ir_type_of target_type;
          build OP_CAST ty
      | POINTER_TYPE _, POINTER_TYPE _ => mret (t_value term)
      | ARRAY_TYPE _ _ _ _, POINTER_TYPE _ =>
          match val_type (t_value term) with
          | IR_POINTER => mret (t_value term)
          | _ => fatal
          end
      | FUNCTION_TYPE _ _ _, POINTER_TYPE pointee =>
          e ← types_eq pointee (t_ctype term);
          if (e : bool) then mret (t_value term) else lift UNIMPLEMENTED
      | _, VOID_TYPE => mret (t_value term)
      | _, _ => lift UNIMPLEMENTED
      end;
    mret (mkTerm target_type converted).

(** The type to which one of the operands is converted, and which one: true for
    the left. *)
Definition is_float (c : CType) : bool := match c with FLOAT_TYPE _ => true | _ => false end.
Definition signedness (c : CType) : bool := match c with INTEGER_TYPE _ s => s | _ => false end.
(** [is_float ? floatt : -1] *)
Definition float_priority (c : CType) : Z :=
  match c with FLOAT_TYPE FLOAT => 0 | FLOAT_TYPE DOUBLE => 1 | FLOAT_TYPE LONG_DOUBLE => 2 | _ => -1 end.
Definition rank_of (c : CType) : res Z := match c with INTEGER_TYPE k _ => Ok (int_rank k) | _ => ICE end.

(** Which operand is converted to the type of the other: [Some true] for the
    left, [None] when neither is. *)
Definition conversion_side (l r : CType) : res (option bool) :=
  if is_float l || is_float r || Bool.eqb (signedness l) (signedness r) then
    lp ← (if is_float l || is_float r then Ok (float_priority l) else rank_of l);
    rp ← (if is_float l || is_float r then Ok (float_priority r) else rank_of r);
    Ok (if lp =? rp then None else Some (lp <? rp))
  else
    lr ← rank_of l;
    rr ← rank_of r;
    let '(signed_rank, unsigned_rank) := if signedness l then (lr, rr) else (rr, lr) in
    Ok (Some (if signed_rank <=? unsigned_rank then signedness l else negb (signedness l))).

Definition do_arithmetic_conversions_with_blocks (left : Term) (left_block : option nat)
    (right : Term) (right_block : option nat) : gen (Term * Term) :=
  la ← ask (fun te => is_arithmetic_type te (t_ctype left));
  ra ← (if la : bool then ask (fun te => is_arithmetic_type te (t_ctype right)) else mret false);
  lift (PRECONDITION (la && ra));;
  original_block ← get_current_block;
  l ← kind (t_ctype left);
  r ← kind (t_ctype right);
  side ← lift (conversion_side l r);
  result ←
    match side with
    | None => mret (left, right)
    | Some true =>
        set_current_block left_block;;
        left ← convert_type left (t_ctype right);
        mret (left, right)
    | Some false =>
        set_current_block right_block;;
        right ← convert_type right (t_ctype left);
        mret (left, right)
    end;
  set_current_block original_block;;
  mret result.

Definition do_arithmetic_conversions (left right : Term) : gen (Term * Term) :=
  b ← get_current_block;
  do_arithmetic_conversions_with_blocks left b right b.

(** ** The usual arithmetic conversions of C99 *)

(** Types after the integer promotions: no integer below [int]. *)
Definition promoted (c : CType) : Prop :=
  match c with INTEGER_TYPE k _ => int_rank INT <= int_rank k | FLOAT_TYPE _ => True | _ => False end.

(** C99 6.3.1.8: the common real type. *)
Definition c99_common (l r : CType) : CType :=
  match l, r with
  | FLOAT_TYPE f, FLOAT_TYPE g => FLOAT_TYPE (if float_priority l <=? float_priority r then g else f)
  | FLOAT_TYPE f, _ | _, FLOAT_TYPE f => FLOAT_TYPE f
  | INTEGER_TYPE k s, INTEGER_TYPE k' s' =>
      if Bool.eqb s s' then INTEGER_TYPE (if int_rank k <=? int_rank k' then k' else k) s
      else
        let '(ks, ku) := if s then (k, k') else (k', k) in
        if int_rank ks <=? int_rank ku then INTEGER_TYPE ku false
        else if int_width ku <? int_width ks then INTEGER_TYPE ks true
        else INTEGER_TYPE ks false
  | _, _ => l
  end.

(** The type both operands have after the conversion of one of them. *)
Definition common_type (l r : CType) (side : option bool) : CType :=
  match side with Some true => r | _ => l end.

(** [long long] with [unsigned long]: the signed type has the greater rank but
    not the greater range. *)
Definition long_clash (l r : CType) : Prop :=
  (l = INTEGER_TYPE LONG_LONG true /\ r = INTEGER_TYPE LONG false) \/
  (l = INTEGER_TYPE LONG false /\ r = INTEGER_TYPE LONG_LONG true).

(** C27: On operands of promoted arithmetic types the conversion picks one
    operand, or none when the types agree, so that both end up with the common
    real type of C99 6.3.1.8; the choice does not depend on the order of the
    operands. The one exception is [long long] with [unsigned long], which gives
    [long long] instead of [unsigned long long]. *)
Theorem usual_conversions l r (Hl : promoted l) (Hr : promoted r) :
  exists side, conversion_side l r = Ok side /\ conversion_side r l = Ok (negb <$> side) /\
    (side = None -> l = r) /\
    (common_type l r side = c99_common l r <-> ~ long_clash l r) /\
    (long_clash l r -> common_type l r side = INTEGER_TYPE LONG_LONG true /\
                       c99_common l r = INTEGER_TYPE LONG_LONG false).
Proof.
  destruct l as [|k s|f| | | |], r as [|k' s'|f'| | | |]; try done.
  - destruct k, s; try (by exfalso; cbn in Hl; lia); destruct k', s'; try (by exfalso; cbn in Hr; lia);
      eexists; (split; [reflexivity |]); (split; [reflexivity |]); unfold long_clash; naive_solver.
  - eexists; (split; [destruct s, f'; reflexivity |]). unfold long_clash. destruct s, f'; naive_solver.
  - eexists; (split; [destruct f, s'; reflexivity |]). unfold long_clash. destruct f, s'; naive_solver.
  - destruct f, f'; eexists; (split; [reflexivity |]); unfold long_clash; naive_solver.
Qed.

Lemma usual_conversions_witness :
  let l := INTEGER_TYPE LONG true in let r := INTEGER_TYPE INT false in
  exists side, conversion_side l r = Ok side /\ conversion_side r l = Ok (negb <$> side) /\
    (side = None -> l = r) /\
    (common_type l r side = c99_common l r <-> ~ long_clash l r) /\
    (long_clash l r -> common_type l r side = INTEGER_TYPE LONG_LONG true /\
                       c99_common l r = INTEGER_TYPE LONG_LONG false).
Proof. apply (usual_conversions (INTEGER_TYPE LONG true) (INTEGER_TYPE INT false)); cbn; lia. Defined.

(** Operands below [int] are not promoted: two [char]s stay [char]s. *)
Example chars_are_not_promoted :
  conversion_side (INTEGER_TYPE CHAR true) (INTEGER_TYPE CHAR true) = Ok None.
Proof. reflexivity. Qed.
