(* ===== verification/Calls.v ===== *)
(** * The mutual recursion of IR generation, and constant expressions
    ([eval_constant_expr], [type_name_to_c_type] of [src/src/ir_gen/expr.c], the
    data of [initializer.h])

    Expressions, declarations and initialisers call each other across three C
    files. Each C function is a definition over a record [calls] of the functions
    it re-enters; [IrGen.v] ties the knot. A recursive call is always on a smaller
    part of the syntax tree. *)

From S2P Require Import Prelude Ast Ir CType Context.

Local Open Scope Z_scope.

(** ** Initialisers being built *)

(** A [CInitializer]: [ci_type] is NULL while no initialiser has reached the
    object, [ci_leaf] is the tag (the zero tag is C_INIT_COMPOUND) and the union
    holds NULL, a block of sub-objects, or a value. [LEAF_NULL] is the value
    [value_global(NULL)]. *)
Inductive CInitializer := mkCInit (type : option nat) (is_leaf : bool) (u : CInitU)
with CInitU :=
| SUB_NULL
| SUB_ELEMS (sub_elems : list CInitializer)
| LEAF_VALUE (leaf_value : IrValue)
| LEAF_NULL.

Definition ci_type (c : CInitializer) : option nat := let 'mkCInit t _ _ := c in t.
Definition ci_leaf (c : CInitializer) : bool := let 'mkCInit _ l _ := c in l.
Definition ci_u (c : CInitializer) : CInitU := let 'mkCInit _ _ u := c in u.

(** What [memset] to 0 leaves. *)
Definition zero_init : CInitializer := mkCInit None false SUB_NULL.

Record calls := mkCalls {
  r_expr : ASTExpr -> ExprContext -> gen Term;
  r_specifiers : list ASTDeclSpecifier -> gen nat;
  r_declarator : nat -> option ASTDeclarator -> gen CDecl;
  r_direct : nat -> ASTDirectDeclarator -> gen CDecl;
  r_init : nat -> ASTInitializer -> bool -> CInitializer -> gen CInitializer
}.

Section Calls.
Variable rec : calls.

(** How many blocks the current function and instructions the current block have. *)
Definition num_blocks : gen (option nat) :=
  c ← get;
  match current_function (builder c) with
  | None => mret None
  | Some k => f ← on_builder (on_module (function_at k)); mret (Some (length (fun_blocks f)))
  end.
Definition num_instrs : gen (option nat) :=
  c ← get;
  match current_block (builder c) with
  | None => mret None
  | Some b =>
      blk ← lift (of_opt (blocks (module (builder c)) !! b));
      mret (Some (length (block_instrs blk)))
  end.
Definition unchanged (before after : option nat) : bool :=
  match after with None => true | Some n => Nat.eqb n (default 0%nat before) end.

(** The result is a constant of the module. *)
Definition eval_constant_expr (expr : ASTExpr) : gen nat :=
  nb ← num_blocks;
  ni ← num_instrs;
  term ← r_expr rec expr CONST_CONTEXT;
  nb' ← num_blocks;
  lift (ASSERT (unchanged nb nb'));;
  ni' ← num_instrs;
  lift (ASSERT (unchanged ni ni'));;
  match val_u (t_value term) with
  | IR_VALUE_CONST_INT x => ty ← ir_type_of (t_ctype term); on_builder (add_int_const ty x)
  | IR_VALUE_CONST_FLOAT x => ty ← ir_type_of (t_ctype term); on_builder (add_float_const ty x)
  | IR_VALUE_GLOBAL g => on_builder (add_global_const (Some g))
  | IR_VALUE_ARG _ | IR_VALUE_INSTR _ => lift UNREACHABLE
  end.

(** [*konst], and [konst->u.integer] of a constant whose type is IR_INT. *)
Definition const_at (k : nat) : gen IrConst :=
  c ← get; lift (of_opt (consts (module (builder c)) !! k)).
Definition int_const (expr : ASTExpr) : gen Z :=
  k ← eval_constant_expr expr;
  konst ← const_at k;
  match const_type konst, const_u konst with
  | IR_INT _, K_integer n => mret n
  | IR_INT _, _ => lift (Stop Undef)
  | _, _ => fatal
  end.

Definition type_name_to_c_type (type_name : ASTTypeName) : gen nat :=
  match type_name with
  | mkTypeName l d =>
      t ← r_specifiers rec l;
      cdecl ← r_declarator rec t d;
      lift (ASSERT (match cd_name cdecl with None => true | Some _ => false end));;
      mret (cd_type cdecl)
  end.

End Calls.
