(* ===== verification/Initializer.v ===== *)
(** * Initialisers ([src/src/ir_gen/initializer.c])

    [make_c_initializer] fills a tree of [CInitializer]s from the syntax;
    [ir_gen_initializer] turns the tree into stores, [const_gen_c_init] into a
    constant of the module. Blocks of sub-objects are lists; an index outside the
    block is undefined. *)

From S2P Require Import Prelude Ast Ir CType Context Convert Calls.
From Stdlib Require Import SpecFloat.

Local Open Scope Z_scope.

Section Initializer.
Variable rec : calls.

(** ** Building the tree *)

Definition is_aggregate (c : CType) : bool :=
  match c with STRUCT_TYPE _ _ _ | ARRAY_TYPE _ _ _ _ => true | _ => false end.

(** A zeroed block with room for the fields of the type. *)
Definition zeroed_elems (type : nat) : gen (list CInitializer) :=
  n ← ask (fun te => c_type_num_fields te type);
  mret (replicate (Z.to_nat n) zero_init).

(** [char_type] elements for the characters of a literal and its terminator. *)
Definition string_elems (s : list Z) : list CInitializer :=
  (fun c => mkCInit (Some char_type) true (LEAF_VALUE (value_const_int (IR_INT 8) (u64 c)))) <$> (s ++ [0]).

(** The value of a leaf in a constant context. A zero integer of pointer type is
    read back through the union as a NULL global. *)
Definition const_leaf (type : nat) (expr : ASTExpr) : gen CInitU :=
  k ← eval_constant_expr rec expr;
  konst ← const_at k;
  c ← kind type;
  match c, const_type konst, const_u konst with
  | INTEGER_TYPE _ _, IR_INT w, K_integer x => mret (LEAF_VALUE (value_const_int (IR_INT w) x))
  | INTEGER_TYPE _ _, IR_INT _, _ => lift (Stop Undef)
  | FLOAT_TYPE _, IR_FLOAT w, K_floatt x => mret (LEAF_VALUE (value_const_float (IR_FLOAT w) x))
  | FLOAT_TYPE _, IR_FLOAT _, _ => lift (Stop Undef)
  | POINTER_TYPE _, IR_POINTER, K_global_pointer (Some g) => mret (LEAF_VALUE (value_global g))
  | POINTER_TYPE _, IR_POINTER, K_global_pointer None => mret LEAF_NULL
  | POINTER_TYPE _, IR_POINTER, K_integer 0 => mret LEAF_NULL
  | POINTER_TYPE _, IR_POINTER, _ => lift (Stop Undef)
  | INTEGER_TYPE _ _, _, _ | FLOAT_TYPE _, _, _ | POINTER_TYPE _, _, _ => fatal
  | _, _, _ => lift UNIMPLEMENTED
  end.

Fixpoint find_field (l : list CDecl) (name : string) (i : nat) : option (nat * nat) :=
  match l with
  | [] => None
  | f :: l => if bool_decide (cd_name f = Some name) then Some (i, cd_type f) else find_field l name (S i)
  end.

(** The field a designator selects in an object of type [c]: its type and index. *)
Definition select (c : CType) (d : ASTDesignator) : gen (nat * Z) :=
  match d with
  | FIELD_DESIGNATOR name =>
      match c with
      | ARRAY_TYPE _ _ _ _ => fatal
      | STRUCT_TYPE _ fields _ =>
          match find_field fields name 0 with
          | Some (i, t) => mret (t, Z.of_nat i)
          | None => fatal
          end
      | _ => lift (Stop Undef)
      end
  | INDEX_DESIGNATOR e =>
      match c with
      | ARRAY_TYPE elem _ _ _ => n ← int_const rec e; mret (elem, u32 n)
      | _ => fatal
      end
  end.

(** [&c_init->u.sub_elems[i]] *)
Definition sub_elems_of (c : CInitializer) : res (list CInitializer) :=
  match ci_u c with SUB_ELEMS l => Ok l | _ => Stop Undef end.
Definition sub_elem (c : CInitializer) (i : Z) : res CInitializer :=
  l ← sub_elems_of c; ref l i.
Definition set_sub_elem (c : CInitializer) (i : Z) (x : CInitializer) : res CInitializer :=
  l ← sub_elems_of c;
  l ← store l i x;
  Ok (mkCInit (ci_type c) (ci_leaf c) (SUB_ELEMS l)).

(** [curr_elem->type = field_type], and a block for an aggregate without one. *)
Definition enter (elem : CInitializer) (field_type : nat) : gen CInitializer :=
  c ← kind field_type;
  if is_aggregate c then
    match ci_u elem with
    | SUB_NULL =>
        l ← zeroed_elems field_type;
        mret (mkCInit (Some field_type) (ci_leaf elem) (SUB_ELEMS l))
    | SUB_ELEMS l => mret (mkCInit (Some field_type) (ci_leaf elem) (SUB_ELEMS l))
    | _ => lift (Stop Undef)
    end
  else mret (mkCInit (Some field_type) (ci_leaf elem) (ci_u elem)).

(** The type of element [i] of the object that is being filled. *)
Definition elem_type_of (containing : CInitializer) (i : Z) : gen nat :=
  t ← lift (of_opt (ci_type containing));
  c ← kind t;
  match c with
  | ARRAY_TYPE e _ _ _ => mret e
  | STRUCT_TYPE _ fields _ => f ← lift (ref fields i); mret (cd_type f)
  | _ => lift UNREACHABLE
  end.

(** Initialise element [i] of [containing]. *)
Definition init_elem (const_context : bool) (init : ASTInitializer) (containing : CInitializer) (i : Z)
  : gen (CInitializer * Z) :=
  curr_elem ← lift (sub_elem containing i);
  curr_elem_type ← elem_type_of containing i;
  curr_elem ← r_init rec curr_elem_type init const_context curr_elem;
  containing ← lift (set_sub_elem containing i curr_elem);
  mret (containing, i).

(** Follow the designators from [containing]; the last index is kept. *)
Fixpoint designate (const_context : bool) (init : ASTInitializer) (ds : list ASTDesignator)
    (containing : CInitializer) (i : Z) : gen (CInitializer * Z) :=
  match ds with
  | [] => init_elem const_context init containing i
  | d :: ds =>
      t ← lift (of_opt (ci_type containing));
      c ← kind t;
      '(field_type, i) ← select c d;
      elem ← lift (sub_elem containing i);
      elem ← enter elem field_type;
      containing ← lift (set_sub_elem containing i elem);
      match ds with
      | [] => init_elem const_context init containing i
      | _ =>
          '(elem, j) ← designate const_context init ds elem i;
          containing ← lift (set_sub_elem containing i elem);
          mret (containing, j)
      end
  end.

(** [while (elems != NULL)] *)
Fixpoint init_elems (const_context : bool) (elems : list ASTInitializerElement) (c_init : CInitializer) (i : Z)
  : gen CInitializer :=
  match elems with
  | [] => mret c_init
  | mkInitElement ds init :: elems =>
      '(c_init, i) ← designate const_context init ds c_init i;
      init_elems const_context elems c_init (u32 (i + 1))
  end.

Definition make_c_initializer (type : nat) (init : ASTInitializer) (const_context : bool)
    (c_init : CInitializer) : gen CInitializer :=
  c ← kind type;
  match init with
  | EXPR_INITIALIZER expr =>
      match c, expr with
      | ARRAY_TYPE _ _ _ _, STRING_LITERAL_EXPR s => mret (mkCInit (Some type) false (SUB_ELEMS (string_elems s)))
      | _, _ =>
          if const_context then
            u ← const_leaf type expr;
            mret (mkCInit (Some type) true u)
          else
            term ← r_expr rec expr RVALUE_CONTEXT;
            term ← convert_type term type;
            mret (mkCInit (Some type) true (LEAF_VALUE (t_value term)))
      end
  | BRACE_INITIALIZER elems =>
      if negb (is_aggregate c) then fatal
      else
        l ← zeroed_elems type;
        init_elems const_context elems (mkCInit (Some type) (ci_leaf c_init) (SUB_ELEMS l)) 0
  end.

(** ** The length of an array from its initialiser *)

Fixpoint max_index (elems : list ASTInitializerElement) (current_index max : Z) : gen Z :=
  match elems with
  | [] => mret max
  | mkInitElement ds _ :: elems =>
      current_index ←
        match ds with
        | FIELD_DESIGNATOR _ :: _ => fatal
        | INDEX_DESIGNATOR e :: _ => n ← int_const rec e; mret (i32 n)
        | [] => mret (i32 (current_index + 1))
        end;
      max_index elems current_index (if max <? current_index then current_index else max)
  end.

Definition infer_array_size_from_initializer (init : option ASTInitializer) (type : nat) : gen unit :=
  c ← kind type;
  match c, init with
  | ARRAY_TYPE _ true _ _, Some init =>
      size ←
        match init with
        | BRACE_INITIALIZER elems => m ← max_index elems (-1) (-1); mret (u32 (m + 1))
        | EXPR_INITIALIZER (STRING_LITERAL_EXPR s) => mret (u32 (Z.of_nat (length s) + 1))
        | EXPR_INITIALIZER _ => fatal
        end;
      on_types (set_array_type_length type size)
  | _, _ => mret tt
  end.

End Initializer.

(** ** Stores *)

(** Do all the indices pass, tested in order until one fails? *)
Fixpoint all_elems (test : nat -> gen bool) (l : list nat) : gen bool :=
  match l with
  | [] => mret true
  | i :: l => b ← test i; if (b : bool) then all_elems test l else mret false
  end.

(** Fuel bounds the depth of the tree. *)
Fixpoint is_full_initializer (fuel : nat) (c_init : CInitializer) : gen bool :=
  match fuel with
  | O => lift (Stop NoFuel)
  | S fuel =>
      match ci_type c_init with
      | None => mret false
      | Some type =>
          if ci_leaf c_init then mret true
          else
            c ← kind type;
            num_elems ← match c with
                        | ARRAY_TYPE _ true _ _ => fatal
                        | ARRAY_TYPE _ false s _ => s ← lift (of_opt s); mret (u32 s)
                        | STRUCT_TYPE _ l _ => mret (Z.of_nat (length l))
                        | _ => lift UNREACHABLE
                        end;
            all_elems (fun i =>
              e ← lift (sub_elem c_init (Z.of_nat i));
              is_full_initializer fuel e) (seq 0 (Z.to_nat num_elems))
      end
  end.

(** [build_call] of memcpy or memset with the arguments. *)
Definition call_builtin (builtin : st IrBuilder IrValue) (args : list IrValue) : gen IrValue :=
  on_builder (f ← builtin; build_call f IR_POINTER args).

Definition for_each (n : nat) (body : nat -> gen unit) : gen unit :=
  foldr (fun i k => body i;; k) (mret tt) (seq 0 n).

Fixpoint ir_gen_c_init (fuel : nat) (base_ptr : IrValue) (c_init : CInitializer) (current_offset : Z) : gen unit :=
  match fuel with
  | O => lift (Stop NoFuel)
  | S fuel =>
      match ci_type c_init with
      | None => mret tt
      | Some type =>
          c ← kind type;
          int_ptr ← ir_type_of int_ptr_type;
          let address :=
            on_builder (build_binary_instr OP_ADD base_ptr (value_const_int int_ptr current_offset)) in
          match c with
          | ARRAY_TYPE elem incomplete s _ =>
              if incomplete : bool then fatal
              else
                lift (ASSERT (negb (ci_leaf c_init)));;
                elem_size ← size_of elem;
                s ← lift (of_opt s);
                for_each (Z.to_nat s) (fun i =>
                  e ← lift (sub_elem c_init (Z.of_nat i));
                  ir_gen_c_init fuel base_ptr e (u32 (current_offset + Z.of_nat i * elem_size)))
          | STRUCT_TYPE _ l ir_type =>
              if ci_leaf c_init then
                field_ptr ← address;
                size_ty ← ir_type_of size_type;
                s ← size_of type;
                v ← lift (match ci_u c_init with LEAF_VALUE v => Ok v | _ => Stop Undef end);
                call_builtin builtin_memcpy [field_ptr; v; value_const_int size_ty s];;
                mret tt
              else
                ctx ← get;
                k ← lift (of_opt ir_type);
                ty ← lift (of_opt (types (module (builder ctx)) !! k));
                fields ← lift (match ty with IR_STRUCT _ f _ _ _ => of_opt (struct_fields (module (builder ctx)) !! f)
                               | _ => Stop Undef end);
                for_each (length l) (fun i =>
                  f ← lift (of_opt (fields !! i));
                  f ← lift (of_opt f);
                  e ← lift (sub_elem c_init (Z.of_nat i));
                  ir_gen_c_init fuel base_ptr e (u32 (current_offset + field_offset f)))
          | _ =>
              lift (ASSERT (ci_leaf c_init));;
              field_ptr ← address;
              v ← lift (match ci_u c_init with LEAF_VALUE v => Ok v | _ => Stop Undef end);
              on_builder (build_store field_ptr v);;
              mret tt
          end
      end
  end.

(** The depth of a tree. *)
Fixpoint ci_depth (c : CInitializer) : nat :=
  match c with
  | mkCInit _ _ (SUB_ELEMS l) => S (foldr (fun e n => max (ci_depth e) n) O l)
  | _ => 1
  end.

Definition ir_gen_initializer (rec : calls) (to_init : Term) (init : ASTInitializer) : gen unit :=
  c_init ← make_c_initializer rec (t_ctype to_init) init false zero_init;
  full ← is_full_initializer (ci_depth c_init) c_init;
  (if (full : bool) then mret tt
   else
     int ← ir_type_of int_type;
     size_ty ← ir_type_of size_type;
     s ← size_of (t_ctype to_init);
     call_builtin builtin_memset [t_value to_init; value_const_int int 0; value_const_int size_ty s];;
     mret tt);;
  int_ptr ← ir_type_of int_ptr_type;
  base_ptr ← on_builder (build_type_instr OP_CAST (t_value to_init) int_ptr);
  ir_gen_c_init (ci_depth c_init) base_ptr c_init 0.

(** ** Constants *)

(** [block[i] = *konst], where [block] is an array of constants. *)
Definition store_const (block : nat) (i : Z) (konst : nat) : gen unit :=
  k ← const_at konst;
  on_builder (on_module (
    m ← get;
    l ← lift (of_opt (const_arrays m !! block));
    l ← lift (store l i (Some k));
    put (set_const_arrays m (<[block := l]> (const_arrays m))))).

(** The block behind [konst->u.array_elems] or [konst->u.struct_fields]. *)
Definition const_block (konst : nat) : gen nat :=
  k ← const_at konst;
  match const_u k with
  | K_array_elems b | K_struct_fields b => mret b
  | _ => lift (Stop Undef)
  end.

Definition float_zero : spec_float := S754_zero false.

(** Fuel bounds the nesting of the type. *)
Fixpoint zero_initializer_aux (fuel : nat) (type : nat) : gen nat :=
  match fuel with
  | O => lift (Stop NoFuel)
  | S fuel =>
      c ← kind type;
      match c with
      | INTEGER_TYPE _ _ => ty ← ir_type_of type; on_builder (add_int_const ty 0)
      | FLOAT_TYPE _ => ty ← ir_type_of type; on_builder (add_float_const ty float_zero)
      | POINTER_TYPE _ => on_builder (add_global_const None)
      | ARRAY_TYPE elem incomplete s _ =>
          if incomplete : bool then fatal
          else
            ty ← ir_type_of type;
            konst ← on_builder (add_array_const ty);
            block ← const_block konst;
            s ← lift (of_opt s);
            for_each (Z.to_nat s) (fun i =>
              z ← zero_initializer_aux fuel elem;
              store_const block (Z.of_nat i) z);;
            mret konst
      | STRUCT_TYPE incomplete l _ =>
          if incomplete : bool then fatal
          else
            ty ← ir_type_of type;
            konst ← on_builder (add_struct_const ty);
            block ← const_block konst;
            for_each (length l) (fun i =>
              f ← lift (of_opt (l !! i));
              z ← zero_initializer_aux fuel (cd_type f);
              store_const block (Z.of_nat i) z);;
            mret konst
      | _ => lift UNIMPLEMENTED
      end
  end.

Definition zero_initializer (type : nat) : gen nat :=
  c ← get; zero_initializer_aux (S (length (ctypes (type_env c)))) type.

(** [const_gen_c_init] and [const_gen_c_init_array], which writes the innermost
    elements from [const_index] on and returns the next free index. *)
Fixpoint const_gen_c_init_aux (fuel : nat) (c_init : CInitializer) : gen nat :=
  match fuel with
  | O => lift (Stop NoFuel)
  | S fuel =>
      type ← lift (match ci_type c_init with Some t => Ok t | None => ICE end);
      c ← kind type;
      match c with
      | STRUCT_TYPE _ l ir_type =>
          ctx ← get;
          k ← lift (of_opt ir_type);
          ty ← lift (of_opt (types (module (builder ctx)) !! k));
          konst ← on_builder (add_struct_const ty);
          block ← const_block konst;
          for_each (length l) (fun i =>
            f ← lift (of_opt (l !! i));
            e ← lift (sub_elem c_init (Z.of_nat i));
            z ← match ci_type e with
                | None => zero_initializer (cd_type f)
                | Some _ => const_gen_c_init_aux fuel e
                end;
            store_const block (Z.of_nat i) z);;
          mret konst
      | ARRAY_TYPE _ _ _ i =>
          ctx ← get;
          ty ← lift (of_opt (ir_types (type_env ctx) !! i));
          konst ← on_builder (add_array_const ty);
          block ← const_block konst;
          const_gen_c_init_array fuel c_init block 0;;
          mret konst
      | INTEGER_TYPE _ _ =>
          match ci_u c_init with
          | LEAF_VALUE v =>
              match val_type v, val_u v with
              | IR_INT _, IR_VALUE_CONST_INT x => ty ← ir_type_of type; on_builder (add_int_const ty x)
              | IR_INT _, _ => lift (Stop Undef)
              | _, _ => fatal
              end
          | _ => lift (Stop Undef)
          end
      | FLOAT_TYPE _ =>
          match ci_u c_init with
          | LEAF_VALUE v =>
              match val_type v, val_u v with
              | IR_FLOAT _, IR_VALUE_CONST_FLOAT x => ty ← ir_type_of type; on_builder (add_float_const ty x)
              | IR_FLOAT _, _ => lift (Stop Undef)
              | _, _ => fatal
              end
          | _ => lift (Stop Undef)
          end
      | POINTER_TYPE _ =>
          match ci_u c_init with
          | LEAF_NULL => on_builder (add_global_const None)
          | LEAF_VALUE v =>
              match val_u v with
              | IR_VALUE_GLOBAL g => on_builder (add_global_const (Some g))
              | _ => lift ICE
              end
          | _ => lift (Stop Undef)
          end
      | _ => lift UNIMPLEMENTED
      end
  end
with const_gen_c_init_array (fuel : nat) (c_init : CInitializer) (block : nat) (const_index : Z) : gen Z :=
  match fuel with
  | O => lift (Stop NoFuel)
  | S fuel =>
      type ← lift (of_opt (ci_type c_init));
      c ← kind type;
      match c with
      | ARRAY_TYPE elem_type _ s _ =>
          ce ← kind elem_type;
          s ← lift (of_opt s);
          let array_size := u32 s in
          match ce with
          | ARRAY_TYPE _ _ _ _ =>
              foldr (fun i k const_index =>
                e ← lift (sub_elem c_init (Z.of_nat i));
                const_index ← const_gen_c_init_array fuel e block const_index;
                k const_index) mret (seq 0 (Z.to_nat array_size)) const_index
          | _ =>
              for_each (Z.to_nat array_size) (fun i =>
                e ← lift (sub_elem c_init (Z.of_nat i));
                z ← match ci_type e with
                    | None => zero_initializer elem_type
                    | Some _ => const_gen_c_init_aux fuel e
                    end;
                store_const block (u32 (const_index + Z.of_nat i)) z);;
              mret (u32 (const_index + s))
          end
      | _ => lift ICE
      end
  end.

Definition const_gen_c_init (c_init : CInitializer) : gen nat :=
  const_gen_c_init_aux (2 * ci_depth c_init) c_init.
