(* ===== verification/Decl.v ===== *)
(** * Declarations ([src/src/ir_gen/decl.c])

    Declarators become types and names, specifiers become types; struct and union
    definitions are laid out. A field is entered into its struct after its
    declarator has been processed (the code reserves the entry before). *)

From S2P Require Import Prelude Ast Ir CType Context Convert Calls Initializer.
From S2P Require Maths.

Local Open Scope Z_scope.

(** ** Layout of structs and unions *)

(** The running totals of the loop over the fields. *)
Record Layout := mkLayout {
  lay_fields : list IrStructField;
  current_offset : Z;
  max_field_size : Z;
  max_field_align : Z
}.

Definition layout_field (is_union is_packed : bool) (s : Layout) (type : IrType) : res Layout :=
  field_size ← size_of_ir_type type;
  field_align ← align_of_ir_type type;
  let size := Z.max (max_field_size s) field_size in
  let align := Z.max (max_field_align s) field_align in
  if is_union then
    Ok (mkLayout (lay_fields s ++ [mkField type 0]) (current_offset s) size align)
  else
    let offset := if is_packed then current_offset s
                  else Maths.align_to (current_offset s) field_align in
    Ok (mkLayout (lay_fields s ++ [mkField type offset]) (u32 (offset + field_size)) size align).

(** The total size and the alignment. *)
Definition layout_align (is_packed : bool) (s : Layout) : Z := if is_packed then 1 else max_field_align s.
Definition layout_size (is_union is_packed : bool) (s : Layout) : Z :=
  Maths.align_to (if is_union then max_field_size s else current_offset s) (layout_align is_packed s).

Section Decl.
Variable rec : calls.

(** The loop over the fields of the struct. *)
Fixpoint layout_fields (is_union is_packed : bool) (fields : list CDecl) (s : Layout) : gen Layout :=
  match fields with
  | [] => mret s
  | f :: fields =>
      field_type ← ir_type_of (cd_type f);
      s ← lift (layout_field is_union is_packed s field_type);
      layout_fields is_union is_packed fields s
  end.

(** ** Struct, union and enum specifiers *)

(** [ARRAY_APPEND(fields, CDecl)] on the struct type [type]. *)
Definition add_field (type : nat) (f : CDecl) : gen unit :=
  on_types (
    te ← get;
    c ← lift (ctype te type);
    match c with
    | STRUCT_TYPE i l t => set_ctype type (STRUCT_TYPE i (l ++ [f]) t)
    | _ => lift (Stop Undef)
    end).

Fixpoint add_declarators (type decl_spec_type : nat) (l : list ASTFieldDeclarator) : gen unit :=
  match l with
  | [] => mret tt
  | NORMAL_FIELD_DECLARATOR d :: l =>
      cdecl ← r_declarator rec decl_spec_type (Some d);
      add_field type cdecl;;
      add_declarators type decl_spec_type l
  | BITFIELD_FIELD_DECLARATOR _ _ :: _ => lift UNIMPLEMENTED
  end.

Fixpoint add_field_decls (type : nat) (l : list ASTFieldDecl) : gen unit :=
  match l with
  | [] => mret tt
  | mkFieldDecl specs ds :: l =>
      decl_spec_type ← r_specifiers rec specs;
      add_declarators type decl_spec_type ds;;
      add_field_decls type l
  end.

(** The IR struct is created, its fields are laid out and the type is complete. *)
Definition complete_struct (type : nat) (name : option string) (is_union is_packed : bool) : gen unit :=
  c ← kind type;
  match c with
  | STRUCT_TYPE _ fields _ =>
      k ← on_builder (on_module (ir_module_add_struct name (Z.of_nat (length fields))));
      s ← layout_fields is_union is_packed fields (mkLayout [] 0 0 0);
      on_builder (on_module (
        m ← get;
        ty ← lift (of_opt (types m !! k));
        match ty with
        | IR_STRUCT n f _ num_fields _ =>
            put (set_types (set_struct_fields m (<[f := Some <$> lay_fields s]> (struct_fields m)))
                   (<[k := IR_STRUCT n f (layout_size is_union is_packed s) num_fields
                             (Some (u8 (layout_align is_packed s)))]> (types m)))
        | _ => lift (Stop Undef)
        end));;
      on_types (set_ctype type (STRUCT_TYPE false fields (Some k)))
  | _ => lift (Stop Undef)
  end.

Definition struct_or_union_specifier (is_union : bool) (name : option string) (field_list : list ASTFieldDecl)
    (attribute : option string) : gen nat :=
  let is_packed := bool_decide (attribute = Some "packed"%string) in
  ctx ← get;
  let existing_type :=
    match name with Some n => search (struct_types (type_env ctx)) n | None => None end in
  match field_list with
  | [] =>
      match existing_type with
      | Some t => mret t
      | None => on_types (struct_type name)
      end
  | _ =>
      type ←
        match existing_type with
        | Some t =>
            c ← kind t;
            match c with
            | STRUCT_TYPE true _ _ => mret t
            | _ => fatal
            end
        | None => on_types (struct_type name)
        end;
      add_field_decls type field_list;;
      complete_struct type name is_union is_packed;;
      mret type
  end.

(** The enumerators become constants of the scope. *)
Fixpoint add_enumerators (l : list ASTEnumerator) (curr_enum_value : Z) : gen unit :=
  match l with
  | [] => mret tt
  | mkEnumerator name value :: l =>
      x ← match value with Some e => int_const rec e | None => mret curr_enum_value end;
      ty ← ir_type_of int_type;
      add_binding (mkBinding (Some name) true (mkTerm int_type (value_const_int ty x)));;
      add_enumerators l (u64 (x + 1))
  end.

Definition enum_specifier (tag : option string) (enumerator_list : list ASTEnumerator) : gen nat :=
  ctx ← get;
  let existing_type :=
    match tag with Some n => search (enum_types (type_env ctx)) n | None => None end in
  match enumerator_list, tag, existing_type with
  | [], None, _ => fatal
  | [], Some _, None => mret int_type
  | [], Some _, Some t => mret t
  | _, _, Some _ => lift UNIMPLEMENTED
  | _, _, None =>
      match tag with
      | Some n =>
          on_types (
            te ← get;
            c ← lift (ctype te int_type);
            t ← new_ctype c;
            modify (fun te => set_enum_types te (enum_types te ++ [(n, t)])))
      | None => mret tt
      end;;
      add_enumerators enumerator_list 0;;
      mret int_type
  end.

Fixpoint skip_qualifiers (l : list ASTDeclSpecifier) : list ASTDeclSpecifier :=
  match l with TYPE_QUALIFIER _ :: l => skip_qualifiers l | _ => l end.

Definition decl_specifier_list_to_c_type (decl_specifier_list : list ASTDeclSpecifier) : gen nat :=
  let l := skip_qualifiers decl_specifier_list in
  match l with
  | TYPE_SPECIFIER type_spec :: _ =>
      match type_spec with
      | NAMED_TYPE_SPECIFIER _ => ask (fun te => named_type_specifier_to_ctype te l)
      | STRUCT_TYPE_SPECIFIER name fields attribute => struct_or_union_specifier false name fields attribute
      | UNION_TYPE_SPECIFIER name fields attribute => struct_or_union_specifier true name fields attribute
      | ENUM_TYPE_SPECIFIER tag enumerators => enum_specifier tag enumerators
      end
  | _ => fatal
  end.

(** ** Declarators *)

Definition decl_to_cdecl (ident_type : nat) (declarator : option ASTDeclarator) : gen CDecl :=
  match declarator with
  | None => mret (mkCDecl None ident_type)
  | Some (POINTER_DECLARATOR pointee) =>
      t ← on_types (pointer_type ident_type);
      r_declarator rec t pointee
  | Some (DIRECT_DECLARATOR d) => r_direct rec ident_type d
  end.

(** The first loop over the parameters: is there an ellipsis? *)
Fixpoint ellipsis (params : list ASTParameterDecl) : gen bool :=
  match params with
  | [] => mret false
  | PARAMETER_DECL _ _ :: params => ellipsis params
  | ELLIPSIS_DECL :: [] => mret true
  | ELLIPSIS_DECL :: _ => fatal
  end.

(** The second loop: the types of the parameters, arrays decayed. *)
Fixpoint param_types (params : list ASTParameterDecl) (i : nat) : gen (list nat) :=
  match params with
  | [] => mret []
  | ELLIPSIS_DECL :: params => param_types params (S i)
  | PARAMETER_DECL specs declarator :: params =>
      param_ident_type ← r_specifiers rec specs;
      param_cdecl ← r_declarator rec param_ident_type declarator;
      c ← kind (cd_type param_cdecl);
      match c with
      | VOID_TYPE =>
          if negb (Nat.eqb i 0) then fatal
          else match cd_name param_cdecl with Some _ => fatal | None => mret tt end
      | _ => mret tt
      end;;
      t ← on_types (decay_to_pointer (cd_type param_cdecl));
      l ← param_types params (S i);
      mret (t :: l)
  end.

Definition direct_declarator_to_cdecl (ident_type : nat) (declarator : ASTDirectDeclarator) : gen CDecl :=
  match declarator with
  | DECLARATOR d => r_declarator rec ident_type (Some d)
  | IDENTIFIER_DECLARATOR name => mret (mkCDecl name ident_type)
  | ARRAY_DECLARATOR element_declarator array_length =>
      cdecl ← r_direct rec ident_type element_declarator;
      array ← gen_array_type (cd_type cdecl);
      match array_length with
      | Some e => length ← int_const rec e; on_types (set_array_type_length array length)
      | None => mret tt
      end;;
      mret (mkCDecl (cd_name cdecl) array)
  | FUNCTION_DECLARATOR function_declarator parameters =>
      variable_arity ← ellipsis parameters;
      arg_c_types ← param_types parameters 0;
      arg_c_types ←
        match arg_c_types with
        | [t] =>
            c ← kind t;
            match c with
            | VOID_TYPE => if (variable_arity : bool) then fatal else mret []
            | _ => mret arg_c_types
            end
        | _ => mret arg_c_types
        end;
      t ← on_types (new_ctype (FUNCTION_TYPE ident_type arg_c_types variable_arity));
      r_direct rec t function_declarator
  end.

(** ** Globals and locals *)

Fixpoint map_gen {A B} (f : A -> gen B) (l : list A) : gen (list B) :=
  match l with
  | [] => mret []
  | x :: l => y ← f x; l ← map_gen f l; mret (y :: l)
  end.

(** The global and the C type of a declaration. *)
Definition ir_global_for_decl (decl_specifier_list : list ASTDeclSpecifier) (declarator : ASTDeclarator)
    (initializer : option ASTInitializer) : gen (nat * nat) :=
  decl_spec_type ← r_specifiers rec decl_specifier_list;
  cdecl ← r_declarator rec decl_spec_type (Some declarator);
  infer_array_size_from_initializer rec initializer (cd_type cdecl);;
  let ctype := cd_type cdecl in
  c ← kind ctype;
  match c with
  | FUNCTION_TYPE return_type arg_type_array variable_arity =>
      name ← lift (match cd_name cdecl with Some n => Ok n | None => ICE end);
      rc ← kind return_type;
      let struct_ret := match rc with STRUCT_TYPE _ _ _ => true | _ => false end in
      arg_ir_types ← map_gen ir_type_of arg_type_array;
      let arg_ir_types := (if struct_ret then [IR_POINTER] else []) ++ arg_ir_types in
      ctx ← get;
      global ←
        match find_global_by_name (module (builder ctx)) name with
        | Some g => mret g
        | None =>
            ir_return ← (if struct_ret then mret IR_VOID else ir_type_of return_type);
            on_builder (on_module (ir_module_add_function name ir_return variable_arity arg_ir_types))
        end;
      ctx ← get;
      g ← lift (of_opt (globals (module (builder ctx)) !! global));
      match global_type g with
      | IR_FUNCTION _ _ _ => mret (global, ctype)
      | _ => fatal
      end
  | _ =>
      match cd_name cdecl with
      | None => fatal
      | Some name =>
          ctx ← get;
          global ←
            match find_global_by_name (module (builder ctx)) name with
            | Some g => mret g
            | None =>
                ty ← ir_type_of ctype;
                on_builder (on_module (ir_module_add_var name ty))
            end;
          mret (global, ctype)
      end
  end.

Definition cdecl_to_binding (cdecl : CDecl) : gen Binding :=
  ir_type ← ir_type_of (cd_type cdecl);
  value ← on_builder (build_local ir_type);
  mret (mkBinding (cd_name cdecl) false (mkTerm (cd_type cdecl) value)).

End Decl.

(** ** The layout of a struct *)

(** A field of [s] bytes at [offset f], aligned unless the struct is packed. *)
Definition placed (is_packed : bool) (f : IrStructField) (s : Z) : Prop :=
  size_of_ir_type (field_type f) = Ok s /\ 0 < s /\ 0 <= field_offset f /\
  exists k, 0 <= k < 8 /\ align_of_ir_type (field_type f) = Ok (2 ^ k) /\ (is_packed = false -> (2 ^ k | field_offset f)).

(** What the loop over the fields keeps: every field is placed below the end, a
    field of a struct ends where the next begins, or before, a field of a union
    is at its beginning. *)
Record laid_out (is_union is_packed : bool) (s : Layout) (bound : Z) : Prop := {
  lo_fields : forall i f, lay_fields s !! i = Some f -> exists n, placed is_packed f n /\
    field_offset f + n <= (if is_union then max_field_size s else current_offset s) /\
    (is_union = true -> field_offset f = 0) /\
    exists a, align_of_ir_type (field_type f) = Ok a /\ a <= max_field_align s;
  lo_order : is_union = false -> forall i j f g n, lay_fields s !! i = Some f -> lay_fields s !! j = Some g ->
    (i < j)%nat -> size_of_ir_type (field_type f) = Ok n -> field_offset f + n <= field_offset g;
  lo_end : 0 <= current_offset s <= bound;
  lo_size : 0 <= max_field_size s <= bound;
  lo_align : if decide (lay_fields s = []) then max_field_align s = 0 else exists k, 0 <= k < 8 /\ max_field_align s = 2 ^ k
}.

Lemma max_pow2 a b : 0 <= a < 8 -> 0 <= b < 8 -> exists k, 0 <= k < 8 /\ Z.max (2 ^ a) (2 ^ b) = 2 ^ k.
Proof.
  intros Ha Hb. exists (Z.max a b). split; [lia |].
  destruct (Z.le_ge_cases a b).
  - rewrite !Z.max_r; [done | lia |]. apply Z.pow_le_mono_r; lia.
  - rewrite !Z.max_l; [done | lia |]. apply Z.pow_le_mono_r; lia.
Qed.

Lemma layout_field_ok is_union is_packed s bound ty n : type_wf ty -> size_of_ir_type ty = Ok n ->
  laid_out is_union is_packed s bound -> bound + n + 128 < 2 ^ 32 ->
  exists s', layout_field is_union is_packed s ty = Ok s' /\ laid_out is_union is_packed s' (bound + n + 128) /\
    exists f, lay_fields s' = lay_fields s ++ [f] /\ field_type f = ty.
Proof.
  intros Hwf En [F O E S A] Hb. destruct (type_size_bounds ty Hwf) as (n' & k & En' & Ek & Hn & Hk & Hm).
  rewrite En in En'. injection En' as <-. unfold layout_field. rewrite En, Ek. cbn [mbind res_bind].
  assert (P : 2 ^ k <= 128) by (change 128 with (2 ^ 7); apply Z.pow_le_mono_r; lia).
  pose proof (pow2_pos k ltac:(lia)) as P0.
  pose proof (Maths.align_to_least (current_offset s) k ltac:(lia) ltac:(lia) ltac:(lia)) as (L1 & L2 & L3).
  set (o := if is_packed then current_offset s else Maths.align_to (current_offset s) (2 ^ k)).
  assert (Ho : current_offset s <= o < current_offset s + 128 /\ (is_packed = false -> (2 ^ k | o)))
    by (unfold o; destruct is_packed; split; try lia; done).
  assert (Al : exists j, 0 <= j < 8 /\ Z.max (max_field_align s) (2 ^ k) = 2 ^ j /\ max_field_align s <= 2 ^ j /\ 2 ^ k <= 2 ^ j).
  { case_decide.
    - exists k. rewrite A. lia.
    - destruct A as (j & Hj & ->). destruct (max_pow2 j k Hj Hk) as (i & Hi & Ei). exists i. lia. }
  destruct Al as (j & Hj & Ej & Ej1 & Ej2).
  assert (W : u32 (o + n) = o + n) by (apply wrap_small; lia).
  exists (mkLayout (lay_fields s ++ [mkField ty (if is_union then 0 else o)])
    (if is_union then current_offset s else o + n) (Z.max (max_field_size s) n) (2 ^ j)).
  split; [rewrite Ej; destruct is_union; [done | by fold o; rewrite W] |].
  split; [| eexists; split; reflexivity].
  constructor; cbn [lay_fields max_field_size max_field_align current_offset].
  - intros i f [Hf | [_ Hf]]%lookup_app_Some.
    + destruct (F i f Hf) as (n1 & P1 & P2 & P3 & k1 & P4 & P5). exists n1.
      split_and!; [done | destruct is_union; lia | done |]. exists k1. split; [done | lia].
    + apply list_lookup_singleton_Some in Hf as [_ <-]. exists n. cbn.
      split_and!; [| destruct is_union; lia | by intros -> | exists (2 ^ k); split; [done | lia]].
      unfold placed; cbn. split_and!; [done | lia | destruct is_union; lia |]. exists k. split_and!; [lia | lia | done |].
      intros Np. destruct is_union; [apply Z.divide_0_r | by apply Ho].
  - intros -> i1 i2 f g n1 Hf Hg Hi Hn1. apply lookup_app_Some in Hg as [Hg | [Hi2 Hg]].
    + apply (O eq_refl i1 i2 f g n1); try done. apply lookup_lt_Some in Hg. rewrite lookup_app_l in Hf by lia. done.
    + apply list_lookup_singleton_Some in Hg as [D <-]. rewrite lookup_app_l in Hf by lia.
      destruct (F i1 f Hf) as (n2 & (Q1 & _) & Q2 & _). cbn. rewrite Hn1 in Q1. injection Q1 as <-. lia.
  - destruct is_union; lia.
  - lia.
  - rewrite decide_False by (by destruct (lay_fields s)). by exists j.
Qed.

(** The IR types of the fields, found without a change of the state. *)
Definition field_types (fields : list CDecl) (tys : list IrType) (c : IrGenContext) : Prop :=
  Forall2 (fun f ty => ir_type_of (cd_type f) c = Ok (ty, c)) fields tys.
Definition total_size (tys : list IrType) : Z :=
  foldr (fun ty n => match size_of_ir_type ty with Ok s => s + 128 + n | Stop _ => n end) 0 tys.

Lemma total_size_nonneg tys : Forall type_wf tys -> 0 <= total_size tys.
Proof.
  induction 1 as [|ty tys Hty _ IH]; [done |]. cbn. fold (total_size tys). destruct (type_size_bounds ty Hty) as (n & k & -> & _ & Hn & _). lia.
Qed.

Lemma layout_fields_ok is_union is_packed c fields tys s bound : field_types fields tys c -> Forall type_wf tys ->
  laid_out is_union is_packed s bound -> bound + total_size tys < 2 ^ 32 ->
  exists s', layout_fields is_union is_packed fields s c = Ok (s', c) /\
    laid_out is_union is_packed s' (bound + total_size tys) /\
    field_type <$> lay_fields s' = (field_type <$> lay_fields s) ++ tys.
Proof.
  intros Hf. revert s bound. induction Hf as [|f ty fields tys E _ IH]; intros s bound Hwf Hs Hb.
  - exists s. cbn. rewrite Z.add_0_r, app_nil_r. done.
  - apply Forall_cons in Hwf as [Hty Hwf]. cbn [total_size foldr] in Hb |- *. fold (total_size tys) in *.
    pose proof (total_size_nonneg tys Hwf) as N.
    destruct (type_size_bounds ty Hty) as (n & k & En & _). rewrite En in Hb |- *.
    destruct (layout_field_ok is_union is_packed s bound ty n Hty En Hs ltac:(lia)) as (s1 & E1 & H1 & g & Eg & Tg).
    destruct (IH s1 (bound + n + 128) Hwf H1 ltac:(lia)) as (s2 & E2 & H2 & T2). exists s2. split_and!.
    + cbn. unfold mbind, st_bind, lift. by rewrite E, E1.
    + by replace (bound + (n + 128 + total_size tys)) with (bound + n + 128 + total_size tys) by lia.
    + rewrite T2, Eg, fmap_app, <- app_assoc. cbn. by rewrite Tg.
Qed.

(** C24: The fields of a struct lie at increasing offsets without overlap, each
    aligned as its type asks unless the struct is packed; the fields of a union
    all begin at 0. Each lies inside the size that the struct gets, and the struct
    type that results is well formed: its size is positive and a multiple of its
    alignment, which every field's alignment divides. *)
Theorem layout_sound is_union is_packed c fields tys (Hf : field_types fields tys c) (Hwf : Forall type_wf tys)
    (Hne : tys <> []) (Hsize : total_size tys < 2 ^ 32 - 128) :
  exists s, layout_fields is_union is_packed fields (mkLayout [] 0 0 0) c = Ok (s, c) /\
    field_type <$> lay_fields s = tys /\
    (forall i f, lay_fields s !! i = Some f -> exists n, placed is_packed f n /\
       field_offset f + n <= layout_size is_union is_packed s /\ (is_union = true -> field_offset f = 0)) /\
    (is_union = false -> forall i j f g n, lay_fields s !! i = Some f -> lay_fields s !! j = Some g ->
       (i < j)%nat -> size_of_ir_type (field_type f) = Ok n -> field_offset f + n <= field_offset g) /\
    (is_packed = false -> forall f, f ∈ lay_fields s -> exists a,
       align_of_ir_type (field_type f) = Ok a /\ (a | layout_align is_packed s)) /\
    forall name k nf, type_wf (IR_STRUCT name k (layout_size is_union is_packed s) nf (Some (u8 (layout_align is_packed s)))).
Proof.
  destruct (layout_fields_ok is_union is_packed c fields tys (mkLayout [] 0 0 0) 0 Hf Hwf) as (s & E & H & T);
    [constructor; try done; by intros [] | lia |]. cbn in T. destruct H as [F O En S A]. rewrite Z.add_0_l in En, S.
  exists s. rewrite decide_False in A by (intros Hn; rewrite Hn in T; by subst). destruct A as (k & Hk & A).
  set (top := if is_union then max_field_size s else current_offset s) in F.
  assert (Ht : 0 < top <= total_size tys).
  { split; [| unfold top; destruct is_union; lia]. destruct (lay_fields s) as [|f l] eqn:El; [by subst |].
    destruct (F 0%nat f eq_refl) as (n & (_ & P1 & P2 & _) & P3 & _). lia. }
  set (j := if is_packed then 0 else k).
  assert (Ej : layout_align is_packed s = 2 ^ j) by (unfold layout_align, j; by destruct is_packed).
  assert (Hj : 0 <= j < 8) by (unfold j; destruct is_packed; lia).
  assert (P : 2 ^ j <= 128) by (change 128 with (2 ^ 7); apply Z.pow_le_mono_r; lia).
  pose proof (Maths.align_to_least top j ltac:(lia) ltac:(lia) ltac:(lia)) as (L1 & L2 & _).
  unfold layout_size. fold top. rewrite Ej. split_and!; [done | done | | done | |].
  - intros i f Hi. destruct (F i f Hi) as (n & P1 & P2 & P3 & _). exists n. split_and!; [done | lia | done].
  - intros -> f [i Hi]%list_elem_of_lookup_1. destruct (F i f Hi) as (n & P1 & P2 & P3 & k1 & P4 & P5).
    destruct P1 as (_ & _ & _ & k2 & Hk2 & P6 & _). rewrite P4 in P6. injection P6 as ->.
    exists (2 ^ k2). split; [done |]. unfold j in *. rewrite A in P5.
    apply Z.pow_le_mono_r_iff in P5; [| lia..]. exists (2 ^ (k - k2)). rewrite <- Z.pow_add_r by lia. f_equal. lia.
  - intros name k0 nf. split; [lia |]. exists j. split; [done |]. split; [by rewrite wrap_small by lia |].
    apply Z.mod_divide; [lia | done].
Qed.

Definition empty_context : IrGenContext :=
  mkContext (builder_init ir_module_init) [[]] init_type_env None [] [] [] [] None None 0.

Lemma layout_sound_witness :
  let fields := [mkCDecl (Some "a"%string) char_type; mkCDecl (Some "b"%string) int_type; mkCDecl (Some "c"%string) double_type] in
  let tys := [IR_INT 8; IR_INT 32; IR_FLOAT 64] in
  exists s, layout_fields false false fields (mkLayout [] 0 0 0) empty_context = Ok (s, empty_context) /\
    field_type <$> lay_fields s = tys /\
    (forall i f, lay_fields s !! i = Some f -> exists n, placed false f n /\
       field_offset f + n <= layout_size false false s /\ (false = true -> field_offset f = 0)) /\
    (false = false -> forall i j f g n, lay_fields s !! i = Some f -> lay_fields s !! j = Some g ->
       (i < j)%nat -> size_of_ir_type (field_type f) = Ok n -> field_offset f + n <= field_offset g) /\
    (false = false -> forall f, f ∈ lay_fields s -> exists a,
       align_of_ir_type (field_type f) = Ok a /\ (a | layout_align false s)) /\
    forall name k nf, type_wf (IR_STRUCT name k (layout_size false false s) nf (Some (u8 (layout_align false s)))).
Proof.
  apply layout_sound.
  - by repeat constructor.
  - repeat constructor; cbn; tauto.
  - done.
  - done.
Defined.
