(* ===== verification/Expr.v ===== *)
(** * Expressions ([src/src/ir_gen/expr.c])

    [ir_gen_expr] turns an expression into IR and returns a [Term]: its C type
    and its IR value. C leaves the order of evaluation of the arguments of a call
    open; the model takes the operands of the code's calls from left to right, as
    this compiler itself does. [eval_constant_expr] and [type_name_to_c_type] are
    in [Calls.v]. *)

From S2P Require Import Prelude Ast Ir CType Context Convert Calls Initializer Decl.
From Stdlib Require Import SpecFloat.

Local Open Scope Z_scope.

Definition is_pointer (c : CType) : bool := match c with POINTER_TYPE _ => true | _ => false end.
Definition is_struct (c : CType) : bool := match c with STRUCT_TYPE _ _ _ => true | _ => false end.
Definition pointee (c : CType) : res nat := match c with POINTER_TYPE p => Ok p | _ => Stop Undef end.

Definition decay (t : Term) : gen Term :=
  ty ← on_types (decay_to_pointer (t_ctype t)); mret (mkTerm ty (t_value t)).

(** An int constant: [value_const_int(c_type_to_ir_type(t), x)]. *)
Definition const_of (t : nat) (x : Z) : gen IrValue := ty ← ir_type_of t; mret (value_const_int ty x).

(** [exit(1)] after printing the unknown name. *)
Definition unknown_identifier {A} : gen A := lift (Stop (Exit EXIT_CODE_BAD_CLI)).

(** ** Fields and pointers *)

Definition ir_gen_struct_field (struct_term : Term) (field_name : string) (context : ExprContext) : gen Term :=
  lift (PRECONDITION match val_type (t_value struct_term) with IR_POINTER => true | _ => false end);;
  c ← kind (t_ctype struct_term);
  ctype ← lift match c with POINTER_TYPE p => Ok p | _ => Ok (t_ctype struct_term) end;
  c ← kind ctype;
  match c with
  | STRUCT_TYPE _ fields ir_type =>
      k ← lift (of_opt ir_type);
      ctx ← get;
      ty ← lift (of_opt (types (module (builder ctx)) !! k));
      match ty with
      | IR_STRUCT _ f _ _ _ =>
          match find_field fields field_name 0 with
          | None => fatal
          | Some (field_number, t) =>
              value ← on_builder (build_field (t_value struct_term) ty (Z.of_nat field_number));
              ctx ← get;
              l ← lift (of_opt (struct_fields (module (builder ctx)) !! f));
              field ← lift (of_opt (l !! field_number));
              field ← lift (of_opt field);
              fc ← kind t;
              value ← (if bool_decide (context = RVALUE_CONTEXT) && negb (is_aggregate fc)
                       then on_builder (build_load value (field_type field)) else mret value);
              mret (mkTerm t value)
          end
      | _ => lift ICE
      end
  | _ => lift ICE
  end.

Definition ir_gen_deref (pointer : Term) (context : ExprContext) : gen Term :=
  pointer_type ← on_types (decay_to_pointer (t_ctype pointer));
  c ← kind pointer_type;
  match c with
  | POINTER_TYPE pointee_type =>
      pc ← kind pointee_type;
      value ←
        (if bool_decide (context = LVALUE_CONTEXT) || is_aggregate pc then mret (t_value pointer)
         else
           lift (ASSERT (bool_decide (context = RVALUE_CONTEXT)));;
           ty ← ir_type_of pointee_type;
           on_builder (build_load (t_value pointer) ty));
      mret (mkTerm pointee_type value)
  | _ => fatal
  end.

(** ** Operators *)

Definition signed_cmp_to_unsigned_cmp (cmp : IrCmp) : IrCmp :=
  match cmp with
  | CMP_SGT => CMP_UGT
  | CMP_SGTE => CMP_UGTE
  | CMP_SLT => CMP_ULT
  | CMP_SLTE => CMP_ULTE
  | cmp => cmp
  end.

Definition is_global (v : IrValue) : bool := match val_u v with IR_VALUE_GLOBAL _ => true | _ => false end.
Definition is_zero_const (v : IrValue) : bool :=
  match val_u v with IR_VALUE_CONST_INT x => x =? 0 | _ => false end.

(** A comparison whose result is known: only [!=] holds. *)
Definition tautology (cmp : IrCmp) : gen Term :=
  v ← const_of int_type (Z.b2z (bool_decide (cmp = CMP_NEQ))); mret (mkTerm int_type v).

Definition ir_gen_cmp (left right : Term) (cmp : IrCmp) : gen Term :=
  left ← decay left;
  right ← decay right;
  lc ← kind (t_ctype left);
  rc ← kind (t_ctype right);
  let compare left right cmp :=
    value ← on_builder (build_cmp cmp (t_value left) (t_value right));
    mret (mkTerm int_type value) in
  if is_pointer lc || is_pointer rc then
    if negb (is_pointer lc && is_pointer rc) then
      let '(ptr_term, other_term) := if is_pointer lc then (left, right) else (right, left) in
      ask (fun te => fatal_error_if_not_int te (t_ctype other_term));;
      if negb (is_zero_const (t_value other_term)) then fatal
      else if is_global (t_value ptr_term) then tautology cmp
      else
        other_term ← convert_type other_term (t_ctype ptr_term);
        if is_pointer lc then compare left other_term cmp else compare other_term right cmp
    else if is_global (t_value left) && is_global (t_value right) then tautology cmp
    else compare left right cmp
  else
    '(left, right) ← do_arithmetic_conversions left right;
    e ← types_eq (t_ctype left) (t_ctype right);
    lift (ASSERT e);;
    c ← kind (t_ctype left);
    match c with
    | INTEGER_TYPE _ is_signed =>
        compare left right (if is_signed : bool then cmp else signed_cmp_to_unsigned_cmp cmp)
    | FLOAT_TYPE _ =>
        value ← on_builder (build_cmpf (signed_cmp_to_unsigned_cmp cmp) (t_value left) (t_value right));
        mret (mkTerm int_type value)
    | _ => fatal
    end.

(** [pointer +- other] for an index that is not a constant. *)
Definition offset_pointer (op : IrOp) (pointer other : Term) (pointee_type : nat) : gen Term :=
  pointer_int_type ← ir_type_of int_ptr_type;
  zext ← on_builder (build_type_instr OP_ZEXT (t_value other) pointer_int_type);
  ptr_to_int ← on_builder (build_type_instr OP_CAST (t_value pointer) pointer_int_type);
  size ← size_of pointee_type;
  addend ← on_builder (build_binary_instr OP_MUL zext (value_const_int pointer_int_type size));
  sum ← on_builder (build_binary_instr op ptr_to_int addend);
  ty ← ir_type_of (t_ctype pointer);
  int_to_ptr ← on_builder (build_type_instr OP_CAST sum ty);
  mret (mkTerm (t_ctype pointer) int_to_ptr).

Definition ir_gen_add (left right : Term) : gen Term :=
  left ← decay left;
  right ← decay right;
  lc ← kind (t_ctype left);
  rc ← kind (t_ctype right);
  la ← ask (fun te => is_arithmetic_type te (t_ctype left));
  ra ← ask (fun te => is_arithmetic_type te (t_ctype right));
  if (la && ra : bool) then
    '(left, right) ← do_arithmetic_conversions left right;
    c ← kind (t_ctype left);
    let op := match c with INTEGER_TYPE _ _ => OP_ADD | _ => OP_ADDF end in
    value ← on_builder (build_binary_instr op (t_value left) (t_value right));
    mret (mkTerm (t_ctype left) value)
  else if xorb (is_pointer lc) (is_pointer rc) then
    let pointer := if is_pointer lc then left else right in
    let other := if is_pointer lc then right else left in
    ask (fun te => fatal_error_if_not_int te (t_ctype other));;
    pointee_type ← lift (pointee (if is_pointer lc then lc else rc));
    match val_u (t_value other) with
    | IR_VALUE_CONST_INT x =>
        pc ← kind pointee_type;
        n ← ask (fun te => inner_size te pc);
        array ← gen_array_type pointee_type;
        ty ← ir_type_of array;
        value ← on_builder (build_field (t_value pointer) ty (u32 (u64 (x * n))));
        mret (mkTerm (t_ctype pointer) value)
    | _ => offset_pointer OP_ADD pointer other pointee_type
    end
  else lift UNREACHABLE.

Definition ir_gen_sub (left right : Term) : gen Term :=
  left ← decay left;
  right ← decay right;
  lc ← kind (t_ctype left);
  rc ← kind (t_ctype right);
  match lc, rc with
  | INTEGER_TYPE _ _, INTEGER_TYPE _ _ =>
      '(left, right) ← do_arithmetic_conversions left right;
      value ← on_builder (build_binary_instr OP_SUB (t_value left) (t_value right));
      mret (mkTerm (t_ctype left) value)
  | POINTER_TYPE pointee_type, POINTER_TYPE _ =>
      pointer_int_type ← ir_type_of int_ptr_type;
      left_int ← on_builder (build_type_instr OP_CAST (t_value left) pointer_int_type);
      right_int ← on_builder (build_type_instr OP_CAST (t_value right) pointer_int_type);
      diff ← on_builder (build_binary_instr OP_SUB left_int right_int);
      int ← ir_type_of int_type;
      cast ← on_builder (build_type_instr OP_CAST diff int);
      size ← size_of pointee_type;
      scaled ← on_builder (build_binary_instr OP_DIV cast (value_const_int (val_type cast) size));
      mret (mkTerm int_type scaled)
  | POINTER_TYPE pointee_type, INTEGER_TYPE _ _ => offset_pointer OP_SUB left right pointee_type
  | _, _ => lift UNIMPLEMENTED
  end.

Definition ir_gen_binary_operator (left right : Term) (ir_op : IrOp) : gen Term :=
  if decide (ir_op = OP_ADD) then ir_gen_add left right
  else if decide (ir_op = OP_SUB) then ir_gen_sub left right
  else
    left ← decay left;
    right ← decay right;
    '(left, right) ← do_arithmetic_conversions left right;
    value ← on_builder (build_binary_instr ir_op (t_value left) (t_value right));
    mret (mkTerm (t_ctype left) value).

(** The result and [*pre_assign_value], which an assignment to a struct or an
    array leaves unset. [u.strukt.ir_type] and [u.array.ir_type] share their
    place in the union. *)
Definition ir_gen_assign_op (left right : Term) (ir_op : IrOp) : gen (Term * option Term) :=
  c ← kind (t_ctype left);
  if is_aggregate c then
    ask (fun te => fatal_error_if_type_not_eq te (t_ctype left) (t_ctype right));;
    size_ty ← ir_type_of int_ptr_type;
    ctx ← get;
    ty ← lift match c with
              | STRUCT_TYPE _ _ k => k ← of_opt k; of_opt (types (module (builder ctx)) !! k)
              | ARRAY_TYPE _ _ _ k => of_opt (ir_types (type_env ctx) !! k)
              | _ => Stop Undef
              end;
    size ← lift (size_of_ir_type ty);
    call_builtin builtin_memcpy [t_value left; t_value right; value_const_int size_ty size];;
    mret (right, None)
  else
    '(result, pre) ←
      (if decide (ir_op = OP_INVALID) then mret (right, None)
       else
         ty ← ir_type_of (t_ctype left);
         v ← on_builder (build_load (t_value left) ty);
         let load := mkTerm (t_ctype left) v in
         result ← ir_gen_binary_operator load right ir_op;
         mret (result, Some load));
    result ← convert_type result (t_ctype left);
    on_builder (build_store (t_value left) (t_value result));;
    mret (result, pre).

Definition look_up_builtin_ident (name : string) : gen (option Term) :=
  if bool_decide (name = "__builtin_inf"%string) then
    ty ← ir_type_of float_type;
    mret (Some (mkTerm float_type (value_const_float ty (S754_infinity false))))
  else mret None.

Definition ir_gen_va_arg (va_list_term : Term) (builtin_name : string) (arg_type : nat) : gen Term :=
  ctx ← get;
  match find_global_by_name (module (builder ctx)) builtin_name with
  | None => lift ICE
  | Some g =>
      ty ← ir_type_of arg_type;
      value ← on_builder (build_call (value_global g) ty [t_value va_list_term]);
      mret (mkTerm arg_type value)
  end.

(** ** Expressions *)

(** What the two checks at the head of [ir_gen_expr] let pass. *)
Definition allowed_in (context : ExprContext) (expr : ASTExpr) : bool :=
  match context with
  | LVALUE_CONTEXT =>
      match expr with
      | IDENTIFIER_EXPR _ | STRUCT_DOT_FIELD_EXPR _ _ | STRUCT_ARROW_FIELD_EXPR _ _ | INDEX_EXPR _ _
      | DEREF_EXPR _ => true
      | _ => false
      end
  | CONST_CONTEXT =>
      match expr with
      | ASSIGN_EXPR _ _ | ADD_ASSIGN_EXPR _ _ | MINUS_ASSIGN_EXPR _ _ | PRE_INCREMENT_EXPR _
      | POST_INCREMENT_EXPR _ | PRE_DECREMENT_EXPR _ | POST_DECREMENT_EXPR _ | BIT_XOR_ASSIGN_EXPR _ _
      | BIT_AND_ASSIGN_EXPR _ _ | BIT_OR_ASSIGN_EXPR _ _ | RIGHT_SHIFT_ASSIGN_EXPR _ _
      | MULTIPLY_ASSIGN_EXPR _ _ | DIVIDE_ASSIGN_EXPR _ _ | FUNCTION_CALL_EXPR _ _ | COMMA_EXPR _ _ => false
      | _ => true
      end
  | RVALUE_CONTEXT => true
  end.

Definition ir_gen_identifier (name : string) (context : ExprContext) : gen Term :=
  builtin ← look_up_builtin_ident name;
  match builtin with
  | Some t => mret t
  | None =>
      ctx ← get;
      match binding_for_name (scope ctx) name with
      | None => unknown_identifier
      | Some binding =>
          let v := t_value (b_term binding) in
          let t := t_ctype (b_term binding) in
          lift (ASSERT (match val_type v with IR_POINTER => true | _ => b_constant binding end));;
          c ← kind t;
          value ←
            (if bool_decide (context = LVALUE_CONTEXT) then
               if b_constant binding then fatal else mret v
             else if is_aggregate c || match c with FUNCTION_TYPE _ _ _ => true | _ => false end then mret v
             else if b_constant binding then mret v
             else if bool_decide (context = CONST_CONTEXT) then fatal
             else ty ← ir_type_of t; on_builder (build_load v ty));
          mret (mkTerm t value)
      end
  end.

(** A new global holds the characters and the terminator. *)
Definition ir_gen_string_literal (s : list Z) : gen Term :=
  ctx ← get;
  let name := ("__string_literal_" +:+ hex (u32 (Z.of_nat (length (globals (module (builder ctx))))))) in
  let length := u32 (Z.of_nat (length s) + 1) in
  result_type ← gen_array_type char_type;
  on_types (set_array_type_length result_type length);;
  ir_type ← ir_type_of result_type;
  global ← on_builder (on_module (ir_module_add_var name ir_type));
  konst ← on_builder (add_array_const ir_type);
  ir_char_type ← ir_type_of char_type;
  on_builder (on_module (
    m ← get;
    k ← lift (of_opt (consts m !! konst));
    match const_u k with
    | K_array_elems b =>
        modify (fun m => set_const_arrays m
          (<[b := (fun c => Some (mkConst ir_char_type (K_integer (u64 c)))) <$> (s ++ [0])]> (const_arrays m)))
    | _ => lift (Stop Undef)
    end;;
    modify (fun m => set_globals m
      (alter (fun g => mkGlobal (global_name g) (global_type g) IR_LOCAL_LINKAGE (Some konst)) global (globals m)))));;
  mret (mkTerm result_type (value_global global)).

Section Expr.
Variable rec : calls.

Definition expr_r (e : ASTExpr) : gen Term := r_expr rec e RVALUE_CONTEXT.

Definition ir_gen_binary_expr (arg1 arg2 : ASTExpr) (ir_op : IrOp) : gen Term :=
  left ← expr_r arg1;
  right ← expr_r arg2;
  ir_gen_binary_operator left right ir_op.

Definition ir_gen_cmp_expr (arg1 arg2 : ASTExpr) (cmp : IrCmp) : gen Term :=
  left ← expr_r arg1;
  right ← expr_r arg2;
  ir_gen_cmp left right cmp.

Definition ir_gen_assign_expr (arg1 arg2 : ASTExpr) (ir_op : IrOp) : gen Term :=
  left ← r_expr rec arg1 LVALUE_CONTEXT;
  right ← expr_r arg2;
  '(result, _) ← ir_gen_assign_op left right ir_op;
  mret result.

(** A decrement or increment; [*pre_assign_value] is undefined for aggregates. *)
Definition ir_gen_inc_dec (arg : ASTExpr) (op : IrOp) (is_pre : bool) : gen Term :=
  ptr ← r_expr rec arg LVALUE_CONTEXT;
  one ← const_of int_type 1;
  '(incremented, pre_assign_value) ← ir_gen_assign_op ptr (mkTerm int_type one) op;
  if is_pre then mret incremented else lift (of_opt pre_assign_value).

(** Evaluate the arguments, converting those that have a parameter. *)
Fixpoint call_args (args : list ASTExpr) (arg_types : list nat) : gen (list IrValue) :=
  match args with
  | [] => mret []
  | a :: args =>
      arg_term ← expr_r a;
      arg_term ← match arg_types with
                 | t :: _ => convert_type arg_term t
                 | [] => mret arg_term
                 end;
      l ← call_args args (tail arg_types);
      mret (t_value arg_term :: l)
  end.

Definition ir_gen_call (callee_expr : ASTExpr) (args : list ASTExpr) : gen Term :=
  callee ← expr_r callee_expr;
  c ← kind (t_ctype callee);
  fc ← match c with
       | FUNCTION_TYPE _ _ _ => mret c
       | POINTER_TYPE p => kind p
       | _ => fatal
       end;
  match fc with
  | FUNCTION_TYPE return_type arg_type_array _ =>
      rc ← kind return_type;
      if is_struct rc then
        ty ← ir_type_of return_type;
        local_for_ret_value ← on_builder (build_local ty);
        arg_array ← call_args args arg_type_array;
        on_builder (build_call (t_value callee) IR_VOID (local_for_ret_value :: arg_array));;
        mret (mkTerm return_type local_for_ret_value)
      else
        arg_array ← call_args args arg_type_array;
        ty ← ir_type_of return_type;
        value ← on_builder (build_call (t_value callee) ty arg_array);
        mret (mkTerm return_type value)
  | _ => fatal
  end.

Definition is_va_list (c : CType) : bool := is_aggregate c || is_pointer c.

Definition ir_gen_function_call (callee_expr : ASTExpr) (args : list ASTExpr) : gen Term :=
  match callee_expr with
  | IDENTIFIER_EXPR name =>
      builtin ← look_up_builtin_ident name;
      match builtin with
      | Some t => mret t
      | None =>
          if bool_decide (name = "__builtin_va_start"%string) then
            match args with
            | [a] =>
                va_list_ptr ← expr_r a;
                c ← kind (t_ctype va_list_ptr);
                if negb (is_va_list c) then fatal
                else
                  value ← on_builder (build_builtin_va_start (t_value va_list_ptr));
                  mret (mkTerm void_type value)
            | _ => fatal
            end
          else if bool_decide (name = "__builtin_va_end"%string) then
            mret (mkTerm void_type (value_const_int IR_VOID 0))
          else ir_gen_call callee_expr args
      end
  | _ => ir_gen_call callee_expr args
  end.

Definition require_int (t : Term) : gen unit := ask (fun te => fatal_error_if_not_int te (t_ctype t)).

(** [&&] and [||]: the right operand has a block of its own. *)
Definition ir_gen_logical (is_or : bool) (lhs_expr rhs_expr : ASTExpr) : gen Term :=
  rhs_block ← on_builder (add_block (if is_or then "or.rhs" else "and.rhs"));
  after_block ← on_builder (add_block (if is_or then "or.after" else "and.after"));
  lhs ← expr_r lhs_expr;
  require_int lhs;;
  on_builder (if is_or then build_cond (t_value lhs) after_block rhs_block
              else build_cond (t_value lhs) rhs_block after_block);;
  lhs_resultant_block ← get_current_block;
  set_current_block (Some rhs_block);;
  rhs ← expr_r rhs_expr;
  require_int rhs;;
  zero ← const_of (t_ctype rhs) 0;
  rhs_as_bool ← on_builder (build_cmp CMP_NEQ (t_value rhs) zero);
  on_builder (build_jump after_block);;
  rhs_resultant_block ← get_current_block;
  set_current_block (Some after_block);;
  int ← ir_type_of int_type;
  phi ← on_builder (build_phi int 2);
  lhs_b ← lift (of_opt lhs_resultant_block);
  rhs_b ← lift (of_opt rhs_resultant_block);
  on_builder (phi_set_param phi 0 lhs_b (value_const_int int (if is_or then 1 else 0)));;
  on_builder (phi_set_param phi 1 rhs_b rhs_as_bool);;
  mret (mkTerm int_type phi).

Definition ir_gen_conditional (condition_expr then_expr else_expr : ASTExpr) : gen Term :=
  then_block ← on_builder (add_block "ternary.then");
  else_block ← on_builder (add_block "ternary.else");
  after_block ← on_builder (add_block "ternary.after");
  condition_term ← expr_r condition_expr;
  require_int condition_term;;
  on_builder (build_cond (t_value condition_term) then_block else_block);;
  set_current_block (Some then_block);;
  then_term ← expr_r then_expr;
  then_term ← decay then_term;
  then_resultant_block ← get_current_block;
  set_current_block (Some else_block);;
  else_term ← expr_r else_expr;
  else_term ← decay else_term;
  else_resultant_block ← get_current_block;
  ta ← ask (fun te => is_arithmetic_type te (t_ctype then_term));
  ea ← ask (fun te => is_arithmetic_type te (t_ctype else_term));
  '(then_term, else_term, result_type) ←
    (if (ta && ea : bool) then
       '(l, r) ← do_arithmetic_conversions_with_blocks then_term then_resultant_block else_term else_resultant_block;
       mret (l, r, t_ctype l)
     else
       tc ← kind (t_ctype then_term);
       ec ← kind (t_ctype else_term);
       void ←
         match tc, ec with
         | POINTER_TYPE p, POINTER_TYPE q =>
             pc ← kind p;
             qc ← kind q;
             mret (match pc, qc with VOID_TYPE, _ | _, VOID_TYPE => true | _, _ => false end)
         | _, _ => mret false
         end;
       if (void : bool) then
         t ← on_types (pointer_type void_type); mret (then_term, else_term, t)
       else
         ask (fun te => fatal_error_if_type_not_eq te (t_ctype then_term) (t_ctype else_term));;
         mret (then_term, else_term, t_ctype then_term));
  set_current_block then_resultant_block;;
  on_builder (build_jump after_block);;
  set_current_block else_resultant_block;;
  on_builder (build_jump after_block);;
  set_current_block (Some after_block);;
  phi ← on_builder (build_phi (val_type (t_value then_term)) 2);
  then_b ← lift (of_opt then_resultant_block);
  else_b ← lift (of_opt else_resultant_block);
  on_builder (phi_set_param phi 0 then_b (t_value then_term));;
  on_builder (phi_set_param phi 1 else_b (t_value else_term));;
  mret (mkTerm result_type phi).

(** The operand is generated into the scratch function; only its type is kept. *)
Definition ir_gen_sizeof_expr (sizeof_expr : ASTExpr) : gen Term :=
  ctx ← get;
  let prev_function := current_function (builder ctx) in
  let prev_block := current_block (builder ctx) in
  f ← on_builder (on_module (function_at (scratch_function ctx)));
  block ← lift (of_opt (last (fun_blocks f)));
  on_builder (modify (fun b => mkBuilder (module b) (Some (scratch_function ctx)) (Some block)));;
  term ← expr_r sizeof_expr;
  on_builder (modify (fun b => mkBuilder (module b) prev_function prev_block));;
  size ← size_of (t_ctype term);
  value ← const_of size_type size;
  mret (mkTerm size_type value).

Definition ir_gen_va_arg_expr (va_list_expr : ASTExpr) (type_name : ASTTypeName) : gen Term :=
  va_list_term ← expr_r va_list_expr;
  arg_type ← type_name_to_c_type rec type_name;
  c ← kind (t_ctype va_list_term);
  if negb (is_va_list c) then fatal
  else
    ac ← kind arg_type;
    match ac with
    | INTEGER_TYPE _ _ | POINTER_TYPE _ =>
        t ← ir_gen_va_arg va_list_term "__builtin_va_arg_uint64" unsigned_long_type;
        convert_type t arg_type
    | FLOAT_TYPE FLOAT => ir_gen_va_arg va_list_term "__builtin_va_arg_float" arg_type
    | FLOAT_TYPE DOUBLE => ir_gen_va_arg va_list_term "__builtin_va_arg_double" arg_type
    | _ => lift UNIMPLEMENTED
    end.

Definition ir_gen_expr (expr : ASTExpr) (context : ExprContext) : gen Term :=
  lift (if allowed_in context expr then Ok tt else UNREACHABLE);;
  match expr with
  | IDENTIFIER_EXPR name => ir_gen_identifier name context
  | STRUCT_ARROW_FIELD_EXPR e name =>
      struct_term ← expr_r e;
      c ← kind (t_ctype struct_term);
      match c with
      | POINTER_TYPE p =>
          pc ← kind p;
          if is_struct pc then ir_gen_struct_field struct_term name context else fatal
      | _ => fatal
      end
  | STRUCT_DOT_FIELD_EXPR e name =>
      struct_term ← expr_r e;
      c ← kind (t_ctype struct_term);
      if is_struct c then ir_gen_struct_field struct_term name context else fatal
  | ADDRESS_OF_EXPR e =>
      ptr ← r_expr rec e LVALUE_CONTEXT;
      t ← on_types (pointer_type (t_ctype ptr));
      mret (mkTerm t (t_value ptr))
  | DEREF_EXPR e => pointer ← expr_r e; ir_gen_deref pointer context
  | INDEX_EXPR a b =>
      left ← expr_r a;
      right ← expr_r b;
      pointer ← ir_gen_add left right;
      c ← kind (t_ctype pointer);
      if is_pointer c then ir_gen_deref pointer context else fatal
  | INT_LITERAL_EXPR l =>
      t ← ask (fun te => type_of_int_literal te l);
      v ← const_of t (int_value l);
      mret (mkTerm t v)
  | FLOAT_LITERAL_EXPR l =>
      let t := type_of_float_literal l in
      ty ← ir_type_of t;
      mret (mkTerm t (value_const_float ty (float_value l)))
  | STRING_LITERAL_EXPR s => ir_gen_string_literal s
  | ADD_EXPR a b => ir_gen_binary_expr a b OP_ADD
  | MINUS_EXPR a b => ir_gen_binary_expr a b OP_SUB
  | BIT_XOR_EXPR a b => ir_gen_binary_expr a b OP_BIT_XOR
  | BIT_AND_EXPR a b => ir_gen_binary_expr a b OP_BIT_AND
  | BIT_OR_EXPR a b => ir_gen_binary_expr a b OP_BIT_OR
  | BIT_NOT_EXPR e =>
      term ← expr_r e;
      v ← on_builder (build_unary_instr OP_BIT_NOT (t_value term));
      mret (mkTerm int_type v)
  | LOGICAL_NOT_EXPR e =>
      inner ← expr_r e;
      zero ← const_of int_type 0;
      ir_gen_cmp inner (mkTerm int_type zero) CMP_EQ
  | UNARY_MINUS_EXPR e =>
      term ← expr_r e;
      v ← on_builder (build_unary_instr OP_NEG (t_value term));
      mret (mkTerm (t_ctype term) v)
  | LEFT_SHIFT_EXPR a b => ir_gen_binary_expr a b OP_SHL
  | RIGHT_SHIFT_EXPR a b => ir_gen_binary_expr a b OP_SHR
  | MULTIPLY_EXPR a b => ir_gen_binary_expr a b OP_MUL
  | DIVIDE_EXPR a b => ir_gen_binary_expr a b OP_DIV
  | MODULO_EXPR a b => ir_gen_binary_expr a b OP_MOD
  | EQUAL_EXPR a b => ir_gen_cmp_expr a b CMP_EQ
  | NOT_EQUAL_EXPR a b => ir_gen_cmp_expr a b CMP_NEQ
  | GREATER_THAN_EXPR a b => ir_gen_cmp_expr a b CMP_SGT
  | GREATER_THAN_OR_EQUAL_EXPR a b => ir_gen_cmp_expr a b CMP_SGTE
  | LESS_THAN_EXPR a b => ir_gen_cmp_expr a b CMP_SLT
  | LESS_THAN_OR_EQUAL_EXPR a b => ir_gen_cmp_expr a b CMP_SLTE
  | ASSIGN_EXPR a b => ir_gen_assign_expr a b OP_INVALID
  | ADD_ASSIGN_EXPR a b => ir_gen_assign_expr a b OP_ADD
  | MINUS_ASSIGN_EXPR a b => ir_gen_assign_expr a b OP_SUB
  | PRE_INCREMENT_EXPR e => ir_gen_inc_dec e OP_ADD true
  | POST_INCREMENT_EXPR e => ir_gen_inc_dec e OP_ADD false
  | PRE_DECREMENT_EXPR e => ir_gen_inc_dec e OP_SUB true
  | POST_DECREMENT_EXPR e => ir_gen_inc_dec e OP_SUB false
  | BIT_XOR_ASSIGN_EXPR a b => ir_gen_assign_expr a b OP_BIT_XOR
  | BIT_AND_ASSIGN_EXPR a b => ir_gen_assign_expr a b OP_BIT_AND
  | BIT_OR_ASSIGN_EXPR a b => ir_gen_assign_expr a b OP_BIT_OR
  | RIGHT_SHIFT_ASSIGN_EXPR a b => ir_gen_assign_expr a b OP_SHR
  | LEFT_SHIFT_ASSIGN_EXPR a b => ir_gen_assign_expr a b OP_SHL
  | MULTIPLY_ASSIGN_EXPR a b => ir_gen_assign_expr a b OP_MUL
  | DIVIDE_ASSIGN_EXPR a b => ir_gen_assign_expr a b OP_DIV
  | FUNCTION_CALL_EXPR callee args => ir_gen_function_call callee args
  | COMMA_EXPR a b => expr_r a;; expr_r b
  | SIZEOF_TYPE_EXPR (mkTypeName l d) =>
      decl_spec_type ← r_specifiers rec l;
      cdecl ← r_declarator rec decl_spec_type d;
      size ← size_of (cd_type cdecl);
      v ← const_of size_type size;
      mret (mkTerm size_type v)
  | LOGICAL_OR_EXPR a b => ir_gen_logical true a b
  | LOGICAL_AND_EXPR a b => ir_gen_logical false a b
  | CONDITIONAL_EXPR a b c => ir_gen_conditional a b c
  | COMPOUND_EXPR type_name elems =>
      type ← type_name_to_c_type rec type_name;
      infer_array_size_from_initializer rec (Some (BRACE_INITIALIZER elems)) type;;
      ty ← ir_type_of type;
      local ← on_builder (build_local ty);
      ir_gen_initializer rec (mkTerm type local) (BRACE_INITIALIZER elems);;
      mret (mkTerm type local)
  | SIZEOF_EXPR_EXPR e => ir_gen_sizeof_expr e
  | CAST_EXPR type_name e =>
      cast_type ← type_name_to_c_type rec type_name;
      castee ← expr_r e;
      convert_type castee cast_type
  | BUILTIN_VA_ARG_EXPR e type_name => ir_gen_va_arg_expr e type_name
  | UNARY_PLUS_EXPR _ | MODULO_ASSIGN_EXPR _ _ => lift UNIMPLEMENTED
  end.

End Expr.
