(* ===== verification/Statement.v ===== *)
(** * Statements ([src/src/ir_gen/statement.c])

    Statements become blocks of the current function. A block that the code
    allocates first and enters into the function later is [alloc_block] followed
    by [append_block]. The jump of a goto has no target ([U_none]) until the end
    of IR generation. *)

From S2P Require Import Prelude Ast Ir CType Context Convert Calls Initializer Decl Expr.

Local Open Scope Z_scope.

(** ** Blocks *)

Definition new_block (name : string) : gen nat := on_builder (add_block name).
Definition jump (block : nat) : gen unit := on_builder (build_jump block);; mret tt.
Definition branch (condition : IrValue) (then_block else_block : nat) : gen unit :=
  on_builder (build_cond condition then_block else_block);; mret tt.
Definition enter_block (block : nat) : gen unit := set_current_block (Some block).
Definition this_block : gen nat := b ← get_current_block; lift (of_opt b).

(** [pool_alloc] of a block. *)
Definition alloc_block : gen nat :=
  on_builder (on_module (
    m ← get;
    put (set_blocks m (blocks m ++ [block_init "" 0]));;
    mret (length (blocks m)))).

Definition current_fun : gen nat :=
  c ← get; lift (of_opt (current_function (builder c))).
Definition fun_size : gen Z :=
  k ← current_fun;
  f ← on_builder (on_module (function_at k));
  mret (Z.of_nat (length (fun_blocks f))).

Definition init_block (block : nat) (name : string) (id : Z) : gen unit :=
  on_builder (on_module (modify (fun m => set_blocks m (<[block := block_init name id]> (blocks m))))).

(** [ARRAY_APPEND(&current_function->blocks)] and [block_init]. *)
Definition append_block (block : nat) (name : string) : gen unit :=
  k ← current_fun;
  f ← on_builder (on_module (function_at k));
  on_builder (on_module (set_function k (mkFunction (fun_blocks f ++ [block]) (curr_instr_id f))));;
  n ← fun_size;
  init_block block name (u32 (n - 1)).

(** [ARRAY_INSERT(&current_function->blocks, i)] *)
Definition insert_block (block i : nat) : gen unit :=
  k ← current_fun;
  f ← on_builder (on_module (function_at k));
  on_builder (on_module (set_function k
    (mkFunction (take i (fun_blocks f) ++ block :: drop i (fun_blocks f)) (curr_instr_id f)))).

Definition set_break_continue (b c : option nat) : gen unit := modify (fun ctx => set_targets ctx b c).
Definition add_case_label (value : option nat) (block : nat) : gen unit :=
  modify (fun c => set_case_labels c (case_labels c ++ [mkCase value block])).

(** ** The comparisons of a switch *)

Fixpoint switch_cases (switch_value : IrValue) (labels : list SwitchCase) (before_body : nat)
    (default_block : option nat) : gen (option nat) :=
  match labels with
  | [] => mret default_block
  | mkCase None block :: labels => switch_cases switch_value labels before_body (Some block)
  | mkCase (Some value) block :: labels =>
      next ← alloc_block;
      n ← fun_size;
      init_block next "switch.cmp" (u32 n);;
      k ← const_at value;
      x ← lift match const_u k with K_integer x => Ok x | _ => Stop Undef end;
      cmp ← on_builder (build_cmp CMP_EQ switch_value (value_const_int (val_type switch_value) x));
      branch cmp block next;;
      enter_block next;;
      insert_block next before_body;;
      switch_cases switch_value labels (S before_body) default_block
  end.

Section Statement.
Variable rec : calls.

Definition expr_rv (e : ASTExpr) : gen Term := r_expr rec e RVALUE_CONTEXT.

(** ** Declarations in a block *)

Definition is_string_literal (e : ASTExpr) : bool := match e with STRING_LITERAL_EXPR _ => true | _ => false end.
Definition is_array (c : CType) : bool := match c with ARRAY_TYPE _ _ _ _ => true | _ => false end.

Fixpoint add_init_declarators (decl_spec_type : nat) (l : list ASTInitDeclarator) : gen unit :=
  match l with
  | [] => mret tt
  | mkInitDeclarator declarator initializer :: l =>
      cdecl ← r_declarator rec decl_spec_type (Some declarator);
      infer_array_size_from_initializer rec initializer (cd_type cdecl);;
      binding ← cdecl_to_binding cdecl;
      add_binding binding;;
      c ← kind (cd_type cdecl);
      match initializer with
      | None => mret tt
      | Some (EXPR_INITIALIZER e as init) =>
          if is_string_literal e && is_array c then ir_gen_initializer rec (b_term binding) init
          else
            init_term ← expr_rv e;
            ir_gen_assign_op (b_term binding) init_term OP_INVALID;;
            mret tt
      | Some init => ir_gen_initializer rec (b_term binding) init
      end;;
      add_init_declarators decl_spec_type l
  end.

Definition add_decl_to_scope (decl : ASTDecl) : gen unit :=
  decl_spec_type ← r_specifiers rec (d_specifiers decl);
  add_init_declarators decl_spec_type (d_init_declarators decl).

(** ** Statements *)

Definition ir_gen_return (expr : option ASTExpr) : gen unit :=
  match expr with
  | None => on_builder (build_nullary_instr OP_RET_VOID IR_VOID);; mret tt
  | Some e =>
      term ← expr_rv e;
      c ← kind (t_ctype term);
      if is_struct c then
        ir_gen_assign_op (mkTerm (t_ctype term) (value_arg 0 IR_POINTER)) term OP_INVALID;;
        on_builder (build_nullary_instr OP_RET_VOID IR_VOID);;
        mret tt
      else
        ctx ← get;
        ft ← lift (of_opt (current_function_type ctx));
        fc ← kind ft;
        return_type ← lift match fc with FUNCTION_TYPE r _ _ => Ok r | _ => Stop Undef end;
        converted ← convert_type term return_type;
        on_builder (build_unary_instr OP_RET (t_value converted));;
        mret tt
  end.

(** The condition of an if: an integer, or a pointer cast to one. *)
Definition ir_gen_if_condition (e : ASTExpr) : gen IrValue :=
  t ← expr_rv e;
  c ← kind (t_ctype t);
  match c with
  | INTEGER_TYPE _ _ => mret (t_value t)
  | POINTER_TYPE _ =>
      ty ← ir_type_of int_ptr_type;
      v ← on_builder (build_type_instr OP_CAST (t_value t) ty);
      ic ← kind int_ptr_type;
      match ic with INTEGER_TYPE _ _ => mret v | _ => fatal end
  | _ => lift UNIMPLEMENTED
  end.

(** The condition of a loop. *)
Definition ir_gen_loop_condition (e : ASTExpr) : gen IrValue :=
  t ← expr_rv e;
  require_int t;;
  mret (t_value t).

(** Run the body of a loop with its own break and continue targets, of a switch with
    its own break target. *)
Definition with_targets (b c : nat) (body : gen unit) : gen unit :=
  ctx ← get;
  set_break_continue (Some b) (Some c);;
  body;;
  set_break_continue (break_target ctx) (continue_target ctx).

Definition with_break (b : nat) (body : gen unit) : gen unit :=
  ctx ← get;
  set_break_continue (Some b) (continue_target ctx);;
  body;;
  modify (fun c => set_targets c (break_target ctx) (continue_target c)).

Fixpoint ir_gen_statement (statement : ASTStatement) : gen unit :=
  match statement with
  | COMPOUND_STATEMENT block_item_list =>
      with_scope (foldr (fun i k => ir_gen_block_item i;; k) (mret tt) block_item_list)
  | EXPR_STATEMENT e => expr_rv e;; mret tt
  | RETURN_STATEMENT e => ir_gen_return e
  | IF_STATEMENT condition then_statement else_statement =>
      condition ← ir_gen_if_condition condition;
      before_block ← this_block;
      then_block ← new_block "if.then";
      enter_block then_block;;
      ir_gen_statement then_statement;;
      then_resultant_block ← this_block;
      match else_statement with
      | None =>
          after_block ← new_block "if.after";
          enter_block before_block;;
          branch condition then_block after_block;;
          enter_block then_resultant_block;;
          jump after_block;;
          enter_block after_block
      | Some else_statement =>
          else_block ← new_block "if.else";
          enter_block else_block;;
          ir_gen_statement else_statement;;
          else_resultant_block ← this_block;
          after_block ← new_block "if.after";
          enter_block before_block;;
          branch condition then_block else_block;;
          enter_block then_resultant_block;;
          jump after_block;;
          enter_block else_resultant_block;;
          jump after_block;;
          enter_block after_block
      end
  | SWITCH_STATEMENT e body =>
      ctx ← get;
      modify (fun c => set_case_labels c []);;
      switch_entry ← this_block;
      before_body ← fun_size;
      after ← new_block "switch.after";
      with_break after (
        body_block ← new_block "switch.body";
        enter_block body_block;;
        ir_gen_statement body;;
        jump after;;
        enter_block switch_entry;;
        switch_value ← expr_rv e;
        require_int switch_value;;
        labels ← (c ← get; mret (case_labels c));
        default_block ← switch_cases (t_value switch_value) labels (Z.to_nat before_body) None;
        jump (default after default_block);;
        enter_block after);;
      modify (fun c => set_case_labels c (case_labels ctx))
  | CASE_STATEMENT e body =>
      case_block ← new_block "switch.case";
      jump case_block;;
      enter_block case_block;;
      ir_gen_statement body;;
      value ← eval_constant_expr rec e;
      add_case_label (Some value) case_block
  | LABELED_STATEMENT label_name body =>
      label_block ← new_block label_name;
      jump label_block;;
      enter_block label_block;;
      (if bool_decide (label_name = "default"%string) then add_case_label None label_block
       else modify (fun c => set_goto_labels c (goto_labels c ++ [mkLabel label_name label_block])));;
      ir_gen_statement body
  | WHILE_STATEMENT condition body =>
      pre_header ← new_block "while.ph";
      after ← alloc_block;
      jump pre_header;;
      enter_block pre_header;;
      condition ← ir_gen_loop_condition condition;
      body_block ← new_block "while.body";
      branch condition body_block after;;
      with_targets after pre_header (
        enter_block body_block;;
        ir_gen_statement body;;
        jump pre_header);;
      append_block after "while.after";;
      enter_block after
  | DO_WHILE_STATEMENT condition body =>
      pre_header ← new_block "do_while.ph";
      body_block ← new_block "do_while.body";
      after ← new_block "do_while.after";
      jump body_block;;
      enter_block pre_header;;
      condition ← ir_gen_loop_condition condition;
      branch condition body_block after;;
      with_targets after pre_header (
        enter_block body_block;;
        ir_gen_statement body;;
        jump pre_header);;
      enter_block after
  | FOR_STATEMENT init condition update_expr body =>
      pre_header ← new_block "for.ph";
      body_block ← new_block "for.body";
      update ← alloc_block;
      after ← alloc_block;
      with_scope (
        match init with
        | FOR_INIT_DECL decl => add_decl_to_scope decl
        | FOR_INIT_EXPR (Some e) => expr_rv e;; mret tt
        | FOR_INIT_EXPR None => mret tt
        end;;
        jump pre_header;;
        enter_block pre_header;;
        condition ← match condition with
                    | Some e => ir_gen_loop_condition e
                    | None => const_of int_type 1
                    end;
        branch condition body_block after;;
        enter_block body_block;;
        with_targets after update (
          ir_gen_statement body;;
          jump update;;
          enter_block update;;
          append_block update "for.update");;
        match update_expr with Some e => expr_rv e;; mret tt | None => mret tt end;;
        jump pre_header);;
      enter_block after;;
      append_block after "for.after"
  | GOTO_STATEMENT goto_label =>
      branch_instr ← on_builder (emit OP_JUMP IR_VOID U_none);
      modify (fun c => set_goto_fixups c (goto_fixups c ++ [mkFixup goto_label branch_instr]));;
      b ← new_block "goto.after";
      enter_block b
  | BREAK_STATEMENT =>
      ctx ← get;
      match break_target ctx with None => fatal | Some b => jump b end
  | CONTINUE_STATEMENT =>
      ctx ← get;
      match continue_target ctx with None => fatal | Some b => jump b end
  | EMPTY_STATEMENT => mret tt
  end
with ir_gen_block_item (item : ASTBlockItem) : gen unit :=
  match item with
  | BLOCK_ITEM_DECL decl => add_decl_to_scope decl
  | BLOCK_ITEM_STATEMENT statement => ir_gen_statement statement
  end.

End Statement.
