(* ===== verification/IrGen.v ===== *)
(** * Translation units ([src/src/ir_gen/ir_gen.c]), and the recursion tied

    [calls_at n] is the record of mutually recursive functions with [n] levels of
    calls left; [ir_gen] takes as many as the syntax tree has nodes. Pointers to
    globals stay what they are when the scratch function is dropped from the
    module's array: [ir_gen] returns the pointers that are left in it. *)

From S2P Require Import Prelude Ast Ir CType Context Convert Calls Initializer Decl Expr Statement.

Local Open Scope Z_scope.

Fixpoint calls_at (n : nat) : calls :=
  match n with
  | O => mkCalls (fun _ _ => lift (Stop NoFuel)) (fun _ => lift (Stop NoFuel))
           (fun _ _ => lift (Stop NoFuel)) (fun _ _ => lift (Stop NoFuel))
           (fun _ _ _ _ => lift (Stop NoFuel))
  | S n =>
      let rec := calls_at n in
      mkCalls (ir_gen_expr rec) (decl_specifier_list_to_c_type rec) (decl_to_cdecl rec)
        (direct_declarator_to_cdecl rec) (make_c_initializer rec)
  end.

Section IrGen.
Variable rec : calls.

(** ** Functions *)

Fixpoint params_for_function_declarator (declarator : ASTDeclarator) : res (list ASTParameterDecl) :=
  match declarator with
  | POINTER_DECLARATOR (Some d) => params_for_function_declarator d
  | POINTER_DECLARATOR None => FATAL
  | DIRECT_DECLARATOR (FUNCTION_DECLARATOR _ parameters) => Ok parameters
  | DIRECT_DECLARATOR _ => FATAL
  end.

(** A local for the parameter, to which the argument is assigned. *)
Definition gen_param (global function_type : nat) (name : option string) (i : nat) : gen unit :=
  fc ← kind function_type;
  '(return_type, arg_types) ← lift match fc with FUNCTION_TYPE r l _ => Ok (r, l) | _ => Stop Undef end;
  arg_type ← lift (of_opt (arg_types !! i));
  binding ← cdecl_to_binding (mkCDecl name arg_type);
  add_binding binding;;
  rc ← kind return_type;
  let ir_arg_index := if is_struct rc then S i else i in
  ctx ← get;
  g ← lift (of_opt (globals (module (builder ctx)) !! global));
  ty ← lift match global_type g with
            | IR_FUNCTION _ _ l => of_opt (l !! ir_arg_index)
            | _ => Stop Undef
            end;
  ir_gen_assign_op (b_term binding) (mkTerm arg_type (value_arg (Z.of_nat ir_arg_index) ty)) OP_INVALID;;
  mret tt.

Fixpoint gen_params (global function_type : nat) (params : list ASTParameterDecl) (i : nat) : gen unit :=
  match params with
  | [] => mret tt
  | ELLIPSIS_DECL :: [] => mret tt
  | ELLIPSIS_DECL :: _ => fatal
  | PARAMETER_DECL specs declarator :: params =>
      decl_spec_type ← r_specifiers rec specs;
      cdecl ← r_declarator rec decl_spec_type declarator;
      c ← kind (cd_type cdecl);
      match c with
      | VOID_TYPE =>
          if negb (Nat.eqb i 0) then fatal
          else match cd_name cdecl with Some _ => fatal | None => mret tt end
      | _ =>
          gen_param global function_type (cd_name cdecl) i;;
          gen_params global function_type params (S i)
      end
  end.

(** Does the current block end in a return? *)
Definition ends_in_return : gen bool :=
  ctx ← get;
  b ← this_block;
  blk ← lift (of_opt (blocks (module (builder ctx)) !! b));
  match last (block_instrs blk) with
  | None => mret false
  | Some i =>
      x ← lift (of_opt (instrs (module (builder ctx)) !! i));
      mret (bool_decide (instr_op x = OP_RET) || bool_decide (instr_op x = OP_RET_VOID))
  end.

Definition ir_gen_function (global function_type : nat) (function_def : ASTFunctionDef) : gen unit :=
  konst ← on_builder (on_module (add_init_to_function global));
  f ← on_builder (on_module (function_at konst));
  entry ← lift (of_opt (head (fun_blocks f)));
  on_builder (modify (fun b => mkBuilder (module b) (Some konst) (Some entry)));;
  with_scope (
    modify (fun c => set_function_type c (Some function_type));;
    params ← lift (params_for_function_declarator (f_declarator function_def));
    gen_params global function_type params 0;;
    ir_gen_statement rec (f_body function_def);;
    returned ← ends_in_return;
    if (returned : bool) then mret tt
    else on_builder (build_nullary_instr OP_RET_VOID IR_VOID);; mret tt).

(** ** Toplevel items *)

Definition set_linkage (global : nat) (l : IrLinkage) : gen unit :=
  on_builder (on_module (modify (fun m => set_globals m
    (alter (fun g => mkGlobal (global_name g) (global_type g) l (initializer g)) global (globals m))))).
Definition set_initializer (global konst : nat) : gen unit :=
  on_builder (on_module (modify (fun m => set_globals m
    (alter (fun g => mkGlobal (global_name g) (global_type g) (linkage g) (Some konst)) global (globals m))))).

(** The global's name bound to its value. *)
Definition bind_global (global ctype : nat) : gen unit :=
  ctx ← get;
  g ← lift (of_opt (globals (module (builder ctx)) !! global));
  add_binding (mkBinding (Some (global_name g)) false (mkTerm ctype (value_global global))).

(** The storage classes of a function definition; a list without anything else
    is followed past its end. *)
Fixpoint function_linkage (l : list ASTDeclSpecifier) (linkage : IrLinkage)
  : res (IrLinkage * list ASTDeclSpecifier) :=
  match l with
  | [] => Stop Undef
  | STORAGE_CLASS_SPECIFIER STATIC_SPECIFIER :: l => function_linkage l IR_LOCAL_LINKAGE
  | STORAGE_CLASS_SPECIFIER _ :: _ => UNIMPLEMENTED
  | _ => Ok (linkage, l)
  end.
Fixpoint skip_inline (l : list ASTDeclSpecifier) (is_inline : bool) : bool * list ASTDeclSpecifier :=
  match l with FUNCTION_SPECIFIER INLINE_SPECIFIER :: l => skip_inline l true | _ => (is_inline, l) end.

Definition gen_function_def (func : ASTFunctionDef) : gen unit :=
  '(linkage, l) ← lift (function_linkage (f_specifiers func) IR_GLOBAL_LINKAGE);
  let '(is_inline, l) := skip_inline l false in
  '(global, global_type) ← ir_global_for_decl rec l (f_declarator func) None;
  set_linkage global linkage;;
  bind_global global global_type;;
  if is_inline then
    modify (fun c => set_inline_functions c (inline_functions c ++
      [mkInline global global_type
         (mkFunctionDef l (f_declarator func) (f_old_style_param_decl_list func) (f_body func))]))
  else ir_gen_function global global_type func.

(** The inline function that an extern inline declaration instantiates. *)
Fixpoint find_inline (l : list InlineFunction) (name : option string) (ctype : nat) : gen InlineFunction :=
  match l with
  | [] => fatal
  | i :: l =>
      ctx ← get;
      g ← lift (of_opt (globals (module (builder ctx)) !! inl_global i));
      if bool_decide (Some (global_name g) = name) then
        ask (fun te => fatal_error_if_type_not_eq te ctype (inl_function_type i));;
        mret i
      else find_inline l name ctype
  end.

(** A typedef copies the type object; an entry without a name is never found. *)
Fixpoint gen_typedefs (decl_spec_type : nat) (l : list ASTInitDeclarator) : gen unit :=
  match l with
  | [] => mret tt
  | mkInitDeclarator declarator _ :: l =>
      cdecl ← r_declarator rec decl_spec_type (Some declarator);
      on_types (
        te ← get;
        c ← lift (ctype te (cd_type cdecl));
        t ← new_ctype c;
        match cd_name cdecl with
        | Some name => modify (fun te => set_typedef_types te (typedef_types te ++ [(name, t)]))
        | None => mret tt
        end);;
      gen_typedefs decl_spec_type l
  end.

Fixpoint skip_storage (l : list ASTDeclSpecifier) : list ASTDeclSpecifier * list ASTDeclSpecifier :=
  match l with
  | STORAGE_CLASS_SPECIFIER s :: l =>
      let '(classes, rest) := skip_storage l in (STORAGE_CLASS_SPECIFIER s :: classes, rest)
  | _ => ([], l)
  end.

(** The storage classes of a global: [inr] linkage and extern. *)
Fixpoint global_linkage (l : list ASTDeclSpecifier) (linkage : IrLinkage) (is_extern : bool)
  : res (IrLinkage * bool) :=
  match l with
  | [] => Ok (linkage, is_extern)
  | STORAGE_CLASS_SPECIFIER STATIC_SPECIFIER :: l => global_linkage l IR_LOCAL_LINKAGE is_extern
  | STORAGE_CLASS_SPECIFIER EXTERN_SPECIFIER :: l => global_linkage l linkage true
  | STORAGE_CLASS_SPECIFIER _ :: _ => UNIMPLEMENTED
  | _ => FATAL
  end.

Definition gen_global (classes specs : list ASTDeclSpecifier) (init_declarator : ASTInitDeclarator) : gen unit :=
  let initializer := id_initializer init_declarator in
  '(global, global_type) ← ir_global_for_decl rec specs (id_declarator init_declarator) initializer;
  c ← kind global_type;
  let is_function := match c with FUNCTION_TYPE _ _ _ => true | _ => false end in
  bind_global global global_type;;
  '(linkage, is_extern) ← lift (global_linkage classes IR_GLOBAL_LINKAGE is_function);
  set_linkage global linkage;;
  match initializer with
  | None =>
      if (is_extern : bool) then mret tt
      else konst ← zero_initializer global_type; set_initializer global konst
  | Some init =>
      if (is_extern : bool) then fatal
      else
        c_init ← make_c_initializer rec global_type init true zero_init;
        ask (fun te => fatal_error_if_type_not_eq te (default 0%nat (ci_type c_init)) global_type);;
        konst ← const_gen_c_init c_init;
        set_initializer global konst
  end.

(** A declaration of types or of a global. *)
Definition gen_plain_decl (l : list ASTDeclSpecifier) (init_declarators : list ASTInitDeclarator) : gen unit :=
  let '(classes, type_specs) := skip_storage l in
  match type_specs with
  | [] => fatal
  | _ =>
      match init_declarators with
      | [] => r_specifiers rec type_specs;; mret tt
      | [d] => gen_global classes type_specs d
      | _ => fatal
      end
  end.

Definition gen_decl (decl : ASTDecl) : gen unit :=
  match d_specifiers decl with
  | [] => fatal
  | STORAGE_CLASS_SPECIFIER EXTERN_SPECIFIER :: FUNCTION_SPECIFIER INLINE_SPECIFIER :: l =>
      decl_spec_type ← r_specifiers rec l;
      init_declarator ← lift (of_opt (head (d_init_declarators decl)));
      cdecl ← r_declarator rec decl_spec_type (Some (id_declarator init_declarator));
      ctx ← get;
      matching ← find_inline (inline_functions ctx) (cd_name cdecl) (cd_type cdecl);
      ir_gen_function (inl_global matching) (inl_function_type matching) (inl_function_def matching)
  | STORAGE_CLASS_SPECIFIER TYPEDEF_SPECIFIER :: l =>
      match d_init_declarators decl with
      | [] => fatal
      | ds => decl_spec_type ← r_specifiers rec l; gen_typedefs decl_spec_type ds
      end
  | l => gen_plain_decl l (d_init_declarators decl)
  end.

Definition ir_gen_toplevel (toplevel : ASTToplevel) : gen unit :=
  match toplevel with
  | FUNCTION_DEF func => gen_function_def func
  | DECL decl => gen_decl decl
  end.

End IrGen.

(** ** Gotos *)

Fixpoint find_label (l : list GotoLabel) (name : string) : option nat :=
  match l with
  | [] => None
  | x :: l => if String.eqb (label_name x) name then Some (label_block x) else find_label l name
  end.

Definition resolve_goto (labels : list GotoLabel) (fixup : GotoFixup) : gen unit :=
  ctx ← get;
  x ← lift (of_opt (instrs (module (builder ctx)) !! fixup_instr fixup));
  lift (ASSERT (bool_decide (instr_op x = OP_JUMP)));;
  lift (ASSERT match instr_u x with U_target_block _ => false | _ => true end);;
  match find_label labels (fixup_label fixup) with
  | Some b => on_builder (set_instr (fixup_instr fixup) OP_JUMP (instr_type x) (U_target_block b))
  | None => lift ICE
  end.

Fixpoint resolve_gotos (labels : list GotoLabel) (fixups : list GotoFixup) : gen unit :=
  match fixups with
  | [] => mret tt
  | f :: fixups => resolve_goto labels f;; resolve_gotos labels fixups
  end.

(** ** The whole unit *)

(** The module and context before the first item: a scratch function for sizeof. *)
Definition initial_context : res IrGenContext :=
  '(g, m) ← ir_module_add_function "__scratch" IR_VOID false [] ir_module_init;
  '(k, m) ← add_init_to_function g m;
  Ok (mkContext (builder_init m) [[]] init_type_env None [] [] [] [] None None k).

Definition unit_size (l : list ASTToplevel) : nat := S (sum_list_with toplevel_size l).

Fixpoint gen_items (rec : calls) (l : list ASTToplevel) : gen unit :=
  match l with
  | [] => mret tt
  | t :: l => ir_gen_toplevel rec t;; gen_items rec l
  end.

(** The module, and the pointers left in its array of globals. *)
Definition ir_gen (toplevel : list ASTToplevel) : res (IrModule * list nat) :=
  ctx ← initial_context;
  '(_, ctx) ← gen_items (calls_at (unit_size toplevel)) toplevel ctx;
  '(_, ctx) ← resolve_gotos (goto_labels ctx) (goto_fixups ctx) ctx;
  let m := module (builder ctx) in
  first_global ← of_opt (head (globals m));
  ASSERT (String.eqb (global_name first_global) "__scratch");;
  Ok (m, tail (seq 0 (length (globals m)))).
