(* ===== verification/GenLogic.v ===== *)
(** * A program logic for IR generation

    [ok s m Q] specifies a computation of [gen] from the state [s]: if [s] is well
    formed, [m] does not run out of fuel, and if it returns, the new state is well
    formed and extends [s], the scopes and jump targets are those of [s] except
    for new bindings of the innermost scope, and [Q] holds. A run that stops with
    an error satisfies every [Q].

    States are ordered by [le]: types keep their shape, the struct types of the
    module stay. Facts about a state, written with the state as last argument,
    that survive extension are instances of [Persist]; the tactic [gstep] carries
    them over a bind. *)

From S2P Require Import Prelude Ast Ir CType Context.

Local Open Scope Z_scope.

(** ** Shapes of types *)

(** Equal up to what may change or is not looked at: the parts of aggregates,
    pointees, parameters. *)
Definition same_shape (c c' : CType) : Prop :=
  match c, c' with
  | VOID_TYPE, VOID_TYPE => True
  | INTEGER_TYPE k s, INTEGER_TYPE k' s' => k = k' /\ s = s'
  | FLOAT_TYPE f, FLOAT_TYPE f' => f = f'
  | FUNCTION_TYPE _ _ _, FUNCTION_TYPE _ _ _ => True
  | STRUCT_TYPE _ _ _, STRUCT_TYPE _ _ _ => True
  | POINTER_TYPE _, POINTER_TYPE _ => True
  | ARRAY_TYPE _ _ _ _, ARRAY_TYPE _ _ _ _ => True
  | _, _ => False
  end.

(** How a type object may change: structs get fields, arrays a length. *)
Definition ctype_le (c c' : CType) : Prop :=
  match c, c' with
  | STRUCT_TYPE _ _ _, STRUCT_TYPE _ _ _ => True
  | ARRAY_TYPE e _ _ k, ARRAY_TYPE e' _ _ k' => e = e' /\ k = k'
  | _, _ => c = c'
  end.

#[export] Instance ctype_le_preorder : PreOrder ctype_le.
Proof. split; [by intros [] | intros [] [] []; cbn; intros; simplify_eq; naive_solver]. Qed.

Lemma ctype_le_shape c c' : ctype_le c c' -> same_shape c c'.
Proof. destruct c, c'; cbn; try done; intros; by simplify_eq. Qed.

#[export] Instance same_shape_equivalence : Equivalence same_shape.
Proof.
  split; [by intros [] | intros [] []; cbn; naive_solver | intros [] []; cbn; try done; intros []; cbn; naive_solver].
Qed.

(** IR types that stand for an address: the IR types of functions and arrays
    occur as such when a pointer to a function is dereferenced and when a function
    returns an array. *)
Definition is_address (ir : IrType) : Prop :=
  match ir with IR_POINTER | IR_FUNCTION _ _ _ | IR_ARRAY _ _ => True | _ => False end.

(** The IR types of the values of a C type. *)
Definition val_ok (c : CType) (ir : IrType) : Prop :=
  match c with
  | VOID_TYPE => True
  | INTEGER_TYPE k _ => ir = IR_INT (int_width k)
  | FLOAT_TYPE f => ir = IR_FLOAT (float_bits_of f)
  | _ => is_address ir
  end.

Lemma val_ok_shape c c' ir : same_shape c c' -> val_ok c ir -> val_ok c' ir.
Proof. destruct c, c'; cbn; try done; [by intros [<- _] | by intros <-]. Qed.

Lemma val_ok_eq c a b : ir_type_eq a b = true -> val_ok c b -> val_ok c a.
Proof.
  rewrite ir_type_eq_erase. destruct c; cbn; try done; intros E; try (intros ->; destruct a; cbn in E; congruence);
    destruct a, b; cbn in *; try done; congruence.
Qed.

(** ** The order on states *)

Definition types_le (te te' : TypeEnv) : Prop :=
  (forall t c, ctypes te !! t = Some c -> exists c', ctypes te' !! t = Some c' /\ ctype_le c c') /\
  (forall i b n, ir_types te !! i = Some (IR_ARRAY b n) -> exists n', ir_types te' !! i = Some (IR_ARRAY b n')).
Definition module_le (m m' : IrModule) : Prop :=
  types m `prefix_of` types m' /\ struct_fields m `prefix_of` struct_fields m'.
Definition le (s s' : IrGenContext) : Prop :=
  types_le (type_env s) (type_env s') /\ module_le (module (builder s)) (module (builder s')).

#[export] Instance types_le_preorder : PreOrder types_le.
Proof.
  split.
  - intros te. split; [intros t c E; by exists c | intros i b n E; by exists n].
  - intros t1 t2 t3 [A1 B1] [A2 B2]. split.
    + intros t c E. destruct (A1 _ _ E) as (c' & E' & L). destruct (A2 _ _ E') as (c'' & E'' & L').
      exists c''. split; [done | by etransitivity].
    + intros i b n E. destruct (B1 _ _ _ E) as [n' E']. by apply (B2 _ _ _ E').
Qed.
#[export] Instance module_le_preorder : PreOrder module_le.
Proof. split; [intros m; by split | intros m1 m2 m3 [] []; split; by etransitivity]. Qed.
#[export] Instance le_preorder : PreOrder le.
Proof. split; [intros s; split; reflexivity | intros s1 s2 s3 [] []; split; by etransitivity]. Qed.

(** What a computation leaves as it is. *)
Definition scopes_le (l l' : list (list Binding)) : Prop :=
  match l, l' with
  | [], [] => True
  | s :: r, s' :: r' => s `prefix_of` s' /\ r = r'
  | _, _ => False
  end.
Record frame (s s' : IrGenContext) : Prop := {
  fr_scope : scopes_le (scope s) (scope s');
  fr_break : break_target s = break_target s';
  fr_continue : continue_target s = continue_target s';
  fr_inline : inline_functions s = inline_functions s';
  fr_scratch : scratch_function s = scratch_function s'
}.

#[export] Instance scopes_le_preorder : PreOrder scopes_le.
Proof.
  split; [intros []; by cbn |].
  intros [|] [|] [|]; cbn; try done. intros [? ->] [? ->]. split; [by etransitivity | done].
Qed.
#[export] Instance frame_preorder : PreOrder frame.
Proof.
  split; [intros s; by constructor |].
  intros s1 s2 s3 [] []. constructor; [by etransitivity | congruence..].
Qed.

(** ** Facts that survive *)

Class Persist (P : IrGenContext -> Prop) := persist : forall s s', le s s' -> P s -> P s'.

(** [t] is an object of the store that was seen as [c]. *)
Definition obs (t : nat) (c : CType) (s : IrGenContext) : Prop :=
  exists c', ctypes (type_env s) !! t = Some c' /\ ctype_le c c'.
Definition valid (t : nat) (s : IrGenContext) : Prop := exists c, obs t c s.

#[export] Instance obs_persist t c : Persist (obs t c).
Proof.
  intros s s' [L _] (c' & E & H). destruct (proj1 L _ _ E) as (c'' & E' & H').
  exists c''. split; [done | by etransitivity].
Qed.
#[export] Instance valid_persist t : Persist (valid t).
Proof. intros s s' L [c H]. exists c. by eapply persist. Qed.
#[export] Instance const_persist (P : Prop) : Persist (fun _ => P).
Proof. by intros s s' _ H. Qed.

Lemma obs_valid t c s : obs t c s -> valid t s.
Proof. by exists c. Qed.
Lemma obs_shape t c c' s : obs t c s -> obs t c' s -> same_shape c c'.
Proof.
  intros (d & E & L) (d' & E' & L'). assert (d = d') as <- by congruence.
  etransitivity; [by apply ctype_le_shape |]. symmetry. by apply ctype_le_shape.
Qed.
Lemma valid_lt t s : valid t s <-> (t < length (ctypes (type_env s)))%nat.
Proof.
  split; [intros (c & c' & E & _); by eapply lookup_lt_Some |].
  intros [c E]%lookup_lt_is_Some_2. exists c, c. by split.
Qed.

(** The fields of a struct with an IR type: those laid out hold values of their
    C types. *)
Definition field_ok (f : CDecl) (ir : IrStructField) (s : IrGenContext) : Prop :=
  exists c, obs (cd_type f) c s /\
    (match c with STRUCT_TYPE _ _ _ => True | _ => val_ok c (field_type ir) end).
Definition strukt_ok (l : list CDecl) (k : nat) (s : IrGenContext) : Prop :=
  exists n f sz nf al lf, types (module (builder s)) !! k = Some (IR_STRUCT n f sz nf al) /\
    struct_fields (module (builder s)) !! f = Some lf /\
    forall i x, lf !! i = Some (Some x) -> exists cd, l !! i = Some cd /\ field_ok cd x s.
(** What a type needs of the state. *)
Definition type_ok (c : CType) (s : IrGenContext) : Prop :=
  Forall (fun t => valid t s) (components c) /\
  match c with
  | STRUCT_TYPE i l k => Forall (fun f => valid (cd_type f) s) l /\ match k with Some k => strukt_ok l k s | None => True end
  | ARRAY_TYPE _ _ _ i => exists b n, ir_types (type_env s) !! i = Some (IR_ARRAY b n)
  | _ => True
  end.

#[export] Instance field_ok_persist f ir : Persist (field_ok f ir).
Proof. intros s s' L (c & H & Hc). exists c. split; [by eapply persist | done]. Qed.
#[export] Instance strukt_ok_persist l k : Persist (strukt_ok l k).
Proof.
  intros s s' L (n & f & sz & nf & al & lf & E1 & E2 & H). exists n, f, sz, nf, al, lf. destruct L as [L1 [L2 L3]] eqn:EL.
  split_and!; [by eapply prefix_lookup_Some | by eapply prefix_lookup_Some |].
  intros i x Hx. destruct (H i x Hx) as (cd & Ecd & Hcd). exists cd. split; [done | by eapply persist].
Qed.
#[export] Instance type_ok_persist c : Persist (type_ok c).
Proof.
  intros s s' L [H1 H2]. split; [eapply Forall_impl; [exact H1 |]; intros t; by apply valid_persist |].
  destruct c as [| | | |i l k| |e i sz k]; try done.
  - destruct H2 as [H2 H3]. split; [eapply Forall_impl; [exact H2 |]; intros f; by apply (valid_persist (cd_type f)) |].
    destruct k; [by eapply persist | done].
  - destruct H2 as (b & n & E). destruct (proj2 (proj1 L) _ _ _ E) as [n' E']. by exists b, n'.
Qed.

(** A term whose value has the IR type of its C type, provided that [H]; an
    lvalue is the address of an object of its C type. *)
Definition term_ok (H : Prop) (t : Term) (s : IrGenContext) : Prop :=
  exists c, obs (t_ctype t) c s /\ (H -> val_ok c (val_type (t_value t))).
Definition lvalue_ok (H : Prop) (t : Term) (s : IrGenContext) : Prop :=
  valid (t_ctype t) s /\ (H -> is_address (val_type (t_value t))).
Definition binding_ok (b : Binding) : IrGenContext -> Prop := term_ok (b_constant b = true) (b_term b).

#[export] Instance term_ok_persist H t : Persist (term_ok H t).
Proof. intros s s' L (c & Hc & Hv). exists c. split; [by eapply persist | done]. Qed.
#[export] Instance lvalue_ok_persist H t : Persist (lvalue_ok H t).
Proof. intros s s' L [Hc Hv]. split; [by eapply persist | done]. Qed.
#[export] Instance binding_ok_persist b : Persist (binding_ok b).
Proof. unfold binding_ok. apply _. Qed.

Lemma term_ok_mono (H H' : Prop) t s : (H' -> H) -> term_ok H t s -> term_ok H' t s.
Proof. intros I (c & Hc & Hv). exists c. auto. Qed.
Lemma term_ok_valid H t s : term_ok H t s -> valid (t_ctype t) s.
Proof. intros (c & Hc & _). by exists c. Qed.
Lemma term_ok_obs (H : Prop) t c s : term_ok H t s -> obs (t_ctype t) c s -> H -> val_ok c (val_type (t_value t)).
Proof. intros (c' & Hc & Hv) Ho Hh. apply (val_ok_shape c' c); [by apply (obs_shape (t_ctype t) c' c s) | auto]. Qed.

(** ** Well-formed states *)

Record wf (s : IrGenContext) : Prop := {
  wf_ranked : ranked (type_env s);
  wf_builtins : builtins (type_env s);
  wf_types : forall t c, ctypes (type_env s) !! t = Some c -> type_ok c s;
  wf_entries : forall n t, (n, t) ∈ struct_types (type_env s) ++ enum_types (type_env s) ++ typedef_types (type_env s) ->
    valid t s;
  wf_scope : forall l b, l ∈ scope s -> b ∈ l -> binding_ok b s
}.

Definition nf {A} (m : res A) : Prop := m <> Stop NoFuel.
Definition ok {A} (s : IrGenContext) (m : gen A) (Q : A -> IrGenContext -> Prop) : Prop :=
  wf s -> match m s with
          | Ok (a, s') => wf s' /\ le s s' /\ frame s s' /\ Q a s'
          | Stop e => e <> NoFuel
          end.

Section Rules.
Context {A B : Type} (s : IrGenContext).
Implicit Types (m : gen A) (Q : A -> IrGenContext -> Prop).

Lemma ok_conseq m Q Q' : ok s m Q -> (forall a s', Q a s' -> Q' a s') -> ok s m Q'.
Proof. intros H I W. specialize (H W). destruct (m s) as [[a s']|]; [naive_solver | done]. Qed.

Lemma ok_bind m (f : A -> gen B) Q1 (Q2 : B -> IrGenContext -> Prop) : ok s m Q1 ->
  (forall a s', wf s' -> le s s' -> Q1 a s' -> ok s' (f a) Q2) -> ok s (m ≫= f) Q2.
Proof.
  intros H1 H2 W. specialize (H1 W). unfold mbind, st_bind. destruct (m s) as [[a s1]|]; [| done].
  destruct H1 as (W1 & L1 & F1 & HQ1). specialize (H2 a s1 W1 L1 HQ1 W1). destruct (f a s1) as [[x s2]|]; [| done].
  destruct H2 as (W2 & L2 & F2 & HQ2). split_and!; [done | by etransitivity | by etransitivity | done].
Qed.

Lemma ok_ret (a : A) Q : Q a s -> ok s (mret a) Q.
Proof. intros H W. by split_and!. Qed.

Lemma ok_lift (r : res A) Q : nf r -> (forall a, r = Ok a -> Q a s) -> ok s (lift r) Q.
Proof. intros N H W. unfold lift. destruct r as [a|e]; [split_and!; auto; done | intros ->; by apply N]. Qed.

Lemma ok_wf m Q : (wf s -> ok s m Q) -> ok s m Q.
Proof. intros H W. by apply H. Qed.

Lemma ok_and m Q Q' : ok s m Q -> ok s m Q' -> ok s m (fun a s => Q a s /\ Q' a s).
Proof. intros H H' W. specialize (H W). specialize (H' W). destruct (m s) as [[a s']|]; [naive_solver | done]. Qed.

Lemma ok_carry (P : IrGenContext -> Prop) `{!Persist P} m Q : P s -> ok s m Q -> ok s m (fun a s => Q a s /\ P s).
Proof.
  intros HP H W. specialize (H W). destruct (m s) as [[a s']|]; [| done].
  destruct H as (W' & L & F & HQ). split_and!; [done | done | done | done | by apply (persist s)].
Qed.
End Rules.

Lemma ok_get s (Q : IrGenContext -> IrGenContext -> Prop) : Q s s -> ok s get Q.
Proof. intros H W. by split_and!. Qed.

Lemma ok_ask {A} s (f : TypeEnv -> res A) Q : nf (f (type_env s)) ->
  (forall a, f (type_env s) = Ok a -> Q a s) -> ok s (ask f) Q.
Proof. intros N H. eapply ok_bind; [by apply (ok_get s (fun a s' => a = s /\ s' = s)) |]. intros a s' _ _ [-> ->]. by apply ok_lift. Qed.

Lemma ok_ask_ir {A} s (f : TypeEnv -> IrModule -> res A) Q : nf (f (type_env s) (module (builder s))) ->
  (forall a, f (type_env s) (module (builder s)) = Ok a -> Q a s) -> ok s (ask_ir f) Q.
Proof. intros N H. eapply ok_bind; [by apply (ok_get s (fun a s' => a = s /\ s' = s)) |]. intros a s' _ _ [-> ->]. by apply ok_lift. Qed.

(** Carry the facts about the state before over to the state after. *)
Ltac carry L :=
  lazymatch type of L with
  | le ?s ?s' =>
      repeat match goal with
      | H : wf s |- _ => clear H
      | H : ?P s |- _ => apply (persist (P := P) s s' L) in H
      end;
      clear L; try clear s
  end.
(** One step of a block: the specification of its first computation. *)
Ltac gstep_with H :=
  eapply ok_bind; [H | let L := fresh "L" in let W := fresh "W" in intros ? ? W L ?; cbv beta in *; carry L].

(** ** Computations that do not run out of fuel *)

Lemma nf_bind {A B} (m : res A) (f : A -> res B) : nf m -> (forall a, nf (f a)) -> nf (m ≫= f).
Proof. intros H1 H2. destruct m as [a|e]; [apply H2 | intros [= ->]; by apply H1]. Qed.
Lemma nf_ASSERT b : nf (ASSERT b).
Proof. by destruct b. Qed.
Lemma nf_of_opt {A} (o : option A) : nf (of_opt o).
Proof. by destruct o. Qed.
Lemma nf_ctype te t : nf (ctype te t).
Proof. apply nf_of_opt. Qed.
Lemma nf_ref {A} (l : list A) i : nf (ref l i).
Proof. unfold ref. case_match; [done | apply nf_of_opt]. Qed.
Lemma nf_store {A} (l : list A) i x : nf (store l i x).
Proof. unfold store. by case_match. Qed.

Create HintDb nofuel.
#[export] Hint Resolve nf_ASSERT nf_of_opt nf_ctype nf_ref nf_store : nofuel.
Ltac nofuel :=
  repeat first [ by unfold nf; cbn | solve [auto with nofuel nocore] | apply nf_bind; [| intros ?]
               | match goal with |- nf (match ?x with _ => _ end) => destruct x end ].

Lemma nf_size ir : nf (size_of_ir_type ir).
Proof. induction ir; cbn; nofuel. Qed.
Lemma nf_align ir : nf (align_of_ir_type ir).
Proof. induction ir; cbn; nofuel. Qed.
Lemma nf_ir_type te m t : nf (c_type_to_ir_type te m t).
Proof. unfold c_type_to_ir_type. nofuel. Qed.
#[export] Hint Resolve nf_size nf_align nf_ir_type : nofuel.
Lemma nf_c_type_size te m t : nf (c_type_size te m t).
Proof. unfold c_type_size. nofuel. Qed.
Lemma nf_num_fields te t : nf (c_type_num_fields te t).
Proof. unfold c_type_num_fields. nofuel. Qed.
Lemma nf_is_arithmetic te t : nf (is_arithmetic_type te t).
Proof. unfold is_arithmetic_type. nofuel. Qed.
Lemma nf_if_not_int te t : nf (fatal_error_if_not_int te t).
Proof. unfold fatal_error_if_not_int. nofuel. Qed.
Lemma nf_that_fits te l v : nf (type_that_fits te l v).
Proof. induction l as [|t l IH]; cbn; [done |]. unfold value_fits_in_type. nofuel. Qed.
#[export] Hint Resolve nf_c_type_size nf_num_fields nf_is_arithmetic nf_if_not_int nf_that_fits : nofuel.
Lemma nf_int_literal te l : nf (type_of_int_literal te l).
Proof. unfold type_of_int_literal. nofuel. Qed.
Lemma nf_matches l names : nf (matches_sequence l names).
Proof. revert names. induction l as [|x l IH]; intros [|n names]; cbn; nofuel. Qed.
#[export] Hint Resolve nf_int_literal nf_matches : nofuel.
Lemma nf_first seqs l : nf (first_sequence seqs l).
Proof. induction seqs as [|[n t] seqs IH]; cbn; nofuel. Qed.
#[export] Hint Resolve nf_first : nofuel.
Lemma nf_named te l : nf (named_type_specifier_to_ctype te l).
Proof. unfold named_type_specifier_to_ctype. nofuel. Qed.
Lemma nf_inner te c : nf (inner_size te c).
Proof. unfold inner_size. nofuel. Qed.
#[export] Hint Resolve nf_named nf_inner : nofuel.

(** Comparison of types goes down in the store. *)
Lemma nf_all_eq eq l1 l2 : (forall x y, x ∈ l1 -> nf (eq x y)) -> nf (all_eq eq l1 l2).
Proof.
  revert l2. induction l1 as [|x l1 IH]; intros [|y l2] H; try done. cbn.
  apply nf_bind; [apply H; set_solver | intros [|]; [| done]]. apply IH. set_solver.
Qed.
Lemma nf_eq_aux te n a b : ranked te -> (a < n)%nat \/ ctypes te !! a = None /\ n <> O -> nf (c_type_eq_aux te n a b).
Proof.
  intros Hr. revert a b. induction n as [|n IH]; intros a b Hn; [exfalso; destruct Hn as [| []]; [lia | done] |].
  cbn. unfold ctype. destruct (ctypes te !! a) as [c|] eqn:E; [| nofuel].
  destruct (ctypes te !! b) as [cb|]; [cbn | nofuel].
  assert (R : forall x y, x ∈ components c -> nf (c_type_eq_aux te n x y)).
  { intros x y Hx. apply IH. left. specialize (Hr _ _ _ E Hx). destruct Hn as [| []]; [lia | done]. }
  destruct c, cb; try solve [nofuel]; cbn in R.
  - case_match; [nofuel |]. apply nf_bind; [apply R; set_solver | intros []; [cbn | nofuel]].
    apply nf_all_eq. intros; apply R. set_solver.
  - apply nf_bind; [nofuel | intros _]. apply nf_bind; [nofuel | intros _]. apply R. set_solver.
  - apply nf_bind; [nofuel | intros []; [cbn | nofuel]]. apply R. set_solver.
Qed.
Lemma nf_type_eq te a b : ranked te -> nf (c_type_eq te a b).
Proof.
  intros Hr. apply nf_eq_aux; [done |]. destruct (ctypes te !! a) eqn:E; [left | by right].
  apply lookup_lt_Some in E. lia.
Qed.

(** Types that compare equal have the same shape. *)
Lemma c_type_eq_shape te a b : c_type_eq te a b = Ok true ->
  exists c d, ctypes te !! a = Some c /\ ctypes te !! b = Some d /\ same_shape c d.
Proof.
  unfold c_type_eq. cbn. unfold ctype. destruct (ctypes te !! a) as [c|]; [| done].
  destruct (ctypes te !! b) as [d|]; [| done]. cbn. intros E. exists c, d. split_and!; [done | done |].
  destruct c, d; cbn; try done.
  - injection E as E. bsplit. split; [by apply bool_decide_eq_true in H | by apply eqb_prop].
  - injection E as E. by apply bool_decide_eq_true in E.
Qed.

(** ** Types *)

Lemma kind_ok s t : ok s (kind t) (fun c s => obs t c s /\ type_ok c s).
Proof.
  apply ok_wf. intros W. apply ok_ask; [apply nf_ctype |]. intros c E%ctype_Ok.
  split; [by exists c | by eapply wf_types].
Qed.

Lemma types_eq_ok s a b : ok s (types_eq a b)
  (fun e s => e = true -> exists c d, obs a c s /\ obs b d s /\ same_shape c d).
Proof.
  apply ok_wf. intros W. apply ok_ask; [apply nf_type_eq, W |]. intros e E ->.
  destruct (c_type_eq_shape _ _ _ E) as (c & d & Ec & Ed & S). exists c, d. split_and!; [by exists c | by exists d | done].
Qed.

Lemma type_not_eq_ok s a b : ok s (ask (fun te => fatal_error_if_type_not_eq te a b))
  (fun _ s => exists c d, obs a c s /\ obs b d s /\ same_shape c d).
Proof.
  apply ok_wf. intros W. unfold fatal_error_if_type_not_eq. apply ok_ask.
  - apply nf_bind; [apply nf_type_eq, W | intros []; done].
  - intros [] E. destruct (c_type_eq (type_env s) a b) as [[]|] eqn:Eq; try done.
    destruct (c_type_eq_shape _ _ _ Eq) as (c & d & Ec & Ed & S). exists c, d. split_and!; [by exists c | by exists d | done].
Qed.

(** The IR type of a type that is not a struct is that of its values. *)
Definition not_struct (c : CType) : Prop := match c with STRUCT_TYPE _ _ _ => False | _ => True end.
Definition ir_of (t : nat) (ir : IrType) (s : IrGenContext) : Prop := exists c, obs t c s /\ (not_struct c -> val_ok c ir).
#[export] Instance ir_of_persist t ir : Persist (ir_of t ir).
Proof. intros s s' L (c & Hc & Hv). exists c. split; [by eapply persist | done]. Qed.
Lemma ir_of_val t ir c s : ir_of t ir s -> obs t c s -> not_struct c -> val_ok c ir.
Proof.
  intros (d & Hd & Hv) Hc N. pose proof (obs_shape t d c s Hd Hc) as S. apply (val_ok_shape d c); [done |].
  apply Hv. by destruct d, c.
Qed.
Lemma ir_type_of_ok s t : ok s (ir_type_of t) (ir_of t).
Proof.
  apply ok_wf. intros W. apply ok_ask_ir; [apply nf_ir_type |]. intros ir E. unfold c_type_to_ir_type in E.
  destruct (ctype (type_env s) t) as [c|] eqn:Ec; [| done]. apply ctype_Ok in Ec. cbn in E.
  exists c. split; [by exists c |]. destruct c; cbn in *; simplify_eq; try done.
  destruct (wf_types s W _ _ Ec) as (_ & b & n & Ei). rewrite Ei in E. cbn in E. by simplify_eq.
Qed.

Lemma builtin_obs s t c : wf s -> builtin_ctypes !! t = Some c -> obs t c s.
Proof. intros W E. exists c. split; [by apply (wf_builtins s W) | done]. Qed.

(** Of a builtin type it is known. *)
Lemma ir_type_builtin s t c : builtin_ctypes !! t = Some c -> ok s (ir_type_of t) (fun ir s => obs t c s /\ val_ok c ir).
Proof.
  intros E. apply ok_wf. intros W.
  eapply ok_conseq; [apply (ok_carry s (obs t c)), ir_type_of_ok; by apply builtin_obs |].
  intros ir s' [Hi Hc]. split; [done |]. apply (ir_of_val t ir c s' Hi Hc). destruct c; try done.
  exfalso. apply list_elem_of_lookup_2 in E. cbn in E.
  repeat (apply elem_of_cons in E as [E|E]; [discriminate |]). by apply elem_of_nil in E.
Qed.

(** ** Changes of the types *)

Lemma wf_extend s te' : wf s -> types_le (type_env s) te' -> ranked te' ->
  (forall t c, ctypes te' !! t = Some c -> ctypes (type_env s) !! t = Some c \/ type_ok c (set_type_env s te')) ->
  (forall n t, (n, t) ∈ struct_types te' ++ enum_types te' ++ typedef_types te' ->
     (n, t) ∈ struct_types (type_env s) ++ enum_types (type_env s) ++ typedef_types (type_env s) \/
     valid t (set_type_env s te')) ->
  wf (set_type_env s te') /\ le s (set_type_env s te').
Proof.
  intros [W1 W2 W3 W4 W5] L R T E. assert (Ls : le s (set_type_env s te')) by (split; [done | reflexivity]).
  split; [| done]. constructor; cbn; try done.
  - intros t c Ec. destruct (proj1 L _ _ (W2 _ _ Ec)) as (c' & E' & Lc). replace c with c'; [done |].
    apply list_elem_of_lookup_2 in Ec. cbn in Ec.
    repeat (apply elem_of_cons in Ec as [-> | Ec]; [by destruct c' |]). by apply elem_of_nil in Ec.
  - intros t c Ec. destruct (T t c Ec) as [Eo|]; [| done]. eapply persist; [done | by eapply W3].
  - intros n t Hin. destruct (E n t Hin) as [Ho|]; [| done]. eapply persist; [done | by eapply W4].
  - intros l b Hl Hb. eapply persist; [done | by eapply W5].
Qed.

Lemma ok_on_types {A} s (m : st TypeEnv A) Q :
  (wf s -> match m (type_env s) with
           | Ok (a, te') => wf (set_type_env s te') /\ le s (set_type_env s te') /\ Q a (set_type_env s te')
           | Stop e => e <> NoFuel
           end) -> ok s (on_types m) Q.
Proof.
  intros H W. specialize (H W). unfold on_types, zoom. destruct (m (type_env s)) as [[a te']|]; [| done].
  destruct H as (H1 & H2 & H3). split_and!; [done | done | constructor; cbn; try done; apply scopes_le_preorder | done].
Qed.

Lemma ok_types_bind {A B} s (m : st TypeEnv A) (f : A -> st TypeEnv B) Q :
  ok s (on_types m ≫= fun a => on_types (f a)) Q -> ok s (on_types (m ≫= f)) Q.
Proof.
  intros H W. specialize (H W). unfold on_types, zoom, mbind, st_bind in *. destruct (m (type_env s)) as [[a te1]|]; [| done].
  cbn in H. destruct (f a te1) as [[b te2]|]; done.
Qed.

Lemma set_type_env_same s : set_type_env s (type_env s) = s.
Proof. by destruct s. Qed.

Lemma ok_types_pure {A} s (m : st TypeEnv A) Q :
  (forall te, match m te with Ok (a, te') => te' = te | Stop e => e <> NoFuel end) ->
  (forall a te', m (type_env s) = Ok (a, te') -> Q a s) -> ok s (on_types m) Q.
Proof.
  intros H1 H2. apply ok_on_types. intros W. specialize (H1 (type_env s)).
  destruct (m (type_env s)) as [[a te']|] eqn:E; [subst te' | done]. rewrite set_type_env_same.
  split_and!; [done | reflexivity | by eapply H2].
Qed.

Lemma ok_types_get s (Q : TypeEnv -> IrGenContext -> Prop) : Q (type_env s) s -> ok s (on_types get) Q.
Proof. intros H. apply ok_types_pure; [done | by intros a te' [= <- <-]]. Qed.
Lemma ok_types_ret {A} s (a : A) Q : Q a s -> ok s (on_types (mret a)) Q.
Proof. intros H. apply ok_types_pure; [done | by intros b te' [= <- <-]]. Qed.
Lemma ok_types_lift {A} s (r : res A) Q : nf r -> (forall a, r = Ok a -> Q a s) -> ok s (on_types (lift r)) Q.
Proof.
  intros N H. apply ok_types_pure; unfold lift; [intros te; destruct r as [|e]; [done | intros ->; by apply N] |].
  intros a te' E. destruct r; [| done]. injection E as <- <-. by apply H.
Qed.

(** A new type object. *)
Lemma new_ctype_ok s c : type_ok c s -> ok s (on_types (new_ctype c)) (fun t s => obs t c s).
Proof.
  intros Hc. apply ok_on_types. intros W. cbn. set (te := type_env s).
  assert (O : obs (length (ctypes te)) c (set_type_env s (set_ctypes te (ctypes te ++ [c])))).
  { exists c. cbn. by rewrite list_lookup_middle. }
  assert (L : types_le te (set_ctypes te (ctypes te ++ [c]))).
  { split; cbn; [| intros i b n E; by exists n]. intros t d E. exists d. split; [by apply lookup_app_l_Some | done]. }
  enough (H : wf (set_type_env s (set_ctypes te (ctypes te ++ [c]))) /\ le s (set_type_env s (set_ctypes te (ctypes te ++ [c]))))
    by (split_and!; [apply H | apply H | done]).
  apply wf_extend; [done | done | | | by left].
  - intros t d u E Hu. cbn in E. apply lookup_app_Some in E as [E | [Lt E]]; [by eapply (wf_ranked s W) |].
    apply list_lookup_singleton_Some in E as [Et <-]. destruct Hc as [Hc _]. rewrite Forall_forall in Hc.
    specialize (Hc u Hu). apply valid_lt in Hc. fold te in Hc. lia.
  - intros t d E. cbn in E. apply lookup_app_Some in E as [E | [Lt E]]; [by left | right].
    apply list_lookup_singleton_Some in E as [_ <-]. eapply persist; [| exact Hc]. split; [done | reflexivity].
Qed.

(** A type object gets the content [c]. *)
Lemma set_ctype_ok s t old c Q : ctypes (type_env s) !! t = Some old -> ctype_le old c -> components c = components old ->
  type_ok c s -> (forall s', le s s' -> Q tt s') -> ok s (on_types (set_ctype t c)) Q.
Proof.
  intros Eo Lc Hcomp Hc HQ. apply ok_on_types. intros W. cbn. set (te := type_env s) in *.
  assert (L : types_le te (set_ctypes te (<[t := c]> (ctypes te)))).
  { split; cbn; [| intros i b n E; by exists n]. intros u d E. destruct (decide (t = u)) as [<-|N].
    - exists c. assert (d = old) as -> by congruence. rewrite list_lookup_insert_eq by (by eapply lookup_lt_Some). done.
    - exists d. by rewrite list_lookup_insert_ne. }
  assert (H : wf (set_type_env s (set_ctypes te (<[t := c]> (ctypes te)))) /\ le s (set_type_env s (set_ctypes te (<[t := c]> (ctypes te))))).
  { apply wf_extend; [done | done | | | by left].
    - intros u d v E Hv. cbn in E. apply list_lookup_insert_Some in E as [(<- & <- & _) | [_ E]]; [| by eapply (wf_ranked s W)].
      rewrite Hcomp in Hv. by eapply (wf_ranked s W).
    - intros u d E. cbn in E. apply list_lookup_insert_Some in E as [(<- & <- & _) | [_ E]]; [right | by left].
      eapply persist; [| exact Hc]. split; [done | reflexivity]. }
  split_and!; [apply H | apply H | by apply HQ].
Qed.

(** New names for a valid type. *)
Lemma add_entry_ok s (f : TypeEnv -> TypeEnv) t (Q : unit -> IrGenContext -> Prop) : valid t s ->
  (forall te, ctypes (f te) = ctypes te /\ ir_types (f te) = ir_types te /\
     forall n u, (n, u) ∈ struct_types (f te) ++ enum_types (f te) ++ typedef_types (f te) ->
       (n, u) ∈ struct_types te ++ enum_types te ++ typedef_types te \/ u = t) ->
  (forall s', le s s' -> Q tt s') -> ok s (on_types (modify f)) Q.
Proof.
  intros Ht Hf HQ. apply ok_on_types. intros W. cbn. destruct (Hf (type_env s)) as (E1 & E2 & E3).
  assert (L : types_le (type_env s) (f (type_env s))).
  { split; [rewrite E1 | rewrite E2]; [intros u d E; by exists d | intros i b n E; by exists n]. }
  assert (H : wf (set_type_env s (f (type_env s))) /\ le s (set_type_env s (f (type_env s)))).
  { apply wf_extend; [done | done | | | ].
    - intros u d v E Hv. rewrite E1 in E. by eapply (wf_ranked s W).
    - intros u d E. left. by rewrite E1 in E.
    - intros n u Hu. destruct (E3 n u Hu) as [| ->]; [by left | right]. eapply persist; [| exact Ht].
      split; [done | reflexivity]. }
  split_and!; [apply H | apply H | by apply HQ].
Qed.

Lemma wf_ir_types s l : wf s -> (forall i b n, ir_types (type_env s) !! i = Some (IR_ARRAY b n) -> exists n', l !! i = Some (IR_ARRAY b n')) ->
  wf (set_type_env s (set_ir_types (type_env s) l)) /\ le s (set_type_env s (set_ir_types (type_env s) l)).
Proof.
  intros W H. apply wf_extend; [done | | by apply W | by left | by left].
  split; [intros t c E; by exists c | done].
Qed.

Lemma gen_array_type_ok s t : valid t s -> ok s (gen_array_type t) (fun a s => exists i n k, obs a (ARRAY_TYPE t i n k) s).
Proof.
  intros Ht. unfold gen_array_type. eapply ok_bind; [by apply (ok_get s (fun a s' => a = s /\ s' = s)) |].
  intros s1 s2 _ _ [-> ->]. apply ok_types_bind.
  eapply ok_bind; [by apply (ok_types_get s (fun te s' => te = type_env s /\ s' = s)) |]. intros te s1 _ _ [-> ->].
  apply ok_types_bind. eapply ok_bind; [apply (ok_types_lift s _ (fun _ s' => s' = s)); [nofuel | done] |].
  intros ir s1 _ _ ->. set (ir' := match ir with IR_ARRAY e n => IR_ARRAY e n | e => IR_ARRAY e 0 end).
  apply ok_types_bind.
  eapply (ok_bind s _ _ (fun _ s' => valid t s' /\ ir_types (type_env s') = ir_types (type_env s) ++ [ir'])).
  - apply ok_on_types. intros W. cbn.
    destruct (wf_ir_types s (ir_types (type_env s) ++ [ir']) W) as [H1 H2].
    { intros i b n E. exists n. by apply lookup_app_l_Some. }
    split_and!; [done | done | by eapply persist | done].
  - intros [] s1 _ _ [Hv Hi]. eapply ok_conseq; [apply new_ctype_ok |].
    + split; [by repeat constructor |]. rewrite Hi, list_lookup_middle by done. unfold ir'. destruct ir; by eexists _, _.
    + intros a s2 Ho. do 3 eexists. exact Ho.
Qed.

Lemma set_length_ok s a n : ok s (on_types (set_array_type_length a n)) (fun _ _ => True).
Proof.
  apply ok_on_types. intros W. set (te := type_env s). unfold set_array_type_length, mbind, st_bind, get, lift.
  assert (N := nf_ctype te a). destruct (ctype te a) as [c|] eqn:Ea; [| intros ->; by apply N]. clear N.
  apply ctype_Ok in Ea. destruct c as [| | | | | |e i sz k]; try done. cbn.
  assert (N := nf_ctype te e). destruct (ctype te e) as [ce|]; [| intros ->; by apply N]. clear N.
  assert (N := nf_inner te ce). destruct (inner_size te ce) as [inner|]; [| intros ->; by apply N]. clear N.
  destruct (ir_types te !! k) as [ir|] eqn:Ek; [cbn | done]. destruct ir as [| | | |b z| |]; try done. cbn.
  set (l := <[k := IR_ARRAY b (u64 (n * inner))]> (ir_types te)).
  assert (Hl : forall i b n, ir_types te !! i = Some (IR_ARRAY b n) -> exists n', l !! i = Some (IR_ARRAY b n')).
  { intros j b' n' E. unfold l. destruct (decide (k = j)) as [<-|]; [| rewrite list_lookup_insert_ne by done; eauto].
    rewrite Ek in E. injection E as <- <-. rewrite list_lookup_insert_eq by (by eapply lookup_lt_Some). eauto. }
  destruct (wf_ir_types s l W Hl) as [W1 L1].
  assert (H := set_ctype_ok (set_type_env s (set_ir_types te l)) a (ARRAY_TYPE e i sz k) (ARRAY_TYPE e false (Some n) k) (fun _ _ => True)).
  destruct (H Ea) as (H1 & H2 & _ & _); [done | done | | done | done |].
  - pose proof (wf_types _ W1 a _ Ea) as [T1 T2]. by split.
  - split_and!; [done | by etransitivity | done].
Qed.

Lemma pointer_type_ok s t : valid t s -> ok s (on_types (pointer_type t)) (fun p s => obs p (POINTER_TYPE t) s).
Proof. intros Ht. apply new_ctype_ok. split; [by repeat constructor | done]. Qed.

(** Decaying turns arrays into pointers and leaves the rest. *)
Definition decays (c c' : CType) : Prop :=
  match c with ARRAY_TYPE e _ _ _ => c' = POINTER_TYPE e | _ => c' = c end.
Lemma decay_to_pointer_ok s t : ok s (on_types (decay_to_pointer t)) (fun p s => exists c c', obs t c s /\ obs p c' s /\ decays c c').
Proof.
  apply ok_wf. intros W. apply ok_types_bind.
  eapply ok_bind; [by apply (ok_types_get s (fun te s' => te = type_env s /\ s' = s)) |]. intros te s1 _ _ [-> ->].
  apply ok_types_bind. eapply ok_bind.
  - apply (ok_types_lift s _ (fun c s' => s' = s /\ ctypes (type_env s) !! t = Some c)); [nofuel |].
    by intros c E%ctype_Ok.
  - intros c s1 _ _ [-> E]. assert (O : obs t c s) by (by exists c).
    destruct c; try (apply ok_types_ret; eexists _, _; split_and!; done).
    pose proof (wf_types s W _ _ E) as [Hc _]. cbn in Hc. apply Forall_inv in Hc.
    eapply ok_conseq; [eapply (ok_carry s (obs t _)); [exact O | apply pointer_type_ok, Hc] |].
    intros p s' [Hp Ho]. eexists _, _. by split_and!.
Qed.

Lemma struct_type_ok s name : ok s (on_types (struct_type name)) (fun t s => valid t s).
Proof.
  apply ok_types_bind. eapply ok_bind; [apply (new_ctype_ok s); split; [by constructor | split; [by constructor | done]] |].
  intros t s1 _ _ Ho%obs_valid. apply ok_types_bind. eapply (ok_bind s1 _ _ (fun _ s' => valid t s')).
  - apply (add_entry_ok s1 _ t); [done | | intros s2 L; by eapply persist].
    intros te. split_and!; [done | done |]. cbn. intros n u Hu. rewrite !elem_of_app, list_elem_of_singleton in *. naive_solver.
  - intros [] s2 _ _ Hv. by apply ok_types_ret.
Qed.

(** ** The builder *)

(** A computation of the builder or on the module that leaves the struct types
    alone. *)
Definition same_types (m m' : IrModule) : Prop := types m' = types m /\ struct_fields m' = struct_fields m.
Definition bok {A} (c : st IrBuilder A) (Q : A -> Prop) : Prop :=
  forall b, match c b with Ok (a, b') => same_types (module b) (module b') /\ Q a | Stop e => e <> NoFuel end.
Definition mok {A} (m0 : IrModule) (c : st IrModule A) : Prop :=
  forall m, same_types m0 m -> match c m with Ok (a, m') => same_types m0 m' | Stop e => e <> NoFuel end.
Abbreviation quiet c := (bok c (fun _ => True)).

Lemma bok_conseq {A} (c : st IrBuilder A) (Q Q' : A -> Prop) : bok c Q -> (forall a, Q a -> Q' a) -> bok c Q'.
Proof. intros H I b. specialize (H b). destruct (c b) as [[a b']|]; [naive_solver | done]. Qed.
Lemma bok_bind {A B} (c : st IrBuilder A) (f : A -> st IrBuilder B) Q1 Q2 :
  bok c Q1 -> (forall a, Q1 a -> bok (f a) Q2) -> bok (c ≫= f) Q2.
Proof.
  intros H1 H2 b. specialize (H1 b). unfold mbind, st_bind. destruct (c b) as [[a b1]|]; [| done].
  destruct H1 as [[T1 S1] HQ]. specialize (H2 a HQ b1). destruct (f a b1) as [[x b2]|]; [| done].
  destruct H2 as [[T2 S2] ?]. split; [split; congruence | done].
Qed.
Lemma bok_seq {A B} (c : st IrBuilder A) (f : A -> st IrBuilder B) Q : quiet c -> (forall a, bok (f a) Q) -> bok (c ≫= f) Q.
Proof. intros H1 H2. by eapply bok_bind. Qed.
Lemma bok_ret {A} (a : A) (Q : A -> Prop) : Q a -> bok (mret a) Q.
Proof. by intros H b. Qed.
Lemma bok_get (Q : IrBuilder -> Prop) : (forall b, Q b) -> bok get Q.
Proof. by intros H b. Qed.
Lemma bok_lift {A} (r : res A) (Q : A -> Prop) : nf r -> (forall a, r = Ok a -> Q a) -> bok (lift r) Q.
Proof. intros N H b. unfold lift. destruct r as [a|e]; [by split; auto | intros ->; by apply N]. Qed.
Lemma bok_module {A} (c : st IrModule A) : (forall m0, mok m0 c) -> quiet (on_module c).
Proof.
  intros H b. specialize (H (module b) (module b) (conj eq_refl eq_refl)). unfold on_module, zoom.
  by destruct (c (module b)) as [[a m]|].
Qed.

Section Module_rules.
Context (m0 : IrModule).
Lemma mok_bind {A B} (c : st IrModule A) (f : A -> st IrModule B) : mok m0 c -> (forall a, mok m0 (f a)) -> mok m0 (c ≫= f).
Proof.
  intros H1 H2 m S. specialize (H1 m S). unfold mbind, st_bind. destruct (c m) as [[a m1]|]; [| done].
  by apply (H2 a m1).
Qed.
Lemma mok_get_bind {B} (f : IrModule -> st IrModule B) : (forall m, same_types m0 m -> mok m0 (f m)) -> mok m0 (get ≫= f).
Proof. intros H m S. by apply (H m S). Qed.
Lemma mok_ret {A} (a : A) : mok m0 (mret a). Proof. by intros m. Qed.
Lemma mok_lift {A} (r : res A) : nf r -> mok m0 (lift r).
Proof. intros N m S. unfold lift. destruct r as [a|e]; [done | intros ->; by apply N]. Qed.
Lemma mok_put m : same_types m0 m -> mok m0 (put m).
Proof. by intros H m'. Qed.
Lemma mok_modify f : (forall m, same_types m0 m -> same_types m0 (f m)) -> mok m0 (modify f).
Proof. intros H m S. by apply H. Qed.
End Module_rules.

Create HintDb bok.
#[export] Hint Resolve I mok_ret mok_put mok_lift mok_modify bok_module : bok.
#[export] Hint Extern 1 (nf _) => solve [nofuel] : bok.
#[export] Hint Extern 1 (same_types _ _) => assumption : bok.
#[export] Hint Extern 2 (bok (mret _) _) => apply bok_ret : bok.
#[export] Hint Extern 1 (val_type _ = _) => reflexivity : bok.
#[export] Hint Extern 2 (bok get _) => apply bok_get : bok.
#[export] Hint Extern 2 (bok (lift _) _) => apply bok_lift : bok.
Ltac bstep :=
  repeat first
    [ solve [eauto 4 with bok nocore]
    | match goal with
      | |- mok _ (get ≫= _) => apply mok_get_bind; intros ? ?
      | |- mok _ (_ ≫= _) => apply mok_bind; [| intros ?]
      | |- bok (on_module _) (fun _ => True) => apply bok_module; intros ?
      | |- bok (_ ≫= _) _ => apply bok_seq; [| intros ?]
      | |- mok _ (match ?x with _ => _ end) => destruct x
      | |- bok (match ?x with _ => _ end) _ => destruct x
      end ].

Lemma function_at_mok m0 k : mok m0 (function_at k).
Proof. unfold function_at. bstep. Qed.
Lemma set_function_mok m0 k f : mok m0 (set_function k f).
Proof. unfold set_function. bstep. Qed.
#[export] Hint Resolve function_at_mok set_function_mok : bok.
Lemma add_global_mok m0 g : mok m0 (add_global g).
Proof. by intros m. Qed.
Lemma add_const_mok m0 c : mok m0 (add_const c).
Proof. by intros m. Qed.
Lemma new_const_array_mok m0 n : mok m0 (new_const_array n).
Proof. by intros m. Qed.
Lemma add_block_to_function_mok m0 k name : mok m0 (add_block_to_function k name).
Proof. unfold add_block_to_function. bstep. Qed.
#[export] Hint Resolve add_global_mok add_const_mok new_const_array_mok add_block_to_function_mok : bok.
Lemma add_init_mok m0 g : mok m0 (add_init_to_function g).
Proof. unfold add_init_to_function. bstep. Qed.
Lemma add_function_mok m0 n r v l : mok m0 (ir_module_add_function n r v l).
Proof. by intros m. Qed.
Lemma add_var_mok m0 n t : mok m0 (ir_module_add_var n t).
Proof. by intros m. Qed.
#[export] Hint Resolve add_init_mok add_function_mok add_var_mok : bok.

Lemma add_block_bok name : quiet (add_block name).
Proof. unfold add_block. bstep. Qed.
Lemma set_instr_bok i op t u : quiet (set_instr i op t u).
Proof. unfold set_instr. bstep. Qed.
Lemma append_instr_bok : quiet append_instr.
Proof.
  unfold append_instr. bstep.
Qed.
#[export] Hint Resolve add_block_bok set_instr_bok append_instr_bok : bok.
Lemma emit_bok op t u : quiet (emit op t u).
Proof. unfold emit. bstep. Qed.
#[export] Hint Resolve emit_bok : bok.

(** The value of a new instruction has the instruction's type. *)
Lemma emit_value_bok op ty u : bok (i ← emit op ty u; value_instr i) (fun v => val_type v = ty).
Proof.
  intros b. unfold emit, value_instr, set_instr, on_module, zoom, modify, get, lift, mbind, st_bind, mret, st_ret.
  pose proof (append_instr_bok b) as N. destruct (append_instr b) as [[i b']|e] eqn:E; [| done].
  destruct (append_instr_inv b i b' E) as (blk & k & t & f & bk & _ & _ & _ & _ & -> & ->). cbn.
  rewrite list_lookup_alter_eq, lookup_app_r, Nat.sub_diag by lia. by cbn.
Qed.
#[export] Hint Resolve emit_value_bok : bok.

Lemma build_jump_bok b : quiet (build_jump b).
Proof. apply emit_bok. Qed.
Lemma build_cond_bok c b1 b2 : quiet (build_cond c b1 b2).
Proof. apply emit_bok. Qed.
Lemma build_local_bok t : bok (build_local t) (fun v => val_type v = IR_POINTER).
Proof. apply emit_value_bok. Qed.
Lemma build_field_bok p t n : bok (build_field p t n) (fun v => val_type v = IR_POINTER).
Proof. unfold build_field. bstep. Qed.
Lemma build_load_bok p t : bok (build_load p t) (fun v => val_type v = t).
Proof. apply emit_value_bok. Qed.
Lemma build_store_bok p v : quiet (build_store p v).
Proof. eapply bok_conseq; [apply emit_value_bok | done]. Qed.
Lemma build_nullary_bok op t : quiet (build_nullary_instr op t).
Proof. eapply bok_conseq; [apply emit_value_bok | done]. Qed.

Lemma nf_fold_unary op x : nf (constant_fold_unary_op op x).
Proof. unfold constant_fold_unary_op, PRECONDITION. nofuel. Qed.
Lemma nf_shl w x n : nf (shl w x n). Proof. unfold shl. nofuel. Qed.
Lemma nf_shr w x n : nf (shr w x n). Proof. unfold shr. nofuel. Qed.
#[export] Hint Resolve nf_fold_unary nf_shl nf_shr : nofuel.
Lemma nf_fold_binary op x y : nf (constant_fold_binary_op op x y).
Proof. unfold constant_fold_binary_op, PRECONDITION. nofuel. Qed.
Lemma nf_fold_cmpf c x y : nf (constant_fold_cmpf c x y).
Proof. unfold constant_fold_cmpf. nofuel. Qed.
#[export] Hint Resolve nf_fold_binary nf_fold_cmpf : nofuel.

Lemma build_unary_bok op v : op <> OP_RET -> bok (build_unary_instr op v) (fun r => val_type r = val_type v).
Proof.
  intros N. unfold build_unary_instr. rewrite decide_False by done. destruct (val_u v); try apply emit_value_bok.
  destruct (constant_foldable op); [| apply emit_value_bok]. bstep.
Qed.
Lemma build_ret_bok v : quiet (build_unary_instr OP_RET v).
Proof.
  unfold build_unary_instr. destruct (val_u v); (eapply bok_conseq; [apply emit_value_bok | done]).
Qed.
Lemma build_binary_bok op v w : bok (build_binary_instr op v w) (fun r => val_type r = val_type v).
Proof. unfold build_binary_instr, PRECONDITION. bstep. Qed.
Lemma build_cmp_bok c v w : bok (build_cmp c v w) (fun r => val_type r = IR_INT 32).
Proof. unfold build_cmp, PRECONDITION. bstep. Qed.
Lemma build_cmpf_bok c v w : bok (build_cmpf c v w) (fun r => val_type r = IR_INT 32).
Proof. unfold build_cmpf, PRECONDITION. bstep. Qed.
Lemma build_call_bok f t l : bok (build_call f t l) (fun r => val_type r = t).
Proof. apply emit_value_bok. Qed.
Lemma ir_type_eq_refl t : ir_type_eq t t = true.
Proof. by apply ir_type_eq_erase. Qed.
Lemma build_type_bok op v t : bok (build_type_instr op v t) (fun r => ir_type_eq (val_type r) t = true).
Proof.
  unfold build_type_instr. destruct (ir_type_eq (val_type v) t) eqn:E; [by apply bok_ret |].
  assert (G : bok (i ← emit op t (U_arg v); value_instr i) (fun r => ir_type_eq (val_type r) t = true)).
  { eapply bok_conseq; [apply emit_value_bok |]. intros r ->. apply ir_type_eq_refl. }
  destruct (val_u v); try exact G.
  destruct t; try (apply bok_lift; [nofuel | done]); apply bok_ret; apply ir_type_eq_refl.
Qed.
Lemma build_phi_bok t n : bok (build_phi t n) (fun r => val_type r = t).
Proof. apply emit_value_bok. Qed.
Lemma phi_set_param_bok p i b v : quiet (phi_set_param p i b v).
Proof. unfold phi_set_param, PRECONDITION. bstep. Qed.
Lemma add_int_const_bok t x : quiet (add_int_const t x).
Proof. unfold add_int_const. bstep. Qed.
Lemma add_float_const_bok t x : quiet (add_float_const t x).
Proof. unfold add_float_const. bstep. Qed.
Lemma add_global_const_bok g : quiet (add_global_const g).
Proof. unfold add_global_const. bstep. Qed.
Lemma add_array_const_bok t : quiet (add_array_const t).
Proof. unfold add_array_const. bstep. Qed.
Lemma add_struct_const_bok t : quiet (add_struct_const t).
Proof. unfold add_struct_const. bstep. Qed.
Lemma builtin_function_bok n t l : quiet (builtin_function n t l).
Proof. unfold builtin_function. bstep. Qed.
Lemma va_start_bok v : quiet (build_builtin_va_start v).
Proof. eapply bok_conseq; [apply emit_value_bok | done]. Qed.
#[export] Hint Resolve build_jump_bok build_cond_bok build_local_bok build_field_bok build_load_bok build_store_bok
  build_nullary_bok build_ret_bok build_binary_bok build_cmp_bok build_cmpf_bok build_call_bok build_type_bok
  build_phi_bok phi_set_param_bok add_int_const_bok add_float_const_bok add_global_const_bok add_array_const_bok
  add_struct_const_bok builtin_function_bok va_start_bok : bok.
#[export] Hint Extern 1 (bok (build_unary_instr _ _) _) => apply build_unary_bok; discriminate : bok.
Lemma builtin_memcpy_bok : quiet builtin_memcpy. Proof. apply builtin_function_bok. Qed.
Lemma builtin_memset_bok : quiet builtin_memset. Proof. apply builtin_function_bok. Qed.
#[export] Hint Resolve builtin_memcpy_bok builtin_memset_bok : bok.

(** ** Steps of the generator *)

Lemma wf_set_builder s b : wf s -> module_le (module (builder s)) (module b) -> wf (set_builder s b) /\ le s (set_builder s b).
Proof.
  intros [W1 W2 W3 W4 W5] S. assert (L : le s (set_builder s b)) by (split; [reflexivity | done]).
  split; [| done]. constructor; cbn; try done.
  - intros t c E. eapply persist; [done | by apply (W3 t)].
Qed.

Lemma ok_on_builder {A} s (c : st IrBuilder A) Q : bok c Q -> ok s (on_builder c) (fun a _ => Q a).
Proof.
  intros H W. specialize (H (builder s)). unfold on_builder, zoom. destruct (c (builder s)) as [[a b]|]; [| done].
  destruct H as [S HQ]. destruct (wf_set_builder s b W) as [W' L].
  { destruct S as [S1 S2]. split; by rewrite ?S1, ?S2. }
  split_and!; [done | done | constructor; cbn; try done; apply scopes_le_preorder | done].
Qed.

Lemma ok_fatal {A} s Q : ok s (@fatal A) Q.
Proof. by apply ok_lift. Qed.

Lemma set_current_block_ok s b : ok s (set_current_block b) (fun _ _ => True).
Proof. by apply (ok_on_builder s _ (fun _ => True)). Qed.
Lemma get_current_block_ok s : ok s get_current_block (fun _ _ => True).
Proof. intros W. by split_and!. Qed.

(** A change of the context outside types, scopes and what the frame keeps. *)
Lemma ok_modify s f (Q : unit -> IrGenContext -> Prop) : (wf s -> wf (f s)) -> le s (f s) -> frame s (f s) -> Q tt (f s) -> ok s (modify f) Q.
Proof. intros H1 H2 H3 H4 W. cbn. split_and!; auto. Qed.

Lemma add_binding_ok s b : binding_ok b s -> ok s (add_binding b) (fun _ _ => True).
Proof.
  intros Hb. unfold add_binding. eapply ok_bind; [by apply (ok_get s (fun a s' => a = s /\ s' = s)) |].
  intros s1 s2 _ _ [-> ->]. destruct (scope s) as [|l r] eqn:E; [by apply ok_lift |].
  intros [W1 W2 W3 W4 W5]. cbn. assert (L : le s (set_scope s ((l ++ [b]) :: r))) by (split; cbn; reflexivity).
  split_and!; [| done | | done].
  - constructor; cbn; try done. intros l' x Hl Hx. apply elem_of_cons in Hl as [-> | Hl].
    + apply elem_of_app in Hx as [Hx | ->%list_elem_of_singleton].
      * apply (W5 l); [rewrite E |]; set_solver.
      * by eapply persist.
    + apply (W5 l'); [rewrite E |]; set_solver.
  - constructor; cbn; try done. rewrite E. split; [by eexists | done].
Qed.

(** A block with its own scope. *)
Lemma ok_scoped s (m : gen unit) : (forall s', le s s' -> ok s' m (fun _ _ => True)) ->
  ok s (with_scope m) (fun _ _ => True).
Proof.
  intros H W. set (s0 := set_scope s ([] :: scope s)).
  assert (L0 : le s s0) by (split; cbn; reflexivity).
  assert (W0 : wf s0).
  { destruct W as [W1 W2 W3 W4 W5]. constructor; cbn; try done. intros l b Hl Hb.
    apply elem_of_cons in Hl as [-> | Hl]; [by apply elem_of_nil in Hb | by eapply W5]. }
  specialize (H s0 L0 W0). unfold with_scope, mbind, st_bind, push_scope, modify. fold s0.
  destruct (m s0) as [[[] s1]|]; [| done]. destruct H as (W1 & L1 & F1 & _).
  unfold pop_scope, get, put, lift, mbind, st_bind. pose proof (fr_scope _ _ F1) as Fs. cbn in Fs.
  destruct (scope s1) as [|l1 r1] eqn:E1; [done |]. destruct Fs as [_ <-].
  split_and!; [| | | done].
  - destruct W1 as [W1 W2 W3 W4 W5]. constructor; cbn; try done. intros l b Hl Hb.
    apply (W5 l); [rewrite E1; set_solver | done].
  - etransitivity; [exact L0 |]. etransitivity; [exact L1 |]. split; cbn; reflexivity.
  - destruct F1. constructor; cbn in *; try done.
Qed.

(** ** Blocks of steps *)

(** The last step of a block. *)
Lemma ok_tail {A} s (m : gen A) (Q1 Q2 : A -> IrGenContext -> Prop) : ok s m Q1 ->
  (forall a s', le s s' -> Q1 a s' -> Q2 a s') -> ok s m Q2.
Proof. intros H I W. specialize (H W). destruct (m s) as [[a s']|]; [| done]. destruct H as (? & ? & ? & ?). split_and!; auto. Qed.

Section Steps.
Context {A B : Type} (s : IrGenContext).
Implicit Type Q : B -> IrGenContext -> Prop.

Lemma ok_lift_bind (r : res A) (f : A -> gen B) Q : nf r -> (forall a, r = Ok a -> ok s (f a) Q) -> ok s (lift r ≫= f) Q.
Proof.
  intros N H W. unfold lift, mbind, st_bind. destruct r as [a|e]; [by apply (H a eq_refl) | intros ->; by apply N].
Qed.
Lemma ok_get_bind (f : IrGenContext -> gen B) Q : ok s (f s) Q -> ok s (get ≫= f) Q.
Proof. done. Qed.
Lemma ok_ret_bind (a : A) (f : A -> gen B) Q : ok s (f a) Q -> ok s (mret a ≫= f) Q.
Proof. done. Qed.
Lemma ok_ask_bind (g : TypeEnv -> res A) (f : A -> gen B) Q : nf (g (type_env s)) ->
  (forall a, g (type_env s) = Ok a -> ok s (f a) Q) -> ok s (ask g ≫= f) Q.
Proof.
  intros N H W. unfold ask, lift, mbind, st_bind, get. destruct (g (type_env s)) as [a|e]; [by apply (H a eq_refl) | intros ->; by apply N].
Qed.
Lemma ok_bind_assoc {C} (m : gen A) (g : A -> gen C) (f : C -> gen B) Q :
  ok s (m ≫= fun a => g a ≫= f) Q -> ok s ((m ≫= g) ≫= f) Q.
Proof. intros H W. specialize (H W). unfold mbind, st_bind in *. by destruct (m s) as [[a s']|]. Qed.
End Steps.

Lemma size_of_ok s t : ok s (size_of t) (fun _ _ => True).
Proof. apply ok_ask_ir; [apply nf_c_type_size | done]. Qed.

Lemma bok_place f : (forall b, module (f b) = module b) -> quiet (modify f).
Proof. intros H b. cbn. by rewrite H. Qed.

Create HintDb gen.
#[export] Hint Resolve kind_ok types_eq_ok type_not_eq_ok gen_array_type_ok set_length_ok pointer_type_ok
  decay_to_pointer_ok struct_type_ok set_current_block_ok get_current_block_ok add_binding_ok size_of_ok ok_fatal : gen.
#[export] Hint Extern 1 (ok _ (on_builder _) _) => apply ok_on_builder; solve [eauto 2 with bok nocore] : gen.
#[export] Hint Extern 1 (ok _ (on_builder (on_module _)) _) => apply (ok_on_builder _ _ (fun _ => True)); solve [bstep] : gen.
(** The IR type of a builtin type is known. *)
#[export] Hint Extern 1 (ok _ (ir_type_of ?t) _) =>
  first [ is_constructor t; fail 1
        | let c := eval cbv in (builtin_ctypes !! t) in
          match c with Some ?c => apply (ir_type_builtin _ t c); reflexivity end
        | apply ir_type_of_ok ] : gen.

Ltac split_facts :=
  repeat match goal with
  | H : _ /\ _ |- _ => destruct H
  | H : exists _, _ |- _ => destruct H
  | H : True |- _ => clear H
  end.
Ltac gpost := let L := fresh "L" in intros ? ? _ L ?; cbv beta in *; carry L; split_facts.

Ltac gtail := let L := fresh "L" in intros ? ? L ?; cbv beta in *; carry L; split_facts.

(** One step of a block: the state moves on, the facts follow. *)
Ltac gstep :=
  cbv zeta;
  lazymatch goal with
  | |- ok _ (mret _) _ => apply ok_ret
  | |- ok _ (get ≫= _) _ => apply ok_get_bind
  | |- ok _ (mret _ ≫= _) _ => apply ok_ret_bind
  | |- ok _ (lift _ ≫= _) _ => apply ok_lift_bind; [solve [nofuel] | intros]
  | |- ok _ (ask _ ≫= _) _ =>
      first [ apply ok_ask_bind; [solve [nofuel] | intros] | eapply ok_bind; [solve [eauto 3 with gen] | gpost] ]
  | |- ok _ (ask _) _ =>
      first [ apply ok_ask; [solve [nofuel] | intros] | eapply ok_tail; [solve [eauto 3 with gen] | gtail] ]
  | |- ok _ (lift _) _ => apply ok_lift; [solve [nofuel] | intros]
  | |- ok _ fatal _ => apply ok_fatal
  | |- ok _ ((_ ≫= _) ≫= _) _ => apply ok_bind_assoc
  | |- ok _ ((match ?x with _ => _ end) ≫= _) _ => destruct x eqn:?
  | |- ok _ (match (match ?x with _ => _ end) with _ => _ end) _ => destruct x eqn:?
  | |- ok _ (match ?x with _ => _ end) _ => destruct x eqn:?
  | |- ok _ (_ ≫= _) _ => eapply ok_bind; [solve [eauto 3 with gen] | gpost]
  | |- ok _ _ _ => eapply ok_tail; [solve [eauto 3 with gen] | gtail]
  end; try done.
Ltac gsteps := repeat gstep.

(** The same with names for the result and what is known of it. *)
Tactic Notation "gnext" simple_intropattern(a) simple_intropattern(H) :=
  cbv zeta;
  repeat lazymatch goal with |- ok _ ((_ ≫= _) ≫= _) _ => apply ok_bind_assoc end;
  lazymatch goal with
  | |- ok _ (lift _ ≫= _) _ => apply ok_lift_bind; [solve [nofuel] | intros a H]
  | |- ok _ (_ ≫= _) _ =>
      first [ apply ok_ask_bind; [solve [nofuel] | intros a H]
            | eapply ok_bind; [solve [eauto 3 with gen] | let L := fresh "L" in intros a ? _ L H; cbv beta in *; carry L] ]
  end.
