(* ===== verification/ExprSound.v ===== *)
(** * The types of the terms that IR generation builds

    Specifications in the logic of [GenLogic.v] for conversions, declarations,
    initialisers and expressions. *)

From S2P Require Import Prelude Ast Ir CType Context Convert Calls Initializer Decl Expr IrGen GenLogic.

Local Open Scope Z_scope.

(** ** Conversions *)

Lemma term_intro H t v c s : obs t c s -> (H -> val_ok c (val_type v)) -> term_ok H (mkTerm t v) s.
Proof. intros Ho Hv. by exists c. Qed.

(** The value of a built instruction has the type that was asked for. *)
Lemma built_val t ir c v s : ir_of t ir s -> obs t c s -> not_struct c -> ir_type_eq (val_type v) ir = true -> val_ok c (val_type v).
Proof. intros Hi Ho N E. eapply val_ok_eq; [exact E |]. by eapply ir_of_val. Qed.

Ltac built_val :=
  match goal with
  | Hi : ir_of ?t ?ir ?s, Ho : obs ?t ?c ?s, E : ir_type_eq (val_type ?v) ?ir = true |- val_ok ?c (val_type ?v) =>
      exact (built_val t ir c v s Hi Ho I E)
  end.

Lemma convert_ok H s term t : term_ok H term s -> ok s (convert_type term t)
  (fun r s => term_ok H r s /\ exists c d, obs t c s /\ obs (t_ctype r) d s /\ same_shape c d).
Proof.
  intros Ht. unfold convert_type. gstep. destruct a.
  - gstep. destruct (H0 eq_refl) as (c & d & Hc & Hd & S). split; [done |]. exists d, c. by split_and!.
  - clear H0. gstep. gstep. eapply (ok_bind _ _ _ (fun v s => H -> val_ok a0 (val_type v))).
    + assert (Hv : H -> val_ok a (val_type (t_value term))) by (intros; by eapply term_ok_obs).
      destruct a, a0; gsteps; try done; intros Hh; specialize (Hv Hh); try built_val; cbn in *; try done.
      by rewrite Heqi.
    + intros v s2 W2 L Hv. carry L. gstep. split; [by eapply term_intro |]. cbn. by exists a0, a0.
Qed.

Lemma decay_ok H s t : term_ok H t s -> ok s (decay t) (term_ok H).
Proof.
  intros Ht. unfold decay. gsteps. apply (term_intro H _ _ x0); [done |]. intros Hh.
  assert (V : val_ok x (val_type (t_value t))) by (by eapply term_ok_obs). by destruct x; cbn in *; subst.
Qed.

Lemma const_of_ok s t x c : builtin_ctypes !! t = Some c ->
  ok s (const_of t x) (fun v s => obs t c s /\ val_ok c (val_type v)).
Proof.
  intros E. unfold const_of. eapply ok_bind; [by apply ir_type_builtin |]. gpost. gsteps.
Qed.

Lemma nf_conversion_side l r : nf (conversion_side l r).
Proof. unfold conversion_side, rank_of. nofuel. Qed.
#[export] Hint Resolve nf_conversion_side : nofuel.
#[export] Hint Extern 1 (ok _ (convert_type ?t _) _) => eapply convert_ok; eassumption : gen.
#[export] Hint Extern 1 (ok _ (decay ?t) _) => eapply decay_ok; eassumption : gen.
#[export] Hint Extern 1 (ok _ (const_of _ _) _) => eapply const_of_ok; reflexivity : gen.

Lemma do_conversions_ok H s l lb r rb : term_ok H l s -> term_ok H r s ->
  ok s (do_arithmetic_conversions_with_blocks l lb r rb) (fun p s => term_ok H p.1 s /\ term_ok H p.2 s).
Proof.
  intros Hl Hr. unfold do_arithmetic_conversions_with_blocks, PRECONDITION. gsteps.
Qed.
#[export] Hint Extern 1 (ok _ (do_arithmetic_conversions_with_blocks _ _ _ _) _) => eapply do_conversions_ok; eassumption : gen.
Lemma do_conversions_here_ok H s l r : term_ok H l s -> term_ok H r s ->
  ok s (do_arithmetic_conversions l r) (fun p s => term_ok H p.1 s /\ term_ok H p.2 s).
Proof. intros Hl Hr. unfold do_arithmetic_conversions. gsteps. Qed.
#[export] Hint Extern 1 (ok _ (do_arithmetic_conversions _ _) _) => eapply do_conversions_here_ok; eassumption : gen.

(** ** Operators *)

(** What is known of the term of an expression, depending on its context. *)
Definition result_ok (H : Prop) (context : ExprContext) (t : Term) : IrGenContext -> Prop :=
  match context with
  | RVALUE_CONTEXT => term_ok H t
  | LVALUE_CONTEXT => lvalue_ok H t
  | CONST_CONTEXT => valid (t_ctype t)
  end.
#[export] Instance result_ok_persist H x t : Persist (result_ok H x t).
Proof. destruct x; apply _. Qed.

Lemma find_field_spec l name i j t : find_field l name i = Some (j, t) ->
  exists f, l !! (j - i)%nat = Some f /\ cd_type f = t /\ (i <= j)%nat.
Proof.
  revert i. induction l as [|f l IH]; intros i E; [done |]. cbn in E. case_bool_decide.
  - injection E as <- <-. exists f. by rewrite Nat.sub_diag.
  - destruct (IH _ E) as (g & Eg & Et & Hi). exists g. replace (j - i)%nat with (S (j - S i)) by lia. split_and!; [done | done | lia].
Qed.

Lemma of_opt_Ok {A} (o : option A) a : of_opt o = Ok a <-> o = Some a.
Proof. destruct o; cbn; naive_solver. Qed.

(** A struct type of the module. *)
Definition struct_at (k : nat) (ty : IrType) (s : IrGenContext) : Prop := types (module (builder s)) !! k = Some ty.
#[export] Instance struct_at_persist k ty : Persist (struct_at k ty).
Proof. intros s s' [_ [L _]] E. by eapply prefix_lookup_Some. Qed.

Lemma struct_field_ok H s t name x : ok s (ir_gen_struct_field t name x) (result_ok H x).
Proof.
  unfold ir_gen_struct_field, PRECONDITION. gnext _ _. gnext c0 _. gnext p _.
  gnext c [Hc Tc]. destruct c as [| | | |i l k| |]; try (gstep; done).
  gnext k' Ek. apply of_opt_Ok in Ek as ->. gstep. gnext ty Et. apply of_opt_Ok in Et.
  lazymatch type of Et with types (module (builder ?s)) !! _ = _ => change (struct_at k' ty s) in Et end.
  destruct ty as [| | | | | |n f sz nf al]; try (gstep; done).
  destruct (find_field l name 0) as [[j tj]|] eqn:Ef; [| gstep].
  apply find_field_spec in Ef as (cd & Ecd & <- & _). rewrite Nat.sub_0_r in Ecd.
  gnext v Hv. gstep. gnext lf Elf. gnext o Eo. gnext fld Efld. apply of_opt_Ok in Elf, Eo, Efld. subst o.
  destruct Tc as (_ & _ & n' & f' & sz' & nf' & al' & lf' & Et' & Elf' & Hlf).
  unfold struct_at in Et. assert (f' = f) as -> by congruence. assert (lf' = lf) as -> by congruence.
  destruct (Hlf _ _ Eo) as (cd' & Ecd' & Hf). assert (cd' = cd) as -> by congruence. clear Hlf Et Et' Elf Elf'.
  gnext fc [Hfc _]. gstep; [gnext w Hw; gstep; apply andb_true_iff in Heqb as [Hx%bool_decide_eq_true Ha]; subst x |].
  - apply (term_intro H _ _ fc); [done |]. intros _. rewrite Hw. destruct Hf as (c' & Hc' & Hv').
    pose proof (obs_shape _ _ _ _ Hc' Hfc) as S. apply (val_ok_shape c' fc); [done |].
    destruct c'; try done. by destruct fc.
  - do 2 gstep. destruct x; cbn.
    + split; [by eexists | intros _; cbn; by rewrite Hv].
    + apply (term_intro H _ _ fc); [done |]. intros _. rewrite Hv. cbn in Heqb. by destruct fc.
    + by eexists.
Qed.
#[export] Hint Extern 1 (ok _ (ir_gen_struct_field _ _ _) _) => eapply struct_field_ok : gen.

Lemma deref_ok H s t x : term_ok H t s -> ok s (ir_gen_deref t x) (result_ok H x).
Proof.
  intros Ht. unfold ir_gen_deref. gnext p (c & c' & Hc & Hp & Hd). gnext cp [Hcp _].
  destruct cp as [| | | | |e |]; try (gstep; done). gnext pc [Hpc _].
  assert (Ha : H -> is_address (val_type (t_value t))).
  { intros Hh. pose proof (term_ok_obs H t c _ Ht Hc Hh) as V. pose proof (obs_shape _ _ _ _ Hp Hcp) as S.
    destruct c; cbn in *; subst; try done. }
  gsteps.
  - destruct x; cbn; [by split; [eexists |] | | by eexists].
    apply (term_intro H _ _ pc); [done |]. cbn in Heqb. destruct pc; naive_solver.
  - destruct x; cbn in *; [done | | by eexists]. apply (term_intro H _ _ pc); [done |]. intros _. subst.
    eapply ir_of_val; [done | done | by destruct pc].
Qed.
#[export] Hint Extern 1 (ok _ (ir_gen_deref _ _) _) => eapply deref_ok; eassumption : gen.

Lemma int_result H v s : obs int_type (INTEGER_TYPE INT true) s -> val_type v = IR_INT 32 -> term_ok H (mkTerm int_type v) s.
Proof. intros Ho Hv. by eapply term_intro. Qed.

Lemma int_obs_ok {A} s (m : gen A) Q : (obs int_type (INTEGER_TYPE INT true) s -> ok s m Q) -> ok s m Q.
Proof. intros H. apply ok_wf. intros W. apply H. by apply builtin_obs. Qed.

Lemma cmp_ok H s l r c : term_ok H l s -> term_ok H r s -> ok s (ir_gen_cmp l r c) (term_ok H).
Proof.
  intros Hl Hr. unfold ir_gen_cmp, tautology. apply int_obs_ok. intros Hi. gsteps; by apply int_result.
Qed.
#[export] Hint Extern 1 (ok _ (ir_gen_cmp _ _ _) _) => eapply cmp_ok; eassumption : gen.

Lemma same_value H t v s : term_ok H t s -> val_type v = val_type (t_value t) -> term_ok H (mkTerm (t_ctype t) v) s.
Proof. intros (c & Hc & Hv) E. exists c. cbn. by rewrite E. Qed.
Lemma pointer_result H t v p s : obs t (POINTER_TYPE p) s -> val_type v = IR_POINTER -> term_ok H (mkTerm t v) s.
Proof. intros Ho Hv. apply (term_intro H _ _ _ _ Ho). by rewrite Hv. Qed.

Lemma loaded H t ty v c s : obs t c s -> ir_of t ty s -> val_type v = ty -> not_struct c -> term_ok H (mkTerm t v) s.
Proof. intros Hc Ht Hv N. apply (term_intro H _ _ c); [done |]. intros _. rewrite Hv. by eapply ir_of_val. Qed.

Lemma offset_pointer_ok H s op pointer other pt e : obs (t_ctype pointer) (POINTER_TYPE e) s ->
  ok s (offset_pointer op pointer other pt) (term_ok H).
Proof.
  intros Hp. unfold offset_pointer. gsteps. apply (term_intro H _ _ (POINTER_TYPE e)); [done |].
  intros _. eapply built_val; [eassumption | eassumption | done | eassumption].
Qed.

(** A pointer type and what it points to. *)
Lemma pointee_ok c e s : type_ok c s -> pointee c = Ok e -> c = POINTER_TYPE e /\ valid e s.
Proof. intros [T _] E. destruct c; try done. injection E as ->. split; [done |]. by apply Forall_inv in T. Qed.

Lemma nf_pointee c : nf (pointee c).
Proof. unfold pointee. nofuel. Qed.
#[export] Hint Resolve nf_pointee : nofuel.
#[export] Hint Extern 1 (ok _ (offset_pointer _ _ _ _) _) => eapply offset_pointer_ok; eassumption : gen.
Lemma add_ok H s l r : term_ok H l s -> term_ok H r s -> ok s (ir_gen_add l r) (term_ok H).
Proof.
  intros Hl Hr. unfold ir_gen_add. gnext l' Hl'. gnext r' Hr'. gnext lc [Hlc Tlc]. gnext rc [Hrc Trc].
  gnext la _. gnext ra _. gstep.
  { gsteps. by apply same_value. }
  gstep. destruct (is_pointer lc); gnext _ _; gnext e He;
    (eapply pointee_ok in He as [-> Ve]; [| eassumption]); gsteps; by eapply pointer_result.
Qed.
#[export] Hint Extern 1 (ok _ (ir_gen_add _ _) _) => eapply add_ok; eassumption : gen.

Lemma sub_ok H s l r : term_ok H l s -> term_ok H r s -> ok s (ir_gen_sub l r) (term_ok H).
Proof.
  intros Hl Hr. unfold ir_gen_sub. gsteps.
  - by apply same_value.
  - eapply term_intro; [eassumption |]. intros _.
    match goal with E : val_type ?v = val_type ?w |- val_ok _ (val_type ?v) => rewrite E end. by eapply val_ok_eq.
Qed.
#[export] Hint Extern 1 (ok _ (ir_gen_sub _ _) _) => eapply sub_ok; eassumption : gen.

Lemma binary_operator_ok H s l r op : term_ok H l s -> term_ok H r s -> ok s (ir_gen_binary_operator l r op) (term_ok H).
Proof. intros Hl Hr. unfold ir_gen_binary_operator. gsteps. by apply same_value. Qed.
#[export] Hint Extern 1 (ok _ (ir_gen_binary_operator _ _ _) _) => eapply binary_operator_ok; eassumption : gen.

Lemma call_builtin_ok s f l : quiet f -> ok s (call_builtin f l) (fun _ _ => True).
Proof.
  intros Hf. apply (ok_on_builder s _ (fun _ => True)). apply bok_seq; [done |]. intros g.
  eapply bok_conseq; [apply build_call_bok | done].
Qed.
#[export] Hint Extern 1 (ok _ (call_builtin _ _) _) => apply call_builtin_ok; auto with bok : gen.

Definition opt_ok (P : Term -> IrGenContext -> Prop) (o : option Term) (s : IrGenContext) : Prop :=
  match o with Some t => P t s | None => True end.
#[export] Instance opt_ok_persist P o : (forall t, Persist (P t)) -> Persist (opt_ok P o).
Proof. intros HP. destruct o; [apply HP | apply const_persist]. Qed.

Lemma assign_op_ok H s l r op : valid (t_ctype l) s -> term_ok H r s ->
  ok s (ir_gen_assign_op l r op) (fun p s => term_ok H p.1 s /\ opt_ok (term_ok H) p.2 s).
Proof.
  intros Hl Hr. unfold ir_gen_assign_op. gnext c [Hc _]. gstep.
  { gsteps. }
  eapply (ok_bind _ _ _ (fun p s => term_ok H p.1 s /\ opt_ok (term_ok H) p.2 s)).
  - gstep. gnext ty Hty. gnext v Hv.
    pose proof (loaded H _ _ _ _ _ Hc Hty Hv ltac:(by destruct c)).
    gsteps.
  - intros [result pre] s2 _ L [Hr2 Hp]. carry L. cbn in Hr2, Hp. gsteps.
Qed.
#[export] Hint Extern 1 (ok _ (ir_gen_assign_op _ _ _) _) =>
  eapply assign_op_ok; [solve [eauto using term_ok_valid] | eassumption] : gen.

Lemma builtin_ident_ok H s name : ok s (look_up_builtin_ident name) (fun o s => opt_ok (term_ok H) o s /\ (is_Some o -> name = "__builtin_inf"%string)).
Proof.
  unfold look_up_builtin_ident. gsteps.
  - split; [by eapply term_intro | by apply bool_decide_eq_true in Heqb].
Qed.
#[export] Hint Extern 1 (ok _ (look_up_builtin_ident _) _) => eapply builtin_ident_ok : gen.

Lemma va_arg_ok H s l name t c : obs t c s -> not_struct c -> ok s (ir_gen_va_arg l name t) (term_ok H).
Proof. intros Hc N. unfold ir_gen_va_arg. gsteps. by eapply loaded. Qed.

Lemma binding_for_name_in l name b : binding_for_name l name = Some b -> exists sc, sc ∈ l /\ b ∈ sc.
Proof.
  induction l as [|sc l IH]; [done |]. cbn. destruct (find_binding sc name) as [x|] eqn:E.
  - intros [= <-]. exists sc. split; [set_solver |]. unfold find_binding in E.
    destruct (list_find _ sc) as [[i y]|] eqn:F; [| done]. injection E as <-.
    apply list_find_Some in F as [F _]. by apply list_elem_of_lookup_2 in F.
  - intros (sc' & Hsc & Hb)%IH. exists sc'. split; [set_solver | done].
Qed.

Lemma identifier_ok (H : Prop) s name x : (H -> name <> "__builtin_inf"%string) -> ok s (ir_gen_identifier name x) (result_ok H x).
Proof.
  intros Hn. unfold ir_gen_identifier. gnext o [Ho Hs]. destruct o as [t|].
  { gstep. destruct x; cbn; [| done | by eapply term_ok_valid].
    split; [by eapply term_ok_valid | intros Hh; by destruct (Hn Hh (Hs (ex_intro _ t eq_refl)))]. }
  gstep. apply ok_wf. intros W. destruct (binding_for_name _ name) as [b|] eqn:Eb; [| by apply ok_lift].
  apply binding_for_name_in in Eb as (sc & Hsc & Hb). pose proof (wf_scope _ W _ _ Hsc Hb) as Hok. clear W Hsc Hb.
  gnext u Ea. gnext c [Hc _].
  assert (Hv : is_address (val_type (t_value (b_term b))) \/ b_constant b = true).
  { destruct (val_type _); cbn in *; try (destruct (b_constant b); [by right | done]). by left. }
  assert (Hk : b_constant b = true -> val_ok c (val_type (t_value (b_term b)))) by (intros; by eapply term_ok_obs).
  destruct x; [rewrite bool_decide_true by done | rewrite !bool_decide_false by done | rewrite bool_decide_false, bool_decide_true by done].
  - gsteps. split; [by eexists |]. intros _. destruct Hv; [done | congruence].
  - gsteps; [| by eapply term_intro; auto | eapply loaded; [eassumption | eassumption | done | by destruct c]].
    eapply term_intro; [eassumption |]. intros _. destruct Hv as [Hv|Hv]; [by destruct c | by apply Hk].
  - gsteps; by eexists.
Qed.
#[export] Hint Extern 1 (ok _ (ir_gen_identifier _ _) _) => eapply identifier_ok; eassumption : gen.

Lemma string_literal_ok H s l : ok s (ir_gen_string_literal l) (term_ok H).
Proof.
  apply ok_wf. intros W. assert (V : valid char_type s) by (eapply obs_valid, builtin_obs; done). clear W.
  unfold ir_gen_string_literal. gsteps.
  by eapply term_intro.
Qed.
#[export] Hint Extern 1 (ok _ (ir_gen_string_literal _) _) => eapply string_literal_ok : gen.
