(* ===== verification/DeclSound.v ===== *)
(** * Declarations, constants and initialisers keep the state well formed

    [calls_ok n rec] states what the mutually recursive functions of IR generation
    promise to each other for syntax of less than [n] nodes; the functions of
    [Calls.v], [Decl.v] and [Initializer.v] are proved against it. *)

From S2P Require Import Prelude Ast Ir CType Context Convert Calls Initializer Decl Expr IrGen GenLogic ExprSound.

Local Open Scope Z_scope.

(** ** The contract of the recursion *)

(** Is the value of the expression known to have the IR type of its C type? Not
    that of [~e], which is given type int whatever the operand; not what is built
    on the address of [__builtin_inf], which is a constant. *)
Fixpoint typed (e : ASTExpr) : bool :=
  match e with
  | IDENTIFIER_EXPR name => negb (String.eqb name "__builtin_inf")
  | BIT_NOT_EXPR _ => false
  | ADDRESS_OF_EXPR a | DEREF_EXPR a | UNARY_MINUS_EXPR a | CAST_EXPR _ a => typed a
  | INDEX_EXPR a b | MULTIPLY_EXPR a b | DIVIDE_EXPR a b | MODULO_EXPR a b | ADD_EXPR a b | MINUS_EXPR a b
  | LEFT_SHIFT_EXPR a b | RIGHT_SHIFT_EXPR a b | BIT_AND_EXPR a b | BIT_XOR_EXPR a b | BIT_OR_EXPR a b
  | CONDITIONAL_EXPR _ a b => typed a && typed b
  | ASSIGN_EXPR _ b | MULTIPLY_ASSIGN_EXPR _ b | DIVIDE_ASSIGN_EXPR _ b | ADD_ASSIGN_EXPR _ b
  | MINUS_ASSIGN_EXPR _ b | LEFT_SHIFT_ASSIGN_EXPR _ b | RIGHT_SHIFT_ASSIGN_EXPR _ b | BIT_AND_ASSIGN_EXPR _ b
  | BIT_XOR_ASSIGN_EXPR _ b | BIT_OR_ASSIGN_EXPR _ b | COMMA_EXPR _ b => typed b
  | _ => true
  end.

Record calls_ok (n : nat) (rec : calls) : Prop := {
  c_expr s e x : (expr_size e < n)%nat -> ok s (r_expr rec e x) (result_ok (typed e = true) x);
  c_specifiers s l : (specifiers_size l < n)%nat -> ok s (r_specifiers rec l) valid;
  c_declarator s t d : valid t s -> (opt_size declarator_size d < n)%nat ->
    ok s (r_declarator rec t d) (fun r => valid (cd_type r));
  c_direct s t d : valid t s -> (direct_size d < n)%nat -> ok s (r_direct rec t d) (fun r => valid (cd_type r));
  c_init s t i const c : (initializer_size i < n)%nat -> ok s (r_init rec t i const c) (fun _ _ => True)
}.

(** Compares sizes of syntax. *)
Ltac size := solve [unfold specifiers_size, opt_size in *; cbn in *; lia].
#[export] Hint Extern 1 (ok _ (r_expr _ _ _) _) => eapply c_expr; [eassumption | size] : gen.
#[export] Hint Extern 1 (ok _ (expr_r _ _) _) => eapply c_expr; [eassumption | size] : gen.
#[export] Hint Extern 1 (ok _ (r_specifiers _ _) _) => eapply c_specifiers; [eassumption | size] : gen.
#[export] Hint Extern 1 (ok _ (r_declarator _ _ _) _) => eapply c_declarator; [eassumption | eassumption | size] : gen.
#[export] Hint Extern 1 (ok _ (r_direct _ _ _) _) => eapply c_direct; [eassumption | eassumption | size] : gen.
#[export] Hint Extern 1 (ok _ (r_init _ _ _ _ _) _) => eapply c_init; [eassumption | size] : gen.

(** ** Constants and type names *)

Lemma num_blocks_ok s : ok s num_blocks (fun _ _ => True).
Proof. unfold num_blocks. gsteps. Qed.
Lemma num_instrs_ok s : ok s num_instrs (fun _ _ => True).
Proof. unfold num_instrs. gsteps. Qed.
Lemma const_at_ok s k : ok s (const_at k) (fun _ _ => True).
Proof. unfold const_at. gsteps. Qed.
#[export] Hint Resolve num_blocks_ok num_instrs_ok const_at_ok : gen.

Lemma eval_constant_expr_ok n rec s e : calls_ok n rec -> (expr_size e < n)%nat -> ok s (eval_constant_expr rec e) (fun _ _ => True).
Proof. intros R He. unfold eval_constant_expr. gsteps. Qed.
#[export] Hint Extern 1 (ok _ (eval_constant_expr _ _) _) => eapply eval_constant_expr_ok; [eassumption | size] : gen.
Lemma int_const_ok n rec s e : calls_ok n rec -> (expr_size e < n)%nat -> ok s (int_const rec e) (fun _ _ => True).
Proof. intros R He. unfold int_const. gsteps. Qed.
#[export] Hint Extern 1 (ok _ (int_const _ _) _) => eapply int_const_ok; [eassumption | size] : gen.
Lemma type_name_ok n rec s t : calls_ok n rec -> (type_name_size t < n)%nat -> ok s (type_name_to_c_type rec t) valid.
Proof. intros R Ht. destruct t as [l d]. cbn in Ht. unfold type_name_to_c_type. gsteps. Qed.
#[export] Hint Extern 1 (ok _ (type_name_to_c_type _ _) _) => eapply type_name_ok; [eassumption | size] : gen.

(** ** Structs, unions and enums *)

Lemma add_field_ok s type f : valid (cd_type f) s -> ok s (add_field type f) (fun _ _ => True).
Proof.
  intros Hf. unfold add_field. apply ok_types_bind.
  eapply ok_bind; [by apply (ok_types_get s (fun te s' => te = type_env s /\ s' = s)) |]. intros te s1 _ _ [-> ->].
  apply ok_types_bind. eapply ok_bind.
  - apply (ok_types_lift s _ (fun c s' => s' = s /\ ctypes (type_env s) !! type = Some c)); [nofuel |].
    by intros c E%ctype_Ok.
  - intros c s1 W _ [-> E]. destruct c as [| | | |i l k| |]; try by apply ok_types_lift.
    eapply set_ctype_ok; [exact E | done | done | | done].
    destruct (wf_types s W _ _ E) as (_ & Hl & Hk). split; [by constructor |]. split.
    + apply Forall_app. by split; [| constructor].
    + destruct k as [k|]; [| done]. destruct Hk as (nm & fl & sz & nf & al & lf & E1 & E2 & H).
      exists nm, fl, sz, nf, al, lf. split_and!; [done | done |]. intros j x Hx.
      destruct (H j x Hx) as (cd & Ecd & Hcd). exists cd. split; [by apply lookup_app_l_Some | done].
Qed.
#[export] Hint Extern 1 (ok _ (add_field _ _) _) => eapply add_field_ok; eassumption : gen.

(** The layout reads the types of the fields. *)
Lemma layout_fields_reads u p fields lay s : wf s ->
  match layout_fields u p fields lay s with
  | Ok (lay', s') => s' = s /\ exists l, lay_fields lay' = lay_fields lay ++ l /\
      Forall2 (fun f x => ir_of (cd_type f) (field_type x) s) fields l
  | Stop e => e <> NoFuel
  end.
Proof.
  intros W. revert lay. induction fields as [|f fields IH]; intros lay; cbn.
  { split; [done |]. exists []. by rewrite app_nil_r. }
  unfold mbind, st_bind. pose proof (ir_type_of_ok s (cd_type f) W) as Hi.
  destruct (ir_type_of (cd_type f) s) as [[ty s']|] eqn:E; [| done].
  assert (s' = s) as ->.
  { revert E. unfold ir_type_of, ask_ir, mbind, st_bind, get, lift. destruct (c_type_to_ir_type _ _ _); [by intros [= _ <-] | done]. }
  destruct Hi as (_ & _ & _ & Hi). unfold lift.
  assert (N : nf (layout_field u p lay ty)) by (unfold layout_field; nofuel).
  destruct (layout_field u p lay ty) as [lay1|e] eqn:El; [| intros ->; by apply N].
  specialize (IH lay1). destruct (layout_fields u p fields lay1 s) as [[lay' s'']|]; [| done].
  destruct IH as (-> & l & El' & Hl). split; [done |].
  assert (exists x, lay_fields lay1 = lay_fields lay ++ [x] /\ field_type x = ty) as (x & Ex & Tx).
  { revert El. unfold layout_field. destruct (size_of_ir_type ty) as [sz|]; [| done].
    destruct (align_of_ir_type ty) as [al|]; [| done]. destruct u; cbn; intros [= <-]; by eexists. }
  exists (x :: l). rewrite El', Ex, <- app_assoc. split; [done |]. constructor; [by rewrite Tx | done].
Qed.

Definition with_module (s : IrGenContext) (m : IrModule) : IrGenContext :=
  set_builder s (mkBuilder m (current_function (builder s)) (current_block (builder s))).
Lemma on_module_run {A} s (f : st IrModule A) :
  on_builder (on_module f) s =
  match f (module (builder s)) with Ok (a, m) => Ok (a, with_module s m) | Stop e => Stop e end.
Proof. unfold on_builder, on_module, zoom. by destruct (f _) as [[a m]|]. Qed.

Lemma add_struct_run name num_fields m : exists n, ir_module_add_struct name num_fields m =
  Ok (length (types m), set_types (set_struct_fields m (struct_fields m ++ [replicate (Z.to_nat num_fields) None]))
     (types m ++ [IR_STRUCT n (length (struct_fields m)) 0 (u16 num_fields) None])).
Proof. unfold ir_module_add_struct. eexists. reflexivity. Qed.

Lemma complete_struct_ok s type name u p : ok s (complete_struct type name u p) (fun _ _ => True).
Proof.
  unfold complete_struct, kind. apply ok_ask_bind; [nofuel |]. intros c Ec%ctype_Ok W.
  destruct c as [| | | |i fields k0| |]; try done.
  destruct (wf_types s W _ _ Ec) as (_ & Hl & _). set (m := module (builder s)).
  destruct (add_struct_run name (Z.of_nat (length fields)) m) as [nm En].
  unfold mbind, st_bind. rewrite on_module_run. fold m. rewrite En. clear En.
  match goal with |- context [with_module s ?x] => set (m1 := x) end.
  destruct (wf_set_builder s (builder (with_module s m1)) W) as [W1 _]; [split; by eexists |].
  change (set_builder s (builder (with_module s m1))) with (with_module s m1) in W1.
  pose proof (layout_fields_reads u p fields (mkLayout [] 0 0 0) _ W1) as H.
  destruct (layout_fields u p fields (mkLayout [] 0 0 0) (with_module s m1)) as [[lay s1']|]; [| done].
  destruct H as (-> & l & El & Hf). cbn in El. subst l. rewrite on_module_run. cbn -[u16 u8].
  rewrite list_lookup_middle by done. cbn -[u16 u8]. rewrite !insert_app_r_alt, !Nat.sub_diag by lia. cbn -[u16 u8].
  match goal with |- context [with_module (with_module s m1) ?x] => set (m2 := x) end.
  change (with_module (with_module s m1) m2) with (with_module s m2). clearbody m1.
  destruct (wf_set_builder s (builder (with_module s m2)) W) as [W2 L2]; [split; by eexists |].
  change (set_builder s (builder (with_module s m2))) with (with_module s m2) in W2, L2.
  assert (T : type_ok (STRUCT_TYPE false fields (Some (length (types m)))) (with_module s m2)).
  { split; [by constructor |]. split; [done |].
    exists nm, (length (struct_fields m)), (layout_size u p lay), (u16 (Z.of_nat (length fields))), (Some (u8 (layout_align p lay))), (Some <$> lay_fields lay).
    split_and!; [by apply list_lookup_middle | by apply list_lookup_middle |].
    intros j x Hx. rewrite list_lookup_fmap in Hx. destruct (lay_fields lay !! j) as [y|] eqn:Ey; [| done]. injection Hx as ->.
    destruct (Forall2_lookup_r _ _ _ _ _ Hf Ey) as (cd & Ecd & c & Hc & Hv). exists cd. split; [done |].
    exists c. split; [done |]. destruct c; try done; by apply Hv. }
  pose proof (set_ctype_ok (with_module s m2) type _ (STRUCT_TYPE false fields (Some (length (types m)))) (fun _ _ => True) Ec I eq_refl T (fun _ _ => I) W2) as H.
  unfold on_types, zoom in H. cbn in H. destruct H as (H1 & H2 & H3 & _).
  split_and!; [done | by etransitivity | | done]. destruct H3. constructor; done.
Qed.
#[export] Hint Resolve complete_struct_ok : gen.

Lemma add_declarators_ok n rec s type t l : calls_ok n rec -> (sum_list_with field_declarator_size l <= n)%nat -> valid t s ->
  ok s (add_declarators rec type t l) (fun _ _ => True).
Proof.
  intros R. revert s. induction l as [|[d w|d] l IH]; intros s Hl Ht; cbn in *; gsteps. apply IH; [lia | done].
Qed.
#[export] Hint Extern 1 (ok _ (add_declarators _ _ _ _) _) => eapply add_declarators_ok; [eassumption | size | eassumption] : gen.

Lemma add_field_decls_ok n rec s type l : calls_ok n rec -> (sum_list_with field_decl_size l <= n)%nat ->
  ok s (add_field_decls rec type l) (fun _ _ => True).
Proof.
  intros R. revert s. induction l as [|[specs ds] l IH]; intros s Hl; cbn in *; gsteps. apply IH; lia.
Qed.
#[export] Hint Extern 1 (ok _ (add_field_decls _ _ _) _) => eapply add_field_decls_ok; [eassumption | size] : gen.

Lemma search_in l name t : search l name = Some t -> (name, t) ∈ l.
Proof.
  induction l as [|[n u] l IH]; [done |]. cbn. destruct (String.eqb_spec n name) as [->|].
  - intros [= ->]. left.
  - intros H. right. by apply IH.
Qed.

Lemma struct_or_union_ok n rec s u name l attr : calls_ok n rec -> (sum_list_with field_decl_size l <= n)%nat ->
  ok s (struct_or_union_specifier rec u name l attr) valid.
Proof.
  intros R Hl. unfold struct_or_union_specifier. apply ok_wf. intros W. gstep.
  set (e := match name with Some n0 => search (struct_types (type_env s)) n0 | None => None end).
  assert (He : forall t, e = Some t -> valid t s).
  { intros t E. destruct name as [nm|]; [| done]. apply search_in in E. apply (wf_entries s W nm). set_solver. }
  clearbody e. clear W. destruct l as [|f l].
  - destruct e as [t|]; [gstep; by apply He | gstep].
  - eapply (ok_bind _ _ _ (fun t s => valid t s)).
    + destruct e as [t|]; [specialize (He t eq_refl); gsteps | gsteps].
    + clear He. gpost. gsteps.
Qed.

Lemma enumerators_ok n rec s l x : calls_ok n rec -> (sum_list_with enumerator_size l <= n)%nat ->
  ok s (add_enumerators rec l x) (fun _ _ => True).
Proof.
  intros R. revert s x. induction l as [|[name [v|]] l IH]; intros s x Hl; cbn in Hl |- *; gsteps;
    (eapply ok_bind; [apply add_binding_ok; by eapply term_intro | gpost; apply IH; lia]).
Qed.
#[export] Hint Extern 1 (ok _ (add_enumerators _ _ _) _) => eapply enumerators_ok; [eassumption | size] : gen.

(** A copy of a type object with a name. *)
Lemma named_copy_ok s t (f : nat -> TypeEnv -> TypeEnv) :
  (forall t te, ctypes (f t te) = ctypes te /\ ir_types (f t te) = ir_types te /\
     forall n u, (n, u) ∈ struct_types (f t te) ++ enum_types (f t te) ++ typedef_types (f t te) ->
       (n, u) ∈ struct_types te ++ enum_types te ++ typedef_types te \/ u = t) ->
  ok s (on_types (te ← get; c ← lift (ctype te t); t ← new_ctype c; modify (f t))) (fun _ _ => True).
Proof.
  intros Hf. apply ok_types_bind.
  eapply ok_bind; [by apply (ok_types_get s (fun te s' => te = type_env s /\ s' = s)) |]. intros te s1 _ _ [-> ->].
  apply ok_types_bind. eapply ok_bind.
  - apply (ok_types_lift s _ (fun c s' => s' = s /\ ctypes (type_env s) !! t = Some c)); [nofuel |].
    by intros c E%ctype_Ok.
  - intros c s1 W _ [-> E]. apply ok_types_bind. eapply ok_bind; [apply new_ctype_ok; by eapply wf_types |].
    intros u s1 _ _ Ho. apply (add_entry_ok _ _ u); [exact (obs_valid _ _ _ Ho) | apply Hf | done].
Qed.

Lemma valid_int s : wf s -> valid int_type s.
Proof. intros W. by eapply obs_valid, builtin_obs. Qed.

Lemma enum_specifier_ok n rec s tag l : calls_ok n rec -> (sum_list_with enumerator_size l <= n)%nat ->
  ok s (enum_specifier rec tag l) valid.
Proof.
  intros R Hl. unfold enum_specifier. apply ok_wf. intros W. gstep. pose proof (valid_int s W) as Vi.
  set (e := match tag with Some n0 => search (enum_types (type_env s)) n0 | None => None end).
  assert (He : forall t, e = Some t -> valid t s).
  { intros t E. destruct tag as [nm|]; [| done]. apply search_in in E. apply (wf_entries s W nm). set_solver. }
  clearbody e. clear W. destruct l as [|x l].
  - destruct tag; [destruct e; gstep; by apply He | gstep].
  - destruct e; [gstep |]. clear He. destruct tag as [nm|]; [| gsteps].
    eapply ok_bind; [apply named_copy_ok | gpost; gsteps]. intros t te. split_and!; [done | done |]. cbn.
    intros n0 u Hu. rewrite !elem_of_app, list_elem_of_singleton in *. naive_solver.
Qed.

Lemma named_type_ok s l : ok s (ask (fun te => named_type_specifier_to_ctype te l)) valid.
Proof.
  apply ok_wf. intros W. apply ok_ask; [apply nf_named |]. intros t E. unfold named_type_specifier_to_ctype in E.
  destruct l as [|[|[name| | |]| |] l]; try done.
  destruct (first_sequence type_sequences _) as [[u|]|] eqn:F; [| | done]; cbn in E.
  - injection E as ->. enough (exists c, builtin_ctypes !! t = Some c) as [c Hc] by (by eapply obs_valid, builtin_obs).
    clear -F. assert (H : Forall (fun p => is_Some (builtin_ctypes !! p.2)) type_sequences) by (repeat constructor; cbn; eauto).
    revert F H. generalize type_sequences as seqs. induction seqs as [|[ns u] seqs IH]; [done |].
    cbn [first_sequence]. intros F [Hu H]%Forall_cons. destruct (matches_sequence _ ns) as [[]|]; [| | done]; cbn in F.
    + injection F as ->. exact Hu.
    + by apply IH.
  - destruct (search (typedef_types (type_env s)) name) as [u|] eqn:Es; [| done]. injection E as ->.
    apply search_in in Es. apply (wf_entries s W name). set_solver.
Qed.
#[export] Hint Resolve named_type_ok : gen.
#[export] Hint Extern 1 (ok _ (struct_or_union_specifier _ _ _ _ _) _) => eapply struct_or_union_ok; [eassumption | size] : gen.
#[export] Hint Extern 1 (ok _ (enum_specifier _ _ _) _) => eapply enum_specifier_ok; [eassumption | size] : gen.

Lemma skip_qualifiers_size l : (specifiers_size (skip_qualifiers l) <= specifiers_size l)%nat.
Proof. induction l as [|[] l IH]; try done. unfold specifiers_size in *. cbn. lia. Qed.

Lemma specifiers_ok n rec s l : calls_ok n rec -> (specifiers_size l <= n)%nat -> ok s (decl_specifier_list_to_c_type rec l) valid.
Proof.
  intros R Hl. unfold decl_specifier_list_to_c_type. pose proof (skip_qualifiers_size l) as Hs.
  destruct (skip_qualifiers l) as [|[|t| |] l']; try (by gstep). unfold specifiers_size in *. cbn in Hs.
  destruct t; cbn in Hs; [apply named_type_ok | gsteps..].
Qed.

(** ** Declarators *)

Lemma decl_to_cdecl_ok n rec s t d : calls_ok n rec -> valid t s -> (opt_size declarator_size d <= n)%nat ->
  ok s (decl_to_cdecl rec t d) (fun r => valid (cd_type r)).
Proof.
  intros R Ht Hd. unfold decl_to_cdecl. destruct d as [[p|d]|]; cbn in Hd; [| gsteps..].
  gstep. assert (valid a s') by by eapply obs_valid. gsteps.
Qed.

Lemma ellipsis_ok s l : ok s (ellipsis l) (fun _ _ => True).
Proof. revert s. induction l as [|[specs d|] l IH]; intros s; cbn; [gsteps | apply IH | destruct l; gsteps]. Qed.
#[export] Hint Resolve ellipsis_ok : gen.

Definition all_valid (l : list nat) (s : IrGenContext) : Prop := Forall (fun t => valid t s) l.
#[export] Instance all_valid_persist l : Persist (all_valid l).
Proof. intros s s' L H. eapply Forall_impl; [exact H |]. intros t. by apply valid_persist. Qed.

Lemma param_types_ok n rec s l i : calls_ok n rec -> (sum_list_with param_size l <= n)%nat ->
  ok s (param_types rec l i) all_valid.
Proof.
  intros R. revert s i. induction l as [|[specs d|] l IH]; intros s i Hl; cbn in Hl |- *; [apply ok_ret; by constructor | | apply IH; lia].
  gnext t Ht. gnext cd Hcd. gnext c [Hc _].
  eapply (ok_bind _ _ _ (fun _ _ => True)); [gsteps | gpost].
  gnext p (c1 & c2 & _ & Hp%obs_valid & _).
  eapply (ok_bind _ _ _ all_valid); [apply IH; lia | intros l1 s1 _ L Hl1; carry L].
  apply ok_ret. by constructor.
Qed.

Lemma direct_declarator_ok n rec s t d : calls_ok n rec -> valid t s -> (direct_size d <= n)%nat ->
  ok s (direct_declarator_to_cdecl rec t d) (fun r => valid (cd_type r)).
Proof.
  intros R Ht Hd. unfold direct_declarator_to_cdecl. destruct d as [d|name|d e|d l]; cbn in Hd.
  - gsteps.
  - gsteps.
  - gnext cd Hcd. gnext a (i & sz & k & Ha%obs_valid). gsteps.
  - gstep. eapply (ok_bind _ _ _ all_valid); [eapply param_types_ok; [done | lia] |].
    intros l1 s1 _ L Hl1. carry L.
    eapply (ok_bind _ _ _ all_valid).
    + gsteps; by constructor.
    + clear Hl1. intros l2 s2 _ L Hl2. carry L.
      eapply ok_bind; [apply new_ctype_ok; split; [by constructor | done] | intros f s3 _ L Hf%obs_valid; carry L]. gsteps.
Qed.

(** ** Globals and locals *)

Lemma map_gen_ok {A B} (f : A -> gen B) s l : (forall s x, ok s (f x) (fun _ _ => True)) -> ok s (map_gen f l) (fun _ _ => True).
Proof.
  intros Hf. revert s. induction l as [|x l IH]; intros s; cbn; [gsteps |].
  eapply ok_bind; [apply Hf | gpost]. eapply ok_bind; [apply IH | gpost]. gsteps.
Qed.

(** ** Building initialisers *)

Lemma nf_sub_elem c i : nf (sub_elem c i).
Proof. unfold sub_elem, sub_elems_of. nofuel. Qed.
Lemma nf_set_sub_elem c i x : nf (set_sub_elem c i x).
Proof. unfold set_sub_elem, sub_elems_of. nofuel. Qed.
#[export] Hint Resolve nf_sub_elem nf_set_sub_elem : nofuel.

Lemma max_index_ok n rec s l i m : calls_ok n rec -> (sum_list_with element_size l <= n)%nat ->
  ok s (max_index rec l i m) (fun _ _ => True).
Proof.
  intros R. revert s i m. induction l as [|[ds init] l IH]; intros s i m Hl; cbn in Hl |- *; [gsteps |].
  eapply (ok_bind _ _ _ (fun _ _ => True)); [| gpost; apply IH; lia].
  destruct ds as [|[e|f] ds]; cbn in Hl; gsteps.
Qed.
#[export] Hint Extern 1 (ok _ (max_index _ _ _ _) _) => eapply max_index_ok; [eassumption | size] : gen.

Lemma infer_ok n rec s init t : calls_ok n rec -> (opt_size initializer_size init <= n)%nat ->
  ok s (infer_array_size_from_initializer rec init t) (fun _ _ => True).
Proof.
  intros R Hi. unfold infer_array_size_from_initializer. gnext c _.
  destruct c as [| | | | | |e [] k i]; try gstep. destruct init as [init|]; [| gstep].
  destruct init as [e0|l]; cbn in Hi; gsteps.
Qed.
#[export] Hint Extern 1 (ok _ (infer_array_size_from_initializer _ _ _) _) => eapply infer_ok; [eassumption | size] : gen.

Lemma zeroed_elems_ok s t : ok s (zeroed_elems t) (fun _ _ => True).
Proof. unfold zeroed_elems. gsteps. Qed.
#[export] Hint Resolve zeroed_elems_ok : gen.

Lemma const_leaf_ok n rec s t e : calls_ok n rec -> (expr_size e < n)%nat -> ok s (const_leaf rec t e) (fun _ _ => True).
Proof. intros R He. unfold const_leaf. gsteps. Qed.
#[export] Hint Extern 1 (ok _ (const_leaf _ _ _) _) => eapply const_leaf_ok; [eassumption | size] : gen.

Lemma select_ok n rec s c d : calls_ok n rec -> (designator_size d <= n)%nat -> ok s (select rec c d) (fun _ _ => True).
Proof. intros R Hd. unfold select. destruct d; cbn in Hd; gsteps. Qed.
#[export] Hint Extern 1 (ok _ (select _ _ _) _) => eapply select_ok; [eassumption | size] : gen.

Lemma enter_ok s e t : ok s (enter e t) (fun _ _ => True).
Proof. unfold enter. gsteps. Qed.
Lemma elem_type_of_ok s c i : ok s (elem_type_of c i) (fun _ _ => True).
Proof. unfold elem_type_of. gsteps. Qed.
#[export] Hint Resolve enter_ok elem_type_of_ok : gen.

Lemma init_elem_ok n rec s const init c i : calls_ok n rec -> (initializer_size init < n)%nat ->
  ok s (init_elem rec const init c i) (fun _ _ => True).
Proof. intros R Hi. unfold init_elem. gsteps. Qed.
#[export] Hint Extern 1 (ok _ (init_elem _ _ _ _ _) _) => eapply init_elem_ok; [eassumption | size] : gen.

Lemma designate_ok n rec s const init ds c i : calls_ok n rec ->
  (initializer_size init < n)%nat -> (sum_list_with designator_size ds <= n)%nat ->
  ok s (designate rec const init ds c i) (fun _ _ => True).
Proof.
  intros R Hi. revert s c i. induction ds as [|d ds IH]; intros s c i Hd; cbn in Hd |- *; [gsteps |].
  gstep. gnext k _. eapply (ok_bind _ _ _ (fun _ _ => True)); [gsteps | intros [t j] s1 _ L _; carry L].
  gstep. gnext e _. gstep. destruct ds as [|d' ds]; [gsteps |].
  eapply (ok_bind _ _ _ (fun _ _ => True)); [apply IH; lia | intros [e' j'] s2 _ L _; carry L]. gsteps.
Qed.

Lemma init_elems_ok n rec s const l c i : calls_ok n rec -> (sum_list_with element_size l <= n)%nat ->
  ok s (init_elems rec const l c i) (fun _ _ => True).
Proof.
  intros R. revert s c i. induction l as [|[ds init] l IH]; intros s c i Hl; cbn in Hl |- *; [gsteps |].
  eapply (ok_bind _ _ _ (fun _ _ => True)); [eapply designate_ok; [done | lia..] | intros [c' i'] s1 _ L _; carry L].
  apply IH. lia.
Qed.
#[export] Hint Extern 1 (ok _ (init_elems _ _ _ _ _) _) => eapply init_elems_ok; [eassumption | size] : gen.

(** Only aggregates take a list of initialisers. *)
Definition brace_type (init : ASTInitializer) (t : nat) (s : IrGenContext) : Prop :=
  match init with BRACE_INITIALIZER _ => exists c, obs t c s /\ is_aggregate c = true | EXPR_INITIALIZER _ => True end.
#[export] Instance brace_type_persist init t : Persist (brace_type init t).
Proof. destruct init; [by intros s s' _ |]. intros s s' L (c & Hc & Ha). exists c. split; [by eapply persist | done]. Qed.

Lemma make_c_initializer_ok n rec s t init const c : calls_ok n rec -> (initializer_size init <= n)%nat ->
  ok s (make_c_initializer rec t init const c) (fun _ => brace_type init t).
Proof.
  intros R Hi. unfold make_c_initializer. gnext k [Hk _]. destruct init as [e|l]; cbn in Hi.
  - assert (G : forall s, ok s
      (if const then u ← const_leaf rec t e; mret (mkCInit (Some t) true u)
       else
         term ← r_expr rec e RVALUE_CONTEXT;
         term ← convert_type term t;
         mret (mkCInit (Some t) true (LEAF_VALUE (t_value term)))) (fun _ => brace_type (EXPR_INITIALIZER e) t)).
    { intros s1. destruct const; gsteps. }
    destruct k; try apply G. destruct e; try apply G. gsteps.
  - destruct (is_aggregate k) eqn:Ea; cbn; [| by gstep].
    gnext z _. eapply ok_tail; [solve [eauto 2 with gen] |]. intros r s1 L _. carry L. by exists k.
Qed.
#[export] Hint Extern 1 (ok _ (make_c_initializer _ _ _ _ _) _) => eapply make_c_initializer_ok; [eassumption | size] : gen.

(** ** Generating initialisers *)

Lemma ci_depth_pos c : (1 <= ci_depth c)%nat.
Proof. destruct c as [t b []]; cbn; lia. Qed.
Lemma sub_elem_depth c i e : sub_elem c i = Ok e -> (ci_depth e < ci_depth c)%nat.
Proof.
  unfold sub_elem, sub_elems_of. destruct c as [t b [|l| |]]; cbn [ci_u]; try done. cbn [mbind res_bind].
  unfold ref. destruct (i <? 0); [done |]. intros H%of_opt_Ok%list_elem_of_lookup_2. cbn. clear -H.
  induction H as [|x l y H IH]; cbn; lia.
Qed.

Lemma all_elems_ok s test l : (forall s i, ok s (test i) (fun _ _ => True)) -> ok s (all_elems test l) (fun _ _ => True).
Proof.
  intros Ht. revert s. induction l as [|i l IH]; intros s; cbn; [gsteps |].
  eapply ok_bind; [apply Ht | gpost]. destruct a; [apply IH | gsteps].
Qed.
Lemma for_each_ok s n body : (forall s i, ok s (body i) (fun _ _ => True)) -> ok s (for_each n body) (fun _ _ => True).
Proof.
  intros Hb. unfold for_each. revert s. generalize 0%nat as k. induction n as [|n IH]; intros k s; cbn; [gsteps |].
  eapply ok_bind; [apply Hb | gpost]. apply IH.
Qed.

Lemma is_full_ok fuel s c : (ci_depth c <= fuel)%nat -> ok s (is_full_initializer fuel c) (fun _ _ => True).
Proof.
  revert s c. induction fuel as [|fuel IH]; intros s c Hf; [pose proof (ci_depth_pos c); lia |]. cbn.
  destruct (ci_type c) as [t|]; [| gsteps]. gstep. gnext k _.
  eapply (ok_bind _ _ _ (fun _ _ => True)); [gsteps | gpost]. apply all_elems_ok. intros s2 i.
  gnext e He. apply IH. pose proof (sub_elem_depth _ _ _ He). lia.
Qed.

Lemma c_init_ok fuel s base c off : (ci_depth c <= fuel)%nat -> ok s (ir_gen_c_init fuel base c off) (fun _ _ => True).
Proof.
  revert s c off. induction fuel as [|fuel IH]; intros s c off Hf; [pose proof (ci_depth_pos c); lia |]. cbn.
  destruct (ci_type c) as [t|]; [| gsteps]. gnext k _. gnext ty _.
  assert (G : forall s e i off, sub_elem c i = Ok e -> ok s (ir_gen_c_init fuel base e off) (fun _ _ => True)).
  { intros s2 e i off' He. apply IH. pose proof (sub_elem_depth _ _ _ He). lia. }
  destruct k; try (gsteps; fail).
  - gstep; [gsteps |]. gstep. gstep. gstep. gstep. apply for_each_ok. intros s2 i. gnext f _. gnext x _. gnext e He. by eapply G.
  - gstep. gstep. gstep. gstep. apply for_each_ok. intros s2 i. gnext e He. by eapply G.
Qed.

Lemma ir_gen_initializer_ok n rec s t init : calls_ok n rec -> (initializer_size init <= n)%nat ->
  ok s (ir_gen_initializer rec t init) (fun _ => brace_type init (t_ctype t)).
Proof.
  intros R Hi. unfold ir_gen_initializer. gnext c Hc.
  eapply ok_bind; [by apply is_full_ok | intros full s1 _ L _; carry L].
  eapply (ok_bind _ _ _ (fun _ _ => True)); [gsteps | intros [] s2 _ L _; carry L]. gnext ty _. gnext base _.
  eapply ok_tail; [by apply c_init_ok |]. intros [] s3 L _. by carry L.
Qed.
#[export] Hint Extern 1 (ok _ (ir_gen_initializer _ _ _) _) => eapply ir_gen_initializer_ok; [eassumption | size] : gen.

Lemma cdecl_to_binding_ok s cd : valid (cd_type cd) s -> ok s (cdecl_to_binding cd)
  (fun b s => binding_ok b s /\ b_constant b = false /\ b_name b = cd_name cd /\ t_ctype (b_term b) = cd_type cd).
Proof.
  intros [c Hc]. unfold cdecl_to_binding. gsteps. split_and!; [| done..]. by eapply term_intro.
Qed.
#[export] Hint Extern 1 (ok _ (cdecl_to_binding _) _) => eapply cdecl_to_binding_ok; eassumption : gen.

Lemma global_for_decl_ok n rec s l d init (P : nat -> IrGenContext -> Prop) : (forall t, Persist (P t)) -> calls_ok n rec ->
  (specifiers_size l < n)%nat -> (forall s t, valid t s -> ok s (r_declarator rec t (Some d)) (fun r => P (cd_type r))) ->
  (opt_size initializer_size init <= n)%nat ->
  ok s (ir_global_for_decl rec l d init) (fun p => P p.2).
Proof.
  intros HP R Hl Hd Hi. unfold ir_global_for_decl. gnext t Ht.
  eapply ok_bind; [by apply Hd | intros cd s1 _ L Hcd; carry L]. gnext u _. gnext c _.
  destruct c as [| | |ret args va| | |]; try (gsteps; fail).
  gstep. gnext rc _.
  eapply (ok_bind _ _ _ (fun _ _ => True)); [| gpost; gsteps].
  apply map_gen_ok. intros s2 x. gsteps.
Qed.
