(* ===== verification/GenSound.v ===== *)
(** * Expressions and statements keep the state well formed

    The functions of [Expr.v] and [Statement.v] are proved against the contract
    [calls_ok] of [DeclSound.v]; [calls_at n] satisfies it for syntax of less than
    [n] nodes. *)

From S2P Require Import Prelude Ast Ir CType Context Convert Calls Initializer Decl Expr Statement IrGen.
From S2P Require Import GenLogic ExprSound DeclSound.

Local Open Scope Z_scope.

(** ** Expressions *)

Lemma result_value H x t s : x <> LVALUE_CONTEXT -> term_ok H t s -> result_ok H x t s.
Proof. intros N Ht. destruct x; [done | done | by eapply term_ok_valid]. Qed.

Lemma call_args_ok n rec s args tys : calls_ok n rec -> (sum_list_with expr_size args < n)%nat ->
  ok s (call_args rec args tys) (fun _ _ => True).
Proof.
  intros R. revert s tys. induction args as [|a args IH]; intros s tys Ha; cbn in Ha |- *; [gsteps |].
  gnext t Ht. eapply (ok_bind _ _ _ (fun _ _ => True)); [destruct tys; gsteps | gpost].
  eapply ok_bind; [apply IH; lia | gpost]. gsteps.
Qed.
#[export] Hint Extern 1 (ok _ (call_args _ _ _) _) => eapply call_args_ok; [eassumption | size] : gen.

Lemma call_ok n rec s H e args : calls_ok n rec -> (expr_size e + sum_list_with expr_size args < n)%nat ->
  ok s (ir_gen_call rec e args) (term_ok H).
Proof.
  intros R Hn. unfold ir_gen_call. gnext t Ht. gnext c _.
  eapply (ok_bind _ _ _ (fun _ _ => True)); [gsteps | gpost].
  destruct a as [| | |ret args' va| | |]; try (gsteps; fail).
  gnext rc [Hrc _]. destruct (is_struct rc) eqn:Es.
  - gnext ty _. gnext v Hv. gsteps. eapply term_intro; [eassumption |]. intros _. cbn. rewrite Hv. by destruct rc.
  - gsteps. eapply loaded; [eassumption | eassumption | done | by destruct rc].
Qed.
#[export] Hint Extern 1 (ok _ (ir_gen_call _ _ _) _) => eapply call_ok; [eassumption | size] : gen.

Lemma function_call_ok n rec s H e args : calls_ok n rec -> (expr_size e + sum_list_with expr_size args < n)%nat ->
  ok s (ir_gen_function_call rec e args) (term_ok H).
Proof.
  intros R Hn. unfold ir_gen_function_call. destruct e; try (gsteps; fail).
  gnext o [Ho _]. destruct o as [t|]; [by gstep |]. case_bool_decide; [| case_bool_decide; [| gsteps]].
  - destruct args as [|a [|b args]]; [gstep | | gstep]. cbn in Hn. apply ok_wf. intros W.
    assert (Hv : obs void_type VOID_TYPE s') by by apply builtin_obs. clear W. gsteps. by eapply term_intro.
  - apply ok_wf. intros W. gstep. eapply (term_intro _ _ _ VOID_TYPE); [by apply builtin_obs | done].
Qed.
#[export] Hint Extern 1 (ok _ (ir_gen_function_call _ _ _) _) => eapply function_call_ok; [eassumption | size] : gen.

Lemma require_int_ok s t : ok s (require_int t) (fun _ _ => True).
Proof. unfold require_int. gsteps. Qed.
#[export] Hint Resolve require_int_ok : gen.

Lemma build_if_bok {A} (b : bool) (c1 c2 : st IrBuilder A) : quiet c1 -> quiet c2 -> quiet (if b then c1 else c2).
Proof. by destruct b. Qed.
#[export] Hint Resolve build_if_bok : bok.

Lemma const_of_any_ok s t x : ok s (const_of t x) (fun _ _ => True).
Proof. unfold const_of. gsteps. Qed.
#[export] Hint Extern 2 (ok _ (const_of _ _) _) => apply const_of_any_ok : gen.

Lemma logical_ok n rec s H is_or a b : calls_ok n rec -> (expr_size a + expr_size b < n)%nat ->
  ok s (ir_gen_logical rec is_or a b) (term_ok H).
Proof.
  intros R Hn. unfold ir_gen_logical. gsteps. by eapply term_intro; [eassumption | intros _; congruence].
Qed.
#[export] Hint Extern 1 (ok _ (ir_gen_logical _ _ _ _) _) => eapply logical_ok; [eassumption | size] : gen.

Lemma conditional_ok n rec s a b c : calls_ok n rec -> (expr_size a + expr_size b + expr_size c < n)%nat ->
  ok s (ir_gen_conditional rec a b c) (term_ok (typed b && typed c = true)).
Proof.
  intros R Hn. unfold ir_gen_conditional. set (H := typed b && typed c = true).
  gstep. gstep. gstep. gstep. gstep. gstep. gstep. gstep. gnext t0 Ht0. gstep. gstep. gnext e0 He0. gnext e1 He. gstep. gstep. gstep.
  assert (Hb : term_ok H t0 s'0) by (eapply term_ok_mono; [| exact Ht0]; intros [? ?]%andb_true_iff; done).
  assert (Hc : term_ok H e1 s'0) by (eapply term_ok_mono; [| exact He]; intros [? ?]%andb_true_iff; done).
  clear Ht0 He0 He. eapply (ok_bind _ _ _ (fun p s => term_ok H (mkTerm p.2 (t_value p.1.1)) s)).
  - destruct (a11 && a12); [gsteps; by apply same_value |].
    gnext tc [Htc _]. gnext ec _.
    eapply (ok_bind _ _ _ (fun v s => v = true -> exists p, obs (t_ctype t0) (POINTER_TYPE p) s)).
    + destruct tc; try (by gstep; intros). destruct ec; try (by gstep; intros). gsteps; intros _; by eexists.
    + intros void s1 _ L Hv. carry L. apply ok_wf. intros W. pose proof (obs_valid _ _ _ (builtin_obs s1 void_type VOID_TYPE W eq_refl)) as V.
      clear W. destruct void; [| gsteps; by apply same_value]. destruct (Hv eq_refl) as [p Hp]. clear Hv. gsteps.
      apply (term_intro _ _ _ (POINTER_TYPE void_type)); [done |]. intros Hh. exact (term_ok_obs _ _ _ _ Hb Hp Hh).
  - intros [[t1 e2] r] s1 _ L Hr. carry L. cbn in Hr. gsteps. eapply (same_value H (mkTerm r (t_value t1))); [done | cbn; congruence].
Qed.
#[export] Hint Extern 1 (ok _ (ir_gen_conditional _ _ _ _) _) => eapply conditional_ok; [eassumption | size] : gen.

Lemma ok_place s f : (forall b, module (f b) = module b) -> ok s (on_builder (modify f)) (fun _ _ => True).
Proof. intros Hf. apply (ok_on_builder s _ (fun _ => True)). by apply bok_place. Qed.
#[export] Hint Extern 1 (ok _ (on_builder (modify _)) _) => apply ok_place; reflexivity : gen.

Lemma sizeof_expr_ok n rec s H e : calls_ok n rec -> (expr_size e < n)%nat -> ok s (ir_gen_sizeof_expr rec e) (term_ok H).
Proof. intros R Hn. unfold ir_gen_sizeof_expr. gsteps. by eapply term_intro. Qed.
#[export] Hint Extern 1 (ok _ (ir_gen_sizeof_expr _ _) _) => eapply sizeof_expr_ok; [eassumption | size] : gen.

Lemma va_arg_expr_ok n rec s H e t : calls_ok n rec -> (type_name_size t + expr_size e < n)%nat ->
  ok s (ir_gen_va_arg_expr rec e t) (term_ok H).
Proof.
  intros R Hn. unfold ir_gen_va_arg_expr. gsteps; try (eapply va_arg_ok; [eassumption | done]); apply ok_wf; intros W;
    (eapply ok_bind; [eapply (va_arg_ok H); [by apply builtin_obs | done] | gpost; gsteps]).
Qed.
#[export] Hint Extern 1 (ok _ (ir_gen_va_arg_expr _ _ _) _) => eapply va_arg_expr_ok; [eassumption | size] : gen.

Lemma inc_dec_ok n rec s H e op p : calls_ok n rec -> (expr_size e < n)%nat -> ok s (ir_gen_inc_dec rec e op p) (term_ok H).
Proof.
  intros R Hn. unfold ir_gen_inc_dec. gstep. assert (valid (t_ctype a) s') by (by destruct H0). gnext one [Hi Hv].
  assert (term_ok H (mkTerm int_type one) s'0) by (by eapply term_intro).
  eapply ok_bind; [eapply assign_op_ok; eassumption |]. intros [r pre] s1 _ L [Hr Hp]. carry L. cbn in Hr, Hp.
  destruct p; [by gstep |]. apply ok_lift; [nofuel |]. intros t Et%of_opt_Ok. by subst pre.
Qed.
Lemma assign_expr_ok n rec s a b op : calls_ok n rec -> (expr_size a + expr_size b < n)%nat ->
  ok s (ir_gen_assign_expr rec a b op) (term_ok (typed b = true)).
Proof.
  intros R Hn. unfold ir_gen_assign_expr. gnext l Hl. gnext r Hr. cbn in Hl, Hr.
  eapply ok_bind; [eapply assign_op_ok; [apply Hl | eassumption] |]. intros [t pre] s1 _ L [Ht _]. carry L. by gstep.
Qed.

(** A binary operator on terms that are typed if both of its operands are. *)
Lemma two_operands {A} n rec s a b (f : Term -> Term -> gen A) Q : calls_ok n rec -> (expr_size a + expr_size b < n)%nat ->
  (forall s l r, term_ok (typed a && typed b = true) l s -> term_ok (typed a && typed b = true) r s -> ok s (f l r) Q) ->
  ok s (l ← expr_r rec a; r ← expr_r rec b; f l r) Q.
Proof.
  intros R Hn Hf. gnext l Hl. gnext r Hr. cbn in Hl, Hr.
  apply Hf; (eapply term_ok_mono; [| eassumption]); intros [? ?]%andb_true_iff; done.
Qed.
Lemma binary_expr_ok n rec s a b op : calls_ok n rec -> (expr_size a + expr_size b < n)%nat ->
  ok s (ir_gen_binary_expr rec a b op) (term_ok (typed a && typed b = true)).
Proof. intros R Hn. eapply two_operands; [done | done |]. intros. gsteps. Qed.

Lemma cmp_any_ok H H' s l r c : term_ok H l s -> term_ok H r s -> ok s (ir_gen_cmp l r c) (term_ok H').
Proof.
  intros Hl Hr. unfold ir_gen_cmp, tautology. apply int_obs_ok. intros Hi. gsteps; by apply int_result.
Qed.
Lemma cmp_expr_ok n rec s H a b c : calls_ok n rec -> (expr_size a + expr_size b < n)%nat ->
  ok s (ir_gen_cmp_expr rec a b c) (term_ok H).
Proof. intros R Hn. eapply two_operands; [done | done |]. intros. by eapply cmp_any_ok. Qed.
#[export] Hint Extern 1 (ok _ (ir_gen_inc_dec _ _ _ _) _) => eapply inc_dec_ok; [eassumption | size] : gen.
#[export] Hint Extern 1 (ok _ (ir_gen_assign_expr _ _ _ _) _) => eapply assign_expr_ok; [eassumption | size] : gen.
#[export] Hint Extern 1 (ok _ (ir_gen_binary_expr _ _ _ _) _) => eapply binary_expr_ok; [eassumption | size] : gen.
#[export] Hint Extern 1 (ok _ (ir_gen_cmp_expr _ _ _ _) _) => eapply cmp_expr_ok; [eassumption | size] : gen.

(** A type with a value that fits it is an integer type. *)
Lemma that_fits_int te l v t : type_that_fits te l v = Ok t -> exists k sg, ctypes te !! t = Some (INTEGER_TYPE k sg).
Proof.
  induction l as [|u l IH]; [done |]. cbn. unfold value_fits_in_type.
  destruct (ctype te u) as [c|] eqn:E; [| done]. apply ctype_Ok in E. destruct c; try done. cbn.
  match goal with |- context [mbind (M := res) _ ?x] => destruct x as [[]|] end; [| exact IH | done].
  intros [= <-]. by eexists _, _.
Qed.
Lemma int_literal_ok s l : ok s (ask (fun te => type_of_int_literal te l)) (fun t s => exists k sg, obs t (INTEGER_TYPE k sg) s).
Proof.
  apply ok_ask; [apply nf_int_literal |]. intros t E. unfold type_of_int_literal in E.
  destruct (ASSERT _) as [[]|]; [| done]. cbn [mbind res_bind] in E.
  assert (exists k sg, ctypes (type_env s) !! t = Some (INTEGER_TYPE k sg)) as (k & sg & Et)
    by (repeat (case_match; [by eapply that_fits_int |]); done).
  exists k, sg. by eexists.
Qed.

Lemma expr_ok n rec s e x : calls_ok n rec -> (expr_size e <= n)%nat -> ok s (ir_gen_expr rec e x) (result_ok (typed e = true) x).
Proof.
  intros R Hn. unfold ir_gen_expr. gstep. destruct (allowed_in x e) eqn:Ha; [clear a H | done].
  destruct e; cbn [expr_size] in Hn; cbn [typed].
  all: try lazymatch goal with
    | |- ok _ (_ ≫= _) _ => fail
    | |- ok _ (lift _) _ => gstep
    | |- ok _ (match ?t with mkTypeName _ _ => _ end) _ => fail
    | |- ok _ (ir_gen_identifier _ _) _ => fail
    | |- _ => assert (N : x <> LVALUE_CONTEXT) by (by intros ->);
              eapply ok_tail; [solve [eauto 2 with gen] | intros; by apply result_value]
  end.
  all: try assert (N : x <> LVALUE_CONTEXT) by (by intros ->).
  - eapply ok_bind; [apply int_literal_ok | intros t s1 _ L (k & sg & Ho); carry L]. unfold const_of. gsteps.
    apply result_value; [done |]. eapply loaded; [exact Ho | eassumption | done | done].
  - cbv zeta. set (t := type_of_float_literal _).
    assert (exists f, builtin_ctypes !! t = Some (FLOAT_TYPE f)) as [f Ef]
      by (unfold t, type_of_float_literal; repeat case_match; by eexists).
    eapply ok_bind; [by apply (ir_type_builtin s t (FLOAT_TYPE f)) | intros ty s1 _ L [Ho Hv]; carry L]. gstep.
    apply result_value; [done |]. by eapply term_intro.
  - apply identifier_ok. intros E ->. done.
  - gsteps.
  - gsteps.
  - eapply two_operands; [done | lia |]. intros s1 l r Hl Hr. gsteps.
  - gnext ptr [Hv Hp]. gnext t Ht. gstep. apply result_value; [done |]. by eapply term_intro.
  - gsteps.
  - gsteps. apply result_value; [done |]. by apply same_value.
  - gstep. apply int_obs_ok. intros Hi. gsteps. apply result_value; [done |]. by eapply term_intro.
  - gnext t Ht. gnext zero [Hz Hv]. cbn in Ht. eapply ok_tail; [eapply (cmp_any_ok (typed e = true) True); [done |] | ].
    + by eapply term_intro.
    + intros r s1 _ Hr. apply result_value; [done |]. eapply term_ok_mono; [| exact Hr]. done.
  - gsteps. by apply result_value.
  - destruct type as [l d]. cbn in Hn. gsteps. apply result_value; [done |]. by eapply term_intro.
  - gnext t Ht. gnext u _. gnext ty _. gnext v Hv. gnext w (c & Hc & Hagg). gstep. apply result_value; [done |].
    eapply term_intro; [exact Hc |]. intros _. cbn. rewrite Hv. by destruct c.
  - gstep. eapply ok_tail; [solve [eauto 2 with gen] |]. intros. by apply result_value.
Qed.

(** ** The recursion *)

Lemma calls_at_ok n : calls_ok n (calls_at n).
Proof.
  induction n as [|n IH]; [constructor; lia |].
  constructor; intros; cbn.
  - apply (expr_ok n); [done | lia].
  - apply (specifiers_ok n); [done | lia].
  - apply (decl_to_cdecl_ok n); [done | done | lia].
  - apply (direct_declarator_ok n); [done | done | lia].
  - eapply ok_tail; [apply (make_c_initializer_ok n); [done | lia] | done].
Qed.

(** ** Statements *)

Lemma set_targets_wf s b c : wf s -> wf (set_targets s b c).
Proof. intros [W1 W2 W3 W4 W5]. by constructor. Qed.

Lemma with_targets_ok s b c m : (forall s, ok s m (fun _ _ => True)) -> ok s (with_targets b c m) (fun _ _ => True).
Proof.
  intros H W. unfold with_targets, set_break_continue, mbind, st_bind, get, modify.
  specialize (H _ (set_targets_wf s (Some b) (Some c) W)). destruct (m _) as [[[] s1]|]; [| done].
  destruct H as (W1 & L1 & F1 & _). split_and!; [by apply set_targets_wf | by etransitivity | | done].
  destruct F1. by constructor.
Qed.
Lemma with_break_ok s b m : (forall s, ok s m (fun _ _ => True)) -> ok s (with_break b m) (fun _ _ => True).
Proof.
  intros H W. unfold with_break, set_break_continue, mbind, st_bind, get, modify.
  specialize (H _ (set_targets_wf s (Some b) (continue_target s) W)). destruct (m _) as [[[] s1]|]; [| done].
  destruct H as (W1 & L1 & F1 & _). split_and!; [by apply set_targets_wf | by etransitivity | | done].
  destruct F1. by constructor.
Qed.

(** Changes of the lists of labels and of the function's type. *)
Lemma wf_context s s' : builder s' = builder s -> scope s' = scope s -> type_env s' = type_env s -> wf s -> wf s' /\ le s s'.
Proof.
  intros E1 E2 E3 W. assert (L : le s s') by (split; [by rewrite E3 | by rewrite E1]). split; [| done].
  destruct W as [W1 W2 W3 W4 W5]. constructor; rewrite ?E1, ?E2, ?E3; try done.
  - intros t c Ec. exact (type_ok_persist c s s' L (W3 t c Ec)).
  - intros m t Ht. exact (valid_persist t s s' L (W4 m t Ht)).
  - intros l b Hl Hb. exact (binding_ok_persist b s s' L (W5 l b Hl Hb)).
Qed.
Lemma labels_ok s f : builder (f s) = builder s -> scope (f s) = scope s -> type_env (f s) = type_env s ->
    inline_functions (f s) = inline_functions s -> break_target (f s) = break_target s ->
    continue_target (f s) = continue_target s -> scratch_function (f s) = scratch_function s ->
  ok s (modify f) (fun _ _ => True).
Proof.
  intros E1 E2 E3 E4 E5 E6 E7 W. destruct (wf_context s (f s) E1 E2 E3 W) as [W' L]. split_and!; [done | done | | done].
  constructor; try done. by rewrite E2.
Qed.
#[export] Hint Extern 1 (ok _ (modify _) _) => apply labels_ok; done : gen.

Lemma new_block_ok s name : ok s (new_block name) (fun _ _ => True).
Proof. unfold new_block. gsteps. Qed.
Lemma jump_ok s b : ok s (jump b) (fun _ _ => True).
Proof. unfold jump. gsteps. Qed.
Lemma branch_ok s c b1 b2 : ok s (branch c b1 b2) (fun _ _ => True).
Proof. unfold branch. gsteps. Qed.
Lemma enter_block_ok s b : ok s (enter_block b) (fun _ _ => True).
Proof. unfold enter_block. gsteps. Qed.
Lemma this_block_ok s : ok s this_block (fun _ _ => True).
Proof. unfold this_block. gsteps. Qed.
Lemma alloc_block_ok s : ok s alloc_block (fun _ _ => True).
Proof. unfold alloc_block. gsteps. Qed.
Lemma current_fun_ok s : ok s current_fun (fun _ _ => True).
Proof. unfold current_fun. gsteps. Qed.
#[export] Hint Resolve new_block_ok jump_ok branch_ok enter_block_ok this_block_ok alloc_block_ok current_fun_ok : gen.
Lemma fun_size_ok s : ok s fun_size (fun _ _ => True).
Proof. unfold fun_size. gsteps. Qed.
Lemma init_block_ok s b name i : ok s (init_block b name i) (fun _ _ => True).
Proof. unfold init_block. gsteps. Qed.
#[export] Hint Resolve fun_size_ok init_block_ok : gen.
Lemma append_block_ok s b name : ok s (append_block b name) (fun _ _ => True).
Proof. unfold append_block. gsteps. Qed.
Lemma insert_block_ok s b i : ok s (insert_block b i) (fun _ _ => True).
Proof. unfold insert_block. gsteps. Qed.
Lemma add_case_label_ok s v b : ok s (add_case_label v b) (fun _ _ => True).
Proof. unfold add_case_label. gsteps. Qed.
#[export] Hint Resolve append_block_ok insert_block_ok add_case_label_ok : gen.

Lemma switch_cases_ok s v l i d : ok s (switch_cases v l i d) (fun _ _ => True).
Proof. revert s i d. induction l as [|[[x|] b] l IH]; intros s i d; cbn; [gsteps | gsteps; apply IH | apply IH]. Qed.
#[export] Hint Resolve switch_cases_ok : gen.

#[export] Hint Extern 1 (ok _ (expr_rv _ _) _) => eapply c_expr; [eassumption | size] : gen.

Lemma init_declarators_ok n rec s t l : calls_ok n rec ->
  (sum_list_with (fun i => declarator_size (id_declarator i) + opt_size initializer_size (id_initializer i)) l < n)%nat ->
  valid t s -> ok s (add_init_declarators rec t l) (fun _ _ => True).
Proof.
  intros R. revert s. induction l as [|[d init] l IH]; intros s Hl Ht; cbn in Hl |- *; [gsteps |].
  gnext cd Hcd. gnext u _. gnext b (Hb & _). assert (valid (t_ctype (b_term b)) s') by (by eapply term_ok_valid).
  eapply ok_bind; [by apply add_binding_ok | intros u2 s2 _ L _; carry L]. gnext c _.
  eapply (ok_bind _ _ _ (fun _ _ => True)); [| intros u3 s3 _ L _; carry L; apply IH; [lia | done]].
  destruct init as [[e|el]|]; cbn in Hl; [| gsteps | gsteps].
  gstep; [gsteps |]. gsteps.
Qed.
Lemma decl_to_scope_ok n rec s d : calls_ok n rec -> (decl_size d < n)%nat -> ok s (add_decl_to_scope rec d) (fun _ _ => True).
Proof.
  intros R Hd. unfold add_decl_to_scope, decl_size in *. gstep. eapply init_declarators_ok; [done | lia | done].
Qed.
#[export] Hint Extern 1 (ok _ (add_decl_to_scope _ _) _) => eapply decl_to_scope_ok; [eassumption | size] : gen.

Lemma return_ok n rec s e : calls_ok n rec -> (opt_size expr_size e < n)%nat -> ok s (ir_gen_return rec e) (fun _ _ => True).
Proof.
  intros R He. unfold ir_gen_return. destruct e as [e|]; cbn in He; [| gsteps].
  gnext t Ht. cbn in Ht. gnext c _. gstep; [| gsteps]. assert (valid (t_ctype t) s') by (by eapply term_ok_valid). gsteps.
Qed.
#[export] Hint Extern 1 (ok _ (ir_gen_return _ _) _) => eapply return_ok; [eassumption | size] : gen.

Lemma if_condition_ok n rec s e : calls_ok n rec -> (expr_size e < n)%nat -> ok s (ir_gen_if_condition rec e) (fun _ _ => True).
Proof. intros R He. unfold ir_gen_if_condition. gsteps. Qed.
Lemma loop_condition_ok n rec s e : calls_ok n rec -> (expr_size e < n)%nat -> ok s (ir_gen_loop_condition rec e) (fun _ _ => True).
Proof. intros R He. unfold ir_gen_loop_condition. gsteps. Qed.
#[export] Hint Extern 1 (ok _ (ir_gen_if_condition _ _) _) => eapply if_condition_ok; [eassumption | size] : gen.
#[export] Hint Extern 1 (ok _ (ir_gen_loop_condition _ _) _) => eapply loop_condition_ok; [eassumption | size] : gen.

(** Steps of a statement; [IH] is for the statements inside it. *)
Ltac sstep IH :=
  lazymatch goal with
  | |- ok _ (ir_gen_statement _ _ ≫= _) _ => eapply ok_bind; [apply IH; size | gpost]
  | |- ok _ (ir_gen_statement _ _) _ => apply IH; size
  | |- ok _ (with_scope _ ≫= _) _ => eapply ok_bind; [apply ok_scoped; intros ? _ | gpost]
  | |- ok _ (with_targets _ _ _ ≫= _) _ => eapply ok_bind; [apply with_targets_ok; intros ? | gpost]
  | |- ok _ (with_break _ _ ≫= _) _ => eapply ok_bind; [apply with_break_ok; intros ? | gpost]
  | |- _ => gstep
  end.

(** A statement leaves the state well formed, with the scopes and jump targets it
    found. *)
Lemma statement_ok n rec : calls_ok n rec -> forall st s, (statement_size st < n)%nat ->
  ok s (ir_gen_statement rec st) (fun _ _ => True).
Proof.
  intros R. fix IH 1. intros st s Hs. destruct st as [|name st|e st|items|e|e st1 st2|e st|e st|e st|init c u st| | | |e];
    cbn in Hs |- *.
  4: { apply ok_scoped. intros s1 _. revert s1. induction items as [|i items IHi]; intros s1; cbn in Hs |- *; [by apply ok_ret |].
       eapply ok_bind; [| intros u s2 _ L _; apply IHi; lia].
       destruct i as [d|st]; cbn in Hs |- *; [eapply decl_to_scope_ok; [done | lia] | apply IH; lia]. }
  all: repeat sstep IH.
Qed.
#[export] Hint Extern 1 (ok _ (ir_gen_statement _ _) _) => eapply statement_ok; [eassumption | size] : gen.
