(* ===== verification/UnitSound.v ===== *)
(** * Functions and translation units are sound; what is proved of IR generation

    The functions of [IrGen.v] against the contracts of [GenSound.v], and the
    theorems on expressions, statements and units that follow: every value has the
    IR type of its C type, statements restore the scopes and jump targets, and the
    fuel that [ir_gen] takes from the syntax is enough. *)

From S2P Require Import Prelude Ast Ir CType Context Convert Calls Initializer Decl Expr Statement IrGen.
From S2P Require Import GenLogic ExprSound DeclSound GenSound.
From S2P Require Lex.

Local Open Scope Z_scope.

(** ** Functions *)

Lemma nf_params d : nf (params_for_function_declarator d).
Proof. revert d. fix IH 1. intros [[d|]|[| | |]]; cbn; done. Qed.
#[export] Hint Resolve nf_params : nofuel.

Lemma params_size d l : params_for_function_declarator d = Ok l -> (sum_list_with param_size l < declarator_size d)%nat.
Proof.
  revert d. fix IH 1. intros [[d|]|[| | |d params]]; cbn; try done.
  - intros E%IH. lia.
  - intros [= ->]. lia.
Qed.

Lemma term_trivial t v s : valid t s -> term_ok False (mkTerm t v) s.
Proof. intros [c Hc]. by exists c. Qed.

Lemma gen_param_ok s g ft name i : ok s (gen_param g ft name i) (fun _ _ => True).
Proof.
  unfold gen_param. gnext fc [_ Hfc]. destruct fc as [| | |r l va| | |]; try (gsteps; fail). gnext p Ep. injection Ep as <-. gnext a Ea.
  assert (V : valid a s').
  { destruct Hfc as [Hfc _]. cbn in Hfc. apply Forall_cons in Hfc as [_ Hfc]. apply of_opt_Ok in Ea. exact (proj1 (Forall_forall _ _) Hfc a (list_elem_of_lookup_2 _ _ _ Ea)). }
  clear Hfc. gnext b (Hb & _ & _ & _). assert (Vb : valid (t_ctype (b_term b)) s'0) by (by eapply term_ok_valid).
  eapply ok_bind; [by apply add_binding_ok | intros u s2 _ L _; carry L]. gnext rc _. gstep.
  gstep. gstep. eapply ok_bind; [eapply (assign_op_ok False); [done | by apply term_trivial] | gpost]. gsteps.
Qed.
#[export] Hint Resolve gen_param_ok : gen.

Lemma gen_params_ok n rec s g ft l i : calls_ok n rec -> (sum_list_with param_size l < n)%nat ->
  ok s (gen_params rec g ft l i) (fun _ _ => True).
Proof.
  intros R. revert s i. induction l as [|[specs d|] l IH]; intros s i Hl; cbn in Hl |- *; [gsteps | | destruct l; gsteps].
  gnext t Ht. gnext cd Hcd. gnext c _.
  destruct c; [gsteps | ..]; (eapply ok_bind; [apply gen_param_ok | gpost; apply IH; lia]).
Qed.
#[export] Hint Extern 1 (ok _ (gen_params _ _ _ _ _) _) => eapply gen_params_ok; [eassumption | size] : gen.

Lemma ends_in_return_ok s : ok s ends_in_return (fun _ _ => True).
Proof. unfold ends_in_return. gsteps. Qed.
#[export] Hint Resolve ends_in_return_ok : gen.

Definition def_size (f : ASTFunctionDef) : nat := declarator_size (f_declarator f) + statement_size (f_body f).

Lemma function_ok n rec s g ft f : calls_ok n rec -> (def_size f < n)%nat -> ok s (ir_gen_function rec g ft f) (fun _ _ => True).
Proof.
  intros R Hf. unfold ir_gen_function, def_size in *. gstep. gstep. gstep. gstep. apply ok_scoped. intros s1 _. gstep.
  gnext l El. apply params_size in El. gsteps.
Qed.
#[export] Hint Extern 1 (ok _ (ir_gen_function _ _ _ _) _) => eapply function_ok; [eassumption | size] : gen.

(** ** Declarators of functions *)

Fixpoint declares_function (d : ASTDeclarator) : bool :=
  match d with
  | POINTER_DECLARATOR (Some d) => declares_function d
  | DIRECT_DECLARATOR (FUNCTION_DECLARATOR (IDENTIFIER_DECLARATOR _) _) => true
  | _ => false
  end.
Definition function_at_type (t : nat) (s : IrGenContext) : Prop := exists r l v, obs t (FUNCTION_TYPE r l v) s.
#[export] Instance function_at_type_persist t : Persist (function_at_type t).
Proof. intros s s' L (r & l & v & H). exists r, l, v. by eapply persist. Qed.

Definition declared (d : ASTDeclarator) (t : nat) (s : IrGenContext) : Prop := declares_function d = true -> function_at_type t s.
#[export] Instance declared_persist d t : Persist (declared d t).
Proof. intros s s' L H E. by eapply persist, H. Qed.

Lemma function_declarator_ok n s t d : declares_function d = true -> (declarator_size d < n)%nat -> valid t s ->
  ok s (r_declarator (calls_at n) t (Some d)) (fun r => function_at_type (cd_type r)).
Proof.
  revert s t d. induction n as [|n IH]; intros s t d Hf Hd Ht; [lia |]. cbn.
  destruct d as [[d|]|[d|name|d e|[d|name|d e|d l'] l]]; try done; cbn in Hf, Hd.
  - gnext p Hp. apply IH; [done | lia | by eapply obs_valid].
  - destruct n as [|[|n]]; [lia | lia |]. pose proof (calls_at_ok (S n)) as R. cbn [calls_at r_direct] in R |- *.
    unfold direct_declarator_to_cdecl at 1. gnext va _.
    eapply (ok_bind _ _ _ all_valid); [eapply (param_types_ok (S n)); [apply R | lia] |].
    intros l1 s1 _ L Hl1. carry L.
    eapply (ok_bind _ _ _ all_valid).
    + gsteps; by constructor.
    + clear Hl1. intros l2 s2 _ L Hl2. carry L.
      eapply ok_bind; [apply new_ctype_ok; split; [by constructor | done] | intros f s3 _ L Hf'; carry L].
      cbn. apply ok_ret. exists t, l2, va. exact Hf'.
Qed.

(** ** Toplevel items *)

(** The inline functions kept for later have less than [n] nodes. *)
Definition inlines_ok (n : nat) (s : IrGenContext) : Prop :=
  Forall (fun i => (def_size (inl_function_def i) < n)%nat) (inline_functions s).
(** As [ok], but inline functions may be added. *)
Definition top_ok {A} (n : nat) (s : IrGenContext) (m : gen A) : Prop :=
  wf s -> inlines_ok n s ->
  match m s with
  | Ok (_, s') => wf s' /\ le s s' /\ inlines_ok n s' /\ scopes_le (scope s) (scope s') /\
      break_target s = break_target s' /\ continue_target s = continue_target s'
  | Stop e => e <> NoFuel
  end.

Lemma top_of_ok {A} n s (m : gen A) Q : ok s m Q -> top_ok n s m.
Proof.
  intros H W I. specialize (H W). destruct (m s) as [[a s']|]; [| done]. destruct H as (W' & L & [] & _).
  split_and!; try done. unfold inlines_ok in *. congruence.
Qed.
Lemma top_fatal {A} n s : top_ok n s (@fatal A).
Proof. by apply (top_of_ok n s fatal (fun _ _ => True)), ok_fatal. Qed.
Lemma top_bind {A B} n s (m : gen A) (f : A -> gen B) Q : ok s m Q ->
  (forall a s', inline_functions s' = inline_functions s -> le s s' -> Q a s' -> top_ok n s' (f a)) -> top_ok n s (m ≫= f).
Proof.
  intros H1 H2 W I. specialize (H1 W). unfold mbind, st_bind. destruct (m s) as [[a s1]|]; [| done].
  destruct H1 as (W1 & L1 & [S1 B1 C1 E1 _] & HQ). specialize (H2 a s1 (eq_sym E1) L1 HQ W1).
  unfold inlines_ok at 1 in H2. rewrite <- E1 in H2. specialize (H2 I).
  destruct (f a s1) as [[x s2]|]; [| done]. destruct H2 as (W2 & L2 & I2 & S2 & B2 & C2).
  split_and!; [done | by etransitivity | done | by etransitivity | congruence | congruence].
Qed.

Lemma linkage_spec l k r : function_linkage l k = Ok r -> (specifiers_size r.2 <= specifiers_size l)%nat.
Proof.
  revert k. induction l as [|x l IH]; intros k; [done |]. unfold specifiers_size in *. cbn.
  destruct x as [[]| | |]; cbn; try (by intros [= <-]); try done. intros E%IH. lia.
Qed.
Lemma skip_inline_size l b : (specifiers_size (skip_inline l b).2 <= specifiers_size l)%nat.
Proof.
  revert b. induction l as [|x l IH]; intros b; [done |]. unfold specifiers_size in *.
  destruct x as [| | |[]]; cbn; try lia. etransitivity; [apply IH | lia].
Qed.
Lemma nf_function_linkage l k : nf (function_linkage l k).
Proof. revert k. induction l as [|[[]| | |] l IH]; intros k; cbn; done. Qed.
Lemma nf_global_linkage l k b : nf (global_linkage l k b).
Proof. revert k b. induction l as [|[[]| | |] l IH]; intros k b; cbn; try done; apply IH. Qed.
#[export] Hint Resolve nf_function_linkage nf_global_linkage : nofuel.

Lemma linkage_of_global_ok s g k : ok s (set_linkage g k) (fun _ _ => True).
Proof. unfold set_linkage. gsteps. Qed.
Lemma set_initializer_ok s g k : ok s (set_initializer g k) (fun _ _ => True).
Proof. unfold set_initializer. gsteps. Qed.
#[export] Hint Resolve linkage_of_global_ok set_initializer_ok : gen.

Lemma bind_global_ok s g t : valid t s -> ok s (bind_global g t) (fun _ _ => True).
Proof.
  intros [c Hc]. unfold bind_global. gstep. gstep. eapply ok_tail; [apply add_binding_ok; by eapply term_intro | done].
Qed.
#[export] Hint Extern 1 (ok _ (bind_global _ _) _) => eapply bind_global_ok; eassumption : gen.

Section Toplevel.
Context (n : nat).
Let rec := calls_at n.
Let R : calls_ok n rec := calls_at_ok n.

Lemma global_decl_valid s l d init : (specifiers_size l < n)%nat -> (declarator_size d < n)%nat ->
  (opt_size initializer_size init <= n)%nat -> ok s (ir_global_for_decl rec l d init) (fun p => valid p.2).
Proof.
  intros Hl Hd Hi. apply (global_for_decl_ok n); [apply _ | done | done | | done]. intros s1 t Ht. by eapply c_declarator.
Qed.

Lemma function_def_top s f : (specifiers_size (f_specifiers f) + def_size f < n)%nat -> top_ok n s (gen_function_def rec f).
Proof.
  intros Hf. unfold gen_function_def, def_size in *.
  eapply (top_bind _ _ _ _ (fun r _ => specifiers_size r.2 <= specifiers_size (f_specifiers f))%nat).
  { apply ok_lift; [nofuel |]. intros r E. by eapply linkage_spec. }
  intros [linkage l] s1 _ _ Hl. cbn [snd] in Hl. pose proof (skip_inline_size l false) as Hl'.
  destruct (skip_inline l false) as [is_inline l']. cbn [snd] in Hl'.
  eapply top_bind; [apply (global_decl_valid s1 l' (f_declarator f) None); cbn; lia |]. intros [g t] s2 _ _ Ht. cbn in Ht.
  eapply (top_bind _ _ _ _ (fun _ s => valid t s)).
  { eapply ok_tail; [apply linkage_of_global_ok |]. intros u s3 L _. by carry L. }
  intros u s3 _ _ Ht3. eapply top_bind; [by apply bind_global_ok |]. intros u2 s4 _ _ _. destruct is_inline.
  - intros W I. destruct (wf_context s4 (set_inline_functions s4 (inline_functions s4 ++
      [mkInline g t (mkFunctionDef l' (f_declarator f) (f_old_style_param_decl_list f) (f_body f))])) eq_refl eq_refl eq_refl W) as [W' L].
    split_and!; try done. apply Forall_app. split; [done |]. constructor; [cbn; unfold def_size; cbn; lia | done].
  - eapply top_of_ok, function_ok; [done | unfold def_size; lia].
Qed.

Lemma typedefs_ok s t l : (sum_list_with (fun i => declarator_size (id_declarator i) + opt_size initializer_size (id_initializer i)) l < n)%nat ->
  valid t s -> ok s (gen_typedefs rec t l) (fun _ _ => True).
Proof.
  revert s. induction l as [|[d init] l IH]; intros s Hl Ht; cbn in Hl |- *; [gsteps |]. gnext cd Hcd.
  eapply ok_bind; [| intros u s2 _ L _; carry L; apply IH; [lia | done]].
  destruct (cd_name cd) as [name|].
  - eapply named_copy_ok. intros t0 te. split_and!; [done | done |]. cbn.
    intros n0 u Hu. rewrite !elem_of_app, list_elem_of_singleton in *. naive_solver.
  - apply (named_copy_ok _ _ (fun _ te => te)). intros t0 te. split_and!; [done | done | by left].
Qed.

Lemma find_inline_ok s l name t : Forall (fun i => (def_size (inl_function_def i) < n)%nat) l ->
  ok s (find_inline l name t) (fun i _ => (def_size (inl_function_def i) < n)%nat).
Proof.
  intros Hl. revert s. induction Hl as [|i l Hi Hl IH]; intros s; cbn; [gsteps |]. gstep. gstep. gstep.
  gsteps.
Qed.

Lemma extern_stays l k r : global_linkage l k true = Ok r -> r.2 = true.
Proof. revert k. induction l as [|[[]| | |] l IH]; intros k; cbn; try done; try apply IH. by intros [= <-]. Qed.

Lemma is_extern_spec l k b r : global_linkage l k b = Ok r ->
  b = true \/ head l = Some (STORAGE_CLASS_SPECIFIER EXTERN_SPECIFIER) -> r.2 = true.
Proof.
  intros E [-> | H]; [by eapply extern_stays |]. destruct l as [|x l]; [done |]. injection H as ->. by eapply extern_stays.
Qed.

(** Declarations that do not make a zeroed or initialised global. *)
Definition no_data (d : ASTDecl) : bool :=
  match d_specifiers d with
  | STORAGE_CLASS_SPECIFIER EXTERN_SPECIFIER :: _ | STORAGE_CLASS_SPECIFIER TYPEDEF_SPECIFIER :: _ => true
  | _ => match d_init_declarators d with
         | [i] => declares_function (id_declarator i)
         | _ => true
         end
  end.

Lemma skip_storage_spec l : l = (skip_storage l).1 ++ (skip_storage l).2.
Proof. induction l as [|[] l IH]; try done. cbn. destruct (skip_storage l); cbn in *. by rewrite IH. Qed.

Lemma extern_global_ok s classes l d : (specifiers_size l < n)%nat ->
  (declarator_size (id_declarator d) + opt_size initializer_size (id_initializer d) < n)%nat ->
  declares_function (id_declarator d) = true \/ head classes = Some (STORAGE_CLASS_SPECIFIER EXTERN_SPECIFIER) ->
  ok s (gen_global rec classes l d) (fun _ _ => True).
Proof.
  intros Hl Hd Hx. unfold gen_global.
  eapply (ok_bind _ _ _ (fun p s => valid p.2 s /\ declared (id_declarator d) p.2 s)).
  { apply ok_and; [apply global_decl_valid; lia |]. destruct (declares_function (id_declarator d)) eqn:E.
    - eapply ok_tail; [apply (global_for_decl_ok n _ _ _ _ _ function_at_type); [apply _ | done | done | | lia] | intros p s1 _ Hp E'; exact Hp].
      intros s1 t Ht. apply function_declarator_ok; [done | lia | done].
    - eapply ok_tail; [apply global_decl_valid; lia |]. intros p s1 _ _ E'. congruence. }
  intros [g t] s1 _ _ [Hv Hf]. cbn [snd] in Hv, Hf. gnext c [Hc _]. gnext u _.
  assert (X : (match c with FUNCTION_TYPE _ _ _ => true | _ => false end) = true \/
              head classes = Some (STORAGE_CLASS_SPECIFIER EXTERN_SPECIFIER)).
  { destruct Hx as [Hx|]; [left | by right]. destruct (Hf Hx) as (r & l' & v & Ho).
    pose proof (obs_shape _ _ _ _ Hc Ho). by destruct c. }
  gnext p El. apply is_extern_spec in El; [| done]. destruct p as [linkage is_extern]. cbn [snd] in El. subst is_extern.
  gstep. destruct (id_initializer d); gstep.
Qed.

Definition declarators_size (l : list ASTInitDeclarator) : nat :=
  sum_list_with (fun i => declarator_size (id_declarator i) + opt_size initializer_size (id_initializer i))%nat l.
Definition no_global (l : list ASTInitDeclarator) : bool :=
  match l with [i] => declares_function (id_declarator i) | _ => true end.

Lemma plain_decl_ok s l ds : (specifiers_size l + declarators_size ds < n)%nat ->
  no_global ds = true \/ head l = Some (STORAGE_CLASS_SPECIFIER EXTERN_SPECIFIER) ->
  ok s (gen_plain_decl rec l ds) (fun _ _ => True).
Proof.
  intros Hn Hx. unfold gen_plain_decl. pose proof (skip_storage_spec l) as E.
  assert (Hs : (specifiers_size (skip_storage l).2 <= specifiers_size l)%nat).
  { rewrite E at 2. unfold specifiers_size. rewrite sum_list_with_app. lia. }
  assert (Hh : head l = Some (STORAGE_CLASS_SPECIFIER EXTERN_SPECIFIER) ->
               head (skip_storage l).1 = Some (STORAGE_CLASS_SPECIFIER EXTERN_SPECIFIER)).
  { destruct l as [|x l']; [done |]. intros [= ->]. cbn. by destruct (skip_storage l'). }
  clear E. destruct (skip_storage l) as [classes specs]. cbn [fst snd] in Hs, Hh.
  destruct specs as [|sp specs]; [gstep |]. destruct ds as [|d [|d' ds]].
  - eapply ok_bind; [eapply c_specifiers; [exact R | lia] | gpost; gsteps].
  - unfold declarators_size in Hn. cbn [sum_list_with] in Hn. apply extern_global_ok; [lia | lia |].
    destruct Hx as [Hx|Hx]; [by left | right; auto].
  - gstep.
Qed.

Lemma gen_decl_top s d : (decl_size d < n)%nat -> no_data d = true -> top_ok n s (gen_decl rec d).
Proof.
  intros Hd Hn. unfold gen_decl, no_data, decl_size in *. destruct d as [specs ds]. cbn [d_specifiers d_init_declarators] in *.
  fold (declarators_size ds) in Hd. change (match ds with [i] => _ | _ => true end) with (no_global ds) in Hn.
  assert (P : forall l, (specifiers_size l <= specifiers_size specs)%nat ->
    no_global ds = true \/ head l = Some (STORAGE_CLASS_SPECIFIER EXTERN_SPECIFIER) -> top_ok n s (gen_plain_decl rec l ds)).
  { intros l Hl Hx. eapply top_of_ok, plain_decl_ok; [lia | done]. }
  destruct specs as [|x specs]; [apply top_fatal |].
  destruct x as [[]|t|q|f]; try (apply P; [done | by left]).
  - unfold specifiers_size in Hd. cbn [sum_list_with specifier_size] in Hd. fold (specifiers_size specs) in Hd.
    destruct ds as [|d ds]; [apply top_fatal |].
    eapply (top_of_ok _ _ _ (fun _ _ => True)), ok_bind; [eapply c_specifiers; [exact R | lia] |]. intros t s1 _ _ Ht.
    apply typedefs_ok; [| done]. unfold declarators_size in Hd. lia.
  - destruct specs as [|[c|t|q|[]] specs]; try (apply P; [done | by right]).
    unfold specifiers_size in Hd. cbn [sum_list_with specifier_size] in Hd. fold (specifiers_size specs) in Hd.
    eapply top_bind; [eapply c_specifiers; [exact R | lia] |]. intros t s1 E1 _ Ht.
    eapply (top_bind _ _ _ _ (fun i s => valid t s /\ declarator_size (id_declarator i) <= declarators_size ds)%nat).
    { apply ok_lift; [nofuel |]. intros i Ei%of_opt_Ok. split; [done |]. destruct ds as [|j ds]; [done |]. injection Ei as ->.
      unfold declarators_size. cbn [sum_list_with]. lia. }
    intros i s2 E2 _ [Ht2 Hi]. eapply top_bind; [eapply c_declarator; [exact R | exact Ht2 | cbn; lia] |].
    intros cd s3 _ _ _ W I.
    refine (top_of_ok n s3 (find_inline (inline_functions s3) (cd_name cd) (cd_type cd) ≫= _) (fun _ _ => True) _ W I).
    eapply ok_bind; [apply find_inline_ok, I |]. intros j s4 _ _ Hj. by apply function_ok with (n := n).
Qed.

Lemma toplevel_top s t : (toplevel_size t < n)%nat -> match t with FUNCTION_DEF _ => True | DECL d => no_data d = true end ->
  top_ok n s (ir_gen_toplevel rec t).
Proof. destruct t as [f|d]; cbn; [intros Hn _; apply function_def_top; unfold def_size; lia | apply gen_decl_top]. Qed.
End Toplevel.

(** ** Translation units *)

Lemma items_top n s l : (sum_list_with toplevel_size l < n)%nat ->
  Forall (fun t => match t with FUNCTION_DEF _ => True | DECL d => no_data d = true end) l ->
  top_ok n s (gen_items (calls_at n) l).
Proof.
  intros Hn Hl. revert s Hn. induction Hl as [|t l Ht Hl IH]; intros s Hn W I; cbn in Hn |- *; [by split_and!|].
  pose proof (toplevel_top n s t ltac:(lia) Ht W I) as H. unfold mbind, st_bind.
  destruct (ir_gen_toplevel (calls_at n) t s) as [[[] s1]|]; [| done]. destruct H as (W1 & L1 & I1 & S1 & B1 & C1).
  specialize (IH s1 ltac:(lia) W1 I1). destruct (gen_items (calls_at n) l s1) as [[[] s2]|]; [| done].
  destruct IH as (W2 & L2 & I2 & S2 & B2 & C2). split_and!; [done | by etransitivity | done | by etransitivity | congruence | congruence].
Qed.

Lemma resolve_goto_ok s labels f : ok s (resolve_goto labels f) (fun _ _ => True).
Proof. unfold resolve_goto. gsteps. Qed.
#[export] Hint Resolve resolve_goto_ok : gen.
Lemma resolve_gotos_ok s labels l : ok s (resolve_gotos labels l) (fun _ _ => True).
Proof. revert s. induction l as [|f l IH]; intros s; cbn; gsteps. Qed.

(** The first states of IR generation. *)
Lemma init_wf s : type_env s = init_type_env -> scope s = [[]] -> wf s.
Proof.
  intros E1 E2. constructor; rewrite ?E1, ?E2.
  - apply init_ranked.
  - apply init_builtins.
  - intros t c Ec%list_elem_of_lookup_2. cbn in Ec.
    repeat (apply elem_of_cons in Ec as [-> | Ec]; [by split |]). by apply elem_of_nil in Ec.
  - intros n t Ht. by apply elem_of_nil in Ht.
  - intros l b ->%list_elem_of_singleton Hb. by apply elem_of_nil in Hb.
Qed.


(** What an expression denotes as an lvalue is an address of an object of its
    type. *)
Theorem lvalue_sound n e s (W : wf s) (Hn : (expr_size e < n)%nat) (Ht : typed e = true) :
  match r_expr (calls_at n) e LVALUE_CONTEXT s with
  | Ok (t, s') => wf s' /\ is_Some (ctypes (type_env s') !! t_ctype t) /\ is_address (val_type (t_value t))
  | Stop x => x <> NoFuel
  end.
Proof.
  pose proof (c_expr n _ (calls_at_ok n) s e LVALUE_CONTEXT Hn W) as H.
  destruct (r_expr (calls_at n) e LVALUE_CONTEXT s) as [[t s']|]; [| done].
  destruct H as (W' & _ & _ & (c & d & Ed & _) & Hv). split_and!; [done | by exists d | auto].
Qed.

(** C14: A statement leaves the break and continue targets as it found them, and the
    scopes too but for new names at the end of the innermost one. Its generation
    ends for every statement, whatever loops, switches and gotos it has, and the
    state stays well formed. *)
Theorem statement_restores n st s (W : wf s) (Hn : (statement_size st < n)%nat) :
  match ir_gen_statement (calls_at n) st s with
  | Ok (_, s') => wf s' /\ scopes_le (scope s) (scope s') /\
      break_target s' = break_target s /\ continue_target s' = continue_target s
  | Stop x => x <> NoFuel
  end.
Proof.
  pose proof (statement_ok n _ (calls_at_ok n) st s Hn W) as H.
  destruct (ir_gen_statement (calls_at n) st s) as [[u s']|]; [| done]. destruct H as (W' & _ & [] & _). by split_and!.
Qed.

(** C12: IR generation ends on every unit whose declarations make no data: function
    definitions, inline or not, prototypes, typedefs, structs and extern declarations.
    The fuel that [ir_gen] takes from the number of nodes of the unit is enough. *)
Theorem ir_gen_terminates l
    (Hl : Forall (fun t => match t with FUNCTION_DEF _ => True | DECL d => no_data d = true end) l) :
  ir_gen l <> Stop NoFuel.
Proof.
  unfold ir_gen. destruct initial_context as [s|] eqn:E; [| vm_compute in E; discriminate].
  assert (H : type_env s = init_type_env /\ scope s = [[]] /\ inline_functions s = []) by (vm_compute in E; injection E as <-; done).
  destruct H as (E1 & E2 & E3). clear E. cbn [mbind res_bind]. unfold unit_size.
  assert (I : inlines_ok (S (sum_list_with toplevel_size l)) s) by (unfold inlines_ok; rewrite E3; constructor).
  pose proof (items_top (S (sum_list_with toplevel_size l)) s l ltac:(lia) Hl (init_wf s E1 E2) I) as H.
  destruct (gen_items _ l s) as [[[] s1]|]; [| cbn; congruence]. destruct H as (W1 & _).
  pose proof (resolve_gotos_ok s1 (goto_labels s1) (goto_fixups s1) W1) as H. cbn [mbind res_bind].
  destruct (resolve_gotos _ _ s1) as [[[] s2]|]; [| cbn; congruence]. cbn.
  destruct (head _) as [g|]; [cbn | done]. by destruct (String.eqb _ _).
Qed.

(** ** Constants of globals *)

(** Type [u] is part of type [t]: its element type or the type of a field. *)
Definition contains (te : TypeEnv) (t u : nat) : Prop :=
  match ctypes te !! t with
  | Some (ARRAY_TYPE e _ _ _) => u = e
  | Some (STRUCT_TYPE _ l _) => exists f, f ∈ l /\ cd_type f = u
  | _ => False
  end.
(** No type contains itself. *)
Definition acyclic (te : TypeEnv) : Prop := forall t, ~ tc (contains te) t t.

(** A chain of [n] types, each inside the one before. *)
Inductive chain (te : TypeEnv) : nat -> nat -> Prop :=
| chain_O t : chain te O t
| chain_S n t u : contains te t u -> chain te n u -> chain te (S n) t.

Lemma chain_path te n t : chain te n t -> exists l, length l = n /\ Forall (fun u => (u < length (ctypes te))%nat) l /\
  (acyclic te -> NoDup l /\ forall u, u ∈ l -> u = t \/ tc (contains te) t u).
Proof.
  induction 1 as [t|n t u Hc _ (l & El & Hl & Ha)].
  - exists []. split_and!; [done | done |]. intros _. split; [constructor | intros u Hu; by apply elem_of_nil in Hu].
  - exists (t :: l). split_and!; [by cbn; rewrite El | |].
    + constructor; [| done]. unfold contains in Hc. destruct (ctypes te !! t) eqn:E; [by eapply lookup_lt_Some | done].
    + intros A. destruct (Ha A) as [Hd Hu]. split.
      * constructor; [| done]. intros Ht. destruct (Hu t Ht) as [<- | Hr]; [apply (A t), tc_once, Hc |].
        apply (A t). by eapply tc_l.
      * intros v [-> | Hv]%elem_of_cons; [by left | right]. destruct (Hu v Hv) as [-> | Hr]; [by apply tc_once | by eapply tc_l].
Qed.

(** In a store without cycles no chain has more types than the store. *)
Lemma chain_bound te n t : acyclic te -> chain te n t -> (n <= length (ctypes te))%nat.
Proof.
  intros A H. destruct (chain_path te n t H) as (l & <- & Hl & Ha). destruct (Ha A) as [Hd _].
  rewrite <- (length_seq (length (ctypes te)) 0). apply submseteq_length, NoDup_submseteq; [done |].
  intros u Hu. rewrite Forall_forall in Hl. apply elem_of_seq. specialize (Hl u Hu). lia.
Qed.

(** [m] leaves the types alone and runs out of fuel only if [P]. *)
Definition fuel_if {A} (P : Prop) (te : TypeEnv) (m : gen A) (Q : A -> Prop) : Prop :=
  forall s, type_env s = te -> match m s with Ok (a, s') => type_env s' = te /\ Q a | Stop e => e = NoFuel -> P end.

Section Fuel_if.
Context (P : Prop) (te : TypeEnv).
Lemma fi_bind {A B} (m : gen A) (f : A -> gen B) Q1 Q2 : fuel_if P te m Q1 -> (forall a, Q1 a -> fuel_if P te (f a) Q2) ->
  fuel_if P te (m ≫= f) Q2.
Proof.
  intros H1 H2 s E. specialize (H1 s E). unfold mbind, st_bind. destruct (m s) as [[a s1]|]; [| done].
  destruct H1 as [E1 HQ]. by apply (H2 a HQ s1).
Qed.
Lemma fi_ret {A} (a : A) (Q : A -> Prop) : Q a -> fuel_if P te (mret a) Q.
Proof. intros HQ s E. by cbn. Qed.
Lemma fi_get_bind {B} (f : IrGenContext -> gen B) Q : (forall s, type_env s = te -> fuel_if P te (f s) Q) -> fuel_if P te (get ≫= f) Q.
Proof. intros H s E. by apply (H s E s). Qed.
Lemma fi_lift {A} (r : res A) (Q : A -> Prop) : nf r -> (forall a, r = Ok a -> Q a) -> fuel_if P te (lift r) Q.
Proof. intros N H s E. unfold lift. destruct r as [a|e]; [by auto | intros ->; by destruct N]. Qed.
Lemma fi_builder {A} (c : st IrBuilder A) Q : bok c Q -> fuel_if P te (on_builder c) Q.
Proof.
  intros H s E. specialize (H (builder s)). unfold on_builder, zoom. destruct (c (builder s)) as [[a b]|]; [| done].
  by destruct H as [_ HQ].
Qed.
Lemma fi_kind t : fuel_if P te (kind t) (fun c => ctypes te !! t = Some c).
Proof.
  intros s E. unfold kind, ask, mbind, st_bind, get, lift, ctype. rewrite E. by destruct (ctypes te !! t).
Qed.
Lemma fi_ir_type t : fuel_if P te (ir_type_of t) (fun _ => True).
Proof.
  intros s E. unfold ir_type_of, ask_ir, mbind, st_bind, get, lift.
  pose proof (nf_ir_type (type_env s) (module (builder s)) t) as N. destruct (c_type_to_ir_type _ _ t); [done | by intros ->].
Qed.
Lemma fi_for_each n body : (forall i, fuel_if P te (body i) (fun _ => True)) -> fuel_if P te (for_each n body) (fun _ => True).
Proof.
  intros Hb. unfold for_each. generalize 0%nat as k. induction n as [|n IH]; intros k; cbn; [by apply fi_ret |].
  eapply fi_bind; [apply Hb | intros _ _; apply IH].
Qed.
End Fuel_if.

Lemma fi_mono {A} (P P' : Prop) te (m : gen A) Q : (P -> P') -> fuel_if P te m Q -> fuel_if P' te m Q.
Proof. intros I H s E. specialize (H s E). destruct (m s) as [[a s']|]; auto. Qed.

(** Steps of a computation that leaves the types alone. *)
Ltac fstep :=
  lazymatch goal with
  | |- fuel_if _ _ (mret _) _ => by apply fi_ret
  | |- fuel_if _ _ (get ≫= _) _ => apply fi_get_bind; intros ? ?
  | |- fuel_if _ _ (lift _ ≫= _) _ => eapply (fi_bind _ _ _ _ (fun _ => True)); [apply fi_lift; [solve [nofuel] | done] | intros ? _]
  | |- fuel_if _ _ (lift _) _ => apply fi_lift; [solve [nofuel] | done]
  | |- fuel_if _ _ fatal _ => apply fi_lift; [solve [nofuel] | done]
  | |- fuel_if _ _ (on_builder _ ≫= _) _ => eapply fi_bind; [apply fi_builder; solve [bstep] | intros ? _]
  | |- fuel_if _ _ (on_builder _) _ => eapply (fi_builder _ _ _ (fun _ => True)); solve [bstep]
  | |- fuel_if _ _ (ir_type_of _ ≫= _) _ => eapply fi_bind; [apply fi_ir_type | intros ? _]
  | |- fuel_if _ _ (match ?x with _ => _ end) _ => destruct x
  | |- fuel_if _ _ (_ ≫= _) _ => eapply fi_bind; [solve [eauto 2 with fuel_if] | intros ? _]
  end.
Create HintDb fuel_if.

Lemma fi_const_at P te k : fuel_if P te (const_at k) (fun _ => True).
Proof. unfold const_at. repeat fstep. Qed.
#[export] Hint Resolve fi_const_at : fuel_if.
Lemma fi_store_const P te b i k : fuel_if P te (store_const b i k) (fun _ => True).
Proof. unfold store_const. repeat fstep. Qed.
Lemma fi_const_block P te k : fuel_if P te (const_block k) (fun _ => True).
Proof. unfold const_block. repeat fstep. Qed.
#[export] Hint Resolve fi_store_const fi_const_block : fuel_if.

(** Running out of fuel takes a chain of types as long as the fuel. *)
Lemma zero_chain te fuel t : fuel_if (chain te fuel t) te (zero_initializer_aux fuel t) (fun _ => True).
Proof.
  revert t. induction fuel as [|fuel IH]; intros t; cbn.
  { intros s E _. constructor. }
  eapply fi_bind; [apply fi_kind | intros c Ec]. cbn in Ec.
  assert (Hc : forall u, contains te t u -> fuel_if (chain te (S fuel) t) te (zero_initializer_aux fuel u) (fun _ => True)).
  { intros u Hu. eapply fi_mono; [| apply IH]. intros H. by eapply chain_S. }
  unfold contains in Hc. rewrite Ec in Hc. destruct c as [| | | |inc l k| |e inc sz k]; try (repeat fstep; fail).
  - destruct inc; [fstep |]. do 3 fstep. eapply fi_bind; [apply fi_for_each; intros i | intros _ _; fstep].
    eapply (fi_bind _ _ _ _ (fun f => f ∈ l)).
    { apply fi_lift; [nofuel |]. intros f Ef%of_opt_Ok. by eapply list_elem_of_lookup_2. }
    intros f Hf. eapply fi_bind; [apply Hc; by exists f | intros z _; eauto with fuel_if].
  - destruct inc; [fstep |]. do 4 fstep. eapply fi_bind; [apply fi_for_each; intros i | intros _ _; fstep].
    eapply fi_bind; [by apply Hc | intros z _; eauto with fuel_if].
Qed.

(** The same for the whole: there is a chain longer than the store. *)
Definition too_deep (te : TypeEnv) : Prop := exists t, chain te (S (length (ctypes te))) t.
Lemma zero_fuel te t : fuel_if (too_deep te) te (zero_initializer t) (fun _ => True).
Proof.
  unfold zero_initializer. apply fi_get_bind. intros s E. rewrite E. eapply fi_mono; [| apply zero_chain]. intros H. by exists t.
Qed.
#[export] Hint Resolve zero_fuel : fuel_if.

Lemma fi_sub_elem P te c i : fuel_if P te (lift (sub_elem c i)) (fun e => (ci_depth e < ci_depth c)%nat).
Proof. apply fi_lift; [nofuel |]. apply sub_elem_depth. Qed.

Lemma const_gen_fuel te fuel :
  (forall c, (2 * ci_depth c <= fuel)%nat -> fuel_if (too_deep te) te (const_gen_c_init_aux fuel c) (fun _ => True)) /\
  (forall c b i, (2 * ci_depth c <= S fuel)%nat -> fuel_if (too_deep te) te (const_gen_c_init_array fuel c b i) (fun _ => True)).
Proof.
  induction fuel as [|fuel [IH1 IH2]].
  { split; intros c; pose proof (ci_depth_pos c); lia. }
  split.
  - intros c Hd. cbn [const_gen_c_init_aux]. fstep. eapply fi_bind; [apply fi_kind | intros k _].
    destruct k as [| | | |inc l k| |e inc sz k]; try (repeat fstep; fail).
    + do 4 fstep. fstep. eapply fi_bind; [apply fi_for_each; intros i | intros _ _; fstep]. fstep.
      eapply fi_bind; [apply fi_sub_elem | intros e He]. eapply (fi_bind _ _ _ _ (fun _ => True)); [| intros z _; eauto with fuel_if].
      cbn in He. destruct (ci_type e); [apply IH1; lia | apply zero_fuel].
  - intros c b i Hd. cbn [const_gen_c_init_array]. fstep. eapply fi_bind; [apply fi_kind | intros k _].
    destruct k as [| | | |inc l k| |e inc sz k]; try (repeat fstep; fail). eapply fi_bind; [apply fi_kind | intros ce _]. fstep. cbv zeta.
    assert (G : fuel_if (too_deep te) te (for_each (Z.to_nat (u32 a0)) (fun i0 =>
        e0 ← lift (sub_elem c (Z.of_nat i0));
        z ← match ci_type e0 with Some _ => const_gen_c_init_aux fuel e0 | None => zero_initializer e end;
        store_const b (u32 (i + Z.of_nat i0)) z);; mret (u32 (i + a0))) (fun _ => True)).
    { eapply fi_bind; [apply fi_for_each; intros j | intros _ _; fstep].
      eapply fi_bind; [apply fi_sub_elem | intros x Hx; cbn in Hx]. eapply (fi_bind _ _ _ _ (fun _ => True)); [| intros z _; eauto with fuel_if].
      destruct (ci_type x); [apply IH1; lia | apply zero_fuel]. }
    destruct ce; try exact G. clear G. generalize (seq 0 (Z.to_nat (u32 a0))) as l. intros l. revert i.
    induction l as [|j l IHl]; intros i; cbn; [by apply fi_ret |].
    eapply fi_bind; [apply fi_sub_elem | intros x Hx; cbn in Hx]. eapply fi_bind; [apply IH2; lia | intros; apply IHl].
Qed.

(** C25: The constants of a global are built in finitely many steps: zeroing recurses
    through the element and field types, and ends unless a type contains itself; the
    walk over an initialiser ends with it. *)
Theorem constants_terminate s (A : acyclic (type_env s)) c t :
  const_gen_c_init c s <> Stop NoFuel /\ zero_initializer t s <> Stop NoFuel.
Proof.
  assert (N : ~ too_deep (type_env s)).
  { intros [u Hu]. pose proof (chain_bound _ _ _ A Hu). lia. }
  split.
  - pose proof (proj1 (const_gen_fuel (type_env s) (2 * ci_depth c)) c ltac:(lia) s eq_refl) as H.
    unfold const_gen_c_init. destruct (const_gen_c_init_aux _ c s) as [[a s']|]; [done | intros [= ->]; by apply N, H].
  - pose proof (zero_fuel (type_env s) t s eq_refl) as H. destruct (zero_initializer t s) as [[a s']|]; [done | intros [= ->]; by apply N, H].
Qed.

(** ** Concrete runs *)

(** The context of [initial_context], inside the scratch function. *)
Definition scratch_context : IrGenContext :=
  match initial_context with
  | Ok c => set_builder c (mkBuilder (module (builder c)) (Some (scratch_function c)) (Some 0%nat))
  | Stop _ => empty_context
  end.
Lemma scratch_wf : wf scratch_context.
Proof. apply init_wf; vm_compute; reflexivity. Qed.

Definition int_lit (x : Z) : ASTExpr := INT_LITERAL_EXPR (mkIntLiteral x Lex.NO_SUFFIX).
Definition int_spec : list ASTDeclSpecifier := [TYPE_SPECIFIER (NAMED_TYPE_SPECIFIER "int")].
Definition var (name : string) : ASTDirectDeclarator := IDENTIFIER_DECLARATOR (Some name).
(** [{ int x; while (x < 10) { x = x + 1; break; } }] *)
Definition count_loop : ASTStatement :=
  COMPOUND_STATEMENT
    [BLOCK_ITEM_DECL (mkDecl int_spec [mkInitDeclarator (DIRECT_DECLARATOR (var "x")) None]);
     BLOCK_ITEM_STATEMENT (WHILE_STATEMENT (LESS_THAN_EXPR (IDENTIFIER_EXPR "x") (int_lit 10))
       (COMPOUND_STATEMENT
          [BLOCK_ITEM_STATEMENT (EXPR_STATEMENT
             (ASSIGN_EXPR (IDENTIFIER_EXPR "x") (ADD_EXPR (IDENTIFIER_EXPR "x") (int_lit 1))));
           BLOCK_ITEM_STATEMENT BREAK_STATEMENT]))].

Example loop_runs : (fun r => match r with Ok (_, c) => Some (length (scope c)) | Stop _ => None end)
  (ir_gen_statement (calls_at 20) count_loop scratch_context) = Some 1%nat.
Proof. vm_compute. reflexivity. Qed.

(** [1 + (char)2] *)
Definition sum_expr : ASTExpr :=
  ADD_EXPR (int_lit 1) (CAST_EXPR (mkTypeName [TYPE_SPECIFIER (NAMED_TYPE_SPECIFIER "char")] None) (int_lit 2)).

(** The char at the null pointer. *)
Definition null_deref : ASTExpr :=
  DEREF_EXPR (CAST_EXPR (mkTypeName [TYPE_SPECIFIER (NAMED_TYPE_SPECIFIER "char")]
    (Some (POINTER_DECLARATOR (Some (DIRECT_DECLARATOR (IDENTIFIER_DECLARATOR None)))))) (int_lit 0)).
Lemma lvalue_sound_witness :
  match r_expr (calls_at 12) null_deref LVALUE_CONTEXT scratch_context with
  | Ok (t, s') => wf s' /\ is_Some (ctypes (type_env s') !! t_ctype t) /\ is_address (val_type (t_value t))
  | Stop x => x <> NoFuel
  end.
Proof. apply (lvalue_sound 12 null_deref scratch_context scratch_wf); [cbn; lia | reflexivity]. Defined.

Lemma statement_restores_witness :
  match ir_gen_statement (calls_at 20) count_loop scratch_context with
  | Ok (_, s') => wf s' /\ scopes_le (scope scratch_context) (scope s') /\
      break_target s' = break_target scratch_context /\ continue_target s' = continue_target scratch_context
  | Stop x => x <> NoFuel
  end.
Proof. apply (statement_restores 20 count_loop scratch_context scratch_wf). vm_compute. lia. Defined.

(** [int f(int x); int f(int x) { return x ? x + 1 : 2; }] *)
Definition f_declarator : ASTDeclarator :=
  DIRECT_DECLARATOR (FUNCTION_DECLARATOR (var "f") [PARAMETER_DECL int_spec (Some (DIRECT_DECLARATOR (var "x")))]).
Definition f_unit : list ASTToplevel :=
  [DECL (mkDecl int_spec [mkInitDeclarator f_declarator None]);
   FUNCTION_DEF (mkFunctionDef int_spec f_declarator []
     (RETURN_STATEMENT (Some (CONDITIONAL_EXPR (IDENTIFIER_EXPR "x") (ADD_EXPR (IDENTIFIER_EXPR "x") (int_lit 1)) (int_lit 2)))))].
Lemma ir_gen_terminates_witness : ir_gen f_unit <> Stop NoFuel.
Proof. apply ir_gen_terminates. repeat constructor. Defined.
Example f_unit_compiles : match ir_gen f_unit with Ok _ => True | Stop _ => False end.
Proof. vm_compute. exact I. Qed.

Lemma constants_terminate_witness :
  const_gen_c_init (mkCInit (Some int_type) true (LEAF_VALUE (value_const_int (IR_INT 32) 7))) scratch_context <> Stop NoFuel /\
  zero_initializer char_type scratch_context <> Stop NoFuel.
Proof.
  apply (constants_terminate scratch_context). intros t H.
  assert (N : forall u v, ~ contains (type_env scratch_context) u v).
  { intros u v. unfold contains. destruct (ctypes _ !! u) as [c|] eqn:E; [| tauto]. apply list_elem_of_lookup_2 in E.
    vm_compute in E. repeat (apply elem_of_cons in E as [-> | E]; [tauto |]). by apply elem_of_nil in E. }
  inversion H; subst; by eapply N.
Defined.

(** [struct S { struct S { int x; } y; } g;]: the outer definition completes the type
    that the inner one has completed, the struct contains itself, and zeroing the
    global recurses for ever. *)
Definition struct_s (fields : list ASTFieldDecl) : list ASTDeclSpecifier :=
  [TYPE_SPECIFIER (STRUCT_TYPE_SPECIFIER (Some "S"%string) fields None)].
Definition field_of (specs : list ASTDeclSpecifier) (name : string) : ASTFieldDecl :=
  mkFieldDecl specs [NORMAL_FIELD_DECLARATOR (DIRECT_DECLARATOR (var name))].
Example self_nested_struct :
  ir_gen [DECL (mkDecl (struct_s [field_of (struct_s [field_of int_spec "x"]) "y"])
    [mkInitDeclarator (DIRECT_DECLARATOR (var "g")) None])] = Stop NoFuel.
Proof. vm_compute. reflexivity. Qed.

(** [~1.5] is a double that is called an int; [__builtin_inf] is an lvalue without an
    address. *)
Example bit_not_of_float : (fun r => match r with Ok (t, _) => Some (t_ctype t, val_type (t_value t)) | Stop _ => None end)
  (r_expr (calls_at 4) (BIT_NOT_EXPR (FLOAT_LITERAL_EXPR (mkFloatLiteral float_zero Lex.NO_SUFFIX))) RVALUE_CONTEXT scratch_context)
  = Some (int_type, IR_FLOAT 64).
Proof. vm_compute. reflexivity. Qed.
Example infinity_as_lvalue : (fun r => match r with Ok (t, _) => Some (val_type (t_value t)) | Stop _ => None end)
  (r_expr (calls_at 4) (IDENTIFIER_EXPR "__builtin_inf") LVALUE_CONTEXT scratch_context) = Some (IR_FLOAT 32).
Proof. vm_compute. reflexivity. Qed.
