(* ===== verification/Driver.v ===== *)
(** * The compiler driver ([src/src/bin/ncc.c])

    [compile_file] sends a source file through the parts of the compiler and [main] reads
    the command line, compiles the sources and links. The files are a map from names to
    contents, of which the drivers see only what they open; messages and dumps are left out.
    [make_temp_file] and [make_file_executable] of [file.c] are here too. [fuel] bounds the
    loops of the parts that need not end. *)

From S2P Require ParseExpr.
From S2P Require Import Prelude Array Strings Reader Lex Stream Ir Ast Parse Preprocess Context IrGen Asm RegAlloc AsmGen Encodings Elf.

Local Open Scope Z_scope.

Abbreviation FS := (gmap string (list Z)).

(** [STRING(s)]: the characters with their terminator. *)
Definition STRING (s : string) : Strings.String :=
  Strings.mkString (Some (bytes_of s ++ [0])) (u32 (Z.of_nat (length (bytes_of s)))).

Section Driver.
(** What [malloc] and uninitialised variables hold; the files that can be written; the
    directory of the compiler. *)
Context (junk : nat -> Z) (garbage : list Z) (writable : string -> bool) (toolchain_dir : string) (fuel : nat).

Definition fopen_write (name : string) (fs : FS) : option FILE * FS :=
  if writable name then (Some empty_file, <[name := []]> fs) else (None, fs).
Definition close (name : string) (f : option FILE) (fs : FS) : FS :=
  match f with Some f => <[name := file_bytes f]> fs | None => fs end.

(** The file that a counted string names. *)
Definition c_name (s : Strings.String) : res string :=
  l ← Strings.string_to_c_string junk s; Ok (symbol_name (until_nul l)).

(** ** [file.c] *)

(** [rands] are the numbers that [rand] gives next. *)
Fixpoint make_temp_file (rands : list Z) (fs : FS) : res (string * list Z * FS) :=
  match rands with
  | [] => Stop NoFuel
  | rand_suffix :: rands =>
      let filename := ("/tmp/ncc_temp_" +:+ hex (u32 rand_suffix) +:+ ".o")%string in
      match fs !! filename with
      | Some _ => make_temp_file rands fs
      | None => if writable filename then Ok (filename, rands, <[filename := []]> fs) else Stop (Exit EXIT_CODE_IO_ERROR)
      end
  end.

(** The mode of the file is left out. *)
Definition make_file_executable (filename : string) (fs : FS) : ExitCode :=
  match fs !! filename with None => EXIT_CODE_IO_ERROR | Some _ => EXIT_CODE_SUCCESS end.

(** ** [compile_file] *)

(** The parser of expressions that the preprocessor calls; a parse that reads past its
    tokens is taken as an error. *)
Definition expr_of_tokens (l : list SourceToken) : option ASTExpr :=
  match parse_expr l no_longest with Ok (inr e, _) => Some e | _ => None end.

Definition write_preprocessed (output_filename : Strings.String) (text : list Z) (fs : FS) : res (ExitCode * FS) :=
  to_stdout ← (if negb (Strings.is_valid output_filename) then Ok true else Strings.string_eq output_filename (STRING "-"));
  if (to_stdout : bool) then Ok (EXIT_CODE_SUCCESS, fs)
  else
    name ← c_name output_filename;
    match fopen_write name fs with
    | (None, fs) => Ok (EXIT_CODE_IO_ERROR, fs)
    | (Some _, fs) => Ok (EXIT_CODE_SUCCESS, <[name := until_nul (text ++ [0])]> fs)
    end.

(** From the tree to the object file. *)
Definition generate (input_filename : string) (output_filename : Strings.String) (ast : list ASTToplevel) (fs : FS)
    : res (ExitCode * FS) :=
  '(ir_module, globals) ← ir_gen ast;
  '(_, builder) ← generate_asm_module globals garbage fuel (init_asm_builder ir_module input_filename);
  asm_module ← assemble select (g_asm builder);
  name ← c_name output_filename;
  let '(opened, fs) := fopen_write name fs in
  '(result, written) ← write_elf_object_file opened asm_module;
  Ok (result, close name written fs).

Definition compile_file (input_filename : string) (output_filename : Strings.String) (include_dirs : list string)
    (syntax_only preprocess_only : bool) (fs : FS) : res (ExitCode * FS) :=
  '(okay, text, adjustments, _) ← preprocess (fun f => fs !! f) (fun f => bool_decide (is_Some (fs !! f))) expr_of_tokens
                                      include_dirs fuel input_filename;
  if negb okay then Ok (EXIT_CODE_INVALID_SOURCE, fs)
  else if preprocess_only then write_preprocessed output_filename text fs
  else
    '(okay, tokens, _) ← lex fuel text adjustments;
    if negb okay then Ok (EXIT_CODE_INVALID_SOURCE, fs)
    else
      '(parsed, _) ← parse_toplevel tokens no_longest;
      match parsed with
      | inl _ => Ok (EXIT_CODE_INVALID_SOURCE, fs)
      | inr ast => if syntax_only then Ok (EXIT_CODE_SUCCESS, fs) else generate input_filename output_filename ast fs
      end.

(** ** The command line *)

Record Options := mkOptions {
  o_include_dirs : list string;
  o_do_link : bool;
  o_syntax_only : bool;
  o_preprocess_only : bool;
  o_freestanding : bool;
  o_output_filename : option string;
  o_source_inputs : list string;
  o_linker_inputs : list string
}.
Definition no_options : Options := mkOptions [] true false false false None [] [].
Definition add_include_dir (d : string) (o : Options) :=
  mkOptions (o_include_dirs o ++ [d]) (o_do_link o) (o_syntax_only o) (o_preprocess_only o) (o_freestanding o) (o_output_filename o)
    (o_source_inputs o) (o_linker_inputs o).
Definition set_compile_only (o : Options) :=
  mkOptions (o_include_dirs o) false (o_syntax_only o) (o_preprocess_only o) (o_freestanding o) (o_output_filename o)
    (o_source_inputs o) (o_linker_inputs o).
Definition set_syntax_only (o : Options) :=
  mkOptions (o_include_dirs o) (o_do_link o) true (o_preprocess_only o) (o_freestanding o) (o_output_filename o)
    (o_source_inputs o) (o_linker_inputs o).
Definition set_preprocess_only (o : Options) :=
  mkOptions (o_include_dirs o) (o_do_link o) (o_syntax_only o) true (o_freestanding o) (o_output_filename o)
    (o_source_inputs o) (o_linker_inputs o).
Definition set_freestanding (o : Options) :=
  mkOptions (o_include_dirs o) (o_do_link o) (o_syntax_only o) (o_preprocess_only o) true (o_output_filename o)
    (o_source_inputs o) (o_linker_inputs o).
Definition set_output (f : string) (o : Options) :=
  mkOptions (o_include_dirs o) (o_do_link o) (o_syntax_only o) (o_preprocess_only o) (o_freestanding o) (Some f)
    (o_source_inputs o) (o_linker_inputs o).
Definition add_input (to_linker : bool) (f : string) (o : Options) :=
  mkOptions (o_include_dirs o) (o_do_link o) (o_syntax_only o) (o_preprocess_only o) (o_freestanding o) (o_output_filename o)
    (if to_linker then o_source_inputs o else o_source_inputs o ++ [f]) (if to_linker then o_linker_inputs o ++ [f] else o_linker_inputs o).

Definition after (n : nat) (s : string) : string := String.substring n (String.length s - n)%nat s.
(** [include_dir[len - 1]] of an empty name is outside of it. *)
Definition include_dir (d : string) : res string :=
  if String.eqb d "" then Stop Undef
  else if String.eqb (after (String.length d - 1)%nat d) "/" then Ok d else Ok (d +:+ "/").

(** Flags without an effect on files. *)
Definition is_ignored (arg : string) : bool :=
  existsb (String.eqb arg) ["-dump-tokens"; "-dump-ast"; "-dump-ir"; "-dump-asm"; "-dump-live-ranges"; "-dump-register-assignments";
    "-print-pre-regalloc-stats"; "-fcolor-diagnostics"; "-g"; "-fno-asynchronous-unwind-tables"; "-fno-common"]%string
  || String.prefix "-W" arg.

(** The loop over the arguments: the exit code, or the options. *)
Fixpoint parse_args (fs : FS) (args : list string) (o : Options) : res (ExitCode + Options) :=
  match args with
  | [] => Ok (inr o)
  | arg :: args =>
      if String.prefix "-" arg then
        if String.eqb arg "--version" then Ok (inl EXIT_CODE_SUCCESS)
        else if String.eqb arg "-E" then parse_args fs args (set_preprocess_only o)
        else if String.eqb arg "-fsyntax-only" then parse_args fs args (set_syntax_only o)
        else if String.eqb arg "-ffreestanding" then parse_args fs args (set_freestanding o)
        else if String.eqb arg "-c" then parse_args fs args (set_compile_only o)
        else if String.prefix "-I" arg then d ← include_dir (after 2 arg); parse_args fs args (add_include_dir d o)
        else if String.prefix "-std=" arg then
          if String.eqb (after 5 arg) "c99" then parse_args fs args o else Ok (inl EXIT_CODE_UNIMPLEMENTED)
        else if String.eqb arg "-o" then
          match args with
          | [] => Ok (inl EXIT_CODE_BAD_CLI)
          | output_filename :: args => parse_args fs args (set_output output_filename o)
          end
        else if is_ignored arg then parse_args fs args o
        else Ok (inl EXIT_CODE_BAD_CLI)
      else
        match fs !! arg with
        | None => Ok (inl EXIT_CODE_IO_ERROR)
        | Some bytes =>
            match file_type_of_bytes (take 8 bytes) with
            | ELF_FILE_TYPE | AR_FILE_TYPE => parse_args fs args (add_input true arg o)
            | UNKNOWN_FILE_TYPE => parse_args fs args (add_input false arg o)
            end
        end
  end.

(** ** [main] *)

(** "dir/file.c" becomes "./file.c.o": the slash is moved to by advancing the pointer; the
    length stays that of the whole name. *)
Fixpoint find_slash (chars : list Z) (last_slash : nat) : nat :=
  match last_slash with
  | O => O
  | S n => if bool_decide (chars !! S n = Some 47) then S n else find_slash chars n
  end.
Definition object_filename (source_input_filename : string) : res Strings.String :=
  name ← Strings.string_concat junk (STRING source_input_filename) (STRING ".o");
  let chars := Strings.char_bytes name in
  let last_slash := find_slash chars (String.length source_input_filename - 1) in
  if decide (last_slash = 0%nat) then Ok name
  else Ok (Strings.mkString (Some (drop (last_slash - 1) (<[(last_slash - 1)%nat := 46]> chars))) (Strings.len name)).

(** Where a source is compiled to: the files for the linker, the temporary files, and the
    random numbers and files that are left. *)
Record Progress := mkProgress {
  linker_inputs : list string;
  temp_filenames : list string;
  rands : list Z;
  files : FS
}.
Definition set_files (fs : FS) (p : Progress) : Progress := mkProgress (linker_inputs p) (temp_filenames p) (rands p) fs.

Definition object_for (o : Options) (source : string) (p : Progress) : res (Strings.String * Progress) :=
  if o_preprocess_only o then Ok (match o_output_filename o with Some f => STRING f | None => Strings.INVALID_STRING end, p)
  else if o_syntax_only o then Ok (Strings.INVALID_STRING, p)
  else if o_do_link o then
    '(temp, rands, fs) ← make_temp_file (rands p) (files p);
    Ok (STRING temp, mkProgress (linker_inputs p ++ [temp]) (temp_filenames p ++ [temp]) rands fs)
  else
    match o_output_filename o with
    | Some f => Ok (STRING f, p)
    | None => s ← object_filename source; Ok (s, p)
    end.

Fixpoint compile_sources (o : Options) (include_dirs : list string) (sources : list string) (p : Progress) : res (ExitCode * Progress) :=
  match sources with
  | [] => Ok (EXIT_CODE_SUCCESS, p)
  | source :: sources =>
      '(object, p) ← object_for o source p;
      '(result, fs) ← compile_file source object include_dirs (o_syntax_only o) (o_preprocess_only o) (files p);
      if decide (result = EXIT_CODE_SUCCESS) then compile_sources o include_dirs sources (set_files fs p)
      else Ok (result, set_files fs p)
  end.

(** [remove] of each temporary file; the exit code remembers a failure. *)
Fixpoint remove_files (l : list string) (result : ExitCode) (fs : FS) : ExitCode * FS :=
  match l with
  | [] => (result, fs)
  | f :: l => match fs !! f with
              | Some _ => remove_files l result (delete f fs)
              | None => remove_files l EXIT_CODE_IO_ERROR fs
              end
  end.

Definition executable_filename (o : Options) : string := default "a.out"%string (o_output_filename o).
Definition link (o : Options) (p : Progress) : res (ExitCode * FS) :=
  let inputs := linker_inputs p ++ (if o_freestanding o then [] else [toolchain_dir +:+ "/libc.a"])%string in
  let name := executable_filename o in
  let '(opened, fs) := fopen_write name (files p) in
  '(linker_result, written) ← link_elf_executable opened ((fun f => fs !! f) <$> inputs);
  let fs := close name written fs in
  if decide (linker_result = EXIT_CODE_SUCCESS) then
    let '(result, fs) := remove_files (temp_filenames p) EXIT_CODE_SUCCESS fs in
    if decide (result = EXIT_CODE_SUCCESS) then Ok (make_file_executable name fs, fs) else Ok (result, fs)
  else Ok (linker_result, fs).

Definition all_include_dirs (o : Options) : list string :=
  (toolchain_dir +:+ "/freestanding/") :: (if o_freestanding o then [] else [toolchain_dir +:+ "/include/"]) ++ o_include_dirs o.

Definition links (o : Options) : bool := o_do_link o && negb (o_syntax_only o) && negb (o_preprocess_only o).
(** The exit code and the files; [args] are those behind the name of the program. *)
Definition main (args : list string) (rands : list Z) (fs : FS) : res (ExitCode * FS) :=
  parsed ← parse_args fs args no_options;
  match parsed with
  | inl code => Ok (code, fs)
  | inr o =>
      if bool_decide (o_source_inputs o = []) && bool_decide (o_linker_inputs o = []) then Ok (EXIT_CODE_BAD_CLI, fs)
      else if negb (o_do_link o) && bool_decide (is_Some (o_output_filename o)) && (1 <? length (o_source_inputs o))%nat
      then Ok (EXIT_CODE_BAD_CLI, fs)
      else
        '(result, p) ← compile_sources o (all_include_dirs o) (o_source_inputs o) (mkProgress (o_linker_inputs o) [] rands fs);
        if decide (result = EXIT_CODE_SUCCESS) then
          if links o then link o p else Ok (EXIT_CODE_SUCCESS, files p)
        else Ok (result, files p)
  end.

(** ** Files *)

(** Only the files of [names] may differ. *)
Definition same_but (names : list string) (fs fs' : FS) : Prop := forall f, f ∉ names -> fs' !! f = fs !! f.

Lemma fopen_write_frame name fs opened fs' : fopen_write name fs = (opened, fs') -> same_but [name] fs fs'.
Proof.
  unfold fopen_write. intros E f Hf. rewrite not_elem_of_cons in Hf. destruct Hf as [Hf _].
  destruct (writable name); injection E as <- <-; [by rewrite lookup_insert_ne |  done].
Qed.
Lemma close_frame name f fs : same_but [name] fs (close name f fs).
Proof.
  intros g Hg. rewrite not_elem_of_cons in Hg. destruct Hg as [Hg _]. destruct f; [| done]. cbn [close]. by rewrite lookup_insert_ne.
Qed.
Lemma same_but_trans l fs1 fs2 fs3 : same_but l fs1 fs2 -> same_but l fs2 fs3 -> same_but l fs1 fs3.
Proof. intros H1 H2 f Hf. by rewrite H2, H1. Qed.

(** Compiling writes one file, the one that its argument names. *)
Lemma generate_frame input output ast fs r fs' name : c_name output = Ok name -> generate input output ast fs = Ok (r, fs') ->
  same_but [name] fs fs'.
Proof.
  unfold generate. intros Hn H. apply res_bind_Ok in H as ([m gs] & _ & H). apply res_bind_Ok in H as ([u g] & _ & H).
  apply res_bind_Ok in H as (a & _ & H). rewrite Hn in H. cbn [mbind res_bind] in H.
  destruct (fopen_write name fs) as [opened fs1] eqn:Eo. apply res_bind_Ok in H as ([code written] & _ & H). injection H as _ <-.
  eapply same_but_trans; [by eapply fopen_write_frame | apply close_frame].
Qed.
Lemma compile_frame input output dirs fs r fs' name : c_name output = Ok name ->
  compile_file input output dirs false false fs = Ok (r, fs') -> same_but [name] fs fs'.
Proof.
  unfold compile_file. intros Hn H. apply res_bind_Ok in H as ([[[okay text] adjs] log] & _ & H).
  destruct okay; cbn [negb] in H; [| by injection H as _ <-]. apply res_bind_Ok in H as ([[okay tokens] log'] & _ & H).
  destruct okay; cbn [negb] in H; [| by injection H as _ <-]. apply res_bind_Ok in H as ([[e|ast] l] & _ & H); [by injection H as _ <- |].
  by eapply generate_frame.
Qed.
(** With -fsyntax-only nothing is written. *)
Lemma syntax_only_frame input output dirs fs r fs' : compile_file input output dirs true false fs = Ok (r, fs') -> fs' = fs.
Proof.
  unfold compile_file. intros H. apply res_bind_Ok in H as ([[[okay text] adjs] log] & _ & H).
  destruct okay; cbn [negb] in H; [| by injection H as _ <-]. apply res_bind_Ok in H as ([[okay tokens] log'] & _ & H).
  destruct okay; cbn [negb] in H; [| by injection H as _ <-]. apply res_bind_Ok in H as ([[e|ast] l] & _ & H); by injection H as _ <-.
Qed.

(** *** Names *)

Definition nul_free (s : string) : Prop := 0 ∉ bytes_of s.
Lemma bytes_of_app a b : bytes_of (a +:+ b) = bytes_of a ++ bytes_of b.
Proof.
  induction a as [|c a IH]; [done |].
  change (bytes_of (String.String c a +:+ b)) with (Z.of_nat (Ascii.nat_of_ascii c) :: bytes_of (a +:+ b)). by rewrite IH.
Qed.
Lemma nul_free_app a b : nul_free a -> nul_free b -> nul_free (a +:+ b).
Proof. unfold nul_free. rewrite bytes_of_app, elem_of_app. tauto. Qed.
Lemma nul_free_hex x : nul_free (hex x).
Proof.
  unfold hex. assert (H : forall n x s, nul_free s -> nul_free (hex_aux n x s)); [| by apply H, not_elem_of_nil].
  induction n as [|n IH]; intros y s Hs; [done |]. cbn [hex_aux].
  set (d := y mod 16). assert (Hd : 0 <= d < 16) by (apply Z.mod_pos_bound; lia).
  set (c := Ascii.ascii_of_nat _). assert (Hc : nul_free (String.String c s)).
  { unfold nul_free, bytes_of. cbn. intros [H | H]%elem_of_cons; [| done]. unfold c in H. rewrite Ascii.nat_ascii_embedding in H; destruct (d <? 10); lia. }
  destruct (y / 16 =? 0); [done | by apply IH].
Qed.
Lemma until_nul_app l : 0 ∉ l -> until_nul (l ++ [0]) = l.
Proof.
  induction l as [|c l IH]; [done |]. rewrite not_elem_of_cons. intros [Hc Hl]. cbn [app until_nul].
  destruct (Z.eqb_spec c 0); [congruence |]. by rewrite IH.
Qed.
Lemma c_name_STRING s : nul_free s -> Z.of_nat (length (bytes_of s)) < 2 ^ 31 -> c_name (STRING s) = Ok s.
Proof.
  intros Hs Hl. unfold c_name, Strings.string_to_c_string, Strings.string_bytes, STRING. cbn [Strings.len Strings.chars Strings.char_bytes default].
  set (n := length (bytes_of s)) in *. rewrite !wrap_small by (rewrite ?wrap_small; lia).
  unfold id.  rewrite read_block_Ok by (rewrite ?length_app; cbn [length]; lia). cbn [mbind res_bind]. rewrite Nat2Z.id, drop_0, take_app_length' by done.
  assert (Hb : malloc_block junk (Z.of_nat n + 1) = (junk <$> List.seq 0 n) ++ [junk n]).
  { unfold malloc_block. replace (Z.to_nat (Z.of_nat n + 1)) with (S n) by lia. by rewrite seq_S, fmap_app. }
  rewrite Hb. pose proof (write_block_app [] (bytes_of s) (junk <$> List.seq 0 n) [junk n]) as Hw. cbn [app length] in Hw. change (Z.of_nat 0) with 0 in Hw.
  rewrite Hw by (by rewrite length_fmap, length_seq).
  cbn [mbind res_bind app]. rewrite store_Ok by (rewrite length_app; cbn; lia). cbn [mbind res_bind].
  rewrite Nat2Z.id. unfold n at 1. rewrite <- (Nat.add_0_r (length (bytes_of s))), insert_app_r. cbn.
  rewrite until_nul_app by done. f_equal. apply ParseExpr.symbol_name_bytes_of.
Qed.

Lemma length_bytes_of s : length (bytes_of s) = String.length s.
Proof.
  induction s as [|c s IH]; [done |].
  change (bytes_of (String.String c s)) with (Z.of_nat (Ascii.nat_of_ascii c) :: bytes_of s). cbn [length String.length]. by rewrite IH.
Qed.
Lemma length_hex x : (length (bytes_of (hex x)) <= 8)%nat.
Proof.
  rewrite length_bytes_of. unfold hex. assert (H : forall n y s, (String.length (hex_aux n y s) <= n + String.length s)%nat); [| exact (H 8%nat x EmptyString)].
  induction n as [|n IH]; intros y s; [done |]. cbn [hex_aux]. set (c := Ascii.ascii_of_nat _).
  destruct (y / 16 =? 0); [cbn; lia |]. rewrite IH. cbn. lia.
Qed.
(** A temporary file is new, and its name can be used as a counted string. *)
Lemma make_temp_file_run rands fs t rands' fs' : make_temp_file rands fs = Ok (t, rands', fs') ->
  fs !! t = None /\ fs' = <[t := []]> fs /\ c_name (STRING t) = Ok t.
Proof.
  induction rands as [|r rands IH]; [done |]. cbn [make_temp_file]. set (name := ("/tmp/ncc_temp_" +:+ _)%string).
  destruct (fs !! name) eqn:E; [exact IH |]. destruct (writable name); [| done]. intros [= <- <- <-]. split; [done |]. split; [done |].
  apply c_name_STRING.
  - unfold name. repeat apply nul_free_app; [| apply nul_free_hex |]; unfold nul_free; vm_compute; set_solver.
  - unfold name. rewrite !bytes_of_app, !length_app. pose proof (length_hex (u32 r)).
    change (length (bytes_of "/tmp/ncc_temp_")) with 14%nat. change (length (bytes_of ".o")) with 2%nat. lia.
Qed.

(** *** The whole run *)

(** While sources are compiled for the linker, only temporary files appear. *)
Definition progress_ok (fs : FS) (p : Progress) : Prop :=
  same_but (temp_filenames p) fs (files p) /\ Forall (fun t => fs !! t = None) (temp_filenames p).

Lemma compile_sources_ok o dirs fs sources : links o = true -> forall p r p',
  progress_ok fs p -> compile_sources o dirs sources p = Ok (r, p') -> progress_ok fs p'.
Proof.
  intros Hlink. unfold links in Hlink. apply andb_true_iff in Hlink as [[Hl Hs%negb_true_iff]%andb_true_iff Hp%negb_true_iff].
  induction sources as [|source sources IH]; intros p r p' Hok H; [by injection H as _ <- |]. cbn [compile_sources] in H.
  apply res_bind_Ok in H as ([object p1] & E1 & H). apply res_bind_Ok in H as ([code fs2] & E2 & H).
  unfold object_for in E1. rewrite Hp, Hs, Hl in E1. apply res_bind_Ok in E1 as ([[t rands'] fs1] & Et & E1). injection E1 as <- <-.
  apply make_temp_file_run in Et as (Hnew & -> & Hname). rewrite Hs, Hp in E2. cbn [files] in E2.
  apply (compile_frame _ _ _ _ _ _ _ Hname) in E2. destruct Hok as [Hsame Hnone].
  assert (Hok' : progress_ok fs (set_files fs2 (mkProgress (linker_inputs p ++ [t]) (temp_filenames p ++ [t]) rands' (<[t := []]> (files p))))).
  { split; cbn [temp_filenames files set_files].
    - intros f Hf. rewrite not_elem_of_app, list_elem_of_singleton in Hf. destruct Hf as [Hf Hft].
      rewrite E2 by set_solver. rewrite lookup_insert_ne by done. by apply Hsame.
    - rewrite Forall_app, Forall_singleton. split; [done |]. destruct (decide (t ∈ temp_filenames p)) as [Hin | Hin].
      + rewrite Forall_forall in Hnone. by apply Hnone.
      + by rewrite <- Hsame. }
  case_decide; [by eapply IH | by injection H as _ <-].
Qed.
Lemma remove_files_run l : forall r fs r' fs', remove_files l r fs = (r', fs') ->
  forall f, fs' !! f = if decide (f ∈ l) then None else fs !! f.
Proof.
  induction l as [|t l IH]; intros r fs r' fs' H f; [by injection H as _ <- |]. cbn [remove_files] in H.
  destruct (fs !! t) eqn:E; rewrite (IH _ _ _ _ H f); destruct (decide (f = t)) as [-> | Hne].
  - rewrite (decide_True (P := t ∈ t :: l)) by set_solver. case_decide; [done | by rewrite lookup_delete_eq].
  - rewrite lookup_delete_ne by done. destruct (decide (f ∈ l)); destruct (decide (f ∈ t :: l)); set_solver.
  - rewrite (decide_True (P := t ∈ t :: l)) by set_solver. by case_decide.
  - destruct (decide (f ∈ l)); destruct (decide (f ∈ t :: l)); set_solver.
Qed.

Lemma link_run o p fs' : link o p = Ok (EXIT_CODE_SUCCESS, fs') ->
  is_Some (fs' !! executable_filename o) /\
  forall f, f <> executable_filename o -> fs' !! f = if decide (f ∈ temp_filenames p) then None else files p !! f.
Proof.
  unfold link. destruct (fopen_write _ _) as [opened fs1] eqn:Eo. intros H. apply res_bind_Ok in H as ([code written] & _ & H).
  case_decide as Hc; [| by injection H as Hr _]. destruct (remove_files _ _ _) as [code' fs2] eqn:Er.
  case_decide as Hc'; [| by injection H as Hr _]. injection H as Hx <-. unfold make_file_executable in Hx. split.
  - by destruct (fs2 !! executable_filename o).
  - intros f Hf. rewrite (remove_files_run _ _ _ _ _ Er f). case_decide; [done |].
    rewrite (close_frame (executable_filename o)) by set_solver. by rewrite (fopen_write_frame _ _ _ _ Eo) by set_solver.
Qed.
End Driver.

(** C28: a successful run of the compiler that links leaves behind the executable and nothing
    else: the executable exists, every other file, the temporary object files included, is
    as it was before. *)
Theorem main_leaves_executable junk garbage writable toolchain_dir fuel args rands fs o fs'
    (Hargs : parse_args fs args no_options = Ok (inr o)) (Hlinks : links o = true)
    (Hmain : main junk garbage writable toolchain_dir fuel args rands fs = Ok (EXIT_CODE_SUCCESS, fs')) :
  is_Some (fs' !! executable_filename o) /\ forall f, f <> executable_filename o -> fs' !! f = fs !! f.
Proof.
  unfold main in Hmain. rewrite Hargs in Hmain. cbn [mbind res_bind] in Hmain.
  destruct (_ && _) in Hmain; [done |]. destruct (_ && _) in Hmain; [done |].
  apply res_bind_Ok in Hmain as ([code p] & Ec & Hmain). case_decide; [| by injection Hmain]. rewrite Hlinks in Hmain.
  assert (Hok : progress_ok fs p).
  { eapply (compile_sources_ok junk garbage writable toolchain_dir fuel); [exact Hlinks | | exact Ec]. split; [by intros f _ | constructor]. }
  destruct (link_run junk writable toolchain_dir fuel o p fs' Hmain) as [Hx Hf]. split; [done |]. intros f Hne. rewrite Hf by done.
  destruct Hok as [Hsame Hnone]. case_decide as Hin; [| by apply Hsame]. rewrite Forall_forall in Hnone. symmetry. by apply Hnone.
Qed.

(** A run on text in memory. *)
Definition run_main (args : list string) (fs : FS) : res (ExitCode * FS) :=
  main (fun _ => 0) (replicate 500 0) (fun _ => true) "/ncc" 5000 args [1; 2; 3] fs.
Definition sample_files : FS := {[ "a.c"%string := bytes_of "int _start(void) { int a[2]; a[1] = 42; return a[1]; }" ]}.
Lemma main_leaves_executable_witness : exists o fs',
  parse_args sample_files ["-ffreestanding"; "a.c"; "-o"; "a"]%string no_options = Ok (inr o) /\
  run_main ["-ffreestanding"; "a.c"; "-o"; "a"]%string sample_files = Ok (EXIT_CODE_SUCCESS, fs') /\
  is_Some (fs' !! executable_filename o) /\ forall f, f <> executable_filename o -> fs' !! f = sample_files !! f.
Proof.
  eexists _, _. split; [vm_compute; reflexivity |]. split; [vm_compute; reflexivity |].
  eapply (main_leaves_executable (fun _ => 0) (replicate 500 0) (fun _ => true) "/ncc" 5000 ["-ffreestanding"; "a.c"; "-o"; "a"]%string [1; 2; 3]);
    vm_compute; reflexivity.
Defined.

(** ** Runs *)

Definition one_file (name text : string) : FS := {[ name := bytes_of text ]}.

(** The object file of a function: its magic, and the code of the function at the end of the
    headers: push rbp; mov rbp, rsp; sub rsp, 16; mov eax, 42; jmp; add rsp, 16; pop rbp; ret. *)
Example compiles_to_object :
  match run_main ["-c"; "a.c"; "-o"; "a.o"]%string (one_file "a.c" "int f(void) { return 6 * 7; }") with
  | Ok (EXIT_CODE_SUCCESS, fs) =>
      (l ← fs !! "a.o"%string; Some (file_type_of_bytes l, take 25 (drop 640 l))) =
        Some (ELF_FILE_TYPE, [85; 72; 137; 229; 72; 131; 236; 16; 199; 192; 42; 0; 0; 0; 233; 0; 0; 0; 0; 72; 131; 196; 16; 93; 195])
  | _ => False
  end.
Proof. vm_compute. reflexivity. Qed.

(** The table has no immediates of XOR and none of 32 bits of OR. *)
Example xor_constant_unimplemented :
  run_main ["-c"; "a.c"; "-o"; "a.o"]%string (one_file "a.c" "int f(int x) { return x ^ 5; }") = Stop (Exit EXIT_CODE_UNIMPLEMENTED) /\
  run_main ["-c"; "a.c"; "-o"; "a.o"]%string (one_file "a.c" "int f(int x) { return x | 4096; }") = Stop (Exit EXIT_CODE_UNIMPLEMENTED).
Proof. split; vm_compute; reflexivity. Qed.

(** Without -o the name of the object file keeps the length of the path when its directory
    is cut off, so that it is copied from beyond its end. *)
Example object_name_of_path :
  run_main ["-c"; "src/a.c"]%string (one_file "src/a.c" "int x;") = Stop Undef.
Proof. vm_compute. reflexivity. Qed.
Example object_name_without_directory :
  match run_main ["-c"; "a.c"]%string (one_file "a.c" "int x;") with Ok (code, fs) => code = EXIT_CODE_SUCCESS /\ is_Some (fs !! "a.c.o"%string) | _ => False end.
Proof. vm_compute. split; [reflexivity | by eexists]. Qed.

(** A temporary file stays when a source does not compile or does not link. *)
Example temporary_file_stays :
  match run_main ["-ffreestanding"; "a.c"]%string (one_file "a.c" "int f(void) { return }") with
  | Ok (code, fs) => code = EXIT_CODE_INVALID_SOURCE /\ fs !! "/tmp/ncc_temp_1.o"%string = Some []
  | _ => False
  end.
Proof. vm_compute. by split. Qed.

(** An empty directory for -I *)
Example empty_include_dir : run_main ["-I"; "a.c"]%string (one_file "a.c" "int x;") = Stop Undef.
Proof. vm_compute. reflexivity. Qed.

(** The preprocessor's conditions are parsed with the grammar of expressions. *)
Example conditional_expression :
  match run_main ["-E"; "a.c"; "-o"; "a.i"]%string (one_file "a.c" "#define N (1 + 2 * 3)
#if N == 7 && !defined(M)
yes
#else
no
#endif") with
  | Ok (code, fs) => code = EXIT_CODE_SUCCESS /\ (filter (fun c => 32 < c) <$> fs !! "a.i"%string) = Some (bytes_of "yes")
  | _ => False
  end.
Proof. vm_compute. by split. Qed.

(** A float is converted to an integer by CVTSD2SI (F2 0F 2D), which rounds. *)
Example conversion_rounds :
  match run_main ["-c"; "a.c"; "-o"; "a.o"]%string (one_file "a.c" "int f(double d) { return d; }") with
  | Ok (_, fs) => (take 4 ∘ drop 664) <$> (fs !! "a.o"%string) = Some [242; 68; 15; 45]
  | _ => False
  end.
Proof. vm_compute. reflexivity. Qed.
