(* ===== verification/Archive.v ===== *)
(** * The archiver ([src/src/bin/nar.c])

    [main] writes the files of its command line one after the other into an archive, each
    behind a header of 60 characters; names longer than 16 go to a last member. A header is
    the list of its bytes. [snprintf] is that of the C standard, and a stream in memory is
    short of bytes only at its end, so reading an input does not fail. An input that is the
    archive itself is read as the empty file that opening made of it. The theorem is on
    the linker, which reads the archive as it reads the files. *)

From S2P Require Driver.
From S2P Require Import Prelude LibC Printf Lex Stream Asm Elf ElfSound ElfLink ElfExec.

Local Open Scope Z_scope.

(** ** Headers *)

Definition file_header_size : nat := 60.
Definition blank_header : list Z := replicate file_header_size 32.

(** [n = snprintf(header + pos, size, ...); header[pos + n] = ' '] *)
Definition put_field (header : list Z) (pos size : Z) (text : list Z) : res (list Z) :=
  store (overwrite header (Z.to_nat pos) (take (Z.to_nat (size - 1)) text ++ [0])) (pos + Z.of_nat (length text)) 32.

(** What [printf] makes of a number. *)
Definition print_u (x : Z) : res (list Z) := '(digits, _) ← print_unsigned list_sink [] x 10; Ok digits.
Definition print_ld (x : Z) : res (list Z) := '(digits, _) ← print_integer list_sink [] x 10; Ok digits.

(** The header with the name of a file, and the long names. *)
Definition put_name (input_filename too_long_filenames : list Z) : res (list Z * list Z) :=
  if 16 <? Z.of_nat (length input_filename) then
    digits ← print_u (u32 (Z.of_nat (length too_long_filenames)));
    header ← put_field blank_header 0 17 (bytes_of "/" ++ digits);
    Ok (header, too_long_filenames ++ input_filename ++ [10])
  else
    header ← put_field blank_header 0 17 (input_filename ++ bytes_of "/");
    Ok (header, too_long_filenames).

Definition put_magic (header : list Z) : res (list Z) :=
  header ← store header 58 0x60; store header 59 0x0A.
Definition file_header (input_filename too_long_filenames : list Z) (file_size : Z) : res (list Z * list Z) :=
  '(header, too_long_filenames) ← put_name input_filename too_long_filenames;
  header ← store header 16 48;
  header ← store header 28 48;
  header ← store header 34 48;
  header ← store header 40 54;
  header ← store header 41 52;
  header ← store header 42 52;
  digits ← print_ld file_size;
  header ← put_field header 48 11 digits;
  header ← put_magic header;
  Ok (header, too_long_filenames).
Definition long_names_header (size : Z) : res (list Z) :=
  header ← store blank_header 0 47;
  header ← store header 1 47;
  digits ← print_u (u32 size);
  header ← put_field header 48 11 digits;
  put_magic header.

(** ** The archive *)

Record Nar := mkNar { ar_file : FILE; input_file : FILE; too_long_filenames : list Z }.
Definition on_ar {A} (m : stream A) : st Nar A :=
  zoom ar_file (fun f s => mkNar f (input_file s) (too_long_filenames s)) m.
Definition on_input {A} (m : stream A) : st Nar A :=
  zoom input_file (fun f s => mkNar (ar_file s) f (too_long_filenames s)) m.

(** File headers are aligned to even byte boundaries. *)
Definition align_header : stream unit :=
  p ← checked_ftell; if p mod 2 =? 1 then checked_fseek_cur 1 else mret tt.

Definition read_buf_size : Z := 8192.
Fixpoint copy_input (fuel : nat) (bytes_left : Z) : st Nar unit :=
  if bytes_left =? 0 then mret tt
  else
    match fuel with
    | O => lift (Stop NoFuel)
    | S n =>
        read_buf ← on_input (fread read_buf_size);
        on_ar (checked_fwrite read_buf);;
        copy_input n (bytes_left - Z.of_nat (length read_buf))
    end.

Definition add_file (input_filename : string) (contents : list Z) : st Nar unit :=
  on_ar align_header;;
  modify (fun s => mkNar (ar_file s) (mkFile contents 0) (too_long_filenames s));;
  let file_size := Z.of_nat (length contents) in
  s ← get;
  '(header, names) ← lift (file_header (bytes_of input_filename) (too_long_filenames s) file_size);
  modify (fun s => mkNar (ar_file s) (input_file s) names);;
  on_ar (checked_fwrite header);;
  copy_input (S (length contents)) file_size.

Definition add_long_names : st Nar unit :=
  s ← get;
  let names := too_long_filenames s in
  if Z.of_nat (length names) =? 0 then mret tt
  else
    header ← lift (long_names_header (Z.of_nat (length names)));
    on_ar align_header;;
    on_ar (checked_fwrite header);;
    on_ar (checked_fwrite names).

Fixpoint add_files (fs : Driver.FS) (input_filenames : list string) : st Nar ExitCode :=
  match input_filenames with
  | [] => add_long_names;; mret EXIT_CODE_SUCCESS
  | input_filename :: input_filenames =>
      match fs !! input_filename with
      | None => on_ar align_header;; mret EXIT_CODE_IO_ERROR
      | Some contents => add_file input_filename contents;; add_files fs input_filenames
      end
  end.

(** [main]; what was written of the archive stays when an input does not open. *)
Definition main (writable : string -> bool) (args : list string) (fs : Driver.FS) : res (ExitCode * Driver.FS) :=
  match args with
  | option :: ar_filename :: input_filenames =>
      if negb (bool_decide (option = "-cr"%string)) then Ok (EXIT_CODE_UNIMPLEMENTED, fs)
      else
        let '(opened, fs) := Driver.fopen_write writable ar_filename fs in
        match opened with
        | None => Ok (EXIT_CODE_IO_ERROR, fs)
        | Some file =>
            '(result, s) ← (on_ar (checked_fwrite AR_GLOBAL_HEADER);; add_files fs input_filenames) (mkNar file empty_file []);
            Ok (result, Driver.close ar_filename (Some (ar_file s)) fs)
        end
  | _ => Ok (EXIT_CODE_BAD_CLI, fs)
  end.

Example three_members :
  match main (fun _ => true) ["-cr"; "lib.a"; "a.o"; "a_name_of_18.chars"; "sixteen_chars_.o"]%string
    (<["a.o" := bytes_of "odd"]> (<["a_name_of_18.chars" := []]> {[ "sixteen_chars_.o" := bytes_of "even" ]}))%string with
  | Ok (EXIT_CODE_SUCCESS, fs) => fs !! "lib.a"%string = Some (
      AR_GLOBAL_HEADER ++ bytes_of "a.o/            0           0     0     644     3         `" ++ [10] ++ bytes_of "odd" ++ [0] ++
      bytes_of "/0              0           0     0     644     0         `" ++ [10] ++
      bytes_of "sixteen_chars_.o0           0     0     644     4         `" ++ [10] ++ bytes_of "even" ++
      bytes_of "//                                              19        `" ++ [10] ++ bytes_of "a_name_of_18.chars" ++ [10])
  | _ => False
  end.
Proof. vm_compute. reflexivity. Qed.

(** ** What an archive holds *)

Definition decimal (x : Z) : list Z := match print_u x with Ok digits => digits | Stop _ => [] end.
Definition padded (n : nat) (l : list Z) : list Z := l ++ replicate (n - length l) 32.
Definition member_name (name too_long : list Z) : list Z :=
  if 16 <? Z.of_nat (length name) then bytes_of "/" ++ decimal (Z.of_nat (length too_long))
  else take 16 (name ++ bytes_of "/").
Definition member_header (name : list Z) (size : Z) : list Z :=
  padded 16 name ++ padded 12 [48] ++ padded 6 [48] ++ padded 6 [48] ++ padded 8 [54; 52; 52] ++
  padded 10 (decimal size) ++ [0x60; 0x0A].
Definition names_header (size : Z) : list Z :=
  padded 48 (bytes_of "//") ++ padded 10 (decimal size) ++ [0x60; 0x0A].
Definition more_names (name too_long : list Z) : list Z :=
  if 16 <? Z.of_nat (length name) then too_long ++ name ++ [10] else too_long.
Definition pad (p : nat) : list Z := if Nat.odd p then [0] else [].

(** The members from offset [p] on. *)
Fixpoint members_bytes (p : nat) (too_long : list Z) (l : list (string * list Z)) : list Z :=
  match l with
  | [] => match too_long with [] => [] | _ => pad p ++ names_header (Z.of_nat (length too_long)) ++ too_long end
  | (name, contents) :: l =>
      let d := pad p ++ member_header (member_name (bytes_of name) too_long) (Z.of_nat (length contents)) ++ contents in
      d ++ members_bytes (p + length d) (more_names (bytes_of name) too_long) l
  end.
Definition archive_bytes (l : list (string * list Z)) : list Z := AR_GLOBAL_HEADER ++ members_bytes 8 [] l.

(** *** Numbers *)

Lemma number_value_head ds : forall c, Forall (is_digit 10) (c :: ds) -> digit_value c <> 0 ->
  10 ^ Z.of_nat (length ds) <= number_value 10 (c :: ds).
Proof.
  induction ds as [|x ds IH] using rev_ind; intros c HF Hc.
  - apply Forall_cons in HF as [[_ H] _]. cbn. lia.
  - change (c :: ds ++ [x]) with ((c :: ds) ++ [x]) in *. apply Forall_app in HF as [HF Hx]. rewrite number_value_app, length_app.
    specialize (IH c HF Hc). apply Forall_cons in Hx as [[_ Hx] _]. cbn [length]. rewrite Nat2Z.inj_add, Z.pow_add_r by lia. lia.
Qed.

Lemma decimal_run x : 0 <= x < 10 ^ 10 -> print_u x = Ok (decimal x) /\ print_ld x = Ok (decimal x) /\
  number_value 10 (decimal x) = x /\ Forall (is_digit 10) (decimal x) /\ (0 < length (decimal x) <= 10)%nat.
Proof.
  intros Hx. destruct (print_unsigned_list [] x 10 ltac:(lia) ltac:(lia)) as (ds & E & Hv & HF & _ & c & rest & -> & Hc).
  assert (Hu : print_u x = Ok (c :: rest)) by (unfold print_u; by rewrite E).
  assert (Hd : decimal x = c :: rest) by (unfold decimal; by rewrite Hu). rewrite Hd. split; [done |]. split.
  { unfold print_ld, print_integer. destruct (Z.ltb_spec x 0); [lia |]. rewrite wrap_small by lia. by rewrite E. }
  repeat (split; [done |]). split; [cbn; lia |]. destruct (decide (x = 0)) as [->|Hx0].
  - injection E as _ H. cbn. lia.
  - pose proof (number_value_head rest c HF (Hc Hx0)) as Hn. rewrite Hv in Hn.
    destruct (decide (length rest < 10)%nat); [cbn; lia |].
    pose proof (Z.pow_le_mono_r 10 10 (Z.of_nat (length rest)) ltac:(lia) ltac:(lia)). lia.
Qed.

Lemma digits_no_space l : Forall (is_digit 10) l -> Forall (fun c => 48 <= c <= 57) l.
Proof. intros H. eapply Forall_impl; [exact H |]. intros c Hc. by apply is_digit_10. Qed.

(** *** Fields *)

Lemma padded_length n l : (length l <= n)%nat -> length (padded n l) = n.
Proof. intros H. unfold padded. rewrite length_app, length_replicate. lia. Qed.

(** A text that fits its field. *)
Lemma put_field_fits A text n m : (length text <= n)%nat -> (0 < m)%nat ->
  put_field (A ++ replicate (n + m) 32) (Z.of_nat (length A)) (Z.of_nat n + 1) text = Ok (A ++ padded n text ++ replicate m 32).
Proof.
  intros Ht Hm. unfold put_field. rewrite Nat2Z.id. replace (Z.to_nat (Z.of_nat n + 1 - 1)) with n by lia. rewrite take_ge by lia.
  replace (replicate (n + m) 32) with (replicate (length text + 1) 32 ++ replicate (n + m - length text - 1) 32)
    by (rewrite <- replicate_add; f_equal; lia).
  rewrite overwrite_middle by (rewrite length_app, length_replicate; done). rewrite <- app_assoc. cbn [app].
  rewrite store_Ok by (rewrite !length_app; cbn [length]; lia). f_equal.
  replace (Z.to_nat (Z.of_nat (length A) + Z.of_nat (length text))) with (length A + (length text + 0))%nat by lia.
  rewrite !insert_app_r. cbn [list_insert]. unfold padded. rewrite <- app_assoc. do 2 f_equal.
  rewrite <- replicate_add. change (<[0%nat:=32]> (0 :: replicate (n + m - length text - 1) 32)) with (replicate (S (n + m - length text - 1)) 32).
  f_equal. lia.
Qed.

(** The name field of a full header; 17 characters leave a zero in the next field. *)
Lemma put_field_name text : (length text <= 17)%nat ->
  exists x, put_field blank_header 0 17 text = Ok (padded 16 (take 16 text) ++ x :: replicate 43 32).
Proof.
  intros Ht. destruct (decide (length text <= 16)%nat) as [Hs|Hs].
  - exists 32. rewrite take_ge by lia. change blank_header with ([] ++ replicate (16 + 44) 32). by apply (put_field_fits [] text 16 44); [| lia].
  - exists 0. unfold put_field. change (Z.to_nat 0) with 0%nat. change (Z.to_nat (17 - 1)) with 16%nat.
    change blank_header with ([] ++ replicate 17 32 ++ replicate 43 32). assert (Hl : length (take 16 text) = 16%nat) by (rewrite length_take; lia).
    assert (E := overwrite_middle [] (replicate 17 32) (replicate 43 32) (take 16 text ++ [0])). cbn [length app] in E.
    cbn [app]. rewrite E by (rewrite length_app, Hl, length_replicate; done). rewrite <- app_assoc.
    rewrite store_Ok by (rewrite !length_app, Hl, length_replicate; cbn [length]; lia). f_equal.
    replace (Z.to_nat (0 + Z.of_nat (length text))) with (length (take 16 text) + 1)%nat by lia. rewrite insert_app_r.
    unfold padded. rewrite Hl, Nat.sub_diag, app_nil_r. done.
Qed.

Lemma store_after (A : list Z) n l x : length A = n -> forall i, Z.of_nat n <= i < Z.of_nat (n + length l) ->
  store (A ++ l) i x = Ok (A ++ <[(Z.to_nat i - n)%nat := x]> l).
Proof.
  intros HA i Hi. rewrite store_Ok by (rewrite length_app; lia). f_equal.
  replace (Z.to_nat i) with (length A + (Z.to_nat i - n))%nat at 1 by lia. by rewrite insert_app_r.
Qed.

Lemma member_name_length name too_long : (Z.of_nat (length too_long) < 10 ^ 10) -> (length (member_name name too_long) <= 16)%nat.
Proof.
  intros H. unfold member_name. destruct (Z.ltb_spec 16 (Z.of_nat (length name))); [| rewrite length_take; lia].
  rewrite length_app. destruct (decimal_run (Z.of_nat (length too_long)) ltac:(lia)) as (_ & _ & _ & _ & Hl). cbn. lia.
Qed.

Lemma put_name_run name too_long : Z.of_nat (length too_long) < 2 ^ 32 ->
  exists x, put_name name too_long = Ok (padded 16 (member_name name too_long) ++ x :: replicate 43 32, more_names name too_long).
Proof.
  intros Hl. unfold put_name, member_name, more_names. destruct (Z.ltb_spec 16 (Z.of_nat (length name))).
  - rewrite wrap_small by lia. destruct (decimal_run (Z.of_nat (length too_long)) ltac:(lia)) as (-> & _ & _ & _ & Hd). cbn [mbind res_bind].
    destruct (put_field_name (bytes_of "/" ++ decimal (Z.of_nat (length too_long)))) as [x ->]; [rewrite length_app; cbn; lia |].
    exists x. cbn [mbind res_bind]. rewrite take_ge by (rewrite length_app; cbn; lia). done.
  - destruct (put_field_name (name ++ bytes_of "/")) as [x ->]; [rewrite length_app; cbn; lia |]. by exists x.
Qed.

Lemma put_size_run A size : length A = 48%nat -> 0 <= size < 10 ^ 10 ->
  (header ← put_field (A ++ replicate 12 32) 48 11 (decimal size); put_magic header) = Ok (A ++ padded 10 (decimal size) ++ [0x60; 0x0A]).
Proof.
  intros HA Hs. destruct (decimal_run size Hs) as (_ & _ & _ & _ & Hd).
  pose proof (put_field_fits A (decimal size) 10 2 ltac:(lia) ltac:(lia)) as E. rewrite HA in E. cbn [Nat.add] in E.
  change (Z.of_nat 48) with 48 in E. change (Z.of_nat 10 + 1) with 11 in E. rewrite E. cbn [mbind res_bind]. unfold put_magic.
  rewrite app_assoc. assert (Hl : length (A ++ padded 10 (decimal size)) = 58%nat) by (rewrite length_app, padded_length; lia).
  rewrite (store_after _ 58) by (done || (cbn; lia)). cbn [mbind res_bind].
  rewrite (store_after _ 58) by (done || (cbn; lia)). by rewrite <- app_assoc.
Qed.

Lemma file_header_run name too_long size : Z.of_nat (length too_long) < 2 ^ 32 -> 0 <= size < 10 ^ 10 ->
  file_header name too_long size = Ok (member_header (member_name name too_long) size, more_names name too_long).
Proof.
  intros Hl Hs. unfold file_header. destruct (put_name_run name too_long Hl) as [x ->]. cbn [mbind res_bind].
  set (N := padded 16 (member_name name too_long)).
  assert (HN : length N = 16%nat) by (unfold N; apply padded_length, member_name_length; lia).
  do 6 (rewrite (store_after N 16) by (done || (cbn; lia)); cbn [mbind res_bind]).
  destruct (decimal_run size Hs) as (_ & -> & _). cbn [mbind res_bind].
  set (A := N ++ padded 12 [48] ++ padded 6 [48] ++ padded 6 [48] ++ padded 8 [54; 52; 52]).
  match goal with |- context [put_field (N ++ ?l)] => replace (N ++ l) with (A ++ replicate 12 32) by (unfold A; rewrite <- !app_assoc; reflexivity) end.
  pose proof (put_size_run A size ltac:(unfold A; by rewrite length_app, HN) Hs) as E.
  destruct (put_field _ _ _ _) as [h|]; [| done]. cbn [mbind res_bind] in *. rewrite E. unfold member_header, A. by rewrite <- !app_assoc.
Qed.

Lemma long_names_header_run size : 0 <= size < 10 ^ 10 -> size < 2 ^ 32 -> long_names_header size = Ok (names_header size).
Proof.
  intros Hs H32. unfold long_names_header. rewrite wrap_small by lia. change (store blank_header 0 47) with (Ok (47 :: replicate 59 32)). cbn [mbind res_bind].
  change (store (47 :: replicate 59 32) 1 47) with (Ok (47 :: 47 :: replicate 58 32)). cbn [mbind res_bind].
  destruct (decimal_run size Hs) as (-> & _). cbn [mbind res_bind].
  exact (put_size_run (padded 48 (bytes_of "//")) size eq_refl Hs).
Qed.

(** ** The archive that is written *)

Definition at_end (L : list Z) : FILE := mkFile L (len L).

Lemma on_ar_run {A} (x : stream A) f i t a g : x f = Ok (a, g) -> on_ar x (mkNar f i t) = Ok (a, mkNar g i t).
Proof. intros H. unfold on_ar, zoom. cbn [ar_file]. by rewrite H. Qed.
Lemma on_nar_input_run {A} (x : stream A) f i t a g : x i = Ok (a, g) -> on_input x (mkNar f i t) = Ok (a, mkNar f g t).
Proof. intros H. unfold on_input, zoom. cbn [input_file]. by rewrite H. Qed.

Lemma odd_mod n : (Z.of_nat n mod 2 =? 1) = Nat.odd n.
Proof.
  apply eq_true_iff_eq. rewrite Z.eqb_eq, Nat.odd_spec. split.
  - intros H. exists (Z.to_nat (Z.of_nat n / 2)). pose proof (Z.div_mod (Z.of_nat n) 2 ltac:(lia)).
    pose proof (Z.div_pos (Z.of_nat n) 2). lia.
  - intros [m ->]. symmetry. apply (Z.mod_unique _ _ (Z.of_nat m)); lia.
Qed.
Lemma align_run L p : len L + 2 < 2 ^ 63 -> p = length L -> align_header (at_end L) = Ok (tt, mkFile L (Z.of_nat (length L + length (pad p)))).
Proof.
  intros HL ->. unfold align_header, at_end. erewrite st_bind_run; [| reflexivity]. cbn [file_pos]. rewrite odd_mod. unfold pad. destruct (Nat.odd _).
  - unfold checked_fseek_cur. erewrite st_bind_run; [| reflexivity]. rewrite fseek_run by (cbn [file_pos]; lia). cbn. do 3 f_equal. lia.
  - cbn. by rewrite Nat.add_0_r.
Qed.
(** What is written next fills the gap. *)
Lemma aligned_write L d p : d <> [] -> checked_fwrite d (mkFile L (Z.of_nat (length L + length (pad p)))) = Ok (tt, at_end (L ++ pad p ++ d)).
Proof.
  intros Hd. rewrite fwrite_run by (done || lia). rewrite Nat2Z.id, overwrite_past by lia.
  replace (length L + length (pad p) - length L)%nat with (length (pad p)) by lia. unfold at_end. rewrite !length_app, !Nat2Z.inj_add, Z.add_assoc.
  do 4 f_equal. unfold pad. by destruct (Nat.odd p).
Qed.

Lemma take_drop_length {A} m (l : list A) : take m l ++ drop (length (take m l)) l = l.
Proof.
  rewrite length_take. destruct (Nat.le_gt_cases m (length l)); [rewrite Nat.min_l by lia; apply take_drop |].
  rewrite take_ge, Nat.min_r, drop_ge by lia. apply app_nil_r.
Qed.
Lemma fread_at n b p : let d := take (Z.to_nat n) (drop p b) in fread n (mkFile b (Z.of_nat p)) = Ok (d, mkFile b (Z.of_nat p + len d)).
Proof. unfold fread, mbind, st_bind, get, put, mret, st_ret. cbn [file_bytes file_pos]. by rewrite Nat2Z.id. Qed.
Lemma copy_input_run c i t : forall fuel L p, (p <= length c)%nat -> (length c - p < fuel)%nat -> i = mkFile c (Z.of_nat p) ->
  exists i', copy_input fuel (len c - Z.of_nat p) (mkNar (at_end L) i t) = Ok (tt, mkNar (at_end (L ++ drop p c)) i' t).
Proof.
  induction fuel as [|fuel IH] in i |- *; intros L p Hp Hf ->; [lia |]. cbn [copy_input]. zcases.
  - eexists. rewrite drop_ge by lia. by rewrite app_nil_r.
  - assert (Hn : (0 < Z.to_nat read_buf_size)%nat) by (unfold read_buf_size; lia).
    erewrite st_bind_run; [| apply on_nar_input_run, fread_at].
    remember (Z.to_nat read_buf_size) as m eqn:Em. clear Em. set (d := take m (drop p c)).
    assert (Hd : length d = Nat.min m (length c - p)) by (unfold d; by rewrite length_take, length_drop).
    erewrite st_bind_run; [| apply on_ar_run, fwrite_append].
    destruct (IH (mkFile c (Z.of_nat (p + length d))) (L ++ d) (p + length d)%nat) as [i' E]; [lia | lia | done |].
    exists i'. rewrite Nat2Z.inj_add, Z.sub_add_distr in E. unfold at_end in *. rewrite E.
    assert (Hc : d ++ drop (p + length d) c = drop p c) by (unfold d; by rewrite <- drop_drop, take_drop_length).
    by rewrite <- app_assoc, Hc.
Qed.

Lemma add_file_run L i t name c : len L + 100 < 2 ^ 63 -> len t < 2 ^ 32 -> len c < 10 ^ 10 ->
  exists i', add_file name c (mkNar (at_end L) i t) =
    Ok (tt, mkNar (at_end (L ++ pad (length L) ++ member_header (member_name (bytes_of name) t) (len c) ++ c)) i' (more_names (bytes_of name) t)).
Proof.
  intros HL Ht Hc. unfold add_file. erewrite st_bind_run; [| apply on_ar_run, align_run; [lia | done]].
  erewrite st_bind_run; [| done]. cbv zeta. erewrite st_bind_run; [| done]. cbn [too_long_filenames ar_file].
  rewrite file_header_run by lia. erewrite st_bind_run; [| done]. cbv beta iota. erewrite st_bind_run; [| done]. cbn [ar_file input_file].
  erewrite st_bind_run; [| apply on_ar_run, aligned_write; by destruct (member_name _ _)].
  pose proof (copy_input_run c (mkFile c 0) (more_names (bytes_of name) t) (S (length c))
    (L ++ pad (length L) ++ member_header (member_name (bytes_of name) t) (len c)) 0 ltac:(lia) ltac:(lia) eq_refl) as [i' E].
  exists i'. change (Z.of_nat 0) with 0 in E. rewrite Z.sub_0_r in E. rewrite E. unfold at_end. by rewrite drop_0, <- !app_assoc.
Qed.

Lemma more_names_length name t : (length t <= length (more_names name t))%nat.
Proof. unfold more_names. destruct (_ <? _); [rewrite length_app |]; lia. Qed.
Lemma members_long_names l : forall p t, (length t <= length (members_bytes p t l))%nat.
Proof.
  induction l as [|[name c] l IH]; intros p t; cbn [members_bytes].
  - destruct t; [done |]. rewrite !length_app. lia.
  - rewrite length_app. etransitivity; [apply (more_names_length (bytes_of name)) |]. etransitivity; [apply IH |]. apply Nat.le_add_l.
Qed.

Lemma names_header_length size : 0 <= size < 10 ^ 10 -> length (names_header size) = 60%nat.
Proof. intros H. destruct (decimal_run size H) as (_ & _ & _ & _ & Hd). unfold names_header. rewrite !length_app, !padded_length by (cbn; lia). done. Qed.
Lemma member_header_length name size : (length name <= 16)%nat -> 0 <= size < 10 ^ 10 -> length (member_header name size) = 60%nat.
Proof.
  intros Hn H. destruct (decimal_run size H) as (_ & _ & _ & _ & Hd). unfold member_header. rewrite !length_app, !padded_length by (cbn; lia). done.
Qed.

Lemma add_long_names_run L i t : len L + len (members_bytes (length L) t []) + 100 < 2 ^ 31 ->
  exists s, add_long_names (mkNar (at_end L) i t) = Ok (tt, s) /\ ar_file s = at_end (L ++ members_bytes (length L) t []).
Proof.
  intros H. pose proof (members_long_names [] (length L) t) as Ht. unfold add_long_names. erewrite st_bind_run; [| done].
  cbn [too_long_filenames]. destruct t as [|x t]; [eexists; split; [done |]; by rewrite app_nil_r |].
  change (len (x :: t) =? 0) with false. cbv iota. cbn [members_bytes]. set (names := x :: t) in *.
  rewrite long_names_header_run by lia. erewrite st_bind_run; [| done].
  erewrite st_bind_run; [| apply on_ar_run, align_run; [lia | done]].
  erewrite st_bind_run; [| by apply on_ar_run, aligned_write].
  eexists. split; [apply on_ar_run, fwrite_append |]. unfold at_end. cbn [ar_file]. by rewrite <- !app_assoc.
Qed.
Lemma add_files_run fs l : Forall (fun '(name, c) => fs !! name = Some c) l ->
  forall L i t, len L + len (members_bytes (length L) t l) + 100 < 2 ^ 31 ->
  exists s, add_files fs l.*1 (mkNar (at_end L) i t) = Ok (EXIT_CODE_SUCCESS, s) /\ ar_file s = at_end (L ++ members_bytes (length L) t l).
Proof.
  induction 1 as [|[name c] l Hc _ IH]; intros L i t Hsize.
  - cbn [fmap list_fmap add_files]. destruct (add_long_names_run L i t Hsize) as (s & E & Hs). exists s. split; [| done].
    erewrite st_bind_run; [| exact E]. done.
  - pose proof (members_long_names ((name, c) :: l) (length L) t) as Ht. cbn [fmap list_fmap add_files fst].
    rewrite Hc. cbn [members_bytes] in *. cbv zeta in *.
    set (h := member_header (member_name (bytes_of name) t) (len c)) in *. set (d := pad (length L) ++ h ++ c) in *.
    assert (Hd : (length c <= length d)%nat) by (unfold d; rewrite !length_app; lia). rewrite length_app in Hsize, Ht.
    destruct (add_file_run L i t name c) as [i' E]; [lia | lia | lia |]. erewrite st_bind_run; [| exact E]. fold h. fold d.
    destruct (IH (L ++ d) i' (more_names (bytes_of name) t)) as (s & E' & Hs); [rewrite length_app; lia |].
    exists s. split; [exact E' |]. rewrite Hs. by rewrite length_app, <- app_assoc.
Qed.

(** ** The archive that is read *)

Lemma trim_snoc l c : c <> 32 -> trim (l ++ [c]) = l ++ [c].
Proof.
  intros Hc. induction l as [|x l IH]; cbn [trim app].
  - by destruct (Z.eqb_spec c 32).
  - rewrite IH. by destruct l.
Qed.
Lemma trim_spaces l n : trim (l ++ replicate n 32) = trim l.
Proof.
  assert (E : trim (replicate n 32) = []) by (induction n as [|n IH]; [done | cbn [replicate trim]; by rewrite IH]).
  induction l as [|x l IH]; [done |]. cbn [trim app]. by rewrite IH.
Qed.
Lemma until_nul_id l : 0 ∉ l -> until_nul l = l.
Proof.
  induction l as [|x l IH]; [done |]. intros H. cbn [until_nul]. apply not_elem_of_cons in H as [Hx H].
  destruct (Z.eqb_spec x 0); [congruence | by rewrite IH].
Qed.

(** Names that an archive can hold and that are no special names. *)
Definition plain_name (name : string) : Prop :=
  let l := bytes_of name in (0 ∉ l) /\ l <> [] /\ l <> bytes_of "/" /\ last l <> Some 32.

(** What the linker takes for the name of a member. *)
Definition read_name (name : list Z) : list Z := until_nul (trim name).
Definition special (name : list Z) : bool := bool_decide (read_name name = bytes_of "/") || bool_decide (read_name name = bytes_of "//").

Lemma plain_member name t : plain_name name -> len t < 2 ^ 32 ->
  let field := padded 16 (member_name (bytes_of name) t) in trim field <> [] /\ special field = false.
Proof.
  unfold plain_name, special, read_name, padded. intros (Hz & Hn & Hs & Hsp) Ht. cbv zeta. rewrite trim_spaces.
  assert (F : exists l c, trim (member_name (bytes_of name) t) = l ++ [c] /\ (0 ∉ l ++ [c]) /\ l ++ [c] <> bytes_of "/" /\ l ++ [c] <> bytes_of "//").
  { unfold member_name. destruct (Z.ltb_spec 16 (len (bytes_of name))) as [Hl|Hl].
    - destruct (decimal_run (len t) ltac:(lia)) as (_ & _ & _ & HF & Hd). apply digits_no_space in HF.
      destruct (decimal (len t)) as [|d ds _] using rev_ind; [cbn in Hd; lia |].
      exists (bytes_of "/" ++ ds), d. rewrite app_assoc. pose proof HF as HF'.
      apply Forall_app in HF' as [_ Hx]. apply Forall_cons in Hx as [Hx _]. rewrite trim_snoc by lia. split; [done |].
      split; [| split; intros E; apply (f_equal last) in E; rewrite last_snoc in E; change (Some d = Some 47) in E; injection E; lia].
      rewrite <- app_assoc, elem_of_app. intros [H | H]; [vm_compute in H; set_solver |]. rewrite Forall_forall in HF. apply HF in H. lia.
    - destruct (decide (length (bytes_of name) = 16%nat)) as [E|E].
      + rewrite take_app_le, take_ge by lia. destruct (bytes_of name) as [|c l _] using rev_ind; [done |].
        rewrite last_snoc in Hsp. exists l, c. rewrite trim_snoc by congruence. repeat split; [done | |].
        all: intros E'; rewrite E' in E; discriminate E.
      + rewrite take_ge by (rewrite length_app; change (length (bytes_of "/")) with 1%nat; lia). exists (bytes_of name), 47. split; [by apply trim_snoc |]. repeat split.
        * rewrite elem_of_app. intros [H | H]; [done | set_solver].
        * change (bytes_of "/") with ([] ++ [47]). by intros [E' _]%app_inj_tail.
        * change (bytes_of "//") with (bytes_of "/" ++ [47]). by intros [E' _]%app_inj_tail. }
  destruct F as (l & c & -> & H0 & H2 & H3). split; [by destruct l |]. rewrite until_nul_id by done. by rewrite !bool_decide_eq_false_2 by done.
Qed.

(** *** Reading a header *)

Lemma read_padded n l rest : (length l <= n)%nat -> take n (padded n l ++ rest) = padded n l /\ drop n (padded n l ++ rest) = rest.
Proof. intros H. by rewrite take_app_length', drop_app_length' by (by rewrite padded_length). Qed.

(** A header is three fields: the name, what the linker does not read, the size. *)
Lemma read_header_fields n o s : length n = 16%nat -> length o = 32%nat -> length s = 10%nat ->
  read_ar_header (n ++ o ++ s ++ [0x60; 0x0A]) = mkAr n s [0x60; 0x0A].
Proof.
  intros Hn Ho Hs. unfold read_ar_header. rewrite take_app_length' by done. f_equal.
  - rewrite app_assoc, drop_app_length', take_app_length' by (rewrite ?length_app; lia). done.
  - rewrite !app_assoc, drop_app_length' by (rewrite !length_app; lia). done.
Qed.
Lemma read_file_header name size : (length name <= 16)%nat -> 0 <= size < 10 ^ 10 ->
  read_ar_header (member_header name size) = mkAr (padded 16 name) (padded 10 (decimal size)) [0x60; 0x0A].
Proof.
  intros Hn Hs. destruct (decimal_run size Hs) as (_ & _ & _ & _ & Hd). unfold member_header.
  set (o := padded 12 [48] ++ padded 6 [48] ++ padded 6 [48] ++ padded 8 [54; 52; 52]).
  pose proof (read_header_fields (padded 16 name) o (padded 10 (decimal size))) as E. unfold o in E. rewrite <- !app_assoc in E.
  apply E; [by apply padded_length | done | apply padded_length; lia].
Qed.
Lemma read_names_header size : 0 <= size < 10 ^ 10 ->
  read_ar_header (names_header size) = mkAr (padded 16 (bytes_of "//")) (padded 10 (decimal size)) [0x60; 0x0A].
Proof.
  intros Hs. destruct (decimal_run size Hs) as (_ & _ & _ & _ & Hd). unfold names_header.
  change (padded 48 (bytes_of "//")) with (padded 16 (bytes_of "//") ++ replicate 32 32). rewrite <- app_assoc.
  apply read_header_fields; [done | done | apply padded_length; lia].
Qed.

Lemma atol_size size : 0 <= size < 10 ^ 10 -> atol (padded 10 (decimal size) ++ [0]) = Ok size.
Proof.
  intros Hs. destruct (decimal_run size Hs) as (_ & _ & Hv & HF & Hd). unfold padded. rewrite <- app_assoc. rewrite <- Hv at 3.
  destruct (10 - length (decimal size))%nat as [|n]; cbn [replicate app]; apply atol_stops; rewrite ?Hv; (done || lia).
Qed.

(** *** The members *)

Definition with_input (k : Link) (bytes : list Z) (p : Z) : Link := w_input k (mkFile bytes p).

Lemma link_input_run {A} (x : stream A) k b p a q : x (mkFile b p) = Ok (a, mkFile b q) ->
  Elf.on_input x (with_input k b p) = Ok (a, with_input k b q).
Proof. intros H. unfold Elf.on_input, zoom, with_input, w_input. cbn [Elf.input_file]. by rewrite H. Qed.

Lemma skip_pad k b p : Z.of_nat p + 2 < 2 ^ 63 ->
  (if Z.of_nat p mod 2 =? 1 then Elf.on_input (checked_fseek_cur 1) else mret tt) (with_input k b (Z.of_nat p)) =
  Ok (tt, with_input k b (Z.of_nat (p + length (pad p)))).
Proof.
  intros H. rewrite odd_mod. unfold pad. destruct (Nat.odd p); [| by rewrite Nat.add_0_r].
  apply link_input_run. unfold checked_fseek_cur. erewrite st_bind_run; [| reflexivity]. cbn [file_pos]. rewrite fseek_run by lia.
  cbn. do 3 f_equal. lia.
Qed.

(** One member, up to its contents. *)
Lemma process_member n k pre name size h c post : let b := pre ++ pad (length pre) ++ h ++ c ++ post in
  let start := pre ++ pad (length pre) ++ h in
  len b < 2 ^ 31 -> size = len c -> length h = 60%nat -> read_ar_header h = mkAr name (padded 10 (decimal size)) [0x60; 0x0A] -> trim name <> [] ->
  process_members (S n) (with_input k b (len pre)) =
  (result ← (if special name then mret EXIT_CODE_SUCCESS else process_elf_file);
   if decide (result = EXIT_CODE_SUCCESS) then
     Elf.on_input (checked_fseek (len (start ++ c)));; process_members n
   else mret result) (with_input k b (len start)).
Proof.
  intros b start Hb -> Hh Hr Ht. cbn [process_members].
  assert (Hlen : (length b = length pre + length (pad (length pre)) + 60 + length c + length post)%nat) by (unfold b; rewrite !length_app; lia).
  erewrite st_bind_run; [| by apply link_input_run]. cbn [file_pos]. erewrite st_bind_run; [| apply skip_pad; lia].
  assert (Hd : take 60 (drop (length pre + length (pad (length pre))) b) = h).
  { unfold b. rewrite app_assoc, drop_app_length', take_app_length' by (rewrite ?length_app; lia). done. }
  assert (Hs : Z.of_nat (length pre + length (pad (length pre))) + len h = len start) by (unfold start; rewrite !length_app; lia).
  erewrite st_bind_run; [| apply link_input_run, fread_at]. change (Z.to_nat AR_HEADER_BYTES) with 60%nat. rewrite Hd, Hs, Hh.
  change (negb (Z.of_nat 60 =? AR_HEADER_BYTES)) with false. cbv iota zeta.
  erewrite st_bind_run; [| by apply link_input_run]. cbn [file_pos]. rewrite Hr. cbn [ar_magic ar_name ar_size].
  rewrite (bool_decide_eq_true_2 ([0x60; 0x0A] = [0x60; 0x0A])) by done. erewrite st_bind_run; [| done].
  rewrite (bool_decide_eq_false_2 (trim name = [])) by done. erewrite st_bind_run; [| done].
  rewrite atol_size by lia. erewrite st_bind_run; [| done]. unfold special, read_name. rewrite length_app, Nat2Z.inj_add.
  rewrite <- negb_orb. by destruct (_ || _).
Qed.

Lemma linkable_at k m rt rd o : linkable k m rt rd 0 -> 0 <= o -> o + len (object_bytes m rt rd) + 2000 < 2 ^ 31 -> linkable k m rt rd o.
Proof.
  intros [? ? ? ? Hr ? ? ? ?] Ho H. constructor; try done. unfold object_bytes in H. rewrite !length_app in H.
  pose proof (contents_bytes_length (text_bytes m) (asm_data m) rt rd 640) as Hc. pose proof (object_symbols_length m) as Hs.
  revert Hc. unfold symtab_at, shstrtab_at, rela_data_at, data_at, rela_text_at. lia.
Qed.

Lemma process_end n k b : len b < 2 ^ 31 -> exists p, process_members (S n) (with_input k b (len b)) = Ok (EXIT_CODE_SUCCESS, with_input k b p).
Proof.
  intros Hb. eexists. cbn [process_members]. erewrite st_bind_run; [| by apply link_input_run]. cbn [file_pos].
  erewrite st_bind_run; [| apply skip_pad; lia]. erewrite st_bind_run; [| apply link_input_run, fread_at]. by rewrite drop_ge, take_nil by lia.
Qed.

Lemma process_long_names n k pre t : len pre + len (members_bytes (length pre) t []) < 2 ^ 31 ->
  exists p, process_members (S (S n)) (with_input k (pre ++ members_bytes (length pre) t []) (len pre)) =
    Ok (EXIT_CODE_SUCCESS, with_input k (pre ++ members_bytes (length pre) t []) p).
Proof.
  intros Hb. pose proof (members_long_names [] (length pre) t) as Ht. destruct t as [|x t].
  { cbn [members_bytes] in *. rewrite app_nil_r. apply process_end. cbn in Hb. lia. }
  cbn [members_bytes] in *. set (names := x :: t) in *. set (h := names_header (len names)) in *.
  set (b := pre ++ pad (length pre) ++ h ++ names). rewrite !length_app in Hb.
  pose proof (process_member (S n) k pre (padded 16 (bytes_of "//")) (len names) h names []) as E. cbv zeta in E. rewrite (app_nil_r names) in E.
  fold b in E. rewrite E; [| unfold b; rewrite !length_app; lia | done | apply names_header_length; lia | apply read_names_header; lia | done]. clear E.
  change (special (padded 16 (bytes_of "//"))) with true. cbv iota. erewrite st_bind_run; [| done]. rewrite decide_True by done.
  erewrite st_bind_run; [| apply link_input_run, fseek_run; rewrite !length_app; lia].
  assert (E : (pre ++ pad (length pre) ++ h) ++ names = b) by (unfold b; by rewrite <- !app_assoc).
  rewrite E. apply process_end. unfold b. rewrite !length_app. lia.
Qed.

Definition member_files (l : list (string * Input)) : list (string * list Z) := prod_map id input_bytes <$> l.

Lemma process_members_run l : forall pre t k fuel, let members := members_bytes (length pre) t (member_files l) in
  len pre + len members + 2000 < 2 ^ 31 -> Forall (fun m => plain_name m.1) l -> linkable_inputs k l.*2 -> (length members + 1 < fuel)%nat ->
  match link_inputs k l.*2 with
  | Some k' => exists p, process_members fuel (with_input k (pre ++ members) (len pre)) = Ok (EXIT_CODE_SUCCESS, with_input k' (pre ++ members) p)
  | None => exists k', process_members fuel (with_input k (pre ++ members) (len pre)) = Ok (EXIT_CODE_LINKER_ERROR, k')
  end.
Proof.
  induction l as [|[name [[m rt] rd]] l IH]; intros pre t k fuel members Hsize Hplain Hlink Hfuel.
  { destruct fuel as [|[|fuel]]; [lia | lia |]. unfold members, member_files in *. cbn [fmap list_fmap link_inputs] in *. apply process_long_names. lia. }
  destruct fuel as [|fuel]; [lia |]. pose proof (members_long_names (member_files ((name, (m, rt, rd)) :: l)) (length pre) t) as Ht.
  apply Forall_cons in Hplain as [Hname Hplain]. cbn [fst] in Hname. cbn [fmap list_fmap snd linkable_inputs link_inputs] in *. destruct Hlink as [Hm Hlink].
  unfold members in *. clear members. unfold member_files in *. cbn [fmap list_fmap members_bytes prod_map fst snd id] in *. cbv zeta in *.
  change (input_bytes (m, rt, rd)) with (object_bytes m rt rd) in *. set (c := object_bytes m rt rd) in *.
  set (field := member_name (bytes_of name) t) in *. set (h := member_header field (len c)) in *.
  set (d := pad (length pre) ++ h ++ c) in *. set (t' := more_names (bytes_of name) t) in *.
  set (rest := members_bytes (length pre + length d) t' _) in *. rewrite length_app in Hsize, Hfuel, Ht.
  assert (Hd : (length d = length (pad (length pre)) + length h + length c)%nat) by (unfold d; rewrite !length_app; lia).
  assert (Hf : (length field <= 16)%nat) by (apply member_name_length; lia).
  assert (Hh : length h = 60%nat) by (apply member_header_length; lia).
  set (start := pre ++ pad (length pre) ++ h).
  assert (Eb : pre ++ d ++ rest = start ++ c ++ rest) by (unfold start, d; by rewrite <- !app_assoc).
  assert (Es : start ++ c = pre ++ d) by (unfold start, d; by rewrite <- !app_assoc).
  assert (Hs : (length start + length c = length pre + length d)%nat) by (rewrite <- !length_app; by rewrite Es).
  destruct (plain_member name t Hname ltac:(lia)) as [Htrim Hspecial]. fold field in Htrim, Hspecial.
  pose proof (process_member fuel k pre (padded 16 field) (len c) h c rest) as E. cbv zeta in E. fold start in E.
  replace (pre ++ pad (length pre) ++ h ++ c ++ rest) with (pre ++ d ++ rest) in E by (unfold d; by rewrite <- !app_assoc).
  rewrite E; [| rewrite !length_app; lia | done | done | apply read_file_header; [done | lia] | done]. clear E. rewrite Hspecial.
  pose proof (process_object_at (with_input k (pre ++ d ++ rest) (len start)) m rt rd start rest) as E. fold c in E.
  unfold with_input in E. rewrite link_module_input in E. specialize (E ltac:(apply linkable_input, linkable_at; [done | lia | fold c; lia]) ltac:(unfold with_input; by rewrite Eb)).
  destruct (link_module k m) as [k'|]; cbn [mbind option_bind fmap option_fmap option_map] in *.
  - destruct E as [p E]. erewrite st_bind_run; [| exact E]. rewrite decide_True by done. rewrite <- Eb.
    erewrite st_bind_run; [| apply (link_input_run _ k'), fseek_run; rewrite length_app; lia]. rewrite Es.
    specialize (IH (pre ++ d) t' k' fuel). cbv zeta in IH. rewrite (length_app pre d) in IH. rewrite <- app_assoc in IH. cbn [file_bytes].
    rewrite (length_app pre d). fold rest in IH. apply IH; [lia | done | done | lia].
  - destruct E as [k' E]. exists k'. erewrite st_bind_run; [| exact E]. by rewrite decide_False.
Qed.

Lemma process_archive l k : len (archive_bytes (member_files l)) + 2000 < 2 ^ 31 -> Forall (fun m => plain_name m.1) l -> linkable_inputs k l.*2 ->
  match link_inputs k l.*2 with
  | Some k' => exists f, process_inputs [Some (archive_bytes (member_files l))] k = Ok (EXIT_CODE_SUCCESS, w_input k' f)
  | None => exists k', process_inputs [Some (archive_bytes (member_files l))] k = Ok (EXIT_CODE_LINKER_ERROR, k')
  end.
Proof.
  intros Hsize Hplain Hlink. unfold archive_bytes in *. rewrite length_app in Hsize. change (length AR_GLOBAL_HEADER) with 8%nat in Hsize.
  pose proof (process_members_run l AR_GLOBAL_HEADER [] k (S (length (AR_GLOBAL_HEADER ++ members_bytes 8 [] (member_files l))))) as H.
  change (length AR_GLOBAL_HEADER) with 8%nat in H. cbv zeta in H. set (members := members_bytes 8 [] _) in *.
  specialize (H ltac:(lia) Hplain Hlink ltac:(rewrite length_app; change (length AR_GLOBAL_HEADER) with 8%nat; lia)).
  set (b := AR_GLOBAL_HEADER ++ members) in *. cbn [process_inputs].
  assert (Ei : process_input (with_input k b 0) = process_members (S (length b)) (with_input k b (Z.of_nat 8))).
  { assert (Et : Elf.on_input file_type (with_input k b 0) = Ok (AR_FILE_TYPE, with_input k b 0)) by (by apply link_input_run).
    unfold process_input. rewrite (st_bind_run _ _ _ _ _ Et).
    erewrite st_bind_run; [| apply (link_input_run _ k b 0 tt (Z.of_nat 8)); by apply fseek_run]. rewrite (st_bind_run get _ _ _ _ eq_refl). reflexivity. }
  clearbody b. clear Hsize.
  destruct (link_inputs k l.*2) as [k'|].
  - destruct H as [p H]. exists (mkFile b p). erewrite st_bind_run; [| reflexivity]. erewrite st_bind_run; [| etransitivity; [exact Ei | exact H]].
    rewrite decide_True by done. reflexivity.
  - destruct H as [k' H]. exists k'. erewrite st_bind_run; [| reflexivity]. erewrite st_bind_run; [| etransitivity; [exact Ei | exact H]].
    by rewrite decide_False.
Qed.

Lemma main_run writable ar fs l : writable ar = true -> Forall (fun '(name, c) => fs !! name = Some c) l -> ar ∉ l.*1 ->
  len (archive_bytes l) + 100 < 2 ^ 31 ->
  main writable ("-cr" :: ar :: l.*1)%string fs = Ok (EXIT_CODE_SUCCESS, <[ar := archive_bytes l]> fs).
Proof.
  intros Hw Hfs Har Hsize. unfold main. rewrite bool_decide_eq_true_2 by done. cbn [negb]. unfold Driver.fopen_write. rewrite Hw. cbv iota.
  unfold archive_bytes in Hsize. rewrite length_app in Hsize. change (length AR_GLOBAL_HEADER) with 8%nat in Hsize.
  erewrite st_bind_run; [| by apply on_ar_run].
  destruct (add_files_run (<[ar := []]> fs) l) with (L := AR_GLOBAL_HEADER) (i := empty_file) (t := @nil Z) as (s & E & Hs).
  - rewrite Forall_forall in *. intros [name c] Hin. rewrite lookup_insert_ne; [by apply (Hfs _ Hin) |]. intros ->.
    apply Har, list_elem_of_fmap. by exists (name, c).
  - change (length AR_GLOBAL_HEADER) with 8%nat. lia.
  - change (mkNar (mkFile _ _) empty_file []) with (mkNar (at_end AR_GLOBAL_HEADER) empty_file []). rewrite E. cbn [mbind res_bind].
    rewrite Hs. cbn [Driver.close file_bytes at_end]. by rewrite insert_insert_eq.
Qed.

(** The file that was read last is not looked at again. *)
Lemma executable_input k f : executable (w_input k f) = executable k.
Proof. unfold executable. cbn [w_input l_text l_data l_bss_size symbol_table]. reflexivity. Qed.

(** C29: the archiver and the linker agree. [nar -cr] writes the object files it is given
    into an archive and changes no other file; linking the archive gives the executable, or
    the error, that linking the files one after the other gives. *)
Theorem archive_links writable ar fs (l : list (string * Input))
    (Hw : writable ar = true) (Hfs : Forall (fun m => fs !! m.1 = Some (input_bytes m.2)) l) (Har : ar ∉ l.*1)
    (Hnames : Forall (fun m => plain_name m.1) l) (Hlink : linkable_inputs (mkLink empty_file [] [] 0 []) l.*2)
    (Hsize : len (archive_bytes (member_files l)) + 2000 < 2 ^ 31) :
  let archive := archive_bytes (member_files l) in
  main writable ("-cr" :: ar :: l.*1)%string fs = Ok (EXIT_CODE_SUCCESS, <[ar := archive]> fs) /\
  forall out, link_elf_executable (Some out) [Some archive] = link_elf_executable (Some out) ((fun i => Some (input_bytes i)) <$> l.*2).
Proof.
  cbv zeta. split.
  - assert (E : (member_files l).*1 = l.*1) by (unfold member_files; rewrite <- list_fmap_compose; by apply list_fmap_ext).
    rewrite <- E. apply main_run; [done | | by rewrite E | lia]. unfold member_files. rewrite Forall_fmap.
    eapply Forall_impl; [exact Hfs |]. by intros [name i].
  - intros out. pose proof (no_link_input _ Hlink out) as H. pose proof (process_archive l _ Hsize Hnames Hlink) as H'.
    unfold link_elf_executable at 1. destruct (link_inputs _ l.*2) as [k|].
    + destruct H as [f ->], H' as [f' ->]. cbn [mbind res_bind]. rewrite decide_True by done.
      by rewrite !executable_input.
    + rewrite H. destruct H' as [k' ->]. cbn [mbind res_bind]. by rewrite decide_False.
Qed.

Definition two_files : Driver.FS :=
  (<["main.o" := input_bytes (main_module, [mkRela 1 (3 * 2 ^ 32 + 2) 4294967292], [])]>
    {[ "g_in_a_long_directory.o" := input_bytes (g_module, [], [mkRela 0 (2 ^ 32 + 1) 0]) ]})%string.
Lemma archive_links_witness : exists archive,
  main (fun _ => true) ["-cr"; "lib.a"; "main.o"; "g_in_a_long_directory.o"]%string two_files = Ok (EXIT_CODE_SUCCESS, <["lib.a"%string := archive]> two_files) /\
  link_elf_executable (Some empty_file) [Some archive] = link_elf_executable (Some empty_file) ((fun i => Some (input_bytes i)) <$> two_inputs).
Proof.
  destruct (archive_links (fun _ => true) "lib.a" two_files (zip ["main.o"; "g_in_a_long_directory.o"]%string two_inputs)) as [Hw Hl].
  - done.
  - apply Forall_cons; split; [reflexivity | apply Forall_cons; split; [reflexivity | by apply Forall_nil]].
  - apply (bool_decide_unpack _). by vm_compute.
  - apply Forall_cons; split; [| apply Forall_cons; split; [| by apply Forall_nil]].
    all: apply (bool_decide_unpack _); by vm_compute.
  - exact two_inputs_linkable.
  - by vm_compute.
  - eexists. split; [exact Hw | apply Hl].
Defined.

(** An empty name would get the field of the symbol index, which the linker skips. *)
Example slash_is_special : special (padded 16 (member_name (bytes_of "") [])) = true.
Proof. reflexivity. Qed.
